(* ===== verification/_CoqProject ===== *)
-Q . S2P
Prelude.v
Bytes.v
PathFields.v
ScionPath.v
PathReverse.v
ScionRaw.v
OtherPaths.v
PathInterface.v
GoStrings.v
Addr.v
ScionHdr.v
Extn.v
Options.v
Scmp.v
Drkey.v
Spao.v
RouterConfig.v
RouterProcess.v
RouterLemmas.v
RouterSpec.v
EpicHvf.v
RouterPacket.v
RouterExample.v
RouterProperties.v
RouterSafety.v
RouterOneHop.v
RouterTotal.v
RouterSpao.v
RouterSlowPath.v
RouterReply.v
RouterTyped.v
RouterHandover.v
RouterScmp.v
RouterJourney.v
Bfd.v
Ringbuf.v
Tunnel.v
TunnelSender.v
TunnelProperties.v
StaticInfo.v
SegExt.v
Signed.v
Segment.v
StaticInfoCfg.v
Beaconing.v
PathMetadata.v
Combinator.v
CombinedPath.v
PathSequence.v
Pathpol.v
