(* ===== verification/Prelude.v ===== *)
(** A model in Rocq of the data plane and of the path control plane of this SCION
    implementation ([src/scion-sbom], Go), and proofs that they do what they are
    for: forward packets along authorised paths and nowhere else, build such
    paths, and fail without panics.

    * How the program is put together

    A SCION host sends packets that carry their path: a list of hop fields, each
    with a MAC of the AS that authorised it.  Beacons ([pkg/segment],
    [control/beaconing]) travel from AS to AS and collect signed AS entries with
    those hop fields; a terminated beacon is a path segment; hosts combine up to
    three segments to a path ([private/path/combinator]) and put it into the
    header of their packets ([pkg/slayers]); border routers ([router]) check and
    update the path of every packet that passes.  The development follows this
    order backwards, from the bytes to the beacons, and closes the circle with
    [CombinedPath.combined_path_accepted]: what is combined from beacons that the
    modelled extender made is accepted by the modelled routers.

    * The files

    Vocabulary.  [Prelude] (this file): outcomes of Go calls, machine integers,
    error chains, shared lemmas and tactics.  [Bytes]: slices and big-endian
    accessors.  [GoStrings]: strings, numbers and IP addresses as text.

    The packet format, [pkg/slayers] and [pkg/addr].  [PathFields]: hop and info
    fields and the MAC.  [ScionPath], [PathReverse], [ScionRaw]: the SCION path,
    parsed ([Decoded]) and as bytes ([Raw]), its reversal, and that [Raw] refines
    [Decoded].  [OtherPaths], [PathInterface]: the other path types; the Go
    interface [Path] as the classes that the header's theorems are proved against,
    and the registry of types.  [Addr]: ISD-AS numbers, service, host and full
    addresses.  [ScionHdr]: the SCION header and the checksum.  [Extn],
    [Options]: extension headers and their options.  [Scmp]: SCMP messages and
    UDP.

    Keys.  [Drkey]: key derivation, the router's secret values, the FABRID
    validators.  [Spao]: the packet authenticator and the choice of its key.
    [EpicHvf]: EPIC timestamps and validation fields.

    The router, [router/].  [RouterConfig]: the tables of the data plane, service
    addresses, the choice of a processor.  [RouterProcess]: one packet with a
    SCION path, check by check.  [RouterPacket]: from bytes to the handler of the
    path type, one-hop and EPIC packets.  [RouterSlowPath]: SCMP errors and
    traceroute replies.  A processor works in place: path and options are windows
    of the receive buffer, and writing to them writes the packet; the state passed
    along in the model is the record of the processor, with the buffer in it.

    Promises of the router.  [RouterSpec]: the abstract router on the decoded
    path, and the simulation.  [RouterLemmas], [RouterExample]: inversion lemmas,
    concrete routers.  [RouterProperties]: forwarding is sound and complete for
    the abstract router, and a segment is crossed.  [RouterSafety],
    [RouterTotal]: no panics; only path and options are written.  [RouterOneHop],
    [RouterSpao], [RouterTyped]: one-hop paths, authenticators across routers,
    integers and bytes stay in their types.  [RouterHandover], [RouterReply],
    [RouterScmp]: what the slow path finds, answers, and whether the answer comes
    back.  [RouterJourney]: whole paths, with crossings and peering links.
    [Bfd]: the sessions that watch the links.

    The control plane.  [StaticInfo], [SegExt]: the extensions of an AS entry.
    [Signed]: signed messages and signers.  [Segment]: segments, their validation,
    expiry, extension and verification.  [StaticInfoCfg]: interfaces, and what is
    announced about them.  [Beaconing]: extending a beacon.  [PathMetadata],
    [Combinator]: the graph of segments, the search, the paths and their metadata.
    [CombinedPath]: combined paths are authorised and forwarded.  [PathSequence]:
    the sequences of the path policies, which filter combined paths.  [Pathpol]:
    hop predicates, access lists and policies with options.

    The tunnel of the gateway, [gateway/dataplane], which carries IP packets in
    frames over SCION.  [Ringbuf]: the ring buffers between goroutines.  [Tunnel]:
    the encoder, frame buffers, reassembly lists, workers, the ingress server.
    [TunnelSender]: what any run of the encoder makes; [TunnelProperties]: what the
    other side makes of any of its frames.

    * Conventions

    A definition has the name of the function or type it translates; a method
    [T.f] is [f] in the Module of [T].  Calls return an [outcome]: [Ok] a value,
    [Err] an error chain, or [Panic]; a method that changes its receiver is a
    function from and to the receiver ([SE]).  Integers are [Z] with the
    wrap-around written out ([u8], [u16], [int_of]); bytes are [list Z].  Go maps
    are [gmap]s; where a map is iterated, the order is a parameter and the
    theorems hold for every order.  What is not in the repository is a parameter:
    AES and CMAC block functions, SHA-256, ECDSA and ML-DSA ([Crypto] with its
    laws), the protobuf encodings ([SegmentCodec]), parts of the [net] package,
    [sort.Sort], gopacket's serialize buffer; a theorem names the laws it uses and
    its witness instantiates them.  The clock is an argument.

    Fuel: loops without a structural measure count their iterations.  The parsing
    of options, the checksum and the printing of numbers have the length of their
    data as fuel, the folding of the checksum three rounds, the swaps of a
    reversal the number of hops, [Graph.search] the number [enough] of sequences
    of at most three edges, [FrameBuf.scan] the length of the frame (packets have 20
    bytes at least); the theorems ([options_roundtrip] and
    [decode_extension_safe], [checksum_verifies], [format_addr_port_roundtrip],
    [reverse_correct], [GetPaths_spec], [tunnel_delivers_only_sent]) show that this
    is enough.  [Encoder.Read] with its fuel is a tool for examples: the theorems are
    about single iterations of its loop, with other goroutines in between.

    * What is shown

    Router: [forwarding_sound] and [forwarding_complete] (refinement of the
    abstract router in both directions), [router_no_panic],
    [router_writes_window], [router_well_typed], [onehop_link]; slow path:
    [slow_path_total], [slow_path_reply], [reply_accepted] and
    [early_error_reply_lost].  BFD: [up_means_both_ways], [keeps_up],
    [sessions_come_up] and [admin_down_for_good].  Formats: round trips of headers,
    addresses, paths and messages, agreement of the two path representations
    ([raw_refines_decoded]), reversal, checksum.  Keys: what MACs and
    authenticators cover ([mac_authenticates], [epic_hvf_binds],
    [auth_cmac_binds], [spao_survives_routing], [fabrid_end_to_end]) and what the
    FABRID path validator does not ([validator_ignores_tail]).  Control plane:
    [extend_chains] and [extend_verifies] (beacons stay authentic and verifiable),
    [GetPaths_spec] (the search finds the joins of segments, all of them, in
    order), [filterDuplicates_spec], [metadata_conservative],
    [latencies_symmetric], [expiry_bounds], [sequence_matches_hops] (a policy that
    compares texts selects the paths whose hops match) with its exception
    [capital_as_never_matches], [acl_first_match], [options_by_weight] (but
    [unsorted_options_mix] and [option_extends_ignored]), and what the digests of the detached
    extensions do and do not protect ([epic_authenticators_bound],
    [fabrid_digest_ignores_addresses], [epic_authenticators]).  Gateway:
    [ring_refines_queue]; [tunnel_delivers_only_sent] and [tunnel_roundtrip] (safety
    on any network, and transparency on one without loss), [receive_frame] (datagrams
    reach the worker), [unresolved_source_leaks] and [framing_error_drops] (what is
    lost).

    * Not modelled

    Sockets, goroutines, queues, metrics and logging of the router and the gateway,
    and the set-up of its connections: input and output.  Storage and propagation of
    beacons, path servers and their caches, the trust store, certificates
    ([pkg/scrypto/cppki], [private/trust] except for the signer), and the
    protobuf and gRPC code: databases, remote calls and generated code.  The
    rest of the gateway (the choice of sessions and paths), the daemon, the SDK
    [pkg/snet], the tools and the PKI commands: users of the modelled parts.  The
    FABRID policies in the metadata of a path, the text form of segments and maps
    for logs, policies that extend others with their configuration, and
    the generated parsers. *)
From stdpp Require Export base numbers list strings gmap.
From Stdlib Require Export ZArith Lia.
From Stdlib Require Export ZifyBool.

#[global] Open Scope Z_scope.

(** * Outcomes of Go code *)

(** A Go [error]: the chain of messages, outermost first.  [serrors.New m] is
    [New m], [serrors.WrapStr m cause] is [WrapStr m cause]; the key/value
    context that [serrors] attaches is not part of the value, because no code
    reads it back. *)
Definition error := list string.
Definition New (m : string) : error := [m].
Definition WrapStr (m : string) (cause : error) : error := m :: cause.

(** [errors.Is err target] for a sentinel [target]: some suffix of the chain is
    the sentinel. *)
Fixpoint errors_Is (err target : error) : bool :=
  bool_decide (err = target) ||
  match err with [] => false | _ :: cause => errors_Is cause target end.

(** What a Go function call can do: return a value, return a non-nil error, or
    panic (an index or a slice expression out of range, an explicit [panic]). *)
Inductive outcome (A : Type) :=
| Ok (a : A)
| Err (e : error)
| Panic.
Arguments Ok {A} a.
Arguments Err {A} e.
Arguments Panic {A}.

#[export] Instance outcome_ret : MRet outcome := @Ok.
#[export] Instance outcome_bind : MBind outcome := λ A B f m,
  match m with Ok a => f a | Err e => Err e | Panic => Panic end.
#[export] Instance outcome_fmap : FMap outcome := λ A B f m,
  match m with Ok a => Ok (f a) | Err e => Err e | Panic => Panic end.

#[export] Instance error_eq_dec : EqDecision error.
Proof. solve_decision. Defined.
#[export] Instance outcome_eq_dec `{EqDecision A} : EqDecision (outcome A).
Proof. solve_decision. Defined.

(** Fails with [e] when the Go condition [c] of an early return holds. *)
Definition fail_if (c : bool) (e : error) : outcome unit :=
  if c then Err e else Ok tt.

(** Adds an outer message to an error. *)
Definition wrap_err {A} (m : string) (o : outcome A) : outcome A :=
  match o with Err e => Err (WrapStr m e) | o => o end.

(** The call neither panics nor is stuck: it returns a value or an error. *)
Definition no_panic {A} (o : outcome A) : Prop := o ≠ Panic.

Section outcome_lemmas.
Context {A B : Type}.
Implicit Types (m : outcome A) (f : A → outcome B).

Lemma bind_Ok m f b : m ≫= f = Ok b ↔ ∃ a, m = Ok a ∧ f a = Ok b.
Proof. destruct m; naive_solver. Qed.

Lemma bind_Err m f e : m ≫= f = Err e ↔ m = Err e ∨ ∃ a, m = Ok a ∧ f a = Err e.
Proof. destruct m; naive_solver. Qed.

Lemma bind_Panic m f : m ≫= f = Panic ↔ m = Panic ∨ ∃ a, m = Ok a ∧ f a = Panic.
Proof. destruct m; naive_solver. Qed.

Lemma fmap_Ok (f : A → B) m b : f <$> m = Ok b ↔ ∃ a, m = Ok a ∧ b = f a.
Proof. destruct m; naive_solver. Qed.

Lemma no_panic_Ok (a : A) : no_panic (Ok a).
Proof. done. Qed.

Lemma no_panic_Err e : no_panic (@Err A e).
Proof. done. Qed.

Lemma no_panic_bind m f :
  no_panic m → (∀ a, m = Ok a → no_panic (f a)) → no_panic (m ≫= f).
Proof. destruct m; unfold no_panic; naive_solver. Qed.

Lemma no_panic_fmap (f : A → B) m : no_panic m → no_panic (f <$> m).
Proof. destruct m; unfold no_panic; naive_solver. Qed.

Lemma no_panic_wrap s m : no_panic m → no_panic (wrap_err s m).
Proof. destruct m; unfold no_panic; naive_solver. Qed.

Lemma wrap_err_Ok s m a : wrap_err s m = Ok a ↔ m = Ok a.
Proof. destruct m; naive_solver. Qed.
End outcome_lemmas.

Lemma Ok_inj {A} (a b : A) : Ok a = Ok b → a = b.
Proof. by intros [= ->]. Qed.

Lemma fail_if_Ok c e u : fail_if c e = Ok u ↔ c = false.
Proof. unfold fail_if; destruct c, u; naive_solver. Qed.

Lemma fail_if_no_panic c e : no_panic (fail_if c e).
Proof. by destruct c. Qed.

Create HintDb go.
Create Rewrite HintDb len.
#[export] Hint Resolve no_panic_Ok no_panic_Err fail_if_no_panic no_panic_fmap
  no_panic_wrap : go.

(** Takes apart hypotheses saying that a chain of calls returned a value. *)
Ltac go_inv :=
  repeat match goal with
  | H : mbind _ _ = Ok _ |- _ => apply bind_Ok in H as (?&?&H)
  | H : mret _ = Ok _ |- _ => injection H as H
  | H : fmap _ _ = Ok _ |- _ => apply fmap_Ok in H as (?&?&?)
  | H : fail_if _ _ = Ok _ |- _ => apply fail_if_Ok in H
  | H : wrap_err _ _ = Ok _ |- _ => apply wrap_err_Ok in H
  | H : Err _ = Ok _ |- _ => discriminate H
  | H : Panic = Ok _ |- _ => discriminate H
  | H : Ok _ = Ok _ |- _ => injection H as H
  | H : tt = _ |- _ => clear H
  end; simplify_eq.

(** Runs a chain of calls up to the first one that is not a value. *)
Ltac go_cbn := cbn [fail_if mbind outcome_bind mret outcome_ret fmap outcome_fmap].

(** Discharges the guard of an early return that does not fire. *)
Ltac go_guard :=
  match goal with
  | |- context [fail_if ?c _] => replace c with false by lia; go_cbn
  end.

(** * Methods with a receiver *)

(** A method that may mutate its receiver, of type [S], before it returns or
    fails: the receiver's state is kept on every path. *)
Definition SE (S A : Type) : Type := S → S * outcome A.

#[export] Instance SE_ret {S} : MRet (SE S) := λ A a s, (s, Ok a).
#[export] Instance SE_bind {S} : MBind (SE S) := λ A B f m s,
  match m s with
  | (s', Ok a) => f a s'
  | (s', Err e) => (s', Err e)
  | (s', Panic) => (s', Panic)
  end.

Definition lift {S A} (o : outcome A) : SE S A := λ s, (s, o).
Definition gets {S A} (f : S → A) : SE S A := λ s, (s, Ok (f s)).
Definition modify {S} (f : S → S) : SE S unit := λ s, (f s, Ok tt).

(** Runs a method on a field of the receiver. *)
Definition zoom {S T A} (proj : S → T) (upd : T → S → S) (m : SE T A) : SE S A :=
  λ s, let '(t, r) := m (proj s) in (upd t s, r).

(** Adds an outer message to the error of a method. *)
Definition wrap_errS {S A} (msg : string) (m : SE S A) : SE S A :=
  λ s, let '(s', r) := m s in (s', wrap_err msg r).

(** The result of a call, and the receiver after it. *)
Definition result {S A} (m : SE S A) (s : S) : outcome A := (m s).2.
Definition after {S A} (m : SE S A) (s : S) : S := (m s).1.

Section SE_lemmas.
Context {S A B : Type}.
Implicit Types (m : SE S A) (f : A → SE S B) (s : S).

Lemma SE_bind_eq m f s s' a :
  m s = (s', Ok a) → (m ≫= f) s = f a s'.
Proof. intros H. unfold mbind, SE_bind. by rewrite H. Qed.

Lemma SE_bind_Ok m f s s'' b :
  (m ≫= f) s = (s'', Ok b) ↔ ∃ s' a, m s = (s', Ok a) ∧ f a s' = (s'', Ok b).
Proof. unfold mbind, SE_bind. destruct (m s) as [? [| |]]; naive_solver. Qed.

Lemma SE_bind_Panic m f s s'' :
  (m ≫= f) s = (s'', Panic) ↔
  m s = (s'', Panic) ∨ ∃ s' a, m s = (s', Ok a) ∧ f a s' = (s'', Panic).
Proof. unfold mbind, SE_bind. destruct (m s) as [? [| |]]; naive_solver. Qed.

Lemma SE_bind_Err m f s s'' e :
  (m ≫= f) s = (s'', Err e) ↔
  m s = (s'', Err e) ∨ ∃ s' a, m s = (s', Ok a) ∧ f a s' = (s'', Err e).
Proof. unfold mbind, SE_bind. destruct (m s) as [? [| |]]; naive_solver. Qed.
End SE_lemmas.

(** * Machine integers *)

(** An unsigned integer of [w] bits is its value; conversions and arithmetic
    wrap around. *)
Definition uint_of (w x : Z) : Z := x mod 2 ^ w.
Abbreviation u8 := (uint_of 8).
Abbreviation u16 := (uint_of 16).
Abbreviation u32 := (uint_of 32).
Abbreviation u64 := (uint_of 64).

(** A signed integer of [w] bits, two's complement. *)
Definition int_of (w x : Z) : Z := (x + 2 ^ (w - 1)) mod 2 ^ w - 2 ^ (w - 1).
Abbreviation i64 := (int_of 64).

Definition is_uint (w x : Z) : Prop := 0 ≤ x < 2 ^ w.
Abbreviation is_u8 := (is_uint 8).
Abbreviation is_u16 := (is_uint 16).
Abbreviation is_u32 := (is_uint 32).
Abbreviation is_u64 := (is_uint 64).

Lemma uint_of_small w x : is_uint w x → uint_of w x = x.
Proof. intros. by apply Z.mod_small. Qed.

Lemma uint_of_range w x : 0 ≤ w → is_uint w (uint_of w x).
Proof. intros. apply Z.mod_pos_bound. lia. Qed.

(** [is_uint] for the widths of the program, as plain bounds. *)
Lemma is_u8_iff x : is_u8 x ↔ 0 ≤ x < 256. Proof. done. Qed.
Lemma is_u16_iff x : is_u16 x ↔ 0 ≤ x < 65536. Proof. done. Qed.
Lemma is_u32_iff x : is_u32 x ↔ 0 ≤ x < 4294967296. Proof. done. Qed.
Lemma is_u64_iff x : is_u64 x ↔ 0 ≤ x < 18446744073709551616. Proof. done. Qed.

(** Turns unsigned ranges into bounds that [lia] reads. *)
Ltac uint_bounds :=
  repeat match goal with
  | H : is_uint 8 ?x |- _ => change (0 ≤ x < 256) in H
  | H : is_uint 16 ?x |- _ => change (0 ≤ x < 65536) in H
  | H : is_uint 32 ?x |- _ => change (0 ≤ x < 4294967296) in H
  | H : is_uint 64 ?x |- _ => change (0 ≤ x < 18446744073709551616) in H
  | |- is_uint 8 ?x => change (0 ≤ x < 256)
  | |- is_uint 16 ?x => change (0 ≤ x < 65536)
  | |- is_uint 32 ?x => change (0 ≤ x < 4294967296)
  | |- is_uint 64 ?x => change (0 ≤ x < 18446744073709551616)
  end.

Ltac ulia := uint_bounds; lia.

(** [ulia] with [/] and [mod] by constants. *)
Ltac dlia := uint_bounds; Z.div_mod_to_equations; lia.

Lemma land_ones_mod x n : 0 ≤ n → Z.land x (2 ^ n - 1) = x mod 2 ^ n.
Proof. intros. rewrite <- Z.land_ones, Z.ones_equiv by lia. f_equal; lia. Qed.

(** XOR stays within the width of its arguments. *)
Lemma lxor_uint w a b : 0 ≤ w → is_uint w a → is_uint w b → is_uint w (Z.lxor a b).
Proof.
  intros Hw [Ha Ha'] [Hb Hb']. assert (0 ≤ Z.lxor a b) as H0 by (apply Z.lxor_nonneg; lia).
  split; [done|]. destruct (decide (Z.lxor a b = 0)) as [->|Hne]; [lia|].
  assert (∀ x, 0 ≤ x < 2 ^ w → x < 2 ^ w ∧ (x ≠ 0 → Z.log2 x < w)) as Hlog.
  { intros x Hx. split; [lia|]. intros. apply Z.log2_lt_pow2; lia. }
  apply Z.log2_lt_pow2; [lia|]. pose proof (Z.log2_lxor a b Ha Hb) as Hl.
  destruct (decide (a = 0)) as [->|Ea]; [rewrite Z.lxor_0_l in *; by apply Hlog|].
  destruct (decide (b = 0)) as [->|Eb]; [rewrite Z.lxor_0_r in *; by apply Hlog|].
  pose proof (proj2 (Hlog a (conj Ha Ha')) Ea). pose proof (proj2 (Hlog b (conj Hb Hb')) Eb). lia.
Qed.

(** A high part and a low part that do not overlap: [|] is [+]. *)
Lemma lor_disjoint_add a b n :
  0 ≤ n → 0 ≤ b < 2 ^ n → a mod 2 ^ n = 0 → Z.lor a b = a + b.
Proof.
  intros Hn Hb Ha. symmetry. apply Z.add_nocarry_lor. apply Z.bits_inj'. intros i Hi.
  rewrite Z.land_spec, Z.bits_0. destruct (decide (i < n)).
  - assert (a = a / 2 ^ n * 2 ^ n) as -> by (rewrite (Z.div_mod a (2 ^ n)) at 1 by lia; lia).
    by rewrite Z.mul_pow2_bits_low by lia.
  - assert (b = b mod 2 ^ n) as -> by (by rewrite Z.mod_small).
    by rewrite Z.mod_pow2_bits_high, andb_false_r by lia.
Qed.

(** The two flag bits of a byte, read one at a time and together. *)
Lemma land_low2 x k : 0 ≤ k < 4 → Z.land x k = Z.land (x mod 4) k.
Proof.
  intros Hk. change 4 with (2 ^ 2). rewrite <- Z.land_ones, <- Z.land_assoc by lia.
  f_equal. symmetry. rewrite Z.land_comm, Z.land_ones by lia. apply Z.mod_small. done.
Qed.

Lemma flag_bits x :
  (if Z.land x 1 =? 1 then 1 else 0) + (if Z.land x 2 =? 2 then 2 else 0) = Z.land x 3.
Proof.
  rewrite !(land_low2 x) by lia.
  assert (x mod 4 = 0 ∨ x mod 4 = 1 ∨ x mod 4 = 2 ∨ x mod 4 = 3)
    as [->|[->|[->| ->]]] by dlia; done.
Qed.
