(* ===== verification/Bytes.v ===== *)
(** Byte slices: Go's indexing, slicing, [copy] and the big-endian accessors of
    [encoding/binary], with their panics, and the lemmas the codecs share. *)
From S2P Require Export Prelude.

Abbreviation byte := Z (only parsing).
Abbreviation bytes := (list Z).

(** Every element of the slice is a value of type [byte]. *)
Definition wf_bytes (b : bytes) : Prop := Forall is_u8 b.

Definition len {A} (l : list A) : Z := Z.of_nat (length l).

(** [make([]byte, n)] *)
Definition make_bytes (n : Z) : bytes := replicate (Z.to_nat n) 0.

(** The first [n] elements and the rest, if there are [n] elements. *)
Fixpoint split_at {A} (n : nat) (l : list A) : option (list A * list A) :=
  match n with
  | O => Some ([], l)
  | S n => match l with
           | [] => None
           | x :: l => match split_at n l with
                       | Some (a, b) => Some (x :: a, b)
                       | None => None
                       end
           end
  end.

(** [l[i]] *)
Definition get {A} (l : list A) (i : Z) : outcome A :=
  if i <? 0 then Panic else
  match l !! Z.to_nat i with Some x => Ok x | None => Panic end.

(** [l[i] = v] *)
Definition put {A} (l : list A) (i : Z) (v : A) : outcome (list A) :=
  if i <? 0 then Panic else
  match split_at (Z.to_nat i) l with
  | Some (a, _ :: b) => Ok (a ++ v :: b)
  | _ => Panic
  end.

(** [f(l[lo:hi])] for a callee that writes into its argument: the written
    slice is spliced back into [l].  The bounds are checked against the length,
    not the capacity, of [l]. *)
Definition on_sub {A} (l : list A) (lo hi : Z)
    (f : list A → outcome (list A)) : outcome (list A) :=
  if (lo <? 0) || (hi <? lo) then Panic else
  match split_at (Z.to_nat lo) l with
  | Some (a, r) => match split_at (Z.to_nat (hi - lo)) r with
                   | Some (m, c) => m' ← f m; Ok (a ++ m' ++ c)
                   | None => Panic
                   end
  | None => Panic
  end.

(** [l[lo:hi]] *)
Definition sub {A} (l : list A) (lo hi : Z) : outcome (list A) :=
  if (lo <? 0) || (hi <? lo) then Panic else
  match split_at (Z.to_nat lo) l with
  | Some (_, r) => match split_at (Z.to_nat (hi - lo)) r with
                   | Some (m, _) => Ok m
                   | None => Panic
                   end
  | None => Panic
  end.

(** [l[lo:]] and [f(l[lo:])] *)
Definition sub_from {A} (l : list A) (lo : Z) : outcome (list A) := sub l lo (len l).
Definition on_sub_from {A} (l : list A) (lo : Z) f := on_sub l lo (@len A l) f.

(** [copy(dst, src)]: the new contents of [dst]. *)
Definition copy {A} (dst src : list A) : list A :=
  take (length dst) src ++ drop (length src) dst.

(** Big-endian value of a sequence of bytes, and the [n] low bytes of a value. *)
Definition be_val (b : bytes) : Z := fold_left (λ acc x, acc * 256 + x) b 0.
Fixpoint be_bytes (n : nat) (v : Z) : bytes :=
  match n with
  | O => []
  | S n => be_bytes n (v / 256) ++ [v mod 256]
  end.

(** [binary.BigEndian.UintN(b)] and [binary.BigEndian.PutUintN(b, v)] *)
Definition get_be (n : nat) (b : bytes) : outcome Z :=
  match split_at n b with Some (a, _) => Ok (be_val a) | None => Panic end.
Definition put_be (n : nat) (v : Z) (b : bytes) : outcome bytes :=
  match split_at n b with Some (_, r) => Ok (be_bytes n v ++ r) | None => Panic end.

Definition Uint16 := get_be 2.
Definition Uint32 := get_be 4.
Definition Uint64 := get_be 8.
Definition PutUint16 (b : bytes) (v : Z) := put_be 2 v b.
Definition PutUint32 (b : bytes) (v : Z) := put_be 4 v b.
Definition PutUint64 (b : bytes) (v : Z) := put_be 8 v b.

(** * Splitting *)

Lemma split_at_take_drop {A} n (l : list A) :
  split_at n l = if (n <=? length l)%nat then Some (take n l, drop n l) else None.
Proof.
  revert l. induction n as [|n IH]; intros [|x l]; try done.
  simpl. rewrite IH. by destruct (n <=? length l)%nat.
Qed.

Lemma split_at_app {A} n (a b : list A) :
  length a = n → split_at n (a ++ b) = Some (a, b).
Proof.
  intros <-. rewrite split_at_take_drop, length_app.
  rewrite (proj2 (Nat.leb_le _ _)) by lia. by rewrite take_app_length, drop_app_length.
Qed.

Lemma len_nonneg {A} (l : list A) : 0 ≤ len l.
Proof. unfold len. lia. Qed.

Lemma len_app {A} (a b : list A) : len (a ++ b) = len a + len b.
Proof. unfold len. rewrite length_app. lia. Qed.

Lemma len_cons {A} (x : A) l : len (x :: l) = 1 + len l.
Proof. unfold len. simpl. lia. Qed.

Lemma len_nil {A} : len (@nil A) = 0.
Proof. done. Qed.

Lemma len_take {A} n (l : list A) : len (take n l) = Z.min (Z.of_nat n) (len l).
Proof. unfold len. rewrite length_take. lia. Qed.

Lemma len_drop {A} n (l : list A) : len (drop n l) = Z.max 0 (len l - Z.of_nat n).
Proof. unfold len. rewrite length_drop. lia. Qed.

Lemma len_make_bytes n : 0 ≤ n → len (make_bytes n) = n.
Proof. intros. unfold len, make_bytes. rewrite length_replicate. lia. Qed.

Lemma length_be_bytes n v : length (be_bytes n v) = n.
Proof. revert v. induction n; intros; simpl; [done|]. rewrite length_app, IHn. simpl. lia. Qed.

Lemma len_be_bytes n v : len (be_bytes n v) = Z.of_nat n.
Proof. unfold len. by rewrite length_be_bytes. Qed.

Lemma len_copy {A} (dst src : list A) : len (copy dst src) = len dst.
Proof. unfold copy. rewrite len_app, len_take, len_drop. unfold len. lia. Qed.

#[export] Hint Rewrite @len_app @len_cons @len_nil @len_take @len_drop @len_be_bytes
  @len_copy : len.

(** Arithmetic on lengths. *)
Ltac len_lia :=
  autorewrite with len in *;
  repeat match goal with
  | |- context [len ?l] =>
      lazymatch goal with H : 0 ≤ len l |- _ => fail | _ => pose proof (len_nonneg l) end
  | _ : context [len ?l] |- _ =>
      lazymatch goal with H : 0 ≤ len l |- _ => fail | _ => pose proof (len_nonneg l) end
  end; ulia.

Lemma split_len {A} (n : Z) (b : list A) :
  0 ≤ n ≤ len b → ∃ a c, b = a ++ c ∧ len a = n ∧ len c = len b - n.
Proof.
  intros. exists (take (Z.to_nat n) b), (drop (Z.to_nat n) b).
  rewrite take_drop. split_and!; [done|len_lia..].
Qed.

Lemma drop_len_app {A} n (a c : list A) : len a = n → drop (Z.to_nat n) (a ++ c) = c.
Proof. intros <-. unfold len. rewrite Nat2Z.id. apply drop_app_length. Qed.

Lemma take_len_app {A} n (a c : list A) : len a = n → take (Z.to_nat n) (a ++ c) = a.
Proof. intros <-. unfold len. rewrite Nat2Z.id. apply take_app_length. Qed.

Lemma drop_all {A} n (a : list A) : len a = n → drop (Z.to_nat n) a = [].
Proof. intros <-. apply drop_ge. unfold len. lia. Qed.

Lemma drop_len {A} n (a : list A) : len a = Z.of_nat n → drop n a = [].
Proof. intros H. apply drop_ge. unfold len in H. lia. Qed.

(** * In-range slice operations *)

Lemma sub_Ok {A} (l : list A) lo hi :
  0 ≤ lo ≤ hi → hi ≤ len l →
  sub l lo hi = Ok (take (Z.to_nat (hi - lo)) (drop (Z.to_nat lo) l)).
Proof.
  intros. unfold sub, len in *. replace ((lo <? 0) || (hi <? lo)) with false by lia.
  rewrite !split_at_take_drop, (proj2 (Nat.leb_le _ _)) by lia.
  rewrite split_at_take_drop, length_drop, (proj2 (Nat.leb_le _ _)) by lia. done.
Qed.

Lemma sub_inv {A} (l : list A) lo hi r :
  sub l lo hi = Ok r → 0 ≤ lo ≤ hi ∧ hi ≤ len l ∧
    r = take (Z.to_nat (hi - lo)) (drop (Z.to_nat lo) l).
Proof.
  unfold sub, len. destruct ((lo <? 0) || (hi <? lo)) eqn:E; [done|].
  rewrite split_at_take_drop. destruct (Nat.leb_spec (Z.to_nat lo) (length l)); [|done].
  rewrite split_at_take_drop, length_drop. destruct (Nat.leb_spec (Z.to_nat (hi - lo)) (length l - Z.to_nat lo)); [|done].
  intros [= <-]. repeat split; lia.
Qed.

Lemma sub_no_panic {A} (l : list A) lo hi :
  0 ≤ lo ≤ hi → hi ≤ len l → no_panic (sub l lo hi).
Proof. intros. rewrite sub_Ok by done. done. Qed.

Lemma len_sub {A} (l : list A) lo hi r : sub l lo hi = Ok r → len r = hi - lo.
Proof. intros (?&?&->)%sub_inv. len_lia. Qed.

(** The middle of an explicit concatenation. *)
Lemma sub_mid {A} (a m c : list A) lo hi :
  lo = len a → hi = len a + len m → sub (a ++ m ++ c) lo hi = Ok m.
Proof.
  intros -> ->. rewrite sub_Ok by len_lia. unfold len.
  replace (Z.to_nat (Z.of_nat (length a))) with (length a) by lia.
  rewrite drop_app_length.
  replace (Z.to_nat _) with (length m) by lia. by rewrite take_app_length.
Qed.

Lemma sub_prefix {A} (m c : list A) hi : hi = len m → sub (m ++ c) 0 hi = Ok m.
Proof. intros. apply (sub_mid [] m c); [done|]. rewrite len_nil. lia. Qed.

Lemma sub_suffix {A} (a m : list A) lo hi :
  lo = len a → hi = len a + len m → sub (a ++ m) lo hi = Ok m.
Proof. intros. rewrite <- (app_nil_r m) at 1. by apply sub_mid. Qed.

Lemma sub_whole {A} (l : list A) hi : hi = len l → sub l 0 hi = Ok l.
Proof. intros. rewrite <- (app_nil_r l) at 1. by apply sub_prefix. Qed.

Lemma on_sub_Ok {A} (l : list A) lo hi f :
  0 ≤ lo ≤ hi → hi ≤ len l →
  on_sub l lo hi f =
    m' ← f (take (Z.to_nat (hi - lo)) (drop (Z.to_nat lo) l));
    Ok (take (Z.to_nat lo) l ++ m' ++ drop (Z.to_nat hi) l).
Proof.
  intros. unfold on_sub, len in *. replace ((lo <? 0) || (hi <? lo)) with false by lia.
  rewrite !split_at_take_drop, (proj2 (Nat.leb_le _ _)) by lia.
  rewrite split_at_take_drop, length_drop, (proj2 (Nat.leb_le _ _)) by lia.
  rewrite drop_drop. by replace (Z.to_nat lo + Z.to_nat (hi - lo))%nat with (Z.to_nat hi) by lia.
Qed.

Lemma on_sub_mid {A} (a m c : list A) lo hi f :
  lo = len a → hi = len a + len m →
  on_sub (a ++ m ++ c) lo hi f = m' ← f m; Ok (a ++ m' ++ c).
Proof.
  intros. unfold on_sub. rewrite split_at_app by (unfold len in *; lia).
  rewrite split_at_app by (unfold len in *; lia).
  by replace ((lo <? 0) || (hi <? lo)) with false by len_lia.
Qed.

Lemma on_sub_prefix {A} (m c : list A) hi f :
  hi = len m → on_sub (m ++ c) 0 hi f = m' ← f m; Ok (m' ++ c).
Proof. intros. apply (on_sub_mid [] m c); [done|]. rewrite len_nil. lia. Qed.

Lemma on_sub_suffix {A} (a m : list A) lo hi f :
  lo = len a → hi = len a + len m → on_sub (a ++ m) lo hi f = m' ← f m; Ok (a ++ m').
Proof.
  intros. rewrite <- (app_nil_r m) at 1. rewrite on_sub_mid by done.
  destruct (f m); go_cbn; [|done..]. by rewrite app_nil_r.
Qed.

Lemma on_sub_whole {A} (l : list A) hi f : hi = len l → on_sub l 0 hi f = f l.
Proof.
  intros. rewrite (on_sub_suffix [] l) by done. destruct (f l); done.
Qed.

Lemma put_be_app n v a b : len a = Z.of_nat n → put_be n v (a ++ b) = Ok (be_bytes n v ++ b).
Proof. intros H. unfold put_be. rewrite split_at_app; [done|]. unfold len in H. lia. Qed.

Lemma get_be_app n a b : len a = Z.of_nat n → get_be n (a ++ b) = Ok (be_val a).
Proof. intros H. unfold get_be. rewrite split_at_app; [done|]. unfold len in H. lia. Qed.

Lemma get_Ok {A} (l : list A) i x :
  0 ≤ i → l !! Z.to_nat i = Some x → get l i = Ok x.
Proof. intros ? H. unfold get. replace (i <? 0) with false by lia. by rewrite H. Qed.

Lemma get_app {A} (a : list A) x c i : i = len a → get (a ++ x :: c) i = Ok x.
Proof.
  intros ->. apply get_Ok; [apply len_nonneg|]. unfold len. rewrite Nat2Z.id.
  by apply list_lookup_middle.
Qed.

Lemma put_app {A} (a : list A) x c i v : i = len a → put (a ++ x :: c) i v = Ok (a ++ v :: c).
Proof.
  intros ->. unfold put. pose proof (len_nonneg a). replace (len a <? 0) with false by lia.
  rewrite split_at_app; [done|]. unfold len. lia.
Qed.

Lemma get_no_panic {A} (l : list A) i : 0 ≤ i < len l → no_panic (get l i).
Proof.
  intros. unfold get, len in *. replace (i <? 0) with false by lia.
  destruct (lookup_lt_is_Some_2 l (Z.to_nat i)) as [x ->]; [lia|done].
Qed.

Lemma get_be_Ok n b : Z.of_nat n ≤ len b → get_be n b = Ok (be_val (take n b)).
Proof.
  intros. unfold get_be. rewrite split_at_take_drop, (proj2 (Nat.leb_le _ _)); [done|].
  unfold len in *. lia.
Qed.

Lemma put_be_Ok n v b : Z.of_nat n ≤ len b → put_be n v b = Ok (be_bytes n v ++ drop n b).
Proof.
  intros. unfold put_be. rewrite split_at_take_drop, (proj2 (Nat.leb_le _ _)); [done|].
  unfold len in *. lia.
Qed.

Lemma copy_app {A} (m c src : list A) :
  length src = length m → copy (m ++ c) src = src ++ c.
Proof.
  intros H. unfold copy. rewrite H, drop_app_length, take_ge; [done|].
  rewrite length_app. lia.
Qed.

Lemma copy_same {A} (m src : list A) : length src = length m → copy m src = src.
Proof. intros. rewrite <- (app_nil_r m), copy_app by done. apply app_nil_r. Qed.

Lemma get_be_no_panic n b : Z.of_nat n ≤ len b → no_panic (get_be n b).
Proof. intros. by rewrite get_be_Ok. Qed.

#[export] Hint Resolve sub_no_panic get_no_panic get_be_no_panic : go.

(** * Big-endian round trips *)

Lemma be_val_snoc a x : be_val (a ++ [x]) = be_val a * 256 + x.
Proof. unfold be_val. by rewrite fold_left_app. Qed.

Lemma be_val_be_bytes n v : 0 ≤ v < 256 ^ Z.of_nat n → be_val (be_bytes n v) = v.
Proof.
  revert v. induction n as [|n IH]; intros v Hv; cbn [be_bytes].
  - change (256 ^ Z.of_nat 0) with 1 in Hv. cbn. lia.
  - rewrite be_val_snoc, IH; [dlia|].
    rewrite Nat2Z.inj_succ, Z.pow_succ_r in Hv by lia.
    split; [apply Z.div_pos; lia|]. apply Z.div_lt_upper_bound; lia.
Qed.

Lemma be_val_range b : wf_bytes b → 0 ≤ be_val b < 256 ^ len b.
Proof.
  induction b as [|x b IH] using rev_ind; intros Hb; [done|].
  apply Forall_app in Hb as [Hb [Hx _]%Forall_cons_1].
  specialize (IH Hb). rewrite be_val_snoc. unfold len in *.
  rewrite length_app. simpl. rewrite Nat.add_1_r, Nat2Z.inj_succ, Z.pow_succ_r by lia.
  ulia.
Qed.

Lemma be_bytes_be_val b : wf_bytes b → be_bytes (length b) (be_val b) = b.
Proof.
  induction b as [|x b IH] using rev_ind; intros Hb; [done|].
  apply Forall_app in Hb as [Hb [Hx _]%Forall_cons_1].
  rewrite length_app, Nat.add_1_r. cbn [be_bytes]. rewrite be_val_snoc.
  uint_bounds.
  rewrite Z.div_add_l, Z.div_small, Z.add_0_r, IH by done.
  f_equal. f_equal. rewrite Z.add_comm, Z.mod_add, Z.mod_small; lia.
Qed.

Lemma be_bytes_be_val_n n b : wf_bytes b → length b = n → be_bytes n (be_val b) = b.
Proof. intros ? <-. by apply be_bytes_be_val. Qed.

Lemma wf_be_bytes n v : wf_bytes (be_bytes n v).
Proof.
  revert v. induction n as [|n IH]; intros v; cbn [be_bytes]; [constructor|].
  apply Forall_app. split; [apply IH|]. apply Forall_singleton, is_u8_iff.
  apply Z.mod_pos_bound. lia.
Qed.

Lemma be_val_u16 b : wf_bytes b → length b = 2%nat → is_u16 (be_val b).
Proof. intros H E. apply be_val_range in H. unfold len in H. rewrite E in H. exact H. Qed.
Lemma be_val_u32 b : wf_bytes b → length b = 4%nat → is_u32 (be_val b).
Proof. intros H E. apply be_val_range in H. unfold len in H. rewrite E in H. exact H. Qed.
Lemma be_val_u64 b : wf_bytes b → length b = 8%nat → is_u64 (be_val b).
Proof. intros H E. apply be_val_range in H. unfold len in H. rewrite E in H. exact H. Qed.

Lemma be_val_be_bytes_16 v : is_u16 v → be_val (be_bytes 2 v) = v.
Proof. apply (be_val_be_bytes 2). Qed.
Lemma be_val_be_bytes_32 v : is_u32 v → be_val (be_bytes 4 v) = v.
Proof. apply (be_val_be_bytes 4). Qed.
Lemma be_val_be_bytes_64 v : is_u64 v → be_val (be_bytes 8 v) = v.
Proof. apply (be_val_be_bytes 8). Qed.

Lemma wf_bytes_app a b : wf_bytes (a ++ b) ↔ wf_bytes a ∧ wf_bytes b.
Proof. apply Forall_app. Qed.

Lemma wf_bytes_take n b : wf_bytes b → wf_bytes (take n b).
Proof. apply Forall_take. Qed.
Lemma wf_bytes_drop n b : wf_bytes b → wf_bytes (drop n b).
Proof. apply Forall_drop. Qed.
Lemma wf_bytes_sub b lo hi r : wf_bytes b → sub b lo hi = Ok r → wf_bytes r.
Proof. intros Hb (_&_&->)%sub_inv. by apply Forall_take, Forall_drop. Qed.

#[export] Hint Resolve wf_be_bytes wf_bytes_take wf_bytes_drop wf_bytes_sub : go.

(** Splits a slice with a known minimum length into that many named bytes and a
    tail, so that the accessors above compute. *)
Ltac explode b n :=
  lazymatch n with
  | O => idtac
  | S ?m =>
      let x := fresh "x" in
      destruct b as [|x b]; [exfalso; len_lia | explode b m]
  end.

#[global] Arguments be_val : simpl never.
#[global] Arguments be_bytes : simpl never.
#[global] Arguments len : simpl never.
#[global] Arguments uint_of : simpl never.

(** Decides a property of bytes by trying them all. *)
Lemma byte_cases (P : Z → bool) x :
  forallb P (map Z.of_nat (seq 0 256)) = true → 0 ≤ x < 256 → P x = true.
Proof.
  intros H Hx. rewrite forallb_forall in H. apply H, in_map_iff. exists (Z.to_nat x).
  split; [lia|]. apply in_seq. lia.
Qed.

(** Well-formedness of an explicit slice from its elements', and conversely. *)
Ltac wf_list := repeat (apply Forall_cons_2; [assumption|]); first [apply Forall_nil_2 | assumption].
Ltac wf_elems H := repeat (apply Forall_cons_1 in H as [? H]).

(** * Filling a buffer from the left *)

(** [f] overwrites the start of the slice with [x]. *)
Definition writes (f : bytes → outcome bytes) (x : bytes) : Prop :=
  ∀ m, len x ≤ len m → f m = Ok (x ++ drop (length x) m).

Lemma write_tail a rest x lo f :
  writes f x → lo = len a → len x ≤ len rest →
  on_sub_from (a ++ rest) lo f = Ok ((a ++ x) ++ drop (length x) rest).
Proof.
  intros Hf -> Hl. unfold on_sub_from. rewrite on_sub_suffix by (rewrite ?len_app; done).
  rewrite Hf by done. cbn. by rewrite <- app_assoc.
Qed.

Lemma put_be_writes n v : writes (put_be n v) (be_bytes n v).
Proof. intros m Hm. rewrite len_be_bytes in Hm. by rewrite put_be_Ok, length_be_bytes. Qed.

Lemma copy_writes src : writes (λ m, Ok (copy m src)) src.
Proof. intros m Hm. unfold copy. rewrite take_ge; [done|]. unfold len in Hm. lia. Qed.

Lemma put_tail (a rest : bytes) lo v :
  lo = len a → 1 ≤ len rest → put (a ++ rest) lo v = Ok ((a ++ [v]) ++ drop 1 rest).
Proof.
  intros -> Hl. destruct rest as [|x rest]; [by rewrite len_nil in Hl|].
  rewrite put_app by done. by rewrite <- app_assoc.
Qed.

Lemma write_window_tail (a rest x : bytes) lo hi f :
  writes f x → lo = len a → hi = len a + len x → len x ≤ len rest →
  on_sub (a ++ rest) lo hi f = Ok ((a ++ x) ++ drop (length x) rest).
Proof.
  intros Hf -> -> Hl. destruct (split_len (len x) rest) as (m & c & -> & Lm & _); [split; [apply len_nonneg|done]|].
  rewrite on_sub_mid by lia. rewrite Hf by lia. cbn. rewrite drop_ge, app_nil_r by (unfold len in Lm; lia).
  assert (length x = length m) as -> by (unfold len in Lm; lia). by rewrite drop_app_length, <- app_assoc.
Qed.

Lemma be_bytes_inj n a b :
  0 ≤ a < 256 ^ Z.of_nat n → 0 ≤ b < 256 ^ Z.of_nat n → be_bytes n a = be_bytes n b → a = b.
Proof. intros Ha Hb E. rewrite <- (be_val_be_bytes n a Ha), <- (be_val_be_bytes n b Hb). by rewrite E. Qed.

Lemma put_insert {A} (l : list A) i x v : 0 ≤ i → l !! Z.to_nat i = Some x → put l i v = Ok (<[Z.to_nat i := v]> l).
Proof.
  intros Hi Hx. pose proof (lookup_lt_Some _ _ _ Hx).
  rewrite <- (take_drop_middle _ _ _ Hx) at 1. rewrite put_app by (unfold len; rewrite length_take; lia).
  by rewrite insert_take_drop by done.
Qed.
