(* ===== verification/PathFields.v ===== *)
(** The fixed-size parts of a SCION path, [pkg/slayers/path]: hop fields
    ([hopfield.go], Module [HopField]), info fields ([infofield.go], Module
    [InfoField]) and the hop-field MAC ([mac.go], Module [Mac]). *)
From S2P Require Export Bytes.

(** * hopfield.go *)
Module HopField.

Definition HopLen : Z := 12.
Definition MacLen : Z := 6.

Record t := mk {
  IngressRouterAlert : bool;
  EgressRouterAlert : bool;
  ExpTime : Z;
  ConsIngress : Z;
  ConsEgress : Z;
  Mac : bytes
}.

(** The zero value [path.HopField{}]. *)
Definition zero : t := mk false false 0 0 0 (make_bytes MacLen).

Definition DecodeFromBytes (raw : bytes) : outcome t :=
  _ ← fail_if (len raw <? HopLen) (New "HopField raw too short");
  b0 ← get raw 0;
  b1 ← get raw 1;
  consIngress ← sub raw 2 4 ≫= Uint16;
  consEgress ← sub raw 4 6 ≫= Uint16;
  mac ← sub raw 6 (6 + MacLen);
  Ok {| IngressRouterAlert := Z.land b0 2 =? 2;
        EgressRouterAlert := Z.land b0 1 =? 1;
        ExpTime := b1;
        ConsIngress := consIngress;
        ConsEgress := consEgress;
        Mac := copy (make_bytes MacLen) mac |}.

(** [b[0] |= m] when [c] holds. *)
Definition or_first (c : bool) (m : Z) (b : bytes) : outcome bytes :=
  if c then (x ← get b 0; put b 0 (Z.lor x m)) else Ok b.

Definition SerializeTo (h : t) (b : bytes) : outcome bytes :=
  _ ← fail_if (len b <? HopLen) (New "buffer for HopField too short");
  b ← put b 0 0;
  b ← or_first (EgressRouterAlert h) 1 b;
  b ← or_first (IngressRouterAlert h) 2 b;
  b ← put b 1 (ExpTime h);
  b ← on_sub b 2 4 (λ s, PutUint16 s (ConsIngress h));
  b ← on_sub b 4 6 (λ s, PutUint16 s (ConsEgress h));
  on_sub b 6 (6 + MacLen) (λ s, Ok (copy s (Mac h))).

(** [time.Duration] is a signed 64-bit number of nanoseconds. *)
Definition Hour : Z := 3600000000000.
Definition MaxTTL : Z := 24 * Hour.
Definition expTimeUnit : Z := Z.quot MaxTTL 256.

Definition ExpTimeToDuration (expTime : Z) : Z :=
  i64 ((i64 (expTime + 1)) * expTimeUnit).

Definition ExpTimeFromDuration (d : Z) : outcome Z :=
  _ ← fail_if (d <? expTimeUnit) (New "duration too small");
  _ ← fail_if (MaxTTL <? d) (New "duration too large");
  Ok (u8 (Z.quot (i64 (d * 256)) MaxTTL - 1)).

(** ** Specification and lemmas *)

Record wf (h : t) : Prop := {
  wf_ExpTime : is_u8 (ExpTime h);
  wf_ConsIngress : is_u16 (ConsIngress h);
  wf_ConsEgress : is_u16 (ConsEgress h);
  wf_Mac : wf_bytes (Mac h);
  wf_MacLen : length (Mac h) = 6%nat
}.

(** The flag byte: bit 0 is the egress alert, bit 1 the ingress alert. *)
Definition flags (h : t) : Z :=
  (if EgressRouterAlert h then 1 else 0) + (if IngressRouterAlert h then 2 else 0).

(** The wire format of a hop field. *)
Definition encode (h : t) : bytes :=
  [flags h; ExpTime h] ++ be_bytes 2 (ConsIngress h) ++ be_bytes 2 (ConsEgress h) ++ Mac h.

Lemma hop_length_encode h : length (Mac h) = 6%nat → length (encode h) = 12%nat.
Proof. intros H. unfold encode. rewrite !length_app, !length_be_bytes, H. done. Qed.

Lemma hop_len_encode h : length (Mac h) = 6%nat → len (encode h) = HopLen.
Proof. intros H. unfold len. by rewrite hop_length_encode. Qed.

Lemma hop_SerializeTo_Ok h b :
  length (Mac h) = 6%nat → HopLen ≤ len b →
  SerializeTo h b = Ok (encode h ++ drop 12 b).
Proof.
  intros HM Hb. unfold HopLen in *. explode b 12%nat.
  unfold SerializeTo, HopLen. go_guard.
  destruct h as [i e et ci ce mac]. simpl in HM.
  do 6 (destruct mac as [|? mac]; [done|]). destruct mac; [|done].
  destruct i, e; reflexivity.
Qed.

Lemma flags_range h : is_u8 (flags h).
Proof. unfold flags. destruct (EgressRouterAlert h), (IngressRouterAlert h); ulia. Qed.

Lemma hop_encode_wf h : wf h → wf_bytes (encode h).
Proof.
  intros []. unfold encode. rewrite !wf_bytes_app. split_and!; auto with go.
  repeat apply Forall_cons_2; [apply flags_range|done|constructor].
Qed.

Lemma SerializeTo_short h b :
  len b < HopLen → SerializeTo h b = Err (New "buffer for HopField too short").
Proof. intros. unfold SerializeTo. by replace (len b <? HopLen) with true by lia. Qed.

Lemma hop_DecodeFromBytes_encode h r : wf h → DecodeFromBytes (encode h ++ r) = Ok h.
Proof.
  intros [? Hi He ? HM]. unfold DecodeFromBytes, HopLen.
  replace (len (encode h ++ r) <? 12) with false
    by (rewrite len_app, hop_len_encode by done; pose proof (len_nonneg r); unfold HopLen; lia).
  unfold encode. destruct h as [i e et ci ce mac]; simpl in HM, Hi, He.
  do 6 (destruct mac as [|? mac]; [done|]). destruct mac; [|done].
  transitivity (Ok (mk i e et (be_val (be_bytes 2 ci)) (be_val (be_bytes 2 ce))
    [z; z0; z1; z2; z3; z4])).
  - destruct i, e; reflexivity.
  - by rewrite !be_val_be_bytes_16.
Qed.

Lemma hop_DecodeFromBytes_total raw : HopLen ≤ len raw → ∃ h, DecodeFromBytes raw = Ok h.
Proof.
  unfold HopLen. intros. explode raw 12%nat.
  unfold DecodeFromBytes, HopLen. go_guard. eexists. reflexivity.
Qed.

Lemma hop_DecodeFromBytes_no_panic raw : no_panic (DecodeFromBytes raw).
Proof.
  destruct (Z.ltb_spec (len raw) HopLen).
  - unfold DecodeFromBytes. by replace (len raw <? HopLen) with true by lia.
  - destruct (hop_DecodeFromBytes_total raw) as [h ->]; done.
Qed.

(** Decoding yields values in range, and writing the result back changes at most
    the six reserved bits of the first byte. *)
Lemma hop_DecodeFromBytes_inv raw h :
  wf_bytes raw → DecodeFromBytes raw = Ok h →
  wf h ∧ HopLen ≤ len raw ∧
  ∃ b0, raw !! 0%nat = Some b0 ∧ encode h = Z.land b0 3 :: take 11 (drop 1 raw).
Proof.
  intros Hwf. unfold DecodeFromBytes. destruct (Z.ltb_spec (len raw) HopLen) as [|Hl]; [done|].
  unfold HopLen in *. explode raw 12%nat. simpl. intros [= <-].
  wf_elems Hwf. split; [split; simpl; try done|].
  1-2: apply be_val_u16; [wf_list|done].
  { change (wf_bytes [x5; x6; x7; x8; x9; x10]). wf_list. }
  split; [len_lia|]. exists x. split; [done|].
  unfold encode. cbn [ExpTime ConsIngress ConsEgress Mac].
  rewrite !be_bytes_be_val_n by first [wf_list|done]. apply (f_equal2 cons); [apply flag_bits|done].
Qed.

#[export] Hint Resolve hop_DecodeFromBytes_no_panic : go.

End HopField.

(** * infofield.go *)
Module InfoField.

Definition InfoLen : Z := 8.

Record t := mk {
  Peer : bool;
  ConsDir : bool;
  SegID : Z;
  Timestamp : Z
}.

Definition DecodeFromBytes (raw : bytes) : outcome t :=
  _ ← fail_if (len raw <? InfoLen) (New "InfoField raw too short");
  b0 ← get raw 0;
  segID ← sub raw 2 4 ≫= Uint16;
  timestamp ← sub raw 4 8 ≫= Uint32;
  Ok {| ConsDir := Z.land b0 1 =? 1;
        Peer := Z.land b0 2 =? 2;
        SegID := segID;
        Timestamp := timestamp |}.

Definition SerializeTo (inf : t) (b : bytes) : outcome bytes :=
  _ ← fail_if (len b <? InfoLen) (New "buffer for InfoField too short");
  b ← put b 0 0;
  b ← HopField.or_first (ConsDir inf) 1 b;
  b ← HopField.or_first (Peer inf) 2 b;
  b ← put b 1 0;
  b ← on_sub b 2 4 (λ s, PutUint16 s (SegID inf));
  on_sub b 4 8 (λ s, PutUint32 s (Timestamp inf)).

Definition set_SegID (inf : t) (segID : Z) : t :=
  mk (Peer inf) (ConsDir inf) segID (Timestamp inf).

(** The beta update: XOR with the first two bytes of the hop field's MAC. *)
Definition UpdateSegID (inf : t) (hfMac : bytes) : outcome t :=
  m ← sub hfMac 0 2 ≫= Uint16;
  Ok (set_SegID inf (Z.lxor (SegID inf) m)).

(** ** Specification and lemmas *)

Record wf (inf : t) : Prop := {
  wf_SegID : is_u16 (SegID inf);
  wf_Timestamp : is_u32 (Timestamp inf)
}.

Definition flags (inf : t) : Z :=
  (if ConsDir inf then 1 else 0) + (if Peer inf then 2 else 0).

Definition encode (inf : t) : bytes :=
  [flags inf; 0] ++ be_bytes 2 (SegID inf) ++ be_bytes 4 (Timestamp inf).

Lemma info_length_encode inf : length (encode inf) = 8%nat.
Proof. done. Qed.

Lemma info_len_encode inf : len (encode inf) = InfoLen.
Proof. done. Qed.

Lemma info_SerializeTo_Ok inf b :
  InfoLen ≤ len b → SerializeTo inf b = Ok (encode inf ++ drop 8 b).
Proof.
  unfold InfoLen. intros Hb. explode b 8%nat.
  unfold SerializeTo, InfoLen. go_guard.
  destruct inf as [[] [] ? ?]; reflexivity.
Qed.

Lemma info_DecodeFromBytes_encode inf r : wf inf → DecodeFromBytes (encode inf ++ r) = Ok inf.
Proof.
  intros [Hs Ht]. unfold DecodeFromBytes, InfoLen.
  replace (len (encode inf ++ r) <? 8) with false
    by (rewrite len_app, info_len_encode; pose proof (len_nonneg r); unfold InfoLen; lia).
  destruct inf as [p c s t]. simpl in Hs, Ht.
  transitivity (Ok (mk p c (be_val (be_bytes 2 s)) (be_val (be_bytes 4 t)))).
  - destruct p, c; reflexivity.
  - by rewrite be_val_be_bytes_16, be_val_be_bytes_32.
Qed.

Lemma info_DecodeFromBytes_total raw : InfoLen ≤ len raw → ∃ inf, DecodeFromBytes raw = Ok inf.
Proof.
  unfold InfoLen. intros. explode raw 8%nat.
  unfold DecodeFromBytes, InfoLen. go_guard. eexists. reflexivity.
Qed.

Lemma info_DecodeFromBytes_no_panic raw : no_panic (DecodeFromBytes raw).
Proof.
  destruct (Z.ltb_spec (len raw) InfoLen).
  - unfold DecodeFromBytes. by replace (len raw <? InfoLen) with true by lia.
  - destruct (info_DecodeFromBytes_total raw) as [h ->]; done.
Qed.

Lemma info_DecodeFromBytes_inv raw inf :
  wf_bytes raw → DecodeFromBytes raw = Ok inf →
  wf inf ∧ InfoLen ≤ len raw ∧
  ∃ b0, raw !! 0%nat = Some b0 ∧ encode inf = Z.land b0 3 :: 0 :: take 6 (drop 2 raw).
Proof.
  intros Hwf. unfold DecodeFromBytes. destruct (Z.ltb_spec (len raw) InfoLen) as [|Hl]; [done|].
  unfold InfoLen in *. explode raw 8%nat. simpl. intros [= <-].
  wf_elems Hwf. split; [split; simpl|].
  { apply be_val_u16; [wf_list|done]. }
  { apply be_val_u32; [wf_list|done]. }
  split; [len_lia|]. exists x. split; [done|].
  unfold encode. cbn [SegID Timestamp].
  rewrite !be_bytes_be_val_n by first [wf_list|done].
  apply (f_equal2 cons); [apply flag_bits|done].
Qed.

Lemma info_encode_wf inf : wf_bytes (encode inf).
Proof.
  unfold encode. rewrite !wf_bytes_app. split_and!; auto with go.
  repeat apply Forall_cons_2; [|ulia|constructor].
  unfold flags. destruct (ConsDir inf), (Peer inf); ulia.
Qed.

Lemma UpdateSegID_Ok inf m :
  (2 ≤ length m)%nat →
  UpdateSegID inf m = Ok (set_SegID inf (Z.lxor (SegID inf) (be_val (take 2 m)))).
Proof. intros H. do 2 (destruct m as [|? m]; [simpl in H; lia|]). done. Qed.

#[export] Hint Resolve info_DecodeFromBytes_no_panic : go.

End InfoField.

(** * mac.go *)
Module Mac.

Import HopField InfoField.

Definition MACBufferSize : Z := 16.

(** The contents of the buffer after the call. *)
Definition MACInput (segID timestamp expTime consIngress consEgress : Z)
    (buffer : bytes) : outcome bytes :=
  b ← on_sub buffer 0 2 (λ s, PutUint16 s 0);
  b ← on_sub b 2 4 (λ s, PutUint16 s segID);
  b ← on_sub b 4 8 (λ s, PutUint32 s timestamp);
  b ← put b 8 0;
  b ← put b 9 expTime;
  b ← on_sub b 10 12 (λ s, PutUint16 s consIngress);
  b ← on_sub b 12 14 (λ s, PutUint16 s consEgress);
  on_sub b 14 16 (λ s, PutUint16 s 0).

Section mac.
(** [h] is the keyed [hash.Hash] of the caller: the sum it produces for the
    bytes written to it since its last [Reset]. *)
Context (h : bytes → bytes).

Definition FullMAC (info : InfoField.t) (hf : HopField.t) (buffer : bytes) : outcome bytes :=
  let buffer := if len buffer <? MACBufferSize then make_bytes MACBufferSize else buffer in
  buffer ← MACInput (SegID info) (Timestamp info) (ExpTime hf)
                    (ConsIngress hf) (ConsEgress hf) buffer;
  sub (h buffer) 0 16.

Definition MAC (info : InfoField.t) (hf : HopField.t) (buffer : bytes) : outcome bytes :=
  mac ← FullMAC info hf buffer;
  m ← sub mac 0 MacLen;
  Ok (copy (make_bytes MacLen) m).
End mac.

(** ** Specification and lemmas *)

(** The block that is authenticated. *)
Definition mac_block (info : InfoField.t) (hf : HopField.t) : bytes :=
  [0; 0] ++ be_bytes 2 (SegID info) ++ be_bytes 4 (Timestamp info) ++ [0; ExpTime hf]
  ++ be_bytes 2 (ConsIngress hf) ++ be_bytes 2 (ConsEgress hf) ++ [0; 0].

Lemma MACInput_Ok info hf buffer :
  16 ≤ len buffer →
  MACInput (SegID info) (Timestamp info) (ExpTime hf) (ConsIngress hf) (ConsEgress hf) buffer
  = Ok (mac_block info hf ++ drop 16 buffer).
Proof. intros. explode buffer 16%nat. reflexivity. Qed.

Lemma length_mac_block info hf : length (mac_block info hf) = 16%nat.
Proof. done. Qed.

(** With a 16-byte buffer, or one that is too short, exactly the block is hashed. *)
Lemma FullMAC_Ok h info hf buffer :
  len buffer ≤ 16 → 16 ≤ len (h (mac_block info hf)) →
  FullMAC h info hf buffer = Ok (take 16 (h (mac_block info hf))).
Proof.
  intros Hb Hh. unfold FullMAC, MACBufferSize.
  assert (∀ b, len b = 16 → MACInput (SegID info) (Timestamp info) (ExpTime hf)
    (ConsIngress hf) (ConsEgress hf) b = Ok (mac_block info hf)) as E.
  { intros b Hlen. rewrite MACInput_Ok by lia. f_equal.
    rewrite drop_ge, app_nil_r; [done|]. unfold len in Hlen. lia. }
  rewrite E; [|destruct (len buffer <? 16) eqn:?; [done|lia]].
  simpl. rewrite sub_Ok by lia. done.
Qed.

Lemma MAC_Ok h info hf buffer :
  len buffer ≤ 16 → 16 ≤ len (h (mac_block info hf)) →
  MAC h info hf buffer = Ok (take 6 (h (mac_block info hf))).
Proof.
  intros Hb Hh. unfold MAC. rewrite FullMAC_Ok by done. simpl.
  unfold MacLen. rewrite sub_Ok; [|lia|len_lia]. simpl. rewrite copy_same.
  - change (Ok (take 6 (take 16 (h (mac_block info hf)))) = Ok (take 6 (h (mac_block info hf)))).
    by rewrite take_take.
  - change (length (take 6 (take 16 (h (mac_block info hf)))) = 6%nat).
    rewrite !length_take. unfold len in Hh. lia.
Qed.

(** The block determines the five authenticated fields. *)
Lemma mac_block_inj info hf info' hf' :
  InfoField.wf info → HopField.wf hf → InfoField.wf info' → HopField.wf hf' →
  mac_block info hf = mac_block info' hf' →
  SegID info = SegID info' ∧ Timestamp info = Timestamp info' ∧
  ExpTime hf = ExpTime hf' ∧ ConsIngress hf = ConsIngress hf' ∧
  ConsEgress hf = ConsEgress hf'.
Proof.
  intros [Hs Ht] [_ Hi He _ _] [Hs' Ht'] [_ Hi' He' _ _] H. unfold mac_block in H.
  repeat match type of H with
  | ?a ++ ?b = ?c ++ ?d => apply app_inj_1 in H as [? H]; [|done]
  end.
  repeat match goal with
  | E : be_bytes 2 ?a = be_bytes 2 ?b |- _ =>
      apply (f_equal be_val) in E; rewrite !be_val_be_bytes_16 in E by done
  | E : be_bytes 4 ?a = be_bytes 4 ?b |- _ =>
      apply (f_equal be_val) in E; rewrite !be_val_be_bytes_32 in E by done
  end. simplify_eq. done.
Qed.

End Mac.

(** * Properties *)
Module PathFieldsProperties.

Import HopField InfoField Mac.

Lemma expTimeUnit_value : expTimeUnit = 337500000000.
Proof. reflexivity. Qed.

Lemma ExpTimeToDuration_eq e : is_u8 e → ExpTimeToDuration e = (e + 1) * 337500000000.
Proof.
  intros H. unfold ExpTimeToDuration. rewrite expTimeUnit_value. unfold int_of.
  change (2 ^ (64 - 1)) with 9223372036854775808. change (2 ^ 64) with 18446744073709551616.
  rewrite (Z.mod_small (e + 1 + _)) by ulia.
  rewrite (Z.mod_small (_ * _ + _)) by ulia. lia.
Qed.

Lemma ExpTimeFromDuration_eq d :
  expTimeUnit ≤ d ≤ MaxTTL → ExpTimeFromDuration d = Ok (d / 337500000000 - 1).
Proof.
  unfold ExpTimeFromDuration. rewrite expTimeUnit_value.
  change MaxTTL with 86400000000000. intros H. go_guard. go_guard.
  unfold int_of. change (2 ^ (64 - 1)) with 9223372036854775808.
  change (2 ^ 64) with 18446744073709551616.
  rewrite (Z.mod_small (d * 256 + _)) by lia. rewrite Z.quot_div_nonneg by lia.
  f_equal. replace ((d * 256 + 9223372036854775808 - 9223372036854775808) / 86400000000000)
    with (d / 337500000000) by dlia.
  apply uint_of_small. dlia.
Qed.

(** [ExpTimeFromDuration] never panics; it accepts exactly the durations
    between the shortest and the longest representable one, and for those it
    returns the largest expiration time whose duration does not exceed the
    argument.  On representable durations it is the inverse of
    [ExpTimeToDuration]. *)
Theorem exp_time_floor d :
  match ExpTimeFromDuration d with
  | Ok e => is_u8 e ∧ ExpTimeToDuration e ≤ d ∧
            (∀ e', is_u8 e' → ExpTimeToDuration e' ≤ d → e' ≤ e) ∧
            ((∃ e', is_u8 e' ∧ d = ExpTimeToDuration e') → d = ExpTimeToDuration e)
  | Err _ => ∀ e, is_u8 e → d < ExpTimeToDuration 0 ∨ ExpTimeToDuration 255 < d
  | Panic => False
  end.
Proof.
  destruct (decide (expTimeUnit ≤ d ≤ MaxTTL)) as [H|H].
  - rewrite ExpTimeFromDuration_eq by done. rewrite expTimeUnit_value in H.
    change MaxTTL with 86400000000000 in H.
    assert (is_u8 (d / 337500000000 - 1)) by dlia.
    rewrite ExpTimeToDuration_eq by done. split_and!; [done|dlia| |].
    + intros e' He'. rewrite ExpTimeToDuration_eq by done. dlia.
    + intros (e' & He' & ->). rewrite ExpTimeToDuration_eq by done. dlia.
  - unfold ExpTimeFromDuration. rewrite expTimeUnit_value in *.
    change MaxTTL with 86400000000000 in *. rewrite !ExpTimeToDuration_eq by done.
    destruct (Z.ltb_spec d 337500000000); go_cbn; [intros; lia|].
    destruct (Z.ltb_spec 86400000000000 d); go_cbn; [intros; lia|lia].
Qed.

(** C20: The hop-field MAC is a function of exactly five fields: the segment
    identifier and timestamp of the info field, and the expiration time and the
    two interface identifiers of the hop field.  With any buffer of at most 16
    bytes, [MAC] returns the first six bytes of the keyed hash of the block that
    holds them (and only them), and two blocks are equal exactly when all five
    fields are. *)
Theorem mac_authenticates h info hf info' hf' buffer :
  InfoField.wf info → HopField.wf hf → InfoField.wf info' → HopField.wf hf' →
  len buffer ≤ MACBufferSize → (∀ b, len b = MACBufferSize → len (h b) = 16) →
  MAC h info hf buffer = Ok (take 6 (h (mac_block info hf))) ∧
  (mac_block info hf = mac_block info' hf' ↔
    SegID info = SegID info' ∧ Timestamp info = Timestamp info' ∧
    ExpTime hf = ExpTime hf' ∧ ConsIngress hf = ConsIngress hf' ∧
    ConsEgress hf = ConsEgress hf').
Proof.
  intros Hi Hh Hi' Hh' Hb Hlen. split.
  - apply MAC_Ok; [done|]. by rewrite Hlen.
  - split; [by apply mac_block_inj|]. unfold mac_block. by intros (->&->&->&->&->).
Qed.

Lemma mac_authenticates_witness :
  ∃ info hf, MAC (λ b, take 16 (b ++ make_bytes 16)) info hf [] =
    Ok [0; 0; 18; 52; 0; 1] ∧ mac_block info hf ≠ mac_block info zero.
Proof.
  pose (i := InfoField.mk false true 0x1234 0x10203).
  pose (hf := HopField.mk false false 63 1 2 [1; 2; 3; 4; 5; 6]).
  exists i, hf.
  destruct (mac_authenticates (λ b, take 16 (b ++ make_bytes 16)) i hf i zero []) as [E1 E2].
  - by split.
  - split; try done. repeat constructor; done.
  - by split.
  - split; try done. repeat constructor; done.
  - done.
  - intros b Hb. rewrite len_take, len_app, Hb. done.
  - split; [rewrite E1; reflexivity|]. rewrite E2. by intros (_&_&?&_).
Defined.

End PathFieldsProperties.
