(* ===== verification/ScionPath.v ===== *)
(** The SCION path type, [pkg/slayers/path/scion]: the path meta header
    ([base.go], Module [MetaHdr]), the bookkeeping common to both
    representations (Module [Base]), the fully parsed path ([decoded.go], Module
    [Decoded]) and the path kept as bytes ([raw.go], Module [Raw]). *)
From S2P Require Export PathFields.

Definition MetaLen : Z := 4.
Definition MaxINFs : Z := 3.
Definition MaxHops : Z := 64.
Abbreviation InfoLen := InfoField.InfoLen.
Abbreviation HopLen := HopField.HopLen.

(** * base.go: MetaHdr *)
Module MetaHdr.

(** The three [SegLen] fields are the elements of the array [SegLen]. *)
Record t := mk {
  CurrINF : Z;
  CurrHF : Z;
  SegLen0 : Z;
  SegLen1 : Z;
  SegLen2 : Z
}.

Definition SegLen (m : t) (i : Z) : Z :=
  if i =? 0 then SegLen0 m else if i =? 1 then SegLen1 m else SegLen2 m.

Definition set_CurrINF (v : Z) (m : t) : t :=
  mk v (CurrHF m) (SegLen0 m) (SegLen1 m) (SegLen2 m).
Definition set_CurrHF (v : Z) (m : t) : t :=
  mk (CurrINF m) v (SegLen0 m) (SegLen1 m) (SegLen2 m).

Definition DecodeFromBytes (raw : bytes) : outcome t :=
  _ ← fail_if (len raw <? MetaLen) (New "MetaHdr raw too short");
  line ← Uint32 raw;
  Ok {| CurrINF := u8 (Z.shiftr line 30);
        CurrHF := Z.land (u8 (Z.shiftr line 24)) 0x3F;
        SegLen0 := Z.land (u8 (Z.shiftr line 12)) 0x3F;
        SegLen1 := Z.land (u8 (Z.shiftr line 6)) 0x3F;
        SegLen2 := Z.land (u8 line) 0x3F |}.

Definition SerializeTo (m : t) (b : bytes) : outcome bytes :=
  _ ← fail_if (len b <? MetaLen) (New "buffer for MetaHdr too short");
  let line := Z.lor (u32 (Z.shiftl (CurrINF m) 30))
                    (u32 (Z.shiftl (Z.land (CurrHF m) 0x3F) 24)) in
  let line := Z.lor line (u32 (Z.shiftl (Z.land (SegLen0 m) 0x3F) 12)) in
  let line := Z.lor line (u32 (Z.shiftl (Z.land (SegLen1 m) 0x3F) 6)) in
  let line := Z.lor line (Z.land (SegLen2 m) 0x3F) in
  PutUint32 b line.

(** ** Specification and lemmas *)

(** The fields fit their bits on the wire. *)
Record wf (m : t) : Prop := {
  wf_CurrINF : 0 ≤ CurrINF m < 4;
  wf_CurrHF : 0 ≤ CurrHF m < 64;
  wf_SegLen0 : 0 ≤ SegLen0 m < 64;
  wf_SegLen1 : 0 ≤ SegLen1 m < 64;
  wf_SegLen2 : 0 ≤ SegLen2 m < 64
}.

(** The 32-bit line: six reserved bits between [CurrHF] and [SegLen[0]]. *)
Definition line (m : t) : Z :=
  CurrINF m * 2 ^ 30 + CurrHF m * 2 ^ 24 + SegLen0 m * 2 ^ 12 + SegLen1 m * 2 ^ 6 + SegLen2 m.

Definition encode (m : t) : bytes := be_bytes 4 (line m).

Lemma meta_len_encode m : len (encode m) = MetaLen.
Proof. done. Qed.

Lemma line_range m : wf m → is_u32 (line m).
Proof. intros []. unfold line. ulia. Qed.

Lemma land_63_mod x : Z.land x 63 = x mod 64.
Proof. by apply (land_ones_mod x 6). Qed.

Lemma land_63 x : 0 ≤ x < 64 → Z.land x 63 = x.
Proof. intros. rewrite land_63_mod. by apply Z.mod_small. Qed.

Lemma meta_SerializeTo_Ok m b :
  wf m → MetaLen ≤ len b → SerializeTo m b = Ok (encode m ++ drop 4 b).
Proof.
  intros [] Hb. unfold MetaLen in *. unfold SerializeTo, MetaLen. go_guard. simpl.
  rewrite !land_63 by lia. rewrite !Z.shiftl_mul_pow2 by lia.
  rewrite !(uint_of_small 32) by (split; lia).
  rewrite (lor_disjoint_add (_ * _) _ 30) by dlia.
  rewrite (lor_disjoint_add (_ + _) _ 24) by dlia.
  rewrite (lor_disjoint_add (_ + _) _ 12) by dlia.
  rewrite (lor_disjoint_add (_ + _) _ 6) by dlia.
  unfold PutUint32. by rewrite put_be_Ok.
Qed.

Lemma bits_of_line m :
  wf m →
  u8 (Z.shiftr (line m) 30) = CurrINF m ∧
  Z.land (u8 (Z.shiftr (line m) 24)) 63 = CurrHF m ∧
  Z.land (u8 (Z.shiftr (line m) 12)) 63 = SegLen0 m ∧
  Z.land (u8 (Z.shiftr (line m) 6)) 63 = SegLen1 m ∧
  Z.land (u8 (line m)) 63 = SegLen2 m.
Proof.
  intros []. unfold line, uint_of. rewrite !land_63_mod, !Z.shiftr_div_pow2 by lia.
  split_and!; dlia.
Qed.

Lemma meta_DecodeFromBytes_encode m r : wf m → DecodeFromBytes (encode m ++ r) = Ok m.
Proof.
  intros Hm. unfold DecodeFromBytes. replace (len _ <? MetaLen) with false
    by (rewrite len_app, meta_len_encode; pose proof (len_nonneg r); unfold MetaLen; lia).
  go_cbn. unfold Uint32, get_be. rewrite split_at_app by done. go_cbn.
  unfold encode. rewrite be_val_be_bytes_32 by (by apply line_range).
  destruct (bits_of_line m Hm) as (->&->&->&->&->). by destruct m.
Qed.

Lemma meta_DecodeFromBytes_inv raw m :
  wf_bytes raw → DecodeFromBytes raw = Ok m → wf m ∧ MetaLen ≤ len raw.
Proof.
  intros Hwf. unfold DecodeFromBytes. destruct (Z.ltb_spec (len raw) MetaLen) as [|Hl]; [done|].
  unfold MetaLen in *. explode raw 4%nat. unfold Uint32, get_be. simpl. intros [= <-].
  wf_elems Hwf. assert (is_u32 (be_val [x; x0; x1; x2])) as Hv.
  { apply be_val_u32; [wf_list|done]. }
  split; [|done]. unfold uint_of.
  split; cbn [CurrINF CurrHF SegLen0 SegLen1 SegLen2];
    rewrite ?land_63_mod, ?Z.shiftr_div_pow2 by lia; dlia.
Qed.

Lemma meta_DecodeFromBytes_total raw : MetaLen ≤ len raw → ∃ m, DecodeFromBytes raw = Ok m.
Proof.
  unfold MetaLen. intros. explode raw 4%nat.
  unfold DecodeFromBytes, MetaLen. go_guard. eexists. reflexivity.
Qed.

Lemma meta_DecodeFromBytes_no_panic raw : no_panic (DecodeFromBytes raw).
Proof.
  destruct (Z.ltb_spec (len raw) MetaLen).
  - unfold DecodeFromBytes. by replace (len raw <? MetaLen) with true by lia.
  - destruct (meta_DecodeFromBytes_total raw) as [h ->]; done.
Qed.

#[export] Hint Resolve meta_DecodeFromBytes_no_panic : go.

End MetaHdr.

(** * base.go: Base *)
Module Base.

Import MetaHdr.

Record t := mk {
  PathMeta : MetaHdr.t;
  NumINF : Z;
  NumHops : Z
}.

Definition set_PathMeta (m : MetaHdr.t) (s : t) : t := mk m (NumINF s) (NumHops s).

(** The loop of [DecodeFromBytes] over [i = 2, 1, 0]; [st] is
    [(NumINF, NumHops)]. *)
Definition count_seg (m : MetaHdr.t) (i : Z) (st : Z * Z) : outcome (Z * Z) :=
  let '(numINF, numHops) := st in
  _ ← fail_if ((SegLen m i =? 0) && (0 <? numINF))
        (New "Meta.SegLen[%d] == 0, but Meta.SegLen[%d] > 0");
  let numINF := if (0 <? SegLen m i) && (numINF =? 0) then i + 1 else numINF in
  Ok (numINF, numHops + SegLen m i).

Definition count_segs (m : MetaHdr.t) : outcome (Z * Z) :=
  st ← count_seg m 2 (0, 0); st ← count_seg m 1 st; count_seg m 0 st.

Definition DecodeFromBytes (data : bytes) : outcome t :=
  m ← MetaHdr.DecodeFromBytes data;
  '(numINF, numHops) ← count_segs m;
  _ ← fail_if (MaxHops <? numHops) (New "NumHops too large");
  Ok (mk m numINF numHops).

Definition infIndexForHF (s : t) (hf : Z) : Z :=
  let m := PathMeta s in
  if hf <? SegLen0 m then 0
  else if hf <? u8 (SegLen0 m + SegLen1 m) then 1
  else 2.

(** On the error of a path that is at its end, [CurrHF] has been clamped. *)
Definition IncPath : SE t unit := λ s,
  if NumINF s =? 0 then (s, Err (New "empty path cannot be increased")) else
  if NumHops s - 1 <=? CurrHF (PathMeta s) then
    (set_PathMeta (set_CurrHF (u8 (NumHops s - 1)) (PathMeta s)) s,
     Err (New "path already at end"))
  else
    let m := set_CurrHF (u8 (CurrHF (PathMeta s) + 1)) (PathMeta s) in
    let s := set_PathMeta m s in
    (set_PathMeta (set_CurrINF (infIndexForHF s (CurrHF m)) m) s, Ok tt).

Definition IsXover (s : t) : bool :=
  let m := PathMeta s in
  (u8 (CurrHF m + 1) <? u8 (NumHops s)) &&
  negb (CurrINF m =? infIndexForHF s (u8 (CurrHF m + 1))).

Definition IsFirstHopAfterXover (s : t) : bool :=
  let m := PathMeta s in
  (0 <? CurrINF m) && (0 <? CurrHF m) &&
  (u8 (CurrINF m - 1) =? infIndexForHF s (u8 (CurrHF m - 1))).

Definition Len (s : t) : Z := MetaLen + NumINF s * InfoLen + NumHops s * HopLen.

(** ** Specification and lemmas *)

(** The counts that the segment lengths determine, with no empty segment before
    a non-empty one. *)
Record consistent (m : MetaHdr.t) (numINF numHops : Z) : Prop := {
  cons_order1 : 0 < SegLen1 m → 0 < SegLen0 m;
  cons_order2 : 0 < SegLen2 m → 0 < SegLen1 m;
  cons_NumINF : numINF = (if 0 <? SegLen2 m then 3 else if 0 <? SegLen1 m then 2
                          else if 0 <? SegLen0 m then 1 else 0);
  cons_NumHops : numHops = SegLen0 m + SegLen1 m + SegLen2 m;
  cons_MaxHops : numHops ≤ MaxHops
}.

Record wf (s : t) : Prop := {
  wf_meta : MetaHdr.wf (PathMeta s);
  wf_cons : consistent (PathMeta s) (NumINF s) (NumHops s)
}.

(** [CurrINF] is the segment of [CurrHF], and [CurrHF] is a hop of the path. *)
Record in_sync (s : t) : Prop := {
  sync_HF : CurrHF (PathMeta s) < NumHops s;
  sync_INF : CurrINF (PathMeta s) = infIndexForHF s (CurrHF (PathMeta s))
}.

Lemma count_segs_Ok m numINF numHops :
  MetaHdr.wf m →
  count_segs m = Ok (numINF, numHops) ∧ numHops ≤ MaxHops ↔ consistent m numINF numHops.
Proof.
  intros [_ _ ? ? ?]. unfold count_segs, count_seg, SegLen.
  change (2 =? 0) with false. change (2 =? 1) with false. change (1 =? 0) with false.
  change (1 =? 1) with true. change (0 =? 0) with true.
  destruct (Z.eqb_spec (SegLen2 m) 0), (Z.eqb_spec (SegLen1 m) 0), (Z.eqb_spec (SegLen0 m) 0);
    repeat match goal with
    | |- context [0 <? ?x ?y] =>
        first [replace (0 <? x y) with true by lia | replace (0 <? x y) with false by lia]
    | |- context [?x ?y =? 0] =>
        first [replace (x y =? 0) with false by lia | replace (x y =? 0) with true by lia]
    end; simpl.
  all: split; [intros [? ?]; simplify_eq; split; repeat case_match; lia|].
  all: intros [? ? -> -> ?]; repeat case_match; try lia; (split; [f_equal; f_equal; lia|done]).
Qed.

Lemma base_DecodeFromBytes_Ok data s :
  wf_bytes data → DecodeFromBytes data = Ok s ↔
  MetaHdr.DecodeFromBytes data = Ok (PathMeta s) ∧ wf s.
Proof.
  intros Hb. unfold DecodeFromBytes. destruct s as [m ni nh]. simpl. split.
  - intros H. apply bind_Ok in H as (m' & Hm & H).
    apply bind_Ok in H as ([ni' nh'] & Hc & H). go_inv.
    split; [done|].
    destruct (MetaHdr.meta_DecodeFromBytes_inv _ _ Hb Hm).
    split; [done|]. apply count_segs_Ok; [done|]. split; [done|]. simpl. lia.
  - intros [-> [Hm Hc]]. go_cbn. apply count_segs_Ok in Hc as [H Hmax]; [|done]. simpl in *.
    rewrite H. go_cbn. by replace (MaxHops <? nh) with false by lia.
Qed.

Lemma count_seg_no_panic m i st : no_panic (count_seg m i st).
Proof. destruct st. unfold count_seg. apply no_panic_bind; auto with go. Qed.
#[export] Hint Resolve count_seg_no_panic : go.

Lemma base_DecodeFromBytes_no_panic data : no_panic (DecodeFromBytes data).
Proof.
  unfold DecodeFromBytes, count_segs. apply no_panic_bind; [auto with go|intros m _].
  apply no_panic_bind; [repeat (apply no_panic_bind; [auto with go|intros]); auto with go|].
  intros [] _. apply no_panic_bind; auto with go.
Qed.
#[export] Hint Resolve base_DecodeFromBytes_no_panic : go.

Lemma NumINF_range s : wf s → 0 ≤ NumINF s ≤ MaxINFs.
Proof. intros [_ [_ _ -> _ _]]. unfold MaxINFs. repeat case_match; lia. Qed.

Lemma NumHops_range s : wf s → 0 ≤ NumHops s ≤ MaxHops.
Proof. intros [[] [_ _ _ -> ?]]. lia. Qed.

Lemma NumINF_zero s : wf s → NumINF s = 0 ↔ NumHops s = 0.
Proof. intros [[] [? ? -> -> ?]]. repeat case_match; lia. Qed.

Lemma Len_range s : wf s → MetaLen ≤ Len s ≤ 796.
Proof.
  intros H. pose proof (NumINF_range s H). pose proof (NumHops_range s H).
  unfold Len, MetaLen, MaxINFs, MaxHops, InfoLen, HopLen in *. lia.
Qed.

(** For a well-formed path the comparison with [SegLen[0]+SegLen[1]] does not
    wrap around. *)
Lemma infIndexForHF_eq s hf :
  wf s → infIndexForHF s hf =
    if hf <? SegLen0 (PathMeta s) then 0
    else if hf <? SegLen0 (PathMeta s) + SegLen1 (PathMeta s) then 1 else 2.
Proof. intros [[] _]. unfold infIndexForHF. by rewrite uint_of_small by ulia. Qed.

Lemma infIndexForHF_lt s hf : wf s → 0 ≤ hf < NumHops s → infIndexForHF s hf < NumINF s.
Proof.
  intros Hw Hhf. rewrite infIndexForHF_eq by done. destruct Hw as [[] []].
  repeat case_match; lia.
Qed.

Lemma in_sync_INF s : wf s → in_sync s → 0 ≤ CurrINF (PathMeta s) < NumINF s.
Proof.
  intros Hw [? Hs]. split; [apply Hw|]. rewrite Hs. apply infIndexForHF_lt; [done|].
  split; [apply Hw|done].
Qed.

Lemma wf_set_PathMeta s hf inf :
  wf s → 0 ≤ hf < 64 → 0 ≤ inf < 4 →
  wf (set_PathMeta (set_CurrINF inf (set_CurrHF hf (PathMeta s))) s).
Proof. intros [[] [? ? ? ? ?]] ? ?. split; split; done. Qed.

(** ** IncPath *)

Lemma IncPath_Ok s :
  wf s → CurrHF (PathMeta s) < NumHops s - 1 →
  IncPath s =
    (set_PathMeta (set_CurrINF (infIndexForHF s (CurrHF (PathMeta s) + 1))
      (set_CurrHF (CurrHF (PathMeta s) + 1) (PathMeta s))) s, Ok tt).
Proof.
  intros Hw Hlt. unfold IncPath. pose proof (NumINF_zero s Hw). pose proof (NumHops_range s Hw).
  destruct (NumINF s =? 0) eqn:?; [pose proof (wf_CurrHF _ (wf_meta _ Hw)); lia|].
  replace (NumHops s - 1 <=? _) with false by lia.
  pose proof (wf_CurrHF _ (wf_meta _ Hw)).
  rewrite !uint_of_small by ulia. done.
Qed.

Lemma IncPath_at_end s :
  wf s → 0 < NumINF s → NumHops s - 1 ≤ CurrHF (PathMeta s) →
  ∃ s', IncPath s = (s', Err (New "path already at end")) ∧
    CurrHF (PathMeta s') = NumHops s - 1.
Proof.
  intros Hw Hi Hlt. unfold IncPath. pose proof (NumINF_zero s Hw). pose proof (NumHops_range s Hw).
  replace (NumINF s =? 0) with false by lia. replace (_ <=? _) with true by lia.
  eexists. split; [done|]. simpl. unfold MaxHops in *. rewrite uint_of_small; [done|ulia].
Qed.

Lemma IncPath_wf s s' r : wf s → IncPath s = (s', r) → wf s'.
Proof.
  intros Hw. pose proof (wf_CurrHF _ (wf_meta _ Hw)). pose proof (NumHops_range s Hw) as Hr.
  destruct (decide (CurrHF (PathMeta s) < NumHops s - 1)).
  - rewrite IncPath_Ok by done. intros [= <- <-]. unfold MaxHops in *.
    apply wf_set_PathMeta; [done|lia|]. rewrite infIndexForHF_eq by done. repeat case_match; lia.
  - unfold IncPath. destruct (NumINF s =? 0) eqn:E; [by intros [= <- <-]|].
    pose proof (NumINF_zero s Hw). unfold MaxHops in *.
    replace (_ <=? _) with true by lia. intros [= <- <-].
    rewrite uint_of_small by ulia. destruct Hw as [[] [? ? ? ? ?]]. split; split; simpl; try done; lia.
Qed.

Lemma IncPath_in_sync s s' : wf s → IncPath s = (s', Ok tt) → in_sync s'.
Proof.
  intros Hw. destruct (decide (CurrHF (PathMeta s) < NumHops s - 1)).
  - rewrite IncPath_Ok by done. intros [= <-]. split; simpl; [lia|].
    unfold infIndexForHF. done.
  - unfold IncPath. destruct (NumINF s =? 0); [done|].
    by replace (_ <=? _) with true by lia.
Qed.

(** ** Segment changes *)

Lemma IsXover_iff s :
  wf s → in_sync s →
  IsXover s = true ↔
  CurrHF (PathMeta s) + 1 < NumHops s ∧
  (CurrHF (PathMeta s) + 1 = SegLen0 (PathMeta s) ∨
   CurrHF (PathMeta s) + 1 = SegLen0 (PathMeta s) + SegLen1 (PathMeta s)).
Proof.
  intros Hw [Hs Hi]. unfold IsXover. rewrite Hi.
  pose proof (NumHops_range s Hw). unfold MaxHops in *.
  pose proof (wf_CurrHF _ (wf_meta _ Hw)).
  rewrite !uint_of_small, !infIndexForHF_eq by first [done|ulia].
  destruct Hw as [[] [? ? ? ? ?]]. repeat case_match; lia.
Qed.

Lemma IsFirstHopAfterXover_iff s :
  wf s → in_sync s →
  IsFirstHopAfterXover s = true ↔
  0 < CurrHF (PathMeta s) ∧
  (CurrHF (PathMeta s) = SegLen0 (PathMeta s) ∨
   CurrHF (PathMeta s) = SegLen0 (PathMeta s) + SegLen1 (PathMeta s)).
Proof.
  intros Hw [Hs Hi]. unfold IsFirstHopAfterXover.
  pose proof (NumHops_range s Hw). unfold MaxHops in *.
  pose proof (wf_CurrHF _ (wf_meta _ Hw)).
  rewrite (infIndexForHF_eq s (CurrHF _)) in Hi by done.
  rewrite infIndexForHF_eq by done.
  destruct (decide (CurrHF (PathMeta s) = 0)) as [->|]; [repeat case_match; lia|].
  rewrite (uint_of_small 8 (CurrHF (PathMeta s) - 1)) by ulia.
  destruct (decide (CurrINF (PathMeta s) = 0)) as [E|].
  { rewrite E in *. destruct Hw as [[] [? ? ? ? ?]]. repeat case_match; lia. }
  rewrite uint_of_small by (uint_bounds; repeat case_match; lia).
  destruct Hw as [[] [? ? ? ? ?]]. repeat case_match; lia.
Qed.

End Base.

(** * Sequences of fixed-size fields

    The loops of [decoded.go] over the info fields and over the hop fields. *)
Section fields.
Context {A : Type}.

Fixpoint decode_fields (dec : bytes → outcome A) (size : Z) (n : nat)
    (data : bytes) (offset : Z) : outcome (list A * Z) :=
  match n with
  | O => Ok ([], offset)
  | S n =>
      x ← sub data offset (offset + size) ≫= dec;
      '(xs, offset) ← decode_fields dec size n data (offset + size);
      Ok (x :: xs, offset)
  end.

Fixpoint serialize_fields (ser : A → bytes → outcome bytes) (size : Z) (xs : list A)
    (b : bytes) (offset : Z) : outcome (bytes * Z) :=
  match xs with
  | [] => Ok (b, offset)
  | x :: xs =>
      b ← on_sub b offset (offset + size) (ser x);
      serialize_fields ser size xs b (offset + size)
  end.

(** The concatenated wire format. *)
Definition encode_fields (enc : A → bytes) (xs : list A) : bytes := concat (enc <$> xs).

Lemma len_encode_fields enc size xs :
  Forall (λ x, len (enc x) = size) xs → len (encode_fields enc xs) = len xs * size.
Proof.
  induction 1 as [|x xs Hx _ IH]; [done|].
  unfold encode_fields in *. cbn [fmap list_fmap concat].
  rewrite len_app, len_cons, Hx, IH. lia.
Qed.

Lemma decode_fields_chunks dec size cs xs pre post offset :
  Forall2 (λ c x, len c = size ∧ dec c = Ok x) cs xs → offset = len pre →
  decode_fields dec size (length xs) (pre ++ concat cs ++ post) offset =
    Ok (xs, offset + len xs * size).
Proof.
  intros H. revert pre offset. induction H as [|c x cs xs [Hx Hd] H IH]; intros pre offset Hoff.
  { simpl. f_equal. f_equal. unfold len; simpl; lia. }
  cbn [decode_fields length concat].
  rewrite <- (app_assoc c), (sub_mid pre) by lia. go_cbn. rewrite Hd. go_cbn.
  rewrite (app_assoc pre), IH by (len_lia). go_cbn. rewrite len_cons. f_equal. f_equal. lia.
Qed.

Lemma serialize_fields_encode ser enc size xs pre mid post offset :
  Forall (λ x, len (enc x) = size ∧
    ∀ b, size ≤ len b → ser x b = Ok (enc x ++ drop (Z.to_nat size) b)) xs →
  0 ≤ size → offset = len pre → len mid = len xs * size →
  serialize_fields ser size xs (pre ++ mid ++ post) offset =
    Ok (pre ++ encode_fields enc xs ++ post, offset + len xs * size).
Proof.
  intros H Hs. revert pre mid offset.
  induction H as [|x xs [Hx Hd] H IH]; intros pre mid offset Hoff Hmid.
  { simpl. unfold len in Hmid |- *; simpl in *. destruct mid; [|simpl in Hmid; lia].
    f_equal. f_equal. lia. }
  rewrite len_cons in Hmid. pose proof (len_nonneg xs).
  unfold encode_fields in *. cbn [serialize_fields fmap list_fmap concat].
  rewrite <- (take_drop (Z.to_nat size) mid), <- app_assoc, (on_sub_mid pre) by (len_lia).
  rewrite Hd by len_lia. go_cbn.
  rewrite (drop_ge (take _ _)), app_nil_r by (rewrite length_take; lia).
  rewrite (app_assoc pre), IH by len_lia. rewrite <- !app_assoc. f_equal. f_equal.
  rewrite len_cons. lia.
Qed.

(** ** Chunks of a fixed size *)

Lemma chunks_exist (size : Z) (n : nat) (l : list A) :
  0 ≤ size → len l = Z.of_nat n * size →
  ∃ cs, l = concat cs ∧ length cs = n ∧ Forall (λ c, len c = size) cs.
Proof.
  intros Hs. revert l. induction n as [|n IH]; intros l Hl.
  { exists []. destruct l; [done|rewrite len_cons in Hl; len_lia]. }
  rewrite Nat2Z.inj_succ, Z.mul_succ_l in Hl.
  assert (0 ≤ Z.of_nat n * size) by nia.
  destruct (IH (drop (Z.to_nat size) l)) as (cs & E & Hn & Hc); [len_lia|].
  exists (take (Z.to_nat size) l :: cs). simpl. rewrite <- E, take_drop, Hn.
  split_and!; [done..|]. constructor; [len_lia|done].
Qed.

Lemma len_concat (size : Z) (cs : list (list A)) :
  Forall (λ c, len c = size) cs → len (concat cs) = len cs * size.
Proof.
  induction 1 as [|c cs Hc _ IH]; [done|]. simpl. rewrite len_app, len_cons, IH, Hc. lia.
Qed.

Lemma sub_chunk (size : Z) (cs : list (list A)) i c pre post lo hi :
  Forall (λ c, len c = size) cs → cs !! i = Some c →
  lo = len pre + Z.of_nat i * size → hi = lo + size →
  sub (pre ++ concat cs ++ post) lo hi = Ok c.
Proof.
  intros Hcs Hi -> ->. rewrite <- (take_drop_middle _ _ _ Hi), concat_app. cbn [concat].
  assert (len (concat (take i cs)) = Z.of_nat i * size) as E.
  { rewrite (len_concat size) by (by apply Forall_take).
    f_equal. apply lookup_lt_Some in Hi. unfold len. rewrite length_take. lia. }
  apply Forall_lookup_1 with (2 := Hi) in Hcs.
  rewrite <- (app_assoc (concat _)), (app_assoc pre), <- (app_assoc c). apply sub_mid; len_lia.
Qed.

Lemma on_sub_chunk (size : Z) (cs : list (list A)) i c c' f pre post lo hi :
  Forall (λ c, len c = size) cs → cs !! i = Some c → f c = Ok c' →
  lo = len pre + Z.of_nat i * size → hi = lo + size →
  on_sub (pre ++ concat cs ++ post) lo hi f = Ok (pre ++ concat (<[i:=c']> cs) ++ post).
Proof.
  intros Hcs Hi Hf -> ->. pose proof (lookup_lt_Some _ _ _ Hi) as Hlt.
  rewrite <- (take_drop_middle _ _ _ Hi) at 1.
  rewrite insert_take_drop, !concat_app by done. cbn [concat].
  assert (len (concat (take i cs)) = Z.of_nat i * size) as E.
  { rewrite (len_concat size) by (by apply Forall_take).
    f_equal. unfold len. rewrite length_take. lia. }
  apply Forall_lookup_1 with (2 := Hi) in Hcs.
  rewrite <- !(app_assoc (concat _)), !(app_assoc pre), <- (app_assoc c).
  rewrite on_sub_mid by len_lia. rewrite Hf. go_cbn. by rewrite <- !app_assoc.
Qed.
End fields.

(** * decoded.go *)
Module Decoded.

Import MetaHdr Base.

Record t := mk {
  base : Base.t;
  InfoFields : list InfoField.t;
  HopFields : list HopField.t
}.

Definition Len (s : t) : Z := Base.Len (base s).

Definition DecodeFromBytes (data : bytes) : outcome t :=
  b ← Base.DecodeFromBytes data;
  _ ← fail_if (len data <? Base.Len b) (New "DecodedPath raw too short");
  '(infos, offset) ←
    decode_fields InfoField.DecodeFromBytes InfoLen (Z.to_nat (NumINF b)) data MetaLen;
  '(hops, _) ←
    decode_fields HopField.DecodeFromBytes HopLen (Z.to_nat (NumHops b)) data offset;
  Ok (mk b infos hops).

Definition SerializeTo (s : t) (b : bytes) : outcome bytes :=
  _ ← fail_if (len b <? Len s) (New "buffer too small to serialize path.");
  b ← on_sub b 0 MetaLen (MetaHdr.SerializeTo (PathMeta (base s)));
  '(b, offset) ← serialize_fields InfoField.SerializeTo InfoLen (InfoFields s) b MetaLen;
  '(b, _) ← serialize_fields HopField.SerializeTo HopLen (HopFields s) b offset;
  Ok b.

(** [l[i], l[j] = l[j], l[i]] *)
Definition swap {A} (l : list A) (i j : Z) : outcome (list A) :=
  x ← get l i; y ← get l j; l ← put l i y; put l j x.

(** The meta header with [SegLen[0]] and [SegLen[l]] exchanged. *)
Definition swapped_SegLen (l : Z) (m : MetaHdr.t) : MetaHdr.t :=
  if l =? 1 then MetaHdr.mk (CurrINF m) (CurrHF m) (SegLen1 m) (SegLen0 m) (SegLen2 m)
  else if l =? 2 then MetaHdr.mk (CurrINF m) (CurrHF m) (SegLen2 m) (SegLen1 m) (SegLen0 m)
  else m.

(** [s.PathMeta.SegLen[0], s.PathMeta.SegLen[l] = ...[l], ...[0]] on an array of three. *)
Definition swap_SegLen (l : Z) (m : MetaHdr.t) : outcome MetaHdr.t :=
  if (l <? 0) || (2 <? l) then Panic else Ok (swapped_SegLen l m).

(** The loop that flips the construction-direction flags, for [i < n]. *)
Fixpoint flip_ConsDir (n : nat) (infos : list InfoField.t) : outcome (list InfoField.t) :=
  match n with
  | O => Ok infos
  | S n =>
      infos ← flip_ConsDir n infos;
      inf ← get infos (Z.of_nat n);
      put infos (Z.of_nat n)
        (InfoField.mk (InfoField.Peer inf) (negb (InfoField.ConsDir inf))
                      (InfoField.SegID inf) (InfoField.Timestamp inf))
  end.

(** [for i, j := i, j; i < j; i, j = i+1, j-1 { swap }]; [fuel] bounds the number
    of iterations and [j - i] of them are enough. *)
Fixpoint swap_loop {A} (fuel : nat) (i j : Z) (l : list A) : outcome (list A) :=
  if i <? j then
    match fuel with
    | O => Panic
    | S fuel => l ← swap l i j; swap_loop fuel (i + 1) (j - 1) l
    end
  else Ok l.

(** The receiver after a successful call, which is also the path returned. *)
Definition Reverse (s : t) : outcome t :=
  let b := base s in
  _ ← fail_if (NumINF b =? 0)
        (New "empty decoded path is invalid and cannot be reversed");
  '(infos, m) ←
    (if 1 <? NumINF b then
       let l := NumINF b - 1 in
       infos ← swap (InfoFields s) 0 l; m ← swap_SegLen l (PathMeta b); Ok (infos, m)
     else Ok (InfoFields s, PathMeta b));
  infos ← flip_ConsDir (Z.to_nat (NumINF b)) infos;
  hops ← swap_loop (Z.to_nat (NumHops b)) 0 (NumHops b - 1) (HopFields s);
  let m := set_CurrINF (u8 (u8 (u8 (NumINF b) - CurrINF m) - 1)) m in
  let m := set_CurrHF (u8 (u8 (u8 (NumHops b) - CurrHF m) - 1)) m in
  Ok (mk (set_PathMeta m b) infos hops).

(** The methods of the embedded [Base]. *)
Definition set_base (b : Base.t) (s : t) : t := mk b (InfoFields s) (HopFields s).
Definition IncPath : SE t unit := zoom base set_base Base.IncPath.

(** ** Specification and lemmas *)

Record wf (s : t) : Prop := {
  wf_base : Base.wf (base s);
  wf_NumINF : len (InfoFields s) = NumINF (base s);
  wf_NumHops : len (HopFields s) = NumHops (base s);
  wf_infos : Forall InfoField.wf (InfoFields s);
  wf_hops : Forall HopField.wf (HopFields s)
}.

(** The wire format of a path. *)
Definition encode (s : t) : bytes :=
  MetaHdr.encode (PathMeta (base s)) ++ encode_fields InfoField.encode (InfoFields s)
  ++ encode_fields HopField.encode (HopFields s).

Lemma encode_infos_chunks infos :
  Forall InfoField.wf infos →
  Forall2 (λ c x, len c = InfoLen ∧ InfoField.DecodeFromBytes c = Ok x)
    (InfoField.encode <$> infos) infos.
Proof.
  intros H. apply Forall2_fmap_l, Forall_Forall2_diag. apply (Forall_impl _ _ _ H).
  intros x Hx. split; [done|]. rewrite <- (app_nil_r (InfoField.encode x)).
  by apply InfoField.info_DecodeFromBytes_encode.
Qed.

Lemma encode_hops_chunks hops :
  Forall HopField.wf hops →
  Forall2 (λ c x, len c = HopLen ∧ HopField.DecodeFromBytes c = Ok x)
    (HopField.encode <$> hops) hops.
Proof.
  intros H. apply Forall2_fmap_l, Forall_Forall2_diag. apply (Forall_impl _ _ _ H).
  intros x Hx. split; [apply HopField.hop_len_encode, Hx|].
  rewrite <- (app_nil_r (HopField.encode x)). by apply HopField.hop_DecodeFromBytes_encode.
Qed.

Lemma len_encode_infos (infos : list InfoField.t) :
  len (encode_fields InfoField.encode infos) = len infos * InfoLen.
Proof. apply len_encode_fields. by apply Forall_true. Qed.

Lemma len_encode_hops (hops : list HopField.t) :
  Forall HopField.wf hops → len (encode_fields HopField.encode hops) = len hops * HopLen.
Proof.
  intros H. apply len_encode_fields. apply (Forall_impl _ _ _ H).
  intros x Hx. apply HopField.hop_len_encode, Hx.
Qed.

Lemma dec_len_encode s : wf s → len (encode s) = Len s.
Proof.
  intros []. unfold encode, Len, Base.Len.
  rewrite !len_app, MetaHdr.meta_len_encode, len_encode_infos, len_encode_hops by done. lia.
Qed.

Lemma Base_DecodeFromBytes_meta b r :
  Base.wf b → Base.DecodeFromBytes (MetaHdr.encode (PathMeta b) ++ r) = Ok b.
Proof.
  intros Hb. unfold Base.DecodeFromBytes.
  rewrite MetaHdr.meta_DecodeFromBytes_encode by apply Hb.
  destruct (proj2 (count_segs_Ok _ _ _ (Base.wf_meta _ Hb)) (wf_cons _ Hb)) as [Hc Hmax].
  go_cbn. rewrite Hc. go_cbn. go_guard. by destruct b.
Qed.

Lemma Base_DecodeFromBytes_encode s r :
  wf s → Base.DecodeFromBytes (encode s ++ r) = Ok (base s).
Proof. intros []. unfold encode. rewrite <- app_assoc. by apply Base_DecodeFromBytes_meta. Qed.

Lemma dec_DecodeFromBytes_encode s r : wf s → DecodeFromBytes (encode s ++ r) = Ok s.
Proof.
  intros Hw. pose proof (dec_len_encode s Hw) as Hlen. unfold DecodeFromBytes.
  rewrite Base_DecodeFromBytes_encode by done. go_cbn.
  replace (len _ <? _) with false by (unfold Len in Hlen; len_lia). go_cbn.
  destruct Hw as [Hb Hi Hh Hwi Hwh]. destruct s as [b infos hops].
  cbn [base InfoFields HopFields] in *. unfold encode, encode_fields. cbn [base InfoFields HopFields].
  pose proof (MetaHdr.meta_len_encode (PathMeta b)) as Hme.
  set (me := MetaHdr.encode (PathMeta b)) in *. clearbody me. clear Hlen.
  rewrite <- !app_assoc. replace (Z.to_nat (NumINF b)) with (length infos) by (unfold len in *; lia).
  rewrite (decode_fields_chunks _ _ _ _ me) by first [by apply encode_infos_chunks|done].
  go_cbn. replace (Z.to_nat (NumHops b)) with (length hops) by (unfold len in *; lia).
  rewrite (app_assoc me).
  rewrite (decode_fields_chunks _ _ _ _ (_ ++ _)); [done|by apply encode_hops_chunks|].
  rewrite len_app, Hme. f_equal. symmetry. apply len_encode_infos.
Qed.

Lemma dec_SerializeTo_Ok s b :
  wf s → Len s ≤ len b → SerializeTo s b = Ok (encode s ++ drop (Z.to_nat (Len s)) b).
Proof.
  intros [Hb Hi Hh Hwi Hwh] Hl. unfold SerializeTo. go_guard.
  pose proof (NumINF_range _ Hb). pose proof (NumHops_range _ Hb).
  unfold Len, Base.Len, MetaLen, InfoLen, HopLen in *.
  destruct (split_len 4 b) as (m & b1 & -> & Hm & ?); [lia|].
  destruct (split_len (NumINF (base s) * 8) b1) as (mi & b2 & -> & Hmi & ?); [len_lia|].
  destruct (split_len (NumHops (base s) * 12) b2) as (mh & post & -> & Hmh & ?); [len_lia|].
  rewrite on_sub_prefix by lia.
  rewrite MetaHdr.meta_SerializeTo_Ok by first [apply Hb|unfold MetaLen; lia]. go_cbn.
  change (drop 4 m) with (drop (Z.to_nat 4) m). rewrite (drop_all 4 m), app_nil_r by done.
  pose proof (MetaHdr.meta_len_encode (PathMeta (base s))) as Hme. unfold encode.
  set (me := MetaHdr.encode (PathMeta (base s))) in *. clearbody me. unfold MetaLen in Hme.
  rewrite (serialize_fields_encode _ InfoField.encode _ _ me mi);
    [|apply Forall_true; intros x; split; [done|intros; by apply InfoField.info_SerializeTo_Ok]
     |done|done|rewrite Hmi, Hi; lia].
  go_cbn. rewrite (app_assoc me).
  rewrite (serialize_fields_encode _ HopField.encode _ _ (_ ++ _) mh);
    [|apply (Forall_impl _ _ _ Hwh); intros x []; split;
      [by apply HopField.hop_len_encode|intros; by apply HopField.hop_SerializeTo_Ok]
     |done|rewrite len_app, len_encode_infos; unfold InfoLen; lia
     |rewrite Hmh, Hh; lia].
  go_cbn. rewrite !app_assoc, drop_len_app by len_lia. by rewrite <- !app_assoc.
Qed.

End Decoded.

(** * Properties *)
Module ScionPathProperties.

Import MetaHdr Base Decoded.

(** A path of two segments with one and two hops, at its second hop. *)
Definition example_path : Decoded.t :=
  Decoded.mk (Base.mk (MetaHdr.mk 1 1 1 2 0) 2 3)
    [InfoField.mk false false 0x1234 100; InfoField.mk false true 0xabcd 200]
    [HopField.mk false false 63 0 1 [1; 2; 3; 4; 5; 6];
     HopField.mk true false 63 2 3 [7; 8; 9; 10; 11; 12];
     HopField.mk false true 63 4 0 [13; 14; 15; 16; 17; 18]].

Lemma example_path_wf : Decoded.wf example_path.
Proof. split; [split; split; done| | | |]; repeat first [constructor | done]. Qed.

(** ** Re-serialising a decoded path *)

(** The bits of the wire format that carry information. *)
Definition meta_mask : bytes := [255; 3; 255; 255].
Definition info_mask : bytes := [3; 0; 255; 255; 255; 255; 255; 255].
Definition hop_mask : bytes := [3; 255; 255; 255; 255; 255; 255; 255; 255; 255; 255; 255].
Definition path_mask (numINF numHops : Z) : bytes :=
  meta_mask ++ concat (replicate (Z.to_nat numINF) info_mask)
            ++ concat (replicate (Z.to_nat numHops) hop_mask).

(** Clears the reserved bits of the path at the front of [data]. *)
Definition clear_reserved (b : Base.t) (data : bytes) : bytes :=
  zip_with Z.land (path_mask (NumINF b) (NumHops b)) data ++ drop (Z.to_nat (Base.Len b)) data.

Lemma land_255 x : is_u8 x → Z.land 255 x = x.
Proof.
  intros H. rewrite Z.land_comm. change 255 with (2 ^ 8 - 1).
  rewrite land_ones_mod by lia. by apply Z.mod_small.
Qed.

Lemma land_3 x : Z.land 3 x = x mod 4.
Proof. rewrite Z.land_comm. by apply (land_ones_mod x 2). Qed.

Lemma meta_encode_masked raw m :
  wf_bytes raw → MetaHdr.DecodeFromBytes raw = Ok m →
  MetaHdr.encode m = zip_with Z.land meta_mask (take 4 raw).
Proof.
  intros Hwf Hm. destruct (meta_DecodeFromBytes_inv _ _ Hwf Hm) as [_ Hl]. unfold MetaLen in Hl.
  revert Hm. unfold MetaHdr.DecodeFromBytes, MetaLen. go_guard. explode raw 4%nat.
  unfold Uint32, get_be. simpl. intros [= <-]. wf_elems Hwf.
  unfold MetaHdr.encode, meta_mask. simpl. rewrite !land_255, land_3 by done.
  rewrite <- (be_bytes_be_val_n 4 [x; x0 mod 4; x1; x2]); [f_equal| |done].
  2:{ repeat (apply Forall_cons_2; [try assumption; dlia|]). apply Forall_nil_2. }
  unfold line, be_val, uint_of. cbn [fold_left CurrINF CurrHF SegLen0 SegLen1 SegLen2].
  rewrite !land_63_mod, !Z.shiftr_div_pow2 by lia.
  set (v := (((0 * 256 + x) * 256 + x0) * 256 + x1) * 256 + x2).
  assert (v / 2 ^ 30 mod 2 ^ 8 = x / 64) as -> by dlia.
  assert (v / 2 ^ 24 mod 2 ^ 8 mod 64 = x mod 64) as -> by dlia.
  assert (v / 2 ^ 12 mod 2 ^ 8 mod 64 = x0 mod 4 * 16 + x1 / 16) as -> by dlia.
  assert (v / 2 ^ 6 mod 2 ^ 8 mod 64 = x1 mod 16 * 4 + x2 / 64) as -> by dlia.
  assert (v mod 2 ^ 8 mod 64 = x2 mod 64) as -> by dlia. dlia.
Qed.

Lemma zip_with_land_255 c : wf_bytes c → zip_with Z.land (replicate (length c) 255) c = c.
Proof.
  induction 1 as [|x c Hx _ IH]; [done|]. simpl. by rewrite IH, land_255.
Qed.

Lemma info_encode_masked c inf :
  wf_bytes c → len c = InfoLen → InfoField.DecodeFromBytes c = Ok inf →
  InfoField.encode inf = zip_with Z.land info_mask c.
Proof.
  intros Hwf Hc Hd. destruct (InfoField.info_DecodeFromBytes_inv _ _ Hwf Hd) as (_ & _ & b0 & Hb & ->).
  unfold InfoLen in Hc. explode c 8%nat. destruct c; [|len_lia]. simpl in Hb. injection Hb as <-.
  wf_elems Hwf. simpl. rewrite !land_255 by done. by rewrite Z.land_comm.
Qed.

Lemma hop_encode_masked c hop :
  wf_bytes c → len c = HopLen → HopField.DecodeFromBytes c = Ok hop →
  HopField.encode hop = zip_with Z.land hop_mask c.
Proof.
  intros Hwf Hc Hd. destruct (HopField.hop_DecodeFromBytes_inv _ _ Hwf Hd) as (_ & _ & b0 & Hb & ->).
  unfold HopLen in Hc. explode c 12%nat. destruct c; [|len_lia]. simpl in Hb. injection Hb as <-.
  wf_elems Hwf. simpl. rewrite !land_255 by done. by rewrite Z.land_comm.
Qed.

Lemma decode_fields_Forall {A} dec (P : A → Prop) size n data offset xs offset' :
  wf_bytes data → (∀ c x, wf_bytes c → dec c = Ok x → P x) →
  decode_fields dec size n data offset = Ok (xs, offset') → Forall P xs.
Proof.
  intros Hwf Hd. revert offset xs.
  induction n as [|n IH]; intros offset xs H; cbn [decode_fields] in H.
  { injection H as <- <-. constructor. }
  apply bind_Ok in H as (x & Hx & H). apply bind_Ok in H as ([xs' o] & Hxs & H).
  injection H as <- <-. apply bind_Ok in Hx as (c & Hc & Hx).
  constructor; [|by eapply IH]. eapply Hd, Hx. by eapply wf_bytes_sub.
Qed.

Lemma decode_fields_total {A} (dec : bytes → outcome A) size n data offset :
  (∀ c, size ≤ len c → ∃ x, dec c = Ok x) → 0 ≤ size → 0 ≤ offset →
  offset + Z.of_nat n * size ≤ len data →
  ∃ xs, decode_fields dec size n data offset = Ok (xs, offset + Z.of_nat n * size).
Proof.
  intros Hd Hs. revert offset. induction n as [|n IH]; intros offset Ho Hl.
  { exists []. simpl. f_equal. f_equal. lia. }
  rewrite Nat2Z.inj_succ, Z.mul_succ_l in Hl |- *. cbn [decode_fields].
  assert (0 ≤ Z.of_nat n * size) by lia.
  rewrite sub_Ok by lia. go_cbn.
  destruct (Hd (take (Z.to_nat (offset + size - offset)) (drop (Z.to_nat offset) data)))
    as [x ->]; [len_lia|]. go_cbn.
  destruct (IH (offset + size)) as [xs ->]; [lia..|]. go_cbn.
  exists (x :: xs). do 2 f_equal. lia.
Qed.

Lemma length_concat_replicate {A} n (m : list A) :
  length (concat (replicate n m)) = (n * length m)%nat.
Proof. induction n as [|n IH]; [done|]. simpl. by rewrite length_app, IH. Qed.

Lemma zip_with_take_l {A B C} (f : A → B → C) l k n :
  (length l ≤ n)%nat → zip_with f l k = zip_with f l (take n k).
Proof.
  revert k n. induction l as [|x l IH]; intros [|y k] [|n] Hn; simpl in *; try done; try lia.
  f_equal. apply IH. lia.
Qed.

Lemma zip_with_split {A B C} (f : A → B → C) l1 l2 k :
  (length l1 ≤ length k)%nat →
  zip_with f (l1 ++ l2) k = zip_with f l1 k ++ zip_with f l2 (drop (length l1) k).
Proof.
  revert k. induction l1 as [|x l1 IH]; intros [|y k] H; simpl in *; try done; [lia|].
  rewrite IH by lia. done.
Qed.

(** Field by field, the decoding loop reads masked chunks. *)
Lemma decode_fields_masked {A} dec (enc : A → bytes) size mask n data offset xs offset' :
  0 ≤ size → len mask = size → 0 ≤ offset → wf_bytes data →
  (∀ c x, wf_bytes c → len c = size → dec c = Ok x → enc x = zip_with Z.land mask c) →
  decode_fields dec size n data offset = Ok (xs, offset') →
  length xs = n ∧ offset' = offset + Z.of_nat n * size ∧
  encode_fields enc xs =
    zip_with Z.land (concat (replicate n mask)) (drop (Z.to_nat offset) data).
Proof.
  intros Hs Hm. revert offset xs.
  induction n as [|n IH]; intros offset xs Ho Hwf Hd H; cbn [decode_fields] in H.
  { injection H as <- <-. split_and!; [done|lia|done]. }
  apply bind_Ok in H as (x & Hx & H). apply bind_Ok in H as ([xs' o] & Hxs & H).
  injection H as <- <-. apply bind_Ok in Hx as (c & Hc & Hx).
  destruct (IH (offset + size) xs') as (<- & -> & E); [lia|done|done|done|].
  split_and!; [done|rewrite Nat2Z.inj_succ; lia|].
  unfold encode_fields in *. cbn [fmap list_fmap concat length replicate].
  pose proof (len_sub _ _ _ _ Hc). rewrite (Hd c x); [|by eapply wf_bytes_sub|lia|done].
  apply sub_inv in Hc as (? & Hle & ->). rewrite E.
  replace (offset + size - offset) with size by lia.
  replace (Z.to_nat (offset + size)) with (Z.to_nat offset + Z.to_nat size)%nat by lia.
  rewrite <- drop_drop, <- zip_with_app by (rewrite length_take, length_drop; unfold len in *; lia).
  by rewrite take_drop.
Qed.

Lemma Base_DecodeFromBytes_masked data b :
  wf_bytes data → Base.DecodeFromBytes data = Ok b →
  Base.wf b ∧ MetaHdr.encode (PathMeta b) = zip_with Z.land meta_mask (take 4 data).
Proof.
  intros Hwf Hb. apply base_DecodeFromBytes_Ok in Hb as [Hm Hw]; [|done].
  split; [done|]. by apply meta_encode_masked.
Qed.

Lemma decoded_inv data s :
  wf_bytes data → Decoded.DecodeFromBytes data = Ok s →
  Decoded.wf s ∧ Len s ≤ len data ∧
  encode s = zip_with Z.land (path_mask (NumINF (base s)) (NumHops (base s))) data.
Proof.
  intros Hwf H. unfold Decoded.DecodeFromBytes in H.
  apply bind_Ok in H as (b & Hb & H). apply bind_Ok in H as (? & Hl & H). apply fail_if_Ok in Hl.
  apply bind_Ok in H as ([infos o] & Hi & H). apply bind_Ok in H as ([hops o'] & Hh & H).
  injection H as <-. destruct (Base_DecodeFromBytes_masked _ _ Hwf Hb) as [Hw Hme].
  pose proof (NumINF_range _ Hw). pose proof (NumHops_range _ Hw).
  unfold Len. cbn [base]. unfold Base.Len, MetaLen, InfoLen, HopLen in *.
  destruct (decode_fields_masked _ InfoField.encode 8 info_mask _ _ 4 infos o
    ltac:(done) eq_refl ltac:(done) Hwf info_encode_masked Hi) as (Ei & -> & Ei').
  assert (0 ≤ 4 + Z.of_nat (Z.to_nat (NumINF b)) * 8) as Ho by lia.
  destruct (decode_fields_masked _ HopField.encode 12 hop_mask _ _ _ hops o'
    ltac:(done) eq_refl Ho Hwf hop_encode_masked Hh)
    as (Eh & -> & Eh').
  split; [split|split]; cbn [base InfoFields HopFields]; [done|unfold len; lia|unfold len; lia| | |lia|].
  - eapply decode_fields_Forall, Hi; [done|]. intros c y Hc Hy. by eapply InfoField.info_DecodeFromBytes_inv.
  - eapply decode_fields_Forall, Hh; [done|]. intros c y Hc Hy. by eapply HopField.hop_DecodeFromBytes_inv.
  - unfold encode, path_mask. cbn [base InfoFields HopFields]. rewrite Hme, Ei', Eh'.
    unfold len in Hl. rewrite <- (zip_with_take_l _ meta_mask data 4) by done.
    rewrite !zip_with_split, drop_drop, length_concat_replicate.
    + change (length meta_mask) with 4%nat. change (length info_mask) with 8%nat.
      by replace (Z.to_nat (4 + Z.of_nat (Z.to_nat (NumINF b)) * 8))
        with (4 + Z.to_nat (NumINF b) * 8)%nat by lia.
    + rewrite length_concat_replicate, length_drop. change (length meta_mask) with 4%nat.
      change (length info_mask) with 8%nat. lia.
    + change (length meta_mask) with 4%nat. lia.
Qed.

Lemma decoded_no_panic data : wf_bytes data → no_panic (Decoded.DecodeFromBytes data).
Proof.
  intros Hwf. unfold Decoded.DecodeFromBytes. apply no_panic_bind; [auto with go|].
  intros b Hb. apply base_DecodeFromBytes_Ok in Hb as [_ Hw]; [|done].
  pose proof (NumINF_range _ Hw). pose proof (NumHops_range _ Hw).
  apply no_panic_bind; [auto with go|]. intros ? Hl%fail_if_Ok.
  unfold Base.Len, MetaLen, InfoLen, HopLen in *.
  destruct (decode_fields_total InfoField.DecodeFromBytes 8 (Z.to_nat (NumINF b)) data 4)
    as (infos & -> ); [apply InfoField.info_DecodeFromBytes_total|done|done|lia|]. go_cbn.
  destruct (decode_fields_total HopField.DecodeFromBytes 12 (Z.to_nat (NumHops b)) data
    (4 + Z.of_nat (Z.to_nat (NumINF b)) * 8))
    as (hops & -> ); [apply HopField.hop_DecodeFromBytes_total|done|lia|lia|]. done.
Qed.

(** Decoding a path accepts only well-formed paths and loses nothing but the
    reserved bits.  On any bytes [Decoded.DecodeFromBytes] returns a path or an
    error, never a panic; a path it returns satisfies the invariant (segment
    lengths consistent with the counts, fields in range, as many info and hop
    fields as counted); and serialising it over the same bytes succeeds and
    changes exactly the reserved bits of the meta header, the info fields and the
    hop fields, which are cleared. *)
Theorem decode_then_serialize data :
  wf_bytes data →
  match Decoded.DecodeFromBytes data with
  | Ok s => Decoded.wf s ∧ Len s ≤ len data ∧
            Decoded.SerializeTo s data = Ok (clear_reserved (base s) data)
  | Err _ => True
  | Panic => False
  end.
Proof.
  intros Hwf. pose proof (decoded_no_panic data Hwf) as Hnp.
  destruct (Decoded.DecodeFromBytes data) as [s| |] eqn:H; [|done..].
  destruct (decoded_inv _ _ Hwf H) as (Hw & Hl & E). split_and!; [done..|].
  rewrite dec_SerializeTo_Ok by done. unfold clear_reserved. by rewrite E.
Qed.

(** Serialise then decode is the identity: for every well-formed path and
    every buffer that is long enough, [SerializeTo] succeeds, touches only the
    first [Len] bytes, and decoding the buffer gives the path back. *)
Theorem serialize_then_decode s b :
  Decoded.wf s → Len s ≤ len b →
  ∃ out, Decoded.SerializeTo s b = Ok out ∧ len out = len b ∧
    drop (Z.to_nat (Len s)) out = drop (Z.to_nat (Len s)) b ∧
    Decoded.DecodeFromBytes out = Ok s.
Proof.
  intros Hw Hl. pose proof (dec_len_encode s Hw) as He. pose proof (Len_range _ (wf_base _ Hw)).
  exists (encode s ++ drop (Z.to_nat (Len s)) b). unfold Len, MetaLen in *. split_and!.
  - by apply dec_SerializeTo_Ok.
  - unfold Len. len_lia.
  - by rewrite drop_len_app.
  - by apply dec_DecodeFromBytes_encode.
Qed.

Lemma decode_then_serialize_witness :
  ∃ s, Decoded.DecodeFromBytes (255 :: 252 :: drop 2 (encode example_path)) = Ok s ∧
    Decoded.wf s.
Proof.
  assert (wf_bytes (255 :: 252 :: drop 2 (encode example_path))) as Hb by (repeat constructor; done).
  pose proof (decode_then_serialize _ Hb) as H.
  destruct (Decoded.DecodeFromBytes _) as [s| |] eqn:E; [|vm_compute in E; discriminate E..].
  exists s. split; [done|]. by destruct H.
Defined.

Lemma serialize_then_decode_witness :
  ∃ out, Decoded.SerializeTo example_path (make_bytes 60) = Ok out ∧ len out = 60.
Proof.
  destruct (serialize_then_decode example_path (make_bytes 60)) as (out & H & Hl & _);
    [exact example_path_wf|done|]. exists out. split; [done|]. by rewrite Hl.
Defined.

(** ** Walking along a path *)

(** Calls [IncPath] until it fails, at most [fuel] times; returns the positions
    reached, [(CurrINF, CurrHF)], and how the walk ended. *)
Fixpoint walk (fuel : nat) (s : Base.t) : list (Z * Z) * outcome unit :=
  match fuel with
  | O => ([], Ok tt)
  | S fuel =>
      match Base.IncPath s with
      | (s, Ok _) =>
          let '(ps, o) := walk fuel s in
          ((CurrINF (PathMeta s), CurrHF (PathMeta s)) :: ps, o)
      | (_, o) => ([], o)
      end
  end.

Lemma infIndexForHF_set_PathMeta s hf inf i :
  infIndexForHF (set_PathMeta (set_CurrINF inf (set_CurrHF hf (PathMeta s))) s) i
  = infIndexForHF s i.
Proof. done. Qed.

Lemma walk_eq fuel s :
  Base.wf s → 0 < NumINF s → CurrHF (PathMeta s) < NumHops s →
  NumHops s - CurrHF (PathMeta s) ≤ Z.of_nat fuel →
  walk fuel s =
    ((λ i, (infIndexForHF s i, i)) <$> seqZ (CurrHF (PathMeta s) + 1) (NumHops s - 1 - CurrHF (PathMeta s)),
     Err (New "path already at end")).
Proof.
  revert s. induction fuel as [|fuel IH]; intros s Hw Hpos Hlt Hf; [lia|]. cbn [walk].
  pose proof (wf_CurrHF _ (wf_meta _ Hw)). pose proof (NumHops_range _ Hw).
  destruct (decide (CurrHF (PathMeta s) < NumHops s - 1)).
  - rewrite IncPath_Ok by done. rewrite IH; cbn [set_PathMeta set_CurrINF set_CurrHF PathMeta CurrHF CurrINF NumHops NumINF].
    + rewrite (seqZ_cons (CurrHF (PathMeta s) + 1)) by lia. cbn [fmap list_fmap].
      f_equal. f_equal. f_equal. f_equal; lia.
    + unfold MaxHops in *. apply wf_set_PathMeta; [done|lia|].
      rewrite infIndexForHF_eq by done. repeat case_match; lia.
    + done.
    + lia.
    + lia.
  - destruct (IncPath_at_end s Hw) as (s' & -> & _); [lia..|].
    replace (NumHops s - 1 - CurrHF (PathMeta s)) with 0 by lia. done.
Qed.

(** C19: Stepping a path terminates and visits every remaining hop once, in
    order, each with the index of the segment it belongs to; segment indices
    never leave the path.  From hop [k] of a well-formed non-empty path, calling
    [IncPath] repeatedly yields hops [k+1 .. NumHops-1] and then the error
    "path already at end", after at most [NumHops - k] calls. *)
Theorem incpath_visits_every_hop s :
  Base.wf s → 0 < NumINF s → CurrHF (PathMeta s) < NumHops s →
  let k := CurrHF (PathMeta s) in
  let ps := (walk (Z.to_nat (NumHops s - k)) s).1 in
  (walk (Z.to_nat (NumHops s - k)) s).2 = Err (New "path already at end") ∧
  ps.*2 = seqZ (k + 1) (NumHops s - 1 - k) ∧
  Forall (λ p, p.1 = infIndexForHF s p.2 ∧ 0 ≤ p.1 < NumINF s) ps.
Proof.
  intros Hw Hpos Hlt k ps. pose proof (walk_eq (Z.to_nat (NumHops s - k)) s Hw Hpos Hlt ltac:(lia)) as E.
  unfold ps. rewrite E. cbn [fst snd]. split_and!; [done| |].
  - rewrite <- list_fmap_compose. apply list_fmap_id.
  - apply Forall_fmap, Forall_forall. intros i Hi%elem_of_seqZ. cbn. split; [done|].
    pose proof (wf_CurrHF _ (wf_meta _ Hw)).
    split; [rewrite infIndexForHF_eq by done; repeat case_match; lia|].
    apply infIndexForHF_lt; [done|lia].
Qed.

(** [IsXover] and [IsFirstHopAfterXover] are two views of the same segment
    change.  On a path in sync that is not at its last hop, [IncPath] keeps the
    path well formed and in sync, [IsXover] before the step holds exactly when
    the step moves to the next segment, and exactly when [IsFirstHopAfterXover]
    holds after it. *)
Theorem xover_duality s :
  Base.wf s → in_sync s → CurrHF (PathMeta s) < NumHops s - 1 →
  ∃ s', Base.IncPath s = (s', Ok tt) ∧ Base.wf s' ∧ in_sync s' ∧
    (IsXover s = IsFirstHopAfterXover s') ∧
    CurrINF (PathMeta s') = CurrINF (PathMeta s) + (if IsXover s then 1 else 0).
Proof.
  intros Hw Hs Hlt. pose proof (IncPath_Ok s Hw Hlt) as E. eexists. split; [exact E|].
  pose proof (IncPath_wf _ _ _ Hw E) as Hw'. pose proof (IncPath_in_sync _ _ Hw E) as Hs'.
  pose proof (IsXover_iff s Hw Hs) as HX. pose proof (IsFirstHopAfterXover_iff _ Hw' Hs') as HF.
  cbn [set_PathMeta set_CurrINF set_CurrHF PathMeta CurrHF CurrINF NumHops NumINF SegLen0 SegLen1 SegLen2] in *.
  pose proof (wf_CurrHF _ (wf_meta _ Hw)). destruct Hs as [_ HI].
  rewrite infIndexForHF_eq in HI by done.
  split_and!; [exact Hw'|exact Hs'| |].
  - apply eq_bool_prop_intro. rewrite !Is_true_true, HX, HF. lia.
  - rewrite infIndexForHF_eq by done. destruct Hw as [[] []]. destruct (IsXover s); rewrite HI;
      [pose proof (proj1 HX eq_refl)|assert (¬ (false = true)) as Hn by done; rewrite HX in Hn];
      repeat case_match; lia.
Qed.

Definition example_base : Base.t := Base.mk (MetaHdr.mk 0 0 1 2 2) 3 5.

Lemma example_base_wf : Base.wf example_base.
Proof. split; split; done. Qed.

Lemma incpath_visits_every_hop_witness :
  (walk 5 example_base).1 = [(1, 1); (1, 2); (2, 3); (2, 4)] ∧
  (walk 5 example_base).2 = Err (New "path already at end").
Proof.
  split; [reflexivity|]. by apply (incpath_visits_every_hop example_base); [exact example_base_wf|..].
Defined.

Lemma xover_duality_witness :
  IsXover example_base = true ∧
  ∃ s', Base.IncPath example_base = (s', Ok tt) ∧ IsFirstHopAfterXover s' = true.
Proof.
  split; [reflexivity|].
  destruct (xover_duality example_base) as (s' & E & _ & _ & HX & _);
    [exact example_base_wf|by split|done|].
  exists s'. split; [exact E|]. by rewrite <- HX.
Defined.

End ScionPathProperties.
