(* ===== verification/PathReverse.v ===== *)
(** Reversal of a decoded SCION path: the in-place loops of
    [Decoded.Reverse] compute the reversed path. *)
From S2P Require Export ScionPath.

Module DecodedReverse.

Import MetaHdr Base Decoded.

(** * Specification *)

Definition flip (inf : InfoField.t) : InfoField.t :=
  InfoField.mk (InfoField.Peer inf) (negb (InfoField.ConsDir inf))
               (InfoField.SegID inf) (InfoField.Timestamp inf).

(** The meta header of the reversed path: segment lengths in the opposite order,
    and the current segment and hop counted from the other end. *)
Definition reverse_meta (b : Base.t) : MetaHdr.t :=
  let m := swapped_SegLen (NumINF b - 1) (PathMeta b) in
  set_CurrHF (NumHops b - 1 - CurrHF m) (set_CurrINF (NumINF b - 1 - CurrINF m) m).

Definition reverse_spec (s : Decoded.t) : Decoded.t :=
  Decoded.mk (set_PathMeta (reverse_meta (base s)) (base s))
             (flip <$> reverse (InfoFields s)) (reverse (HopFields s)).

(** The current indices point into the path. *)
Record in_range (b : Base.t) : Prop := {
  range_INF : CurrINF (PathMeta b) < NumINF b;
  range_HF : CurrHF (PathMeta b) < NumHops b
}.

(** * The loops *)

Lemma swap_app {A} (pre mid post : list A) x y i j :
  i = len pre → j = len pre + 1 + len mid →
  swap (pre ++ x :: mid ++ y :: post) i j = Ok (pre ++ y :: mid ++ x :: post).
Proof.
  intros -> ->. unfold swap. rewrite (get_app pre x _ (len pre)) by done. go_cbn.
  assert (∀ z, pre ++ z :: mid ++ y :: post = (pre ++ z :: mid) ++ y :: post) as E
    by (intros; by rewrite <- app_assoc).
  rewrite (E x), get_app by len_lia. go_cbn. rewrite <- (E x), put_app by done. go_cbn.
  rewrite (E y), put_app by len_lia. by rewrite <- app_assoc.
Qed.

Lemma swap_loop_reverse {A} fuel (pre mid post : list A) i j :
  i = len pre → j = len pre + len mid - 1 → (length mid ≤ fuel)%nat →
  swap_loop fuel i j (pre ++ mid ++ post) = Ok (pre ++ reverse mid ++ post).
Proof.
  revert pre mid post i j. induction fuel as [|fuel IH]; intros pre mid post i j -> -> Hf.
  { destruct mid; [|simpl in Hf; lia]. simpl. rewrite len_nil.
    by replace (_ <? _) with false by lia. }
  destruct mid as [|x mid].
  { simpl. rewrite len_nil. by replace (_ <? _) with false by lia. }
  destruct mid as [|y mid _] using rev_ind.
  { cbn [swap_loop]. rewrite len_cons, len_nil. by replace (_ <? _) with false by lia. }
  cbn [swap_loop]. rewrite len_cons, len_app, len_cons, len_nil.
  replace (_ <? _) with true by len_lia.
  replace (pre ++ (x :: mid ++ [y]) ++ post) with (pre ++ x :: mid ++ y :: post)
    by (cbn [app]; by rewrite <- app_assoc).
  rewrite swap_app by (len_lia). go_cbn.
  assert (∀ l, pre ++ y :: l = (pre ++ [y]) ++ l) as E by (intros; by rewrite <- app_assoc).
  rewrite E. rewrite IH; [|len_lia|len_lia|].
  - rewrite <- E, reverse_cons, reverse_app. cbn [app reverse rev_append].
    by rewrite <- !app_assoc.
  - simpl in Hf. rewrite length_app in Hf. simpl in Hf. lia.
Qed.

Lemma swap_loop_all {A} (l : list A) n :
  n = len l → swap_loop (Z.to_nat n) 0 (n - 1) l = Ok (reverse l).
Proof.
  intros ->. pose proof (swap_loop_reverse (Z.to_nat (len l)) [] l [] 0 (len l - 1)) as H.
  rewrite !app_nil_r in H. apply H; unfold len; simpl; lia.
Qed.

(** * Reverse *)

Lemma Reverse_empty s :
  NumINF (base s) = 0 →
  Reverse s = Err (New "empty decoded path is invalid and cannot be reversed").
Proof. intros H. unfold Reverse. by rewrite H. Qed.

(** There are at most three info fields: exchanging the outer two reverses them. *)
Lemma swap_ends_reverse (infos : list InfoField.t) ni m :
  len infos = ni → 0 < ni ≤ 3 →
  (if 1 <? ni then
     let l := ni - 1 in infos ← swap infos 0 l; m ← swap_SegLen l m; Ok (infos, m)
   else Ok (infos, m)) = Ok (reverse infos, swapped_SegLen (ni - 1) m).
Proof.
  intros <-. destruct infos as [|? [|? [|? [|]]]]; rewrite ?len_cons, ?len_nil; intros;
    first [len_lia|done].
Qed.

Lemma flip_ConsDir_all n l : (n ≤ length l)%nat →
  flip_ConsDir n l = Ok ((flip <$> take n l) ++ drop n l).
Proof.
  induction n as [|n IH]; intros Hn; [done|]. cbn [flip_ConsDir]. rewrite IH by lia. go_cbn.
  destruct (lookup_lt_is_Some_2 l n) as [x Hx]; [lia|].
  rewrite (drop_S _ _ _ Hx), (take_S_r _ _ _ Hx), fmap_app.
  assert (Z.of_nat n = len (flip <$> take n l)) as E
    by (unfold len; rewrite length_fmap, length_take; lia).
  rewrite get_app by done. go_cbn. rewrite put_app by done. by rewrite <- app_assoc.
Qed.

Lemma Reverse_Ok s :
  wf s → in_range (base s) → 0 < NumINF (base s) → Reverse s = Ok (reverse_spec s).
Proof.
  intros [Hb Hi Hh _ _] [HI HF] Hpos. unfold Reverse.
  pose proof (NumINF_range _ Hb) as Hr. pose proof (NumHops_range _ Hb) as Hr2.
  pose proof (wf_CurrINF _ (wf_meta _ Hb)). pose proof (wf_CurrHF _ (wf_meta _ Hb)).
  unfold MaxINFs, MaxHops in *. go_guard.
  rewrite swap_ends_reverse by (done || lia). go_cbn.
  rewrite flip_ConsDir_all by (rewrite length_reverse; unfold len in *; lia). go_cbn.
  rewrite take_ge, drop_ge, app_nil_r by (rewrite length_reverse; unfold len in *; lia).
  rewrite swap_loop_all by done. go_cbn. unfold reverse_spec, reverse_meta.
  assert (∀ l m, CurrINF (swapped_SegLen l m) = CurrINF m ∧ CurrHF (swapped_SegLen l m) = CurrHF m) as E
    by (intros; unfold swapped_SegLen; by repeat case_match).
  assert (∀ n c, 0 ≤ c < n → n ≤ 64 → u8 (u8 (u8 n - c) - 1) = n - 1 - c) as Hu.
  { intros n c ? ?. rewrite (uint_of_small 8 n), (uint_of_small 8 (n - c)), uint_of_small by ulia. lia. }
  cbn [set_CurrINF CurrHF]. destruct (E (NumINF (base s) - 1) (PathMeta (base s))) as [-> ->].
  rewrite !Hu by lia. done.
Qed.

Lemma flip_flip inf : flip (flip inf) = inf.
Proof. destruct inf as [? [] ? ?]; done. Qed.

Lemma flip_wf inf : InfoField.wf inf → InfoField.wf (flip inf).
Proof. by intros []. Qed.

Lemma reverse_meta_wf b : Base.wf b → in_range b → 0 < NumINF b →
  Base.wf (set_PathMeta (reverse_meta b) b) ∧ in_range (set_PathMeta (reverse_meta b) b).
Proof.
  intros Hw [HI HF] Hpos. pose proof (NumHops_range _ Hw). pose proof (NumINF_range _ Hw).
  destruct Hw as [[] []]. unfold MaxHops, MaxINFs in *.
  assert (NumINF b = 1 ∨ NumINF b = 2 ∨ NumINF b = 3) as Hn by lia.
  unfold reverse_meta, set_PathMeta.
  destruct Hn as [Hn|[Hn|Hn]]; rewrite Hn in *;
    change (1 - 1) with 0; change (2 - 1) with 1; change (3 - 1) with 2;
    (repeat split; cbn -[Z.sub Z.add]; unfold MaxHops; repeat case_match; lia).
Qed.

Lemma reverse_spec_wf s : wf s → in_range (base s) → 0 < NumINF (base s) → wf (reverse_spec s).
Proof.
  intros [Hb Hi Hh Hwi Hwh] Hr Hpos. destruct (reverse_meta_wf _ Hb Hr Hpos) as [Hb' _].
  split; [done|..]; cbn [reverse_spec base InfoFields HopFields NumINF NumHops set_PathMeta].
  - unfold len in *. by rewrite length_fmap, length_reverse.
  - unfold len in *. by rewrite length_reverse.
  - apply Forall_fmap. apply Forall_reverse. apply (Forall_impl _ _ _ Hwi). apply flip_wf.
  - by apply Forall_reverse.
Qed.

Lemma reverse_meta_involutive b :
  Base.wf b → in_range b → 0 < NumINF b →
  reverse_meta (set_PathMeta (reverse_meta b) b) = PathMeta b.
Proof.
  intros Hw _ Hpos. pose proof (NumINF_range _ Hw). unfold MaxINFs in *.
  assert (NumINF b = 1 ∨ NumINF b = 2 ∨ NumINF b = 3) as Hn by lia.
  destruct b as [[] ni nh]. unfold reverse_meta, set_PathMeta, set_CurrHF, set_CurrINF. simpl in Hn.
  cbn [NumINF NumHops PathMeta].
  destruct Hn as [->|[-> | ->]]; change (1 - 1) with 0; change (2 - 1) with 1;
    change (3 - 1) with 2; cbn -[Z.sub]; f_equal; lia.
Qed.

Lemma reverse_spec_involutive s :
  wf s → in_range (base s) → 0 < NumINF (base s) → reverse_spec (reverse_spec s) = s.
Proof.
  intros [Hb _ _ _ _] Hr Hpos. unfold reverse_spec at 1.
  cbn [reverse_spec base InfoFields HopFields NumINF NumHops].
  rewrite reverse_meta_involutive by done.
  assert (flip <$> (flip <$> InfoFields s) = InfoFields s) as E.
  { induction (InfoFields s) as [|i l IH]; [done|]. cbn. by rewrite flip_flip, IH. }
  rewrite <- fmap_reverse, !reverse_involutive, E. by destruct s as [[] ? ?].
Qed.

(** The reversed path is positioned on the segment of its current hop whenever
    the path was. *)
Lemma reverse_meta_in_sync b :
  Base.wf b → in_sync b → 0 < NumINF b → in_sync (set_PathMeta (reverse_meta b) b).
Proof.
  intros Hw Hs Hpos. pose proof (in_sync_INF b Hw Hs) as HI. destruct Hs as [HF HS].
  destruct (reverse_meta_wf b Hw (Build_in_range _ (proj2 HI) HF) Hpos) as [Hw' [_ HF']].
  split; [done|]. rewrite infIndexForHF_eq in * by done.
  pose proof (NumINF_range _ Hw). unfold MaxINFs in *.
  assert (NumINF b = 1 ∨ NumINF b = 2 ∨ NumINF b = 3) as Hn by lia.
  destruct Hw as [[] []]. unfold reverse_meta, set_PathMeta in *. destruct b as [[] ni nh].
  cbn [NumINF NumHops PathMeta] in *.
  destruct Hn as [-> | [-> | ->]]; change (1 - 1) with 0 in *; change (2 - 1) with 1 in *;
    change (3 - 1) with 2 in *; cbn -[Z.sub Z.add] in *; repeat case_match; lia.
Qed.

End DecodedReverse.

(** * Properties *)
Module PathReverseProperties.

Import MetaHdr Base Decoded DecodedReverse.

(** C18: Reversing a decoded path gives the path in the opposite direction.  For a
    well-formed non-empty path whose current indices are in range, the in-place
    loops of [Reverse] terminate without error and produce the reversed path: the
    segments and the hops in the opposite order, every construction-direction
    flag flipped, the current segment and hop counted from the other end; the
    result is again well formed, stays in sync, and reversing it gives the
    original path back.  On an empty path [Reverse] fails. *)
Theorem reverse_correct s :
  Decoded.wf s → in_range (base s) →
  0 < NumINF (base s) ∧
  Reverse s = Ok (reverse_spec s) ∧ Decoded.wf (reverse_spec s) ∧
  (in_sync (base s) → in_sync (base (reverse_spec s))) ∧
  Reverse (reverse_spec s) = Ok s.
Proof.
  intros Hw Hr. pose proof (wf_base _ Hw) as Hb.
  assert (0 < NumINF (base s)) as Hpos.
  { pose proof (range_INF _ Hr). pose proof (wf_CurrINF _ (wf_meta _ Hb)). lia. }
  destruct (reverse_meta_wf _ Hb Hr Hpos) as [_ Hr'].
  split_and!; [done|by apply Reverse_Ok|by apply reverse_spec_wf| |].
  - intros Hs. by apply reverse_meta_in_sync.
  - rewrite Reverse_Ok; [|by apply reverse_spec_wf|done|done].
    by rewrite reverse_spec_involutive.
Qed.

Lemma reverse_correct_witness :
  HopField.ConsEgress <$> HopFields (reverse_spec ScionPathProperties.example_path) = [0; 3; 1] ∧
  Reverse (reverse_spec ScionPathProperties.example_path) = Ok ScionPathProperties.example_path.
Proof.
  split; [reflexivity|].
  apply (reverse_correct ScionPathProperties.example_path); [exact ScionPathProperties.example_path_wf|by split].
Defined.

End PathReverseProperties.
