(* ===== verification/ScionRaw.v ===== *)
(** The SCION path kept as raw bytes, [pkg/slayers/path/scion/raw.go] (Module
    [Raw]), and the refinement that relates it to the decoded path: every
    method of [Raw] does to the bytes what the corresponding method or
    assignment does to the fields of [Decoded] (Module [RawRefinement]). *)
From S2P Require Export PathReverse.

(** * raw.go *)
Module Raw.

Import MetaHdr Base.

(** [None] is the nil slice of the zero value. *)
Record t := mk {
  base : Base.t;
  Raw : option bytes
}.

Definition raw_bytes (s : t) : bytes := default [] (Raw s).

(** Writes [s.Raw] in place. *)
Definition write_raw (f : bytes → outcome bytes) : SE t unit := λ s,
  match f (raw_bytes s) with
  | Ok b => (mk (base s) (Some b), Ok tt)
  | Err e => (s, Err e)
  | Panic => (s, Panic)
  end.

(** [s.PathMeta.SerializeTo(s.Raw[:MetaLen])] *)
Definition flush_meta : SE t unit := λ s,
  write_raw (λ b, on_sub b 0 MetaLen (MetaHdr.SerializeTo (PathMeta (base s)))) s.

Definition Len (s : t) : Z := Base.Len (base s).

Definition DecodeFromBytes (data : bytes) : outcome t :=
  b ← Base.DecodeFromBytes data;
  let pathLen := Base.Len b in
  _ ← fail_if (len data <? pathLen) (New "RawPath raw too short");
  r ← sub data 0 pathLen;
  Ok (mk b (Some r)).

(** The result is the contents of [b] after the call. *)
Definition SerializeTo (b : bytes) : SE t bytes := λ s,
  match Raw s with
  | None => (s, Err (New "raw is nil"))
  | Some _ =>
      if len b <? Len s then (s, Err (New "buffer too small")) else
      (_ ← flush_meta; r ← gets raw_bytes; mret (copy b r)) s
  end.

Definition ToDecoded : SE t Decoded.t :=
  _ ← flush_meta;
  r ← gets raw_bytes;
  lift (Decoded.DecodeFromBytes r).

(** [s.DecodeFromBytes(s.Raw)] *)
Definition redecode : SE t unit := λ s,
  match DecodeFromBytes (raw_bytes s) with
  | Ok s' => (s', Ok tt)
  | Err e => (s, Err e)
  | Panic => (s, Panic)
  end.

Definition Reverse : SE t unit :=
  decoded ← ToDecoded;
  reversed ← lift (Decoded.Reverse decoded);
  _ ← write_raw (Decoded.SerializeTo reversed);
  redecode.

(** [Decoded.ToRaw] *)
Definition ToRaw (d : Decoded.t) : outcome t :=
  b ← Decoded.SerializeTo d (make_bytes (Decoded.Len d));
  DecodeFromBytes b.

Definition set_base (b : Base.t) (s : t) : t := mk b (Raw s).

Definition IncPath : SE t unit :=
  _ ← zoom base set_base Base.IncPath;
  flush_meta.

Definition GetInfoField (s : t) (idx : Z) : outcome InfoField.t :=
  _ ← fail_if (NumINF (base s) <=? idx) (New "InfoField index out of bounds");
  let infOffset := MetaLen + idx * InfoLen in
  sub (raw_bytes s) infOffset (infOffset + InfoLen) ≫= InfoField.DecodeFromBytes.

Definition GetCurrentInfoField (s : t) : outcome InfoField.t :=
  GetInfoField s (CurrINF (PathMeta (base s))).

Definition SetInfoField (info : InfoField.t) (idx : Z) : SE t unit := λ s,
  if NumINF (base s) <=? idx then (s, Err (New "InfoField index out of bounds")) else
  let infOffset := MetaLen + idx * InfoLen in
  write_raw (λ b, on_sub b infOffset (infOffset + InfoLen) (InfoField.SerializeTo info)) s.

Definition GetHopField (s : t) (idx : Z) : outcome HopField.t :=
  _ ← fail_if (NumHops (base s) <=? idx) (New "HopField index out of bounds");
  let hopOffset := MetaLen + NumINF (base s) * InfoLen + idx * HopLen in
  sub (raw_bytes s) hopOffset (hopOffset + HopLen) ≫= HopField.DecodeFromBytes.

Definition GetCurrentHopField (s : t) : outcome HopField.t :=
  GetHopField s (CurrHF (PathMeta (base s))).

Definition SetHopField (hop : HopField.t) (idx : Z) : SE t unit := λ s,
  if NumHops (base s) <=? idx then (s, Err (New "HopField index out of bounds")) else
  let hopOffset := MetaLen + NumINF (base s) * InfoLen + idx * HopLen in
  write_raw (λ b, on_sub b hopOffset (hopOffset + HopLen) (HopField.SerializeTo hop)) s.

Definition IsFirstHop (s : t) : bool := CurrHF (PathMeta (base s)) =? 0.

Definition IsPenultimateHop (s : t) : bool :=
  CurrHF (PathMeta (base s)) =? NumHops (base s) - 2.

Definition IsLastHop (s : t) : bool :=
  CurrHF (PathMeta (base s)) =? NumHops (base s) - 1.

Definition IsXover (s : t) : bool := Base.IsXover (base s).
Definition IsFirstHopAfterXover (s : t) : bool := Base.IsFirstHopAfterXover (base s).

(** ** Well-formedness *)

Record wf (s : t) : Prop := {
  wf_base : Base.wf (base s);
  wf_raw : wf_bytes (raw_bytes s);
  wf_some : Raw s = Some (raw_bytes s);
  wf_len : len (raw_bytes s) = Len s
}.

Lemma raw_DecodeFromBytes_Ok data s :
  wf_bytes data → DecodeFromBytes data = Ok s ↔
  Base.DecodeFromBytes data = Ok (base s) ∧ Len s ≤ len data ∧
  Raw s = Some (take (Z.to_nat (Len s)) data).
Proof.
  intros Hb. unfold DecodeFromBytes. split.
  - intros H. apply bind_Ok in H as (b & Hd & H). apply bind_Ok in H as (? & Hl & H).
    apply bind_Ok in H as (r & Hr & H). apply fail_if_Ok in Hl. injection H as <-.
    apply sub_inv in Hr as (_ & _ & ->). rewrite Z.sub_0_r, drop_0. simpl.
    split_and!; [done|unfold Len; simpl; lia|done].
  - intros (Hd & Hl & Hr). rewrite Hd. go_cbn. unfold Len in *.
    replace (_ <? _) with false by lia. go_cbn.
    apply Base.base_DecodeFromBytes_Ok in Hd as [_ Hw]; [|done]. pose proof (Len_range _ Hw).
    unfold MetaLen in *. rewrite sub_Ok by lia. go_cbn. rewrite Z.sub_0_r, drop_0.
    destruct s. simpl in *. by rewrite Hr.
Qed.

Lemma DecodeFromBytes_wf data s : wf_bytes data → DecodeFromBytes data = Ok s → wf s.
Proof.
  intros Hb (Hd & Hl & Hr)%raw_DecodeFromBytes_Ok; [|done].
  apply Base.base_DecodeFromBytes_Ok in Hd as [_ Hw]; [|done].
  assert (raw_bytes s = take (Z.to_nat (Len s)) data) as E by (unfold raw_bytes; by rewrite Hr).
  pose proof (Len_range _ Hw). unfold MetaLen, Len in *.
  split; [done|rewrite E; auto with go|by rewrite Hr, E|]. rewrite E. unfold Len. len_lia.
Qed.

Lemma raw_DecodeFromBytes_no_panic data : wf_bytes data → no_panic (DecodeFromBytes data).
Proof.
  intros Hb. unfold DecodeFromBytes. apply no_panic_bind; [auto with go|].
  intros b Hd. apply Base.base_DecodeFromBytes_Ok in Hd as [_ Hw]; [|done].
  pose proof (Len_range _ Hw). unfold MetaLen in *.
  apply no_panic_bind; [auto with go|]. intros ? Hl%fail_if_Ok.
  apply no_panic_bind; [apply sub_no_panic; lia|auto with go].
Qed.

End Raw.

(** * The refinement *)
Module RawRefinement.

Import MetaHdr Base Raw.

(** A chunk of bytes that holds a field. *)
Definition info_chunk (c : bytes) (inf : InfoField.t) : Prop :=
  len c = InfoLen ∧ InfoField.DecodeFromBytes c = Ok inf.
Definition hop_chunk (c : bytes) (hop : HopField.t) : Prop :=
  len c = HopLen ∧ HopField.DecodeFromBytes c = Ok hop.

(** The raw path [r] represents the decoded path [d]. *)
Record repr (r : Raw.t) (d : Decoded.t) : Prop := {
  repr_wf : Decoded.wf d;
  repr_base : base r = Decoded.base d;
  repr_raw : ∃ mb ibs hbs,
    Raw r = Some (mb ++ concat ibs ++ concat hbs) ∧ len mb = MetaLen ∧
    Forall2 info_chunk ibs (Decoded.InfoFields d) ∧
    Forall2 hop_chunk hbs (Decoded.HopFields d)
}.

Lemma decode_chunks {A} (size : Z) (dec : bytes → outcome A) (P : A → Prop) cs :
  Forall (λ c, len c = size) cs → wf_bytes (concat cs) →
  (∀ c, len c = size → wf_bytes c → ∃ x, dec c = Ok x ∧ P x) →
  ∃ xs, Forall2 (λ c x, len c = size ∧ dec c = Ok x) cs xs ∧ Forall P xs.
Proof.
  intros H Hw Hd. induction H as [|c cs Hc _ IH]; [by exists []|].
  cbn [concat] in Hw. apply wf_bytes_app in Hw as [? ?].
  destruct IH as (xs & ? & ?); [done|]. destruct (Hd c) as (x & ? & ?); [done..|].
  exists (x :: xs). auto.
Qed.

Lemma info_chunks_len ibs infos :
  Forall2 info_chunk ibs infos → Forall (λ c, len c = InfoLen) ibs ∧ len ibs = len infos.
Proof.
  intros H. split; [|unfold len; by erewrite Forall2_length].
  eapply Forall2_Forall_l; [done|]. apply Forall_true. by intros ? ? [].
Qed.

Lemma hop_chunks_len hbs hops :
  Forall2 hop_chunk hbs hops → Forall (λ c, len c = HopLen) hbs ∧ len hbs = len hops.
Proof.
  intros H. split; [|unfold len; by erewrite Forall2_length].
  eapply Forall2_Forall_l; [done|]. apply Forall_true. by intros ? ? [].
Qed.

(** Every well-formed raw path represents exactly one decoded path. *)
Lemma repr_exists r : Raw.wf r → ∃ d, repr r d.
Proof.
  intros [Hw Hb Hs Hl]. pose proof (NumINF_range _ Hw). pose proof (NumHops_range _ Hw).
  unfold Len, Base.Len, MetaLen, InfoLen, HopLen in Hl.
  destruct (split_len 4 (raw_bytes r)) as (mb & b1 & E & Hm & ?); [lia|].
  destruct (split_len (NumINF (base r) * 8) b1) as (mi & mh & -> & Hmi & ?); [lia|].
  rewrite E in *. apply wf_bytes_app in Hb as [_ [Hbi Hbh]%wf_bytes_app].
  destruct (chunks_exist InfoLen (Z.to_nat (NumINF (base r))) mi) as (ibs & -> & Hni & Hci);
    [done|unfold InfoLen; lia|].
  destruct (chunks_exist HopLen (Z.to_nat (NumHops (base r))) mh) as (hbs & -> & Hnh & Hch);
    [done|unfold HopLen; lia|].
  destruct (decode_chunks InfoLen InfoField.DecodeFromBytes InfoField.wf ibs)
    as (infos & Hi & Hwi); [done..| |].
  { intros c Hc Hwc. destruct (InfoField.info_DecodeFromBytes_total c) as [x Hx]; [lia|].
    exists x. split; [done|]. by apply (InfoField.info_DecodeFromBytes_inv c). }
  destruct (decode_chunks HopLen HopField.DecodeFromBytes HopField.wf hbs)
    as (hops & Hh & Hwh); [done..| |].
  { intros c Hc Hwc. destruct (HopField.hop_DecodeFromBytes_total c) as [x Hx]; [lia|].
    exists x. split; [done|]. by apply (HopField.hop_DecodeFromBytes_inv c). }
  exists (Decoded.mk (base r) infos hops).
  pose proof (info_chunks_len _ _ Hi) as [_ Hi']. pose proof (hop_chunks_len _ _ Hh) as [_ Hh'].
  split; [split|done|exists mb, ibs, hbs]; simpl; try done.
  - rewrite <- Hi'. apply (f_equal Z.of_nat) in Hni. rewrite Z2Nat.id in Hni; [exact Hni|lia].
  - rewrite <- Hh'. apply (f_equal Z.of_nat) in Hnh. rewrite Z2Nat.id in Hnh; [exact Hnh|lia].
Qed.

Lemma len_repr r d mb ibs hbs :
  repr r d → len mb = MetaLen → Forall2 info_chunk ibs (Decoded.InfoFields d) →
  Forall2 hop_chunk hbs (Decoded.HopFields d) →
  len (mb ++ concat ibs ++ concat hbs) = Len r.
Proof.
  intros [[] Hbase _] Hm [Hi Ei]%info_chunks_len [Hh Eh]%hop_chunks_len.
  rewrite !len_app, (len_concat InfoLen), (len_concat HopLen) by done.
  unfold Len, Base.Len, InfoLen, HopLen. rewrite Hbase. lia.
Qed.

(** ** Reading fields *)

Lemma GetInfoField_repr r d i inf :
  repr r d → Decoded.InfoFields d !! i = Some inf → GetInfoField r (Z.of_nat i) = Ok inf.
Proof.
  intros [[] Hb (mb & ibs & hbs & Hr & Hm & Hi & Hh)] Hl. unfold GetInfoField.
  pose proof (lookup_lt_Some _ _ _ Hl). rewrite Hb. unfold len in *. go_guard.
  unfold raw_bytes. rewrite Hr. cbn [default from_option id].
  pose proof (info_chunks_len _ _ Hi) as [Hci _].
  destruct (Forall2_lookup_r _ _ _ _ _ Hi Hl) as (c & Hc & _ & Hd).
  rewrite (sub_chunk InfoLen ibs i c); [done|done|done|unfold len; lia|done].
Qed.

Lemma GetHopField_repr r d i hop :
  repr r d → Decoded.HopFields d !! i = Some hop → GetHopField r (Z.of_nat i) = Ok hop.
Proof.
  intros [[] Hb (mb & ibs & hbs & Hr & Hm & Hi & Hh)] Hl. unfold GetHopField.
  pose proof (lookup_lt_Some _ _ _ Hl). rewrite Hb.
  replace (_ <=? _) with false by (unfold len in *; lia). go_cbn.
  unfold raw_bytes. rewrite Hr. cbn [default from_option id].
  pose proof (info_chunks_len _ _ Hi) as [Hci Eci].
  pose proof (hop_chunks_len _ _ Hh) as [Hch _].
  destruct (Forall2_lookup_r _ _ _ _ _ Hh Hl) as (c & Hc & _ & Hd).
  rewrite (app_assoc mb). rewrite <- (app_nil_r (concat hbs)).
  rewrite (sub_chunk HopLen hbs i c); [done|done|done| |done].
  rewrite len_app, (len_concat InfoLen), Eci by done. lia.
Qed.

Lemma GetInfoField_oob r i :
  NumINF (base r) ≤ i → GetInfoField r i = Err (New "InfoField index out of bounds").
Proof. intros. unfold GetInfoField. by replace (_ <=? _) with true by lia. Qed.

Lemma GetHopField_oob r i :
  NumHops (base r) ≤ i → GetHopField r i = Err (New "HopField index out of bounds").
Proof. intros. unfold GetHopField. by replace (_ <=? _) with true by lia. Qed.

(** ** Writing fields *)

Definition with_InfoField (i : nat) (inf : InfoField.t) (d : Decoded.t) : Decoded.t :=
  Decoded.mk (Decoded.base d) (<[i:=inf]> (Decoded.InfoFields d)) (Decoded.HopFields d).
Definition with_HopField (i : nat) (hop : HopField.t) (d : Decoded.t) : Decoded.t :=
  Decoded.mk (Decoded.base d) (Decoded.InfoFields d) (<[i:=hop]> (Decoded.HopFields d)).

Lemma SetInfoField_repr r d i inf :
  repr r d → InfoField.wf inf → (i < length (Decoded.InfoFields d))%nat →
  ∃ r', SetInfoField inf (Z.of_nat i) r = (r', Ok tt) ∧ repr r' (with_InfoField i inf d).
Proof.
  intros [[] Hb (mb & ibs & hbs & Hr & Hm & Hi & Hh)] Hwf Hlt. unfold SetInfoField.
  rewrite Hb. replace (_ <=? _) with false by (unfold len in *; lia).
  unfold write_raw, raw_bytes. rewrite Hr. cbn [default from_option id].
  pose proof (info_chunks_len _ _ Hi) as [Hci _].
  destruct (lookup_lt_is_Some_2 (Decoded.InfoFields d) i Hlt) as [x Hx].
  destruct (Forall2_lookup_r _ _ _ _ _ Hi Hx) as (c & Hc & Hlc & _).
  rewrite (on_sub_chunk InfoLen ibs i c (InfoField.encode inf)); [|done..| |lia|done].
  2:{ rewrite InfoField.info_SerializeTo_Ok, (drop_len 8 c), app_nil_r by (done || lia). done. }
  eexists. split; [done|]. split.
  - split; simpl; try done; [|by apply Forall_insert].
    unfold len in *. by rewrite length_insert.
  - done.
  - exists mb, (<[i:=InfoField.encode inf]> ibs), hbs. split_and!; try done.
    apply Forall2_insert; [done|]. split; [done|].
    rewrite <- (app_nil_r (InfoField.encode inf)). by apply InfoField.info_DecodeFromBytes_encode.
Qed.

Lemma SetHopField_repr r d i hop :
  repr r d → HopField.wf hop → (i < length (Decoded.HopFields d))%nat →
  ∃ r', SetHopField hop (Z.of_nat i) r = (r', Ok tt) ∧ repr r' (with_HopField i hop d).
Proof.
  intros [[] Hb (mb & ibs & hbs & Hr & Hm & Hi & Hh)] Hwf Hlt. unfold SetHopField.
  rewrite Hb. replace (_ <=? _) with false by (unfold len in *; lia).
  unfold write_raw, raw_bytes. rewrite Hr. cbn [default from_option id].
  pose proof (info_chunks_len _ _ Hi) as [Hci Eci].
  pose proof (hop_chunks_len _ _ Hh) as [Hch _].
  destruct (lookup_lt_is_Some_2 (Decoded.HopFields d) i Hlt) as [x Hx].
  destruct (Forall2_lookup_r _ _ _ _ _ Hh Hx) as (c & Hc & Hlc & _).
  pose proof (HopField.wf_MacLen _ Hwf) as HM.
  rewrite (app_assoc mb). rewrite <- (app_nil_r (concat hbs)).
  rewrite (on_sub_chunk HopLen hbs i c (HopField.encode hop)); [|done..| | |done].
  2:{ rewrite HopField.hop_SerializeTo_Ok, (drop_len 12 c), app_nil_r by (done || lia). done. }
  2:{ rewrite len_app, (len_concat InfoLen), Eci by done. lia. }
  eexists. split; [done|]. split.
  - split; simpl; try done; [|by apply Forall_insert].
    unfold len in *. by rewrite length_insert.
  - done.
  - exists mb, ibs, (<[i:=HopField.encode hop]> hbs). simpl. rewrite <- app_assoc, app_nil_r.
    split_and!; try done.
    apply Forall2_insert; [done|]. split; [by apply HopField.hop_len_encode|].
    rewrite <- (app_nil_r (HopField.encode hop)). by apply HopField.hop_DecodeFromBytes_encode.
Qed.

(** ** The meta header *)

Lemma flush_meta_repr r d :
  repr r d → ∃ r', flush_meta r = (r', Ok tt) ∧ repr r' d ∧
    ∃ ibs hbs, Raw r' = Some (MetaHdr.encode (PathMeta (base r)) ++ concat ibs ++ concat hbs) ∧
    Forall2 info_chunk ibs (Decoded.InfoFields d) ∧ Forall2 hop_chunk hbs (Decoded.HopFields d).
Proof.
  intros [Hd Hb (mb & ibs & hbs & Hr & Hm & Hi & Hh)]. unfold flush_meta, write_raw, raw_bytes.
  rewrite Hr. cbn [default from_option id]. rewrite on_sub_prefix by done.
  rewrite MetaHdr.meta_SerializeTo_Ok by (rewrite ?Hb; apply Hd || lia). go_cbn.
  rewrite (drop_len 4 mb), app_nil_r by done.
  eexists. split; [done|]. split.
  - split; [done|done|]. exists (MetaHdr.encode (PathMeta (base r))), ibs, hbs. done.
  - exists ibs, hbs. done.
Qed.

Lemma decode_of_chunks d mb ibs hbs post :
  Decoded.wf d → len mb = MetaLen →
  Base.DecodeFromBytes (mb ++ concat ibs ++ concat hbs ++ post) = Ok (Decoded.base d) →
  Forall2 info_chunk ibs (Decoded.InfoFields d) →
  Forall2 hop_chunk hbs (Decoded.HopFields d) →
  Decoded.DecodeFromBytes (mb ++ concat ibs ++ concat hbs ++ post) = Ok d.
Proof.
  intros [_ Ei Eh _ _] Hm HB Hi Hh. unfold Decoded.DecodeFromBytes. rewrite HB. go_cbn. clear HB.
  pose proof (info_chunks_len _ _ Hi) as [Hci Eci]. pose proof (hop_chunks_len _ _ Hh) as [Hch Ech].
  destruct d as [b infos hops]. simpl in Ei, Eh, Hi, Hh, Eci, Ech |- *.
  replace (_ <? _) with false.
  2:{ rewrite !len_app, (len_concat InfoLen), (len_concat HopLen) by done. unfold Base.Len.
      pose proof (len_nonneg post). lia. }
  go_cbn. replace (Z.to_nat (NumINF b)) with (length infos) by (unfold len in *; lia).
  rewrite (decode_fields_chunks _ _ _ _ mb) by done. go_cbn.
  replace (Z.to_nat (NumHops b)) with (length hops) by (unfold len in *; lia).
  rewrite (app_assoc mb).
  rewrite (decode_fields_chunks _ _ _ _ (_ ++ _)); [done|done|].
  rewrite len_app, (len_concat InfoLen) by done. lia.
Qed.

Lemma ToDecoded_repr r d :
  repr r d → ∃ r', ToDecoded r = (r', Ok d) ∧ repr r' d.
Proof.
  intros Hrepr. destruct (flush_meta_repr r d Hrepr) as (r' & Hf & Hr' & ibs & hbs & Hraw & Hi & Hh).
  exists r'. split; [|done]. unfold ToDecoded. rewrite (SE_bind_eq _ _ _ _ _ Hf).
  unfold gets, lift, mbind, SE_bind, raw_bytes. rewrite Hraw. cbn [default from_option id]. f_equal.
  destruct Hrepr as [Hd Hb _]. rewrite Hb. rewrite <- (app_nil_r (concat hbs)).
  apply decode_of_chunks; [done..| |done|done]. by apply Decoded.Base_DecodeFromBytes_meta, Hd.
Qed.

Lemma repr_encode d : Decoded.wf d → repr (mk (Decoded.base d) (Some (Decoded.encode d))) d.
Proof.
  intros Hd. split; [done..|].
  exists (MetaHdr.encode (PathMeta (Decoded.base d))), (InfoField.encode <$> Decoded.InfoFields d),
    (HopField.encode <$> Decoded.HopFields d).
  split_and!; [done..| |]; [apply Decoded.encode_infos_chunks|apply Decoded.encode_hops_chunks];
    apply Hd.
Qed.

(** ** Whole paths *)

Lemma repr_wf_len r d : repr r d → len (raw_bytes r) = Len r.
Proof.
  intros H. pose proof H as [_ _ (mb & ibs & hbs & Hr & Hm & Hi & Hh)].
  unfold raw_bytes. rewrite Hr. by apply (len_repr r d).
Qed.

Lemma IncPath_counts b b' o :
  Base.IncPath b = (b', o) → NumINF b' = NumINF b ∧ NumHops b' = NumHops b ∧ o ≠ Panic.
Proof. unfold Base.IncPath. repeat case_match; intros [= <- <-]; done. Qed.

Lemma repr_set_base r d b :
  repr r d → Base.wf b → NumINF b = NumINF (Decoded.base d) →
  NumHops b = NumHops (Decoded.base d) →
  repr (set_base b r) (Decoded.set_base b d).
Proof. intros [[] ? ?] ? ? ?. split; [split; simpl; congruence|done|done]. Qed.

Lemma IncPath_repr r d :
  repr r d → ∃ r' d' o, IncPath r = (r', o) ∧ Decoded.IncPath d = (d', o) ∧ repr r' d'.
Proof.
  intros H. unfold IncPath, Decoded.IncPath, mbind, SE_bind, zoom. rewrite (repr_base _ _ H).
  destruct (Base.IncPath (Decoded.base d)) as [b o] eqn:E.
  destruct (IncPath_counts _ _ _ E) as (? & ? & ?).
  assert (repr (set_base b r) (Decoded.set_base b d)) as H'.
  { apply repr_set_base; try done. by eapply Base.IncPath_wf, E; apply H. }
  destruct o as [[]| |]; [|by do 3 eexists|done].
  destruct (flush_meta_repr _ _ H') as (r' & -> & ? & _). by do 3 eexists.
Qed.

Lemma redecode_encode d :
  Decoded.wf d → DecodeFromBytes (Decoded.encode d) = Ok (mk (Decoded.base d) (Some (Decoded.encode d))).
Proof.
  intros Hd. pose proof (Decoded.dec_len_encode _ Hd) as Hl.
  pose proof (Len_range _ (Decoded.wf_base _ Hd)). unfold Decoded.Len, MetaLen in *.
  unfold DecodeFromBytes. rewrite <- (app_nil_r (Decoded.encode d)) at 1.
  rewrite Decoded.Base_DecodeFromBytes_encode by done. go_cbn.
  go_guard. rewrite sub_whole by lia. done.
Qed.

Lemma Reverse_repr r d :
  repr r d → DecodedReverse.in_range (base r) → 0 < NumINF (base r) →
  ∃ r', Reverse r = (r', Ok tt) ∧ repr r' (DecodedReverse.reverse_spec d).
Proof.
  intros H. destruct (ToDecoded_repr r d H) as (r1 & E & H1). rewrite (repr_base _ _ H).
  intros Hr Hpos. pose proof (repr_wf _ _ H) as Hd.
  pose proof (DecodedReverse.reverse_spec_wf _ Hd Hr Hpos) as Hd'.
  unfold Reverse. rewrite (SE_bind_eq _ _ _ _ _ E).
  rewrite (SE_bind_eq _ _ r1 r1 (DecodedReverse.reverse_spec d))
    by (unfold lift; by rewrite DecodedReverse.Reverse_Ok).
  assert (Decoded.Len (DecodedReverse.reverse_spec d) = len (raw_bytes r1)) as El.
  { rewrite (repr_wf_len _ _ H1). unfold Len. by rewrite (repr_base _ _ H1). }
  unfold mbind, SE_bind, write_raw. rewrite Decoded.dec_SerializeTo_Ok by (done || lia).
  rewrite El, drop_all, app_nil_r by done. unfold redecode, raw_bytes. cbn [Raw default from_option id].
  rewrite redecode_encode by done. eexists. split; [done|]. by apply repr_encode.
Qed.

Lemma SerializeTo_repr r d b :
  repr r d → Len r ≤ len b →
  ∃ r' out, SerializeTo b r = (r', Ok out) ∧ repr r' d ∧ Decoded.DecodeFromBytes out = Ok d ∧
    drop (Z.to_nat (Len r)) out = drop (Z.to_nat (Len r)) b.
Proof.
  intros H Hb. destruct (flush_meta_repr r d H) as (r' & Hf & Hr' & ibs & hbs & Hraw & Hi & Hh).
  pose proof (repr_wf_len _ _ Hr') as Hl. unfold Len in Hl. rewrite (repr_base _ _ Hr') in Hl.
  pose proof (repr_wf _ _ H) as Hd.
  exists r', (copy b (raw_bytes r')). split_and!; [|done| |].
  - unfold SerializeTo. destruct H as [_ _ (? & ? & ? & -> & _)].
    replace (_ <? _) with false by lia. by rewrite (SE_bind_eq _ _ _ _ _ Hf).
  - unfold copy. rewrite take_ge by (unfold Len, len in *; rewrite (repr_base _ _ H) in Hb; lia).
    unfold raw_bytes in *. rewrite Hraw in *. cbn [default from_option id] in *.
    rewrite <- !app_assoc. rewrite (repr_base _ _ H).
    apply decode_of_chunks; [done..| |done|done]. by apply Decoded.Base_DecodeFromBytes_meta, Hd.
  - unfold Len in *. rewrite (repr_base _ _ H) in *.
    unfold copy. rewrite take_ge by (unfold len in *; lia).
    rewrite drop_len_app by done. f_equal. unfold len in *. lia.
Qed.

Lemma ToRaw_repr d : Decoded.wf d → ∃ r, ToRaw d = Ok r ∧ repr r d.
Proof.
  intros Hd. pose proof (Len_range _ (Decoded.wf_base _ Hd)). unfold MetaLen in *.
  unfold ToRaw. rewrite Decoded.dec_SerializeTo_Ok;
    [|done|unfold Decoded.Len; rewrite len_make_bytes; lia].
  rewrite drop_all, app_nil_r by (apply len_make_bytes; unfold Decoded.Len; lia). go_cbn.
  rewrite redecode_encode by done. eexists. split; [done|]. by apply repr_encode.
Qed.

(** Both representations accept the same bytes, and then agree. *)
Lemma decode_agree data r :
  wf_bytes data → DecodeFromBytes data = Ok r →
  ∃ d, repr r d ∧ Decoded.DecodeFromBytes data = Ok d.
Proof.
  intros Hb Hr. pose proof (DecodeFromBytes_wf _ _ Hb Hr) as Hw.
  apply raw_DecodeFromBytes_Ok in Hr as (HB & Hl & Hr); [|done].
  destruct (repr_exists r Hw) as [d H]. exists d. split; [done|].
  pose proof H as [Hd Ed (mb & ibs & hbs & E & Hm & Hi & Hh)].
  rewrite Hr in E. injection E as E.
  rewrite <- (take_drop (Z.to_nat (Len r)) data), E in HB |- *.
  rewrite Ed in *. rewrite <- !app_assoc in *. by apply decode_of_chunks.
Qed.

Lemma decode_agree_conv data d :
  wf_bytes data → Decoded.DecodeFromBytes data = Ok d → ∃ r, DecodeFromBytes data = Ok r.
Proof.
  intros Hb Hd. unfold Decoded.DecodeFromBytes in Hd.
  apply bind_Ok in Hd as (b & HB & Hd). apply bind_Ok in Hd as (u & Hl & _).
  apply fail_if_Ok in Hl.
  exists (mk b (Some (take (Z.to_nat (Base.Len b)) data))).
  apply raw_DecodeFromBytes_Ok; [done|]. unfold Len. simpl. split_and!; [done|lia|done].
Qed.

End RawRefinement.

(** * Properties *)
Module ScionRawProperties.

Import MetaHdr Base Raw RawRefinement.

(** ** The abstract path *)

(** The operations that the data plane performs on a path between decoding and
    serialising it. *)
Inductive op :=
| OpIncPath
| OpReverse
| OpToDecoded
| OpGetInfoField (i : nat)
| OpGetHopField (i : nat)
| OpSetInfoField (inf : InfoField.t) (i : nat)
| OpSetHopField (hop : HopField.t) (i : nat).

Inductive value :=
| VUnit
| VInfo (inf : InfoField.t)
| VHop (hop : HopField.t)
| VPath (d : Decoded.t).

Definition raw_op (o : op) : SE Raw.t value :=
  match o with
  | OpIncPath => _ ← IncPath; mret VUnit
  | OpReverse => _ ← Reverse; mret VUnit
  | OpToDecoded => d ← ToDecoded; mret (VPath d)
  | OpGetInfoField i => λ s, (s, VInfo <$> GetInfoField s (Z.of_nat i))
  | OpGetHopField i => λ s, (s, VHop <$> GetHopField s (Z.of_nat i))
  | OpSetInfoField inf i => _ ← SetInfoField inf (Z.of_nat i); mret VUnit
  | OpSetHopField hop i => _ ← SetHopField hop (Z.of_nat i); mret VUnit
  end.

Definition lookup_or {A} (m : string) (l : list A) (i : nat) : outcome A :=
  match l !! i with Some x => Ok x | None => Err (New m) end.

(** What the operations mean on a record of fields. *)
Definition spec_op (o : op) : SE Decoded.t value := λ d,
  match o with
  | OpIncPath => let '(d', r) := Decoded.IncPath d in (d', (λ _, VUnit) <$> r)
  | OpReverse => (DecodedReverse.reverse_spec d, Ok VUnit)
  | OpToDecoded => (d, Ok (VPath d))
  | OpGetInfoField i =>
      (d, VInfo <$> lookup_or "InfoField index out of bounds" (Decoded.InfoFields d) i)
  | OpGetHopField i =>
      (d, VHop <$> lookup_or "HopField index out of bounds" (Decoded.HopFields d) i)
  | OpSetInfoField inf i =>
      if (i <? length (Decoded.InfoFields d))%nat then (with_InfoField i inf d, Ok VUnit)
      else (d, Err (New "InfoField index out of bounds"))
  | OpSetHopField hop i =>
      if (i <? length (Decoded.HopFields d))%nat then (with_HopField i hop d, Ok VUnit)
      else (d, Err (New "HopField index out of bounds"))
  end.

(** The fields written are in range. *)
Definition op_wf (o : op) : Prop :=
  match o with
  | OpSetInfoField inf _ => InfoField.wf inf
  | OpSetHopField hop _ => HopField.wf hop
  | _ => True
  end.

(** Runs a sequence of operations; errors are returned to the caller, which goes
    on with the same path. *)
Fixpoint run {S} (step : op → SE S value) (os : list op) (s : S) : S * list (outcome value) :=
  match os with
  | [] => (s, [])
  | o :: os =>
      let '(s, v) := step o s in
      let '(s, vs) := run step os s in (s, v :: vs)
  end.

Lemma in_range_pos d :
  Decoded.wf d → DecodedReverse.in_range (Decoded.base d) → 0 < NumINF (Decoded.base d).
Proof.
  intros Hd [? _]. pose proof (wf_CurrINF _ (Base.wf_meta _ (Decoded.wf_base _ Hd))). lia.
Qed.

Lemma IncPath_in_range b b' o :
  Base.wf b → DecodedReverse.in_range b → Base.IncPath b = (b', o) → DecodedReverse.in_range b'.
Proof.
  intros Hw [HI HF] H. destruct (decide (CurrHF (PathMeta b) < NumHops b - 1)).
  - rewrite IncPath_Ok in H by done. injection H as <- <-.
    pose proof (wf_CurrHF _ (Base.wf_meta _ Hw)).
    split; simpl; [apply infIndexForHF_lt; [done|lia]|lia].
  - pose proof (wf_CurrINF _ (Base.wf_meta _ Hw)).
    destruct (IncPath_at_end b Hw) as (s' & E & HE); [lia..|]. rewrite H in E. injection E as -> ->.
    destruct (IncPath_counts _ _ _ H) as (E1 & E2 & _).
    split; [|lia]. revert H. unfold Base.IncPath. repeat case_match; intros [= <-]; done.
Qed.

(** One operation: same result, and the states stay related. *)
Lemma op_simulated o r d :
  op_wf o → repr r d → DecodedReverse.in_range (Decoded.base d) →
  ∃ r' d' v, raw_op o r = (r', v) ∧ spec_op o d = (d', v) ∧ v ≠ Panic ∧
    repr r' d' ∧ DecodedReverse.in_range (Decoded.base d').
Proof.
  intros Hwf H Hr. pose proof (repr_wf _ _ H) as Hd. pose proof (in_range_pos _ Hd Hr) as Hpos.
  destruct o as [| | |i|i|inf i|hop i]; unfold raw_op, spec_op, mbind, SE_bind.
  - destruct (IncPath_repr r d H) as (r' & d' & o & -> & E & H'). rewrite E.
    pose proof (IncPath_in_range (Decoded.base d) (Decoded.base d') o) as Hin.
    unfold Decoded.IncPath, zoom in E.
    destruct (Base.IncPath (Decoded.base d)) as [b' o'] eqn:Eb. injection E as <- <-.
    destruct (IncPath_counts _ _ _ Eb) as (_ & _ & Hnp).
    exists r', (Decoded.set_base b' d), ((λ _, VUnit) <$> o').
    split_and!; [by destruct o' as [[]| |]|done|by destruct o'|done|].
    apply Hin; [apply Hd|done|done].
  - destruct (Reverse_repr r d H) as (r' & -> & H'); [by rewrite (repr_base _ _ H)..|].
    do 3 eexists. split_and!; [done..|]. by apply DecodedReverse.reverse_meta_wf; [apply Hd|..].
  - destruct (ToDecoded_repr r d H) as (r' & -> & H'). by do 3 eexists.
  - do 3 eexists. split; [done|]. unfold lookup_or.
    destruct (Decoded.InfoFields d !! i) as [inf|] eqn:E.
    + rewrite (GetInfoField_repr r d i inf) by done. by split_and!.
    + apply lookup_ge_None in E. rewrite GetInfoField_oob; [by split_and!|].
      rewrite (repr_base _ _ H), <- (Decoded.wf_NumINF _ Hd). unfold len. lia.
  - do 3 eexists. split; [done|]. unfold lookup_or.
    destruct (Decoded.HopFields d !! i) as [hop|] eqn:E.
    + rewrite (GetHopField_repr r d i hop) by done. by split_and!.
    + apply lookup_ge_None in E. rewrite GetHopField_oob; [by split_and!|].
      rewrite (repr_base _ _ H), <- (Decoded.wf_NumHops _ Hd). unfold len. lia.
  - destruct (Nat.ltb_spec i (length (Decoded.InfoFields d))).
    + destruct (SetInfoField_repr r d i inf H) as (r' & -> & H'); [done..|]. by do 3 eexists.
    + unfold SetInfoField. rewrite (repr_base _ _ H), <- (Decoded.wf_NumINF _ Hd).
      replace (_ <=? _) with true by (unfold len; lia). by do 3 eexists.
  - destruct (Nat.ltb_spec i (length (Decoded.HopFields d))).
    + destruct (SetHopField_repr r d i hop H) as (r' & -> & H'); [done..|]. by do 3 eexists.
    + unfold SetHopField. rewrite (repr_base _ _ H), <- (Decoded.wf_NumHops _ Hd).
      replace (_ <=? _) with true by (unfold len; lia). by do 3 eexists.
Qed.

(** C17: The raw path implements the abstract path.  Starting from a raw path that
    represents a record of fields whose current indices are in range, any
    sequence of operations (stepping, reversing, conversion, reading and writing
    info and hop fields by index) done on the bytes gives the same results, value
    or error, as on the record, never panics, and ends in bytes that represent
    the resulting record. *)
Theorem raw_refines_decoded os r d :
  Forall op_wf os → repr r d → DecodedReverse.in_range (Decoded.base d) →
  ∃ r' d' vs, run raw_op os r = (r', vs) ∧ run spec_op os d = (d', vs) ∧
    Forall no_panic vs ∧ repr r' d'.
Proof.
  intros Hos. revert r d. induction Hos as [|o os Ho _ IH]; intros r d H Hr; [by do 3 eexists|].
  destruct (op_simulated o r d Ho H Hr) as (r1 & d1 & v & E1 & E2 & Hv & H1 & Hr1).
  destruct (IH r1 d1 H1 Hr1) as (r' & d' & vs & E3 & E4 & Hvs & H').
  exists r', d', (v :: vs). simpl. rewrite E1, E2, E3, E4. split_and!; [done..| |done].
  by constructor.
Qed.

(** The two representations accept the same bytes and agree on them.  On any
    bytes [Raw.DecodeFromBytes] returns a path or an error, never a panic; it
    succeeds exactly when [Decoded.DecodeFromBytes] does; the raw path then
    represents the decoded one, [ToRaw] leads back, and serialising the raw path into any buffer
    that is long enough writes bytes that decode to it and leaves the rest of
    the buffer alone. *)
Theorem raw_decoded_agree data b :
  wf_bytes data →
  match DecodeFromBytes data with
  | Ok r => ∃ d, Decoded.DecodeFromBytes data = Ok d ∧ repr r d ∧
      (∃ r', ToRaw d = Ok r' ∧ repr r' d) ∧
      (Len r ≤ len b → ∃ r' out, SerializeTo b r = (r', Ok out) ∧ repr r' d ∧
         Decoded.DecodeFromBytes out = Ok d ∧
         drop (Z.to_nat (Len r)) out = drop (Z.to_nat (Len r)) b)
  | Err _ => ∀ d, Decoded.DecodeFromBytes data ≠ Ok d
  | Panic => False
  end.
Proof.
  intros Hb. pose proof (raw_DecodeFromBytes_no_panic data Hb) as Hnp.
  destruct (DecodeFromBytes data) as [r|e|] eqn:E; [| |done].
  - destruct (decode_agree data r Hb E) as (d & H & Hd). exists d. split_and!; [done..| |].
    + apply ToRaw_repr, H.
    + intros Hl. by apply SerializeTo_repr.
  - intros d Hd. destruct (decode_agree_conv data d Hb Hd) as [r Hr]. congruence.
Qed.

(** The bytes of a two-segment path followed by payload. *)
Definition example_bytes : bytes :=
  Decoded.encode ScionPathProperties.example_path ++ [1; 2; 3].

Lemma raw_refines_decoded_witness :
  ∃ r, DecodeFromBytes example_bytes = Ok r ∧
  (run raw_op [OpIncPath; OpReverse; OpSetInfoField (InfoField.mk true true 1 2) 0;
               OpGetInfoField 0; OpGetHopField 3] r).2 =
    [Ok VUnit; Ok VUnit; Ok VUnit; Ok (VInfo (InfoField.mk true true 1 2));
     Err (New "HopField index out of bounds")].
Proof.
  pose (d := ScionPathProperties.example_path).
  eexists. split; [vm_compute; reflexivity|].
  edestruct (raw_refines_decoded [OpIncPath; OpReverse; OpSetInfoField (InfoField.mk true true 1 2) 0;
               OpGetInfoField 0; OpGetHopField 3]
    (mk (Decoded.base d) (Some (Decoded.encode d))) d) as (r' & d' & vs & E1 & E2 & _ & _).
  - repeat constructor; done.
  - apply repr_encode, ScionPathProperties.example_path_wf.
  - by split.
  - match goal with |- (run _ _ ?r).2 = _ =>
      change r with (mk (Decoded.base d) (Some (Decoded.encode d))) end.
    rewrite E1. vm_compute in E2. injection E2 as _ <-. reflexivity.
Defined.

Lemma raw_decoded_agree_witness :
  ∃ r d, DecodeFromBytes example_bytes = Ok r ∧ Decoded.DecodeFromBytes example_bytes = Ok d ∧
    d = ScionPathProperties.example_path.
Proof.
  assert (wf_bytes example_bytes) as Hb by (repeat constructor; done).
  pose proof (raw_decoded_agree example_bytes [] Hb) as H.
  destruct (DecodeFromBytes example_bytes) as [r| |] eqn:E; [|vm_compute in E; discriminate E..].
  destruct H as (d & Hd & _). exists r, d. split_and!; [done..|].
  vm_compute in Hd. injection Hd as <-. reflexivity.
Defined.

End ScionRawProperties.
