(* ===== verification/OtherPaths.v ===== *)
(** The other path types and the path interface: empty, one-hop and EPIC paths
    ([pkg/slayers/path/empty], [onehop], [epic]), paths of unknown type kept as
    bytes, the [Path] interface that the SCION header uses and the table of
    registered types ([pkg/slayers/path/path.go]). *)
From S2P Require Export ScionRaw.

(** * empty.go *)
Module EmptyPath.

Definition PathLen : Z := 0.
Definition PathType : Z := 0.

Definition DecodeFromBytes (r : bytes) : outcome unit :=
  fail_if (negb (len r =? 0)) (New "decoding an empty path").

Definition SerializeTo (b : bytes) : outcome bytes := Ok b.

End EmptyPath.

(** * onehop.go *)
Module OneHop.

Definition PathLen : Z := InfoLen + 2 * HopLen.
Definition PathType : Z := 2.

Record t := mk {
  Info : InfoField.t;
  FirstHop : HopField.t;
  SecondHop : HopField.t
}.

Definition DecodeFromBytes (data : bytes) : outcome t :=
  _ ← fail_if (len data <? PathLen) (New "buffer too short for OneHop path");
  let offset := 0 in
  info ← sub data 0 InfoLen ≫= InfoField.DecodeFromBytes;
  let offset := offset + InfoLen in
  first ← sub data offset (offset + HopLen) ≫= HopField.DecodeFromBytes;
  let offset := offset + HopLen in
  second ← sub data offset (offset + HopLen) ≫= HopField.DecodeFromBytes;
  Ok (mk info first second).

Definition SerializeTo (o : t) (b : bytes) : outcome bytes :=
  _ ← fail_if (len b <? PathLen) (New "buffer too short for OneHop path");
  let offset := 0 in
  b ← on_sub b 0 (offset + InfoLen) (InfoField.SerializeTo (Info o));
  let offset := offset + InfoLen in
  b ← on_sub b offset (offset + HopLen) (HopField.SerializeTo (FirstHop o));
  let offset := offset + HopLen in
  on_sub b offset (offset + HopLen) (HopField.SerializeTo (SecondHop o)).

Definition ToSCIONDecoded (o : t) : outcome Decoded.t :=
  _ ← fail_if (HopField.ConsIngress (SecondHop o) =? 0)
        (New "incomplete path can't be converted");
  Ok (Decoded.mk (Base.mk (MetaHdr.mk 0 0 2 0 0) 1 2)
        [InfoField.mk false true (InfoField.SegID (Info o)) (InfoField.Timestamp (Info o))]
        [FirstHop o; SecondHop o]).

(** The path is incremented because it is reversed at the receiver. *)
Definition Reverse (o : t) : outcome Decoded.t :=
  sp ← wrap_err "converting to scion path" (ToSCIONDecoded o);
  sp ← (match Decoded.IncPath sp with
        | (sp, r) => _ ← wrap_err "incrementing path" r; Ok sp
        end);
  Decoded.Reverse sp.

(** ** Specification and lemmas *)

Record wf (o : t) : Prop := {
  wf_Info : InfoField.wf (Info o);
  wf_FirstHop : HopField.wf (FirstHop o);
  wf_SecondHop : HopField.wf (SecondHop o)
}.

Definition encode (o : t) : bytes :=
  InfoField.encode (Info o) ++ HopField.encode (FirstHop o) ++ HopField.encode (SecondHop o).

Lemma onehop_len_encode o : wf o → len (encode o) = PathLen.
Proof.
  intros [_ H1 H2]. unfold encode. rewrite !len_app, InfoField.info_len_encode.
  rewrite !HopField.hop_len_encode by apply HopField.wf_MacLen, H1 || apply H2. done.
Qed.

Lemma onehop_DecodeFromBytes_encode o r : wf o → DecodeFromBytes (encode o ++ r) = Ok o.
Proof.
  intros Hw. pose proof (onehop_len_encode o Hw) as Hl. destruct Hw as [H0 H1 H2].
  unfold DecodeFromBytes. replace (_ <? _) with false by len_lia. go_cbn.
  pose proof (HopField.hop_len_encode _ (HopField.wf_MacLen _ H1)) as E1.
  pose proof (HopField.hop_len_encode _ (HopField.wf_MacLen _ H2)) as E2.
  pose proof (InfoField.info_len_encode (Info o)) as E0.
  pose proof (InfoField.info_DecodeFromBytes_encode _ [] H0) as D0.
  pose proof (HopField.hop_DecodeFromBytes_encode _ [] H1) as D1.
  pose proof (HopField.hop_DecodeFromBytes_encode _ [] H2) as D2.
  rewrite app_nil_r in D0, D1, D2. unfold encode in *.
  set (b0 := InfoField.encode (Info o)) in *. set (b1 := HopField.encode (FirstHop o)) in *.
  set (b2 := HopField.encode (SecondHop o)) in *. clearbody b0 b1 b2. rewrite <- !app_assoc.
  rewrite sub_prefix by done. go_cbn. rewrite D0. go_cbn.
  rewrite (sub_mid b0 b1 _ (0 + InfoLen)) by lia. go_cbn. rewrite D1. go_cbn.
  rewrite (app_assoc b0), (sub_mid (b0 ++ b1) b2) by len_lia. go_cbn. rewrite D2. go_cbn.
  by destruct o.
Qed.

Lemma onehop_SerializeTo_Ok o b :
  wf o → PathLen ≤ len b → SerializeTo o b = Ok (encode o ++ drop 32 b).
Proof.
  intros [H0 H1 H2] Hb. unfold SerializeTo. go_guard.
  pose proof (HopField.hop_len_encode _ (HopField.wf_MacLen _ H1)) as E1.
  pose proof (InfoField.info_len_encode (Info o)) as E0.
  unfold PathLen, InfoLen, HopLen in *.
  destruct (split_len 8 b) as (c0 & b' & -> & L0 & ?); [lia|].
  destruct (split_len 12 b') as (c1 & b'' & -> & L1 & ?); [len_lia|].
  destruct (split_len 12 b'') as (c2 & r & -> & L2 & ?); [len_lia|].
  rewrite on_sub_prefix by done.
  rewrite InfoField.info_SerializeTo_Ok, (drop_len 8 c0), app_nil_r
    by (done || (unfold InfoLen; lia)). go_cbn.
  unfold encode. set (i := InfoField.encode (Info o)) in *. clearbody i.
  rewrite (on_sub_mid i c1) by lia.
  rewrite HopField.hop_SerializeTo_Ok, (drop_len 12 c1), app_nil_r by (apply H1 || (unfold HopLen; lia)). go_cbn.
  set (h := HopField.encode (FirstHop o)) in *. clearbody h.
  rewrite (app_assoc i), (on_sub_mid (i ++ h) c2) by len_lia.
  rewrite HopField.hop_SerializeTo_Ok, (drop_len 12 c2), app_nil_r by (apply H2 || (unfold HopLen; lia)). go_cbn.
  rewrite !app_assoc. change 32%nat with (Z.to_nat 32). rewrite drop_len_app by len_lia.
  by rewrite <- !app_assoc.
Qed.

Lemma onehop_DecodeFromBytes_spec data :
  wf_bytes data →
  match DecodeFromBytes data with
  | Ok o => wf o ∧ PathLen ≤ len data
  | Err _ => True
  | Panic => False
  end.
Proof.
  intros Hwf. unfold DecodeFromBytes. destruct (Z.ltb_spec (len data) PathLen); [done|]. go_cbn.
  unfold PathLen, InfoLen, HopLen in *.
  repeat match goal with
  | |- context [sub data ?lo ?hi] =>
      let c := fresh "c" in let E := fresh "E" in
      destruct (sub data lo hi) as [c| |] eqn:E;
        [|by rewrite sub_Ok in E by lia|by rewrite sub_Ok in E by lia];
      pose proof (len_sub _ _ _ _ E); apply (wf_bytes_sub _ _ _ _ Hwf) in E; go_cbn;
      first [let x := fresh "x" in let Hx := fresh "Hx" in
             destruct (InfoField.info_DecodeFromBytes_total c) as [x Hx];
             [unfold InfoField.InfoLen; lia|]; rewrite Hx; go_cbn;
             apply InfoField.info_DecodeFromBytes_inv in Hx as [? _]; [|done]
            |let x := fresh "x" in let Hx := fresh "Hx" in
             destruct (HopField.hop_DecodeFromBytes_total c) as [x Hx];
             [unfold HopField.HopLen; lia|]; rewrite Hx; go_cbn;
             apply HopField.hop_DecodeFromBytes_inv in Hx as [? _]; [|done]]
  end.
  done.
Qed.

End OneHop.

(** * epic.go *)
Module Epic.

Definition PathType : Z := 3.
Definition MetadataLen : Z := 16.
Definition PktIDLen : Z := 8.
Definition HVFLen : Z := 4.

Record PktID := mkPktID {
  Timestamp : Z;
  Counter : Z
}.

Definition PktID_DecodeFromBytes (raw : bytes) : outcome PktID :=
  ts ← sub raw 0 4 ≫= Uint32;
  c ← sub raw 4 8 ≫= Uint32;
  Ok (mkPktID ts c).

Definition PktID_SerializeTo (i : PktID) (b : bytes) : outcome bytes :=
  b ← on_sub b 0 4 (λ s, PutUint32 s (Timestamp i));
  on_sub b 4 8 (λ s, PutUint32 s (Counter i)).

(** [ScionPath] is a pointer; [None] is nil. *)
Record t := mk {
  PktId : PktID;
  PHVF : bytes;
  LHVF : bytes;
  ScionPath : option Raw.t
}.

Definition Len (p : t) : Z :=
  match ScionPath p with
  | None => MetadataLen
  | Some r => MetadataLen + Raw.Len r
  end.

Definition set_ScionPath (r : Raw.t) (p : t) : t := mk (PktId p) (PHVF p) (LHVF p) (Some r).

(** Serialising the embedded raw path writes its meta header. *)
Definition SerializeTo (b : bytes) : SE t bytes := λ p,
  if len b <? Len p then (p, Err (New "buffer too small to serialize path.")) else
  if negb (len (PHVF p) =? HVFLen) then (p, Err (New "invalid length of PHVF")) else
  if negb (len (LHVF p) =? HVFLen) then (p, Err (New "invalid length of LHVF")) else
  match ScionPath p with
  | None => (p, Err (New "SCION path is nil"))
  | Some r =>
      match (b ← on_sub b 0 PktIDLen (PktID_SerializeTo (PktId p));
             b ← on_sub b PktIDLen (PktIDLen + HVFLen) (λ s, Ok (copy s (PHVF p)));
             b ← on_sub b (PktIDLen + HVFLen) MetadataLen (λ s, Ok (copy s (LHVF p)));
             rest ← sub_from b MetadataLen;
             Ok (b, rest)) with
      | Ok (b, rest) =>
          let '(r, o) := Raw.SerializeTo rest r in
          (set_ScionPath r p, o ≫= λ rest', on_sub_from b MetadataLen (λ _, Ok rest'))
      | Err e => (p, Err e)
      | Panic => (p, Panic)
      end
  end.

Definition DecodeFromBytes (b : bytes) : outcome t :=
  _ ← fail_if (len b <? MetadataLen) (New "EPIC Path raw too short");
  id ← sub b 0 PktIDLen ≫= PktID_DecodeFromBytes;
  phvf ← sub b PktIDLen (PktIDLen + HVFLen);
  lhvf ← sub b (PktIDLen + HVFLen) MetadataLen;
  rest ← sub_from b MetadataLen;
  r ← Raw.DecodeFromBytes rest;
  Ok (mk id (copy (make_bytes HVFLen) phvf) (copy (make_bytes HVFLen) lhvf) (Some r)).

Definition Reverse : SE t unit := λ p,
  match ScionPath p with
  | None => (p, Err (New "scion subpath must not be nil"))
  | Some r => let '(r, o) := Raw.Reverse r in (set_ScionPath r p, o)
  end.

(** ** Specification and lemmas *)

Record wf (p : t) : Prop := {
  wf_Timestamp : is_u32 (Timestamp (PktId p));
  wf_Counter : is_u32 (Counter (PktId p));
  wf_PHVF : wf_bytes (PHVF p) ∧ length (PHVF p) = 4%nat;
  wf_LHVF : wf_bytes (LHVF p) ∧ length (LHVF p) = 4%nat;
  wf_ScionPath : ∃ r, ScionPath p = Some r ∧ Raw.wf r
}.

(** The 16 bytes in front of the SCION path. *)
Definition encode_metadata (p : t) : bytes :=
  be_bytes 4 (Timestamp (PktId p)) ++ be_bytes 4 (Counter (PktId p)) ++ PHVF p ++ LHVF p.

Lemma len_encode_metadata p :
  length (PHVF p) = 4%nat → length (LHVF p) = 4%nat → len (encode_metadata p) = MetadataLen.
Proof. intros H1 H2. unfold encode_metadata, len. rewrite !length_app, H1, H2. done. Qed.

Lemma write_metadata p m rest :
  length (PHVF p) = 4%nat → length (LHVF p) = 4%nat → len m = MetadataLen →
  (b ← on_sub (m ++ rest) 0 PktIDLen (PktID_SerializeTo (PktId p));
   b ← on_sub b PktIDLen (PktIDLen + HVFLen) (λ s, Ok (copy s (PHVF p)));
   b ← on_sub b (PktIDLen + HVFLen) MetadataLen (λ s, Ok (copy s (LHVF p)));
   r ← sub_from b MetadataLen; Ok (b, r)) = Ok (encode_metadata p ++ rest, rest).
Proof.
  intros H1 H2 Hm. unfold MetadataLen in Hm. explode m 16%nat. destruct m; [|len_lia].
  destruct p as [[ts c] ph lh sp]. simpl in H1, H2.
  do 4 (destruct ph as [|? ph]; [done|]). destruct ph; [|done].
  do 4 (destruct lh as [|? lh]; [done|]). destruct lh; [|done].
  unfold encode_metadata, sub_from, MetadataLen. cbn [PktId PHVF LHVF Timestamp Counter].
  assert (∀ A B (o : outcome A) (f : A → outcome B) a, o = Ok a → o ≫= f = f a) as B
    by (by intros ? ? ? ? ? ->).
  set (id := be_bytes 4 ts ++ be_bytes 4 c).
  rewrite (B _ _ _ _ (id ++ [x7; x8; x9; x10; x11; x12; x13; x14] ++ rest)) by reflexivity.
  rewrite (B _ _ _ _ (id ++ [z; z0; z1; z2] ++ [x11; x12; x13; x14] ++ rest)) by reflexivity.
  rewrite (B _ _ _ _ (id ++ [z; z0; z1; z2] ++ [z3; z4; z5; z6] ++ rest)) by reflexivity.
  rewrite (B _ _ _ _ rest); [by rewrite <- !app_assoc|].
  rewrite !app_assoc. apply sub_suffix; unfold id; len_lia.
Qed.

Lemma read_metadata p rest :
  wf p →
  DecodeFromBytes (encode_metadata p ++ rest) =
    (r ← Raw.DecodeFromBytes rest; Ok (set_ScionPath r p)).
Proof.
  intros [H1 H2 [_ H3] [_ H4] _]. pose proof (len_encode_metadata p H3 H4) as Hl.
  unfold DecodeFromBytes. replace (_ <? _) with false by len_lia. go_cbn.
  destruct p as [[ts c] ph lh sp]. simpl in H1, H2, H3, H4.
  do 4 (destruct ph as [|? ph]; [done|]). destruct ph; [|done].
  do 4 (destruct lh as [|? lh]; [done|]). destruct lh; [|done].
  unfold encode_metadata, PktIDLen, HVFLen, sub_from in *. cbn [PktId PHVF LHVF Timestamp Counter] in *.
  rewrite <- !app_assoc. unfold MetadataLen.
  assert (∀ A (o : outcome A) (f : A → outcome t) a, o = Ok a → o ≫= f = f a) as B
    by (by intros ? ? ? ? ->).
  rewrite (B _ _ _ (mkPktID (be_val (be_bytes 4 ts)) (be_val (be_bytes 4 c)))) by reflexivity.
  rewrite !be_val_be_bytes_32 by done.
  rewrite (B _ _ _ [z; z0; z1; z2]) by reflexivity.
  rewrite (B _ _ _ [z3; z4; z5; z6]) by reflexivity.
  rewrite (B _ _ _ rest); [reflexivity|].
  rewrite !app_assoc. apply sub_suffix; len_lia.
Qed.

End Epic.
