(* ===== verification/PathInterface.v ===== *)
(** The [Path] interface of [pkg/slayers/path/path.go]: the operations that the
    SCION header needs from a path and the laws they obey, as type classes; the
    instances for the six path types; the sum of all of them with its dynamic
    dispatch; and the table of registered path types. *)
From S2P Require Export OtherPaths.

(** * path.go: rawPath *)
Module RawPath.

Record t := mk {
  raw : bytes;
  pathType : Z
}.

Definition SerializeTo (p : t) (b : bytes) : outcome bytes := Ok (copy b (raw p)).
Definition DecodeFromBytes (b : bytes) (p : t) : outcome t := Ok (mk b (pathType p)).
Definition Len (p : t) : Z := len (raw p).
Definition Type_ (p : t) : Z := pathType p.

End RawPath.

(** * The interface *)

(** [Decode] is given the receiver that is overwritten (a new or a recycled
    path); [Serialize] may write to its receiver. *)
Class PathOps (P : Type) := {
  Serialize : bytes → SE P bytes;
  Decode : bytes → P → outcome P;
  PathLen : P → Z;
  PathType : P → Z
}.

(** What every path type promises.  [≡] identifies paths that differ only in
    bytes that serialising overwrites; [path_compat p q] says that [q] can be the
    receiver when the bytes of [p] are decoded. *)
Class PathLaws (P : Type) `{!PathOps P, !Equiv P} := {
  path_equivalence :: Equivalence (≡@{P});
  path_wf : P → Prop;
  path_compat : P → P → Prop;
  path_wf_proper :: Proper ((≡) ==> iff) path_wf;
  path_len_proper :: Proper ((≡) ==> eq) PathLen;
  path_len_nonneg p : path_wf p → 0 ≤ PathLen p;
  (** Decoding never panics, and a decoded path fits in the bytes it came from. *)
  path_decode b q : wf_bytes b →
    match Decode b q with
    | Ok p => path_wf p ∧ PathLen p ≤ len b ∧ PathType p = PathType q
    | Err _ => True
    | Panic => False
    end;
  (** Serialising writes exactly [PathLen] bytes, which decode to the path. *)
  path_serialize p b : path_wf p → PathLen p ≤ len b →
    ∃ p' out, Serialize b p = (p', Ok (out ++ drop (Z.to_nat (PathLen p)) b)) ∧
      p' ≡ p ∧ len out = PathLen p ∧ wf_bytes out ∧
      ∀ q, path_compat p q → ∃ p'', Decode out q = Ok p'' ∧ p'' ≡ p
}.

(** * Instances *)

Definition pure_serialize {P} (f : P → bytes → outcome bytes) (b : bytes) : SE P bytes :=
  λ p, (p, f p b).

#[export] Instance empty_ops : PathOps unit := {
  Serialize := pure_serialize (λ _, EmptyPath.SerializeTo);
  Decode b _ := EmptyPath.DecodeFromBytes b;
  PathLen _ := EmptyPath.PathLen;
  PathType _ := EmptyPath.PathType
}.

#[export] Instance onehop_ops : PathOps OneHop.t := {
  Serialize := pure_serialize OneHop.SerializeTo;
  Decode b _ := OneHop.DecodeFromBytes b;
  PathLen _ := OneHop.PathLen;
  PathType _ := OneHop.PathType
}.

Definition scion_PathType : Z := 1.

#[export] Instance raw_ops : PathOps Raw.t := {
  Serialize := Raw.SerializeTo;
  Decode b _ := Raw.DecodeFromBytes b;
  PathLen := Raw.Len;
  PathType _ := scion_PathType
}.

#[export] Instance decoded_ops : PathOps Decoded.t := {
  Serialize := pure_serialize Decoded.SerializeTo;
  Decode b _ := Decoded.DecodeFromBytes b;
  PathLen := Decoded.Len;
  PathType _ := scion_PathType
}.

#[export] Instance epic_ops : PathOps Epic.t := {
  Serialize := Epic.SerializeTo;
  Decode b _ := Epic.DecodeFromBytes b;
  PathLen := Epic.Len;
  PathType _ := Epic.PathType
}.

#[export] Instance rawpath_ops : PathOps RawPath.t := {
  Serialize := pure_serialize RawPath.SerializeTo;
  Decode := RawPath.DecodeFromBytes;
  PathLen := RawPath.Len;
  PathType := RawPath.Type_
}.

(** ** Paths compared by equality *)

#[export] Instance unit_path_equiv : Equiv unit := (=).
#[export] Instance onehop_equiv : Equiv OneHop.t := (=).
#[export] Instance decoded_equiv : Equiv Decoded.t := (=).
#[export] Instance rawpath_equiv : Equiv RawPath.t := (=).

#[export] Instance empty_laws : PathLaws unit.
Proof.
  refine {| path_wf := λ _, True; path_compat := λ _ _, True |}; try (intros; solve_proper).
  - done.
  - intros b [] Hb. cbn. unfold EmptyPath.DecodeFromBytes.
    destruct (Z.eqb_spec (len b) 0); cbn; [split_and!; [done| |done]|done]. by rewrite e.
  - intros [] b _ _. exists tt, []. split_and!; [done..|constructor|]. intros [] _. by exists tt.
Defined.

#[export] Instance onehop_laws : PathLaws OneHop.t.
Proof.
  refine {| path_wf := OneHop.wf; path_compat := λ _ _, True |}; try apply eq_equivalence;
    try (intros ? ? ->; done).
  - done.
  - intros b q Hb. cbn. pose proof (OneHop.onehop_DecodeFromBytes_spec b Hb) as H.
    destruct (OneHop.DecodeFromBytes b); [by destruct H|done..].
  - intros p b Hp Hl. cbn in *. exists p, (OneHop.encode p).
    unfold pure_serialize. rewrite OneHop.onehop_SerializeTo_Ok by done. split_and!; [done..| | |].
    + by apply OneHop.onehop_len_encode.
    + destruct Hp as [H0 H1 H2]. unfold OneHop.encode. rewrite !wf_bytes_app.
      split_and!; auto using InfoField.info_encode_wf, HopField.hop_encode_wf.
    + intros q _. exists p. split; [|done]. rewrite <- (app_nil_r (OneHop.encode p)).
      by apply OneHop.onehop_DecodeFromBytes_encode.
Defined.

Lemma encode_fields_wf {A} (enc : A → bytes) xs :
  (∀ x, x ∈ xs → wf_bytes (enc x)) → wf_bytes (encode_fields enc xs).
Proof.
  intros H. unfold encode_fields. apply Forall_concat, Forall_fmap, Forall_forall. apply H.
Qed.

Lemma decoded_encode_wf d : Decoded.wf d → wf_bytes (Decoded.encode d).
Proof.
  intros [_ _ _ _ Hh]. unfold Decoded.encode. rewrite !wf_bytes_app. split_and!.
  - apply wf_be_bytes.
  - apply encode_fields_wf. intros. apply InfoField.info_encode_wf.
  - apply encode_fields_wf. intros x Hx. rewrite Forall_forall in Hh.
    by apply HopField.hop_encode_wf, Hh.
Qed.

#[export] Instance decoded_laws : PathLaws Decoded.t.
Proof.
  refine {| path_wf := Decoded.wf; path_compat := λ _ _, True |}; try apply eq_equivalence;
    try (intros ? ? ->; done).
  - intros d Hd. cbn. pose proof (Base.Len_range _ (Decoded.wf_base _ Hd)). unfold MetaLen in *.
    unfold Decoded.Len. lia.
  - intros b q Hb. cbn. pose proof (ScionPathProperties.decoded_no_panic b Hb) as Hn.
    destruct (Decoded.DecodeFromBytes b) as [d| |] eqn:E; [|done..].
    by destruct (ScionPathProperties.decoded_inv b d Hb E) as (? & ? & _).
  - intros p b Hp Hl. cbn in *. exists p, (Decoded.encode p).
    unfold pure_serialize. rewrite Decoded.dec_SerializeTo_Ok by done. split_and!; [done..| | |].
    + by apply Decoded.dec_len_encode.
    + by apply decoded_encode_wf.
    + intros q _. exists p. split; [|done]. rewrite <- (app_nil_r (Decoded.encode p)).
      by apply Decoded.dec_DecodeFromBytes_encode.
Defined.

#[export] Instance rawpath_laws : PathLaws RawPath.t.
Proof.
  refine {| path_wf := λ p, wf_bytes (RawPath.raw p);
            path_compat := λ p q, RawPath.pathType p = RawPath.pathType q |};
    try apply eq_equivalence; try (intros ? ? ->; done).
  - intros p _. apply len_nonneg.
  - intros b q Hb. by split_and!.
  - intros p b Hp Hl. exists p, (RawPath.raw p). cbn in *.
    unfold pure_serialize, RawPath.SerializeTo, copy, RawPath.Len, len in *.
    rewrite take_ge, Nat2Z.id by lia. split_and!; [done..|].
    intros q Hq. eexists. split; [done|]. by rewrite <- Hq; destruct p.
Defined.

(** ** Raw SCION paths: the four bytes of the meta header in the buffer are
    overwritten from the parsed header, so they do not matter. *)

#[export] Instance raw_equiv : Equiv Raw.t := λ r1 r2,
  Raw.base r1 = Raw.base r2 ∧ drop 4 <$> Raw.Raw r1 = drop 4 <$> Raw.Raw r2 ∧
  (Raw.wf r1 ↔ Raw.wf r2).

#[export] Instance raw_equivalence : Equivalence (≡@{Raw.t}).
Proof.
  split.
  - by intros r.
  - intros r1 r2 (?&?&?). by split_and!; symmetry.
  - intros r1 r2 r3 (?&?&?) (?&?&?). split_and!; by etransitivity.
Qed.

Lemma flush_meta_raw r :
  Raw.wf r → ∃ r', Raw.flush_meta r = (r', Ok tt) ∧ r' ≡ r ∧
    Raw.raw_bytes r' = MetaHdr.encode (Base.PathMeta (Raw.base r)) ++ drop 4 (Raw.raw_bytes r).
Proof.
  intros Hw. pose proof Hw as [Hb Hr Hs Hl]. pose proof (Base.Len_range _ Hb).
  unfold Raw.Len, MetaLen in *.
  destruct (split_len 4 (Raw.raw_bytes r)) as (m & rest & E & Hm & Hrest); [lia|].
  unfold Raw.flush_meta, Raw.write_raw. rewrite E. rewrite on_sub_prefix by done.
  rewrite MetaHdr.meta_SerializeTo_Ok by (apply Hb || (unfold MetaLen; lia)). go_cbn.
  rewrite (drop_len 4 m), app_nil_r by done. change (drop 4) with (drop (A:=Z) (Z.to_nat 4)).
  rewrite (drop_len_app 4 m) by done.
  eexists. split; [done|]. split; [|done].
  assert (Raw.wf (Raw.mk (Raw.base r) (Some (MetaHdr.encode (Base.PathMeta (Raw.base r)) ++ rest)))) as Hw'.
  { rewrite E in *. apply wf_bytes_app in Hr as [_ Hr].
    split; unfold Raw.raw_bytes, Raw.Len; cbn [Raw.base Raw.Raw default from_option id];
      [done| |done|].
    - apply wf_bytes_app. split; [apply wf_be_bytes|done].
    - rewrite len_app, MetaHdr.meta_len_encode. unfold MetaLen. rewrite <- Hl, len_app. lia. }
  split_and!; [done| |done]. cbn [Raw.Raw]. rewrite Hs, E. cbn. f_equal.
  transitivity rest; [apply (drop_len_app 4), MetaHdr.meta_len_encode|].
  symmetry. by apply (drop_len_app 4).
Qed.

#[export] Instance scion_raw_laws : PathLaws Raw.t.
Proof.
  refine {| path_wf := Raw.wf; path_compat := λ _ _, True |}.
  - by intros r1 r2 (_&_&?).
  - intros r1 r2 (E&_). cbn. unfold Raw.Len. by rewrite E.
  - intros r Hr. cbn. pose proof (Base.Len_range _ (Raw.wf_base _ Hr)). unfold MetaLen, Raw.Len in *. lia.
  - intros b q Hb. cbn. pose proof (Raw.raw_DecodeFromBytes_no_panic b Hb).
    destruct (Raw.DecodeFromBytes b) as [r| |] eqn:E; [|done..].
    pose proof (Raw.DecodeFromBytes_wf _ _ Hb E). by apply Raw.raw_DecodeFromBytes_Ok in E as (_&?&_).
  - intros r b Hr Hl. change (Raw.Len r ≤ len b) in Hl. cbn [PathLen raw_ops Serialize Decode].
    destruct (flush_meta_raw r Hr) as (r' & Hf & Hr' & Hb').
    assert (Raw.wf r') as Hw' by (by apply Hr').
    pose proof (Raw.wf_len _ Hw') as Hl'. pose proof Hr' as (Eb & _ & _).
    assert (len (Raw.raw_bytes r') = Raw.Len r) as El by (rewrite Hl'; unfold Raw.Len; by rewrite Eb).
    exists r', (Raw.raw_bytes r'). split_and!; [|done|done|by apply Raw.wf_raw|].
    + unfold Raw.SerializeTo. rewrite (Raw.wf_some _ Hr). replace (_ <? _) with false by lia.
      rewrite (SE_bind_eq _ _ _ _ _ Hf). unfold gets, mbind, SE_bind, mret, SE_ret, copy.
      rewrite take_ge by (unfold len in *; lia). rewrite <- El. unfold len. by rewrite Nat2Z.id.
    + intros q _. exists r'. split; [|done]. apply Raw.raw_DecodeFromBytes_Ok; [by apply Raw.wf_raw|].
      rewrite <- Hl', take_ge by (unfold len; lia). split_and!; [|done|by apply Raw.wf_some].
      rewrite Hb', Eb. apply Decoded.Base_DecodeFromBytes_meta, Hr.
Defined.

(** ** EPIC paths *)

#[export] Instance epic_equiv : Equiv Epic.t := λ p1 p2,
  Epic.PktId p1 = Epic.PktId p2 ∧ Epic.PHVF p1 = Epic.PHVF p2 ∧ Epic.LHVF p1 = Epic.LHVF p2 ∧
  option_Forall2 (≡) (Epic.ScionPath p1) (Epic.ScionPath p2).

#[export] Instance epic_equivalence : Equivalence (≡@{Epic.t}).
Proof.
  split.
  - intros p. split_and!; [done..|]. reflexivity.
  - intros p1 p2 (?&?&?&?). split_and!; by symmetry.
  - intros p1 p2 p3 (?&?&?&?) (?&?&?&?). split_and!; by etransitivity.
Qed.

Lemma epic_decode_spec b :
  wf_bytes b →
  match Epic.DecodeFromBytes b with
  | Ok p => Epic.wf p ∧ Epic.Len p ≤ len b
  | Err _ => True
  | Panic => False
  end.
Proof.
  intros Hb. unfold Epic.DecodeFromBytes. destruct (Z.ltb_spec (len b) Epic.MetadataLen); [done|].
  go_cbn. unfold Epic.MetadataLen in *. explode b 16%nat.
  assert (∀ A B (o : outcome A) (f : A → outcome B) a, o = Ok a → o ≫= f = f a) as Bd
    by (by intros ? ? ? ? ? ->).
  rewrite (Bd _ _ _ _ (Epic.mkPktID (be_val [x; x0; x1; x2]) (be_val [x3; x4; x5; x6]))) by reflexivity.
  rewrite (Bd _ _ _ _ [x7; x8; x9; x10]) by reflexivity.
  rewrite (Bd _ _ _ _ [x11; x12; x13; x14]) by reflexivity.
  rewrite (Bd _ _ _ _ b).
  2:{ unfold sub_from. apply (sub_suffix [x; x0; x1; x2; x3; x4; x5; x6; x7; x8; x9; x10; x11; x12; x13; x14]);
      [done|]. rewrite !len_cons, len_nil. lia. }
  wf_elems Hb. pose proof (path_decode b (Raw.mk (Base.mk (MetaHdr.mk 0 0 0 0 0) 0 0) None) Hb) as Hr.
  cbn in Hr. destruct (Raw.DecodeFromBytes b) as [r| |]; [|done..]. go_cbn.
  destruct Hr as (Hr & Hl & _). split; [split; cbn|].
  - apply be_val_u32; [wf_list|done].
  - apply be_val_u32; [wf_list|done].
  - split; [wf_list|done].
  - split; [wf_list|done].
  - by exists r.
  - unfold Epic.Len, Epic.MetadataLen. cbn. rewrite !len_cons. lia.
Qed.

Lemma encode_metadata_wf p : Epic.wf p → wf_bytes (Epic.encode_metadata p).
Proof.
  intros [_ _ [? _] [? _] _]. unfold Epic.encode_metadata. rewrite !wf_bytes_app.
  split_and!; auto with go.
Qed.

#[export] Instance epic_laws : PathLaws Epic.t.
Proof.
  refine {| path_wf := Epic.wf; path_compat := λ _ _, True |}.
  - assert (∀ p1 p2, p1 ≡ p2 → Epic.wf p1 → Epic.wf p2) as H.
    { intros p1 p2 (E1&E2&E3&E4) [? ? ? ? (r & Hr & Hw)]. split; rewrite <- ?E1, <- ?E2, <- ?E3; try done.
      rewrite Hr in E4. inversion E4 as [? r' Hrr Heq|]. exists r'. split; [done|]. by apply Hrr. }
    intros p1 p2 E. split; apply H; [done|by symmetry].
  - intros p1 p2 (_&_&_&E). cbn. unfold Epic.Len. destruct E as [r1 r2 (E&_)|]; [|done].
    unfold Raw.Len. by rewrite E.
  - intros p [_ _ _ _ (r & Hr & Hw)]. cbn. unfold Epic.Len, Epic.MetadataLen. rewrite Hr.
    pose proof (path_len_nonneg r Hw) as H. cbn in H. lia.
  - intros b q Hb. cbn. pose proof (epic_decode_spec b Hb) as H.
    destruct (Epic.DecodeFromBytes b); [by destruct H|done..].
  - intros p b Hp Hl. pose proof Hp as [_ _ [_ H3] [_ H4] (r & Hr & Hw)].
    pose proof (Epic.len_encode_metadata p H3 H4) as Hm. cbn in *.
    pose proof (path_len_nonneg r Hw) as Hrl. cbn in Hrl.
    unfold Epic.Len, Epic.MetadataLen in Hl, Hm. rewrite Hr in Hl.
    destruct (split_len 16 b) as (m & rest & -> & Hlm & Hlr); [lia|].
    destruct (@path_serialize Raw.t _ _ scion_raw_laws r rest Hw) as (r' & out & Hs & Er & Lo & Wo & Hd); [cbn; lia|].
    cbn in Hs, Lo.
    exists (Epic.set_ScionPath r' p), (Epic.encode_metadata p ++ out). split_and!.
    + unfold Epic.SerializeTo, Epic.Len, Epic.MetadataLen, Epic.HVFLen. rewrite Hr.
      replace (_ <? _) with false by lia. unfold len at 1 2. rewrite H3, H4. cbn [negb Z.eqb Pos.eqb Z.of_nat].
      rewrite Epic.write_metadata by done. rewrite Hs. f_equal. go_cbn.
      unfold on_sub_from. rewrite on_sub_suffix by (unfold Epic.MetadataLen; len_lia). go_cbn.
      rewrite <- app_assoc, Z2Nat.inj_add by lia. rewrite <- drop_drop, (drop_len_app 16) by done. done.
    + split_and!; [done..|]. cbn. rewrite Hr. by constructor.
    + rewrite len_app. unfold Epic.Len, Epic.MetadataLen. rewrite Hr. lia.
    + apply wf_bytes_app. split; [by apply encode_metadata_wf|done].
    + intros q _. destruct (Hd r) as (r'' & Hd' & Er'); [done|]. cbn in Hd'.
      rewrite Epic.read_metadata, Hd' by done. go_cbn. eexists. split; [done|].
      split_and!; [done..|]. cbn. rewrite Hr. by constructor.
Defined.

(** * Any path *)

(** A value of the interface type [path.Path], by its dynamic type. *)
Inductive Path :=
| PEmpty
| POneHop (o : OneHop.t)
| PScion (r : Raw.t)
| PDecoded (d : Decoded.t)
| PEpic (e : Epic.t)
| PRaw (p : RawPath.t).

Definition zoom_path {P A} (inj : P → Path) (m : SE P A) (p : P) : Path * outcome A :=
  let '(p, r) := m p in (inj p, r).

#[export] Instance any_path_ops : PathOps Path := {
  Serialize b := λ p,
    match p with
    | PEmpty => zoom_path (λ _, PEmpty) (Serialize b) tt
    | POneHop o => zoom_path POneHop (Serialize b) o
    | PScion r => zoom_path PScion (Serialize b) r
    | PDecoded d => zoom_path PDecoded (Serialize b) d
    | PEpic e => zoom_path PEpic (Serialize b) e
    | PRaw q => zoom_path PRaw (Serialize b) q
    end;
  Decode b p :=
    match p with
    | PEmpty => (λ _, PEmpty) <$> Decode b tt
    | POneHop o => POneHop <$> Decode b o
    | PScion r => PScion <$> Decode b r
    | PDecoded d => PDecoded <$> Decode b d
    | PEpic e => PEpic <$> Decode b e
    | PRaw q => PRaw <$> Decode b q
    end;
  PathLen p :=
    match p with
    | PEmpty => PathLen tt | POneHop o => PathLen o | PScion r => PathLen r
    | PDecoded d => PathLen d | PEpic e => PathLen e | PRaw q => PathLen q
    end;
  PathType p :=
    match p with
    | PEmpty => PathType tt | POneHop o => PathType o | PScion r => PathType r
    | PDecoded d => PathType d | PEpic e => PathType e | PRaw q => PathType q
    end
}.

(** [Path.Reverse]: the path returned.  A raw or an EPIC path is reversed in
    place and returned itself; a one-hop path becomes a decoded SCION path. *)
Definition Reverse (p : Path) : outcome Path :=
  match p with
  | PEmpty => Ok PEmpty
  | POneHop o => PDecoded <$> OneHop.Reverse o
  | PScion r => let '(r, o) := Raw.Reverse r in (λ _, PScion r) <$> o
  | PDecoded d => PDecoded <$> Decoded.Reverse d
  | PEpic e => let '(e, o) := Epic.Reverse e in (λ _, PEpic e) <$> o
  | PRaw _ => Err (New "not supported")
  end.

#[export] Instance any_path_equiv : Equiv Path := λ p1 p2,
  match p1, p2 with
  | PEmpty, PEmpty => True
  | POneHop o1, POneHop o2 => o1 ≡ o2
  | PScion r1, PScion r2 => r1 ≡ r2
  | PDecoded d1, PDecoded d2 => d1 ≡ d2
  | PEpic e1, PEpic e2 => e1 ≡ e2
  | PRaw q1, PRaw q2 => q1 ≡ q2
  | _, _ => False
  end.

#[export] Instance any_path_equivalence : Equivalence (≡@{Path}).
Proof.
  split.
  - intros []; cbn; reflexivity || done.
  - intros [] []; cbn; try done; by symmetry.
  - intros [] [] [] H1 H2; cbn in *; try done; by etransitivity.
Qed.

Definition any_path_wf (p : Path) : Prop :=
  match p with
  | PEmpty => path_wf tt | POneHop o => path_wf o | PScion r => path_wf r
  | PDecoded d => path_wf d | PEpic e => path_wf e | PRaw q => path_wf q
  end.

Definition any_path_compat (p q : Path) : Prop :=
  match p, q with
  | PEmpty, PEmpty => path_compat tt tt
  | POneHop p, POneHop q => path_compat p q
  | PScion p, PScion q => path_compat p q
  | PDecoded p, PDecoded q => path_compat p q
  | PEpic p, PEpic q => path_compat p q
  | PRaw p, PRaw q => path_compat p q
  | _, _ => False
  end.

Section lift_laws.
Context {P : Type} `{!PathOps P, !Equiv P, !PathLaws P} (inj : P → Path).

Lemma lift_decode (b : bytes) (q : P) :
  (∀ p, any_path_wf (inj p) ↔ path_wf p) → (∀ p, PathLen (inj p) = PathLen p) →
  (∀ p, PathType (inj p) = PathType p) → wf_bytes b →
  match inj <$> Decode b q with
  | Ok p => any_path_wf p ∧ PathLen p ≤ len b ∧ PathType p = PathType q
  | Err _ => True
  | Panic => False
  end.
Proof.
  intros Hw Hl Ht Hb. pose proof (path_decode b q Hb) as H.
  destruct (Decode b q) as [p| |]; go_cbn; [|done..]. by rewrite Hw, Hl, Ht.
Qed.

Lemma lift_serialize (p : P) (b : bytes) :
  path_wf p → PathLen p ≤ len b →
  (∀ p p', inj p ≡ inj p' ↔ p ≡ p') →
  (∀ q, any_path_compat (inj p) q → ∃ q', q = inj q' ∧ path_compat p q') →
  (∀ q b, Decode b (inj q) = inj <$> Decode b q) →
  ∃ p' out, zoom_path inj (Serialize b) p = (p', Ok (out ++ drop (Z.to_nat (PathLen p)) b)) ∧
    p' ≡ inj p ∧ len out = PathLen p ∧ wf_bytes out ∧
    ∀ q, any_path_compat (inj p) q → ∃ p'', Decode out q = Ok p'' ∧ p'' ≡ inj p.
Proof.
  intros Hp Hl He Hc Hdec. destruct (path_serialize p b Hp Hl) as (p' & out & Hs & Ep & Lo & Wo & Hd).
  exists (inj p'), out. unfold zoom_path. rewrite Hs. split_and!; [done|by apply He|done|done|].
  intros q Hq. destruct (Hc q Hq) as (q' & -> & Hq'). destruct (Hd q' Hq') as (p'' & E & Ep'').
  exists (inj p''). rewrite Hdec, E. split; [done|]. by apply He.
Qed.
End lift_laws.

#[export] Instance any_path_laws : PathLaws Path.
Proof.
  refine {| path_wf := any_path_wf; path_compat := any_path_compat |}.
  - intros [] [] E; cbn in E; try done; cbn [any_path_wf]; by apply path_wf_proper.
  - intros [] [] E; cbn in E; try done; exact (path_len_proper _ _ E).
  - intros [|o|r|d|e|q] H; [exact (path_len_nonneg tt H)|exact (path_len_nonneg o H)
      |exact (path_len_nonneg r H)|exact (path_len_nonneg d H)
      |exact (path_len_nonneg e H)|exact (path_len_nonneg q H)].
  - intros b [|q|q|q|q|q] Hb.
    + by apply (lift_decode (λ _ : unit, PEmpty) b tt).
    + by apply (lift_decode POneHop b q).
    + by apply (lift_decode PScion b q).
    + by apply (lift_decode PDecoded b q).
    + by apply (lift_decode PEpic b q).
    + by apply (lift_decode PRaw b q).
  - intros [|p|p|p|p|p] b Hp Hl.
    + apply (lift_serialize (λ _ : unit, PEmpty) tt b); try done.
      * intros [] []. done.
      * intros [] Hq; cbn in Hq; try done. by exists tt.
    + apply (lift_serialize POneHop p b); try done. intros [] Hq; cbn in Hq; try done. by eexists.
    + apply (lift_serialize PScion p b); try done. intros [] Hq; cbn in Hq; try done. by eexists.
    + apply (lift_serialize PDecoded p b); try done. intros [] Hq; cbn in Hq; try done. by eexists.
    + apply (lift_serialize PEpic p b); try done. intros [] Hq; cbn in Hq; try done. by eexists.
    + apply (lift_serialize PRaw p b); try done. intros [] Hq; cbn in Hq; try done. by eexists.
Defined.

(** * The table of registered path types *)
Module Registry.

(** Entry of [registeredPaths]: the description and the path that [New] makes. *)
Record metadata := mkMetadata {
  Desc : string;
  New : Path
}.

(** [registeredPaths] (the entries in use) and [strictDecoding]. *)
Record t := mk {
  registeredPaths : gmap Z metadata;
  strictDecoding : bool
}.

Definition empty : t := mk ∅ true.

Definition RegisterPath (ty : Z) (m : metadata) : SE t unit := λ r,
  match registeredPaths r !! ty with
  | Some _ => (r, Panic)
  | None => (mk (<[ty := m]> (registeredPaths r)) (strictDecoding r), Ok tt)
  end.

Definition StrictDecoding (strict : bool) : SE t unit := λ r,
  (mk (registeredPaths r) strict, Ok tt).

Definition rawPath_zero : RawPath.t := RawPath.mk [] 0.
Definition NewRawPath : Path := PRaw rawPath_zero.

Definition NewPath (r : t) (pathType : Z) : outcome Path :=
  match registeredPaths r !! pathType with
  | None => if strictDecoding r then Err (Prelude.New "unsupported path")
            else Ok NewRawPath
  | Some pm => Ok (New pm)
  end.

(** The zero values that the constructors return. *)
Definition info_zero : InfoField.t := InfoField.mk false false 0 0.
Definition raw_zero : Raw.t := Raw.mk (Base.mk (MetaHdr.mk 0 0 0 0 0) 0 0) None.
Definition onehop_zero : OneHop.t := OneHop.mk info_zero HopField.zero HopField.zero.
Definition epic_zero : Epic.t := Epic.mk (Epic.mkPktID 0 0) [] [] (Some raw_zero).

(** The four [RegisterPath] functions, and [init] of [pkg/slayers/scion.go]. *)
Definition empty_RegisterPath := RegisterPath EmptyPath.PathType (mkMetadata "Empty" PEmpty).
Definition scion_RegisterPath := RegisterPath scion_PathType (mkMetadata "SCION" (PScion raw_zero)).
Definition onehop_RegisterPath :=
  RegisterPath OneHop.PathType (mkMetadata "OneHop" (POneHop onehop_zero)).
Definition epic_RegisterPath := RegisterPath Epic.PathType (mkMetadata "Epic" (PEpic epic_zero)).

Definition init : SE t unit :=
  _ ← empty_RegisterPath; _ ← scion_RegisterPath; _ ← onehop_RegisterPath; epic_RegisterPath.

(** The table after [init]. *)
Definition initial : t := after init empty.

Lemma initial_eq :
  registeredPaths initial =
    <[Epic.PathType := mkMetadata "Epic" (PEpic epic_zero)]>
    (<[OneHop.PathType := mkMetadata "OneHop" (POneHop onehop_zero)]>
    (<[scion_PathType := mkMetadata "SCION" (PScion raw_zero)]>
    (<[EmptyPath.PathType := mkMetadata "Empty" PEmpty]> ∅))).
Proof. reflexivity. Qed.

Lemma NewPath_type ty p : NewPath initial ty = Ok p → PathType p = ty.
Proof.
  unfold NewPath. destruct (registeredPaths initial !! ty) as [pm|] eqn:E; [|done].
  intros [= <-]. revert E. rewrite initial_eq, !lookup_insert_Some, lookup_empty.
  intros [[<- <-]|[_ [[<- <-]|[_ [[<- <-]|[_ [[<- <-]|[_ E]]]]]]]]; done.
Qed.

End Registry.

(** * Properties *)
Module PathInterfaceProperties.

(** Every path type keeps the contract of the [Path] interface.  For any
    well-formed path of any dynamic type and any buffer that is long enough,
    serialising succeeds, writes exactly [Len] bytes and leaves the rest of the
    buffer alone; decoding the bytes written into any new or recycled receiver of
    that type succeeds and gives an equivalent, again well-formed path. *)
Theorem path_roundtrip (p q : Path) (b : bytes) :
  any_path_wf p → any_path_compat p q → PathLen p ≤ len b →
  ∃ p' out p'', Serialize b p = (p', Ok (out ++ drop (Z.to_nat (PathLen p)) b)) ∧
    len out = PathLen p ∧ p' ≡ p ∧ Decode out q = Ok p'' ∧ p'' ≡ p ∧ any_path_wf p''.
Proof.
  intros Hp Hq Hl. destruct (@path_serialize Path _ _ any_path_laws p b Hp Hl)
    as (p' & out & Hs & Ep & Lo & _ & Hd).
  destruct (Hd q Hq) as (p'' & Hd' & Ep''). exists p', out, p''. split_and!; try done.
  exact (proj2 (path_wf_proper _ _ Ep'') Hp).
Qed.

(** Decoding a path never panics, whatever the bytes and the path type: it
    returns an error or a well-formed path of the receiver's type that is no
    longer than the bytes it was decoded from. *)
Theorem path_decode_safe (q : Path) (b : bytes) :
  wf_bytes b →
  match Decode b q with
  | Ok p => any_path_wf p ∧ PathLen p ≤ len b ∧ PathType p = PathType q
  | Err _ => True
  | Panic => False
  end.
Proof. intros Hb. exact (path_decode b q Hb). Qed.

(** Reversing a one-hop path.  An incomplete path (no second hop yet) is
    refused; a complete one becomes the two-hop SCION path in the opposite
    direction, positioned on its first hop, whose hop fields are the second and
    the first of the one-hop path, on a segment that is traversed against
    construction direction; that path is well formed, and reversing it again
    gives the SCION form of the one-hop path at its second hop. *)
Theorem onehop_reverse (o : OneHop.t) :
  OneHop.wf o →
  match Reverse (POneHop o) with
  | Ok (PDecoded d) =>
      HopField.ConsIngress (OneHop.SecondHop o) ≠ 0 ∧ Decoded.wf d ∧ Base.in_sync (Decoded.base d) ∧
      Base.PathMeta (Decoded.base d) = MetaHdr.mk 0 0 2 0 0 ∧
      Decoded.InfoFields d = [InfoField.mk false false (InfoField.SegID (OneHop.Info o))
                                (InfoField.Timestamp (OneHop.Info o))] ∧
      Decoded.HopFields d = [OneHop.SecondHop o; OneHop.FirstHop o] ∧
      ∃ d', OneHop.ToSCIONDecoded o = Ok d' ∧
        Reverse (PDecoded d) = Ok (PDecoded (after Decoded.IncPath d'))
  | Ok _ | Panic => False
  | Err _ => HopField.ConsIngress (OneHop.SecondHop o) = 0
  end.
Proof.
  intros [[? ?] ? ?]. unfold Reverse, OneHop.Reverse, OneHop.ToSCIONDecoded.
  destruct (Z.eqb_spec (HopField.ConsIngress (OneHop.SecondHop o)) 0) as [E|E]; [done|].
  match goal with |- context [fail_if false _ ≫= ?f] => change (fail_if false _ ≫= f) with (f tt) end.
  set (d := Decoded.mk (Base.mk (MetaHdr.mk 0 0 2 0 0) 1 2)
    [InfoField.mk false false (InfoField.SegID (OneHop.Info o)) (InfoField.Timestamp (OneHop.Info o))]
    [OneHop.SecondHop o; OneHop.FirstHop o]).
  match goal with |- match PDecoded <$> ?x with _ => _ end => change x with (Ok d) end. go_cbn.
  split_and!; try done.
  - split; [split; split; done|done|done| |].
    + apply Forall_cons_2; [by split|apply Forall_nil_2].
    + do 2 (apply Forall_cons_2; [done|]). apply Forall_nil_2.
  - by eexists.
Qed.

Definition example_hop (i e : Z) : HopField.t := HopField.mk false false 63 i e [1; 2; 3; 4; 5; 6].
Definition example_onehop : OneHop.t :=
  OneHop.mk (InfoField.mk false true 7 8) (example_hop 0 1) (example_hop 2 0).
Definition example_epic : Epic.t :=
  Epic.mk (Epic.mkPktID 1 2) [1; 2; 3; 4] [5; 6; 7; 8]
    (Some (Raw.mk (Base.mk (MetaHdr.mk 1 1 1 2 0) 2 3)
             (Some (Decoded.encode ScionPathProperties.example_path)))).

Lemma example_hop_wf i e : is_u16 i → is_u16 e → HopField.wf (example_hop i e).
Proof. split; try done. repeat constructor; done. Qed.

Lemma example_epic_wf : Epic.wf example_epic.
Proof.
  split; try done; try (split; [repeat constructor; done|done]).
  eexists. split; [done|]. pose proof ScionPathProperties.example_path_wf as [? _ _ _ _].
  split; try done. repeat constructor; done.
Qed.

Lemma path_roundtrip_witness :
  ∃ p' out, Serialize (make_bytes 80) (PEpic example_epic) = (p', Ok out) ∧ len out = 80.
Proof.
  destruct (path_roundtrip (PEpic example_epic) (PEpic Registry.epic_zero) (make_bytes 80))
    as (p' & out & p'' & Hs & Hl & _); [exact example_epic_wf|done|done|].
  eexists _, _. split; [exact Hs|]. rewrite len_app, Hl. reflexivity.
Defined.

Lemma path_decode_safe_witness :
  ∃ p, Decode (Epic.encode_metadata example_epic ++ Decoded.encode ScionPathProperties.example_path)
         (PEpic Registry.epic_zero) = Ok p ∧ any_path_wf p.
Proof.
  set (b := Epic.encode_metadata _ ++ _).
  assert (wf_bytes b) as Hb by (repeat constructor; done).
  pose proof (path_decode_safe (PEpic Registry.epic_zero) b Hb) as H.
  destruct (Decode b _) as [p| |] eqn:E; [|vm_compute in E; discriminate E..].
  exists p. split; [done|]. apply H.
Defined.

Lemma onehop_reverse_witness :
  ∃ d, Reverse (POneHop example_onehop) = Ok (PDecoded d) ∧ Decoded.wf d.
Proof.
  assert (OneHop.wf example_onehop) as Hw by (split; [by split|by apply example_hop_wf..]).
  pose proof (onehop_reverse example_onehop Hw) as H.
  eexists. split; [vm_compute; reflexivity|].
  match type of H with match ?x with _ => _ end => let y := eval vm_compute in x in
    change x with y in H end. apply H.
Defined.

End PathInterfaceProperties.
