(* ===== verification/GoStrings.v ===== *)
(** Go strings and the parts of the packages [strings], [strconv] and [net] that
    the address code uses, with the lemmas that relate printing and parsing. *)
From S2P Require Export Bytes.
From Stdlib Require Export Ascii.

(** A Go string, as its bytes. *)
Abbreviation gostring := (list ascii).
Definition str (s : string) : gostring := String.list_ascii_of_string s.

#[export] Instance ascii_eq_dec_inst : EqDecision ascii := ascii_dec.

(** * Package strings *)

Fixpoint HasPrefix (s p : gostring) {struct p} : bool :=
  match p, s with
  | [], _ => true
  | c :: p, d :: s => bool_decide (c = d) && HasPrefix s p
  | _ :: _, [] => false
  end.

Definition HasSuffix (s p : gostring) : bool := HasPrefix (reverse s) (reverse p).
Definition TrimPrefix (s p : gostring) : gostring :=
  if HasPrefix s p then drop (length p) s else s.
Definition TrimSuffix (s p : gostring) : gostring :=
  if HasSuffix s p then take (length s - length p) s else s.

(** [IndexByte]: the position of the first occurrence, or -1. *)
Fixpoint IndexByte (s : gostring) (c : ascii) : Z :=
  match s with
  | [] => -1
  | d :: s => if bool_decide (c = d) then 0
              else let i := IndexByte s c in if i <? 0 then -1 else i + 1
  end.

(** [bytealg.LastIndexByteString] *)
Fixpoint LastIndexByte (s : gostring) (c : ascii) : Z :=
  match s with
  | [] => -1
  | d :: s => let i := LastIndexByte s c in
              if i <? 0 then (if bool_decide (c = d) then 0 else -1) else i + 1
  end.

(** [Split] on a non-empty separator: [acc] is the current part, and [skip] bytes
    of a separator that was recognised are still to be dropped. *)
Fixpoint split_go (sep : gostring) (skip : nat) (acc s : gostring) : list gostring :=
  match s with
  | [] => [acc]
  | c :: s' =>
      match skip with
      | S k => split_go sep k acc s'
      | O => if HasPrefix s sep then acc :: split_go sep (length sep - 1) [] s'
             else split_go sep 0 (acc ++ [c]) s'
      end
  end.

(** The empty separator splits after each character. *)
Definition Split (s sep : gostring) : list gostring :=
  if bool_decide (sep = []) then (λ c, [c]) <$> s else split_go sep 0 [] s.

(** * Package strconv *)

Definition char_of (n : Z) : ascii := ascii_of_nat (Z.to_nat n).
Definition byte_of (c : ascii) : Z := Z.of_nat (nat_of_ascii c).

(** The digit with value [d]: [0-9a-z]. *)
Definition digit_char (d : Z) : ascii := char_of (if d <? 10 then 48 + d else 87 + d).

(** The value of a digit, upper and lower case. *)
Definition digit_val (c : ascii) : option Z :=
  let c := byte_of c in
  if (48 <=? c) && (c <=? 57) then Some (c - 48)
  else if (97 <=? c) && (c <=? 122) then Some (c - 97 + 10)
  else if (65 <=? c) && (c <=? 90) then Some (c - 65 + 10)
  else None.

(** The digits of [n], most significant first; 64 of them are enough for a
    64-bit number. *)
Fixpoint digits (fuel : nat) (base n : Z) : list Z :=
  match fuel with
  | O => []
  | S fuel => if n <? base then [n] else digits fuel base (n / base) ++ [n mod base]
  end.

Definition FormatUint (n base : Z) : gostring := digit_char <$> digits 64 base n.

Definition ErrSyntax : error := New "invalid syntax".
Definition ErrRange : error := New "value out of range".

Fixpoint parse_digits (base cutoff maxVal n : Z) (s : gostring) : outcome Z :=
  match s with
  | [] => Ok n
  | c :: s =>
      match digit_val c with
      | None => Err ErrSyntax
      | Some d =>
          _ ← fail_if (base <=? d) ErrSyntax;
          _ ← fail_if (cutoff <=? n) ErrRange;
          let n := u64 (n * base) in
          let n1 := u64 (n + d) in
          _ ← fail_if ((n1 <? n) || (maxVal <? n1)) ErrRange;
          parse_digits base cutoff maxVal n1 s
      end
  end.

(** [ParseUint] for an explicit base of at least 2 and a bit size from 1 to 64. *)
Definition ParseUint (s : gostring) (base bitSize : Z) : outcome Z :=
  _ ← fail_if (bool_decide (s = [])) ErrSyntax;
  parse_digits base ((2 ^ 64 - 1) / base + 1) (2 ^ bitSize - 1) 0 s.

(** * Package net *)

(** [SplitHostPort] *)
Definition SplitHostPort (hostport : gostring) : outcome (gostring * gostring) :=
  let i := LastIndexByte hostport ":"%char in
  _ ← fail_if (i <? 0) (New "missing port in address");
  '(host, j, k) ←
    (if bool_decide (hd_error hostport = Some "["%char) then
       let e := IndexByte hostport "]"%char in
       _ ← fail_if (e <? 0) (New "missing ']' in address");
       if e + 1 =? len hostport then Err (New "missing port in address")
       else if e + 1 =? i then
         host ← sub hostport 1 e; Ok (host, 1, e + 1)
       else
         c ← get hostport (e + 1);
         if bool_decide (c = ":"%char) then Err (New "too many colons in address")
         else Err (New "missing port in address")
     else
       host ← sub hostport 0 i;
       _ ← fail_if (0 <=? IndexByte host ":"%char) (New "too many colons in address");
       Ok (host, 0, 0));
  rest ← sub_from hostport j;
  _ ← fail_if (0 <=? IndexByte rest "["%char) (New "unexpected '[' in address");
  rest ← sub_from hostport k;
  _ ← fail_if (0 <=? IndexByte rest "]"%char) (New "unexpected ']' in address");
  port ← sub_from hostport (i + 1);
  Ok (host, port).

(** * Lemmas *)

Lemma HasPrefix_app p s : HasPrefix (p ++ s) p = true.
Proof. induction p as [|c p IH]; [done|]. cbn. by rewrite bool_decide_eq_true_2. Qed.

Lemma HasPrefix_inv s p : HasPrefix s p = true → ∃ r, s = p ++ r.
Proof.
  revert s. induction p as [|c p IH]; intros s H; [by exists s|].
  destruct s as [|d s]; cbn in H; [done|].
  apply andb_true_iff in H as [->%bool_decide_eq_true_1 H]. destruct (IH _ H) as [r ->]. by exists r.
Qed.

Lemma HasPrefix_head c p s : (∀ d, hd_error s = Some d → d ≠ c) → HasPrefix s (c :: p) = false.
Proof.
  intros H. destruct s as [|d s]; [done|]. cbn.
  rewrite bool_decide_eq_false_2; [done|]. intros ->. by apply (H d).
Qed.

Lemma TrimPrefix_app p s : TrimPrefix (p ++ s) p = s.
Proof. unfold TrimPrefix. rewrite HasPrefix_app. apply drop_app_length. Qed.

Lemma TrimSuffix_app p s : TrimSuffix (s ++ p) p = s.
Proof.
  unfold TrimSuffix, HasSuffix. rewrite reverse_app, HasPrefix_app, length_app.
  replace (length s + length p - length p)%nat with (length s) by lia. apply take_app_length.
Qed.

Lemma HasSuffix_app p s : HasSuffix (s ++ p) p = true.
Proof. unfold HasSuffix. by rewrite reverse_app, HasPrefix_app. Qed.

Lemma IndexByte_absent s c : c ∉ s → IndexByte s c = -1.
Proof.
  induction s as [|d s IH]; [done|]. rewrite not_elem_of_cons. intros [H Hs]. cbn.
  rewrite bool_decide_eq_false_2 by done. by rewrite IH.
Qed.

Lemma IndexByte_app a c r : c ∉ a → IndexByte (a ++ c :: r) c = len a.
Proof.
  induction a as [|d a IH]; intros H; cbn.
  { by rewrite bool_decide_eq_true_2. }
  apply not_elem_of_cons in H as [H Ha]. rewrite bool_decide_eq_false_2, IH by done.
  rewrite len_cons. pose proof (len_nonneg a). replace (len a <? 0) with false by lia. lia.
Qed.

Lemma LastIndexByte_absent s c : c ∉ s → LastIndexByte s c = -1.
Proof.
  induction s as [|d s IH]; [done|]. rewrite not_elem_of_cons. intros [H Hs]. cbn.
  rewrite IH by done. cbn. by rewrite bool_decide_eq_false_2 by done.
Qed.

Lemma LastIndexByte_app a c r : c ∉ r → LastIndexByte (a ++ c :: r) c = len a.
Proof.
  intros H. induction a as [|d a IH]; cbn.
  { rewrite LastIndexByte_absent by done. cbn. by rewrite bool_decide_eq_true_2. }
  rewrite IH, len_cons. pose proof (len_nonneg a). replace (len a <? 0) with false by lia. lia.
Qed.

Lemma split_skip sep l acc r : split_go sep (length l) acc (l ++ r) = split_go sep 0 acc r.
Proof. induction l as [|c l IH]; [done|]. cbn. apply IH. Qed.

Lemma split_part sep s a acc r :
  s ∉ a → hd_error sep = Some s →
  split_go sep 0 acc (a ++ sep ++ r) = (acc ++ a) :: split_go sep 0 [] r.
Proof.
  intros Ha Hs. destruct sep as [|s' sep]; [done|]. injection Hs as ->.
  revert acc. induction a as [|c a IH]; intros acc.
  { rewrite app_nil_r. cbn [app split_go]. change (s :: sep ++ r) with ((s :: sep) ++ r).
    rewrite HasPrefix_app. cbn [length Nat.sub]. by rewrite Nat.sub_0_r, split_skip. }
  apply not_elem_of_cons in Ha as [Hc Ha]. cbn [app split_go].
  rewrite HasPrefix_head by (intros d [= <-]; done). rewrite (IH Ha). by rewrite <- app_assoc.
Qed.

Lemma split_last sep s a acc :
  s ∉ a → hd_error sep = Some s → split_go sep 0 acc a = [acc ++ a].
Proof.
  intros Ha Hs. destruct sep as [|s' sep]; [done|]. injection Hs as ->.
  revert acc. induction a as [|c a IH]; intros acc; [by rewrite app_nil_r|].
  apply not_elem_of_cons in Ha as [Hc Ha]. cbn [split_go].
  rewrite HasPrefix_head by (intros d [= <-]; done). rewrite (IH Ha). by rewrite <- app_assoc.
Qed.

(** ** Printing and parsing numbers *)

(** The characters that [FormatUint] writes. *)
Definition is_digit (base : Z) (c : ascii) : Prop := ∃ d, 0 ≤ d < base ∧ c = digit_char d.

Lemma byte_of_char_of n : 0 ≤ n < 256 → byte_of (char_of n) = n.
Proof. intros. unfold byte_of, char_of. rewrite nat_ascii_embedding; lia. Qed.

Lemma digit_val_char d : 0 ≤ d < 36 → digit_val (digit_char d) = Some d.
Proof.
  intros. unfold digit_val, digit_char. destruct (Z.ltb_spec d 10).
  - rewrite byte_of_char_of by lia.
    replace ((48 <=? 48 + d) && (48 + d <=? 57)) with true by lia. f_equal. lia.
  - rewrite byte_of_char_of by lia.
    replace ((48 <=? 87 + d) && (87 + d <=? 57)) with false by lia.
    replace ((97 <=? 87 + d) && (87 + d <=? 122)) with true by lia. f_equal. lia.
Qed.

Definition digits_val (base : Z) (ds : list Z) : Z := fold_left (λ n d, n * base + d) ds 0.

Lemma digits_spec fuel base n :
  2 ≤ base → 0 ≤ n < 2 ^ Z.of_nat fuel →
  digits_val base (digits fuel base n) = n ∧ Forall (λ d, 0 ≤ d < base) (digits fuel base n) ∧
  (0 < fuel → digits fuel base n ≠ [])%nat.
Proof.
  intros Hb. revert n. induction fuel as [|fuel IH]; intros n Hn.
  { change (2 ^ Z.of_nat 0) with 1 in Hn. split_and!; [cbn; lia|constructor|lia]. }
  cbn [digits]. destruct (Z.ltb_spec n base).
  { split_and!; [done|apply Forall_cons_2; [lia|apply Forall_nil_2]|done]. }
  rewrite Nat2Z.inj_succ, Z.pow_succ_r in Hn by lia.
  destruct (IH (n / base)) as (E & F & _).
  { split; [apply Z.div_pos; lia|]. apply Z.div_lt_upper_bound; [lia|]. nia. }
  pose proof (Z.mod_pos_bound n base). pose proof (Z.div_mod n base).
  split_and!.
  - unfold digits_val in *. rewrite fold_left_app, E. cbn. lia.
  - apply Forall_app. split; [done|]. apply Forall_cons_2; [lia|apply Forall_nil_2].
  - intros _ H'. by apply app_eq_nil in H' as [_ ?].
Qed.

Lemma digits_val_prefix base ds n :
  1 ≤ base → 0 ≤ n → Forall (λ d, 0 ≤ d < base) ds →
  n ≤ fold_left (λ n d, n * base + d) ds n.
Proof.
  intros Hb. revert n. induction ds as [|d ds IH]; intros n Hn Hds; cbn; [lia|].
  apply Forall_cons_1 in Hds as [Hd Hds]. assert (n ≤ n * base) by nia.
  specialize (IH (n * base + d)). etransitivity; [|apply IH]; [lia|lia|done].
Qed.

Lemma parse_digits_Ok base maxVal ds n :
  2 ≤ base ≤ 36 → 0 ≤ n → maxVal < 2 ^ 64 → Forall (λ d, 0 ≤ d < base) ds →
  fold_left (λ n d, n * base + d) ds n ≤ maxVal →
  parse_digits base ((2 ^ 64 - 1) / base + 1) maxVal n (digit_char <$> ds) =
    Ok (fold_left (λ n d, n * base + d) ds n).
Proof.
  intros Hb Hn Hmax. revert n Hn. induction ds as [|d ds IH]; intros n Hn Hds Hle; [done|].
  apply Forall_cons_1 in Hds as [Hd Hds]. cbn [fmap list_fmap parse_digits fold_left] in *.
  rewrite digit_val_char by lia. replace (base <=? d) with false by lia. go_cbn.
  pose proof (digits_val_prefix base ds (n * base + d) ltac:(lia) ltac:(nia) Hds) as Hp.
  assert (0 ≤ n * base) by nia. assert (n ≤ n * base) by nia.
  assert (n ≤ (2 ^ 64 - 1) / base) by (apply Z.div_le_lower_bound; lia).
  replace (_ <=? n) with false by lia. go_cbn.
  rewrite (uint_of_small 64 (n * base)) by (split; lia).
  rewrite uint_of_small by (split; lia).
  replace ((_ <? _) || (_ <? _)) with false by lia. go_cbn. apply IH; [lia|done|done].
Qed.

Lemma FormatUint_digits n base :
  2 ≤ base → 0 ≤ n < 2 ^ 64 → Forall (is_digit base) (FormatUint n base).
Proof.
  intros Hb Hn. destruct (digits_spec 64 base n Hb) as (_ & H & _); [done|].
  apply Forall_fmap. apply (Forall_impl _ _ _ H). intros d Hd. by exists d.
Qed.

Lemma FormatUint_nonempty n base : 2 ≤ base → 0 ≤ n < 2 ^ 64 → FormatUint n base ≠ [].
Proof.
  intros Hb Hn. destruct (digits_spec 64 base n Hb) as (_ & _ & H); [done|].
  intros H'%fmap_nil_inv. apply H in H'; [done|lia].
Qed.

(** Printing and parsing with the same base are inverse, within the bit size. *)
Lemma ParseUint_FormatUint n base bits :
  2 ≤ base ≤ 36 → 0 ≤ bits ≤ 64 → 0 ≤ n < 2 ^ bits →
  ParseUint (FormatUint n base) base bits = Ok n.
Proof.
  intros Hb Hbits Hn. assert (2 ^ bits ≤ 2 ^ 64) by (apply Z.pow_le_mono_r; lia).
  unfold ParseUint. rewrite bool_decide_eq_false_2 by (apply FormatUint_nonempty; lia). go_cbn.
  destruct (digits_spec 64 base n) as (E & F & _); [lia|change (2 ^ Z.of_nat 64) with (2 ^ 64); lia|].
  unfold FormatUint. rewrite parse_digits_Ok; unfold digits_val in E; [by rewrite E|lia..|done|lia].
Qed.

(** What it parses is in range. *)
Lemma parse_digits_range base cutoff maxVal n s v :
  0 ≤ n ≤ maxVal → parse_digits base cutoff maxVal n s = Ok v → 0 ≤ v ≤ maxVal.
Proof.
  revert n. induction s as [|c s IH]; intros n Hn H; [injection H as <-; lia|].
  cbn [parse_digits] in H. destruct (digit_val c); [|done]. go_inv.
  eapply IH; [|done]. apply orb_false_iff in H2 as [_ H2].
  pose proof (uint_of_range 64 (u64 (n * base) + z) ltac:(lia)). unfold is_uint in *. lia.
Qed.

Lemma ParseUint_range s base bits v :
  0 ≤ bits → ParseUint s base bits = Ok v → 0 ≤ v < 2 ^ bits.
Proof.
  intros Hb H. unfold ParseUint in H. go_inv.
  assert (0 < 2 ^ bits) by (apply Z.pow_pos_nonneg; lia).
  apply parse_digits_range in H; lia.
Qed.

Lemma parse_digits_no_panic base cutoff maxVal n s : no_panic (parse_digits base cutoff maxVal n s).
Proof.
  revert n. induction s as [|c s IH]; intros n; cbn [parse_digits]; [done|].
  destruct (digit_val c); [|done]. repeat (apply no_panic_bind; [apply fail_if_no_panic|intros _ _]).
  apply IH.
Qed.

Lemma ParseUint_no_panic s base bits : no_panic (ParseUint s base bits).
Proof.
  apply no_panic_bind; [apply fail_if_no_panic|intros _ _]. apply parse_digits_no_panic.
Qed.

#[export] Hint Resolve ParseUint_no_panic : go.

(** A parsed number, or an error. *)
Lemma ParseUint_cases s base bits :
  0 ≤ bits → (∃ v, ParseUint s base bits = Ok v ∧ 0 ≤ v < 2 ^ bits) ∨ ∃ e, ParseUint s base bits = Err e.
Proof.
  intros Hb. pose proof (ParseUint_no_panic s base bits). pose proof (ParseUint_range s base bits).
  destruct (ParseUint s base bits) as [v|e|]; [left|right|done]; eauto.
Qed.

Lemma HasSuffix_inv s p : HasSuffix s p = true → s = TrimSuffix s p ++ p.
Proof.
  intros H. unfold TrimSuffix. rewrite H. apply HasPrefix_inv in H as [r Hr].
  apply (f_equal reverse) in Hr. rewrite reverse_involutive, reverse_app, reverse_involutive in Hr.
  subst s. rewrite length_app. f_equal. symmetry.
  replace (_ - _)%nat with (length (reverse r)) by lia. apply take_app_length.
Qed.

(** [\[host\]:port] is taken apart where it was put together. *)
Lemma SplitHostPort_bracketed host port :
  "["%char ∉ host → "]"%char ∉ host →
  Forall (is_digit 10) port →
  SplitHostPort (str "[" ++ host ++ str "]:" ++ port) = Ok (host, port).
Proof.
  intros H1 H2 Hp.
  assert (∀ c, ¬ is_digit 10 c → c ∉ port) as Hport.
  { intros c Hc Hin. rewrite Forall_forall in Hp. by apply Hc, Hp. }
  assert (∀ c, (byte_of c < 48 ∨ 57 < byte_of c) → ¬ is_digit 10 c) as Hnd.
  { intros c Hc (d & Hd & ->). unfold digit_char in Hc.
    destruct (Z.ltb_spec d 10); rewrite byte_of_char_of in Hc; lia. }
  set (s := str "[" ++ host ++ str "]:" ++ port).
  assert (s = (str "[" ++ host ++ str "]") ++ ":"%char :: port) as E1
    by (unfold s; by rewrite <- !app_assoc).
  assert (s = (str "[" ++ host) ++ "]"%char :: (str ":" ++ port)) as E2
    by (unfold s; by rewrite <- !app_assoc).
  assert (s = str "[" ++ host ++ (str "]:" ++ port)) as E3 by done.
  pose proof (len_nonneg host).
  assert (len s = 3 + len host + len port) as El
    by (rewrite E1, !len_app, len_cons; change (len (str "[")) with 1; change (len (str "]")) with 1; lia).
  assert (hd_error s = Some "["%char) as Ehd by done. clearbody s. unfold SplitHostPort.
  replace (LastIndexByte s ":"%char) with (2 + len host).
  2:{ rewrite E1, LastIndexByte_app by (apply Hport, Hnd; right; by vm_compute).
      rewrite !len_app. change (len (str "[")) with 1. change (len (str "]")) with 1. lia. }
  replace (2 + len host <? 0) with false by lia. go_cbn.
  rewrite bool_decide_eq_true_2 by done.
  replace (IndexByte s "]"%char) with (1 + len host).
  2:{ rewrite E2, IndexByte_app; [rewrite len_app; done|].
      rewrite not_elem_of_app. split; [by apply (bool_decide_unpack _); vm_compute|done]. }
  replace (1 + len host <? 0) with false by lia. go_cbn. rewrite El.
  pose proof (len_nonneg port).
  replace (1 + len host + 1 =? _) with false by lia.
  replace (1 + len host + 1 =? _) with true by lia.
  assert (sub s 1 (1 + len host) = Ok host) as ->.
  { rewrite E3. apply sub_mid; change (len (str "[")) with 1; lia. }
  go_cbn. unfold sub_from. rewrite El.
  assert (sub s 1 (3 + len host + len port) = Ok (host ++ str "]:" ++ port)) as ->.
  { rewrite E3. apply sub_suffix; [done|].
    rewrite !len_app. change (len (str "[")) with 1. change (len (str "]:")) with 2. lia. }
  go_cbn. rewrite IndexByte_absent; [go_cbn|].
  2:{ rewrite !not_elem_of_app. split_and!; [done|by apply (bool_decide_unpack _); vm_compute|].
      apply Hport, Hnd. right. by vm_compute. }
  assert (sub s (1 + len host + 1) (3 + len host + len port) = Ok (str ":" ++ port)) as ->.
  { rewrite E1. change (":"%char :: port) with (str ":" ++ port).
    apply sub_suffix; rewrite !len_app; change (len (str "[")) with 1;
      change (len (str "]")) with 1; change (len (str ":")) with 1; lia. }
  go_cbn. rewrite IndexByte_absent; [go_cbn|].
  2:{ rewrite not_elem_of_app. split; [by apply (bool_decide_unpack _); vm_compute|].
      apply Hport, Hnd. right. by vm_compute. }
  assert (sub s (2 + len host + 1) (3 + len host + len port) = Ok port) as ->; [|done].
  rewrite E1. change (":"%char :: port) with (str ":" ++ port). rewrite (app_assoc _ (str ":")).
  apply sub_suffix; rewrite !len_app; change (len (str "[")) with 1;
    change (len (str "]")) with 1; change (len (str ":")) with 1; lia.
Qed.
