(* ===== verification/Addr.v ===== *)
(** SCION addresses, [pkg/addr]: ISD and AS numbers with their text forms
    ([isdas.go] and [fmt.go], Module [ISDAS]), service addresses ([svc.go], Module
    [SVC]), host addresses ([host.go], Modules [IP] and [Host]) and full addresses
    ([addr.go], Module [Addr]). *)
From S2P Require Export GoStrings.

(** * isdas.go and fmt.go *)
Module ISDAS.

Definition IABytes : Z := 8.
Definition ISDBits : Z := 16.
Definition ASBits : Z := 48.
Definition BGPASBits : Z := 32.
Definition MaxISD : Z := Z.shiftl 1 ISDBits - 1.
Definition MaxAS : Z := Z.shiftl 1 ASBits - 1.
Definition MaxBGPAS : Z := Z.shiftl 1 BGPASBits - 1.
Definition asPartBits : Z := 16.
Definition asPartBase : Z := 16.
Definition asPartMask : Z := Z.shiftl 1 asPartBits - 1.
Definition asParts : Z := Z.quot ASBits asPartBits.

Definition ParseISD (s : gostring) : outcome Z :=
  isd ← wrap_err "parsing ISD" (ParseUint s 10 ISDBits);
  Ok (u16 isd).

Definition ISD_String (isd : Z) : gostring := FormatUint isd 10.

Definition inRange (as_ : Z) : bool := as_ <=? MaxAS.

Definition asParseBGP (s : gostring) : outcome Z :=
  wrap_err "parsing BGP AS" (ParseUint s 10 BGPASBits).

(** The loop over the three parts. *)
Fixpoint parse_parts (n : nat) (i : Z) (parts : list gostring) (parsed : Z) : outcome Z :=
  match n with
  | O => Ok parsed
  | S n =>
      let parsed := u64 (Z.shiftl parsed asPartBits) in
      part ← get parts i;
      v ← wrap_err "parsing AS part" (ParseUint part asPartBase asPartBits);
      parse_parts n (i + 1) parts (Z.lor parsed v)
  end.

Definition parseAS (as_ sep : gostring) : outcome Z :=
  let parts := Split as_ sep in
  if len parts =? 1 then asParseBGP as_ else
  _ ← fail_if (negb (len parts =? asParts)) (New "wrong number of separators");
  parsed ← parse_parts (Z.to_nat asParts) 0 parts 0;
  _ ← fail_if (negb (inRange parsed)) (New "AS out of range");
  Ok parsed.

Definition ParseAS (as_ : gostring) : outcome Z := parseAS as_ (str ":").

Definition IAFrom (isd as_ : Z) : outcome Z :=
  _ ← fail_if (negb (inRange as_)) (New "AS out of range");
  Ok (Z.lor (u64 (Z.shiftl isd ASBits)) (Z.land as_ MaxAS)).

Definition MustIAFrom (isd as_ : Z) : outcome Z :=
  match IAFrom isd as_ with Ok ia => Ok ia | _ => Panic end.

Definition ParseIA (ia : gostring) : outcome Z :=
  let parts := Split ia (str "-") in
  _ ← fail_if (negb (len parts =? 2)) (New "invalid ISD-AS");
  isd ← get parts 0 ≫= ParseISD;
  as_ ← get parts 1 ≫= ParseAS;
  MustIAFrom isd as_.

Definition ISD (ia : Z) : Z := u16 (Z.shiftr ia ASBits).
Definition AS (ia : Z) : Z := Z.land ia MaxAS.
Definition IsZero (ia : Z) : bool := ia =? 0.
Definition Equal (ia other : Z) : bool := ia =? other.
Definition IsWildcard (ia : Z) : bool := (ISD ia =? 0) || (AS ia =? 0).

(** ** fmt.go *)

(** The loop that writes the [n] remaining parts, starting with part [i]. *)
Fixpoint fmt_parts (n : nat) (i as_ : Z) (sep : gostring) : gostring :=
  match n with
  | O => []
  | S n =>
      let shift := asPartBits * (asParts - i - 1) in
      (if 0 <? i then sep else [])
      ++ FormatUint (Z.land (Z.shiftr as_ shift) asPartMask) asPartBase
      ++ fmt_parts n (i + 1) as_ sep
  end.

Definition fmtAS (as_ : Z) (sep : gostring) : gostring :=
  if negb (inRange as_) then
    FormatUint as_ 10 ++ str " [Illegal AS: larger than " ++ FormatUint MaxAS 10 ++ str "]"
  else if as_ <=? MaxBGPAS then FormatUint as_ 10
  else fmt_parts (Z.to_nat asParts) 0 as_ sep.

Definition AS_String (as_ : Z) : gostring := fmtAS as_ (str ":").
Definition IA_String (ia : Z) : gostring := ISD_String (ISD ia) ++ str "-" ++ AS_String (AS ia).

Record formatOptions := mkOptions {
  defaultPrefix : bool;
  separator : gostring
}.

Definition FormatOption : Type := formatOptions → formatOptions.

Definition applyFormatOptions (opts : list FormatOption) : formatOptions :=
  fold_left (λ o opt, opt o) opts (mkOptions false (str ":")).

Definition WithDefaultPrefix : FormatOption := λ o, mkOptions true (separator o).
Definition WithSeparator (sep : gostring) : FormatOption := λ o, mkOptions (defaultPrefix o) sep.
Definition WithFileSeparator : FormatOption := WithSeparator (str "_").

Definition ParseFormattedISD (isd : gostring) (opts : list FormatOption) : outcome Z :=
  let o := applyFormatOptions opts in
  if defaultPrefix o then
    let trimmed := TrimPrefix isd (str "ISD") in
    _ ← fail_if (bool_decide (trimmed = isd)) (New "prefix is missing");
    ParseISD trimmed
  else ParseISD isd.

Definition ParseFormattedAS (as_ : gostring) (opts : list FormatOption) : outcome Z :=
  let o := applyFormatOptions opts in
  if defaultPrefix o then
    let trimmed := TrimPrefix as_ (str "AS") in
    _ ← fail_if (bool_decide (trimmed = as_)) (New "prefix is missing");
    parseAS trimmed (separator o)
  else parseAS as_ (separator o).

Definition ParseFormattedIA (ia : gostring) (opts : list FormatOption) : outcome Z :=
  let parts := Split ia (str "-") in
  _ ← fail_if (negb (len parts =? 2)) (New "invalid ISD-AS");
  isd ← wrap_err "parsing ISD part" (get parts 0 ≫= λ p, ParseFormattedISD p opts);
  as_ ← wrap_err "parsing AS part" (get parts 1 ≫= λ p, ParseFormattedAS p opts);
  MustIAFrom isd as_.

Definition FormatISD (isd : Z) (opts : list FormatOption) : gostring :=
  let o := applyFormatOptions opts in
  if defaultPrefix o then str "ISD" ++ FormatUint isd 10 else FormatUint isd 10.

Definition FormatAS (as_ : Z) (opts : list FormatOption) : gostring :=
  let o := applyFormatOptions opts in
  let s := fmtAS as_ (separator o) in
  if defaultPrefix o then str "AS" ++ s else s.

Definition FormatIA (ia : Z) (opts : list FormatOption) : gostring :=
  let o := applyFormatOptions opts in
  let as_ := fmtAS (AS ia) (separator o) in
  if defaultPrefix o then str "ISD" ++ FormatUint (ISD ia) 10 ++ str "-AS" ++ as_
  else FormatUint (ISD ia) 10 ++ str "-" ++ as_.

(** [MarshalText] and [UnmarshalText] (and [IA.Set]): the receiver after the call. *)
Definition AS_MarshalText (as_ : Z) : outcome gostring :=
  _ ← fail_if (negb (inRange as_)) (New "AS out of range"); Ok (AS_String as_).
Definition AS_UnmarshalText (text : gostring) : outcome Z := ParseAS text.
Definition IA_MarshalText (ia : Z) : outcome gostring := Ok (IA_String ia).
Definition IA_UnmarshalText (b : gostring) : outcome Z := ParseIA b.
Definition IA_Set (s : gostring) : outcome Z := ParseIA s.

End ISDAS.

(** * svc.go *)
Module SVC.

Definition SvcDS : Z := 0x0001.
Definition SvcCS : Z := 0x0002.
Definition SvcWildcard : Z := 0x0010.
Definition SvcNone : Z := 0xffff.
Definition SVCMcast : Z := 0x8000.

Definition ParseSVC (s : gostring) : outcome Z :=
  let '(s, m) :=
    if HasSuffix s (str "_A") then (TrimSuffix s (str "_A"), 0)
    else if HasSuffix s (str "_M") then (TrimSuffix s (str "_M"), SVCMcast)
    else (s, 0) in
  if bool_decide (s = str "DS") then Ok (Z.lor SvcDS m)
  else if bool_decide (s = str "CS") then Ok (Z.lor SvcCS m)
  else if bool_decide (s = str "Wildcard") then Ok (Z.lor SvcWildcard m)
  else Err (New "invalid service address").

Definition IsMulticast (h : Z) : bool := negb (Z.land h SVCMcast =? 0).
(** [h & ^SVCMcast] on 16 bits. *)
Definition Base (h : Z) : Z := Z.land h (Z.lxor 0xffff SVCMcast).
Definition Multicast (h : Z) : Z := Z.lor h SVCMcast.

(** [%04x] *)
Definition hex4 (n : Z) : gostring :=
  let s := FormatUint n 16 in replicate (4 - length s) "0"%char ++ s.

Definition BaseString (h : Z) : gostring :=
  if Base h =? SvcDS then str "DS"
  else if Base h =? SvcCS then str "CS"
  else if Base h =? SvcWildcard then str "Wildcard"
  else str "<SVC:0x" ++ hex4 h ++ str ">".

Definition String_ (h : Z) : gostring :=
  if IsMulticast h then BaseString h ++ str "_M" else BaseString h.

End SVC.

(** * net/netip: the operations on addresses that the code uses *)
Module IP.

(** [netip.Addr]: the zero value, IPv4, or IPv6 with a zone. *)
Inductive t :=
| Invalid
| V4 (b : bytes)
| V6 (b : bytes) (zone : gostring).

Definition IsValid (ip : t) : bool := match ip with Invalid => false | _ => true end.
Definition Is4 (ip : t) : bool := match ip with V4 _ => true | _ => false end.
Definition Is6 (ip : t) : bool := match ip with V6 _ _ => true | _ => false end.

(** The prefix of IPv4-mapped addresses, [::ffff:0:0/96]. *)
Definition mapped_prefix : bytes := replicate 10 0 ++ [255; 255].

Definition Is4In6 (ip : t) : bool :=
  match ip with V6 b _ => bool_decide (take 12 b = mapped_prefix) | _ => false end.

Definition Unmap (ip : t) : t :=
  match ip with
  | V6 b _ => if Is4In6 ip then V4 (drop 12 b) else ip
  | _ => ip
  end.

Definition AsSlice (ip : t) : bytes :=
  match ip with Invalid => [] | V4 b => b | V6 b _ => b end.

(** [AddrFrom4] and [AddrFrom16] take arrays. *)
Definition AddrFrom4 (b : bytes) : t := V4 b.
Definition AddrFrom16 (b : bytes) : t := V6 b [].

Definition wf (ip : t) : Prop :=
  match ip with
  | Invalid => True
  | V4 b => wf_bytes b ∧ length b = 4%nat
  | V6 b _ => wf_bytes b ∧ length b = 16%nat
  end.

End IP.

(** * host.go *)
Module Host.

Definition HostTypeNone : Z := 0.
Definition HostTypeIP : Z := 1.
Definition HostTypeSVC : Z := 2.

Record t := mk {
  ip : IP.t;
  svc : Z;
  ty : Z
}.

Definition zero : t := mk IP.Invalid 0 HostTypeNone.
Definition HostIP (ip : IP.t) : t := mk ip 0 HostTypeIP.
Definition HostSVC (svc : Z) : t := mk IP.Invalid svc HostTypeSVC.

Definition Type_ (h : t) : Z := ty h.
Definition IP (h : t) : outcome IP.t := if negb (ty h =? HostTypeIP) then Panic else Ok (ip h).
Definition SVC (h : t) : outcome Z := if negb (ty h =? HostTypeSVC) then Panic else Ok (svc h).

Definition HostAddrType_String (t : Z) : gostring :=
  if t =? HostTypeNone then str "None" else if t =? HostTypeIP then str "IP"
  else if t =? HostTypeSVC then str "SVC"
  else str "UNKNOWN (" ++ FormatUint t 10 ++ str ")".

Section text.
(** [netip.ParseAddr] and [netip.Addr.String]. *)
Context (netip_ParseAddr : gostring → outcome IP.t) (netip_String : IP.t → gostring).

Definition ParseHost (s : gostring) : outcome t :=
  match SVC.ParseSVC s with
  | Ok svc => Ok (HostSVC svc)
  | _ => ip ← netip_ParseAddr s; Ok (HostIP ip)
  end.

Definition MustParseHost (s : gostring) : outcome t :=
  match ParseHost s with Ok h => Ok h | _ => Panic end.

Definition String_ (h : t) : outcome gostring :=
  if Type_ h =? HostTypeNone then Ok (str "<None>")
  else if Type_ h =? HostTypeIP then Ok (netip_String (ip h))
  else if Type_ h =? HostTypeSVC then Ok (SVC.String_ (svc h))
  else Panic.
End text.

End Host.

(** * addr.go *)
Module Addr.

Record t := mk {
  IA : Z;
  Host : Host.t
}.

Section text.
Context (netip_ParseAddr : gostring → outcome IP.t) (netip_String : IP.t → gostring).

Definition ParseAddr (s : gostring) : outcome t :=
  let comma := IndexByte s ","%char in
  _ ← fail_if (comma <? 0) (New "invalid address: expected comma");
  ia ← sub s 0 comma ≫= ISDAS.ParseIA;
  h ← sub_from s (comma + 1) ≫= Host.ParseHost netip_ParseAddr;
  Ok (mk ia h).

Definition MustParseAddr (s : gostring) : outcome t :=
  match ParseAddr s with Ok a => Ok a | _ => Panic end.

Definition String_ (a : t) : outcome gostring :=
  h ← Host.String_ netip_String (Host a);
  Ok (ISDAS.IA_String (IA a) ++ str "," ++ h).

Definition Set_ (s : gostring) : outcome t := ParseAddr s.
Definition MarshalText (a : t) : outcome gostring := String_ a.
Definition UnmarshalText (b : gostring) : outcome t := Set_ b.

Definition ParseAddrPort (s : gostring) : outcome (t * Z) :=
  '(host, port) ← wrap_err "invalid address: split host:port" (SplitHostPort s);
  a ← wrap_err "invalid address: host invalid" (ParseAddr host);
  p ← wrap_err "invalid address: port invalid" (ParseUint port 10 16);
  Ok (a, u16 p).

Definition FormatAddrPort (a : t) (port : Z) : outcome gostring :=
  s ← String_ a; Ok (str "[" ++ s ++ str "]:" ++ FormatUint port 10).
End text.

End Addr.

(** Closes a closed decidable goal by computation. *)
Ltac by_decide := apply (bool_decide_unpack _); vm_compute; exact I.

(** * Lemmas *)
Module AddrLemmas.

Import ISDAS.

Lemma is_digit_mono b b' c : b ≤ b' → is_digit b c → is_digit b' c.
Proof. intros Hb (d & Hd & ->). exists d. split; [lia|done]. Qed.

Lemma FormatUint_absent n base c : 2 ≤ base ≤ 16 → 0 ≤ n < 2 ^ 64 → ¬ is_digit 16 c → c ∉ FormatUint n base.
Proof.
  intros Hb Hn Hc Hin. apply Hc, (is_digit_mono base); [lia|].
  pose proof (FormatUint_digits n base ltac:(lia) Hn) as H. rewrite Forall_forall in H. by apply H.
Qed.

(** The three 16-bit parts of an AS number. *)
Lemma as_part (as_ i : Z) :
  0 ≤ i ≤ 2 → Z.land (Z.shiftr as_ (asPartBits * (asParts - i - 1))) asPartMask
    = as_ / 65536 ^ (2 - i) mod 65536.
Proof.
  intros Hi. change asPartMask with (2 ^ 16 - 1). change asParts with 3.
  unfold asPartBits. rewrite land_ones_mod, Z.shiftr_div_pow2 by lia.
  replace (16 * (3 - i - 1)) with (16 * (2 - i)) by lia. by rewrite Z.pow_mul_r by lia.
Qed.

Lemma shift_part p v :
  0 ≤ p < 2 ^ 32 → 0 ≤ v < 65536 → Z.lor (u64 (Z.shiftl p asPartBits)) v = p * 65536 + v.
Proof.
  intros Hp Hv. unfold asPartBits. rewrite Z.shiftl_mul_pow2 by lia.
  rewrite uint_of_small by (split; lia).
  rewrite (lor_disjoint_add _ _ 16); [done|lia|lia|]. by rewrite Z.mod_mul.
Qed.

Lemma parseAS_fmtAS as_ sep s :
  0 ≤ as_ ≤ MaxAS → hd_error sep = Some s → ¬ is_digit 16 s →
  parseAS (fmtAS as_ sep) sep = Ok as_.
Proof.
  intros Has Hs Hd. change MaxAS with 281474976710655 in Has. unfold parseAS, fmtAS, inRange.
  change MaxAS with 281474976710655. change MaxBGPAS with 4294967295.
  replace (as_ <=? 281474976710655) with true by lia. cbn [negb].
  assert (sep ≠ []) as Hne by (by destruct sep).
  unfold Split. rewrite bool_decide_eq_false_2 by done.
  destruct (Z.leb_spec as_ 4294967295).
  - rewrite (split_last sep s) by (done || (apply FormatUint_absent; lia || done)).
    cbn [app]. rewrite len_cons, len_nil. cbn [Z.add Z.eqb Pos.eqb].
    unfold asParseBGP, BGPASBits. by rewrite ParseUint_FormatUint by lia.
  - change (Z.to_nat asParts) with 3%nat. cbn [fmt_parts]. rewrite !as_part by lia.
    change (0 <? 0) with false. change (0 <? 0 + 1) with true. change (0 <? 0 + 1 + 1) with true.
    cbn [app]. rewrite app_nil_r.
    change (65536 ^ (2 - 0)) with 4294967296. change (65536 ^ (2 - (0 + 1))) with 65536.
    change (65536 ^ (2 - (0 + 1 + 1))) with 1.
    set (v0 := as_ / 4294967296 mod 65536). set (v1 := as_ / 65536 mod 65536).
    set (v2 := as_ / 1 mod 65536).
    assert (0 ≤ v0 < 65536) by (unfold v0; dlia). assert (0 ≤ v1 < 65536) by (unfold v1; dlia).
    assert (0 ≤ v2 < 65536) by (unfold v2; dlia).
    assert (v0 * 4294967296 + v1 * 65536 + v2 = as_) as E by (unfold v0, v1, v2; dlia).
    clearbody v0 v1 v2.
    rewrite (split_part sep s) by (done || (apply FormatUint_absent; unfold asPartBase; lia || done)).
    rewrite (split_part sep s) by (done || (apply FormatUint_absent; unfold asPartBase; lia || done)).
    rewrite (split_last sep s) by (done || (apply FormatUint_absent; unfold asPartBase; lia || done)).
    rewrite !len_cons, len_nil. change (1 + (1 + (1 + 0)) =? 1) with false. cbn iota.
    change (negb (1 + (1 + (1 + 0)) =? asParts)) with false. go_cbn.
    unfold parse_parts, asPartBase. change (0 + 1 + 1) with 2. change (0 + 1) with 1.
    assert (∀ v, 0 ≤ v < 65536 → ParseUint (FormatUint v 16) 16 asPartBits = Ok v) as P
      by (intros; apply ParseUint_FormatUint; unfold asPartBits; lia).
    change (get _ 0) with (Ok ([] ++ FormatUint v0 16)).
    change (get _ 1) with (Ok ([] ++ FormatUint v1 16)).
    change (get _ 2) with (Ok ([] ++ FormatUint v2 16)).
    cbn [app]. go_cbn. rewrite !P by done. cbn [wrap_err]. go_cbn.
    rewrite (shift_part 0 v0), (shift_part (0 * 65536 + v0) v1), (shift_part _ v2) by lia.
    replace (_ <=? 281474976710655) with true by lia. cbn [negb]. go_cbn. f_equal. lia.
Qed.

End AddrLemmas.

(** * Properties *)
Module AddrProperties.

Import ISDAS AddrLemmas.

Lemma AS_eq ia : AS ia = ia mod 2 ^ 48.
Proof. unfold AS. change MaxAS with (2 ^ 48 - 1). by rewrite land_ones_mod by lia. Qed.

Lemma ISD_eq ia : is_u64 ia → ISD ia = ia / 2 ^ 48.
Proof.
  intros H. unfold ISD, ASBits. rewrite Z.shiftr_div_pow2 by lia. apply uint_of_small. split; dlia.
Qed.

Lemma ISD_AS_range ia : 0 ≤ ISD ia < 2 ^ 16 ∧ 0 ≤ AS ia ≤ MaxAS.
Proof.
  split; [apply uint_of_range; lia|]. rewrite AS_eq. change MaxAS with (2 ^ 48 - 1).
  pose proof (Z.mod_pos_bound ia (2 ^ 48)). lia.
Qed.

Lemma MustIAFrom_split ia : is_u64 ia → MustIAFrom (ISD ia) (AS ia) = Ok ia.
Proof.
  intros H. pose proof (ISD_AS_range ia) as [_ Ha]. unfold MustIAFrom, IAFrom, inRange.
  replace (AS ia <=? MaxAS) with true by lia. cbn [negb]. go_cbn. f_equal.
  rewrite ISD_eq, AS_eq by done. change MaxAS with (2 ^ 48 - 1). unfold ASBits.
  rewrite land_ones_mod, Z.mod_mod, Z.shiftl_mul_pow2 by lia.
  rewrite uint_of_small by (split; dlia).
  rewrite (lor_disjoint_add _ _ 48); [dlia|lia|apply Z.mod_pos_bound; lia|].
  by rewrite Z.mod_mul.
Qed.

Lemma ParseISD_FormatUint isd : 0 ≤ isd < 2 ^ 16 → ParseISD (FormatUint isd 10) = Ok isd.
Proof.
  intros H. unfold ParseISD, ISDBits. rewrite ParseUint_FormatUint by lia. cbn [wrap_err]. go_cbn.
  by rewrite uint_of_small.
Qed.

(** Separators that cannot be confused with the digits they separate, nor with
    the dash between the ISD and the AS number. *)
Definition good_separator (sep : gostring) : Prop :=
  (∃ s, hd_error sep = Some s ∧ ¬ is_digit 16 s) ∧ "-"%char ∉ sep.

Lemma dash_not_digit : ¬ is_digit 16 "-"%char.
Proof.
  intros (d & Hd & E). apply (f_equal byte_of) in E. unfold digit_char in E.
  destruct (Z.ltb_spec d 10); rewrite byte_of_char_of in E by lia;
    change (byte_of "-") with 45 in E; lia.
Qed.

Lemma fmt_parts_no_dash n i as_ sep :
  "-"%char ∉ sep → "-"%char ∉ fmt_parts n i as_ sep.
Proof.
  intros Hs. revert i. induction n as [|n IH]; intros i; cbn [fmt_parts]; [by apply not_elem_of_nil|].
  rewrite !not_elem_of_app. split_and!; [by destruct (0 <? i); [|apply not_elem_of_nil]| |apply IH].
  change asPartMask with (2 ^ 16 - 1). rewrite land_ones_mod by lia.
  apply FormatUint_absent; [unfold asPartBase; lia| |apply dash_not_digit].
  pose proof (Z.mod_pos_bound (Z.shiftr as_ (asPartBits * (asParts - i - 1))) (2 ^ 16)). lia.
Qed.

Lemma fmtAS_no_dash as_ sep : 0 ≤ as_ ≤ MaxAS → "-"%char ∉ sep → "-"%char ∉ fmtAS as_ sep.
Proof.
  intros Ha Hs. unfold fmtAS, inRange. replace (as_ <=? MaxAS) with true by lia. cbn [negb].
  change MaxAS with 281474976710655 in Ha.
  destruct (as_ <=? MaxBGPAS); [|by apply fmt_parts_no_dash].
  apply FormatUint_absent; [lia|lia|apply dash_not_digit].
Qed.

Lemma Split_two a b :
  "-"%char ∉ a → "-"%char ∉ b → Split (a ++ str "-" ++ b) (str "-") = [a; b].
Proof.
  intros Ha Hb. unfold Split. rewrite bool_decide_eq_false_2 by done.
  rewrite (split_part _ "-"%char) by done. by rewrite (split_last _ "-"%char) by done.
Qed.

Lemma trimmed_neq (p s : gostring) : p ≠ [] → s ≠ p ++ s.
Proof. intros Hp E. apply (f_equal length) in E. rewrite length_app in E. destruct p; [done|simpl in E; lia]. Qed.

Lemma ParseFormattedISD_FormatISD isd opts :
  0 ≤ isd < 2 ^ 16 → ParseFormattedISD (FormatISD isd opts) opts = Ok isd.
Proof.
  intros H. unfold ParseFormattedISD, FormatISD. destruct (defaultPrefix _).
  - rewrite TrimPrefix_app, bool_decide_eq_false_2 by (by apply trimmed_neq). go_cbn.
    by apply ParseISD_FormatUint.
  - by apply ParseISD_FormatUint.
Qed.

Lemma ParseFormattedAS_FormatAS as_ opts :
  0 ≤ as_ ≤ MaxAS → good_separator (separator (applyFormatOptions opts)) →
  ParseFormattedAS (FormatAS as_ opts) opts = Ok as_.
Proof.
  intros H [(s & Hs & Hd) _]. unfold ParseFormattedAS, FormatAS. destruct (defaultPrefix _).
  - rewrite TrimPrefix_app, bool_decide_eq_false_2 by (by apply trimmed_neq). go_cbn.
    by apply (parseAS_fmtAS _ _ s).
  - by apply (parseAS_fmtAS _ _ s).
Qed.

Lemma FormatIA_parts ia opts :
  FormatIA ia opts = FormatISD (ISD ia) opts ++ str "-" ++ FormatAS (AS ia) opts.
Proof. unfold FormatIA, FormatISD, FormatAS. by destruct (defaultPrefix _). Qed.

Lemma no_dash_prefixed (p s : gostring) (c : bool) :
  "-"%char ∉ p → "-"%char ∉ s → "-"%char ∉ (if c then p ++ s else s).
Proof. destruct c; [|done]. rewrite not_elem_of_app. done. Qed.

Lemma colon_not_digit : ¬ is_digit 16 ":"%char.
Proof.
  intros (d & Hd & E). apply (f_equal byte_of) in E. unfold digit_char in E.
  destruct (Z.ltb_spec d 10); rewrite byte_of_char_of in E by lia;
    change (byte_of ":") with 58 in E; lia.
Qed.

Lemma ParseFormattedIA_FormatIA ia opts :
  is_u64 ia → good_separator (separator (applyFormatOptions opts)) →
  ParseFormattedIA (FormatIA ia opts) opts = Ok ia.
Proof.
  intros Hia Hsep. pose proof (ISD_AS_range ia) as [Hi Ha].
  unfold ParseFormattedIA. rewrite FormatIA_parts, Split_two.
  - match goal with |- context [negb ?c] => change (negb c) with false end. go_cbn.
    change (get _ 0) with (Ok (FormatISD (ISD ia) opts)).
    change (get _ 1) with (Ok (FormatAS (AS ia) opts)). go_cbn.
    rewrite ParseFormattedISD_FormatISD by done. cbn [wrap_err]. go_cbn.
    rewrite ParseFormattedAS_FormatAS by done. cbn [wrap_err]. go_cbn.
    by apply MustIAFrom_split.
  - apply (no_dash_prefixed (str "ISD")); [by_decide|].
    apply FormatUint_absent; [lia|lia|apply dash_not_digit].
  - apply (no_dash_prefixed (str "AS")); [by_decide|].
    apply fmtAS_no_dash; [done|apply Hsep].
Qed.

Lemma ParseIA_String ia : is_u64 ia → ParseIA (IA_String ia) = Ok ia.
Proof.
  intros Hia. pose proof (ISD_AS_range ia) as [Hi Ha]. unfold ParseIA, IA_String. rewrite Split_two.
  - match goal with |- context [negb ?c] => change (negb c) with false end. go_cbn.
    change (get _ 0) with (Ok (ISD_String (ISD ia))).
    change (get _ 1) with (Ok (AS_String (AS ia))). go_cbn.
    unfold ISD_String. rewrite ParseISD_FormatUint by done. go_cbn.
    unfold ParseAS, AS_String. rewrite (parseAS_fmtAS _ _ ":"%char); [|done|done|apply colon_not_digit].
    go_cbn. by apply MustIAFrom_split.
  - apply FormatUint_absent; [lia|lia|apply dash_not_digit].
  - apply fmtAS_no_dash; [done|by_decide].
Qed.

(** Text forms of ISD-AS numbers round trip.  For every 64-bit ISD-AS
    identifier and every list of format options whose separator starts with a
    character that is not a hexadecimal digit and contains no dash,
    [ParseFormattedIA] with the same options reads back exactly what [FormatIA]
    wrote; without options, this is [ParseIA] on [IA.String]. *)
Theorem format_ia_roundtrip ia opts :
  is_u64 ia → good_separator (separator (applyFormatOptions opts)) →
  ParseFormattedIA (FormatIA ia opts) opts = Ok ia ∧
  ParseIA (IA_String ia) = Ok ia.
Proof.
  intros Hia Hsep. split; [by apply ParseFormattedIA_FormatIA|by apply ParseIA_String].
Qed.

Lemma format_ia_roundtrip_witness :
  FormatIA 0x1ff0000000110 [WithDefaultPrefix; WithFileSeparator] = str "ISD1-ASff00_0_110" ∧
  ParseFormattedIA (str "ISD1-ASff00_0_110") [WithDefaultPrefix; WithFileSeparator] =
    Ok 0x1ff0000000110.
Proof.
  split; [reflexivity|].
  apply (format_ia_roundtrip 0x1ff0000000110 [WithDefaultPrefix; WithFileSeparator]); [done|].
  split; [|by_decide]. exists "_"%char. split; [done|].
  intros (d & Hd & E). apply (f_equal byte_of) in E. unfold digit_char in E.
  destruct (Z.ltb_spec d 10); rewrite byte_of_char_of in E by lia;
    change (byte_of "_") with 95 in E; lia.
Defined.

(** With the empty separator the text is read back as another AS number. *)
Example empty_separator_misparsed :
  ParseFormattedIA (FormatIA 0x1000000000064 [WithSeparator []]) [WithSeparator []] =
    Ok 0x1000100000000.
Proof. reflexivity. Qed.

(** ** What parsing accepts *)

Lemma parseAS_safe as_ sep :
  match parseAS as_ sep with Ok v => 0 ≤ v ≤ MaxAS | Err _ => True | Panic => False end.
Proof.
  change MaxAS with (2 ^ 48 - 1). unfold parseAS, asParseBGP, BGPASBits.
  set (parts := Split as_ sep). clearbody parts.
  destruct (Z.eqb_spec (len parts) 1).
  { destruct (ParseUint_cases as_ 10 32) as [(v & -> & ?)|(e' & ->)]; [done|cbn; lia|done]. }
  destruct (Z.eqb_spec (len parts) asParts) as [E|]; cbn [negb]; [|done]. go_cbn.
  change asParts with 3 in *. destruct parts as [|p0 [|p1 [|p2 [|]]]];
    rewrite ?len_cons, ?len_nil in E; try len_lia.
  change (Z.to_nat 3) with 3%nat. unfold parse_parts, asPartBase.
  change (0 + 1 + 1) with 2. change (0 + 1) with 1.
  change (get _ 0) with (Ok p0). change (get _ 1) with (Ok p1). change (get _ 2) with (Ok p2). go_cbn.
  change asPartBits with 16 at 4 5 6.
  destruct (ParseUint_cases p0 16 16) as [(v0 & -> & ?)|(e' & ->)]; [done|cbn [wrap_err]; go_cbn|done].
  destruct (ParseUint_cases p1 16 16) as [(v1 & -> & ?)|(e' & ->)]; [done|cbn [wrap_err]; go_cbn|done].
  destruct (ParseUint_cases p2 16 16) as [(v2 & -> & ?)|(e' & ->)]; [done|cbn [wrap_err]; go_cbn|done].
  rewrite (shift_part 0 v0), (shift_part (0 * 65536 + v0) v1), (shift_part _ v2) by lia.
  unfold inRange. change MaxAS with (2 ^ 48 - 1). replace (_ <=? _) with true by lia. cbn [negb].
  go_cbn. lia.
Qed.

Lemma ParseISD_safe s :
  match ParseISD s with Ok v => 0 ≤ v < 2 ^ 16 | Err _ => True | Panic => False end.
Proof.
  unfold ParseISD, ISDBits.
  destruct (ParseUint_cases s 10 16) as [(v & -> & ?)|(e' & ->)]; [done| |done].
  cbn [wrap_err]. go_cbn. apply uint_of_range. lia.
Qed.

Lemma MustIAFrom_safe isd as_ :
  0 ≤ isd < 2 ^ 16 → 0 ≤ as_ ≤ MaxAS →
  ∃ ia, MustIAFrom isd as_ = Ok ia ∧ is_u64 ia ∧ ISD ia = isd ∧ AS ia = as_.
Proof.
  intros Hi Ha. unfold MustIAFrom, IAFrom, inRange. replace (as_ <=? MaxAS) with true by lia.
  cbn [negb]. go_cbn. change MaxAS with (2 ^ 48 - 1) in *. unfold ASBits.
  change (Z.land as_ MaxAS) with (Z.land as_ (2 ^ 48 - 1)).
  rewrite land_ones_mod, Z.mod_small, Z.shiftl_mul_pow2 by lia.
  rewrite uint_of_small by (split; lia).
  rewrite (lor_disjoint_add _ _ 48); [|lia|lia|by rewrite Z.mod_mul].
  assert (is_u64 (isd * 2 ^ 48 + as_)) by (split; lia).
  eexists. split_and!; [done|done|rewrite ISD_eq by done; dlia|rewrite AS_eq; dlia].
Qed.

(** Parsing an ISD-AS identifier is safe on any string.  [ParseIA] and
    [ParseFormattedIA], with any options, return an error or a 64-bit identifier;
    the call to the panicking constructor [MustIAFrom] at the end never panics,
    because the parsers only let 16-bit ISD numbers and 48-bit AS numbers
    through. *)
Theorem parse_ia_safe s opts :
  (match ParseIA s with Ok ia => is_u64 ia | Err _ => True | Panic => False end) ∧
  (match ParseFormattedIA s opts with Ok ia => is_u64 ia | Err _ => True | Panic => False end).
Proof.
  split.
  - unfold ParseIA. set (parts := Split s (str "-")). clearbody parts.
    destruct (Z.eqb_spec (len parts) 2) as [E|]; cbn [negb]; [|done]. go_cbn.
    destruct parts as [|p0 [|p1 [|]]]; rewrite ?len_cons, ?len_nil in E; try len_lia.
    change (get _ 0) with (Ok p0). change (get _ 1) with (Ok p1). go_cbn.
    pose proof (ParseISD_safe p0) as Hi. destruct (ParseISD p0) as [isd| |]; [|done..]. go_cbn.
    pose proof (parseAS_safe p1 (str ":")) as Ha. unfold ParseAS.
    destruct (parseAS p1 (str ":")) as [as_| |]; [|done..]. go_cbn.
    destruct (MustIAFrom_safe isd as_ Hi Ha) as (ia & -> & ? & _). done.
  - unfold ParseFormattedIA. set (parts := Split s (str "-")). clearbody parts.
    destruct (Z.eqb_spec (len parts) 2) as [E|]; cbn [negb]; [|done]. go_cbn.
    destruct parts as [|p0 [|p1 [|]]]; rewrite ?len_cons, ?len_nil in E; try len_lia.
    change (get _ 0) with (Ok p0). change (get _ 1) with (Ok p1). go_cbn.
    assert (match ParseFormattedISD p0 opts with
      Ok v => 0 ≤ v < 2 ^ 16 | Err _ => True | Panic => False end) as Hi.
    { unfold ParseFormattedISD. destruct (defaultPrefix _); [|apply ParseISD_safe].
      destruct (bool_decide _); [done|]. go_cbn. apply ParseISD_safe. }
    assert (match ParseFormattedAS p1 opts with
      Ok v => 0 ≤ v ≤ MaxAS | Err _ => True | Panic => False end) as Ha.
    { unfold ParseFormattedAS. destruct (defaultPrefix _); [|apply parseAS_safe].
      destruct (bool_decide _); [done|]. go_cbn. apply parseAS_safe. }
    destruct (ParseFormattedISD p0 opts) as [isd| |]; [|done..]. cbn [wrap_err]. go_cbn.
    destruct (ParseFormattedAS p1 opts) as [as_| |]; [|done..]. cbn [wrap_err]. go_cbn.
    destruct (MustIAFrom_safe isd as_ Hi Ha) as (ia & -> & ? & _). done.
Qed.

(** ** Full addresses *)

(** What the code relies on of package [net/netip]: [ParseAddr] reads back what
    [String] prints for a valid address, and that text contains a dot or a colon,
    no comma outside of the zone and no brackets outside of the zone. *)
Class NetipText (netip_ParseAddr : gostring → outcome IP.t) (netip_String : IP.t → gostring) := {
  netip_roundtrip ip : IP.wf ip → IP.IsValid ip = true → netip_ParseAddr (netip_String ip) = Ok ip;
  netip_separator ip : IP.wf ip → IP.IsValid ip = true →
    "."%char ∈ netip_String ip ∨ ":"%char ∈ netip_String ip;
  netip_brackets ip c : IP.wf ip → IP.IsValid ip = true → c = "["%char ∨ c = "]"%char →
    c ∈ netip_String ip → match ip with IP.V6 _ zone => c ∈ zone | _ => False end
}.

(** Service addresses that have a name. *)
Definition named_svc (svc : Z) : Prop :=
  ∃ b, b ∈ [SVC.SvcDS; SVC.SvcCS; SVC.SvcWildcard] ∧ (svc = b ∨ svc = SVC.Multicast b).

(** Hosts whose text form can be read back: named services, and valid IP
    addresses without brackets in the zone. *)
Definition printable (h : Host.t) : Prop :=
  (∃ svc, h = Host.HostSVC svc ∧ named_svc svc) ∨
  (∃ ip, h = Host.HostIP ip ∧ IP.wf ip ∧ IP.IsValid ip = true ∧
     match ip with IP.V6 _ zone => ("["%char ∉ zone) ∧ ("]"%char ∉ zone) | _ => True end).

Lemma ParseSVC_chars s v : SVC.ParseSVC s = Ok v → ("."%char ∉ s) ∧ (":"%char ∉ s).
Proof.
  unfold SVC.ParseSVC. intros H.
  assert (∃ b x, s = b ++ x ∧ b ∈ [str "DS"; str "CS"; str "Wildcard"] ∧
    x ∈ [str "_A"; str "_M"; []]) as (b & x & -> & Hb & Hx).
  { destruct (HasSuffix s (str "_A")) eqn:EA; [|destruct (HasSuffix s (str "_M")) eqn:EM].
    - exists (TrimSuffix s (str "_A")), (str "_A").
      split; [by apply HasSuffix_inv|]. repeat case_bool_decide; set_solver.
    - exists (TrimSuffix s (str "_M")), (str "_M").
      split; [by apply HasSuffix_inv|]. repeat case_bool_decide; set_solver.
    - exists s, []. split; [by rewrite app_nil_r|]. repeat case_bool_decide; set_solver. }
  rewrite !elem_of_cons, elem_of_nil in Hb. rewrite !elem_of_cons, elem_of_nil in Hx.
  destruct Hb as [-> |[-> |[-> |Hf]]]; [..|destruct Hf];
    (destruct Hx as [-> |[-> |[-> |Hf]]]; [..|destruct Hf]; split; by_decide).
Qed.

Lemma ParseSVC_named svc :
  named_svc svc → SVC.ParseSVC (SVC.String_ svc) = Ok svc ∧
    ("["%char ∉ SVC.String_ svc) ∧ ("]"%char ∉ SVC.String_ svc).
Proof.
  intros (b & Hb & Hs). rewrite !elem_of_cons, elem_of_nil in Hb.
  destruct Hb as [-> |[-> |[-> |Hf]]]; [..|destruct Hf]; destruct Hs as [-> | ->]; split_and!;
    first [by_decide|reflexivity].
Qed.

Lemma fmt_parts_chars n i as_ sep c :
  ¬ is_digit 16 c → c ∉ sep → c ∉ fmt_parts n i as_ sep.
Proof.
  intros Hc Hs. revert i. induction n as [|n IH]; intros i; cbn [fmt_parts]; [by apply not_elem_of_nil|].
  rewrite !not_elem_of_app. split_and!; [by destruct (0 <? i); [|apply not_elem_of_nil]| |apply IH].
  change asPartMask with (2 ^ 16 - 1). rewrite land_ones_mod by lia.
  apply FormatUint_absent; [unfold asPartBase; lia| |done].
  pose proof (Z.mod_pos_bound (Z.shiftr as_ (asPartBits * (asParts - i - 1))) (2 ^ 16)). lia.
Qed.

Lemma IA_String_chars ia c :
  ¬ is_digit 16 c → c ∉ str "-" → c ∉ str ":" → c ∉ IA_String ia.
Proof.
  intros Hc H1 H2. pose proof (ISD_AS_range ia) as [Hi Ha].
  unfold IA_String, ISD_String, AS_String, fmtAS, inRange.
  replace (AS ia <=? MaxAS) with true by lia. cbn [negb]. change MaxAS with (2 ^ 48 - 1) in Ha.
  rewrite !not_elem_of_app. split_and!; [apply FormatUint_absent; [lia|lia|done]|done|].
  destruct (_ <=? MaxBGPAS); [apply FormatUint_absent; [lia|lia|done]|].
  by apply fmt_parts_chars.
Qed.

Lemma not_hex c : byte_of c < 48 ∨ 57 < byte_of c < 97 → ¬ is_digit 16 c.
Proof.
  intros Hc (d & Hd & ->). unfold digit_char in Hc.
  destruct (Z.ltb_spec d 10); rewrite byte_of_char_of in Hc; lia.
Qed.

Section text.
Context {netip_ParseAddr netip_String} `{!NetipText netip_ParseAddr netip_String}.

Lemma ParseHost_String h :
  printable h → ∃ s, Host.String_ netip_String h = Ok s ∧
    Host.ParseHost netip_ParseAddr s = Ok h ∧ ("["%char ∉ s) ∧ ("]"%char ∉ s).
Proof.
  intros [(svc & -> & Hs)|(ip & -> & Hw & Hv & Hz)].
  - exists (SVC.String_ svc). destruct (ParseSVC_named svc Hs) as (E & ? & ?).
    split_and!; [done| |done|done]. unfold Host.ParseHost. by rewrite E.
  - exists (netip_String ip). split_and!; [done| | |].
    + unfold Host.ParseHost. destruct (SVC.ParseSVC (netip_String ip)) as [v| |] eqn:E.
      * apply ParseSVC_chars in E as [? ?]. by destruct (netip_separator ip Hw Hv).
      * by rewrite netip_roundtrip.
      * by rewrite netip_roundtrip.
    + intros H. apply netip_brackets in H; [|by auto..]. destruct ip; [done..|by destruct Hz].
    + intros H. apply netip_brackets in H; [|by auto..]. destruct ip; [done..|by destruct Hz].
Qed.

(** Text forms of full SCION addresses round trip.  For every 64-bit ISD-AS,
    every host that is a named service or a valid IP address (without brackets in
    its zone) and every port, formatting succeeds, [ParseAddrPort] reads back the
    address and the port that [FormatAddrPort] wrote, and [ParseAddr] reads back
    [Addr.String]. *)
Theorem format_addr_port_roundtrip a port :
  is_u64 (Addr.IA a) → printable (Addr.Host a) → is_u16 port →
  ∃ s t, Addr.String_ netip_String a = Ok s ∧ Addr.ParseAddr netip_ParseAddr s = Ok a ∧
    Addr.FormatAddrPort netip_String a port = Ok t ∧
    Addr.ParseAddrPort netip_ParseAddr t = Ok (a, port).
Proof.
  intros Hia Hh Hp. destruct a as [ia h]. cbn [Addr.IA Addr.Host] in *.
  destruct (ParseHost_String h Hh) as (hs & Es & Ep & Hb1 & Hb2).
  set (s := IA_String ia ++ str "," ++ hs).
  assert (Addr.String_ netip_String (Addr.mk ia h) = Ok s) as E1.
  { unfold Addr.String_. cbn [Addr.Host Addr.IA]. by rewrite Es. }
  assert (Addr.ParseAddr netip_ParseAddr s = Ok (Addr.mk ia h)) as E2.
  { unfold Addr.ParseAddr. pose proof (len_nonneg (IA_String ia)). pose proof (len_nonneg hs).
    assert (IndexByte s ","%char = len (IA_String ia)) as ->.
    { apply IndexByte_app, IA_String_chars; [apply not_hex; left; by vm_compute|by_decide|by_decide]. }
    replace (_ <? 0) with false by lia. go_cbn. unfold s.
    rewrite (sub_prefix (IA_String ia)) by done. go_cbn.
    rewrite (ParseIA_String ia Hia). go_cbn.
    unfold sub_from. rewrite app_assoc.
    rewrite sub_suffix by (rewrite !len_app; change (len (str ",")) with 1; lia). go_cbn.
    by rewrite Ep. }
  exists s, (str "[" ++ s ++ str "]:" ++ FormatUint port 10). split_and!; [done|done| |].
  - unfold Addr.FormatAddrPort. by rewrite E1.
  - unfold Addr.ParseAddrPort. rewrite SplitHostPort_bracketed.
    + cbn [wrap_err]. go_cbn. rewrite E2. cbn [wrap_err]. go_cbn.
      rewrite ParseUint_FormatUint by (uint_bounds; lia). cbn [wrap_err]. go_cbn.
      by rewrite uint_of_small.
    + unfold s. rewrite !not_elem_of_app. split_and!; [|by_decide|done].
      apply IA_String_chars; [apply not_hex; right; by vm_compute|by_decide|by_decide].
    + unfold s. rewrite !not_elem_of_app. split_and!; [|by_decide|done].
      apply IA_String_chars; [apply not_hex; right; by vm_compute|by_decide|by_decide].
    + apply FormatUint_digits; [lia|ulia].
Qed.
End text.

(** A simple text form of IP addresses that satisfies [NetipText]: a dot or a
    colon, two letters per byte, and the zone. *)
Definition letter (n : Z) : ascii := char_of (97 + n).
Definition letters (b : bytes) : gostring :=
  concat ((λ x, [letter (x / 16); letter (x mod 16)]) <$> b).
Fixpoint unletters (n : nat) (s : gostring) : bytes * gostring :=
  match n, s with
  | S n, c :: d :: s =>
      let '(b, r) := unletters n s in ((byte_of c - 97) * 16 + (byte_of d - 97) :: b, r)
  | _, _ => ([], s)
  end.

Definition simple_String (ip : IP.t) : gostring :=
  match ip with
  | IP.Invalid => []
  | IP.V4 b => "."%char :: letters b
  | IP.V6 b zone => ":"%char :: letters b ++ zone
  end.
Definition simple_ParseAddr (s : gostring) : outcome IP.t :=
  match s with
  | c :: s =>
      if bool_decide (c = "."%char) then Ok (IP.V4 (unletters 4 s).1)
      else let '(b, zone) := unletters 16 s in Ok (IP.V6 b zone)
  | [] => Err (New "unable to parse IP")
  end.

Lemma byte_of_letter n : 0 ≤ n < 16 → byte_of (letter n) = 97 + n.
Proof. intros. apply byte_of_char_of. lia. Qed.

Lemma unletters_letters b r :
  wf_bytes b → unletters (length b) (letters b ++ r) = (b, r).
Proof.
  induction 1 as [|x b Hx _ IH]; [done|]. uint_bounds. unfold letters in *.
  cbn [fmap list_fmap concat app length unletters].
  rewrite IH, !byte_of_letter by dlia. f_equal. f_equal. dlia.
Qed.

Lemma letters_chars b c : wf_bytes b → c ∈ letters b → 97 ≤ byte_of c.
Proof.
  intros Hb Hc. unfold letters in Hc. apply list_elem_of_In, in_concat in Hc as (l & Hl & Hc).
  apply list_elem_of_In, list_elem_of_fmap in Hl as (x & -> & Hx).
  unfold wf_bytes in Hb. rewrite Forall_forall in Hb. apply Hb in Hx. uint_bounds.
  destruct Hc as [<-|[<-|[]]]; rewrite byte_of_letter; dlia.
Qed.

#[export] Instance simple_text : NetipText simple_ParseAddr simple_String.
Proof.
  split.
  - intros [|b|b zone] Hw Hv; [done|..]; destruct Hw as [Hw Hl]; unfold simple_String, simple_ParseAddr.
    + rewrite bool_decide_eq_true_2 by done. rewrite <- Hl, <- (app_nil_r (letters b)).
      by rewrite unletters_letters.
    + rewrite bool_decide_eq_false_2 by done. rewrite <- Hl. by rewrite unletters_letters.
  - intros [|b|b zone] Hw Hv; [done|left; apply list_elem_of_here|right; apply list_elem_of_here].
  - intros [|b|b zone] c Hw Hv Hc Hin; [done|..]; destruct Hw as [Hw _];
      apply elem_of_cons in Hin as [->|Hin]; try by destruct Hc.
    + apply letters_chars in Hin; [|done]. by destruct Hc as [-> | ->].
    + apply elem_of_app in Hin as [Hin|Hin]; [|done].
      apply letters_chars in Hin; [|done]. by destruct Hc as [-> | ->].
Qed.

Lemma format_addr_port_roundtrip_witness :
  Addr.FormatAddrPort simple_String (Addr.mk 0x1ff0000000110 (Host.HostSVC 0x8002)) 80 =
    Ok (str "[1-ff00:0:110,CS_M]:80") ∧
  Addr.ParseAddrPort simple_ParseAddr (str "[1-ff00:0:110,CS_M]:80") =
    Ok (Addr.mk 0x1ff0000000110 (Host.HostSVC 0x8002), 80) ∧
  ∃ t, Addr.FormatAddrPort simple_String (Addr.mk 1 (Host.HostIP (IP.V4 [10; 0; 0; 1]))) 53 = Ok t ∧
    Addr.ParseAddrPort simple_ParseAddr t = Ok (Addr.mk 1 (Host.HostIP (IP.V4 [10; 0; 0; 1])), 53).
Proof.
  split_and!.
  - reflexivity.
  - destruct (format_addr_port_roundtrip (netip_String:=simple_String)
      (Addr.mk 0x1ff0000000110 (Host.HostSVC 0x8002)) 80) as (s & t & _ & _ & E & H).
    + done.
    + left. exists 0x8002. split; [done|]. exists SVC.SvcCS. split; [by_decide|by right].
    + done.
    + vm_compute in E. injection E as <-. exact H.
  - destruct (format_addr_port_roundtrip (netip_String:=simple_String)
      (Addr.mk 1 (Host.HostIP (IP.V4 [10; 0; 0; 1]))) 53) as (s & t & _ & _ & E & H).
    + done.
    + right. exists (IP.V4 [10; 0; 0; 1]). split_and!; try done. repeat constructor; done.
    + done.
    + by exists t.
Defined.

End AddrProperties.
