(* ===== verification/ScionHdr.v ===== *)
(** The SCION header, [pkg/slayers/scion.go]: common header, address header and
    path ([DecodeFromBytes], [SerializeTo]), host addresses on the wire
    ([ParseAddr], [PackAddr]), the choice of the next layer, and the checksum over
    the pseudo header. *)
From S2P Require Export PathInterface Addr.

(** * l4.go and layertypes.go *)
Module L4.

Definition None : Z := 0.
Definition TCP : Z := 6.
Definition UDP : Z := 17.
Definition SCMP : Z := 202.
Definition BFD : Z := 203.
Definition HopByHopClass : Z := 200.
Definition End2EndClass : Z := 201.

(** The layers a header can be followed by. *)
Inductive LayerType :=
| LayerTypeSCION
| LayerTypeSCIONUDP
| LayerTypeSCMP
| LayerTypeHopByHopExtn
| LayerTypeEndToEndExtn
| LayerTypeSCMPExternalInterfaceDown
| LayerTypeSCMPInternalConnectivityDown
| LayerTypeSCMPParameterProblem
| LayerTypeSCMPDestinationUnreachable
| LayerTypeSCMPPacketTooBig
| LayerTypeSCMPEcho
| LayerTypeSCMPTraceroute
| LayerTypeBFD
| LayerTypePayload
| LayerTypeDecodeFailure.

#[export] Instance LayerType_eq_dec : EqDecision LayerType.
Proof. solve_decision. Defined.

Definition scionNextLayerTypeL4 (t : Z) : LayerType :=
  if t =? UDP then LayerTypeSCIONUDP
  else if t =? SCMP then LayerTypeSCMP
  else if t =? BFD then LayerTypeBFD
  else LayerTypePayload.

Definition scionNextLayerType (t : Z) : LayerType :=
  if t =? HopByHopClass then LayerTypeHopByHopExtn
  else if t =? End2EndClass then LayerTypeEndToEndExtn
  else scionNextLayerTypeL4 t.

Definition scionNextLayerTypeAfterHBH (t : Z) : LayerType :=
  if t =? HopByHopClass then LayerTypeDecodeFailure
  else if t =? End2EndClass then LayerTypeEndToEndExtn
  else scionNextLayerTypeL4 t.

Definition scionNextLayerTypeAfterE2E (t : Z) : LayerType :=
  if t =? HopByHopClass then LayerTypeDecodeFailure
  else if t =? End2EndClass then LayerTypeDecodeFailure
  else scionNextLayerTypeL4 t.

End L4.

(** * scion.go: host addresses *)
Module AddrType.

Definition T4Ip : Z := 0.   (* T=0, L=0 *)
Definition T4Svc : Z := 4.  (* T=1, L=0 *)
Definition T16Ip : Z := 3.  (* T=0, L=3 *)
Definition LineLen : Z := 4.

Definition Length (tl : Z) : Z := LineLen * (1 + Z.land tl 3).

Definition ParseAddr (addrType : Z) (raw : bytes) : outcome Host.t :=
  if addrType =? T4Ip then Ok (Host.HostIP (IP.AddrFrom4 (copy (make_bytes 4) raw)))
  else if addrType =? T4Svc then
    svc ← sub raw 0 2 ≫= Uint16; Ok (Host.HostSVC svc)
  else if addrType =? T16Ip then Ok (Host.HostIP (IP.AddrFrom16 (copy (make_bytes 16) raw)))
  else Err (New "unsupported address type/length combination").

Definition PackAddr (host : Host.t) : outcome (Z * bytes) :=
  if Host.Type_ host =? Host.HostTypeIP then
    ip ← Host.IP host;
    let ip := IP.Unmap ip in
    if negb (IP.IsValid ip) then Err (New "unsupported address")
    else if IP.Is6 ip then Ok (T16Ip, IP.AsSlice ip)
    else Ok (T4Ip, IP.AsSlice ip)
  else if Host.Type_ host =? Host.HostTypeSVC then
    svc ← Host.SVC host;
    raw ← PutUint16 (make_bytes 4) svc;
    Ok (T4Svc, raw)
  else Err (New "unsupported address").

End AddrType.

(** * scion.go: the header *)
Module SCION.

Import AddrType.

Definition CmnHdrLen : Z := 12.
Definition MaxHdrLen : Z := 1020.
Definition SCIONVersion : Z := 0.

(** [Path] is [None] when the interface value is nil.  [pathPool] holds the
    recycled paths and [pathPoolRaw] when [RecyclePaths] was called. *)
Record t := mk {
  Version : Z;
  TrafficClass : Z;
  FlowID : Z;
  NextHdr : Z;
  HdrLen : Z;
  PayloadLen : Z;
  PathType : Z;
  DstAddrType : Z;
  SrcAddrType : Z;
  DstIA : Z;
  SrcIA : Z;
  RawDstAddr : bytes;
  RawSrcAddr : bytes;
  Path : option Path;
  pathPool : option (list PathInterface.Path * PathInterface.Path);
  Contents : bytes;
  Payload : bytes
}.

Definition zero : t := mk 0 0 0 0 0 0 0 0 0 0 0 [] [] None None [] [].

Definition set_cmn (version tc flow next hdrLen payloadLen pathType dst src : Z) (s : t) : t :=
  mk version tc flow next hdrLen payloadLen pathType dst src (DstIA s) (SrcIA s)
     (RawDstAddr s) (RawSrcAddr s) (Path s) (pathPool s) (Contents s) (Payload s).
Definition set_addrs (dstIA srcIA : Z) (rawDst rawSrc : bytes) (s : t) : t :=
  mk (Version s) (TrafficClass s) (FlowID s) (NextHdr s) (HdrLen s) (PayloadLen s) (PathType s)
     (DstAddrType s) (SrcAddrType s) dstIA srcIA rawDst rawSrc (Path s) (pathPool s)
     (Contents s) (Payload s).
Definition set_Path (p : PathInterface.Path) (s : t) : t :=
  mk (Version s) (TrafficClass s) (FlowID s) (NextHdr s) (HdrLen s) (PayloadLen s) (PathType s)
     (DstAddrType s) (SrcAddrType s) (DstIA s) (SrcIA s) (RawDstAddr s) (RawSrcAddr s) (Some p)
     (pathPool s) (Contents s) (Payload s).
Definition set_base (contents payload : bytes) (s : t) : t :=
  mk (Version s) (TrafficClass s) (FlowID s) (NextHdr s) (HdrLen s) (PayloadLen s) (PathType s)
     (DstAddrType s) (SrcAddrType s) (DstIA s) (SrcIA s) (RawDstAddr s) (RawSrcAddr s) (Path s)
     (pathPool s) contents payload.
Definition set_lens (hdrLen payloadLen : Z) (s : t) : t :=
  set_cmn (Version s) (TrafficClass s) (FlowID s) (NextHdr s) hdrLen payloadLen (PathType s)
     (DstAddrType s) (SrcAddrType s) s.
Definition set_pathPool (pool : list PathInterface.Path * PathInterface.Path) (s : t) : t :=
  mk (Version s) (TrafficClass s) (FlowID s) (NextHdr s) (HdrLen s) (PayloadLen s) (PathType s)
     (DstAddrType s) (SrcAddrType s) (DstIA s) (SrcIA s) (RawDstAddr s) (RawSrcAddr s) (Path s)
     (Some pool) (Contents s) (Payload s).

Definition AddrHdrLen (s : t) : Z :=
  2 * ISDAS.IABytes + Length (DstAddrType s) + Length (SrcAddrType s).

Definition DstAddr (s : t) : outcome Host.t := ParseAddr (DstAddrType s) (RawDstAddr s).
Definition SrcAddr (s : t) : outcome Host.t := ParseAddr (SrcAddrType s) (RawSrcAddr s).

(** [s.DstAddrType, s.RawDstAddr, err = PackAddr(dst)] assigns on errors too. *)
Definition SetDstAddr (dst : Host.t) : SE t unit := λ s,
  let set ty raw := mk (Version s) (TrafficClass s) (FlowID s) (NextHdr s) (HdrLen s) (PayloadLen s)
     (PathType s) ty (SrcAddrType s) (DstIA s) (SrcIA s) raw (RawSrcAddr s) (Path s)
     (pathPool s) (Contents s) (Payload s) in
  match PackAddr dst with
  | Ok (ty, raw) => (set ty raw, Ok tt)
  | Err e => (set 0 [], Err e)
  | Panic => (s, Panic)
  end.
Definition SetSrcAddr (src : Host.t) : SE t unit := λ s,
  let set ty raw := mk (Version s) (TrafficClass s) (FlowID s) (NextHdr s) (HdrLen s) (PayloadLen s)
     (PathType s) (DstAddrType s) ty (DstIA s) (SrcIA s) (RawDstAddr s) raw (Path s)
     (pathPool s) (Contents s) (Payload s) in
  match PackAddr src with
  | Ok (ty, raw) => (set ty raw, Ok tt)
  | Err e => (set 0 [], Err e)
  | Panic => (s, Panic)
  end.

(** ** Decoding *)

Definition DecodeAddrHdr (data : bytes) : SE t unit := λ s,
  (_ ← lift (fail_if (len data <? AddrHdrLen s) (New "provided buffer is too small"));
   let offset := 0 in
   dstIA ← lift (sub_from data offset ≫= Uint64);
   let offset := offset + ISDAS.IABytes in
   srcIA ← lift (sub_from data offset ≫= Uint64);
   let offset := offset + ISDAS.IABytes in
   let dstAddrBytes := Length (DstAddrType s) in
   let srcAddrBytes := Length (SrcAddrType s) in
   rawDst ← lift (sub data offset (offset + dstAddrBytes));
   let offset := offset + dstAddrBytes in
   rawSrc ← lift (sub data offset (offset + srcAddrBytes));
   modify (set_addrs dstIA srcIA rawDst rawSrc)) s.

(** [RecyclePaths]: the pool has an entry for the path types 0 to 3. *)
Definition RecyclePaths : SE t unit := λ s,
  match pathPool s with
  | None =>
      (set_pathPool ([PEmpty; PScion Registry.raw_zero; POneHop Registry.onehop_zero;
                      PEpic (Epic.mk (Epic.mkPktID 0 0) [] [] None)], Registry.NewRawPath) s, Ok tt)
  | Some _ => (s, Ok tt)
  end.

Definition getPath (reg : Registry.t) (s : t) (pathType : Z) : outcome PathInterface.Path :=
  match pathPool s with
  | None => Registry.NewPath reg pathType
  | Some (pool, raw) => if pathType <? len pool then get pool pathType else Ok raw
  end.

(** The common header: the first twelve bytes. *)
Definition decode_cmn (data : bytes) : SE t unit :=
  firstLine ← lift (sub data 0 4 ≫= Uint32);
  nextHdr ← lift (get data 4);
  hdrLen ← lift (get data 5);
  payloadLen ← lift (sub data 6 8 ≫= Uint16);
  pathType ← lift (get data 8);
  b9 ← lift (get data 9);
  modify (set_cmn (u8 (Z.shiftr firstLine 28)) (u8 (Z.land (Z.shiftr firstLine 20) 0xFF))
            (Z.land firstLine 0xFFFFF) nextHdr hdrLen payloadLen pathType
            (Z.land (Z.shiftr b9 4) 0xF) (Z.land b9 0xF)).

Definition DecodeFromBytes (reg : Registry.t) (data : bytes) : SE t unit :=
  _ ← lift (fail_if (len data <? CmnHdrLen)
              (New "packet is shorter than the common header length"));
  _ ← decode_cmn data;
  addrs ← lift (sub_from data CmnHdrLen);
  _ ← DecodeAddrHdr addrs;
  s ← gets id;
  let addrHdrLen := AddrHdrLen s in
  let offset := CmnHdrLen + addrHdrLen in
  let hdrBytes := HdrLen s * LineLen in
  let pathLen := hdrBytes - CmnHdrLen - addrHdrLen in
  _ ← lift (fail_if (pathLen <? 0) (New "invalid header, negative pathLen"));
  let minLen := offset + pathLen in
  _ ← lift (fail_if (len data <? minLen) (New "provided buffer is too small"));
  p ← lift (getPath reg s (PathType s));
  _ ← modify (set_Path p);
  pathBytes ← lift (sub data offset (offset + pathLen));
  p ← lift (Decode pathBytes p);
  _ ← modify (set_Path p);
  contents ← lift (sub data 0 hdrBytes);
  payload ← lift (sub_from data hdrBytes);
  modify (set_base contents payload).

(** [NextLayerType] *)
Definition NextLayerType (s : t) : L4.LayerType := L4.scionNextLayerType (NextHdr s).

(** ** Serialising *)

Definition SerializeAddrHdr (s : t) (buf : bytes) : outcome bytes :=
  _ ← fail_if (len buf <? AddrHdrLen s) (New "provided buffer is too small");
  let dstAddrBytes := Length (DstAddrType s) in
  let srcAddrBytes := Length (SrcAddrType s) in
  let offset := 0 in
  buf ← on_sub_from buf offset (λ b, PutUint64 b (DstIA s));
  let offset := offset + ISDAS.IABytes in
  buf ← on_sub_from buf offset (λ b, PutUint64 b (SrcIA s));
  let offset := offset + ISDAS.IABytes in
  buf ← on_sub buf offset (offset + dstAddrBytes) (λ b, Ok (copy b (RawDstAddr s)));
  let offset := offset + dstAddrBytes in
  on_sub buf offset (offset + srcAddrBytes) (λ b, Ok (copy b (RawSrcAddr s))).

(** [opts.FixLengths] and [opts.ComputeChecksums] of [gopacket.SerializeOptions]. *)
Record SerializeOptions := mkOpts { FixLengths : bool; ComputeChecksums : bool }.

Definition serialize_cmn (s : t) (buf : bytes) : outcome bytes :=
  let firstLine := Z.lor (Z.lor (u32 (Z.shiftl (Z.land (Version s) 0xF) 28))
                                (u32 (Z.shiftl (TrafficClass s) 20)))
                         (Z.land (FlowID s) 0xFFFFF) in
  buf ← on_sub buf 0 4 (λ b, PutUint32 b firstLine);
  buf ← put buf 4 (NextHdr s);
  buf ← put buf 5 (HdrLen s);
  buf ← on_sub buf 6 8 (λ b, PutUint16 b (PayloadLen s));
  buf ← put buf 8 (PathType s);
  buf ← put buf 9 (Z.lor (u8 (Z.shiftl (Z.land (DstAddrType s) 0xF) 4))
                         (Z.land (SrcAddrType s) 0xF));
  on_sub buf 10 12 (λ b, PutUint16 b 0).

Section buffer.
(** [PrependBytes] of [gopacket.SerializeBuffer]: the new bytes at the front of the
    buffer, whose contents are indeterminate. *)
Context (PrependBytes : Z → bytes).

(** The contents of the buffer after the call; [b] is what was in it before. *)
Definition SerializeTo (b : bytes) (opts : SerializeOptions) : SE t bytes := λ s,
  match Path s with
  | None => (s, Panic)
  | Some p =>
      let scnLen := CmnHdrLen + AddrHdrLen s + PathLen p in
      if MaxHdrLen <? scnLen then (s, Err (New "header length exceeds maximum")) else
      if negb (Z.rem scnLen LineLen =? 0) then
        (s, Err (New "header length is not an integer multiple of line length")) else
      let buf := PrependBytes scnLen in
      let s := if FixLengths opts then set_lens (u8 (Z.quot scnLen LineLen)) (u16 (len b)) s else s in
      match (buf ← serialize_cmn s buf; on_sub_from buf CmnHdrLen (SerializeAddrHdr s)) with
      | Err e => (s, Err e)
      | Panic => (s, Panic)
      | Ok buf =>
          let offset := CmnHdrLen + AddrHdrLen s in
          match sub_from buf offset with
          | Ok rest =>
              let '(p, r) := Serialize rest p in
              (set_Path p s,
               rest ← r; buf ← on_sub_from buf offset (λ _, Ok rest); Ok (buf ++ b))
          | Err e => (s, Err e)
          | Panic => (s, Panic)
          end
      end
  end.
End buffer.

(** ** Checksum *)

(** The sum of the 16-bit words at the even positions of [b]; [b[i+1]] of an odd
    last byte is out of range. *)
Fixpoint sum_words (fuel : nat) (b : bytes) (i : Z) (csum : Z) : outcome Z :=
  match fuel with
  | O => Ok csum
  | S fuel =>
      if len b <=? i then Ok csum else
      hi ← get b i;
      let csum := u32 (csum + u32 (Z.shiftl hi 8)) in
      lo ← get b (i + 1);
      sum_words fuel b (i + 2) (u32 (csum + lo))
  end.

Definition pseudoHeaderChecksum (s : t) (length protocol : Z) : outcome Z :=
  _ ← fail_if (len (RawDstAddr s) =? 0) (New "destination address missing");
  _ ← fail_if (len (RawSrcAddr s) =? 0) (New "source address missing");
  let srcIA := be_bytes 8 (SrcIA s) in
  let dstIA := be_bytes 8 (DstIA s) in
  csum ← foldl (λ acc i,
      csum ← acc;
      s0 ← get srcIA i; s1 ← get srcIA (i + 1);
      d0 ← get dstIA i; d1 ← get dstIA (i + 1);
      let csum := u32 (csum + u32 (Z.shiftl s0 8)) in
      let csum := u32 (csum + s1) in
      let csum := u32 (csum + u32 (Z.shiftl d0 8)) in
      Ok (u32 (csum + d1))) (Ok 0) [0; 2; 4; 6];
  csum ← sum_words (Z.to_nat (len (RawSrcAddr s))) (RawSrcAddr s) 0 csum;
  csum ← sum_words (Z.to_nat (len (RawDstAddr s))) (RawDstAddr s) 0 csum;
  let l := u32 length in
  let csum := u32 (csum + u32 (Z.shiftr l 16 + Z.land l 0xffff)) in
  Ok (u32 (csum + protocol)).

(** The loop of [upperLayerChecksum] over [i < safeBoundary]. *)
Fixpoint upper_words (fuel : nat) (b : bytes) (i boundary csum : Z) : outcome Z :=
  match fuel with
  | O => Ok csum
  | S fuel =>
      if boundary <=? i then Ok csum else
      hi ← get b i;
      lo ← get b (i + 1);
      upper_words fuel b (i + 2) boundary (u32 (u32 (csum + u32 (Z.shiftl hi 8)) + lo))
  end.

Definition upperLayerChecksum (upperLayer : bytes) (csum : Z) : outcome Z :=
  let safeBoundary := len upperLayer - 1 in
  csum ← upper_words (Z.to_nat (len upperLayer)) upperLayer 0 safeBoundary csum;
  if Z.rem (len upperLayer) 2 =? 1 then
    x ← get upperLayer safeBoundary; Ok (u32 (csum + u32 (Z.shiftl x 8)))
  else Ok csum.

(** The loop runs until the sum fits 16 bits; three rounds are enough for 32. *)
Fixpoint fold_loop (fuel : nat) (csum : Z) : Z :=
  match fuel with
  | O => csum
  | S fuel => if 0xffff <? csum then fold_loop fuel (u32 (Z.shiftr csum 16 + Z.land csum 0xffff))
              else csum
  end.
Definition foldChecksum (csum : Z) : Z := Z.lxor (u16 (fold_loop 3 csum)) 0xffff.

(** [None] is the nil receiver. *)
Definition computeChecksum (s : option t) (upperLayer : bytes) (protocol : Z) : outcome Z :=
  match s with
  | None => Err (New "SCION header missing")
  | Some s =>
      csum ← pseudoHeaderChecksum s (len upperLayer) protocol;
      csum ← upperLayerChecksum upperLayer csum;
      Ok (foldChecksum csum)
  end.

End SCION.

(** * Specification and lemmas *)
Module ScionHdrLemmas.

Import AddrType SCION.

Lemma Length_range tl : 4 ≤ Length tl ≤ 16.
Proof.
  unfold Length, LineLen. change 3 with (2 ^ 2 - 1). rewrite land_ones_mod by lia.
  pose proof (Z.mod_pos_bound tl (2 ^ 2)). lia.
Qed.

Lemma AddrHdrLen_range s : 24 ≤ AddrHdrLen s ≤ 48.
Proof.
  unfold AddrHdrLen, ISDAS.IABytes.
  pose proof (Length_range (DstAddrType s)). pose proof (Length_range (SrcAddrType s)). lia.
Qed.

(** The fields fit their bits on the wire, and the raw addresses have the lengths
    that their types say. *)
Record wf_fields (s : t) : Prop := {
  wf_Version : 0 ≤ Version s < 16;
  wf_TrafficClass : is_u8 (TrafficClass s);
  wf_FlowID : 0 ≤ FlowID s < 2 ^ 20;
  wf_NextHdr : is_u8 (NextHdr s);
  wf_HdrLen : is_u8 (HdrLen s);
  wf_PayloadLen : is_u16 (PayloadLen s);
  wf_PathType : is_u8 (PathType s);
  wf_DstAddrType : 0 ≤ DstAddrType s < 16;
  wf_SrcAddrType : 0 ≤ SrcAddrType s < 16;
  wf_DstIA : is_u64 (DstIA s);
  wf_SrcIA : is_u64 (SrcIA s);
  wf_RawDstAddr : wf_bytes (RawDstAddr s) ∧ len (RawDstAddr s) = Length (DstAddrType s);
  wf_RawSrcAddr : wf_bytes (RawSrcAddr s) ∧ len (RawSrcAddr s) = Length (SrcAddrType s)
}.

Definition line (s : t) : Z := Version s * 2 ^ 28 + TrafficClass s * 2 ^ 20 + FlowID s.

Definition encode_cmn (s : t) : bytes :=
  be_bytes 4 (line s) ++ [NextHdr s; HdrLen s] ++ be_bytes 2 (PayloadLen s)
  ++ [PathType s; DstAddrType s * 16 + SrcAddrType s] ++ [0; 0].

Definition encode_addrs (s : t) : bytes :=
  be_bytes 8 (DstIA s) ++ be_bytes 8 (SrcIA s) ++ RawDstAddr s ++ RawSrcAddr s.

Lemma len_encode_cmn s : len (encode_cmn s) = CmnHdrLen.
Proof. done. Qed.

Lemma len_encode_addrs s :
  len (RawDstAddr s) = Length (DstAddrType s) → len (RawSrcAddr s) = Length (SrcAddrType s) →
  len (encode_addrs s) = AddrHdrLen s.
Proof.
  intros H1 H2. unfold encode_addrs, AddrHdrLen, ISDAS.IABytes. rewrite <- H1, <- H2. len_lia.
Qed.

Lemma land_15 x : 0 ≤ x < 16 → Z.land x 15 = x.
Proof. intros. change 15 with (2 ^ 4 - 1). rewrite land_ones_mod by lia. by apply Z.mod_small. Qed.

Lemma bind_eq {A B} (o : outcome A) (f : A → outcome B) a : o = Ok a → o ≫= f = f a.
Proof. by intros ->. Qed.

Lemma serialize_cmn_Ok s buf :
  wf_fields s → CmnHdrLen ≤ len buf →
  serialize_cmn s buf = Ok (encode_cmn s ++ drop 12 buf).
Proof.
  intros [] Hb. unfold CmnHdrLen in Hb. explode buf 12%nat. unfold serialize_cmn.
  rewrite !land_15 by done. change 0xFFFFF with (2 ^ 20 - 1).
  rewrite land_ones_mod, (Z.mod_small (FlowID s)) by lia.
  rewrite !Z.shiftl_mul_pow2 by lia.
  rewrite !(uint_of_small 32) by (split; ulia).
  rewrite (lor_disjoint_add (_ * _) _ 28) by dlia.
  rewrite (lor_disjoint_add (_ + _) _ 20) by dlia.
  rewrite (uint_of_small 8) by (split; lia).
  rewrite (lor_disjoint_add (_ * _) _ 4) by dlia. fold (line s).
  erewrite bind_eq by reflexivity. erewrite bind_eq by reflexivity.
  erewrite bind_eq by reflexivity. erewrite bind_eq by reflexivity.
  erewrite bind_eq by reflexivity. erewrite bind_eq by reflexivity. reflexivity.
Qed.

Lemma SerializeAddrHdr_Ok s buf :
  len (RawDstAddr s) = Length (DstAddrType s) → len (RawSrcAddr s) = Length (SrcAddrType s) →
  AddrHdrLen s ≤ len buf →
  SerializeAddrHdr s buf = Ok (encode_addrs s ++ drop (Z.to_nat (AddrHdrLen s)) buf).
Proof.
  intros H1 H2 Hb. unfold SerializeAddrHdr. go_guard.
  pose proof (Length_range (DstAddrType s)) as R1. pose proof (Length_range (SrcAddrType s)) as R2.
  assert (AddrHdrLen s = 16 + Length (DstAddrType s) + Length (SrcAddrType s)) as El by done.
  rewrite El in *. unfold ISDAS.IABytes. clear El.
  destruct (split_len 8 buf) as (m1 & b1 & -> & L1 & ?); [lia|].
  destruct (split_len 8 b1) as (m2 & b2 & -> & L2 & ?); [len_lia|].
  destruct (split_len (Length (DstAddrType s)) b2) as (m3 & b3 & -> & L3 & ?); [len_lia|].
  destruct (split_len (Length (SrcAddrType s)) b3) as (m4 & post & -> & L4 & ?); [len_lia|].
  unfold on_sub_from, PutUint64, encode_addrs. rewrite on_sub_whole, put_be_app by done. go_cbn.
  set (d := be_bytes 8 (DstIA s)). assert (len d = 8) as Ld by done. clearbody d.
  rewrite (on_sub_suffix d) by len_lia.
  rewrite put_be_app by done. go_cbn.
  set (e := be_bytes 8 (SrcIA s)).
  assert (len e = 8) as Le by done. clearbody e.
  rewrite (app_assoc d), (on_sub_mid (d ++ e) m3) by len_lia.
  rewrite copy_same by (unfold len in *; lia). go_cbn.
  rewrite (app_assoc (d ++ e)), (on_sub_mid ((d ++ e) ++ RawDstAddr s) m4) by len_lia.
  rewrite copy_same by (unfold len in *; lia). go_cbn.
  rewrite (app_assoc m1), (app_assoc (m1 ++ m2)), (app_assoc ((m1 ++ m2) ++ m3)).
  rewrite drop_len_app by len_lia. by rewrite <- !app_assoc.
Qed.

(** ** Decoding what was serialised *)

Lemma decode_cmn_encode s r rest :
  wf_fields s →
  decode_cmn (encode_cmn s ++ rest) r =
    (set_cmn (Version s) (TrafficClass s) (FlowID s) (NextHdr s) (HdrLen s) (PayloadLen s)
       (PathType s) (DstAddrType s) (SrcAddrType s) r, Ok tt).
Proof.
  intros []. unfold decode_cmn.
  assert (is_u32 (line s)) as Hl by (unfold line; ulia).
  assert (sub (encode_cmn s ++ rest) 0 4 ≫= Uint32 = Ok (line s)) as E1.
  { transitivity (Ok (be_val (be_bytes 4 (line s)))); [reflexivity|]. by rewrite be_val_be_bytes_32. }
  assert (sub (encode_cmn s ++ rest) 6 8 ≫= Uint16 = Ok (PayloadLen s)) as E2.
  { transitivity (Ok (be_val (be_bytes 2 (PayloadLen s)))); [reflexivity|]. by rewrite be_val_be_bytes_16. }
  rewrite (SE_bind_eq _ _ r r (line s)) by (unfold lift; by rewrite E1).
  rewrite (SE_bind_eq _ _ r r (NextHdr s)), (SE_bind_eq _ _ r r (HdrLen s)) by done.
  rewrite (SE_bind_eq _ _ r r (PayloadLen s)) by (unfold lift; by rewrite E2).
  rewrite (SE_bind_eq _ _ r r (PathType s)) by done.
  rewrite (SE_bind_eq _ _ r r (DstAddrType s * 16 + SrcAddrType s)) by done.
  unfold modify. f_equal. unfold line. change 0xF with (2 ^ 4 - 1). change 0xFF with (2 ^ 8 - 1).
  change 0xFFFFF with (2 ^ 20 - 1). unfold uint_of.
  rewrite !land_ones_mod, !Z.shiftr_div_pow2 by lia. f_equal; dlia.
Qed.

Lemma DecodeAddrHdr_encode s r rest :
  wf_fields s → DstAddrType r = DstAddrType s → SrcAddrType r = SrcAddrType s →
  DecodeAddrHdr (encode_addrs s ++ rest) r =
    (set_addrs (DstIA s) (SrcIA s) (RawDstAddr s) (RawSrcAddr s) r, Ok tt).
Proof.
  intros [] E1 E2. destruct wf_RawDstAddr0 as [_ L1], wf_RawSrcAddr0 as [_ L2].
  pose proof (len_encode_addrs s L1 L2) as El.
  assert (AddrHdrLen r = AddrHdrLen s) as Er by (unfold AddrHdrLen; by rewrite E1, E2).
  unfold DecodeAddrHdr. rewrite Er, E1, E2. unfold encode_addrs, sub_from, ISDAS.IABytes in *.
  rewrite (SE_bind_eq _ _ r r tt) by (unfold lift; replace (_ <? _) with false by len_lia; done).
  set (d := be_bytes 8 (DstIA s)) in *. set (e := be_bytes 8 (SrcIA s)) in *.
  assert (len d = 8) as Ld by done. assert (len e = 8) as Le by done.
  assert (be_val d = DstIA s) as Vd by (by apply be_val_be_bytes_64).
  assert (be_val e = SrcIA s) as Ve by (by apply be_val_be_bytes_64).
  clearbody d e. rewrite <- !app_assoc. unfold Uint64.
  rewrite (SE_bind_eq _ _ r r (DstIA s))
    by (unfold lift; rewrite sub_whole by done; go_cbn; by rewrite get_be_app, Vd).
  rewrite (SE_bind_eq _ _ r r (SrcIA s))
    by (unfold lift; rewrite (sub_suffix d) by len_lia; go_cbn; by rewrite get_be_app, Ve).
  rewrite (SE_bind_eq _ _ r r (RawDstAddr s))
    by (unfold lift; rewrite (app_assoc d), (sub_mid (d ++ e)) by len_lia; done).
  rewrite (SE_bind_eq _ _ r r (RawSrcAddr s)); [done|].
  unfold lift. rewrite (app_assoc d), (app_assoc (d ++ e)).
  by rewrite (sub_mid ((d ++ e) ++ RawDstAddr s)) by len_lia.
Qed.

(** The header that decoding [encode_cmn s ++ encode_addrs s ++ path] leaves. *)
Definition decoded_from (s : t) (p : PathInterface.Path) (contents payload : bytes) (r : t) : t :=
  set_base contents payload
    (set_Path p (set_addrs (DstIA s) (SrcIA s) (RawDstAddr s) (RawSrcAddr s)
      (set_cmn (Version s) (TrafficClass s) (FlowID s) (NextHdr s) (HdrLen s) (PayloadLen s)
         (PathType s) (DstAddrType s) (SrcAddrType s) r))).

Lemma DecodeFromBytes_encode s reg r q path rest p :
  wf_fields s → HdrLen s * LineLen = CmnHdrLen + AddrHdrLen s + len path →
  getPath reg r (PathType s) = Ok q → Decode path q = Ok p →
  DecodeFromBytes reg (encode_cmn s ++ encode_addrs s ++ path ++ rest) r =
    (decoded_from s p (encode_cmn s ++ encode_addrs s ++ path) rest r, Ok tt).
Proof.
  intros Hw Hlen Hq Hp. pose proof (decode_cmn_encode s r (encode_addrs s ++ path ++ rest) Hw) as Hc.
  set (r1 := set_cmn _ _ _ _ _ _ _ _ _ r) in *.
  pose proof (DecodeAddrHdr_encode s r1 (path ++ rest) Hw eq_refl eq_refl) as Ha.
  set (r2 := set_addrs _ _ _ _ r1) in *.
  pose proof Hw as [? ? ? ? ? ? ? ? ? ? ? [_ L1] [_ L2]].
  pose proof (len_encode_addrs s L1 L2) as El. pose proof (len_encode_cmn s) as Ec.
  pose proof (AddrHdrLen_range s).
  unfold DecodeFromBytes.
  set (c := encode_cmn s) in *. set (a := encode_addrs s) in *. clearbody c a.
  replace (len _ <? CmnHdrLen) with false by len_lia. cbn [fail_if].
  rewrite (SE_bind_eq _ _ r r tt) by done. rewrite (SE_bind_eq _ _ _ _ _ Hc).
  unfold sub_from.
  rewrite (SE_bind_eq _ _ r1 r1 (a ++ path ++ rest))
    by (unfold lift; rewrite (sub_suffix c) by len_lia; done).
  rewrite (SE_bind_eq _ _ _ _ _ Ha).
  rewrite (SE_bind_eq _ _ r2 r2 r2) by done.
  change (HdrLen r2) with (HdrLen s). change (AddrHdrLen r2) with (AddrHdrLen s).
  change (PathType r2) with (PathType s). change (getPath reg r2) with (getPath reg r).
  rewrite (SE_bind_eq _ _ r2 r2 tt) by (replace (_ <? 0) with false by (pose proof (len_nonneg path); lia); done).
  rewrite (SE_bind_eq _ _ r2 r2 tt) by (replace (_ <? _) with false by len_lia; done).
  rewrite (SE_bind_eq _ _ r2 r2 q) by (unfold lift; by rewrite Hq).
  rewrite (SE_bind_eq _ _ r2 (set_Path q r2) tt) by done.
  rewrite (SE_bind_eq _ _ (set_Path q r2) (set_Path q r2) path).
  2:{ unfold lift. rewrite (app_assoc c), (sub_mid (c ++ a)) by len_lia. done. }
  rewrite (SE_bind_eq _ _ (set_Path q r2) (set_Path q r2) p) by (unfold lift; by rewrite Hp).
  rewrite (SE_bind_eq _ _ (set_Path q r2) (set_Path p r2) tt) by done.
  rewrite (SE_bind_eq _ _ (set_Path p r2) (set_Path p r2) (c ++ a ++ path)).
  2:{ unfold lift. rewrite (app_assoc a), (app_assoc c), sub_prefix by len_lia. done. }
  rewrite (SE_bind_eq _ _ (set_Path p r2) (set_Path p r2) rest); [done|].
  unfold lift. rewrite (app_assoc a), (app_assoc c), sub_suffix by len_lia. done.
Qed.

(** ** Serialising *)

Definition with_lens (opts : SerializeOptions) (p : PathInterface.Path) (b : bytes) (s : t) : t :=
  if FixLengths opts then
    set_lens (u8 (Z.quot (CmnHdrLen + AddrHdrLen s + PathLen p) LineLen)) (u16 (len b)) s
  else s.

Lemma AddrHdrLen_with_lens opts p b s : AddrHdrLen (with_lens opts p b s) = AddrHdrLen s.
Proof. unfold with_lens. by destruct (FixLengths opts). Qed.

Lemma wf_with_lens opts p b s : wf_fields s → wf_fields (with_lens opts p b s).
Proof.
  unfold with_lens. destruct (FixLengths opts); [|done]. intros [].
  split; try done; cbn [set_lens set_cmn HdrLen PayloadLen]; by apply uint_of_range.
Qed.

Lemma SerializeTo_encode PrependBytes s p b opts :
  (∀ n, 0 ≤ n → len (PrependBytes n) = n) →
  wf_fields s → Path s = Some p → path_wf p →
  CmnHdrLen + AddrHdrLen s + PathLen p ≤ MaxHdrLen → PathLen p mod 4 = 0 →
  let s1 := with_lens opts p b s in
  ∃ p' path, SerializeTo PrependBytes b opts s =
      (set_Path p' s1, Ok (encode_cmn s1 ++ encode_addrs s1 ++ path ++ b)) ∧
    len path = PathLen p ∧ p' ≡ p ∧ wf_bytes path ∧
    (∀ q, path_compat p q → ∃ p'', Decode path q = Ok p'' ∧ p'' ≡ p) ∧
    ∃ rest, PathLen p ≤ len rest ∧ Serialize rest p = (p', Ok (path ++ drop (Z.to_nat (PathLen p)) rest)).
Proof.
  intros Hpre Hw Hs Hp Hmax Hmod s1.
  assert (wf_fields s1) as Hw1 by (by apply wf_with_lens).
  assert (AddrHdrLen s1 = AddrHdrLen s) as Ea by apply AddrHdrLen_with_lens.
  pose proof (AddrHdrLen_range s) as Hr. pose proof (path_len_nonneg p Hp) as Hpl.
  unfold SerializeTo. rewrite Hs. replace (MaxHdrLen <? _) with false by lia.
  assert (AddrHdrLen s mod 4 = 0) as Hm.
  { unfold AddrHdrLen, Length, LineLen, ISDAS.IABytes. dlia. }
  replace (negb (Z.rem (CmnHdrLen + AddrHdrLen s + PathLen p) LineLen =? 0)) with false.
  2:{ unfold CmnHdrLen, LineLen. rewrite Z.rem_mod_nonneg by lia. dlia. }
  fold (with_lens opts p b s). fold s1.
  assert (0 ≤ CmnHdrLen + AddrHdrLen s + PathLen p) as Hn by (unfold CmnHdrLen; lia).
  apply Hpre in Hn as Hlb.
  set (buf := PrependBytes _) in *. clearbody buf. unfold CmnHdrLen in *.
  rewrite serialize_cmn_Ok by (done || (unfold CmnHdrLen; lia)). go_cbn.
  pose proof (len_encode_cmn s1) as Ec. unfold CmnHdrLen in Ec.
  pose proof Hw1 as [? ? ? ? ? ? ? ? ? ? ? [_ L1] [_ L2]].
  pose proof (len_encode_addrs s1 L1 L2) as El.
  set (c := encode_cmn s1) in *. set (a := encode_addrs s1) in *.
  destruct (split_len 12 buf) as (m0 & b1 & -> & Lm0 & ?); [lia|].
  change (drop 12) with (drop (A:=Z) (Z.to_nat 12)). rewrite drop_len_app by done.
  unfold on_sub_from. rewrite (on_sub_suffix c) by len_lia.
  rewrite SerializeAddrHdr_Ok by (done || len_lia). fold a. clearbody c a. go_cbn.
  destruct (split_len (AddrHdrLen s1) b1) as (m1 & b2 & -> & Lm1 & ?); [len_lia|].
  rewrite drop_len_app by done. unfold sub_from.
  rewrite (app_assoc c), (sub_suffix (c ++ a)) by len_lia.
  destruct (path_serialize p b2 Hp) as (p' & path & Hser & Ep & Lp & Wp & Hd); [len_lia|].
  rewrite Hser. exists p', path. split_and!; [|done..|exists b2; split; [len_lia|done]].
  f_equal. go_cbn. rewrite (on_sub_suffix (c ++ a)) by len_lia. go_cbn. f_equal.
  rewrite drop_all, app_nil_r by len_lia. by rewrite <- !app_assoc.
Qed.

(** ** Decoding any bytes *)

Lemma get_wf b i : wf_bytes b → 0 ≤ i < len b → ∃ x, get b i = Ok x ∧ is_u8 x.
Proof.
  intros Hb Hi. unfold len in Hi. destruct (lookup_lt_is_Some_2 b (Z.to_nat i)) as [x Hx]; [lia|].
  exists x. split; [apply get_Ok; [lia|done]|]. by eapply Forall_lookup_1.
Qed.

Lemma sub_be_wf n b lo hi :
  wf_bytes b → 0 ≤ lo → hi = lo + Z.of_nat n → hi ≤ len b →
  ∃ v, sub b lo hi ≫= get_be n = Ok v ∧ 0 ≤ v < 256 ^ Z.of_nat n.
Proof.
  intros Hb Hlo -> Hhi. rewrite sub_Ok by lia. go_cbn.
  set (c := take _ _). assert (length c = n) as Hc.
  { unfold c. rewrite length_take, length_drop. unfold len in Hhi. lia. }
  rewrite get_be_Ok by (unfold len; lia). rewrite take_ge by lia. eexists. split; [done|].
  pose proof (be_val_range c) as H. unfold len in H. rewrite Hc in H. apply H.
  unfold c. auto with go.
Qed.

Lemma get_be_wf n b lo :
  wf_bytes b → 0 ≤ lo → lo + Z.of_nat n ≤ len b →
  ∃ v, sub b lo (len b) ≫= get_be n = Ok v ∧ 0 ≤ v < 256 ^ Z.of_nat n.
Proof.
  intros Hb Hlo Hhi. rewrite sub_Ok by lia. go_cbn.
  set (c := take _ _). assert (len c = len b - lo) as Hc by (unfold c; len_lia).
  rewrite get_be_Ok by lia. eexists. split; [done|].
  pose proof (be_val_range (take n c)) as H.
  replace (len (take n c)) with (Z.of_nat n) in H by (rewrite len_take; lia). apply H.
  unfold c. auto with go.
Qed.

Lemma decode_cmn_any data r :
  wf_bytes data → CmnHdrLen ≤ len data →
  ∃ v tc fl nh hl pl pt d s, decode_cmn data r = (set_cmn v tc fl nh hl pl pt d s r, Ok tt) ∧
    0 ≤ v < 16 ∧ is_u8 tc ∧ 0 ≤ fl < 2 ^ 20 ∧ is_u8 nh ∧ is_u8 hl ∧ is_u16 pl ∧ is_u8 pt ∧
    0 ≤ d < 16 ∧ 0 ≤ s < 16.
Proof.
  intros Hb Hl. unfold CmnHdrLen in Hl. unfold decode_cmn, Uint32, Uint16.
  destruct (sub_be_wf 4 data 0 4) as (fl & E1 & R1); [done|lia|lia|lia|].
  destruct (get_wf data 4) as (nh & E2 & R2); [done|lia|].
  destruct (get_wf data 5) as (hl & E3 & R3); [done|lia|].
  destruct (sub_be_wf 2 data 6 8) as (pl & E4 & R4); [done|lia|lia|lia|].
  destruct (get_wf data 8) as (pt & E5 & R5); [done|lia|].
  destruct (get_wf data 9) as (b9 & E6 & R6); [done|lia|].
  change (256 ^ Z.of_nat 4) with 4294967296 in R1. change (256 ^ Z.of_nat 2) with 65536 in R4.
  rewrite (SE_bind_eq _ _ r r fl) by (unfold lift; by rewrite E1).
  rewrite (SE_bind_eq _ _ r r nh) by (unfold lift; by rewrite E2).
  rewrite (SE_bind_eq _ _ r r hl) by (unfold lift; by rewrite E3).
  rewrite (SE_bind_eq _ _ r r pl) by (unfold lift; by rewrite E4).
  rewrite (SE_bind_eq _ _ r r pt) by (unfold lift; by rewrite E5).
  rewrite (SE_bind_eq _ _ r r b9) by (unfold lift; by rewrite E6).
  do 9 eexists. split; [reflexivity|].
  change 0xF with (2 ^ 4 - 1). change 0xFF with (2 ^ 8 - 1). change 0xFFFFF with (2 ^ 20 - 1).
  unfold uint_of. rewrite !land_ones_mod, !Z.shiftr_div_pow2 by lia.
  split_and!; try done; try dlia.
Qed.

Lemma DecodeAddrHdr_any data r :
  wf_bytes data → AddrHdrLen r ≤ len data →
  ∃ d s rd rs, DecodeAddrHdr data r = (set_addrs d s rd rs r, Ok tt) ∧
    is_u64 d ∧ is_u64 s ∧ (wf_bytes rd ∧ len rd = Length (DstAddrType r)) ∧
    (wf_bytes rs ∧ len rs = Length (SrcAddrType r)).
Proof.
  intros Hb Hl. unfold DecodeAddrHdr.
  rewrite (SE_bind_eq _ _ r r tt) by (unfold lift; replace (_ <? _) with false by lia; done).
  pose proof (Length_range (DstAddrType r)). pose proof (Length_range (SrcAddrType r)).
  unfold AddrHdrLen, ISDAS.IABytes, Uint64, sub_from in *.
  destruct (get_be_wf 8 data 0) as (d & E1 & R1); [done|lia|lia|].
  destruct (get_be_wf 8 data (0 + 8)) as (s & E2 & R2); [done|lia|lia|].
  rewrite (SE_bind_eq _ _ r r d) by (unfold lift; by rewrite E1).
  rewrite (SE_bind_eq _ _ r r s) by (unfold lift; by rewrite E2).
  eexists d, s, _, _.
  rewrite (SE_bind_eq _ _ r r _) by (unfold lift; rewrite sub_Ok by lia; reflexivity).
  rewrite (SE_bind_eq _ _ r r _) by (unfold lift; rewrite sub_Ok by lia; reflexivity).
  split; [reflexivity|]. split_and!; [done|done|auto with go|len_lia|auto with go|len_lia].
Qed.

Lemma getPath_no_panic reg r pt : 0 ≤ pt → no_panic (getPath reg r pt).
Proof.
  intros. unfold getPath, Registry.NewPath. destruct (pathPool r) as [[pool raw]|].
  - destruct (Z.ltb_spec pt (len pool)); [apply get_no_panic; lia|done].
  - repeat case_match; done.
Qed.

(** What a successful decode establishes. *)
Record decoded (data : bytes) (s : t) : Prop := {
  decoded_fields : wf_fields s;
  decoded_path : ∃ p, Path s = Some p ∧ path_wf p ∧
    CmnHdrLen + AddrHdrLen s + PathLen p ≤ HdrLen s * LineLen;
  decoded_split : Contents s ++ Payload s = data;
  decoded_HdrLen : len (Contents s) = HdrLen s * LineLen;
  decoded_at : ∃ pre b q, data = pre ++ b ++ Payload s ∧ len pre = CmnHdrLen + AddrHdrLen s ∧
    len (pre ++ b) = HdrLen s * LineLen ∧ Some <$> Decode b q = Ok (Path s)
}.

Lemma DecodeFromBytes_any reg data r :
  wf_bytes data →
  match DecodeFromBytes reg data r with
  | (s, Ok _) => decoded data s
  | (_, Err _) => True
  | (_, Panic) => False
  end.
Proof.
  intros Hb. unfold DecodeFromBytes. destruct (Z.ltb_spec (len data) CmnHdrLen) as [|Hl]; [done|].
  rewrite (SE_bind_eq _ _ r r tt) by done.
  destruct (decode_cmn_any data r Hb Hl)
    as (v & tc & fl & nh & hl & pl & pt & d & s & Ec & ? & ? & ? & ? & ? & ? & ? & ? & ?).
  rewrite (SE_bind_eq _ _ _ _ _ Ec). set (r1 := set_cmn _ _ _ _ _ _ _ _ _ r) in *.
  destruct (split_len CmnHdrLen data) as (c & rest & -> & Lc & Lrest); [unfold CmnHdrLen in *; lia|].
  apply wf_bytes_app in Hb as [Hbc Hbr]. pose proof (AddrHdrLen_range r1) as Hr.
  unfold sub_from. rewrite (SE_bind_eq _ _ r1 r1 rest)
    by (unfold lift; rewrite (sub_suffix c) by len_lia; done).
  destruct (Z.ltb_spec (len rest) (AddrHdrLen r1)) as [Hs|Hs].
  { unfold DecodeAddrHdr. unfold mbind at 1, SE_bind at 1. unfold mbind at 1, SE_bind at 1, lift at 1.
    by replace (len rest <? AddrHdrLen r1) with true by lia. }
  destruct (DecodeAddrHdr_any rest r1 Hbr Hs) as (di & si & rd & rs & Ea & ? & ? & [? ?] & [? ?]).
  rewrite (SE_bind_eq _ _ _ _ _ Ea). set (r2 := set_addrs _ _ _ _ r1) in *.
  rewrite (SE_bind_eq _ _ r2 r2 r2) by done.
  change (AddrHdrLen r2) with (AddrHdrLen r1).
  set (pathLen := HdrLen r2 * LineLen - CmnHdrLen - AddrHdrLen r1).
  destruct (Z.ltb_spec pathLen 0) as [|Hpl]; [done|]. rewrite (SE_bind_eq _ _ r2 r2 tt) by done.
  destruct (Z.ltb_spec (len (c ++ rest)) (CmnHdrLen + AddrHdrLen r1 + pathLen)) as [|Hle]; [done|].
  rewrite (SE_bind_eq _ _ r2 r2 tt) by done.
  assert (no_panic (getPath reg r2 (PathType r2))) as Hq.
  { apply getPath_no_panic. change (PathType r2) with pt. ulia. }
  destruct (getPath reg r2 (PathType r2)) as [q| |] eqn:Eq; [|done|done].
  rewrite (SE_bind_eq _ _ r2 r2 q) by done. rewrite (SE_bind_eq _ _ r2 (set_Path q r2) tt) by done.
  destruct (split_len (AddrHdrLen r1 + pathLen) rest) as (ap & payload & -> & Lap & Lp); [len_lia|].
  destruct (split_len (AddrHdrLen r1) ap) as (a & path & -> & La & Lpath); [lia|].
  apply wf_bytes_app in Hbr as [[_ Hbp]%wf_bytes_app _].
  rewrite (SE_bind_eq _ _ (set_Path q r2) (set_Path q r2) path).
  2:{ unfold lift. rewrite <- (app_assoc a), (app_assoc c), (sub_mid (c ++ a)) by len_lia. done. }
  pose proof (path_decode path q Hbp) as Hd.
  destruct (Decode path q) as [p| |] eqn:Ed; [|done..]. destruct Hd as (Hwp & Hlp & _).
  rewrite (SE_bind_eq _ _ (set_Path q r2) (set_Path q r2) p) by done.
  rewrite (SE_bind_eq _ _ (set_Path q r2) (set_Path p r2) tt) by done.
  rewrite (SE_bind_eq _ _ (set_Path p r2) (set_Path p r2) (c ++ a ++ path)).
  2:{ unfold lift. rewrite (app_assoc c), sub_prefix by (unfold pathLen in *; len_lia). done. }
  rewrite (SE_bind_eq _ _ (set_Path p r2) (set_Path p r2) payload).
  2:{ unfold lift. rewrite (app_assoc c), sub_suffix by (unfold pathLen in *; len_lia). done. }
  unfold modify. split.
  - by split.
  - exists p. split_and!; [done|done|]. unfold pathLen in *.
    change (AddrHdrLen (set_base (c ++ a ++ path) payload (set_Path p r2))) with (AddrHdrLen r1).
    change (HdrLen (set_base (c ++ a ++ path) payload (set_Path p r2))) with (HdrLen r2). len_lia.
  - cbn. by rewrite <- !app_assoc.
  - change (HdrLen (set_base (c ++ a ++ path) payload (set_Path p r2))) with (HdrLen r2).
    cbn [Contents set_base]. unfold pathLen in *. len_lia.
  - exists (c ++ a), path, q. change (AddrHdrLen (set_base (c ++ a ++ path) payload (set_Path p r2))) with (AddrHdrLen r1).
    change (HdrLen (set_base (c ++ a ++ path) payload (set_Path p r2))) with (HdrLen r2).
    split_and!; [by cbn; rewrite <- !app_assoc|len_lia|unfold pathLen in *; len_lia|by rewrite Ed].
Qed.

End ScionHdrLemmas.

(** * The checksum *)
Module Checksum.

Import SCION ScionHdrLemmas.

(** The sum of the 16-bit big-endian words; an odd last byte is a high byte. *)
Fixpoint words (b : bytes) : Z :=
  match b with
  | x :: y :: r => x * 256 + y + words r
  | [x] => x * 256
  | [] => 0
  end.

Lemma words_ind (Q : bytes → Prop) :
  Q [] → (∀ x, Q [x]) → (∀ x y r, Q r → Q (x :: y :: r)) → ∀ b, Q b.
Proof.
  intros H0 H1 H2 b. assert (Q b ∧ ∀ x, Q (x :: b)) as [H _]; [|done].
  induction b as [|y b [IH1 IH2]]; [by split|]. split; [done|]. intros x. by apply H2.
Qed.

Lemma words_range b : wf_bytes b → 0 ≤ words b ∧ 2 * words b ≤ 65535 * (len b + 1).
Proof.
  induction b as [|x|x y r IH] using words_ind; intros Hb; cbn [words].
  - done.
  - wf_elems Hb. rewrite len_cons. change (len (@nil Z)) with 0. ulia.
  - wf_elems Hb. destruct (IH Hb). rewrite !len_cons. ulia.
Qed.

Lemma words_app a b : len a mod 2 = 0 → words (a ++ b) = words a + words b.
Proof.
  induction a as [|x|x y r IH] using words_ind; intros H; [done|done|].
  rewrite !len_cons in H. cbn [app words]. rewrite IH by dlia. lia.
Qed.

Lemma u32_add a b : 0 ≤ a → 0 ≤ b → a + b < 2 ^ 32 → u32 (a + b) = a + b.
Proof. intros. apply uint_of_small. split; lia. Qed.

Lemma u32_shl x : is_u8 x → u32 (Z.shiftl x 8) = x * 256.
Proof. intros. rewrite Z.shiftl_mul_pow2 by lia. apply uint_of_small. ulia. Qed.

Lemma sum_words_Ok fuel pre b csum :
  len b mod 2 = 0 → wf_bytes b → (length b ≤ fuel)%nat → 0 ≤ csum → csum + words b < 2 ^ 32 →
  sum_words fuel (pre ++ b) (len pre) csum = Ok (csum + words b).
Proof.
  revert fuel pre csum. induction b as [|x|x y r IH] using words_ind; intros fuel pre csum Hm Hb Hf Hc Hlt.
  - rewrite app_nil_r. destruct fuel; cbn [sum_words words]; [f_equal; lia|].
    replace (len pre <=? len pre) with true by lia. f_equal. lia.
  - done.
  - wf_elems Hb. destruct fuel as [|fuel]; [simpl in Hf; lia|]. cbn [sum_words].
    destruct (words_range r Hb) as [Hr _]. cbn [words] in *. uint_bounds.
    replace (_ <=? _) with false by len_lia.
    rewrite (get_app pre x _ (len pre)) by done. go_cbn.
    rewrite u32_shl, (u32_add csum (x * 256)) by ulia.
    replace (pre ++ x :: y :: r) with ((pre ++ [x]) ++ y :: r) by (by rewrite <- app_assoc).
    rewrite (get_app (pre ++ [x])) by len_lia. go_cbn. rewrite u32_add by lia.
    replace ((pre ++ [x]) ++ y :: r) with ((pre ++ [x; y]) ++ r) by (by rewrite <- !app_assoc).
    replace (len pre + 2) with (len (pre ++ [x; y])) by len_lia.
    rewrite IH; [f_equal; lia|rewrite !len_cons in Hm; dlia|done|simpl in Hf; lia|lia|lia].
Qed.

Lemma upper_words_Ok fuel pre b csum :
  wf_bytes b → (length b ≤ fuel)%nat → 0 ≤ csum → csum + words b < 2 ^ 32 →
  upper_words fuel (pre ++ b) (len pre) (len (pre ++ b) - 1) csum =
    Ok (csum + words (take (2 * Nat.div2 (length b)) b)).
Proof.
  revert fuel pre csum. induction b as [|x|x y r IH] using words_ind; intros fuel pre csum Hb Hf Hc Hlt.
  - rewrite app_nil_r. destruct fuel; cbn [upper_words]; [f_equal; cbn; lia|].
    replace (_ <=? _) with true by lia. f_equal. cbn. lia.
  - destruct fuel as [|fuel]; [simpl in Hf; lia|]. cbn [upper_words].
    replace (_ <=? _) with true by len_lia. f_equal. cbn. lia.
  - wf_elems Hb. destruct fuel as [|fuel]; [simpl in Hf; lia|]. cbn [upper_words].
    destruct (words_range r Hb) as [Hr _]. cbn [words] in Hlt. uint_bounds.
    replace (_ <=? _) with false by len_lia.
    rewrite (get_app pre x _ (len pre)) by done. go_cbn.
    rewrite u32_shl, (u32_add csum (x * 256)) by ulia.
    assert (∀ l, pre ++ x :: y :: r = l → get l (len pre + 1) = Ok y) as Hg.
    { intros l <-. replace (pre ++ x :: y :: r) with ((pre ++ [x]) ++ y :: r) by (by rewrite <- app_assoc).
      apply get_app. len_lia. }
    rewrite Hg by done. go_cbn. rewrite u32_add by lia.
    replace (pre ++ x :: y :: r) with ((pre ++ [x; y]) ++ r) by (by rewrite <- !app_assoc).
    replace (len pre + 2) with (len (pre ++ [x; y])) by len_lia.
    rewrite IH; [|done|simpl in Hf; lia|lia|lia].
    cbn [length Nat.div2]. replace (2 * S (Nat.div2 (length r)))%nat
      with (S (S (2 * Nat.div2 (length r)))) by lia.
    cbn [take firstn words]. f_equal. lia.
Qed.

Lemma words_snoc_odd b x : len b mod 2 = 0 → words (b ++ [x]) = words b + x * 256.
Proof. intros. by rewrite words_app. Qed.

Lemma upperLayerChecksum_Ok b csum :
  wf_bytes b → 0 ≤ csum → csum + words b < 2 ^ 32 →
  upperLayerChecksum b csum = Ok (csum + words b).
Proof.
  intros Hb Hc Hlt. unfold upperLayerChecksum.
  pose proof (upper_words_Ok (length b) [] b csum Hb ltac:(lia) Hc Hlt) as E.
  cbn [app] in E. change (len []) with 0 in E. replace (Z.to_nat (len b)) with (length b) by (unfold len; lia).
  rewrite E. go_cbn. clear E.
  rewrite Z.rem_mod_nonneg by (pose proof (len_nonneg b); lia).
  pose proof (Nat.div2_odd (length b)) as Ho.
  destruct (Nat.odd (length b)); cbn [Nat.b2n] in Ho.
  - destruct b as [|x b _] using rev_ind; [done|]. rewrite length_app in Ho. simpl in Ho.
    assert (2 * Nat.div2 (length (b ++ [x])) = length b)%nat as Hl by (rewrite length_app; simpl; lia).
    rewrite Hl, take_app_length. apply wf_bytes_app in Hb as [Hb Hx]. wf_elems Hx.
    assert (len b mod 2 = 0) as Hm by (unfold len; dlia).
    replace (_ =? 1) with true by (rewrite len_app; change (len [x]) with 1; dlia).
    rewrite get_app by (rewrite len_app; change (len [x]) with 1; lia). go_cbn.
    rewrite words_snoc_odd in * by done. destruct (words_range b Hb).
    rewrite u32_shl, u32_add by ulia. f_equal. lia.
  - replace (_ =? 1) with false by (unfold len; dlia). rewrite take_ge by lia. done.
Qed.

(** ** The pseudo header *)

Definition pseudo (s : t) (length protocol : Z) : Z :=
  words (be_bytes 8 (SrcIA s)) + words (be_bytes 8 (DstIA s)) +
  words (RawSrcAddr s) + words (RawDstAddr s) + (length / 65536 + length mod 65536) + protocol.

Lemma Length_even tl : AddrType.Length tl mod 2 = 0.
Proof. unfold AddrType.Length, AddrType.LineLen. dlia. Qed.

Lemma pseudo_range s length protocol :
  wf_fields s → 0 ≤ length < 2 ^ 32 → is_u8 protocol →
  0 ≤ pseudo s length protocol < 2000000.
Proof.
  intros [? ? ? ? ? ? ? ? ? ? ? [W1 L1] [W2 L2]] Hl Hp. unfold pseudo.
  pose proof (words_range _ (wf_be_bytes 8 (SrcIA s))) as [? R1].
  pose proof (words_range _ (wf_be_bytes 8 (DstIA s))) as [? R2].
  pose proof (words_range _ W1) as [? R3]. pose proof (words_range _ W2) as [? R4].
  pose proof (Length_range (DstAddrType s)). pose proof (Length_range (SrcAddrType s)).
  rewrite L1 in R3. rewrite L2 in R4. rewrite !len_be_bytes in *. dlia.
Qed.

(** Removes the wrap-around of 32-bit sums that do not overflow, innermost first. *)
Ltac u32_adds :=
  repeat match goal with |- context [u32 (?a + ?b)] =>
    lazymatch a with context [u32 _] => fail | _ => rewrite (u32_add a b) by lia end end.

(** The loop of [pseudoHeaderChecksum] over the two ISD-AS numbers. *)
Lemma ia_words_Ok sb db :
  wf_bytes sb → wf_bytes db → length sb = 8%nat → length db = 8%nat →
  foldl (λ acc i,
      csum ← acc;
      s0 ← get sb i; s1 ← get sb (i + 1);
      d0 ← get db i; d1 ← get db (i + 1);
      let csum := u32 (csum + u32 (Z.shiftl s0 8)) in
      let csum := u32 (csum + s1) in
      let csum := u32 (csum + u32 (Z.shiftl d0 8)) in
      Ok (u32 (csum + d1))) (Ok 0) [0; 2; 4; 6] = Ok (words sb + words db).
Proof.
  intros B1 B2 N1 N2.
  do 8 (destruct sb as [|? sb]; [done|]). destruct sb; [|done].
  do 8 (destruct db as [|? db]; [done|]). destruct db; [|done].
  wf_elems B1. wf_elems B2. cbn [words foldl].
  repeat match goal with |- context [get ?l ?i] =>
    let r := eval vm_compute in (get l i) in
    let E := fresh in assert (get l i = r) as E by reflexivity; rewrite E; clear E end.
  go_cbn. rewrite !u32_shl by done. uint_bounds.
  u32_adds.
  f_equal. lia.
Qed.

Lemma sum_words_all b csum :
  len b mod 2 = 0 → wf_bytes b → 0 ≤ csum → csum + words b < 2 ^ 32 →
  sum_words (Z.to_nat (len b)) b 0 csum = Ok (csum + words b).
Proof.
  intros Hm Hb Hc Hlt. pose proof (sum_words_Ok (Z.to_nat (len b)) [] b csum) as E.
  cbn [app] in E. change (len []) with 0 in E. apply E; try done. unfold len. lia.
Qed.

Lemma length_words x : is_u32 x → u32 (Z.shiftr x 16 + Z.land x 0xffff) = x / 65536 + x mod 65536.
Proof.
  intros Hx. change 0xffff with (2 ^ 16 - 1). rewrite land_ones_mod, Z.shiftr_div_pow2 by lia.
  change (2 ^ 16) with 65536. apply uint_of_small. split; dlia.
Qed.

Lemma pseudoHeaderChecksum_Ok s length protocol :
  wf_fields s → 0 ≤ length < 2 ^ 32 → is_u8 protocol →
  pseudoHeaderChecksum s length protocol = Ok (pseudo s length protocol).
Proof.
  intros Hw Hlen Hp. pose proof (pseudo_range s length protocol Hw Hlen Hp) as Hr.
  destruct Hw as [? ? ? ? ? ? ? ? ? ? ? [W1 L1] [W2 L2]].
  pose proof (Length_range (DstAddrType s)). pose proof (Length_range (SrcAddrType s)).
  pose proof (words_range _ W1) as [? _]. pose proof (words_range _ W2) as [? _].
  unfold pseudoHeaderChecksum, pseudo in *.
  rewrite (bind_eq _ _ tt) by (by replace (_ =? _) with false by lia). cbn beta.
  rewrite (bind_eq _ _ tt) by (by replace (_ =? _) with false by lia). cbn beta zeta.
  pose proof (wf_be_bytes 8 (SrcIA s)) as B1. pose proof (wf_be_bytes 8 (DstIA s)) as B2.
  pose proof (words_range _ B1) as [? _]. pose proof (words_range _ B2) as [? _].
  assert (0 ≤ length / 65536 ∧ 0 ≤ length mod 65536) as [] by dlia.
  rewrite (bind_eq _ _ _ (ia_words_Ok _ _ B1 B2 eq_refl eq_refl)). cbn beta. uint_bounds.
  rewrite (bind_eq _ _ (words (be_bytes 8 (SrcIA s)) + words (be_bytes 8 (DstIA s)) + words (RawSrcAddr s)));
    [cbn beta|apply sum_words_all; [rewrite L2; apply Length_even|done|lia|lia]].
  rewrite (bind_eq _ _ (words (be_bytes 8 (SrcIA s)) + words (be_bytes 8 (DstIA s))
                        + words (RawSrcAddr s) + words (RawDstAddr s)));
    [cbn beta|apply sum_words_all; [rewrite L1; apply Length_even|done|lia|lia]].
  rewrite (uint_of_small 32 length) by (split; lia). rewrite length_words by (split; lia).
  u32_adds. done.
Qed.

(** ** Folding *)

(** The sum folded to 16 bits: the representative of its class modulo [2^16-1],
    with 0 only for 0. *)
Definition folded (x : Z) : Z := if x =? 0 then 0 else (x - 1) mod 65535 + 1.

Lemma folded_small x : 0 ≤ x ≤ 65535 → folded x = x.
Proof.
  intros. unfold folded. destruct (Z.eqb_spec x 0); [lia|]. rewrite Z.mod_small; lia.
Qed.

Lemma folded_step x : 0 < x → folded (x / 65536 + x mod 65536) = folded x.
Proof.
  intros Hx. unfold folded. destruct (Z.eqb_spec (x / 65536 + x mod 65536) 0); [dlia|].
  destruct (Z.eqb_spec x 0); [lia|]. f_equal.
  pose proof (Z.div_mod x 65536 ltac:(lia)) as E.
  replace (x - 1) with (x / 65536 + x mod 65536 - 1 + x / 65536 * 65535) by lia.
  by rewrite Z.mod_add by lia.
Qed.

Lemma fold_loop_eq x : is_u32 x → fold_loop 3 x = folded x.
Proof.
  intros Hx. cbn [fold_loop]. destruct (Z.ltb_spec 0xffff x); [|rewrite folded_small by ulia; done].
  rewrite length_words by done. rewrite <- (folded_step x) by lia.
  assert (0 ≤ x / 65536 + x mod 65536 ≤ 131070) as H1 by dlia.
  set (y := x / 65536 + x mod 65536) in *. clearbody y.
  destruct (Z.ltb_spec 0xffff y); [|rewrite folded_small by lia; done].
  rewrite length_words by ulia. rewrite <- (folded_step y) by lia.
  assert (0 ≤ y / 65536 + y mod 65536 ≤ 65535) as H2 by dlia.
  set (v := y / 65536 + y mod 65536) in *. clearbody v.
  replace (0xffff <? v) with false by lia. by rewrite folded_small.
Qed.

Lemma folded_range x : 0 ≤ x → 0 ≤ folded x ≤ 65535.
Proof. intros. unfold folded. destruct (x =? 0); [lia|]. pose proof (Z.mod_pos_bound (x - 1) 65535). lia. Qed.

Lemma lxor_ones x : 0 ≤ x ≤ 65535 → Z.lxor x 0xffff = 65535 - x.
Proof.
  intros H. assert (Z.lxor x 65535 = Z.ldiff 65535 x) as ->.
  { apply Z.bits_inj'. intros i Hi. rewrite Z.lxor_spec, Z.ldiff_spec.
    change 65535 with (Z.ones 16). destruct (decide (i < 16)).
    - rewrite Z.ones_spec_low by lia. by destruct (Z.testbit x i).
    - rewrite Z.ones_spec_high by lia. replace (Z.testbit x i) with false; [done|].
      rewrite Z.bits_above_log2; [done|lia|]. destruct (decide (x = 0)) as [->|]; [cbn; lia|].
      apply Z.log2_lt_pow2; [lia|]. assert (2 ^ 16 ≤ 2 ^ i) by (apply Z.pow_le_mono_r; lia). lia. }
  symmetry. apply Z.sub_nocarry_ldiff. apply Z.bits_inj'. intros i Hi.
  rewrite Z.ldiff_spec, Z.bits_0. change 65535 with (Z.ones 16). destruct (decide (i < 16)).
  - rewrite Z.ones_spec_low by lia. by rewrite andb_false_r.
  - rewrite Z.ones_spec_high by lia. replace (Z.testbit x i) with false; [done|].
    rewrite Z.bits_above_log2; [done|lia|]. destruct (decide (x = 0)) as [->|]; [cbn; lia|].
    apply Z.log2_lt_pow2; [lia|]. assert (2 ^ 16 ≤ 2 ^ i) by (apply Z.pow_le_mono_r; lia). lia.
Qed.

Lemma foldChecksum_eq x : is_u32 x → foldChecksum x = 65535 - folded x.
Proof.
  intros Hx. unfold foldChecksum. rewrite fold_loop_eq by done.
  pose proof (folded_range x ltac:(ulia)). rewrite uint_of_small by ulia. by rewrite lxor_ones.
Qed.

Lemma computeChecksum_Ok s b protocol :
  wf_fields s → wf_bytes b → len b ≤ 65535 → is_u8 protocol →
  computeChecksum (Some s) b protocol =
    Ok (65535 - folded (pseudo s (len b) protocol + words b)) ∧
  0 ≤ pseudo s (len b) protocol + words b < 2 ^ 32 - 65536.
Proof.
  intros Hw Hb Hl Hp. pose proof (len_nonneg b).
  pose proof (pseudo_range s (len b) protocol Hw ltac:(lia) Hp).
  pose proof (words_range b Hb).
  unfold computeChecksum. rewrite pseudoHeaderChecksum_Ok by (done || lia). go_cbn.
  rewrite upperLayerChecksum_Ok by (done || lia). go_cbn.
  rewrite foldChecksum_eq by ulia. split; [done|lia].
Qed.

Lemma folded_mod x : 0 < x → folded x mod 65535 = x mod 65535.
Proof. intros. unfold folded. destruct (Z.eqb_spec x 0); [lia|]. dlia. Qed.

Lemma words_insert b1 v b2 :
  len b1 mod 2 = 0 → is_u16 v → words (b1 ++ be_bytes 2 v ++ b2) = words b1 + v + words b2.
Proof.
  intros H1 Hv. rewrite words_app by done. rewrite words_app by done.
  assert (words (be_bytes 2 v) = v) as ->; [|lia].
  transitivity (be_val (be_bytes 2 v)); [|by apply be_val_be_bytes_16].
  pose proof (length_be_bytes 2 v) as L. destruct (be_bytes 2 v) as [|x [|y [|]]]; try done.
  unfold be_val. cbn [words fold_left]. lia.
Qed.

(** The checksum with the field at an even offset set to [v]. *)
Lemma checksum_field s b1 b2 protocol v :
  wf_fields s → wf_bytes b1 → wf_bytes b2 → len b1 mod 2 = 0 → len b1 + 2 + len b2 ≤ 65535 →
  is_u8 protocol → is_u16 v →
  let X := pseudo s (len b1 + 2 + len b2) protocol + words b1 + words b2 in
  0 ≤ X ∧ computeChecksum (Some s) (b1 ++ be_bytes 2 v ++ b2) protocol = Ok (65535 - folded (X + v)).
Proof.
  intros Hw H1 H2 Hm Hl Hp Hv X.
  assert (wf_bytes (b1 ++ be_bytes 2 v ++ b2) ∧ len (b1 ++ be_bytes 2 v ++ b2) = len b1 + 2 + len b2) as [Hwf Hlen].
  { rewrite !wf_bytes_app, !len_app, len_be_bytes. split_and!; auto using wf_be_bytes. lia. }
  pose proof (words_range b1 H1) as [R1 _]. pose proof (words_range b2 H2) as [R2 _].
  pose proof (len_nonneg b1). pose proof (len_nonneg b2).
  pose proof (pseudo_range s (len b1 + 2 + len b2) protocol Hw ltac:(lia) Hp). split; [unfold X; lia|].
  destruct (computeChecksum_Ok s _ protocol Hw Hwf ltac:(lia) Hp) as [-> _].
  rewrite Hlen, words_insert by done. unfold X. do 3 f_equal. lia.
Qed.

Lemma folded_complement X : 0 ≤ X → 65535 - folded (X + (65535 - folded X)) = 0.
Proof.
  intros HX. pose proof (folded_range X HX). destruct (decide (X = 0)) as [->|]; [done|].
  pose proof (folded_mod X ltac:(lia)).
  assert ((X + (65535 - folded X)) mod 65535 = 0) by dlia.
  set (Y := X + (65535 - folded X)) in *. assert (0 < Y) by lia.
  unfold folded. destruct (Z.eqb_spec Y 0); [lia|]. dlia.
Qed.

Lemma folded_full X : 0 ≤ X → folded X = 65535 → 0 < X ∧ X mod 65535 = 0.
Proof.
  intros HX E. assert (0 < X).
  { destruct (decide (X = 0)) as [E0|]; [by rewrite E0 in E|lia]. }
  split; [done|]. rewrite <- folded_mod by done. by rewrite E.
Qed.

(** Storing the checksum makes the checksum zero. *)
Lemma checksum_insert s b1 b2 protocol :
  wf_fields s → wf_bytes b1 → wf_bytes b2 → len b1 mod 2 = 0 → len b1 + 2 + len b2 ≤ 65535 →
  is_u8 protocol →
  ∃ c, computeChecksum (Some s) (b1 ++ be_bytes 2 0 ++ b2) protocol = Ok c ∧ is_u16 c ∧
    computeChecksum (Some s) (b1 ++ be_bytes 2 c ++ b2) protocol = Ok 0.
Proof.
  intros Hw H1 H2 Hm Hl Hp.
  destruct (checksum_field s b1 b2 protocol 0 Hw H1 H2 Hm Hl Hp ltac:(done)) as [HX ->].
  set (X := _ + words b2) in *. rewrite Z.add_0_r. pose proof (folded_range X HX).
  assert (is_u16 (65535 - folded X)) as Hc by ulia.
  destruct (checksum_field s b1 b2 protocol _ Hw H1 H2 Hm Hl Hp Hc) as [_ E]. fold X in E.
  eexists. split_and!; [done|done|]. rewrite E. f_equal. by apply folded_complement.
Qed.

End Checksum.

(** * Properties *)
Module ScionHdrProperties.

Import AddrType SCION ScionHdrLemmas Checksum.

Lemma header_survives PrependBytes reg s r p q b opts :
  (∀ n, 0 ≤ n → len (PrependBytes n) = n) →
  wf_fields s → Path s = Some p → any_path_wf p →
  CmnHdrLen + AddrHdrLen s + PathLen p ≤ MaxHdrLen → PathLen p mod 4 = 0 →
  FixLengths opts = true → getPath reg r (PathType s) = Ok q → any_path_compat p q →
  ∃ s' out d p', SerializeTo PrependBytes b opts s = (s', Ok (out ++ b)) ∧
    DecodeFromBytes reg (out ++ b) r = (d, Ok tt) ∧
    (Version d, TrafficClass d, FlowID d, NextHdr d, PathType d) =
      (Version s, TrafficClass s, FlowID s, NextHdr s, PathType s) ∧
    (DstAddrType d, SrcAddrType d, DstIA d, SrcIA d, RawDstAddr d, RawSrcAddr d) =
      (DstAddrType s, SrcAddrType s, DstIA s, SrcIA s, RawDstAddr s, RawSrcAddr s) ∧
    Path d = Some p' ∧ p' ≡ p ∧ Contents d = out ∧ Payload d = b ∧
    HdrLen d * LineLen = len out ∧ PayloadLen d = u16 (len b).
Proof.
  intros Hpre Hw Hs Hp Hmax Hmod Hfix Hq Hc.
  destruct (SerializeTo_encode PrependBytes s p b opts Hpre Hw Hs Hp Hmax Hmod)
    as (p' & path & Hser & Lp & _ & _ & Hd & _).
  set (s1 := with_lens opts p b s) in *. destruct (Hd q Hc) as (p'' & Hdec & Ep).
  assert (s1 = set_lens (u8 (Z.quot (CmnHdrLen + AddrHdrLen s + PathLen p) LineLen)) (u16 (len b)) s)
    as E1 by (unfold s1, with_lens; by rewrite Hfix).
  assert (wf_fields s1) as Hw1 by (by apply wf_with_lens).
  assert (AddrHdrLen s1 = AddrHdrLen s) as Ea by apply AddrHdrLen_with_lens.
  pose proof (AddrHdrLen_range s). pose proof (path_len_nonneg p Hp).
  assert (AddrHdrLen s mod 4 = 0) by (unfold AddrHdrLen, Length, LineLen, ISDAS.IABytes; dlia).
  assert (HdrLen s1 * LineLen = CmnHdrLen + AddrHdrLen s1 + len path) as Hlen.
  { rewrite Ea, Lp, E1. cbn [HdrLen set_lens set_cmn]. unfold MaxHdrLen, CmnHdrLen, LineLen in *.
    rewrite Z.quot_div_nonneg, uint_of_small by (try split; dlia). dlia. }
  pose proof Hw1 as [? ? ? ? ? ? ? ? ? ? ? [_ L1] [_ L2]].
  pose proof (len_encode_addrs s1 L1 L2) as El. pose proof (len_encode_cmn s1) as Ec.
  set (out := encode_cmn s1 ++ encode_addrs s1 ++ path).
  assert (encode_cmn s1 ++ encode_addrs s1 ++ path ++ b = out ++ b) as Eo
    by (unfold out; by rewrite <- !app_assoc).
  assert (getPath reg r (PathType s1) = Ok q) as Hq1 by (by rewrite E1).
  pose proof (DecodeFromBytes_encode s1 reg r q path b p'' Hw1 Hlen Hq1 Hdec) as HD.
  rewrite Eo in *. fold out in HD.
  exists (set_Path p' s1), out, (decoded_from s1 p'' out b r), p''.
  split_and!; try done; try (by rewrite E1).
  change (HdrLen s1 * LineLen = len out). rewrite Hlen. unfold out. rewrite !len_app. lia.
Qed.

(** C21: A SCION header survives the wire.  For any header whose fields fit their
    bits, with any path of any type that fits, serialising with [FixLengths] into
    any buffer, whatever the new bytes of the buffer held, succeeds; decoding the
    result with any layer value whose registry or pool offers a path of the right
    type succeeds too and recovers every field, an equivalent path, the header
    bytes as [Contents] and the upper layers as [Payload]; the header length and
    the payload length written are the actual ones. *)
Theorem header_roundtrip PrependBytes reg s r p q b opts :
  (∀ n, 0 ≤ n → len (PrependBytes n) = n) →
  wf_fields s → Path s = Some p → any_path_wf p →
  CmnHdrLen + AddrHdrLen s + PathLen p ≤ MaxHdrLen → PathLen p mod 4 = 0 →
  FixLengths opts = true → getPath reg r (PathType s) = Ok q → any_path_compat p q →
  ∃ s' out d p', SerializeTo PrependBytes b opts s = (s', Ok (out ++ b)) ∧
    DecodeFromBytes reg (out ++ b) r = (d, Ok tt) ∧
    (Version d, TrafficClass d, FlowID d, NextHdr d, PathType d) =
      (Version s, TrafficClass s, FlowID s, NextHdr s, PathType s) ∧
    (DstAddrType d, SrcAddrType d, DstIA d, SrcIA d, RawDstAddr d, RawSrcAddr d) =
      (DstAddrType s, SrcAddrType s, DstIA s, SrcIA s, RawDstAddr s, RawSrcAddr s) ∧
    Path d = Some p' ∧ p' ≡ p ∧ Contents d = out ∧ Payload d = b ∧
    HdrLen d * LineLen = len out ∧ PayloadLen d = u16 (len b).
Proof. exact (header_survives PrependBytes reg s r p q b opts). Qed.

(** Decoding a header never panics, whatever the bytes, the reused layer value
    and the registered path types.  When it succeeds, the fields fit their bits,
    the raw addresses have the lengths their types say, the path is well formed and
    inside the header, and [Contents] followed by [Payload] is the input, split at
    the header length. *)
Theorem decode_header_safe reg data r :
  wf_bytes data →
  match DecodeFromBytes reg data r with
  | (s, Ok _) => wf_fields s ∧ Contents s ++ Payload s = data ∧
      len (Contents s) = HdrLen s * LineLen ∧
      ∃ p, Path s = Some p ∧ any_path_wf p ∧
        CmnHdrLen + AddrHdrLen s + PathLen p ≤ HdrLen s * LineLen
  | (_, Err _) => True
  | (_, Panic) => False
  end.
Proof.
  intros Hb. pose proof (DecodeFromBytes_any reg data r Hb) as H.
  destruct (DecodeFromBytes reg data r) as [s [| |]]; [|done..]. by destruct H.
Qed.

(** Host addresses survive the wire.  Packing never panics: IP addresses and
    service addresses are packed, and parsing the packed bytes under the packed type
    gives the address back, an IPv4-mapped IPv6 address as the IPv4 address and
    without a zone; everything else is an error. *)
Theorem pack_parse_addr (h : Host.t) :
  IP.wf (Host.ip h) → is_u16 (Host.svc h) →
  match PackAddr h with
  | Ok (ty, raw) => 0 ≤ ty < 16 ∧ wf_bytes raw ∧ len raw = Length ty ∧
      ParseAddr ty raw = Ok
        (if Host.ty h =? Host.HostTypeSVC then Host.HostSVC (Host.svc h)
         else Host.HostIP (match IP.Unmap (Host.ip h) with IP.V6 b _ => IP.V6 b [] | ip => ip end))
  | Err _ => Host.ty h ≠ Host.HostTypeSVC ∧
      (Host.ty h ≠ Host.HostTypeIP ∨ IP.IsValid (Host.ip h) = false)
  | Panic => False
  end.
Proof.
  intros Hip Hsvc. destruct h as [ip svc ty]. cbn [Host.ip Host.svc Host.ty] in *.
  unfold PackAddr, Host.Type_, Host.IP, Host.SVC. cbn [Host.ip Host.svc Host.ty].
  unfold Host.HostTypeIP, Host.HostTypeSVC.
  destruct (Z.eqb_spec ty 1) as [->|H1]; [|destruct (Z.eqb_spec ty 2) as [->|H2]; [|by auto]].
  - cbn [negb Z.eqb Pos.eqb]. go_cbn. destruct ip as [|b|b z]; [cbn; by auto|destruct Hip as [Hw Hl]..].
    + cbn [IP.Unmap IP.IsValid IP.Is6 IP.AsSlice negb]. unfold len. rewrite Hl.
      split_and!; [done..|]. unfold ParseAddr, T4Ip. cbn [Z.eqb].
      by rewrite copy_same by (by rewrite Hl).
    + cbn [IP.Unmap]. destruct (IP.Is4In6 (IP.V6 b z)); cbn [IP.IsValid IP.Is6 IP.AsSlice negb].
      * unfold len. rewrite length_drop, Hl. split_and!; [done..|auto with go|done|].
        unfold ParseAddr, T4Ip. cbn [Z.eqb]. by rewrite copy_same by (by rewrite length_drop, Hl).
      * unfold len. rewrite Hl. split_and!; [done..|]. unfold ParseAddr, T16Ip. cbn [Z.eqb Pos.eqb T4Ip T4Svc].
        by rewrite copy_same by (by rewrite Hl).
  - cbn [negb Z.eqb Pos.eqb]. go_cbn.
    change (make_bytes 4) with (make_bytes 2 ++ [0; 0]).
    unfold PutUint16. rewrite put_be_app by done. go_cbn.
    split_and!; [done..| |done|].
    + apply wf_bytes_app. split; [apply wf_be_bytes|]. repeat constructor; done.
    + unfold ParseAddr. cbn [Z.eqb Pos.eqb T4Ip T4Svc].
      rewrite sub_prefix by done. go_cbn. unfold Uint16.
      rewrite <- (app_nil_r (be_bytes 2 svc)), get_be_app by done. go_cbn.
      by rewrite be_val_be_bytes_16.
Qed.

(** Strict decoding of path types and recycled paths.  With the registry as the
    program initialises it, a fresh layer value refuses every path type but the
    four registered ones; after [RecyclePaths], the layer value takes an unknown
    path type as an opaque path, whatever the registry and its strictness say. *)
Theorem recycling_ignores_strict reg s pathType :
  pathPool s = None → is_u8 pathType → 4 ≤ pathType →
  (getPath Registry.initial s pathType = Err (New "unsupported path")) ∧
  ∃ s', RecyclePaths s = (s', Ok tt) ∧ getPath reg s' pathType = Ok (PRaw Registry.rawPath_zero).
Proof.
  intros Hs Hty Hp. split.
  - unfold getPath, Registry.NewPath. rewrite Hs.
    replace (Registry.registeredPaths Registry.initial !! pathType) with (@None Registry.metadata); [done|].
    symmetry. rewrite Registry.initial_eq. unfold Epic.PathType, OneHop.PathType, scion_PathType, EmptyPath.PathType.
    rewrite !lookup_insert_ne by lia. apply lookup_empty.
  - unfold RecyclePaths. rewrite Hs. eexists. split; [reflexivity|].
    unfold getPath. cbn [pathPool set_pathPool]. replace (pathType <? _) with false; [done|].
    symmetry. apply Z.ltb_ge. done.
Qed.


(** ** Witnesses *)

Definition example_raw : Raw.t :=
  Raw.mk (Base.mk (MetaHdr.mk 1 1 1 2 0) 2 3) (Some (Decoded.encode ScionPathProperties.example_path)).
Definition example_header : t :=
  mk 0 184 0x12345 17 0 0 1 T4Ip T16Ip 0x1ff0000000111 0x1ff0000000112
     [10; 0; 0; 1] (replicate 16 7) (Some (PScion example_raw)) None [] [].

Lemma example_raw_wf : Raw.wf example_raw.
Proof. destruct PathInterfaceProperties.example_epic_wf as [_ _ _ _ (r & [= <-] & H)]. exact H. Qed.

Lemma example_wf_fields : wf_fields example_header.
Proof. split; try done; (split; [repeat constructor; done|done]). Qed.

Lemma header_roundtrip_witness :
  ∃ s' out d, SerializeTo make_bytes [1; 2; 3] (mkOpts true false) example_header = (s', Ok (out ++ [1; 2; 3])) ∧
    DecodeFromBytes Registry.initial (out ++ [1; 2; 3]) zero = (d, Ok tt) ∧ HdrLen d * 4 = len out.
Proof.
  destruct (header_roundtrip make_bytes Registry.initial example_header zero (PScion example_raw)
    (PScion Registry.raw_zero) [1; 2; 3] (mkOpts true false))
    as (s' & out & d & p' & Hs & Hd & _ & _ & _ & _ & _ & _ & Hl & _); try done.
  - intros n Hn. by apply len_make_bytes.
  - exact example_wf_fields.
  - exact example_raw_wf.
  - by exists s', out, d.
Defined.

Lemma decode_header_safe_witness :
  ∃ s, DecodeFromBytes Registry.initial
         (encode_cmn (set_lens 26 0 example_header) ++ encode_addrs example_header
          ++ Decoded.encode ScionPathProperties.example_path) zero = (s, Ok tt) ∧ wf_fields s.
Proof.
  set (b := _ ++ _). assert (wf_bytes b) as Hb by (repeat constructor; done).
  pose proof (decode_header_safe Registry.initial b zero Hb) as H.
  destruct (DecodeFromBytes Registry.initial b zero) as [s [[]| |]] eqn:E;
    [|vm_compute in E; discriminate E..].
  exists s. split; [done|]. apply H.
Defined.

Lemma pack_parse_addr_witness :
  PackAddr (Host.HostIP (IP.V6 (IP.mapped_prefix ++ [10; 0; 0; 1]) [])) = Ok (T4Ip, [10; 0; 0; 1]) ∧
  ParseAddr T4Ip [10; 0; 0; 1] = Ok (Host.HostIP (IP.V4 [10; 0; 0; 1])).
Proof.
  pose proof (pack_parse_addr (Host.HostIP (IP.V6 (IP.mapped_prefix ++ [10; 0; 0; 1]) []))) as H.
  split; [reflexivity|].
  apply H; [split; [repeat constructor; done|done]|done].
Defined.

Lemma recycling_ignores_strict_witness :
  getPath Registry.initial zero 77 = Err (New "unsupported path") ∧
  ∃ s', RecyclePaths zero = (s', Ok tt) ∧
    getPath Registry.initial s' 77 = Ok (PRaw Registry.rawPath_zero).
Proof. by apply (recycling_ignores_strict Registry.initial zero 77). Defined.


End ScionHdrProperties.
