(* ===== verification/Extn.v ===== *)
(** The hop-by-hop and end-to-end extension headers, [pkg/slayers/extn.go]: TLV
    options with their alignment and padding, the two extensions and their
    skippers; and the packet authenticator option of [pkg/slayers/pkt_auth.go]. *)
From S2P Require Export ScionHdr.

(** * extn.go: options *)
Module TLV.

Definition OptTypePad1 : Z := 0.
Definition OptTypePadN : Z := 1.
Definition OptTypeAuthenticator : Z := 2.
Definition OptTypeIdentifier : Z := 3.
Definition OptTypeFabrid : Z := 4.

(** [tlvOption]; [OptAlign] is the pair X, Y of the requirement Xn+Y. *)
Record t := mk {
  OptType : Z;
  OptDataLen : Z;
  ActualLength : Z;
  OptData : bytes;
  OptAlign : Z * Z
}.

#[export] Instance t_eq_dec : EqDecision t.
Proof. solve_decision. Defined.

Definition set_OptDataLen (l : Z) (o : t) : t := mk (OptType o) l (ActualLength o) (OptData o) (OptAlign o).

Definition length (o : t) (fixLengths : bool) : Z :=
  if OptType o =? OptTypePad1 then 1
  else if fixLengths then len (OptData o) + 2
  else OptDataLen o + 2.

(** The receiver after [serializeTo]: [OptDataLen] is fixed up, on dry runs too. *)
Definition fixed (fixLengths : bool) (o : t) : t :=
  if OptType o =? OptTypePad1 then o
  else if fixLengths then set_OptDataLen (u8 (len (OptData o))) o
  else o.

(** [serializeTo] with a non-nil [data]. *)
Definition serializeTo (o : t) (fixLengths : bool) (data : bytes) : outcome bytes :=
  if OptType o =? OptTypePad1 then put data 0 0 else
  data ← put data 0 (OptType o);
  data ← put data 1 (OptDataLen (fixed fixLengths o));
  on_sub_from data 2 (λ b, Ok (copy b (OptData o))).

Definition decodeTLVOption (data : bytes) : outcome t :=
  d0 ← get data 0;
  if d0 =? OptTypePad1 then Ok (mk d0 0 1 [] (0, 0)) else
  _ ← fail_if (len data <? 2) (New "buffer too short");
  d1 ← get data 1;
  let actualLength := d1 + 2 in
  _ ← fail_if (len data <? actualLength) (New "buffer too short");
  optData ← sub data 2 actualLength;
  Ok (mk d0 d1 actualLength optData (0, 0)).

Definition serializeTLVOptionPadding (padLength : Z) (data : bytes) : outcome bytes :=
  if padLength <=? 0 then Ok data else
  if padLength =? 1 then put data 0 0 else
  let dataLen := u8 (u8 padLength - 2) in
  serializeTo (mk OptTypePadN dataLen 0 (make_bytes dataLen) (0, 0)) false data.

(** [write(buf[off:])] on a buffer that is nil on dry runs. *)
Definition write_at (buf : option bytes) (off : Z) (write : bytes → outcome bytes) :
    outcome (option bytes) :=
  match buf with
  | None => Ok None
  | Some b => b ← on_sub_from b off write; Ok (Some b)
  end.

(** The padding before an option at offset [length] of the extension header. *)
Definition align_pad (fixLengths : bool) (length : Z) (o : t) : Z :=
  if fixLengths then
    let '(x, y) := OptAlign o in
    if x =? 0 then 0 else
    let n := Z.quot length x in
    let offset := x * n + y in
    let offset := if offset <? length then offset + x else offset in
    offset - length
  else 0.

(** The loop of [serializeTLVOptions]: the buffer and the running length. *)
Fixpoint serialize_loop (fixLengths : bool) (options : list t) (buf : option bytes) (length : Z) :
    outcome (option bytes * Z) :=
  match options with
  | [] => Ok (buf, length)
  | opt :: options =>
      let pad := align_pad fixLengths length opt in
      buf ← (if pad =? 0 then Ok buf
             else write_at buf (length - 2) (serializeTLVOptionPadding pad));
      let length := length + pad in
      buf ← write_at buf (length - 2) (serializeTo opt fixLengths);
      serialize_loop fixLengths options buf (length + TLV.length opt fixLengths)
  end.

Definition LineLen : Z := AddrType.LineLen.

(** The new contents of [buf], the length and the options after the call. *)
Definition serializeTLVOptions (buf : option bytes) (options : list t) (fixLengths : bool) :
    outcome (option bytes * Z * list t) :=
  r ← serialize_loop fixLengths options buf 2;
  let '(buf, length) := r in
  let p := Z.rem length LineLen in
  let pad := if fixLengths && negb (p =? 0) then LineLen - p else 0 in
  buf ← (if pad =? 0 then Ok buf
         else write_at buf (length - 2) (serializeTLVOptionPadding pad));
  Ok (buf, length + pad - 2, fixed fixLengths <$> options).

End TLV.

(** * extn.go: extension headers *)
Module Extn.

Import TLV.

(** [extnBase] and the options; the skippers leave [Options] empty. *)
Record t := mk {
  Contents : bytes;
  Payload : bytes;
  NextHdr : Z;
  ExtLen : Z;
  ActualLen : Z;
  Options : list TLV.t
}.

Definition zero : t := mk [] [] 0 0 0 [].
Definition set_Options (l : list TLV.t) (e : t) : t :=
  mk (Contents e) (Payload e) (NextHdr e) (ExtLen e) (ActualLen e) l.
Definition set_ExtLen (l : Z) (e : t) : t :=
  mk (Contents e) (Payload e) (NextHdr e) l (ActualLen e) (Options e).

(** The extension base that [decodeExtnBase] returns, on errors too. *)
Definition decodeExtnBase (data : bytes) : t * outcome unit :=
  if len data <? 2 then (zero, Err (New "invalid extension header. Length less than 2")) else
  match get data 0, get data 1 with
  | Ok nextHdr, Ok extLen =>
      let actualLen := (extLen + 1) * LineLen in
      if len data <? actualLen then
        (zero, Err (New "invalid extension header. Length less than specified length"))
      else match sub data 0 actualLen, sub_from data actualLen with
           | Ok contents, Ok payload => (mk contents payload nextHdr extLen actualLen [], Ok tt)
           | _, _ => (zero, Panic)
           end
  | _, _ => (zero, Panic)
  end.

Section serialize.
Context (PrependBytes : Z → bytes).

(** The contents of the buffer after the call; [b] is what was in it before. *)
Definition serializeToWithTLVOptions (b : bytes) (fixLengths : bool) : SE t bytes :=
  e ← gets id;
  dry ← lift (serializeTLVOptions None (Options e) fixLengths);
  let '(_, l, options) := dry in
  _ ← modify (set_Options options);
  let buf := PrependBytes l in
  real ← lift (serializeTLVOptions (Some buf) options fixLengths);
  let '(written, _, options) := real in
  _ ← modify (set_Options options);
  let buf := default buf written in
  let length := len buf + 2 in
  _ ← lift (fail_if (negb (Z.rem length LineLen =? 0))
              (New "SCION extension actual length must be multiple of 4"));
  let hdr := PrependBytes 2 in
  hdr ← lift (put hdr 0 (NextHdr e));
  _ ← (if fixLengths then modify (set_ExtLen (u8 (Z.quot length LineLen - 1))) else mret tt);
  e ← gets id;
  hdr ← lift (put hdr 1 (ExtLen e));
  mret (hdr ++ buf ++ b).
End serialize.

Definition checkHopByHopExtnNextHdr (t : Z) : outcome unit :=
  fail_if (t =? L4.HopByHopClass) (New "hbh extension must not be repeated").

Definition checkEndToEndExtnNextHdr (t : Z) : outcome unit :=
  if t =? L4.HopByHopClass then Err (New "e2e extension must not come before the HBH extension")
  else if t =? L4.End2EndClass then Err (New "e2e extension must not be repeated")
  else Ok tt.

(** The loop of the two [DecodeFromBytes]: every option takes at least one byte,
    so [ActualLen] rounds are enough; running out of them is not reachable. *)
Fixpoint decode_options (fuel : nat) (data : bytes) (offset : Z) : SE t unit :=
  e ← gets id;
  if ActualLen e <=? offset then mret tt else
  match fuel with
  | O => lift Panic
  | S fuel =>
      d ← lift (sub data offset (ActualLen e));
      opt ← lift (decodeTLVOption d);
      _ ← modify (set_Options (Options e ++ [opt]));
      decode_options fuel data (offset + ActualLength opt)
  end.

Definition set_extnBase (data : bytes) : SE t unit := λ _, decodeExtnBase data.

(** The two extensions differ in the check of the next header. *)
Section extension.
Context (check : Z → outcome unit).

Definition DecodeFromBytes (data : bytes) : SE t unit :=
  _ ← modify (set_Options []);
  _ ← set_extnBase data;
  e ← gets id;
  _ ← lift (check (NextHdr e));
  decode_options (Z.to_nat (ActualLen e)) data 2.

Definition SerializeTo (PrependBytes : Z → bytes) (b : bytes) (opts : SCION.SerializeOptions) :
    SE t bytes :=
  e ← gets id;
  _ ← lift (check (NextHdr e));
  serializeToWithTLVOptions PrependBytes b (SCION.FixLengths opts).

Definition Skip (data : bytes) : SE t unit :=
  _ ← set_extnBase data;
  e ← gets id;
  lift (check (NextHdr e)).
End extension.

Definition ErrOptionNotFound : error := New "Option not found".

(** [FindOption] *)
Fixpoint find_option (typ : Z) (l : list TLV.t) : outcome TLV.t :=
  match l with
  | [] => Err ErrOptionNotFound
  | o :: l => if OptType o =? typ then Ok o else find_option typ l
  end.
Definition FindOption (e : t) (typ : Z) : outcome TLV.t := find_option typ (Options e).

End Extn.

Module HopByHopExtn.
Definition DecodeFromBytes := Extn.DecodeFromBytes Extn.checkHopByHopExtnNextHdr.
Definition SerializeTo := Extn.SerializeTo Extn.checkHopByHopExtnNextHdr.
Definition NextLayerType (e : Extn.t) : L4.LayerType := L4.scionNextLayerTypeAfterHBH (Extn.NextHdr e).
End HopByHopExtn.

Module HopByHopExtnSkipper.
Definition DecodeFromBytes := Extn.Skip Extn.checkHopByHopExtnNextHdr.
Definition NextLayerType (e : Extn.t) : L4.LayerType := L4.scionNextLayerTypeAfterHBH (Extn.NextHdr e).
End HopByHopExtnSkipper.

Module EndToEndExtn.
Definition DecodeFromBytes := Extn.DecodeFromBytes Extn.checkEndToEndExtnNextHdr.
Definition SerializeTo := Extn.SerializeTo Extn.checkEndToEndExtnNextHdr.
Definition NextLayerType (e : Extn.t) : L4.LayerType := L4.scionNextLayerTypeAfterE2E (Extn.NextHdr e).
End EndToEndExtn.

Module EndToEndExtnSkipper.
Definition DecodeFromBytes := Extn.Skip Extn.checkEndToEndExtnNextHdr.
Definition NextLayerType (e : Extn.t) : L4.LayerType := L4.scionNextLayerTypeAfterE2E (Extn.NextHdr e).
End EndToEndExtnSkipper.

(** * Specification and lemmas *)
Module ExtnLemmas.

Import TLV Extn.

(** The bytes of an option. *)
Definition opt_bytes (o : TLV.t) : bytes :=
  if OptType o =? OptTypePad1 then [0] else OptType o :: len (OptData o) :: OptData o.

Definition wire (l : list TLV.t) : bytes := concat (map opt_bytes l).

(** An option as decoding leaves it. *)
Definition norm (o : TLV.t) : TLV.t :=
  if OptType o =? OptTypePad1 then TLV.mk (OptType o) 0 1 [] (0, 0)
  else TLV.mk (OptType o) (len (OptData o)) (len (OptData o) + 2) (OptData o) (0, 0).

Definition is_pad (o : TLV.t) : bool := OptType o <=? OptTypePadN.

(** The options that [p] bytes of padding hold. *)
Definition pads (p : Z) : list TLV.t :=
  if p <=? 0 then []
  else if p =? 1 then [norm (TLV.mk OptTypePad1 0 0 [] (0, 0))]
  else [norm (TLV.mk OptTypePadN 0 0 (make_bytes (p - 2)) (0, 0))].

(** The options from offset [length] on, with their padding. *)
Fixpoint padded (fixLengths : bool) (length : Z) (l : list TLV.t) : list TLV.t :=
  match l with
  | [] => []
  | o :: l =>
      let pad := align_pad fixLengths length o in
      pads pad ++ norm o :: padded fixLengths (length + pad + len (opt_bytes o)) l
  end.

(** The whole list of options of an extension, with the padding at the end. *)
Definition all_padded (fixLengths : bool) (l : list TLV.t) : list TLV.t :=
  let l := padded fixLengths 2 l in
  l ++ (if fixLengths then pads ((- (2 + len (wire l))) mod 4) else []).

(** Options whose data fit the length byte, and for which the length byte is right
    when it is not to be fixed. *)
Record writable (fixLengths : bool) (o : TLV.t) : Prop := {
  writable_type : is_u8 (OptType o);
  writable_data : wf_bytes (OptData o);
  writable_len : len (OptData o) ≤ 255;
  writable_align : is_u8 (OptAlign o).1 ∧ is_u8 (OptAlign o).2;
  writable_exact : fixLengths = false → OptType o ≠ OptTypePad1 → OptDataLen o = len (OptData o)
}.

Lemma wire_app l1 l2 : wire (l1 ++ l2) = wire l1 ++ wire l2.
Proof. unfold wire. by rewrite map_app, concat_app. Qed.

Lemma wire_cons o l : wire (o :: l) = opt_bytes o ++ wire l.
Proof. done. Qed.

Lemma opt_bytes_norm o : opt_bytes (norm o) = opt_bytes o.
Proof. unfold norm, opt_bytes. by destruct (OptType o =? OptTypePad1) eqn:E; cbn; rewrite E. Qed.

Lemma len_opt_bytes fixLengths o : writable fixLengths o → len (opt_bytes o) = TLV.length o fixLengths.
Proof.
  intros []. unfold opt_bytes, TLV.length.
  destruct (Z.eqb_spec (OptType o) OptTypePad1); [done|].
  rewrite !len_cons. destruct fixLengths; [lia|]. rewrite writable_exact0 by done. lia.
Qed.

Lemma len_opt_bytes_pos o : 1 ≤ len (opt_bytes o) ∧ (len (OptData o) ≤ 255 → len (opt_bytes o) ≤ 257).
Proof. unfold opt_bytes. destruct (_ =? _); [done|]. len_lia. Qed.

Lemma opt_bytes_wf fixLengths o : writable fixLengths o → wf_bytes (opt_bytes o).
Proof.
  intros []. unfold opt_bytes. destruct (_ =? _); [repeat constructor; done|].
  apply Forall_cons_2; [done|]. apply Forall_cons_2; [|done].
  pose proof (len_nonneg (OptData o)). ulia.
Qed.

Lemma copy_prefix {A} (src m : list A) : len src ≤ len m → copy m src = src ++ drop (Z.to_nat (len src)) m.
Proof.
  intros H. unfold copy. rewrite take_ge by (unfold len in H; lia). unfold len. by rewrite Nat2Z.id.
Qed.

Lemma serializeTo_Ok fixLengths o data :
  writable fixLengths o → len (opt_bytes o) ≤ len data →
  serializeTo o fixLengths data = Ok (opt_bytes o ++ drop (Z.to_nat (len (opt_bytes o))) data).
Proof.
  intros [Ht Hd Hl _ He] Hb. unfold serializeTo, opt_bytes, fixed in *.
  destruct (Z.eqb_spec (OptType o) OptTypePad1) as [E|E].
  - destruct data as [|x data]; [done|]. done.
  - rewrite !len_cons in *. destruct data as [|x data]; [len_lia|].
    destruct data as [|y data]; [len_lia|].
    change (put (x :: y :: data) 0 (OptType o)) with (Ok (OptType o :: y :: data)). go_cbn.
    match goal with |- context [put (?a :: y :: data) 1 ?v] =>
      change (put (a :: y :: data) 1 v) with (Ok (a :: v :: data)); set (w := v) end. go_cbn.
    unfold on_sub_from. change (OptType o :: w :: data) with ([OptType o; w] ++ data).
    rewrite (on_sub_suffix [OptType o; w] data) by len_lia. go_cbn. unfold w.
    rewrite copy_prefix by len_lia. cbn [app]. f_equal. f_equal. f_equal.
    + destruct fixLengths; cbn [set_OptDataLen OptDataLen]; [|by apply He].
      apply uint_of_small. pose proof (len_nonneg (OptData o)). split; lia.
    + f_equal. replace (Z.to_nat (1 + (1 + len (OptData o)))) with (2 + Z.to_nat (len (OptData o)))%nat; [done|].
      pose proof (len_nonneg (OptData o)). lia.
Qed.

Lemma opt_bytes_padN a b d al : opt_bytes (TLV.mk OptTypePadN a b d al) = OptTypePadN :: len d :: d.
Proof. done. Qed.

Lemma len_pads p : 0 ≤ p → len (wire (pads p)) = p.
Proof.
  intros. unfold pads. destruct (Z.leb_spec p 0); [change (len (wire [])) with 0; lia|].
  destruct (Z.eqb_spec p 1) as [->|]; [done|]. unfold wire. cbn [map concat].
  rewrite opt_bytes_norm, app_nil_r, opt_bytes_padN, !len_cons, len_make_bytes; lia.
Qed.

Lemma padding_Ok p data :
  0 ≤ p ≤ 257 → p ≤ len data →
  serializeTLVOptionPadding p data = Ok (wire (pads p) ++ drop (Z.to_nat p) data).
Proof.
  intros Hp Hl. pose proof (len_pads p ltac:(lia)) as L. unfold serializeTLVOptionPadding, pads in *.
  destruct (Z.leb_spec p 0); [by replace p with 0 by lia|].
  destruct (Z.eqb_spec p 1) as [->|]; [by destruct data|].
  assert (u8 (u8 p - 2) = p - 2) as -> by (unfold uint_of; dlia).
  rewrite serializeTo_Ok.
  - unfold wire in *. cbn [map concat] in *. rewrite opt_bytes_norm, app_nil_r, opt_bytes_padN in *.
    by rewrite L.
  - split; cbn [OptType OptData OptDataLen OptAlign]; try done.
    + apply Forall_replicate. done.
    + rewrite len_make_bytes; lia.
    + intros. rewrite len_make_bytes; lia.
  - unfold wire in L. cbn [map concat] in L. rewrite opt_bytes_norm, app_nil_r, opt_bytes_padN in *. lia.
Qed.

Lemma align_pad_range fixLengths length o :
  0 ≤ length → is_u8 (OptAlign o).1 ∧ is_u8 (OptAlign o).2 →
  0 ≤ align_pad fixLengths length o ≤ 255 ∧
  (fixLengths = true → (OptAlign o).1 ≠ 0 →
    (length + align_pad fixLengths length o) mod (OptAlign o).1 = (OptAlign o).2 mod (OptAlign o).1).
Proof.
  intros Hl. unfold align_pad. destruct (OptAlign o) as [x y]. cbn [fst snd]. intros [Hx Hy].
  destruct fixLengths; [|done]. destruct (Z.eqb_spec x 0) as [->|Hx0]; [done|]. uint_bounds.
  rewrite Z.quot_div_nonneg by lia.
  pose proof (Z.div_mod length x ltac:(lia)). pose proof (Z.mod_pos_bound length x ltac:(lia)).
  destruct (Z.ltb_spec (x * (length / x) + y) length).
  - split; [lia|]. intros _ _. replace (length + _) with (y + (length / x + 1) * x) by lia. by apply Z.mod_add.
  - split; [lia|]. intros _ _. replace (length + _) with (y + (length / x) * x) by lia. by apply Z.mod_add.
Qed.

(** ** Serialising *)

Lemma write_suffix pre d off f r :
  off = len pre → f d = Ok r → write_at (Some (pre ++ d)) off f = Ok (Some (pre ++ r)).
Proof.
  intros -> Hf. unfold write_at, on_sub_from. rewrite on_sub_suffix by len_lia. by rewrite Hf.
Qed.

Lemma write_padding pre d off p :
  off = len pre → 0 ≤ p ≤ 257 → p ≤ len d →
  (if p =? 0 then Ok (Some (pre ++ d)) else write_at (Some (pre ++ d)) off (serializeTLVOptionPadding p)) =
  Ok (Some (pre ++ wire (pads p) ++ drop (Z.to_nat p) d)).
Proof.
  intros. destruct (Z.eqb_spec p 0) as [->|]; [done|].
  apply write_suffix; [done|]. by apply padding_Ok.
Qed.

Lemma dry_padding off p :
  (if p =? 0 then Ok None else write_at None off (serializeTLVOptionPadding p)) = Ok None.
Proof. by destruct (p =? 0). Qed.

Lemma len_padded_cons fixLengths length o l :
  Forall (writable fixLengths) (o :: l) → 0 ≤ length →
  let pad := align_pad fixLengths length o in
  len (wire (padded fixLengths length (o :: l))) =
    pad + len (opt_bytes o) + len (wire (padded fixLengths (length + pad + len (opt_bytes o)) l)).
Proof.
  intros [[? ? ? Ha ?] _]%Forall_cons_1 Hl pad. cbn [padded]. fold pad.
  destruct (align_pad_range fixLengths length o Hl Ha) as [Hp _]. fold pad in Hp.
  rewrite wire_app, wire_cons, opt_bytes_norm, !len_app, len_pads by lia. lia.
Qed.

Lemma serialize_loop_Ok fixLengths l pre d length :
  Forall (writable fixLengths) l → 2 ≤ length → len pre = length - 2 →
  len (wire (padded fixLengths length l)) ≤ len d →
  serialize_loop fixLengths l (Some (pre ++ d)) length =
    Ok (Some (pre ++ wire (padded fixLengths length l)
              ++ drop (Z.to_nat (len (wire (padded fixLengths length l)))) d),
        length + len (wire (padded fixLengths length l))) ∧
  serialize_loop fixLengths l None length =
    Ok (None, length + len (wire (padded fixLengths length l))).
Proof.
  revert pre d length. induction l as [|o l IH]; intros pre d length Hw Hl Hpre Hd.
  - cbn [serialize_loop padded]. change (wire []) with (@nil Z).
    change (len (@nil Z)) with 0. by rewrite Z.add_0_r.
  - pose proof (len_padded_cons fixLengths length o l Hw ltac:(lia)) as L. cbn zeta in L.
    set (N := len (wire (padded fixLengths length (o :: l)))) in *.
    apply Forall_cons_1 in Hw as [Ho Hw]. pose proof Ho as [_ _ _ Ha _].
    destruct (align_pad_range fixLengths length o ltac:(lia) Ha) as [Hp _].
    cbn [serialize_loop padded]. set (pad := align_pad fixLengths length o) in *. cbn zeta in *.
    rewrite <- (len_opt_bytes fixLengths o Ho).
    destruct (split_len pad d) as (d1 & d2 & -> & L1 & L2).
    { pose proof (len_opt_bytes_pos o). pose proof (len_nonneg (wire (padded fixLengths (length + pad + len (opt_bytes o)) l))). lia. }
    pose proof (len_opt_bytes_pos o) as [Hpos _].
    pose proof (len_nonneg (wire (padded fixLengths (length + pad + len (opt_bytes o)) l))).
    rewrite (write_padding pre (d1 ++ d2)) by (rewrite ?len_app; lia). go_cbn.
    rewrite drop_len_app by done. rewrite dry_padding. go_cbn.
    set (pd := wire (pads pad)). assert (len pd = pad) as Lp by (apply len_pads; lia).
    rewrite (app_assoc pre pd). rewrite len_app in Hd.
    rewrite (write_suffix (pre ++ pd) d2 (length + pad - 2) (serializeTo o fixLengths)
      (opt_bytes o ++ drop (Z.to_nat (len (opt_bytes o))) d2))
      by (rewrite ?len_app; lia || (apply serializeTo_Ok; [done|lia])). go_cbn.
    destruct (split_len (len (opt_bytes o)) d2) as (m & d3 & -> & L3 & L4); [lia|].
    rewrite drop_len_app by done. rewrite app_assoc.
    destruct (IH ((pre ++ pd) ++ opt_bytes o) d3 (length + pad + len (opt_bytes o)) Hw)
      as [E1 E2]; [lia|rewrite !len_app; lia|lia|].
    rewrite E1. unfold write_at. go_cbn. rewrite E2.
    rewrite wire_app, wire_cons, opt_bytes_norm. fold pd.
    set (W := wire (padded fixLengths (length + pad + len (opt_bytes o)) l)) in *.
    assert (drop (Z.to_nat N) (d1 ++ m ++ d3) = drop (Z.to_nat (len W)) d3) as ->.
    { replace N with (len (d1 ++ m) + len W) by (rewrite len_app; lia).
      rewrite Z2Nat.inj_add by apply len_nonneg. rewrite <- drop_drop, app_assoc.
      by rewrite (drop_len_app _ (d1 ++ m)). }
    replace (length + N) with (length + pad + len (opt_bytes o) + len W) by lia.
    by rewrite <- !app_assoc.
Qed.

(** The padding at the end of an extension whose options take [length - 2] bytes. *)
Definition end_pad (fixLengths : bool) (length : Z) : Z := if fixLengths then (- length) mod 4 else 0.

Lemma all_padded_wire fixLengths l :
  wire (all_padded fixLengths l) =
    wire (padded fixLengths 2 l) ++ wire (pads (end_pad fixLengths (2 + len (wire (padded fixLengths 2 l))))).
Proof. unfold all_padded, end_pad. rewrite wire_app. by destruct fixLengths. Qed.

Lemma end_pad_eq fixLengths length :
  0 ≤ length →
  (if fixLengths && negb (Z.rem length LineLen =? 0) then LineLen - Z.rem length LineLen else 0) =
    end_pad fixLengths length ∧ 0 ≤ end_pad fixLengths length < 4.
Proof.
  intros. unfold end_pad, LineLen, AddrType.LineLen. destruct fixLengths; [|done].
  rewrite Z.rem_mod_nonneg by lia. split; [|dlia].
  destruct (Z.eqb_spec (length mod 4) 0); cbn [negb andb]; dlia.
Qed.

Lemma serializeTLVOptions_Ok fixLengths l buf :
  Forall (writable fixLengths) l → len buf = len (wire (all_padded fixLengths l)) →
  serializeTLVOptions (Some buf) l fixLengths =
    Ok (Some (wire (all_padded fixLengths l)), len (wire (all_padded fixLengths l)), fixed fixLengths <$> l) ∧
  serializeTLVOptions None l fixLengths =
    Ok (None, len (wire (all_padded fixLengths l)), fixed fixLengths <$> l).
Proof.
  intros Hw Hb. rewrite all_padded_wire in *. set (W := wire (padded fixLengths 2 l)) in *.
  pose proof (len_nonneg W). destruct (end_pad_eq fixLengths (2 + len W) ltac:(lia)) as [Ep Rp].
  set (pad := end_pad fixLengths (2 + len W)) in *.
  assert (len (wire (pads pad)) = pad) as Lp by (apply len_pads; lia). rewrite len_app, Lp in *.
  destruct (serialize_loop_Ok fixLengths l [] buf 2 Hw) as [E1 E2]; [lia|done|fold W; lia|].
  fold W in E1, E2. unfold serializeTLVOptions. cbn [app] in E1. rewrite E1, E2. go_cbn. rewrite Ep.
  rewrite dry_padding. go_cbn.
  destruct (split_len (len W) buf) as (d1 & d2 & -> & L1 & L2); [lia|].
  rewrite drop_len_app by done. rewrite len_app in *.
  rewrite (write_padding W d2) by lia. go_cbn. rewrite (drop_all pad d2), app_nil_r by lia.
  split; do 3 f_equal; lia.
Qed.

Lemma padded_fixed fixLengths length l :
  padded fixLengths length (fixed fixLengths <$> l) = padded fixLengths length l.
Proof.
  revert length. induction l as [|o l IH]; intros length; [done|]. cbn [fmap list_fmap padded].
  assert (OptAlign (fixed fixLengths o) = OptAlign o ∧ norm (fixed fixLengths o) = norm o) as [E1 E2].
  { unfold fixed, norm. destruct (OptType o =? OptTypePad1) eqn:E; [by rewrite E|].
    destruct fixLengths; cbn [set_OptDataLen OptType OptData]; by rewrite E. }
  assert (opt_bytes (fixed fixLengths o) = opt_bytes o) as E3
    by (by rewrite <- opt_bytes_norm, E2, opt_bytes_norm).
  unfold align_pad. rewrite E1, E2, E3. by rewrite IH.
Qed.

Lemma all_padded_fixed fixLengths l :
  all_padded fixLengths (fixed fixLengths <$> l) = all_padded fixLengths l.
Proof. unfold all_padded. by rewrite padded_fixed. Qed.

Lemma writable_fixed fixLengths o : writable fixLengths o → writable fixLengths (fixed fixLengths o).
Proof.
  intros []. unfold fixed. destruct (_ =? _); [done|]. destruct fixLengths; [|done]. by split.
Qed.

Lemma len_all_padded_fix l : (2 + len (wire (all_padded true l))) mod 4 = 0.
Proof.
  rewrite all_padded_wire, len_app. set (W := wire _).
  unfold end_pad. rewrite len_pads by dlia. dlia.
Qed.

(** The extension after a successful [SerializeTo]. *)
Definition serialized (fixLengths : bool) (e : Extn.t) : Extn.t :=
  let e := set_Options (fixed fixLengths <$> (fixed fixLengths <$> Options e)) e in
  if fixLengths then set_ExtLen (u8 (Z.quot (len (wire (all_padded true (Options e))) + 2) LineLen - 1)) e
  else e.

Lemma Extn_SerializeTo_Ok check PrependBytes e b opts :
  let fixLengths := SCION.FixLengths opts in
  (∀ n, 0 ≤ n → len (PrependBytes n) = n) →
  Forall (writable fixLengths) (Options e) → check (NextHdr e) = Ok tt →
  (2 + len (wire (all_padded fixLengths (Options e)))) mod 4 = 0 →
  Extn.SerializeTo check PrependBytes b opts e =
    (serialized fixLengths e,
     Ok ([NextHdr e; ExtLen (serialized fixLengths e)] ++ wire (all_padded fixLengths (Options e)) ++ b)).
Proof.
  intros fixLengths Hpre Hw Hc Hm. unfold Extn.SerializeTo. fold fixLengths. set (opts' := fixed fixLengths <$> Options e).
  rewrite (SE_bind_eq _ _ e e e) by done. rewrite (SE_bind_eq _ _ e e tt) by (by unfold lift; rewrite Hc).
  assert (Forall (writable fixLengths) opts') as Hw'.
  { unfold opts'. apply Forall_fmap. eapply Forall_impl; [exact Hw|]. intros o. apply writable_fixed. }
  assert (all_padded fixLengths opts' = all_padded fixLengths (Options e)) as Ep by apply all_padded_fixed.
  set (W := wire (all_padded fixLengths (Options e))) in *. pose proof (len_nonneg W) as HW.
  pose proof (Hpre (len W) HW) as Lb. pose proof (Hpre 2 ltac:(lia)) as Lh.
  destruct (serializeTLVOptions_Ok fixLengths (Options e) (PrependBytes (len W)) Hw Lb) as [_ E1].
  destruct (serializeTLVOptions_Ok fixLengths opts' (PrependBytes (len W)) Hw') as [E2 _]; [by rewrite Ep|].
  rewrite Ep in E2. fold W in E1, E2. unfold serializeToWithTLVOptions. set (e1 := set_Options opts' e).
  rewrite (SE_bind_eq _ _ e e e) by done.
  rewrite (SE_bind_eq _ _ e e (None, len W, opts')) by (unfold lift; by rewrite E1).
  rewrite (SE_bind_eq _ _ e e1 tt) by done.
  rewrite (SE_bind_eq _ _ e1 e1 (Some W, len W, fixed fixLengths <$> opts')) by (unfold lift; by rewrite E2).
  set (e2 := set_Options (fixed fixLengths <$> opts') e1). cbn zeta. cbn [default]. change (id W) with W.
  rewrite (SE_bind_eq _ _ e1 e2 tt) by done.
  rewrite (SE_bind_eq _ _ e2 e2 tt).
  2:{ unfold lift, LineLen, AddrType.LineLen, fail_if. rewrite Z.rem_mod_nonneg by lia.
      by replace ((len W + 2) mod 4) with 0 by dlia. }
  assert (∃ h0 h1, PrependBytes 2 = [h0; h1]) as (h0 & h1 & ->).
  { destruct (PrependBytes 2) as [|h0 [|h1 [|]]]; try discriminate Lh; [by eauto|]. rewrite !len_cons in Lh.
    pose proof (len_nonneg l). lia. }
  rewrite (SE_bind_eq _ _ e2 e2 [NextHdr e; h1]) by done.
  assert (serialized fixLengths e = if fixLengths then set_ExtLen (u8 (Z.quot (len W + 2) LineLen - 1)) e2 else e2)
    as Es.
  { unfold serialized. fold opts'. cbn zeta. destruct fixLengths; [|done]. cbn [Options set_Options].
    by rewrite all_padded_fixed, Ep. }
  rewrite (SE_bind_eq _ _ e2 (serialized fixLengths e) tt) by (rewrite Es; by destruct fixLengths).
  set (s := serialized fixLengths e). clearbody s.
  rewrite (SE_bind_eq _ _ s s s) by done. by rewrite (SE_bind_eq _ _ s s [NextHdr e; ExtLen s]) by done.
Qed.

(** ** Decoding *)

Lemma decodeTLVOption_bytes o rest :
  is_u8 (OptType o) → len (OptData o) ≤ 255 →
  decodeTLVOption (opt_bytes o ++ rest) = Ok (norm o).
Proof.
  intros Ht Hl. unfold opt_bytes, norm, decodeTLVOption. destruct (OptType o =? OptTypePad1) eqn:E.
  - cbn [app]. change (get (0 :: rest) 0) with (Ok 0). go_cbn. apply Z.eqb_eq in E. by rewrite E.
  - cbn [app]. set (d := OptData o) in *. set (ty := OptType o) in *.
    change (get (ty :: len d :: d ++ rest) 0) with (Ok ty). go_cbn. rewrite E.
    change (get (ty :: len d :: d ++ rest) 1) with (Ok (len d)).
    pose proof (len_nonneg d). pose proof (len_nonneg rest).
    assert (len (ty :: len d :: d ++ rest) = 2 + len d + len rest) as L by (rewrite !len_cons, len_app; lia).
    go_guard. go_guard.
    change (ty :: len d :: d ++ rest) with ([ty; len d] ++ d ++ rest).
    rewrite (sub_mid [ty; len d]) by (rewrite ?len_cons, ?len_nil; lia). done.
Qed.

(** Options as they come from the wire. *)
Definition on_wire (o : TLV.t) : Prop :=
  is_u8 (OptType o) ∧ wf_bytes (OptData o) ∧ len (OptData o) ≤ 255 ∧ norm o = o.

Lemma on_wire_writable o : on_wire o → writable false o.
Proof.
  intros (Ht & Hd & Hl & E). split; try done.
  - rewrite <- E. unfold norm. by destruct (_ =? _).
  - intros _ Hn. rewrite <- E at 1. unfold norm. by rewrite (proj2 (Z.eqb_neq _ _) Hn).
Qed.

Lemma decodeTLVOption_any data :
  wf_bytes data → 0 < len data →
  match decodeTLVOption data with
  | Ok o => on_wire o ∧ ActualLength o = len (opt_bytes o) ∧ ∃ rest, data = opt_bytes o ++ rest
  | Err _ => True
  | Panic => False
  end.
Proof.
  intros Hb Hl. destruct data as [|ty data]; [done|]. unfold decodeTLVOption.
  change (get (ty :: data) 0) with (Ok ty). go_cbn. apply Forall_cons_1 in Hb as [Hty Hb].
  destruct (Z.eqb_spec ty OptTypePad1) as [->|E].
  { split_and!; [split_and!; [done|constructor|done|done]|done|]. by exists data. }
  destruct (Z.ltb_spec (len (ty :: data)) 2) as [|H2]; [done|]. go_cbn.
  destruct data as [|l data]; [done|]. change (get (ty :: l :: data) 1) with (Ok l). go_cbn.
  apply Forall_cons_1 in Hb as [Hl1 Hb]. uint_bounds. rewrite !len_cons in *.
  destruct (Z.ltb_spec (1 + (1 + len data)) (l + 2)) as [|H3]; [done|]. go_cbn.
  destruct (split_len l data) as (d & rest & -> & Ld & _); [lia|].
  change (ty :: l :: d ++ rest) with ([ty; l] ++ d ++ rest).
  rewrite (sub_mid [ty; l]) by (rewrite ?len_cons, ?len_nil; lia). go_cbn.
  apply wf_bytes_app in Hb as [Hd _]. apply Z.eqb_neq in E.
  set (o := TLV.mk ty l (l + 2) d (0, 0)).
  assert (opt_bytes o = [ty; l] ++ d) as Eo by (unfold opt_bytes, o; cbn [OptType OptData]; by rewrite E, Ld).
  split_and!.
  - split_and!; [exact Hty|exact Hd|cbn; lia|]. unfold norm, o. cbn [OptType OptData]. by rewrite E, Ld.
  - rewrite Eo, len_app. cbn [ActualLength o]. change (len [ty; l]) with 2. lia.
  - exists rest. by rewrite Eo.
Qed.

Lemma set_Options_app e a c : set_Options (Options (set_Options (Options e ++ a) e) ++ c) (set_Options (Options e ++ a) e)
  = set_Options (Options e ++ a ++ c) e.
Proof. cbn. unfold set_Options. cbn. by rewrite <- app_assoc. Qed.

(** Decoding the bytes of a list of options. *)
Lemma decode_options_wire l fuel pre post e :
  Forall (λ o, is_u8 (OptType o) ∧ len (OptData o) ≤ 255) l →
  ActualLen e = len pre + len (wire l) → len (wire l) ≤ Z.of_nat fuel →
  decode_options fuel (pre ++ wire l ++ post) (len pre) e = (set_Options (Options e ++ map norm l) e, Ok tt).
Proof.
  revert fuel pre e. induction l as [|o l IH]; intros fuel pre e Hl Ha Hf.
  - change (wire []) with (@nil Z) in *. change (len (@nil Z)) with 0 in *. cbn [map].
    rewrite app_nil_r. destruct fuel; cbn [decode_options];
      (rewrite (SE_bind_eq _ _ e e e) by done; rewrite Ha, Z.add_0_r, Z.leb_refl; by destruct e).
  - apply Forall_cons_1 in Hl as [[Ht Hd] Hl]. rewrite wire_cons in *. rewrite len_app in *.
    pose proof (len_opt_bytes_pos o) as [Hpos _]. pose proof (len_nonneg (wire l)).
    destruct fuel as [|fuel]; [lia|]. cbn [decode_options].
    rewrite (SE_bind_eq _ _ e e e) by done. replace (_ <=? _) with false by lia.
    rewrite (SE_bind_eq _ _ e e (opt_bytes o ++ wire l)).
    2:{ unfold lift. by rewrite (sub_mid pre) by (rewrite ?len_app; lia). }
    rewrite (SE_bind_eq _ _ e e (norm o)) by (unfold lift; by rewrite decodeTLVOption_bytes).
    set (e1 := set_Options (Options e ++ [norm o]) e).
    rewrite (SE_bind_eq _ _ e e1 tt) by done.
    assert (ActualLength (norm o) = len (opt_bytes o)) as ->.
    { unfold norm, opt_bytes. destruct (_ =? _); [done|]. cbn [ActualLength]. rewrite !len_cons. lia. }
    replace (len pre + len (opt_bytes o)) with (len (pre ++ opt_bytes o)) by (rewrite len_app; lia).
    rewrite (app_assoc pre), (app_assoc pre), <- (app_assoc (pre ++ opt_bytes o)).
    rewrite IH; [|done|change (ActualLen e1) with (ActualLen e); rewrite len_app; lia|lia].
    unfold e1. by rewrite set_Options_app.
Qed.

(** Decoding any bytes. *)
Lemma decode_options_any fuel data pre body post e :
  wf_bytes body → data = pre ++ body ++ post → ActualLen e = len pre + len body → len body ≤ Z.of_nat fuel →
  match decode_options fuel data (len pre) e with
  | (e', Ok _) => ∃ l, e' = set_Options (Options e ++ l) e ∧ Forall on_wire l ∧ body = wire l
  | (_, Err _) => True
  | (_, Panic) => False
  end.
Proof.
  intros Hb -> Ha Hf. revert pre body e Hb Ha Hf. induction fuel as [|fuel IH]; intros pre body e Hb Ha Hf; cbn [decode_options].
  - pose proof (len_nonneg body). assert (len body = 0) as E by lia. destruct body; [|done].
    rewrite (SE_bind_eq _ _ e e e) by done. rewrite Ha, E, Z.add_0_r, Z.leb_refl.
    exists []. split_and!; [by destruct e; cbn; rewrite app_nil_r|constructor|done].
  - rewrite (SE_bind_eq _ _ e e e) by done. destruct (Z.leb_spec (ActualLen e) (len pre)) as [H0|H0].
    { pose proof (len_nonneg body). assert (len body = 0) as E by lia. destruct body; [|done].
      exists []. split_and!; [by destruct e; cbn; rewrite app_nil_r|constructor|done]. }
    rewrite (SE_bind_eq _ _ e e body) by (unfold lift; rewrite (sub_mid pre) by lia; done).
    pose proof (decodeTLVOption_any body Hb ltac:(lia)) as Ho.
    destruct (decodeTLVOption body) as [o| |] eqn:Eo; [|done..].
    rewrite (SE_bind_eq _ _ e e o) by done. destruct Ho as (Ho & -> & rest & ->).
    set (e1 := set_Options (Options e ++ [o]) e). rewrite (SE_bind_eq _ _ e e1 tt) by done.
    apply wf_bytes_app in Hb as [_ Hb]. rewrite len_app in *. pose proof (len_opt_bytes_pos o) as [Hpos _].
    specialize (IH (pre ++ opt_bytes o) rest e1 Hb).
    rewrite !len_app, <- !app_assoc in IH.
    specialize (IH ltac:(change (ActualLen e1) with (ActualLen e); lia) ltac:(lia)).
    rewrite <- !app_assoc.
    destruct (decode_options _ _ _ e1) as [e' [[]| |]]; [|done..].
    destruct IH as (l & -> & Hl & ->). exists (o :: l). split_and!.
    + unfold e1. by rewrite set_Options_app.
    + by apply Forall_cons_2.
    + by rewrite wire_cons.
Qed.

(** ** Padding and alignment *)

Lemma filter_pads p : filter (λ o, is_pad o = false) (pads p) = [].
Proof. unfold pads. destruct (p <=? 0); [done|]. by destruct (p =? 1). Qed.

Lemma filter_padded fixLengths length l :
  Forall (λ o, OptTypePadN < OptType o) l →
  filter (λ o, is_pad o = false) (padded fixLengths length l) = map norm l.
Proof.
  revert length. induction l as [|o l IH]; intros length H; [done|]. cbn [padded map].
  apply Forall_cons_1 in H as [Ho H]. rewrite filter_app, filter_pads. cbn [app].
  assert (OptType (norm o) = OptType o) as E by (unfold norm; by destruct (_ =? _)).
  rewrite filter_cons_True by (unfold is_pad; rewrite E; lia). by rewrite IH.
Qed.

Lemma filter_all_padded fixLengths l :
  Forall (λ o, OptTypePadN < OptType o) l →
  filter (λ o, is_pad o = false) (all_padded fixLengths l) = map norm l.
Proof.
  intros H. unfold all_padded. rewrite filter_app, filter_padded by done.
  destruct fixLengths; [by rewrite filter_pads, app_nil_r|by rewrite app_nil_r].
Qed.

Lemma map_norm_norm l : (∀ o, o ∈ l → norm o = o) → map norm l = l.
Proof.
  induction l as [|o l IH]; intros H; [done|]. cbn [map].
  rewrite (H o), IH by set_solver. done.
Qed.

Lemma norm_norm o : norm (norm o) = norm o.
Proof. unfold norm. by destruct (OptType o =? OptTypePad1) eqn:E; cbn [OptType OptData]; rewrite E. Qed.

Lemma pads_on_wire p : p ≤ 257 → Forall on_wire (pads p).
Proof.
  intros Hp. unfold pads. destruct (Z.leb_spec p 0); [constructor|].
  destruct (Z.eqb_spec p 1); (apply Forall_cons_2; [|constructor]).
  - split_and!; [done|constructor|done|done].
  - assert (norm (TLV.mk OptTypePadN 0 0 (make_bytes (p - 2)) (0, 0)) =
      TLV.mk OptTypePadN (p - 2) (p - 2 + 2) (make_bytes (p - 2)) (0, 0)) as E.
    { unfold norm. cbn [OptType OptData]. change (OptTypePadN =? OptTypePad1) with false.
      by rewrite len_make_bytes by lia. }
    split_and!; [done|apply Forall_replicate; done| |apply norm_norm].
    rewrite E. cbn [OptData]. rewrite len_make_bytes; lia.
Qed.

Lemma norm_on_wire fixLengths o : writable fixLengths o → on_wire (norm o).
Proof.
  intros []. split_and!; [..|apply norm_norm]; unfold norm; destruct (_ =? _); try done.
  apply Forall_nil_2.
Qed.

Lemma padded_on_wire fixLengths length l :
  0 ≤ length → Forall (writable fixLengths) l → Forall on_wire (padded fixLengths length l).
Proof.
  revert length. induction l as [|o l IH]; intros length Hl Hw; [constructor|]. cbn [padded].
  apply Forall_cons_1 in Hw as [Ho Hw]. pose proof Ho as [_ _ _ Ha _].
  destruct (align_pad_range fixLengths length o Hl Ha) as [Hp _].
  pose proof (len_opt_bytes_pos o) as [? _].
  apply Forall_app. split; [apply pads_on_wire; lia|]. apply Forall_cons_2; [by eapply norm_on_wire|].
  apply IH; [lia|done].
Qed.

Lemma all_padded_on_wire fixLengths l :
  Forall (writable fixLengths) l → Forall on_wire (all_padded fixLengths l).
Proof.
  intros. unfold all_padded. apply Forall_app. split; [by apply padded_on_wire|].
  destruct fixLengths; [apply pads_on_wire; dlia|constructor].
Qed.

(** Where an option ends up. *)
Lemma padded_aligned length l1 o l2 :
  0 ≤ length → Forall (writable true) (l1 ++ o :: l2) → (OptAlign o).1 ≠ 0 →
  ∃ a c, wire (padded true length (l1 ++ o :: l2)) = a ++ opt_bytes o ++ c ∧
    (length + len a) mod (OptAlign o).1 = (OptAlign o).2 mod (OptAlign o).1.
Proof.
  revert length. induction l1 as [|o1 l1 IH]; intros length Hl Hw Hx; cbn [app] in *;
    apply Forall_cons_1 in Hw as [Ho Hw]; pose proof Ho as [_ _ _ Ha _]; cbn [padded];
    rewrite wire_app, wire_cons, opt_bytes_norm.
  - destruct (align_pad_range true length o Hl Ha) as [Hp Hm].
    exists (wire (pads (align_pad true length o))). eexists. split; [reflexivity|].
    rewrite len_pads by lia. by apply Hm.
  - destruct (align_pad_range true length o1 Hl Ha) as [Hp _]. pose proof (len_opt_bytes_pos o1) as [? _].
    set (pad := align_pad true length o1) in *.
    destruct (IH (length + pad + len (opt_bytes o1)) ltac:(lia) Hw Hx) as (a & c & -> & Hm).
    exists (wire (pads pad) ++ opt_bytes o1 ++ a), c. split; [by rewrite <- !app_assoc|].
    rewrite !len_app, len_pads by lia.
    by replace (length + (pad + (len (opt_bytes o1) + len a)))
      with (length + pad + len (opt_bytes o1) + len a) by lia.
Qed.

(** Decoding a header that spells out its options. *)
Lemma Extn_DecodeFromBytes_Ok check nh el l b r :
  (el + 1) * LineLen = 2 + len (wire l) → Forall on_wire l → check nh = Ok tt →
  let body := [nh; el] ++ wire l in
  Extn.DecodeFromBytes check (body ++ b) r = (Extn.mk body b nh el (2 + len (wire l)) l, Ok tt).
Proof.
  intros Hl Hon Hc body. set (W := wire l) in *. pose proof (len_nonneg W). pose proof (len_nonneg b).
  assert (len body = 2 + len W) as Lb by (unfold body; by rewrite len_app).
  unfold Extn.DecodeFromBytes. set (r0 := set_Options [] r). rewrite (SE_bind_eq _ _ r r0 tt) by done.
  set (e0 := Extn.mk body b nh el (2 + len W) []).
  rewrite (SE_bind_eq _ _ r0 e0 tt).
  2:{ unfold set_extnBase, decodeExtnBase.
      replace (len (body ++ b) <? 2) with false by (rewrite len_app; lia).
      change (get (body ++ b) 0) with (Ok nh). change (get (body ++ b) 1) with (Ok el).
      cbn beta iota zeta. rewrite Hl.
      replace (len (body ++ b) <? _) with false by (rewrite len_app; lia).
      unfold sub_from. rewrite (sub_prefix body), (sub_suffix body) by (rewrite ?len_app; lia). done. }
  rewrite (SE_bind_eq _ _ e0 e0 e0) by done.
  rewrite (SE_bind_eq _ _ e0 e0 tt) by (change (NextHdr e0) with nh; unfold lift; by rewrite Hc).
  cbn [ActualLen e0]. unfold body. rewrite <- app_assoc.
  pose proof (decode_options_wire l (Z.to_nat (2 + len W)) [nh; el] b e0) as E. fold W in E.
  change (len [nh; el]) with 2 in E. rewrite E; [|..|done|lia].
  - unfold e0, set_Options. cbn [Contents Payload NextHdr ExtLen ActualLen Options app].
    rewrite map_norm_norm; [done|]. intros o Ho. rewrite Forall_forall in Hon. by destruct (Hon o Ho) as (?&?&?&?).
  - eapply Forall_impl; [exact Hon|]. by intros o (?&?&?&?).
Qed.

(** ** Without fixing lengths *)

Lemma fixed_false (l : list TLV.t) : fixed false <$> l = l.
Proof. induction l as [|o l IH]; [done|]. cbn. rewrite IH. unfold fixed. by destruct (_ =? _). Qed.

Lemma all_padded_false l : all_padded false l = map norm l.
Proof.
  unfold all_padded. rewrite app_nil_r. generalize 2.
  induction l as [|o l IH]; intros n; [done|]. cbn [padded map]. by rewrite IH.
Qed.

Lemma decodeExtnBase_any data :
  wf_bytes data →
  match decodeExtnBase data with
  | (e, Ok _) => ∃ body post, data = [NextHdr e; ExtLen e] ++ body ++ post ∧
      e = Extn.mk ([NextHdr e; ExtLen e] ++ body) post (NextHdr e) (ExtLen e) (2 + len body) [] ∧
      2 + len body = (ExtLen e + 1) * LineLen ∧ wf_bytes body
  | (_, Err _) => True
  | (_, Panic) => False
  end.
Proof.
  intros Hb. unfold decodeExtnBase. destruct (Z.ltb_spec (len data) 2) as [|H2]; [done|].
  destruct data as [|nh [|el data]]; [done|exfalso; rewrite !len_cons in H2; change (len (@nil Z)) with 0 in H2; lia|].
  change (get (nh :: el :: data) 0) with (Ok nh). change (get (nh :: el :: data) 1) with (Ok el).
  cbn beta iota zeta. apply Forall_cons_1 in Hb as [_ [Hel Hb]%Forall_cons_1]. uint_bounds.
  unfold LineLen, AddrType.LineLen. rewrite !len_cons.
  destruct (Z.ltb_spec (1 + (1 + len data)) ((el + 1) * 4)) as [|H4]; [done|].
  destruct (split_len ((el + 1) * 4 - 2) data) as (body & post & -> & L1 & L2); [lia|].
  change (nh :: el :: body ++ post) with ([nh; el] ++ body ++ post). unfold sub_from.
  rewrite (app_assoc [nh; el]), sub_prefix by (rewrite len_app; change (len [nh; el]) with 2; lia).
  rewrite sub_suffix by (rewrite ?len_app; change (len [nh; el]) with 2; lia).
  apply wf_bytes_app in Hb as [Hb _]. exists body, post. cbn [NextHdr ExtLen].
  split_and!; [by rewrite <- app_assoc| |lia|done]. f_equal. lia.
Qed.

(** Decoding any bytes: what holds of the extension, and what the skipper does. *)
Lemma Extn_DecodeFromBytes_any check data r :
  check = checkHopByHopExtnNextHdr ∨ check = checkEndToEndExtnNextHdr → wf_bytes data →
  match Extn.DecodeFromBytes check data r with
  | (e, Ok _) => Contents e ++ Payload e = data ∧ Contents e = [NextHdr e; ExtLen e] ++ wire (Options e) ∧
      len (Contents e) = (ExtLen e + 1) * LineLen ∧ Forall on_wire (Options e) ∧
      e = Extn.mk (Contents e) (Payload e) (NextHdr e) (ExtLen e) (len (Contents e)) (Options e) ∧
      check (NextHdr e) = Ok tt ∧ Extn.Skip check data r = (set_Options [] e, Ok tt)
  | (_, Err _) => True
  | (_, Panic) => False
  end.
Proof.
  intros Hcheck Hb. unfold Extn.DecodeFromBytes, Extn.Skip. set (r0 := set_Options [] r).
  rewrite (SE_bind_eq _ _ r r0 tt) by done. pose proof (decodeExtnBase_any data Hb) as H.
  destruct (decodeExtnBase data) as [e0 [[]| |]] eqn:E0; [|by unfold mbind, SE_bind, set_extnBase; rewrite E0|done].
  destruct H as (body & post & Ed & Ee & Hl & Hbody).
  rewrite (SE_bind_eq _ _ r0 e0 tt) by exact E0. rewrite (SE_bind_eq _ _ r e0 tt) by exact E0.
  rewrite !(SE_bind_eq (gets id) _ e0 e0 e0) by done.
  destruct (check (NextHdr e0)) as [[]|err|] eqn:Ec.
  2: by unfold mbind, SE_bind, lift.
  2: destruct Hcheck as [-> | ->]; [unfold checkHopByHopExtnNextHdr, fail_if in Ec|unfold checkEndToEndExtnNextHdr in Ec];
     by repeat case_match.
  rewrite (SE_bind_eq _ _ e0 e0 tt) by done.
  assert (ActualLen e0 = 2 + len body) as Ha by (by rewrite Ee).
  pose proof (decode_options_any (Z.to_nat (ActualLen e0)) data [NextHdr e0; ExtLen e0] body post e0
    Hbody Ed ltac:(done) ltac:(lia)) as H.
  change (len [NextHdr e0; ExtLen e0]) with 2 in H.
  destruct (decode_options _ data 2 e0) as [e [[]| |]]; [|done..].
  destruct H as (l & -> & Hl' & ->).
  assert (Options e0 = []) as Eo by (by rewrite Ee).
  assert (Contents e0 = [NextHdr e0; ExtLen e0] ++ wire l) as Ect by (by rewrite Ee).
  assert (Payload e0 = post) as Epl by (by rewrite Ee). rewrite Eo. cbn [app].
  cbn [set_Options Contents Payload NextHdr ExtLen Options].
  assert (len (Contents e0) = 2 + len (wire l)) as El by (rewrite Ect, len_app; done).
  split_and!; [by rewrite Ect, Epl, Ed|done|by rewrite El|done| |done|by rewrite Ee].
  unfold set_Options. by rewrite El, Ha.
Qed.

End ExtnLemmas.

(** * Properties *)
Module ExtnProperties.

Import TLV Extn ExtnLemmas.

(** Extension headers survive the wire.  For any list of options with at most
    255 bytes of data each (hop-by-hop or end-to-end alike), serialising with
    [FixLengths] succeeds, fills whole lines, and places every option at an offset
    that satisfies its alignment requirement; if the extension has at most 1024
    bytes, decoding what was written recovers, leaving the padding out, exactly the
    options in their order, the next header, and the layers behind the extension. *)
Theorem options_roundtrip check PrependBytes e r b opts :
  (∀ n, 0 ≤ n → len (PrependBytes n) = n) → SCION.FixLengths opts = true →
  Forall (writable true) (Options e) → Forall (λ o, OptTypePadN < OptType o) (Options e) →
  check (NextHdr e) = Ok tt →
  ∃ e' out, Extn.SerializeTo check PrependBytes b opts e = (e', Ok (out ++ b)) ∧ len out mod 4 = 0 ∧
    (∀ l1 o l2, Options e = l1 ++ o :: l2 → (OptAlign o).1 ≠ 0 →
       ∃ a c, out = a ++ opt_bytes o ++ c ∧ len a mod (OptAlign o).1 = (OptAlign o).2 mod (OptAlign o).1) ∧
    (len out ≤ 1024 → ∃ d, Extn.DecodeFromBytes check (out ++ b) r = (d, Ok tt) ∧
       filter (λ o, is_pad o = false) (Options d) = map norm (Options e) ∧
       NextHdr d = NextHdr e ∧ Contents d = out ∧ Payload d = b).
Proof.
  intros Hpre Hfix Hw Ht Hc.
  pose proof (Extn_SerializeTo_Ok check PrependBytes e b opts) as Hs. rewrite Hfix in Hs.
  specialize (Hs Hpre Hw Hc (len_all_padded_fix _)).
  pose proof (len_all_padded_fix (Options e)) as Hm. pose proof (all_padded_on_wire true _ Hw) as Hon.
  pose proof (filter_all_padded true _ Ht) as Hf.
  assert (ExtLen (serialized true e) = u8 (Z.quot (len (wire (all_padded true (Options e))) + 2) LineLen - 1)) as Hel.
  { unfold serialized. cbn [ExtLen set_ExtLen Options set_Options]. by rewrite !all_padded_fixed. }
  set (el := ExtLen (serialized true e)) in *. clearbody el.
  assert (∀ l1 o l2, Options e = l1 ++ o :: l2 → (OptAlign o).1 ≠ 0 →
    ∃ a c, wire (all_padded true (Options e)) = a ++ opt_bytes o ++ c ∧
      (2 + len a) mod (OptAlign o).1 = (OptAlign o).2 mod (OptAlign o).1) as Hal.
  { intros l1 o l2 El Hx. rewrite El in Hw. destruct (padded_aligned 2 l1 o l2 ltac:(lia) Hw Hx) as (a & c & E & Ha).
    rewrite all_padded_wire, El, E. exists a. eexists. split; [rewrite <- !app_assoc; reflexivity|done]. }
  set (l := all_padded true (Options e)) in *. set (W := wire l) in *.
  exists (serialized true e), ([NextHdr e; el] ++ W). split_and!.
  - rewrite Hs. by rewrite <- app_assoc.
  - rewrite len_app. exact Hm.
  - intros l1 o l2 El Hx. destruct (Hal l1 o l2 El Hx) as (a & c & E & Ha).
    exists ([NextHdr e; el] ++ a), c. split; [by rewrite E, <- app_assoc|]. by rewrite len_app.
  - intros Hle. rewrite len_app in Hle. change (len [NextHdr e; el]) with 2 in Hle.
    pose proof (len_nonneg W). unfold LineLen, AddrType.LineLen in Hel.
    rewrite Z.quot_div_nonneg, uint_of_small in Hel by (try split; dlia).
    assert ((el + 1) * 4 = 2 + len W) as Hal4 by dlia.
    eexists. split; [apply (Extn_DecodeFromBytes_Ok check (NextHdr e) el l b r); try done; unfold LineLen, AddrType.LineLen; dlia|].
    done.
Qed.

(** Decoding an extension header never panics, and the lengths add up: when it
    succeeds, the header is its two first bytes followed by exactly the bytes of
    the decoded options, padding included, fills the lines its length field says,
    and is followed by the payload.  The skipper that does not look at the options
    accepts the same header with the same base, and serialising the decoded
    extension without fixing lengths writes the original bytes. *)
Theorem decode_extension_safe check data r :
  check = checkHopByHopExtnNextHdr ∨ check = checkEndToEndExtnNextHdr → wf_bytes data →
  match Extn.DecodeFromBytes check data r with
  | (e, Ok _) => Contents e ++ Payload e = data ∧ Contents e = [NextHdr e; ExtLen e] ++ wire (Options e) ∧
      len (Contents e) = (ExtLen e + 1) * LineLen ∧ Forall on_wire (Options e) ∧
      Extn.Skip check data r = (set_Options [] e, Ok tt) ∧
      ∀ PrependBytes b opts, (∀ n, 0 ≤ n → len (PrependBytes n) = n) → SCION.FixLengths opts = false →
        Extn.SerializeTo check PrependBytes b opts e = (e, Ok (Contents e ++ b))
  | (_, Err _) => True
  | (_, Panic) => False
  end.
Proof.
  intros Hcheck Hb. pose proof (Extn_DecodeFromBytes_any check data r Hcheck Hb) as H.
  destruct (Extn.DecodeFromBytes check data r) as [e [[]| |]]; [|done..].
  destruct H as (Hd & Hc & Hl & Hw & Ee & Hck & Hsk). split_and!; [done..|].
  intros PrependBytes b opts Hpre Hfix.
  pose proof (Extn_SerializeTo_Ok check PrependBytes e b opts) as Hs. rewrite Hfix in Hs.
  cbn zeta in Hs. unfold serialized in Hs. cbn zeta in Hs.
  rewrite !fixed_false in Hs. rewrite all_padded_false, map_norm_norm in Hs.
  2:{ intros o Ho. rewrite Forall_forall in Hw. by destruct (Hw o Ho) as (?&?&?&?). }
  assert (2 + len (wire (Options e)) = len (Contents e)) as El by (rewrite Hc, len_app; done).
  rewrite Hs; try done.
  - rewrite Hc, <- app_assoc. by destruct e.
  - eapply Forall_impl; [exact Hw|]. apply on_wire_writable.
  - rewrite El, Hl. unfold LineLen, AddrType.LineLen. dlia.
Qed.

(** What the length bytes cannot hold is cut off without an error.  Serialising
    with [FixLengths] an extension of 1280 bytes succeeds and writes the length of
    one of 256 bytes, and decoding what was written fails. *)
Example oversize_extension_truncated :
  let o := TLV.mk 253 0 0 (make_bytes 253) (0, 0) in
  let e := Extn.mk [] [] L4.UDP 0 0 [o; o; o; o; o] in
  ∃ e' out d, EndToEndExtn.SerializeTo make_bytes [] (SCION.mkOpts true false) e = (e', Ok out) ∧
    len out = 1280 ∧ ExtLen e' = 63 ∧
    EndToEndExtn.DecodeFromBytes out zero = (d, Err (New "buffer too short")).
Proof. do 3 eexists. split_and!; [vm_compute; reflexivity..]. Qed.

(** ** Witnesses *)

Definition example_options : list TLV.t :=
  [TLV.mk OptTypeAuthenticator 0 0 [1; 2; 3] (4, 2); TLV.mk OptTypeIdentifier 0 0 [9] (8, 0)].
Definition example_extn : Extn.t := Extn.mk [] [] L4.UDP 0 0 example_options.

Lemma options_roundtrip_witness :
  ∃ e' out d, EndToEndExtn.SerializeTo make_bytes [7] (SCION.mkOpts true false) example_extn = (e', Ok (out ++ [7])) ∧
    EndToEndExtn.DecodeFromBytes (out ++ [7]) zero = (d, Ok tt) ∧
    filter (λ o, is_pad o = false) (Options d) = map norm example_options.
Proof.
  destruct (options_roundtrip checkEndToEndExtnNextHdr make_bytes example_extn zero [7] (SCION.mkOpts true false))
    as (e' & out & Hs & _ & _ & Hd).
  - apply len_make_bytes.
  - done.
  - repeat (apply Forall_cons_2; [split; try done; repeat constructor; done|]). apply Forall_nil_2.
  - repeat (apply Forall_cons_2; [done|]). apply Forall_nil_2.
  - done.
  - destruct Hd as (d & Hd & Hf & _).
    { assert (match Extn.SerializeTo checkEndToEndExtnNextHdr make_bytes [7] (SCION.mkOpts true false) example_extn
              with (_, Ok x) => len x = 13 | _ => False end) as E by (vm_compute; reflexivity).
      rewrite Hs, len_app in E. change (len [7]) with 1 in E. lia. }
    exists e', out, d. split_and!; [exact Hs|exact Hd|exact Hf].
Defined.

Lemma decode_extension_safe_witness :
  ∃ e, HopByHopExtn.DecodeFromBytes [17; 1; 0; 3; 2; 8; 9; 0; 55] zero = (e, Ok tt) ∧
    Payload e = [55] ∧ Contents e = [NextHdr e; ExtLen e] ++ wire (Options e).
Proof.
  pose proof (decode_extension_safe checkHopByHopExtnNextHdr [17; 1; 0; 3; 2; 8; 9; 0; 55] zero) as H.
  specialize (H ltac:(by left) ltac:(repeat constructor; done)).
  unfold HopByHopExtn.DecodeFromBytes.
  destruct (Extn.DecodeFromBytes _ _ _) as [e [[]| |]] eqn:E; [|vm_compute in E; discriminate E..].
  exists e. split; [done|]. split; [|apply H]. vm_compute in E. by injection E as <-.
Defined.

End ExtnProperties.
