(* ===== verification/Options.v ===== *)
(** The options inside the extension headers: the packet authenticator
    ([pkg/slayers/pkt_auth.go]), FABRID and the packet identifier
    ([pkg/slayers/extension/fabrid.go], [identifier.go]). *)
From S2P Require Export Extn.

(** * pkt_auth.go *)
Module PacketAuth.

Import TLV.

Definition PacketAuthASHost : Z := 0.
Definition PacketAuthHostHost : Z := 1.
Definition PacketAuthSenderSide : Z := 0.
Definition PacketAuthReceiverSide : Z := 1.
Definition PacketAuthOptionMetadataLen : Z := 12.

(** [PacketAuthSPI] is a 32-bit integer. *)
Definition Type_ (p : Z) : Z :=
  if Z.land p (Z.shiftl 1 17) =? 0 then PacketAuthASHost else PacketAuthHostHost.
Definition Direction (p : Z) : Z :=
  if Z.land p (Z.shiftl 1 16) =? 0 then PacketAuthSenderSide else PacketAuthReceiverSide.
Definition DRKeyProto (p : Z) : Z := u16 p.
Definition IsDRKey (p : Z) : bool := (0 <? p) && (p <? Z.shiftl 1 21).

Definition MakePacketAuthSPIDRKey (proto drkeyType dir : Z) : outcome Z :=
  _ ← fail_if (proto <? 1) (New "Invalid proto identifier value");
  _ ← fail_if (1 <? drkeyType) (New "Invalid DRKeyType value");
  _ ← fail_if (1 <? dir) (New "Invalid DRKeyDirection value");
  let spi := u32 (Z.shiftl (Z.land drkeyType 0x1) 17) in
  let spi := Z.lor spi (u32 (Z.shiftl (Z.land dir 0x1) 16)) in
  Ok (Z.lor spi proto).

Record Params := mkParams {
  SPI : Z;
  Algorithm : Z;
  TimestampSN : Z;
  Auth : bytes
}.

Definition bigEndianUint48 (b : bytes) : outcome Z :=
  b0 ← get b 0;
  b1 ← get b 1;
  lo ← sub b 2 6 ≫= Uint32;
  Ok (u64 (u64 (u64 (Z.shiftl b0 40) + u64 (Z.shiftl b1 32)) + lo)).

Definition bigEndianPutUint48 (b : bytes) (v : Z) : outcome bytes :=
  b ← put b 0 (u8 (Z.shiftr v 40));
  b ← put b 1 (u8 (Z.shiftr v 32));
  on_sub b 2 6 (λ b, PutUint32 b (u32 v)).

(** [spare] are the bytes between the length and the capacity of [OptData]. *)
Definition Reset (p : Params) (spare : bytes) : SE TLV.t unit :=
  _ ← lift (fail_if (Z.shiftl 1 48 <=? TimestampSN p)
              (New "Timestamp value should be smaller than 2^48"));
  o ← gets id;
  let n := PacketAuthOptionMetadataLen + len (Auth p) in
  data ← lift (if n <=? len (OptData o ++ spare) then sub (OptData o ++ spare) 0 n
               else Ok (make_bytes n));
  data ← lift (on_sub data 0 4 (λ b, PutUint32 b (SPI p)));
  data ← lift (put data 4 (Algorithm p));
  data ← lift (put data 5 0);
  data ← lift (on_sub data 6 12 (λ b, bigEndianPutUint48 b (TimestampSN p)));
  data ← lift (on_sub_from data 12 (λ b, Ok (copy b (Auth p))));
  modify (λ _, TLV.mk OptTypeAuthenticator 0 0 data (4, 2)).

Definition NewPacketAuthOption (p : Params) : TLV.t * outcome unit :=
  Reset p [] (TLV.mk 0 0 0 [] (0, 0)).

Definition ParsePacketAuthOption (o : TLV.t) : outcome TLV.t :=
  _ ← fail_if (negb (OptType o =? OptTypeAuthenticator)) (New "wrong option type");
  _ ← fail_if (len (OptData o) <? PacketAuthOptionMetadataLen) (New "buffer too short");
  Ok o.

Definition get_SPI (o : TLV.t) : outcome Z := sub (OptData o) 0 4 ≫= Uint32.
Definition get_Algorithm (o : TLV.t) : outcome Z := get (OptData o) 4.
Definition get_TimestampSN (o : TLV.t) : outcome Z := sub (OptData o) 6 12 ≫= bigEndianUint48.
Definition Authenticator (o : TLV.t) : outcome bytes := sub_from (OptData o) 12.

End PacketAuth.

(** * extension/fabrid.go *)
Module Fabrid.

Definition baseFabridLen : Z := 4.
Definition FabridMetadataLen : Z := 4.
Definition MaxSupportedFabridHops : Z := 62.

(** [FabridHopfieldMetadata] *)
Record md := mkMd {
  EncryptedPolicyID : Z;
  FabridEnabled : bool;
  ASLevelKey : bool;
  HopValidationField : bytes
}.

(** [FabridOption] *)
Record t := mk {
  HopfieldMetadata : list md;
  PathValidator : bytes
}.

Definition md_zero : md := mkMd 0 false false [0; 0; 0].
Definition zero : t := mk [] [0; 0; 0; 0].

(** [decodeFabridHopfieldMetadata]: the flags are set but never cleared. *)
Definition decode_md (b : bytes) : SE md unit :=
  f ← gets id;
  b0 ← lift (get b 0);
  src ← lift (sub b 1 4);
  let hvf := copy (HopValidationField f) src in
  b1 ← lift (get b 1);
  let enabled := 0 <? Z.land b1 0x80 in
  let asLevel := enabled && (0 <? Z.land b1 0x40) in
  h0 ← lift (get hvf 0);
  hvf ← lift (put hvf 0 (Z.land h0 0x3f));
  modify (λ f, mkMd b0 (enabled || FabridEnabled f) (asLevel || ASLevelKey f) hvf).

Definition DecodeFabridHopfieldMetadata (b : bytes) : SE md unit :=
  _ ← lift (fail_if (len b <? FabridMetadataLen) (New "Buffer too small to decode metadata"));
  decode_md b.

(** [serializeTo] *)
Definition serialize_md (f : md) (b : bytes) : outcome bytes :=
  b ← put b 0 (EncryptedPolicyID f);
  b ← on_sub b 1 4 (λ b, Ok (copy b (HopValidationField f)));
  b1 ← get b 1;
  let b1 := Z.land b1 0x3f in
  let b1 := if FabridEnabled f
            then let b1 := Z.lor b1 0x80 in if ASLevelKey f then Z.lor b1 0x40 else b1
            else b1 in
  put b 1 b1.

Definition SerializeTo_md (f : md) (b : bytes) : outcome bytes :=
  _ ← fail_if (len b <? FabridMetadataLen) (New "Buffer too small to serialize metadata");
  serialize_md f b.

Definition FabridOptionLen (numHopfields : Z) : Z :=
  u8 (baseFabridLen + u8 (numHopfields * FabridMetadataLen)).

(** [None] is the nil receiver. *)
Definition validate (f : option t) (b : bytes) (currHf numHfs : Z) : outcome unit :=
  match f with
  | None => Err (New "Fabrid option must not be nil")
  | Some _ =>
      _ ← fail_if (len b <? FabridOptionLen numHfs) (New "Raw Fabrid option too short");
      _ ← fail_if (MaxSupportedFabridHops <? numHfs)
            (New "Fabrid is not supported for paths consisting of more than 62 hopfields");
      fail_if (numHfs <=? currHf) (New "Current HF is >= the number of HFs")
  end.

(** A new metadata field decoded at [byteIndex]. *)
Definition new_md (b : bytes) (byteIndex : Z) : outcome md :=
  raw ← sub b byteIndex (byteIndex + FabridMetadataLen);
  let '(m, r) := decode_md raw md_zero in
  _ ← r; Ok m.

Definition DecodeForHF (b : bytes) (currHf numHfs : Z) : SE (option t) unit :=
  f ← gets id;
  _ ← lift (validate f b currHf numHfs);
  m ← lift (new_md b (currHf * FabridMetadataLen));
  modify (fmap (λ f, mk [m] (PathValidator f))).

(** The loop of [DecodeFull] over the [n] hop fields left. *)
Fixpoint decode_mds (n : nat) (b : bytes) (byteIndex : Z) : outcome (list md * Z) :=
  match n with
  | O => Ok ([], byteIndex)
  | S n =>
      m ← new_md b byteIndex;
      r ← decode_mds n b (byteIndex + FabridMetadataLen);
      let '(ms, byteIndex) := r in
      Ok (m :: ms, byteIndex)
  end.

Definition DecodeFull (b : bytes) (numHfs : Z) : SE (option t) unit :=
  f ← gets id;
  _ ← lift (validate f b 0 numHfs);
  r ← lift (decode_mds (Z.to_nat numHfs) b 0);
  let '(ms, byteIndex) := r in
  pv ← lift (sub b byteIndex (byteIndex + 4));
  modify (fmap (λ f, mk ms (copy (PathValidator f) pv))).

Fixpoint serialize_mds (ms : list md) (b : bytes) (byteIndex : Z) : outcome (bytes * Z) :=
  match ms with
  | [] => Ok (b, byteIndex)
  | m :: ms =>
      b ← on_sub b byteIndex (byteIndex + 4) (serialize_md m);
      serialize_mds ms b (byteIndex + 4)
  end.

Definition SerializeTo (f : option t) (b : bytes) : outcome bytes :=
  match f with
  | None => Err (New "Fabrid option must not be nil")
  | Some f =>
      _ ← fail_if (len b <? FabridOptionLen (u8 (len (HopfieldMetadata f)))) (New "Buffer too short");
      _ ← fail_if (MaxSupportedFabridHops <? len (HopfieldMetadata f))
            (New "Fabrid is not supported for paths consisting of more than 62 hopfields");
      r ← serialize_mds (HopfieldMetadata f) b 0;
      let '(b, byteIndex) := r in
      on_sub b byteIndex (byteIndex + 4) (λ b, Ok (copy b (PathValidator f)))
  end.

Definition run_new (m : SE (option t) unit) : outcome t :=
  let '(f, r) := m (Some zero) in
  _ ← r; match f with Some f => Ok f | None => Panic end.

Definition ParseFabridOptionFullExtension (o : TLV.t) (numHfs : Z) : outcome t :=
  _ ← fail_if (negb (TLV.OptType o =? TLV.OptTypeFabrid)) (New "Wrong option type");
  run_new (DecodeFull (TLV.OptData o) numHfs).

Definition ParseFabridOptionCurrentHop (o : TLV.t) (currHf numHfs : Z) : outcome t :=
  _ ← fail_if (negb (TLV.OptType o =? TLV.OptTypeFabrid)) (New "Wrong option type");
  run_new (DecodeForHF (TLV.OptData o) currHf numHfs).

End Fabrid.

(** * extension/identifier.go *)
Module Identifier.

Definition identifierLength : Z := 8.
Definition Millisecond : Z := 1000000.

(** [Timestamp], a [time.Time], is nanoseconds since the epoch. *)
Record t := mk {
  Timestamp : Z;
  PacketID : Z;
  BaseTimestamp : Z
}.

(** [Time.UnixMilli] *)
Definition UnixMilli (ts : Z) : Z := ts / Millisecond.

Definition GetRelativeTimestamp (id : t) : Z :=
  Z.land (u32 (i64 (UnixMilli (Timestamp id) - i64 (BaseTimestamp id * 1000)))) 0x7FFFFFF.

Definition decodeTimestampFromBytes (b : bytes) : SE t unit :=
  id' ← gets id;
  raw ← lift (Uint32 b);
  let relativeTimestamp := Z.land raw 0x7FFFFFF in
  let ts := u64 (relativeTimestamp + u64 (1000 * BaseTimestamp id')) in
  modify (λ i, mk (i64 (Millisecond * i64 ts)) (PacketID i) (BaseTimestamp i)).

Definition serializeTimestampTo (id : t) (b : bytes) : outcome bytes :=
  PutUint32 b (GetRelativeTimestamp id).

Definition decode (b : bytes) : SE t unit :=
  _ ← lift (fail_if (len b <? identifierLength) (New "raw data too short"));
  raw ← lift (sub b 0 4);
  _ ← decodeTimestampFromBytes raw;
  pid ← lift (sub b 4 8 ≫= Uint32);
  modify (λ i, mk (Timestamp i) pid (BaseTimestamp i)).

(** [None] is the nil receiver. *)
Definition Serialize (id : option t) (b : bytes) : outcome bytes :=
  match id with
  | None => Err (New "identifier option must not be nil")
  | Some id =>
      _ ← fail_if (len b <? identifierLength) (New "buffer too short");
      b ← on_sub b 0 4 (serializeTimestampTo id);
      on_sub b 4 8 (λ b, PutUint32 b (PacketID id))
  end.

Definition ParseIdentifierOption (o : TLV.t) (baseTimestamp : Z) : outcome t :=
  _ ← fail_if (negb (TLV.OptType o =? TLV.OptTypeIdentifier)) (New "Wrong option type");
  let '(id, r) := decode (TLV.OptData o) (mk 0 0 baseTimestamp) in
  _ ← r; Ok id.

End Identifier.

(** * Lemmas *)
Module OptionsLemmas.

(** ** Single bits *)

Lemma land_pow2_small p k : 0 ≤ p < 2 ^ k → Z.land p (2 ^ k) = 0.
Proof.
  intros Hp. assert (0 ≤ k) by (destruct (Z.neg_nonneg_cases k); [rewrite Z.pow_neg_r in Hp by done; lia|done]).
  apply Z.bits_inj'. intros i Hi. rewrite Z.land_spec, Z.bits_0.
  destruct (decide (i = k)) as [->|].
  - assert (Z.testbit p k = false) as -> by (apply Z.testbit_false; [lia|by rewrite Z.div_small]). done.
  - rewrite Z.pow2_bits_false by done. apply andb_false_r.
Qed.

Lemma u16_lor_high c p : c mod 2 ^ 16 = 0 → is_u16 p → u16 (Z.lor c p) = p.
Proof.
  intros Hc Hp. rewrite (lor_disjoint_add c p 16) by (lia || done). unfold uint_of.
  rewrite <- Z.add_mod_idemp_l, Hc by lia. by apply Z.mod_small.
Qed.

(** ** The packet authenticator *)
Section packet_auth.
Import PacketAuth.

Definition encode48 (v : Z) : bytes := [u8 (Z.shiftr v 40); u8 (Z.shiftr v 32)] ++ be_bytes 4 (u32 v).

Definition encode_auth (p : Params) : bytes :=
  be_bytes 4 (SPI p) ++ [Algorithm p; 0] ++ encode48 (TimestampSN p) ++ Auth p.

Record wf_params (p : Params) : Prop := {
  wf_SPI : is_u32 (SPI p);
  wf_Algorithm : is_u8 (Algorithm p);
  wf_TimestampSN : is_u64 (TimestampSN p);
  wf_Auth : wf_bytes (Auth p)
}.

Lemma get48_encode48 v : 0 ≤ v < 2 ^ 48 → bigEndianUint48 (encode48 v) = Ok v.
Proof.
  intros Hv. unfold bigEndianUint48, encode48. set (lo := be_bytes 4 (u32 v)).
  assert (len lo = 4) by done.
  assert (be_val lo = u32 v) as Ev by (apply be_val_be_bytes_32, uint_of_range; lia). clearbody lo.
  set (h := u8 (Z.shiftr v 40)). set (m := u8 (Z.shiftr v 32)).
  change (get ([h; m] ++ lo) 0) with (Ok h). change (get ([h; m] ++ lo) 1) with (Ok m). go_cbn.
  rewrite (sub_suffix [h; m]) by (rewrite ?len_app; change (len [h; m]) with 2; lia). go_cbn.
  unfold Uint32. rewrite <- (app_nil_r lo), get_be_app by done. go_cbn. rewrite Ev. subst h m. f_equal.
  unfold uint_of. rewrite !Z.shiftl_mul_pow2, !Z.shiftr_div_pow2 by lia. dlia.
Qed.

Lemma put48 v a : len a = 6 → bigEndianPutUint48 a v = Ok (encode48 v).
Proof.
  intros La. assert (length a = 6%nat) as Hl by (unfold len in La; lia). clear La. do 6 (destruct a as [|? a]; [done|]). destruct a; [|done]. reflexivity.
Qed.

Lemma Reset_Ok p spare o :
  wf_params p → TimestampSN p < 2 ^ 48 →
  Reset p spare o = (TLV.mk TLV.OptTypeAuthenticator 0 0 (encode_auth p) (4, 2), Ok tt).
Proof.
  intros [H1 H2 H3 H4] Ht. unfold Reset.
  rewrite (SE_bind_eq _ _ o o tt).
  2:{ unfold lift. change (Z.shiftl 1 48) with (2 ^ 48). by replace (_ <=? _) with false by lia. }
  rewrite (SE_bind_eq _ _ o o o) by done. cbn zeta. unfold PacketAuthOptionMetadataLen.
  pose proof (len_nonneg (Auth p)).
  assert (∃ a0 x y a1 r, (if 12 + len (Auth p) <=? len (TLV.OptData o ++ spare)
    then sub (TLV.OptData o ++ spare) 0 (12 + len (Auth p)) else Ok (make_bytes (12 + len (Auth p))))
      = Ok (a0 ++ x :: y :: a1 ++ r) ∧
    len a0 = 4 ∧ len a1 = 6 ∧ len r = len (Auth p)) as (a0 & x & y & a1 & r & E & L0 & L1 & Lr).
  { assert (∃ d, (if 12 + len (Auth p) <=? len (TLV.OptData o ++ spare)
      then sub (TLV.OptData o ++ spare) 0 (12 + len (Auth p)) else Ok (make_bytes (12 + len (Auth p)))) = Ok d ∧
      len d = 12 + len (Auth p)) as (d & -> & Ld).
    { destruct (Z.leb_spec (12 + len (Auth p)) (len (TLV.OptData o ++ spare))) as [Hl|Hl].
      - eexists. split; [apply sub_Ok; lia|]. rewrite len_take, len_drop. lia.
      - eexists. split; [done|]. rewrite len_make_bytes; lia. }
    destruct (split_len 4 d) as (a0 & c & -> & L0 & Lc); [lia|]. rewrite len_app in Ld.
    destruct c as [|x [|y c]]; rewrite ?len_cons in *; change (len (@nil Z)) with 0 in *; [lia..|].
    destruct (split_len 6 c) as (a1 & r & -> & L1 & Lr); [lia|]. rewrite len_app in Ld.
    exists a0, x, y, a1, r. split_and!; [done..|lia]. }
  rewrite (SE_bind_eq _ _ o o (a0 ++ x :: y :: a1 ++ r)) by (unfold lift; by rewrite E). clear E.
  set (s4 := be_bytes 4 (SPI p)). assert (len s4 = 4) as Ls by done.
  rewrite (SE_bind_eq _ _ o o (s4 ++ x :: y :: a1 ++ r)).
  2:{ unfold lift. rewrite on_sub_prefix by lia. unfold PutUint32. rewrite <- (app_nil_r a0), put_be_app by done.
      go_cbn. by rewrite app_nil_r. }
  rewrite (SE_bind_eq _ _ o o (s4 ++ Algorithm p :: y :: a1 ++ r)) by (unfold lift; by rewrite put_app).
  rewrite (SE_bind_eq _ _ o o ((s4 ++ [Algorithm p]) ++ 0 :: a1 ++ r)).
  2:{ unfold lift. change (s4 ++ Algorithm p :: y :: a1 ++ r) with (s4 ++ [Algorithm p] ++ y :: a1 ++ r).
      rewrite app_assoc. rewrite put_app by (rewrite len_app, len_cons, len_nil; lia). done. }
  set (pre := s4 ++ [Algorithm p; 0]). assert (len pre = 6) as Lp by (unfold pre; rewrite len_app, Ls; done).
  replace ((s4 ++ [Algorithm p]) ++ 0 :: a1 ++ r) with (pre ++ a1 ++ r)
    by (unfold pre; by rewrite <- !app_assoc).
  rewrite (SE_bind_eq _ _ o o (pre ++ encode48 (TimestampSN p) ++ r)).
  2:{ unfold lift. rewrite (on_sub_mid pre a1 r) by lia. by rewrite put48 by done. }
  rewrite (SE_bind_eq _ _ o o ((pre ++ encode48 (TimestampSN p)) ++ Auth p)).
  2:{ unfold lift, on_sub_from. rewrite (app_assoc pre).
      rewrite (on_sub_suffix (pre ++ encode48 (TimestampSN p)) r) by (rewrite ?len_app, ?Lp; done).
      go_cbn. rewrite copy_same by (unfold len in Lr; lia). done. }
  unfold modify, encode_auth, pre. by rewrite <- !app_assoc.
Qed.
End packet_auth.

(** ** FABRID *)
Section fabrid.
Import Fabrid.

(** The second byte of a metadata field. *)
Definition hvf_byte (enabled asLevel : bool) (h : Z) : Z :=
  h + (if enabled then if asLevel then 192 else 128 else 0).

Definition encode_md (m : md) : bytes :=
  match HopValidationField m with
  | h :: r => EncryptedPolicyID m :: hvf_byte (FabridEnabled m) (ASLevelKey m) h :: r
  | [] => []
  end.

(** The metadata in four bytes. *)
Definition md_of (b : bytes) : md :=
  match b with
  | b0 :: b1 :: r =>
      let enabled := 0 <? Z.land b1 0x80 in
      mkMd b0 enabled (enabled && (0 <? Z.land b1 0x40)) (Z.land b1 0x3f :: r)
  | _ => md_zero
  end.

Definition chunk (b : bytes) (i : Z) : bytes := take 4 (drop (Z.to_nat i) b).

Record wf_md (m : md) : Prop := {
  wf_EncryptedPolicyID : is_u8 (EncryptedPolicyID m);
  wf_ASLevelKey : ASLevelKey m = true → FabridEnabled m = true;
  wf_HVF : ∃ h h1 h2, HopValidationField m = [h; h1; h2] ∧ 0 ≤ h < 64 ∧ is_u8 h1 ∧ is_u8 h2
}.

Definition wf_fabrid (f : t) : Prop :=
  Forall wf_md (HopfieldMetadata f) ∧ 1 ≤ len (HopfieldMetadata f) ≤ 62 ∧
  wf_bytes (PathValidator f) ∧ length (PathValidator f) = 4%nat.

Lemma hvf_byte_enc (e a : bool) h :
  0 ≤ h < 64 →
  (if e then if a then Z.lor (Z.lor (Z.land h 0x3f) 0x80) 0x40 else Z.lor (Z.land h 0x3f) 0x80
   else Z.land h 0x3f) = hvf_byte e a h.
Proof.
  intros H. apply Z.eqb_eq.
  pose proof (byte_cases (λ h, (64 <=? h) || ((if e then if a then Z.lor (Z.lor (Z.land h 0x3f) 0x80) 0x40
    else Z.lor (Z.land h 0x3f) 0x80 else Z.land h 0x3f) =? hvf_byte e a h)) h
    ltac:(by destruct e, a; vm_compute) ltac:(lia)) as E.
  cbn beta in E. apply orb_true_iff in E as [E|E]; [lia|exact E].
Qed.

Lemma hvf_byte_dec e a h :
  0 ≤ h < 64 → (a = true → e = true) →
  (0 <? Z.land (hvf_byte e a h) 0x80) = e ∧ e && (0 <? Z.land (hvf_byte e a h) 0x40) = a ∧
  Z.land (hvf_byte e a h) 0x3f = h.
Proof.
  intros H Ha.
  pose proof (byte_cases (λ h, (64 <=? h) || (Bool.eqb (0 <? Z.land (hvf_byte e a h) 0x80) e
    && Bool.eqb (e && (0 <? Z.land (hvf_byte e a h) 0x40)) a && (Z.land (hvf_byte e a h) 0x3f =? h))) h
    ltac:(destruct e, a; try (by discriminate Ha); by vm_compute) ltac:(lia)) as E.
  cbn beta in E. apply orb_true_iff in E as [E|E]; [lia|].
  apply andb_true_iff in E as [[E1 E2]%andb_true_iff E3].
  by rewrite (Bool.eqb_prop _ _ E1), (Bool.eqb_prop _ _ E2), (proj1 (Z.eqb_eq _ _) E3).
Qed.

Lemma serialize_md_Ok m b : wf_md m → length b = 4%nat → serialize_md m b = Ok (encode_md m).
Proof.
  intros [_ _ (h & h1 & h2 & E & Hh & _)] Hl. do 4 (destruct b as [|? b]; [done|]). destruct b; [|done].
  unfold serialize_md, encode_md. rewrite E.
  transitivity (Ok (EncryptedPolicyID m :: (if FabridEnabled m then if ASLevelKey m
    then Z.lor (Z.lor (Z.land h 0x3f) 0x80) 0x40 else Z.lor (Z.land h 0x3f) 0x80 else Z.land h 0x3f) :: [h1; h2])).
  - destruct (FabridEnabled m), (ASLevelKey m); reflexivity.
  - by rewrite hvf_byte_enc.
Qed.

Lemma md_of_encode m : wf_md m → md_of (encode_md m) = m.
Proof.
  destruct m as [p e a hvf]. intros [_ Ha (h & h1 & h2 & E & Hh & _)]. cbn in E, Ha. subst hvf.
  unfold encode_md. cbn [HopValidationField md_of FabridEnabled ASLevelKey EncryptedPolicyID].
  by destruct (hvf_byte_dec e a h Hh Ha) as (-> & -> & ->).
Qed.

Lemma len_encode_md m : wf_md m → length (encode_md m) = 4%nat ∧ wf_bytes (encode_md m).
Proof.
  intros [? ? (h & h1 & h2 & E & Hh & ? & ?)]. unfold encode_md. rewrite E. split; [done|].
  apply Forall_cons_2; [done|]. apply Forall_cons_2; [|wf_list].
  unfold hvf_byte. destruct (FabridEnabled m), (ASLevelKey m); ulia.
Qed.

Lemma md_of_wf b : wf_bytes b → length b = 4%nat → wf_md (md_of b).
Proof.
  intros Hb Hl. do 4 (destruct b as [|? b]; [done|]). destruct b; [|done]. wf_elems Hb. split; cbn.
  - done.
  - by intros [-> _]%andb_true_iff.
  - eexists _, _, _. split_and!; try done. change 63 with (2 ^ 6 - 1). rewrite land_ones_mod by lia. dlia.
    change 63 with (2 ^ 6 - 1). rewrite land_ones_mod by lia. dlia.
Qed.

Lemma chunk_app a m c i : i = len a → length m = 4%nat → chunk (a ++ m ++ c) i = m.
Proof.
  intros -> Hm. unfold chunk, len. rewrite Nat2Z.id, drop_app_length. rewrite <- Hm. apply take_app_length.
Qed.

Lemma length_chunk b i : 0 ≤ i → i + 4 ≤ len b → length (chunk b i) = 4%nat.
Proof. intros. unfold chunk, len in *. rewrite length_take, length_drop. lia. Qed.

Lemma new_md_Ok b i : 0 ≤ i → i + 4 ≤ len b → new_md b i = Ok (md_of (chunk b i)).
Proof.
  intros H0 H1. unfold new_md, FabridMetadataLen. rewrite sub_Ok by lia. go_cbn.
  replace (Z.to_nat (i + 4 - i)) with 4%nat by lia. fold (chunk b i).
  pose proof (length_chunk b i H0 H1) as Hl. set (c := chunk b i) in *. clearbody c.
  do 4 (destruct c as [|? c]; [done|]). destruct c; [|done].
  transitivity (Ok (mkMd z ((0 <? Z.land z0 0x80) || false)
    ((0 <? Z.land z0 0x80) && (0 <? Z.land z0 0x40) || false) [Z.land z0 0x3f; z1; z2])); [reflexivity|].
  by rewrite !orb_false_r.
Qed.

Lemma decode_mds_Ok n b i :
  0 ≤ i → i + 4 * Z.of_nat n ≤ len b →
  decode_mds n b i = Ok (map (λ k, md_of (chunk b (i + 4 * Z.of_nat k))) (seq 0 n), i + 4 * Z.of_nat n).
Proof.
  revert i. induction n as [|n IH]; intros i H0 H1; cbn [decode_mds].
  - do 2 f_equal. lia.
  - rewrite new_md_Ok by lia. go_cbn. unfold FabridMetadataLen. rewrite IH by lia. go_cbn.
    cbn [seq map]. rewrite <- seq_shift, map_map. do 2 f_equal; [|lia].
    f_equal; [do 2 f_equal; lia|]. apply map_ext. intros k. do 2 f_equal. lia.
Qed.

Lemma FabridOptionLen_small n : 0 ≤ n ≤ 62 → FabridOptionLen n = 4 + 4 * n.
Proof.
  intros. unfold FabridOptionLen, baseFabridLen, FabridMetadataLen.
  rewrite (uint_of_small 8 (n * 4)), uint_of_small by (split; lia). lia.
Qed.

(** The two decoders, on any bytes. *)
Lemma validate_Ok f b cur num u :
  validate (Some f) b cur num = Ok u → is_u8 num → 4 + 4 * num ≤ len b ∧ num ≤ 62 ∧ cur < num.
Proof.
  unfold validate. intros H Hn. go_inv. unfold MaxSupportedFabridHops in *. uint_bounds.
  rewrite FabridOptionLen_small in * by lia. lia.
Qed.

Lemma validate_no_panic f b cur num : no_panic (validate (Some f) b cur num).
Proof. unfold validate. repeat (apply no_panic_bind; [auto with go|intros _ _]). auto with go. Qed.

Lemma validate_cur f b cur num :
  cur < num → validate (Some f) b cur num = validate (Some f) b 0 num ∨ num ≤ 0.
Proof.
  intros. unfold validate. destruct (decide (num ≤ 0)); [by right|left].
  replace (num <=? cur) with false by lia. by replace (num <=? 0) with false by lia.
Qed.

Lemma DecodeForHF_Ok b cur num :
  0 ≤ cur → is_u8 num →
  run_new (DecodeForHF b cur num) =
    (_ ← validate (Some zero) b cur num; Ok (mk [md_of (chunk b (4 * cur))] [0; 0; 0; 0])).
Proof.
  intros Hc Hn. unfold run_new, DecodeForHF. rewrite (SE_bind_eq _ _ (Some zero) (Some zero) (Some zero)) by done.
  destruct (validate (Some zero) b cur num) as [[]| |] eqn:Ev; [|done..].
  rewrite (SE_bind_eq _ _ (Some zero) (Some zero) tt) by done.
  apply validate_Ok in Ev as (? & ? & ?); [|done]. unfold FabridMetadataLen.
  rewrite (SE_bind_eq _ _ (Some zero) (Some zero) (md_of (chunk b (cur * 4)))).
  - unfold modify. go_cbn. by replace (cur * 4) with (4 * cur) by lia.
  - unfold lift. by rewrite new_md_Ok by lia.
Qed.

Lemma DecodeFull_Ok b num :
  is_u8 num →
  run_new (DecodeFull b num) =
    (_ ← validate (Some zero) b 0 num;
     Ok (mk (map (λ k, md_of (chunk b (4 * Z.of_nat k))) (seq 0 (Z.to_nat num))) (chunk b (4 * num)))).
Proof.
  intros Hn. unfold run_new, DecodeFull. rewrite (SE_bind_eq _ _ (Some zero) (Some zero) (Some zero)) by done.
  destruct (validate (Some zero) b 0 num) as [[]| |] eqn:Ev; [|done..].
  rewrite (SE_bind_eq _ _ (Some zero) (Some zero) tt) by done.
  apply validate_Ok in Ev as (? & ? & ?); [|done].
  rewrite (SE_bind_eq _ _ (Some zero) (Some zero) (map (λ k, md_of (chunk b (4 * Z.of_nat k))) (seq 0 (Z.to_nat num)), 4 * num)).
  2:{ unfold lift. rewrite decode_mds_Ok by lia. do 4 f_equal. lia. }
  rewrite (SE_bind_eq _ _ (Some zero) (Some zero) (chunk b (4 * num))).
  2:{ unfold lift. rewrite sub_Ok by lia. by replace (Z.to_nat (4 * num + 4 - 4 * num)) with 4%nat by lia. }
  unfold modify. go_cbn. cbn [fmap option_fmap option_map PathValidator zero].
  by rewrite copy_same by (rewrite length_chunk by lia; done).
Qed.

Lemma serialize_mds_Ok ms pre d i :
  Forall wf_md ms → i = len pre → 4 * len ms ≤ len d →
  serialize_mds ms (pre ++ d) i =
    Ok (pre ++ concat (map encode_md ms) ++ drop (4 * length ms) d, i + 4 * len ms).
Proof.
  revert pre d i. induction ms as [|m ms IH]; intros pre d i Hw -> Hd; cbn [serialize_mds].
  - cbn [map concat app]. change (drop (4 * length []) d) with d. rewrite (@len_nil md). do 2 f_equal. lia.
  - apply Forall_cons_1 in Hw as [Hm Hw]. rewrite len_cons in *. pose proof (len_nonneg ms).
    destruct (split_len 4 d) as (c & d' & -> & Lc & Ld); [lia|]. rewrite len_app in Hd.
    assert (length c = 4%nat) by (unfold len in Lc; lia).
    rewrite on_sub_mid by lia. rewrite serialize_md_Ok by done. go_cbn.
    destruct (len_encode_md m Hm) as [Le _].
    rewrite (app_assoc pre). rewrite IH; [|done|rewrite len_app; unfold len in *; lia|lia].
    replace (4 * length (m :: ms))%nat with (length c + 4 * length ms)%nat by (cbn [length]; lia).
    rewrite <- drop_drop, drop_app_length. cbn [map concat]. rewrite <- !app_assoc.
    by replace (len pre + 4 + 4 * len ms) with (len pre + 4 * (1 + len ms)) by lia.
Qed.

Lemma length_concat_md ms : Forall wf_md ms → len (concat (map encode_md ms)) = 4 * len ms.
Proof.
  induction 1 as [|m ms Hm _ IH]; [done|]. cbn [map concat]. rewrite len_app, len_cons, IH.
  destruct (len_encode_md m Hm) as [Le _]. unfold len at 1. rewrite Le. lia.
Qed.

Lemma chunk_concat pre ms post k m :
  Forall wf_md ms → ms !! k = Some m →
  chunk (pre ++ concat (map encode_md ms) ++ post) (len pre + 4 * Z.of_nat k) = encode_md m.
Proof.
  intros Hw Hk. pose proof (take_drop_middle ms k m Hk) as E. rewrite <- E in Hw |- *.
  apply Forall_app in Hw as [H1 [H2 _]%Forall_cons_1].
  rewrite map_app, concat_app. cbn [map concat]. rewrite <- !app_assoc.
  rewrite (app_assoc pre). apply chunk_app; [|by apply len_encode_md].
  rewrite len_app, length_concat_md by done. apply lookup_lt_Some in Hk. rewrite len_take. unfold len. lia.
Qed.

End fabrid.
End OptionsLemmas.

(** * Properties *)
Module OptionsProperties.

Import OptionsLemmas.

(** The security parameter index holds what it was made of.  [Make...] accepts
    exactly a non-zero protocol, a type and a direction of one bit; the index then
    fits 21 bits, is recognised as a DRKey index, and gives the three values back. *)
Theorem spi_roundtrip proto drkeyType dir :
  is_u16 proto → is_u8 drkeyType → is_u8 dir →
  match PacketAuth.MakePacketAuthSPIDRKey proto drkeyType dir with
  | Ok spi => 1 ≤ proto ∧ drkeyType ≤ 1 ∧ dir ≤ 1 ∧ PacketAuth.IsDRKey spi = true ∧
      PacketAuth.Type_ spi = drkeyType ∧ PacketAuth.Direction spi = dir ∧ PacketAuth.DRKeyProto spi = proto
  | Err _ => proto = 0 ∨ 1 < drkeyType ∨ 1 < dir
  | Panic => False
  end.
Proof.
  intros Hp Ht Hd. unfold PacketAuth.MakePacketAuthSPIDRKey. uint_bounds.
  destruct (Z.ltb_spec proto 1); [left; lia|]. destruct (Z.ltb_spec 1 drkeyType); [by right; left|].
  destruct (Z.ltb_spec 1 dir); [by right; right|]. cbn [fail_if]. go_cbn.
  assert (Z.land proto (2 ^ 17) = 0) as E17 by (apply land_pow2_small; lia).
  assert (Z.land proto (2 ^ 16) = 0) as E16 by (apply land_pow2_small; lia).
  assert (∃ c, Z.lor (u32 (Z.shiftl (Z.land drkeyType 1) 17)) (u32 (Z.shiftl (Z.land dir 1) 16)) = c ∧
    c mod 2 ^ 16 = 0 ∧ 0 ≤ c < 2 ^ 18 ∧
    (if Z.land c (2 ^ 17) =? 0 then 0 else 1) = drkeyType ∧ (if Z.land c (2 ^ 16) =? 0 then 0 else 1) = dir)
    as (c & -> & Hc & Hr & H17 & H16).
  { exists (drkeyType * 131072 + dir * 65536).
    assert (drkeyType = 0 ∨ drkeyType = 1) as [-> | ->] by lia;
    assert (dir = 0 ∨ dir = 1) as [-> | ->] by lia; done. }
  split_and!; [done..| | | |by apply u16_lor_high].
  - unfold PacketAuth.IsDRKey. rewrite (lor_disjoint_add c proto 16) by (lia || done).
    change (Z.shiftl 1 21) with (2 ^ 21). lia.
  - unfold PacketAuth.Type_. change (Z.shiftl 1 17) with (2 ^ 17). by rewrite Z.land_lor_distr_l, E17, Z.lor_0_r.
  - unfold PacketAuth.Direction. change (Z.shiftl 1 16) with (2 ^ 16). by rewrite Z.land_lor_distr_l, E16, Z.lor_0_r.
Qed.

(** A packet authenticator option reads back what it was filled with.  [Reset]
    refuses exactly timestamps of more than 48 bits, leaving the option alone;
    otherwise, whatever the option and the spare capacity of its buffer held, the
    option is an authenticator option aligned to 4n+2 that parses, and its
    accessors give the index, the algorithm, the timestamp and the authenticator. *)
Theorem packet_auth_roundtrip p spare o :
  wf_params p →
  match PacketAuth.Reset p spare o with
  | (o', Ok _) => PacketAuth.TimestampSN p < 2 ^ 48 ∧ PacketAuth.ParsePacketAuthOption o' = Ok o' ∧
      TLV.OptAlign o' = (4, 2) ∧ wf_bytes (TLV.OptData o') ∧
      PacketAuth.get_SPI o' = Ok (PacketAuth.SPI p) ∧ PacketAuth.get_Algorithm o' = Ok (PacketAuth.Algorithm p) ∧
      PacketAuth.get_TimestampSN o' = Ok (PacketAuth.TimestampSN p) ∧
      PacketAuth.Authenticator o' = Ok (PacketAuth.Auth p)
  | (o', Err _) => 2 ^ 48 ≤ PacketAuth.TimestampSN p ∧ o' = o
  | (_, Panic) => False
  end.
Proof.
  intros Hw. destruct (Z.lt_ge_cases (PacketAuth.TimestampSN p) (2 ^ 48)) as [Ht|Ht].
  - rewrite Reset_Ok by done. destruct Hw as [H1 H2 H3 H4]. uint_bounds.
    unfold PacketAuth.get_SPI, PacketAuth.get_Algorithm, PacketAuth.get_TimestampSN, PacketAuth.Authenticator,
      PacketAuth.ParsePacketAuthOption, sub_from, encode_auth. cbn [TLV.OptData TLV.OptType TLV.OptAlign].
    set (spi := be_bytes 4 _). assert (len spi = 4) as Ls by done.
    assert (be_val spi = PacketAuth.SPI p) as Es by (by apply be_val_be_bytes_32).
    assert (wf_bytes spi) by apply wf_be_bytes. clearbody spi.
    set (ts := encode48 _). assert (len ts = 6) as Lt by done.
    assert (PacketAuth.bigEndianUint48 ts = Ok (PacketAuth.TimestampSN p)) as Ets by (apply get48_encode48; lia).
    assert (wf_bytes ts).
    { apply wf_bytes_app. split; [|apply wf_be_bytes]. apply Forall_cons_2; [by apply uint_of_range|].
      apply Forall_cons_2; [by apply uint_of_range|constructor]. }
    clearbody ts. set (alg := PacketAuth.Algorithm p) in *. set (au := PacketAuth.Auth p) in *.
    pose proof (len_nonneg au).
    assert (len (spi ++ [alg; 0] ++ ts ++ au) = 12 + len au) as Ll
      by (rewrite !len_app, Ls, Lt; change (len [alg; 0]) with 2; lia).
    split_and!; [done| |done| | | | |].
    + unfold PacketAuth.PacketAuthOptionMetadataLen. rewrite Ll.
      by replace (12 + len au <? 12) with false by lia.
    + rewrite !wf_bytes_app. split_and!; try done. apply Forall_cons_2; [done|]. repeat constructor; done.
    + rewrite sub_prefix by done. go_cbn. unfold Uint32. rewrite <- (app_nil_r spi), get_be_app by done. by rewrite Es.
    + cbn [app]. by rewrite get_app.
    + rewrite (app_assoc spi), (sub_mid (spi ++ [alg; 0])) by (rewrite len_app, ?Ls, ?Lt; done). done.
    + rewrite Ll. rewrite !app_assoc, (sub_suffix ((spi ++ [alg; 0]) ++ ts)); [done|..];
        rewrite !len_app, Ls, Lt; change (len [alg; 0]) with 2; lia.
  - unfold PacketAuth.Reset. change (Z.shiftl 1 48) with (2 ^ 48).
    replace (2 ^ 48 <=? PacketAuth.TimestampSN p) with true by lia. done.
Qed.

(** C23: Decoding a FABRID option never panics.  When the whole option decodes, it
    has the number of hop fields asked for, between 1 and 62, each of them well
    formed, and the decoder for a single hop field gives, for every hop of the path,
    exactly the metadata that the full decoder gives for it. *)
Theorem fabrid_decode_agree o numHfs :
  wf_bytes (TLV.OptData o) → is_u8 numHfs →
  match Fabrid.ParseFabridOptionFullExtension o numHfs with
  | Ok f => wf_fabrid f ∧ len (Fabrid.HopfieldMetadata f) = numHfs ∧
      ∀ k m, Fabrid.HopfieldMetadata f !! k = Some m →
        Fabrid.ParseFabridOptionCurrentHop o (Z.of_nat k) numHfs = Ok (Fabrid.mk [m] [0; 0; 0; 0])
  | Err _ => ∀ cur, 0 ≤ cur → ∃ e, Fabrid.ParseFabridOptionCurrentHop o cur numHfs = Err e
  | Panic => False
  end.
Proof.
  intros Hb Hn. unfold Fabrid.ParseFabridOptionFullExtension, Fabrid.ParseFabridOptionCurrentHop.
  destruct (negb _); cbn [fail_if]; go_cbn; [by eauto|]. set (b := TLV.OptData o) in *.
  rewrite DecodeFull_Ok by done.
  pose proof (validate_no_panic Fabrid.zero b 0 numHfs) as Hnp.
  destruct (Fabrid.validate (Some Fabrid.zero) b 0 numHfs) as [[]|e|] eqn:Ev; [|..|done]; go_cbn.
  - apply validate_Ok in Ev as Hv; [|done]. destruct Hv as (Hl & H62 & H1).
    cbn [Fabrid.HopfieldMetadata]. split_and!.
    + unfold wf_fabrid. cbn [Fabrid.HopfieldMetadata Fabrid.PathValidator]. unfold len at 1 2. rewrite length_map, length_seq.
      split_and!; [|lia|lia|unfold chunk; auto with go|apply length_chunk; lia].
      apply Forall_map, Forall_seq. intros k Hk. apply md_of_wf; [unfold chunk; auto with go|apply length_chunk; lia].
    + unfold len. rewrite length_map, length_seq. lia.
    + intros k m Hk. apply list_lookup_fmap_Some in Hk as (k' & -> & Hk).
      apply lookup_seq in Hk as [-> Hk]. cbn [Nat.add]. rewrite DecodeForHF_Ok by (lia || done).
      destruct (validate_cur Fabrid.zero b (Z.of_nat k) numHfs) as [->|]; [lia| |lia].
      by rewrite Ev.
  - intros cur Hc. rewrite DecodeForHF_Ok by done.
    destruct (Fabrid.validate (Some Fabrid.zero) b cur numHfs) as [[]|e'|] eqn:Ec; go_cbn; [|by eauto|].
    + apply validate_Ok in Ec as Hv; [|done].
      destruct (validate_cur Fabrid.zero b cur numHfs) as [E|]; [lia| |lia]. by rewrite E, Ev in Ec.
    + by apply validate_no_panic in Ec.
Qed.

(** FABRID options survive the wire.  An option of 1 to 62 hop fields serialises
    into any buffer that is long enough, writes 4 bytes per hop field and 4 for the
    path validator and nothing else, and parses back to the same option. *)
Theorem fabrid_roundtrip f b o :
  wf_fabrid f → 4 + 4 * len (Fabrid.HopfieldMetadata f) ≤ len b →
  ∃ out, Fabrid.SerializeTo (Some f) b = Ok (out ++ drop (length out) b) ∧
    len out = 4 + 4 * len (Fabrid.HopfieldMetadata f) ∧
    (TLV.OptType o = TLV.OptTypeFabrid → TLV.OptData o = out →
       Fabrid.ParseFabridOptionFullExtension o (len (Fabrid.HopfieldMetadata f)) = Ok f).
Proof.
  intros (Hm & Hn & Hpv & Lpv) Hl. destruct f as [ms pv]. cbn [Fabrid.HopfieldMetadata Fabrid.PathValidator] in *.
  set (n := len ms) in *. set (out := concat (map encode_md ms) ++ pv).
  assert (len out = 4 + 4 * n) as Lo.
  { unfold out. rewrite len_app, length_concat_md by done. fold n. unfold len. lia. }
  exists out. split_and!; [|done|].
  - unfold Fabrid.SerializeTo. cbn [Fabrid.HopfieldMetadata Fabrid.PathValidator]. fold n.
    rewrite (uint_of_small 8 n), FabridOptionLen_small by (try split; lia). go_guard.
    unfold Fabrid.MaxSupportedFabridHops. go_guard.
    pose proof (serialize_mds_Ok ms [] b 0 Hm eq_refl ltac:(lia)) as E. cbn [app] in E. rewrite E. go_cbn. fold n.
    pose proof (length_concat_md ms Hm) as Lc. fold n in Lc. set (c := concat (map encode_md ms)) in *.
    rewrite Z.add_0_l.
    destruct (split_len (4 * n) b) as (b1 & b2 & -> & L1 & L2); [lia|].
    replace (4 * length ms)%nat with (length b1) by (unfold n, len in *; lia). rewrite drop_app_length, len_app in *.
    destruct (split_len 4 b2) as (b3 & b4 & -> & L3 & L4); [lia|].
    rewrite (on_sub_mid c b3 b4) by lia. go_cbn. rewrite copy_same by (unfold len in *; lia).
    unfold out. rewrite <- app_assoc. do 3 f_equal.
    replace (length (c ++ pv)) with (length (b1 ++ b3)) by (rewrite !length_app; unfold len in *; lia).
    by rewrite app_assoc, drop_app_length.
  - intros Ht Hd. unfold Fabrid.ParseFabridOptionFullExtension. rewrite Ht, Hd, Z.eqb_refl. cbn [negb]. go_cbn.
    rewrite DecodeFull_Ok by (split; lia).
    assert (Fabrid.validate (Some Fabrid.zero) out 0 n = Ok tt) as ->.
    { unfold Fabrid.validate. rewrite FabridOptionLen_small, Lo by lia. go_guard.
      unfold Fabrid.MaxSupportedFabridHops. repeat go_guard. done. }
    go_cbn. do 2 f_equal.
    + apply list_eq. intros k. rewrite list_lookup_fmap.
      destruct (ms !! k) as [m|] eqn:Hk.
      * assert (k < length ms)%nat by (by eapply lookup_lt_Some).
        rewrite lookup_seq_lt by (unfold n, len; lia). cbn [fmap option_fmap option_map Nat.add]. f_equal.
        pose proof (chunk_concat [] ms pv k m Hm Hk) as E. cbn [app] in E. fold out in E. rewrite len_nil, Z.add_0_l in E.
        rewrite E. apply md_of_encode. by eapply Forall_lookup_1.
      * apply lookup_ge_None in Hk. by rewrite lookup_seq_ge by (unfold n, len; lia).
    + unfold out. rewrite <- (app_nil_r pv) at 1. apply chunk_app; [|done].
      by rewrite length_concat_md.
Qed.

(** The packet identifier keeps the packet number and the time to the
    millisecond: for a timestamp less than 2^27 ms after the base timestamp,
    serialising writes eight bytes, and parsing them under the same base gives the
    packet number and the timestamp rounded down to milliseconds. *)
Theorem identifier_roundtrip id b o :
  is_u32 (Identifier.PacketID id) → is_u32 (Identifier.BaseTimestamp id) →
  0 ≤ Identifier.UnixMilli (Identifier.Timestamp id) - 1000 * Identifier.BaseTimestamp id < 2 ^ 27 →
  Identifier.identifierLength ≤ len b →
  ∃ out, Identifier.Serialize (Some id) b = Ok (out ++ drop 8 b) ∧ len out = 8 ∧
    (TLV.OptType o = TLV.OptTypeIdentifier → TLV.OptData o = out →
       Identifier.ParseIdentifierOption o (Identifier.BaseTimestamp id) =
         Ok (Identifier.mk (Identifier.UnixMilli (Identifier.Timestamp id) * Identifier.Millisecond)
               (Identifier.PacketID id) (Identifier.BaseTimestamp id))).
Proof.
  destruct id as [ts pid base]. cbn [Identifier.Timestamp Identifier.PacketID Identifier.BaseTimestamp].
  intros Hp Hb Hr Hl. unfold Identifier.identifierLength in Hl. uint_bounds.
  set (ms := Identifier.UnixMilli ts) in *.
  assert (∀ x, - 2 ^ 63 ≤ x < 2 ^ 63 → i64 x = x) as Hi.
  { intros x Hx. unfold int_of. change (2 ^ (64 - 1)) with (2 ^ 63). rewrite Z.mod_small; lia. }
  set (rel := ms - 1000 * base) in *.
  assert (Identifier.GetRelativeTimestamp (Identifier.mk ts pid base) = rel) as Erel.
  { unfold Identifier.GetRelativeTimestamp. cbn [Identifier.Timestamp Identifier.BaseTimestamp]. fold ms.
    rewrite (Hi (base * 1000)), (Hi (ms - base * 1000)) by lia.
    change 0x7FFFFFF with (2 ^ 27 - 1). rewrite land_ones_mod by lia. unfold uint_of.
    replace (ms - base * 1000) with rel by lia. rewrite (Z.mod_small rel (2 ^ 32)), Z.mod_small; lia. }
  exists (be_bytes 4 rel ++ be_bytes 4 pid). split_and!; [|done|].
  - unfold Identifier.Serialize. cbn [Identifier.PacketID]. unfold Identifier.identifierLength. go_guard.
    destruct (split_len 4 b) as (b1 & b2 & -> & L1 & L2); [lia|]. rewrite len_app in *.
    destruct (split_len 4 b2) as (b3 & b4 & -> & L3 & L4); [lia|].
    rewrite on_sub_prefix by lia. unfold Identifier.serializeTimestampTo, PutUint32. rewrite Erel.
    rewrite <- (app_nil_r b1), put_be_app by done. go_cbn. rewrite app_nil_r.
    rewrite (on_sub_mid (be_bytes 4 rel) b3) by (rewrite len_be_bytes; lia).
    rewrite <- (app_nil_r b3) at 1. rewrite put_be_app by done. go_cbn. rewrite !app_nil_r, <- app_assoc.
    do 3 f_equal. rewrite app_assoc. symmetry.
    replace 8%nat with (length (b1 ++ b3)) by (rewrite length_app; unfold len in *; lia). apply drop_app_length.
  - intros Ht Hd. unfold Identifier.ParseIdentifierOption. rewrite Ht, Hd, Z.eqb_refl. cbn [negb]. go_cbn.
    set (r0 := Identifier.mk 0 0 base). unfold Identifier.decode.
    set (x := be_bytes 4 rel). set (y := be_bytes 4 pid). assert (len x = 4) as Lx by done. assert (len y = 4) as Ly by done.
    assert (be_val x = rel) as Ex by (apply be_val_be_bytes_32; ulia).
    assert (be_val y = pid) as Ey by (apply be_val_be_bytes_32; ulia). clearbody x y.
    rewrite (SE_bind_eq _ _ r0 r0 tt).
    2:{ unfold lift, Identifier.identifierLength. by replace (_ <? 8) with false by (rewrite len_app; lia). }
    rewrite (SE_bind_eq _ _ r0 r0 x) by (unfold lift; by rewrite sub_prefix).
    set (r1 := Identifier.mk (ms * Identifier.Millisecond) 0 base).
    rewrite (SE_bind_eq _ _ r0 r1 tt).
    2:{ unfold Identifier.decodeTimestampFromBytes. rewrite (SE_bind_eq _ _ r0 r0 r0) by done.
        rewrite (SE_bind_eq _ _ r0 r0 rel).
        2:{ unfold lift, Uint32. rewrite <- (app_nil_r x), get_be_app by done. by rewrite Ex. }
        cbn zeta. unfold modify. f_equal. unfold r1. cbn [Identifier.BaseTimestamp r0 Identifier.PacketID]. f_equal.
        change 0x7FFFFFF with (2 ^ 27 - 1). rewrite land_ones_mod, (Z.mod_small rel) by lia.
        unfold Identifier.Millisecond.
        rewrite (uint_of_small 64 (1000 * base)), (uint_of_small 64 (rel + 1000 * base)) by (split; lia).
        rewrite (Hi (rel + 1000 * base)), Hi by lia. lia. }
    rewrite (SE_bind_eq _ _ r1 r1 pid).
    2:{ unfold lift. rewrite (sub_suffix x) by lia. go_cbn. unfold Uint32.
        rewrite <- (app_nil_r y), get_be_app by done. by rewrite Ey. }
    done.
Qed.

(** ** Witnesses *)

Lemma spi_roundtrip_witness :
  PacketAuth.MakePacketAuthSPIDRKey 1 1 0 = Ok 131073 ∧ PacketAuth.Type_ 131073 = 1 ∧
  PacketAuth.IsDRKey 131073 = true.
Proof.
  pose proof (spi_roundtrip 1 1 0 ltac:(done) ltac:(done) ltac:(done)) as H.
  split; [reflexivity|]. change (PacketAuth.MakePacketAuthSPIDRKey 1 1 0) with (Ok 131073) in H.
  split; apply H.
Defined.

Definition example_params : PacketAuth.Params :=
  PacketAuth.mkParams 131073 0 0x123456789abc [1; 2; 3; 4; 5; 6; 7; 8; 9; 10; 11; 12; 13; 14; 15; 16].

Lemma packet_auth_roundtrip_witness :
  ∃ o, PacketAuth.NewPacketAuthOption example_params = (o, Ok tt) ∧
    PacketAuth.get_TimestampSN o = Ok 0x123456789abc.
Proof.
  pose proof (packet_auth_roundtrip example_params [] (TLV.mk 0 0 0 [] (0, 0))) as H.
  specialize (H ltac:(split; try done; repeat constructor; done)). unfold PacketAuth.NewPacketAuthOption.
  destruct (PacketAuth.Reset _ _ _) as [o [[]| |]] eqn:E; [|vm_compute in E; discriminate E..].
  exists o. split; [done|]. apply H.
Defined.

Definition example_fabrid : Fabrid.t :=
  Fabrid.mk [Fabrid.mkMd 1 true false [5; 6; 7]; Fabrid.mkMd 2 true true [63; 0; 255]] [9; 8; 7; 6].

Lemma example_fabrid_wf : wf_fabrid example_fabrid.
Proof.
  split_and!; [|done|done|repeat constructor; done|done].
  repeat (apply Forall_cons_2; [split; [done|done|by do 3 eexists]|]). apply Forall_nil_2.
Qed.

Lemma fabrid_roundtrip_witness :
  Fabrid.SerializeTo (Some example_fabrid) (make_bytes 14) = Ok [1; 133; 6; 7; 2; 255; 0; 255; 9; 8; 7; 6; 0; 0] ∧
  Fabrid.ParseFabridOptionFullExtension
    (TLV.mk TLV.OptTypeFabrid 12 14 [1; 133; 6; 7; 2; 255; 0; 255; 9; 8; 7; 6] (0, 0)) 2 = Ok example_fabrid.
Proof.
  destruct (fabrid_roundtrip example_fabrid (make_bytes 14)
    (TLV.mk TLV.OptTypeFabrid 12 14 [1; 133; 6; 7; 2; 255; 0; 255; 9; 8; 7; 6] (0, 0))) as (out & Hs & Hl & Hp);
    [exact example_fabrid_wf|done|].
  assert (out = [1; 133; 6; 7; 2; 255; 0; 255; 9; 8; 7; 6]) as ->.
  { apply (f_equal (λ o, match o with Ok b => take 12 b | _ => [] end)) in Hs.
    change 12%nat with (Z.to_nat 12) in Hs at 2. rewrite take_len_app in Hs by (rewrite Hl; done).
    rewrite <- Hs. vm_compute. reflexivity. }
  split; [exact Hs|]. by apply Hp.
Defined.

Lemma fabrid_decode_agree_witness :
  Fabrid.ParseFabridOptionCurrentHop
    (TLV.mk TLV.OptTypeFabrid 12 14 [1; 133; 6; 7; 2; 255; 0; 255; 9; 8; 7; 6] (0, 0)) 1 2 =
  Ok (Fabrid.mk [Fabrid.mkMd 2 true true [63; 0; 255]] [0; 0; 0; 0]).
Proof.
  pose proof (fabrid_decode_agree
    (TLV.mk TLV.OptTypeFabrid 12 14 [1; 133; 6; 7; 2; 255; 0; 255; 9; 8; 7; 6] (0, 0)) 2) as H.
  specialize (H ltac:(repeat constructor; done) ltac:(done)).
  match type of H with match ?x with _ => _ end =>
    let y := eval vm_compute in x in change x with y in H end.
  destruct H as (_ & _ & H). by apply (H 1%nat).
Defined.

Lemma identifier_roundtrip_witness :
  ∃ out, Identifier.Serialize (Some (Identifier.mk 1700000000123456789 7 1699999990)) (make_bytes 8) = Ok out ∧
    Identifier.ParseIdentifierOption (TLV.mk TLV.OptTypeIdentifier 8 10 out (0, 0)) 1699999990 =
      Ok (Identifier.mk 1700000000123000000 7 1699999990).
Proof.
  pose proof (λ out, identifier_roundtrip (Identifier.mk 1700000000123456789 7 1699999990) (make_bytes 8)
    (TLV.mk TLV.OptTypeIdentifier 8 10 out (0, 0))) as H.
  set (out0 := match Identifier.Serialize (Some (Identifier.mk 1700000000123456789 7 1699999990)) (make_bytes 8)
               with Ok b => b | _ => [] end).
  destruct (H out0) as (out & Hs & _ & Hp); [done|done|by vm_compute|done|].
  assert (out = out0) as ->.
  { unfold out0. rewrite Hs. by rewrite app_nil_r. }
  exists out0. split; [by rewrite Hs, app_nil_r|]. by apply Hp.
Defined.

End OptionsProperties.
