(* ===== verification/Scmp.v ===== *)
(** SCMP and UDP over SCION: type codes ([pkg/slayers/scmp_typecode.go]), the SCMP
    header ([scmp.go]), the seven messages ([scmp_msg.go]) and UDP ([udp.go]). *)
From S2P Require Export ScionHdr GoStrings.

(** The bytes of a layer and of the layers behind it. *)
Module BaseLayer.
Record t := mk {
  Contents : bytes;
  Payload : bytes
}.

(** [BaseLayer{Contents: data[:n], Payload: data[n:]}] *)
Definition split (data : bytes) (n : Z) : outcome t :=
  c ← sub data 0 n;
  p ← sub_from data n;
  Ok (mk c p).
End BaseLayer.

(** * scmp_typecode.go *)
Module TypeCode.

Definition SCMPTypeDestinationUnreachable : Z := 1.
Definition SCMPTypePacketTooBig : Z := 2.
Definition SCMPTypeParameterProblem : Z := 4.
Definition SCMPTypeExternalInterfaceDown : Z := 5.
Definition SCMPTypeInternalConnectivityDown : Z := 6.
Definition SCMPTypeEchoRequest : Z := 128.
Definition SCMPTypeEchoReply : Z := 129.
Definition SCMPTypeTracerouteRequest : Z := 130.
Definition SCMPTypeTracerouteReply : Z := 131.

(** Codes of parameter problems that the router sends. *)
Definition SCMPCodeInvalidCommonHeader : Z := 16.
Definition SCMPCodeInvalidPacketSize : Z := 19.
Definition SCMPCodeInvalidSourceAddress : Z := 33.
Definition SCMPCodeInvalidDestinationAddress : Z := 34.
Definition SCMPCodeInvalidPath : Z := 48.
Definition SCMPCodeUnknownHopFieldIngress : Z := 49.
Definition SCMPCodeUnknownHopFieldEgress : Z := 50.
Definition SCMPCodeInvalidHopFieldMAC : Z := 51.
Definition SCMPCodePathExpired : Z := 52.
Definition SCMPCodeInvalidSegmentChange : Z := 53.

(** A type code is a 16-bit integer. *)
Definition Type_ (a : Z) : Z := u8 (Z.shiftr a 8).
Definition Code (a : Z) : Z := u8 a.
Definition InfoMsg (a : Z) : bool := 127 <? Type_ a.
Definition SerializeTo (a : Z) (b : bytes) : outcome bytes := PutUint16 b a.
Definition CreateSCMPTypeCode (typ code : Z) : outcome Z := Uint16 [typ; code].

(** [scmpTypeCodeInfo] *)
Definition parameter_problems : list (Z * string) :=
  [(0, "ErroneousHeaderField"); (1, "UnknownNextHdrType"); (16, "InvalidCommonHeader");
   (17, "UnknownSCIONVersion"); (18, "FlowIDRequired"); (19, "InvalidPacketSize");
   (20, "UnknownPathType"); (21, "UnknownAddressFormat"); (32, "InvalidAddressHeader");
   (33, "InvalidSourceAddress"); (34, "InvalidDestinationAddress"); (35, "NonLocalDelivery");
   (48, "InvalidPath"); (49, "UnknownHopFieldIngressInterface"); (50, "UnknownHopFieldEgressInterface");
   (51, "InvalidHopFieldMAC"); (52, "PathExpired"); (53, "InvalidSegmentChange");
   (64, "InvalidExtensionHeader"); (65, "UnknownHopByHopOption"); (66, "UnknownEndToEndOption")]%string.

Definition scmpTypeCodeInfo : list (Z * (string * option (list (Z * string)))) :=
  [(SCMPTypeDestinationUnreachable, ("DestinationUnreachable", None));
   (SCMPTypeExternalInterfaceDown, ("ExternalInterfaceDown", None));
   (SCMPTypeInternalConnectivityDown, ("InternalConnectivityDown", None));
   (SCMPTypePacketTooBig, ("PacketTooBig", None));
   (SCMPTypeEchoRequest, ("EchoRequest", None));
   (SCMPTypeEchoReply, ("EchoReply", None));
   (SCMPTypeTracerouteRequest, ("TracerouteRequest", None));
   (SCMPTypeTracerouteReply, ("TracerouteReply", None));
   (SCMPTypeParameterProblem, ("ParameterProblem", Some parameter_problems))]%string.

Definition assoc {A} (k : Z) (l : list (Z * A)) : option A :=
  snd <$> find (λ e, e.1 =? k) l.

Definition String_ (a : Z) : gostring :=
  let t := Type_ a in
  let c := Code a in
  match assoc t scmpTypeCodeInfo with
  | None => FormatUint t 10 ++ str "(" ++ FormatUint c 10 ++ str ")"
  | Some (name, codes) =>
      if (match codes with None => true | _ => false end) && (c =? 0) then str name else
      match assoc c (default [] codes) with
      | None => str name ++ str "(Code: " ++ FormatUint c 10 ++ str ")"
      | Some code => str name ++ str "(" ++ str code ++ str ")"
      end
  end.

End TypeCode.

(** * scmp.go *)
Module SCMP.

Import TypeCode.

(** [scn] is the header the checksum covers, [None] when it was not set. *)
Record t := mk {
  base : BaseLayer.t;
  TypeCode : Z;
  Checksum : Z;
  scn : option SCION.t
}.

Definition MaxSCMPPacketLen : Z := 1232.

Definition set_Checksum (c : Z) (s : t) : t := mk (base s) (TypeCode s) c (scn s).
Definition SetNetworkLayerForChecksum (h : SCION.t) (s : t) : t :=
  mk (base s) (TypeCode s) (Checksum s) (Some h).

Definition NextLayerType (s : t) : L4.LayerType :=
  let ty := Type_ (TypeCode s) in
  if ty =? SCMPTypeDestinationUnreachable then L4.LayerTypeSCMPDestinationUnreachable
  else if ty =? SCMPTypePacketTooBig then L4.LayerTypeSCMPPacketTooBig
  else if ty =? SCMPTypeParameterProblem then L4.LayerTypeSCMPParameterProblem
  else if ty =? SCMPTypeExternalInterfaceDown then L4.LayerTypeSCMPExternalInterfaceDown
  else if ty =? SCMPTypeInternalConnectivityDown then L4.LayerTypeSCMPInternalConnectivityDown
  else if (ty =? SCMPTypeEchoRequest) || (ty =? SCMPTypeEchoReply) then L4.LayerTypeSCMPEcho
  else if (ty =? SCMPTypeTracerouteRequest) || (ty =? SCMPTypeTracerouteReply)
       then L4.LayerTypeSCMPTraceroute
  else L4.LayerTypePayload.

(** The contents of the buffer after the call; [b] is what was in it before. *)
Definition SerializeTo (PrependBytes : Z → bytes) (b : bytes) (opts : SCION.SerializeOptions) :
    SE t bytes :=
  s ← gets id;
  buf ← lift (TypeCode.SerializeTo (TypeCode s) (PrependBytes 4));
  buf ← (if SCION.ComputeChecksums opts then
           _ ← lift (fail_if (match scn s with None => true | _ => false end)
                       (New "can not calculate checksum without SCION header"));
           buf ← lift (put buf 2 0);
           buf ← lift (put buf 3 0);
           c ← lift (SCION.computeChecksum (scn s) (buf ++ b) L4.SCMP);
           _ ← modify (set_Checksum c);
           mret buf
         else mret buf);
  s ← gets id;
  buf ← lift (on_sub_from buf 2 (λ buf, PutUint16 buf (Checksum s)));
  mret (buf ++ b).

Definition DecodeFromBytes (data : bytes) : SE t unit :=
  _ ← lift (fail_if (len data <? 4) (New "SCMP layer length is less then 4 bytes"));
  d0 ← lift (get data 0);
  d1 ← lift (get data 1);
  tc ← lift (CreateSCMPTypeCode d0 d1);
  c ← lift (sub data 2 4 ≫= Uint16);
  base ← lift (BaseLayer.split data 4);
  modify (λ s, mk base tc c (scn s)).

End SCMP.

(** * scmp_msg.go *)

Definition scmpRawInterfaceLen : Z := 8.

(** The layer interface that the seven messages share. *)
Class MsgOps (M : Type) := {
  msg_decode : bytes → outcome M;
  (** The buffer that [PrependBytes] returned, filled in. *)
  msg_write : M → bytes → outcome bytes;
  msg_size : M → Z;
  msg_base : M → BaseLayer.t;
  msg_set_base : BaseLayer.t → M → M
}.

Definition msg_SerializeTo `{MsgOps M} (PrependBytes : Z → bytes) (b : bytes) (m : M) : outcome bytes :=
  buf ← msg_write m (PrependBytes (msg_size m));
  Ok (buf ++ b).

Module ExternalInterfaceDown.
Record t := mk {
  base : BaseLayer.t;
  IA : Z;
  IfID : Z
}.

Definition DecodeFromBytes (data : bytes) : outcome t :=
  _ ← fail_if (len data <? ISDAS.IABytes + scmpRawInterfaceLen) (New "buffer too short");
  ia ← sub_from data 0 ≫= Uint64;
  let offset := ISDAS.IABytes in
  ifID ← sub data offset (offset + scmpRawInterfaceLen) ≫= Uint64;
  let offset := offset + scmpRawInterfaceLen in
  base ← BaseLayer.split data offset;
  Ok (mk base ia ifID).

Definition SerializeTo (m : t) (buf : bytes) : outcome bytes :=
  buf ← on_sub_from buf 0 (λ b, PutUint64 b (IA m));
  let offset := ISDAS.IABytes in
  on_sub buf offset (offset + scmpRawInterfaceLen) (λ b, PutUint64 b (IfID m)).

#[global] Instance ops : MsgOps t := {
  msg_decode := DecodeFromBytes;
  msg_write := SerializeTo;
  msg_size _ := ISDAS.IABytes + scmpRawInterfaceLen;
  msg_base := base;
  msg_set_base b m := mk b (IA m) (IfID m)
}.
End ExternalInterfaceDown.

Module InternalConnectivityDown.
Record t := mk {
  base : BaseLayer.t;
  IA : Z;
  Ingress : Z;
  Egress : Z
}.

Definition DecodeFromBytes (data : bytes) : outcome t :=
  _ ← fail_if (len data <? ISDAS.IABytes + 2 * scmpRawInterfaceLen) (New "buffer too short");
  ia ← sub_from data 0 ≫= Uint64;
  let offset := ISDAS.IABytes in
  ingress ← sub data offset (offset + scmpRawInterfaceLen) ≫= Uint64;
  let offset := offset + scmpRawInterfaceLen in
  egress ← sub data offset (offset + scmpRawInterfaceLen) ≫= Uint64;
  let offset := offset + scmpRawInterfaceLen in
  base ← BaseLayer.split data offset;
  Ok (mk base ia ingress egress).

Definition SerializeTo (m : t) (buf : bytes) : outcome bytes :=
  buf ← on_sub_from buf 0 (λ b, PutUint64 b (IA m));
  let offset := ISDAS.IABytes in
  buf ← on_sub buf offset (offset + scmpRawInterfaceLen) (λ b, PutUint64 b (Ingress m));
  let offset := offset + scmpRawInterfaceLen in
  on_sub buf offset (offset + scmpRawInterfaceLen) (λ b, PutUint64 b (Egress m)).

#[global] Instance ops : MsgOps t := {
  msg_decode := DecodeFromBytes;
  msg_write := SerializeTo;
  msg_size _ := ISDAS.IABytes + 2 * scmpRawInterfaceLen;
  msg_base := base;
  msg_set_base b m := mk b (IA m) (Ingress m) (Egress m)
}.
End InternalConnectivityDown.

Module Echo.
Record t := mk {
  base : BaseLayer.t;
  Identifier : Z;
  SeqNumber : Z
}.

Definition DecodeFromBytes (data : bytes) : outcome t :=
  _ ← fail_if (len data <? 4) (New "buffer too short");
  identifier ← sub data 0 2 ≫= Uint16;
  seqNumber ← sub data 2 (2 + 2) ≫= Uint16;
  base ← BaseLayer.split data 4;
  Ok (mk base identifier seqNumber).

Definition SerializeTo (m : t) (buf : bytes) : outcome bytes :=
  buf ← on_sub buf 0 2 (λ b, PutUint16 b (Identifier m));
  on_sub buf 2 (2 + 2) (λ b, PutUint16 b (SeqNumber m)).

#[global] Instance ops : MsgOps t := {
  msg_decode := DecodeFromBytes;
  msg_write := SerializeTo;
  msg_size _ := 4;
  msg_base := base;
  msg_set_base b m := mk b (Identifier m) (SeqNumber m)
}.
End Echo.

Module ParameterProblem.
Record t := mk {
  base : BaseLayer.t;
  Pointer : Z
}.

Definition DecodeFromBytes (data : bytes) : outcome t :=
  _ ← fail_if (len data <? 2 + 2) (New "buffer too short");
  pointer ← sub data 2 4 ≫= Uint16;
  base ← BaseLayer.split data 4;
  Ok (mk base pointer).

Definition SerializeTo (m : t) (buf : bytes) : outcome bytes :=
  buf ← on_sub buf 0 2 (λ b, PutUint16 b 0);
  on_sub buf 2 4 (λ b, PutUint16 b (Pointer m)).

#[global] Instance ops : MsgOps t := {
  msg_decode := DecodeFromBytes;
  msg_write := SerializeTo;
  msg_size _ := 2 + 2;
  msg_base := base;
  msg_set_base b m := mk b (Pointer m)
}.
End ParameterProblem.

Module Traceroute.
Record t := mk {
  base : BaseLayer.t;
  Identifier : Z;
  Sequence : Z;
  IA : Z;
  Interface : Z
}.

Definition DecodeFromBytes (data : bytes) : outcome t :=
  _ ← fail_if (len data <? 2 + 2 + ISDAS.IABytes + scmpRawInterfaceLen) (New "buffer too short");
  let offset := 0 in
  identifier ← sub data offset (offset + 2) ≫= Uint16;
  let offset := offset + 2 in
  sequence ← sub data offset (offset + 2) ≫= Uint16;
  let offset := offset + 2 in
  ia ← sub data offset (offset + ISDAS.IABytes) ≫= Uint64;
  let offset := offset + ISDAS.IABytes in
  interface ← sub data offset (offset + scmpRawInterfaceLen) ≫= Uint64;
  let offset := offset + scmpRawInterfaceLen in
  base ← BaseLayer.split data offset;
  Ok (mk base identifier sequence ia interface).

Definition SerializeTo (m : t) (buf : bytes) : outcome bytes :=
  buf ← on_sub buf 0 2 (λ b, PutUint16 b (Identifier m));
  let offset := 2 in
  buf ← on_sub buf offset (offset + 2) (λ b, PutUint16 b (Sequence m));
  let offset := offset + 2 in
  buf ← on_sub buf offset (offset + ISDAS.IABytes) (λ b, PutUint64 b (IA m));
  let offset := offset + ISDAS.IABytes in
  on_sub buf offset (offset + scmpRawInterfaceLen) (λ b, PutUint64 b (Interface m)).

#[global] Instance ops : MsgOps t := {
  msg_decode := DecodeFromBytes;
  msg_write := SerializeTo;
  msg_size _ := 2 + 2 + ISDAS.IABytes + scmpRawInterfaceLen;
  msg_base := base;
  msg_set_base b m := mk b (Identifier m) (Sequence m) (IA m) (Interface m)
}.
End Traceroute.

Module DestinationUnreachable.
Record t := mk {
  base : BaseLayer.t
}.

Definition DecodeFromBytes (data : bytes) : outcome t :=
  let minLength := 4 in
  _ ← fail_if (len data <? minLength) (New "buffer too short");
  base ← BaseLayer.split data minLength;
  Ok (mk base).

Definition SerializeTo (m : t) (buf : bytes) : outcome bytes := Ok (copy buf (make_bytes 4)).

#[global] Instance ops : MsgOps t := {
  msg_decode := DecodeFromBytes;
  msg_write := SerializeTo;
  msg_size _ := 4;
  msg_base := base;
  msg_set_base b m := mk b
}.
End DestinationUnreachable.

Module PacketTooBig.
Record t := mk {
  base : BaseLayer.t;
  MTU : Z
}.

Definition DecodeFromBytes (data : bytes) : outcome t :=
  _ ← fail_if (len data <? 2 + 2) (New "buffer too short");
  mtu ← sub data 2 4 ≫= Uint16;
  base ← BaseLayer.split data 4;
  Ok (mk base mtu).

Definition SerializeTo (m : t) (buf : bytes) : outcome bytes :=
  buf ← on_sub buf 0 2 (λ b, PutUint16 b 0);
  on_sub buf 2 4 (λ b, PutUint16 b (MTU m)).

#[global] Instance ops : MsgOps t := {
  msg_decode := DecodeFromBytes;
  msg_write := SerializeTo;
  msg_size _ := 2 + 2;
  msg_base := base;
  msg_set_base b m := mk b (MTU m)
}.
End PacketTooBig.

(** * udp.go *)
Module UDP.

(** [sPort] and [dPort] are the bytes of the ports, kept for the transport flow. *)
Record t := mk {
  base : BaseLayer.t;
  SrcPort : Z;
  DstPort : Z;
  Length : Z;
  Checksum : Z;
  sPort : bytes;
  dPort : bytes;
  scn : option SCION.t
}.

Definition set_Payload (p : bytes) (u : t) : t :=
  mk (BaseLayer.mk (BaseLayer.Contents (base u)) p) (SrcPort u) (DstPort u) (Length u) (Checksum u)
     (sPort u) (dPort u) (scn u).
Definition set_Length (l : Z) (u : t) : t :=
  mk (base u) (SrcPort u) (DstPort u) l (Checksum u) (sPort u) (dPort u) (scn u).
Definition set_Checksum (c : Z) (u : t) : t :=
  mk (base u) (SrcPort u) (DstPort u) (Length u) c (sPort u) (dPort u) (scn u).
Definition SetNetworkLayerForChecksum (h : SCION.t) (u : t) : t :=
  mk (base u) (SrcPort u) (DstPort u) (Length u) (Checksum u) (sPort u) (dPort u) (Some h).

Definition DecodeFromBytes (data : bytes) : SE t unit :=
  _ ← lift (fail_if (len data <? 8) (New "Invalid UDP header"));
  sPort ← lift (sub data 0 2);
  srcPort ← lift (Uint16 sPort);
  dPort ← lift (sub data 2 4);
  dstPort ← lift (Uint16 dPort);
  length ← lift (sub data 4 6 ≫= Uint16);
  checksum ← lift (sub data 6 8 ≫= Uint16);
  contents ← lift (sub data 0 8);
  _ ← modify (λ u, mk (BaseLayer.mk contents []) srcPort dstPort length checksum sPort dPort (scn u));
  if 8 <=? length then
    let hlen := if len data <? length then len data else length in
    payload ← lift (sub data 8 hlen);
    modify (set_Payload payload)
  else if length =? 0 then
    payload ← lift (sub_from data 8);
    modify (set_Payload payload)
  else lift (Err (New "UDP packet too small")).

Definition fixLengths (length : Z) (u : t) : t :=
  if 65535 <? length then set_Length 0 u else set_Length (u16 length) u.

(** The contents of the buffer after the call; [b] is what was in it before. *)
Definition SerializeTo (PrependBytes : Z → bytes) (b : bytes) (opts : SCION.SerializeOptions) :
    SE t bytes :=
  u ← gets id;
  buf ← lift (PutUint16 (PrependBytes 8) (SrcPort u));
  buf ← lift (on_sub_from buf 2 (λ buf, PutUint16 buf (DstPort u)));
  _ ← (if SCION.FixLengths opts then modify (fixLengths (len (buf ++ b))) else mret tt);
  u ← gets id;
  buf ← lift (on_sub_from buf 4 (λ buf, PutUint16 buf (Length u)));
  buf ← (if SCION.ComputeChecksums opts then
           _ ← lift (fail_if (match scn u with None => true | _ => false end)
                       (New "can not calculate checksum without SCION header"));
           buf ← lift (put buf 6 0);
           buf ← lift (put buf 7 0);
           c ← lift (SCION.computeChecksum (scn u) (buf ++ b) L4.UDP);
           _ ← modify (set_Checksum c);
           mret buf
         else mret buf);
  u ← gets id;
  buf ← lift (on_sub_from buf 6 (λ buf, PutUint16 buf (Checksum u)));
  mret (buf ++ b).

End UDP.

(** * Lemmas *)
Module ScmpLemmas.

(** ** Fixed layouts of big-endian fields *)

(** The fields of a message: their sizes in bytes and their values. *)
Definition layout := list (nat * Z).

Definition enc (fs : layout) : bytes := concat (map (λ f, be_bytes f.1 f.2) fs).

Definition fits (fs : layout) : Prop := Forall (λ f, 0 ≤ f.2 < 256 ^ Z.of_nat f.1) fs.

(** Writing the fields one after the other, from [off] on. *)
Fixpoint write_fields (fs : layout) (buf : bytes) (off : Z) : outcome bytes :=
  match fs with
  | [] => Ok buf
  | [(n, v)] => on_sub buf off (off + Z.of_nat n) (put_be n v)
  | (n, v) :: fs =>
      buf ← on_sub buf off (off + Z.of_nat n) (put_be n v);
      write_fields fs buf (off + Z.of_nat n)
  end.

Lemma enc_cons n v fs : enc ((n, v) :: fs) = be_bytes n v ++ enc fs.
Proof. done. Qed.

Lemma wf_enc fs : wf_bytes (enc fs).
Proof.
  induction fs as [|[n v] fs IH]; [constructor|]. rewrite enc_cons.
  apply wf_bytes_app. split; [apply wf_be_bytes|done].
Qed.

Lemma put_be_mid n v pre m c off :
  off = len pre → len m = Z.of_nat n →
  on_sub (pre ++ m ++ c) off (off + Z.of_nat n) (put_be n v) = Ok (pre ++ be_bytes n v ++ c).
Proof.
  intros -> Hm. rewrite on_sub_mid by lia. rewrite <- (app_nil_r m), put_be_app by done. go_cbn.
  by rewrite app_nil_r.
Qed.

Lemma write_fields_Ok fs pre buf off :
  off = len pre → len buf = len (enc fs) → write_fields fs (pre ++ buf) off = Ok (pre ++ enc fs).
Proof.
  revert pre buf off. induction fs as [|[n v] fs IH]; intros pre buf off -> Hb.
  - change (len (enc [])) with 0 in Hb. destruct buf; [done|]. len_lia.
  - rewrite enc_cons, len_app, len_be_bytes in *. pose proof (len_nonneg (enc fs)).
    destruct (split_len (Z.of_nat n) buf) as (m & c & -> & Lm & Lc); [lia|].
    assert (len c = len (enc fs)) as Hc by lia.
    pose proof (put_be_mid n v pre m c (len pre) eq_refl Lm) as E.
    destruct fs as [|f fs].
    + cbn [write_fields]. rewrite E. change (len (enc [])) with 0 in Hc. destruct c; [done|]. len_lia.
    + change (write_fields ((n, v) :: f :: fs) (pre ++ m ++ c) (len pre)) with
        (buf ← on_sub (pre ++ m ++ c) (len pre) (len pre + Z.of_nat n) (put_be n v);
         write_fields (f :: fs) buf (len pre + Z.of_nat n)).
      rewrite E. go_cbn. rewrite app_assoc, IH; [by rewrite <- app_assoc| |done].
      by rewrite len_app, len_be_bytes.
Qed.

Lemma write_fields_0 fs buf : len buf = len (enc fs) → write_fields fs buf 0 = Ok (enc fs).
Proof. apply (write_fields_Ok fs [] buf 0 eq_refl). Qed.

Lemma write_first n v buf :
  Z.of_nat n ≤ len buf → on_sub_from buf 0 (put_be n v) = on_sub buf 0 (0 + Z.of_nat n) (put_be n v).
Proof.
  intros H. destruct (split_len (Z.of_nat n) buf) as (m & c & -> & Lm & _); [lia|].
  pose proof (put_be_mid n v [] m c 0 eq_refl Lm) as E. cbn [app] in E. rewrite E.
  unfold on_sub_from. by rewrite on_sub_whole, put_be_app.
Qed.

Lemma enc_take_drop fs k n v :
  fs !! k = Some (n, v) → enc fs = enc (take k fs) ++ be_bytes n v ++ enc (drop (S k) fs).
Proof.
  intros H. rewrite <- (take_drop_middle fs k (n, v) H) at 1.
  unfold enc. by rewrite map_app, concat_app.
Qed.

(** Reading the field number [k] back. *)
Lemma read_at fs k n v rest lo hi :
  fits fs → fs !! k = Some (n, v) → lo = len (enc (take k fs)) → hi = lo + Z.of_nat n →
  sub (enc fs ++ rest) lo hi ≫= get_be n = Ok v.
Proof.
  intros Hf Hk -> ->. rewrite (enc_take_drop fs k n v Hk), <- !app_assoc.
  rewrite (sub_mid (enc (take k fs))) by (rewrite ?len_be_bytes; done). go_cbn.
  rewrite <- (app_nil_r (be_bytes n v)), get_be_app by (by rewrite len_be_bytes).
  rewrite be_val_be_bytes; [done|]. by apply (Forall_lookup_1 _ _ _ _ Hf Hk).
Qed.

Lemma read_first fs n v rest :
  fits fs → fs !! O = Some (n, v) → sub_from (enc fs ++ rest) 0 ≫= get_be n = Ok v.
Proof.
  intros Hf Hk. unfold sub_from. rewrite sub_whole by done. go_cbn.
  rewrite (enc_take_drop fs 0 n v Hk). change (enc (take 0 fs)) with (@nil Z).
  rewrite app_nil_l, <- app_assoc, (get_be_app n (be_bytes n v)) by apply len_be_bytes.
  rewrite be_val_be_bytes; [done|]. by apply (Forall_lookup_1 _ _ _ _ Hf Hk).
Qed.

Lemma split_app a b n : n = len a → BaseLayer.split (a ++ b) n = Ok (BaseLayer.mk a b).
Proof.
  intros ->. unfold BaseLayer.split, sub_from. rewrite sub_prefix, sub_suffix by (rewrite ?len_app; done). done.
Qed.

Lemma split_any data n :
  0 ≤ n ≤ len data → ∃ a b, BaseLayer.split data n = Ok (BaseLayer.mk a b) ∧ a ++ b = data ∧ len a = n.
Proof.
  intros Hn. destruct (split_len n data) as (a & b & -> & La & _); [done|].
  exists a, b. by rewrite split_app.
Qed.

End ScmpLemmas.

(** * The contract of a message *)

(** Writing fills the buffer with the fields of the message, whatever it held;
    decoding them recovers the message; decoding fails on short data only. *)
Class MsgLaws (M : Type) `{!MsgOps M} := {
  msg_wf : M → Prop;
  msg_fields : M → ScmpLemmas.layout;
  msg_min : Z;
  msg_size_min m : msg_size m = msg_min;
  msg_fields_len m : len (ScmpLemmas.enc (msg_fields m)) = msg_min;
  msg_write_Ok m buf : len buf = msg_min → msg_write m buf = Ok (ScmpLemmas.enc (msg_fields m));
  msg_decode_encode m rest : msg_wf m →
    msg_decode (ScmpLemmas.enc (msg_fields m) ++ rest) =
      Ok (msg_set_base (BaseLayer.mk (ScmpLemmas.enc (msg_fields m)) rest) m);
  msg_decode_any data : wf_bytes data →
    match msg_decode data with
    | Ok m => msg_wf m ∧ BaseLayer.Contents (msg_base m) ++ BaseLayer.Payload (msg_base m) = data ∧
        len (BaseLayer.Contents (msg_base m)) = msg_min
    | Err _ => len data < msg_min
    | Panic => False
    end
}.

Import ScmpLemmas.

(** Proves the decoding law: one call per field, then the split. *)
Ltac any_guard :=
  match goal with |- context [fail_if (?a <? ?b) _] =>
    let H := fresh in destruct (Z.ltb_spec a b) as [H|H]; [cbn [fail_if]; go_cbn; try exact H; lia|]; cbn [fail_if]; go_cbn
  end.
Ltac any_field :=
  match goal with
  | |- context [sub ?d ?lo ?hi ≫= get_be ?n] =>
      let E := fresh in let v := fresh "v" in
      destruct (ScionHdrLemmas.sub_be_wf n d lo hi) as (v & E & ?); [done|lia|lia|lia|rewrite E; clear E; go_cbn]
  | |- context [sub ?d 0 (len ?d) ≫= get_be ?n] =>
      let E := fresh in let v := fresh "v" in
      destruct (ScionHdrLemmas.get_be_wf n d 0) as (v & E & ?); [done|lia|lia|rewrite E; clear E; go_cbn]
  end.
Ltac any_split :=
  match goal with |- context [BaseLayer.split ?d ?n] =>
    let E := fresh in let a := fresh "a" in let b := fresh "b" in
    destruct (split_any d n) as (a & b & E & ? & ?); [lia|rewrite E; clear E; go_cbn]
  end.

Ltac fits_fields :=
  repeat (apply Forall_cons_2; [cbn [fst snd]; first [assumption | done]|]); apply Forall_nil_2.

#[export] Instance ExternalInterfaceDown_laws : MsgLaws ExternalInterfaceDown.t.
Proof.
  refine {| msg_wf m := is_u64 (ExternalInterfaceDown.IA m) ∧ is_u64 (ExternalInterfaceDown.IfID m);
    msg_fields m := [(8%nat, ExternalInterfaceDown.IA m); (8%nat, ExternalInterfaceDown.IfID m)];
    msg_min := 16 |}; try done.
  - intros m buf Hb. rewrite <- (write_fields_0 _ buf) by done.
    cbn [msg_write ExternalInterfaceDown.ops]. unfold ExternalInterfaceDown.SerializeTo.
    change (λ b, PutUint64 b (ExternalInterfaceDown.IA m)) with (put_be 8 (ExternalInterfaceDown.IA m)).
    by rewrite write_first by lia.
  - intros m rest [H1 H2]. cbn [msg_decode ExternalInterfaceDown.ops]. unfold ExternalInterfaceDown.DecodeFromBytes.
    set (fs := [_; _]). assert (fits fs) as Hf by fits_fields. assert (len (enc fs) = 16) as L by done.
    unfold ISDAS.IABytes, scmpRawInterfaceLen, Uint64 in *. pose proof (len_nonneg rest).
    replace (len (enc fs ++ rest) <? 8 + 8) with false by (rewrite len_app; lia). go_cbn.
    rewrite (read_first fs 8 (ExternalInterfaceDown.IA m)) by done. go_cbn.
    rewrite (read_at fs 1 8 (ExternalInterfaceDown.IfID m)) by done. go_cbn.
    by rewrite split_app by done.
  - intros data Hb. cbn [msg_decode ExternalInterfaceDown.ops]. unfold ExternalInterfaceDown.DecodeFromBytes.
    unfold ISDAS.IABytes, scmpRawInterfaceLen, Uint64, sub_from. any_guard. any_field. any_field. any_split.
    done.
Defined.

(** The two halves of a decoding law, after the guard. *)
Ltac decode_start fs :=
  let Hf := fresh "Hf" in
  assert (fits fs) as Hf by fits_fields;
  unfold ISDAS.IABytes, scmpRawInterfaceLen, Uint64, Uint16 in *.
Ltac pass_guard rest :=
  pose proof (len_nonneg rest);
  match goal with |- context [fail_if (len (enc ?fs ++ rest) <? ?n) _] =>
    assert (len (enc fs) = n) by done;
    replace (len (enc fs ++ rest) <? n) with false by (rewrite len_app; lia); go_cbn
  end.

#[export] Instance InternalConnectivityDown_laws : MsgLaws InternalConnectivityDown.t.
Proof.
  refine {| msg_wf m := is_u64 (InternalConnectivityDown.IA m) ∧ is_u64 (InternalConnectivityDown.Ingress m) ∧
      is_u64 (InternalConnectivityDown.Egress m);
    msg_fields m := [(8%nat, InternalConnectivityDown.IA m); (8%nat, InternalConnectivityDown.Ingress m);
                     (8%nat, InternalConnectivityDown.Egress m)];
    msg_min := 24 |}; try done.
  - intros m buf Hb. rewrite <- (write_fields_0 _ buf) by done.
    cbn [msg_write InternalConnectivityDown.ops]. unfold InternalConnectivityDown.SerializeTo.
    change (λ b, PutUint64 b (InternalConnectivityDown.IA m)) with (put_be 8 (InternalConnectivityDown.IA m)).
    by rewrite write_first by lia.
  - intros m rest (H1 & H2 & H3). cbn [msg_decode InternalConnectivityDown.ops].
    unfold InternalConnectivityDown.DecodeFromBytes. set (fs := [_; _; _]). decode_start fs. pass_guard rest.
    rewrite (read_first fs 8 (InternalConnectivityDown.IA m)) by done. go_cbn.
    rewrite (read_at fs 1 8 (InternalConnectivityDown.Ingress m) rest 8) by done. go_cbn.
    rewrite (read_at fs 2 8 (InternalConnectivityDown.Egress m) rest (8 + 8)) by done. go_cbn.
    by rewrite split_app by done.
  - intros data Hb. cbn [msg_decode InternalConnectivityDown.ops]. unfold InternalConnectivityDown.DecodeFromBytes.
    unfold ISDAS.IABytes, scmpRawInterfaceLen, Uint64, sub_from.
    any_guard. any_field. any_field. any_field. any_split. done.
Defined.

#[export] Instance Echo_laws : MsgLaws Echo.t.
Proof.
  refine {| msg_wf m := is_u16 (Echo.Identifier m) ∧ is_u16 (Echo.SeqNumber m);
    msg_fields m := [(2%nat, Echo.Identifier m); (2%nat, Echo.SeqNumber m)];
    msg_min := 4 |}; try done.
  - intros m buf Hb. by rewrite <- (write_fields_0 _ buf) by done.
  - intros m rest (H1 & H2). cbn [msg_decode Echo.ops].
    unfold Echo.DecodeFromBytes. set (fs := [_; _]). decode_start fs. pass_guard rest.
    rewrite (read_at fs 0 2 (Echo.Identifier m) rest 0) by done. go_cbn.
    rewrite (read_at fs 1 2 (Echo.SeqNumber m) rest 2) by done. go_cbn.
    by rewrite split_app by done.
  - intros data Hb. cbn [msg_decode Echo.ops]. unfold Echo.DecodeFromBytes, Uint16.
    any_guard. any_field. any_field. any_split. done.
Defined.

#[export] Instance ParameterProblem_laws : MsgLaws ParameterProblem.t.
Proof.
  refine {| msg_wf m := is_u16 (ParameterProblem.Pointer m);
    msg_fields m := [(2%nat, 0); (2%nat, ParameterProblem.Pointer m)];
    msg_min := 4 |}; try done.
  - intros m buf Hb. by rewrite <- (write_fields_0 _ buf) by done.
  - intros m rest H1. cbn [msg_decode ParameterProblem.ops].
    unfold ParameterProblem.DecodeFromBytes. set (fs := [_; _]). decode_start fs. pass_guard rest.
    rewrite (read_at fs 1 2 (ParameterProblem.Pointer m)) by done. go_cbn.
    by rewrite split_app by done.
  - intros data Hb. cbn [msg_decode ParameterProblem.ops]. unfold ParameterProblem.DecodeFromBytes, Uint16.
    any_guard. any_field. any_split. done.
Defined.

#[export] Instance Traceroute_laws : MsgLaws Traceroute.t.
Proof.
  refine {| msg_wf m := is_u16 (Traceroute.Identifier m) ∧ is_u16 (Traceroute.Sequence m) ∧
      is_u64 (Traceroute.IA m) ∧ is_u64 (Traceroute.Interface m);
    msg_fields m := [(2%nat, Traceroute.Identifier m); (2%nat, Traceroute.Sequence m);
                     (8%nat, Traceroute.IA m); (8%nat, Traceroute.Interface m)];
    msg_min := 20 |}; try done.
  - intros m buf Hb. by rewrite <- (write_fields_0 _ buf) by done.
  - intros m rest (H1 & H2 & H3 & H4). cbn [msg_decode Traceroute.ops].
    unfold Traceroute.DecodeFromBytes. set (fs := [_; _; _; _]). decode_start fs. pass_guard rest.
    rewrite (read_at fs 0 2 (Traceroute.Identifier m) rest 0) by done. go_cbn.
    rewrite (read_at fs 1 2 (Traceroute.Sequence m) rest (0 + 2)) by done. go_cbn.
    rewrite (read_at fs 2 8 (Traceroute.IA m) rest (0 + 2 + 2)) by done. go_cbn.
    rewrite (read_at fs 3 8 (Traceroute.Interface m) rest (0 + 2 + 2 + 8)) by done. go_cbn.
    by rewrite split_app by done.
  - intros data Hb. cbn [msg_decode Traceroute.ops]. unfold Traceroute.DecodeFromBytes.
    unfold ISDAS.IABytes, scmpRawInterfaceLen, Uint64, Uint16.
    any_guard. any_field. any_field. any_field. any_field. any_split. done.
Defined.

#[export] Instance DestinationUnreachable_laws : MsgLaws DestinationUnreachable.t.
Proof.
  refine {| msg_wf m := True; msg_fields m := [(4%nat, 0)]; msg_min := 4 |}; try done.
  - intros m buf Hb. cbn [msg_write DestinationUnreachable.ops]. unfold DestinationUnreachable.SerializeTo.
    rewrite copy_same by (unfold len in Hb; change (length (make_bytes 4)) with 4%nat; lia). done.
  - intros m rest _. cbn [msg_decode DestinationUnreachable.ops].
    unfold DestinationUnreachable.DecodeFromBytes. set (fs := [_]). cbn zeta. pass_guard rest.
    by rewrite split_app by done.
  - intros data Hb. cbn [msg_decode DestinationUnreachable.ops]. unfold DestinationUnreachable.DecodeFromBytes.
    cbn zeta. any_guard. any_split. done.
Defined.

#[export] Instance PacketTooBig_laws : MsgLaws PacketTooBig.t.
Proof.
  refine {| msg_wf m := is_u16 (PacketTooBig.MTU m);
    msg_fields m := [(2%nat, 0); (2%nat, PacketTooBig.MTU m)];
    msg_min := 4 |}; try done.
  - intros m buf Hb. by rewrite <- (write_fields_0 _ buf) by done.
  - intros m rest H1. cbn [msg_decode PacketTooBig.ops].
    unfold PacketTooBig.DecodeFromBytes. set (fs := [_; _]). decode_start fs. pass_guard rest.
    rewrite (read_at fs 1 2 (PacketTooBig.MTU m)) by done. go_cbn.
    by rewrite split_app by done.
  - intros data Hb. cbn [msg_decode PacketTooBig.ops]. unfold PacketTooBig.DecodeFromBytes, Uint16.
    any_guard. any_field. any_split. done.
Defined.

(** * The decoders of the message layers, by layer type *)
Module ScmpDispatch.

Inductive message :=
| MExternalInterfaceDown (m : ExternalInterfaceDown.t)
| MInternalConnectivityDown (m : InternalConnectivityDown.t)
| MEcho (m : Echo.t)
| MParameterProblem (m : ParameterProblem.t)
| MTraceroute (m : Traceroute.t)
| MDestinationUnreachable (m : DestinationUnreachable.t)
| MPacketTooBig (m : PacketTooBig.t)
| MPayload (payload : bytes).

(** The decoder registered for the layer that [SCMP.NextLayerType] names; the rest
    is payload. *)
Definition decode (l : L4.LayerType) (data : bytes) : outcome message :=
  match l with
  | L4.LayerTypeSCMPExternalInterfaceDown => MExternalInterfaceDown <$> msg_decode data
  | L4.LayerTypeSCMPInternalConnectivityDown => MInternalConnectivityDown <$> msg_decode data
  | L4.LayerTypeSCMPEcho => MEcho <$> msg_decode data
  | L4.LayerTypeSCMPParameterProblem => MParameterProblem <$> msg_decode data
  | L4.LayerTypeSCMPTraceroute => MTraceroute <$> msg_decode data
  | L4.LayerTypeSCMPDestinationUnreachable => MDestinationUnreachable <$> msg_decode data
  | L4.LayerTypeSCMPPacketTooBig => MPacketTooBig <$> msg_decode data
  | _ => Ok (MPayload data)
  end.

Definition base (m : message) : BaseLayer.t :=
  match m with
  | MExternalInterfaceDown m => msg_base m
  | MInternalConnectivityDown m => msg_base m
  | MEcho m => msg_base m
  | MParameterProblem m => msg_base m
  | MTraceroute m => msg_base m
  | MDestinationUnreachable m => msg_base m
  | MPacketTooBig m => msg_base m
  | MPayload p => BaseLayer.mk [] p
  end.

(** The bytes that a message layer takes. *)
Definition size (l : L4.LayerType) : Z :=
  match l with
  | L4.LayerTypeSCMPExternalInterfaceDown => 16
  | L4.LayerTypeSCMPInternalConnectivityDown => 24
  | L4.LayerTypeSCMPTraceroute => 20
  | L4.LayerTypeSCMPEcho | L4.LayerTypeSCMPParameterProblem | L4.LayerTypeSCMPPacketTooBig
  | L4.LayerTypeSCMPDestinationUnreachable => 4
  | _ => 0
  end.

Lemma decode_any l data :
  wf_bytes data →
  match decode l data with
  | Ok m => BaseLayer.Contents (base m) ++ BaseLayer.Payload (base m) = data ∧
      len (BaseLayer.Contents (base m)) = size l
  | Err _ => len data < size l
  | Panic => False
  end.
Proof.
  intros Hb. destruct l; cbn [decode size]; try done;
    match goal with |- context [@msg_decode ?M ?o data] =>
      pose proof (@msg_decode_any M o _ data Hb) as H; destruct (@msg_decode M o data); go_cbn; cbn [base];
      [exact (proj2 H)|exact H|done] end.
Qed.
End ScmpDispatch.

(** * The SCMP header *)
Module ScmpHeaderLemmas.

Lemma four_bytes (b : bytes) : len b = 4 → ∃ x y z w, b = [x; y; z; w].
Proof.
  intros H. assert (length b = 4%nat) as Hl by (unfold len in H; lia). clear H.
  do 4 (destruct b as [|? b]; [done|]). destruct b; [by do 4 eexists|done].
Qed.

Lemma be2 v : ∃ x y, be_bytes 2 v = [x; y].
Proof.
  pose proof (length_be_bytes 2 v) as L. destruct (be_bytes 2 v) as [|x [|y [|]]]; try done. by do 2 eexists.
Qed.

(** The checksum, when it is computed, and the header as it is then. *)
Lemma SCMP_SerializeTo_Ok PrependBytes b opts s :
  (∀ n, 0 ≤ n → len (PrependBytes n) = n) → is_u16 (SCMP.TypeCode s) → is_u16 (SCMP.Checksum s) → wf_bytes b →
  (SCION.ComputeChecksums opts = true →
     ∃ h, SCMP.scn s = Some h ∧ ScionHdrLemmas.wf_fields h ∧ 4 + len b ≤ 65535) →
  ∃ c, SCMP.SerializeTo PrependBytes b opts s =
      (SCMP.set_Checksum c s, Ok (be_bytes 2 (SCMP.TypeCode s) ++ be_bytes 2 c ++ b)) ∧ is_u16 c ∧
    (SCION.ComputeChecksums opts = true →
       SCION.computeChecksum (SCMP.scn s) (be_bytes 2 (SCMP.TypeCode s) ++ be_bytes 2 c ++ b) L4.SCMP = Ok 0) ∧
    (SCION.ComputeChecksums opts = false → c = SCMP.Checksum s).
Proof.
  intros Hpre Ht Hc Hb Hck. unfold SCMP.SerializeTo. rewrite (SE_bind_eq _ _ s s s) by done.
  destruct (four_bytes (PrependBytes 4)) as (x & y & z & w & ->); [by apply Hpre|].
  pose proof (wf_be_bytes 2 (SCMP.TypeCode s)) as Wt.
  destruct (be2 (SCMP.TypeCode s)) as (t0 & t1 & Et).
  rewrite (SE_bind_eq _ _ s s [t0; t1; z; w]).
  2:{ unfold lift, TypeCode.SerializeTo, PutUint16. change [x; y; z; w] with ([x; y] ++ [z; w]).
      by rewrite put_be_app, Et by done. }
  rewrite Et in *. destruct (SCION.ComputeChecksums opts).
  - destruct (Hck eq_refl) as (h & Eh & Wh & Lh). rewrite Eh.
    destruct (Checksum.checksum_insert h [t0; t1] b L4.SCMP) as (c & E0 & Rc & E1); try done.
    exists c. split_and!; [|done|done|done].
    rewrite (SE_bind_eq _ _ s (SCMP.set_Checksum c s) [t0; t1; 0; 0]).
    2:{ rewrite (SE_bind_eq _ _ s s tt), (SE_bind_eq _ _ s s [t0; t1; 0; w]), (SE_bind_eq _ _ s s [t0; t1; 0; 0]) by done.
        rewrite (SE_bind_eq _ _ s s c) by (unfold lift; change [t0; t1; 0; 0] with ([t0; t1] ++ be_bytes 2 0);
          rewrite <- app_assoc; by rewrite E0).
        done. }
    set (s' := SCMP.set_Checksum c s). rewrite (SE_bind_eq _ _ s' s' s') by done.
    rewrite (SE_bind_eq _ _ s' s' ([t0; t1] ++ be_bytes 2 c)); [done|].
    unfold lift, on_sub_from. change [t0; t1; 0; 0] with ([t0; t1] ++ [0; 0]).
    rewrite (on_sub_suffix [t0; t1]) by done. go_cbn. unfold PutUint16.
    change (SCMP.Checksum s') with c. rewrite <- (app_nil_r [0; 0]), put_be_app by done. go_cbn. by rewrite app_nil_r.
  - exists (SCMP.Checksum s). split_and!; [|done|done|done].
    rewrite (SE_bind_eq _ _ s s [t0; t1; z; w]), (SE_bind_eq _ _ s s s) by done.
    rewrite (SE_bind_eq _ _ s s ([t0; t1] ++ be_bytes 2 (SCMP.Checksum s))).
    { unfold mret, SE_ret. rewrite <- app_assoc. by destruct s. }
    unfold lift, on_sub_from. change [t0; t1; z; w] with ([t0; t1] ++ [z; w]).
    rewrite (on_sub_suffix [t0; t1]) by done. go_cbn. unfold PutUint16.
    rewrite <- (app_nil_r [z; w]), put_be_app by done. go_cbn. by rewrite app_nil_r.
Qed.

Lemma SCMP_DecodeFromBytes_Ok tc c b r :
  is_u16 tc → is_u16 c →
  SCMP.DecodeFromBytes (be_bytes 2 tc ++ be_bytes 2 c ++ b) r =
    (SCMP.mk (BaseLayer.mk (be_bytes 2 tc ++ be_bytes 2 c) b) tc c (SCMP.scn r), Ok tt).
Proof.
  intros Ht Hc. unfold SCMP.DecodeFromBytes. pose proof (len_nonneg b).
  pose proof (be_val_be_bytes_16 tc Ht) as Vt. pose proof (be_val_be_bytes_16 c Hc) as Vc.
  destruct (be2 tc) as (t0 & t1 & Et). destruct (be2 c) as (c0 & c1 & Ec). rewrite Et, Ec in *.
  rewrite (SE_bind_eq _ _ r r tt).
  2:{ unfold lift. rewrite !len_app. change (len [t0; t1]) with 2. change (len [c0; c1]) with 2.
      by replace (_ <? 4) with false by lia. }
  rewrite (SE_bind_eq _ _ r r t0), (SE_bind_eq _ _ r r t1) by done.
  rewrite (SE_bind_eq _ _ r r tc) by (unfold lift, TypeCode.CreateSCMPTypeCode, Uint16;
    rewrite <- (app_nil_r [t0; t1]), get_be_app by done; by rewrite Vt).
  rewrite (SE_bind_eq _ _ r r c).
  2:{ unfold lift. rewrite (sub_mid [t0; t1] [c0; c1] b) by done. go_cbn. unfold Uint16.
      rewrite <- (app_nil_r [c0; c1]), get_be_app by done. by rewrite Vc. }
  rewrite (SE_bind_eq _ _ r r (BaseLayer.mk ([t0; t1] ++ [c0; c1]) b)); [done|].
  unfold lift. rewrite app_assoc. by rewrite split_app by done.
Qed.

Lemma SCMP_DecodeFromBytes_any data r :
  wf_bytes data →
  match SCMP.DecodeFromBytes data r with
  | (s, Ok _) => is_u16 (SCMP.TypeCode s) ∧ is_u16 (SCMP.Checksum s) ∧ SCMP.scn s = SCMP.scn r ∧
      BaseLayer.Contents (SCMP.base s) = be_bytes 2 (SCMP.TypeCode s) ++ be_bytes 2 (SCMP.Checksum s) ∧
      BaseLayer.Contents (SCMP.base s) ++ BaseLayer.Payload (SCMP.base s) = data
  | (s, Err _) => s = r ∧ len data < 4
  | (_, Panic) => False
  end.
Proof.
  intros Hb. destruct (Z.lt_ge_cases (len data) 4) as [Hl|Hl].
  { unfold SCMP.DecodeFromBytes, fail_if. replace (len data <? 4) with true by lia. done. }
  destruct data as [|t0 [|t1 [|c0 [|c1 b]]]]; try (exfalso; rewrite ?len_cons in Hl; change (len (@nil Z)) with 0 in Hl; lia).
  wf_elems Hb. assert (wf_bytes [t0; t1]) as Wt by wf_list.
  assert (wf_bytes [c0; c1]) as Wc by wf_list.
  pose proof (be_bytes_be_val_n 2 _ Wt eq_refl) as Et. pose proof (be_bytes_be_val_n 2 _ Wc eq_refl) as Ec.
  pose proof (be_val_u16 _ Wt eq_refl). pose proof (be_val_u16 _ Wc eq_refl).
  pose proof (SCMP_DecodeFromBytes_Ok (be_val [t0; t1]) (be_val [c0; c1]) b r ltac:(done) ltac:(done)) as E.
  rewrite Et, Ec in E. change ([t0; t1] ++ [c0; c1] ++ b) with (t0 :: t1 :: c0 :: c1 :: b) in E. rewrite E.
  cbn [SCMP.TypeCode SCMP.Checksum SCMP.scn SCMP.base BaseLayer.Contents BaseLayer.Payload]. by rewrite Et, Ec.
Qed.

End ScmpHeaderLemmas.

(** * UDP *)
Module UdpLemmas.

Import ScmpHeaderLemmas.

Definition udp_out (u : UDP.t) (length c : Z) : bytes :=
  be_bytes 2 (UDP.SrcPort u) ++ be_bytes 2 (UDP.DstPort u) ++ be_bytes 2 length ++ be_bytes 2 c.

Lemma put16_at pre x y rest v k :
  k = len pre → on_sub_from (pre ++ x :: y :: rest) k (λ b, PutUint16 b v) = Ok (pre ++ be_bytes 2 v ++ rest).
Proof.
  intros ->. unfold on_sub_from. rewrite on_sub_suffix by (rewrite ?len_app; done).
  unfold PutUint16. change (x :: y :: rest) with ([x; y] ++ rest). by rewrite put_be_app.
Qed.

Lemma UDP_SerializeTo_Ok PrependBytes b opts u :
  (∀ n, 0 ≤ n → len (PrependBytes n) = n) → is_u16 (UDP.Checksum u) → wf_bytes b → SCION.FixLengths opts = true →
  (SCION.ComputeChecksums opts = true →
     ∃ h, UDP.scn u = Some h ∧ ScionHdrLemmas.wf_fields h ∧ 8 + len b ≤ 65535) →
  let u1 := UDP.fixLengths (8 + len b) u in
  ∃ c, UDP.SerializeTo PrependBytes b opts u =
      (UDP.set_Checksum c u1, Ok (udp_out u (UDP.Length u1) c ++ b)) ∧ is_u16 c ∧
    (SCION.ComputeChecksums opts = true →
      SCION.computeChecksum (UDP.scn u) (udp_out u (UDP.Length u1) c ++ b) L4.UDP = Ok 0).
Proof.
  intros Hpre Hc Hb Hfix Hck u1. unfold UDP.SerializeTo, udp_out. rewrite (SE_bind_eq _ _ u u u) by done.
  assert (∃ x0 x1 x2 x3 x4 x5 x6 x7, PrependBytes 8 = [x0; x1; x2; x3; x4; x5; x6; x7])
    as (x0 & x1 & x2 & x3 & x4 & x5 & x6 & x7 & ->).
  { pose proof (Hpre 8 ltac:(lia)) as H. assert (length (PrependBytes 8) = 8%nat) as Hl by (unfold len in H; lia). clear H.
    destruct (PrependBytes 8) as [|? [|? [|? [|? [|? [|? [|? [|? [|]]]]]]]]]; try done. by do 8 eexists. }
  assert (UDP.scn u1 = UDP.scn u) as Es by (unfold u1, UDP.fixLengths; by case_match).
  pose proof (wf_be_bytes 2 (UDP.SrcPort u)) as W1. pose proof (wf_be_bytes 2 (UDP.DstPort u)) as W2.
  pose proof (wf_be_bytes 2 (UDP.Length u1)) as W3.
  pose proof (put16_at [] x0 x1 [x2; x3; x4; x5; x6; x7] (UDP.SrcPort u) 0 eq_refl) as E1. cbn [app] in E1.
  unfold on_sub_from in E1. rewrite on_sub_whole in E1 by done.
  destruct (be2 (UDP.SrcPort u)) as (s0 & s1 & ES). destruct (be2 (UDP.DstPort u)) as (d0 & d1 & ED).
  destruct (be2 (UDP.Length u1)) as (l0 & l1 & EL). rewrite ES in *. rewrite ED, EL in *.
  pose proof (put16_at [s0; s1] x2 x3 [x4; x5; x6; x7] (UDP.DstPort u) 2 eq_refl) as E2. rewrite ED in E2. cbn [app] in E2.
  pose proof (put16_at [s0; s1; d0; d1] x4 x5 [x6; x7] (UDP.Length u1) 4 eq_refl) as E3. rewrite EL in E3. cbn [app] in E3.
  rewrite (SE_bind_eq _ _ u u [s0; s1; x2; x3; x4; x5; x6; x7]) by (unfold lift; by rewrite E1).
  rewrite (SE_bind_eq _ _ u u [s0; s1; d0; d1; x4; x5; x6; x7])
    by exact (f_equal (pair u) E2).
  rewrite Hfix. rewrite (SE_bind_eq _ _ u u1 tt).
  2:{ unfold modify, u1. do 3 f_equal. rewrite len_app. done. }
  rewrite (SE_bind_eq _ _ u1 u1 u1) by done.
  rewrite (SE_bind_eq _ _ u1 u1 [s0; s1; d0; d1; l0; l1; x6; x7])
    by exact (f_equal (pair u1) E3).
  set (hd := [s0; s1; d0; d1; l0; l1]). assert (wf_bytes hd) as Wh by (unfold hd; wf_elems W1; wf_elems W2; wf_elems W3; wf_list).
  assert (∃ c buf, (if SCION.ComputeChecksums opts then
        _ ← lift (fail_if (match UDP.scn u1 with None => true | _ => false end)
                    (New "can not calculate checksum without SCION header"));
        buf ← lift (put [s0; s1; d0; d1; l0; l1; x6; x7] 6 0);
        buf ← lift (put buf 7 0);
        c ← lift (SCION.computeChecksum (UDP.scn u1) (buf ++ b) L4.UDP);
        _ ← modify (UDP.set_Checksum c);
        mret buf
      else mret [s0; s1; d0; d1; l0; l1; x6; x7]) u1 = (UDP.set_Checksum c u1, Ok (hd ++ buf)) ∧
      length buf = 2%nat ∧ is_u16 c ∧ (SCION.ComputeChecksums opts = true →
        SCION.computeChecksum (UDP.scn u) (hd ++ be_bytes 2 c ++ b) L4.UDP = Ok 0)) as (c & buf & E & Lb & Rc & Hv).
  { destruct (SCION.ComputeChecksums opts).
    - destruct (Hck eq_refl) as (h & Eh & Wf & Lh).
      destruct (Checksum.checksum_insert h hd b L4.UDP) as (c & E0 & Rc & Ev); try done.
      exists c, [0; 0]. split_and!; [|done|done|intros _; by rewrite Eh]. rewrite Es, Eh.
      rewrite (SE_bind_eq _ _ u1 u1 tt), (SE_bind_eq _ _ u1 u1 [s0; s1; d0; d1; l0; l1; 0; x7]) by done.
      rewrite (SE_bind_eq _ _ u1 u1 (hd ++ [0; 0])) by done.
      rewrite (SE_bind_eq _ _ u1 u1 c) by (unfold lift; rewrite <- app_assoc; by rewrite <- E0). done.
    - exists (UDP.Checksum u1), [x6; x7].
      assert (UDP.Checksum u1 = UDP.Checksum u) as -> by (unfold u1, UDP.fixLengths; by case_match).
      split_and!; [|done|done|done]. unfold mret, SE_ret, UDP.set_Checksum. f_equal.
      unfold u1, UDP.fixLengths. by case_match; destruct u. }
  exists c. set (u2 := UDP.set_Checksum c u1) in *. rewrite (SE_bind_eq _ _ _ _ _ E), (SE_bind_eq _ _ u2 u2 u2) by done.
  do 2 (destruct buf as [|? buf]; [done|]). destruct buf; [|done].
  rewrite (SE_bind_eq _ _ u2 u2 (hd ++ be_bytes 2 c)).
  2:{ unfold lift. rewrite (put16_at hd) by done. by rewrite app_nil_r. }
  split_and!; [by rewrite <- app_assoc|done|]. intros Hcc. rewrite <- Hv by done. by rewrite <- !app_assoc.
Qed.

(** The payload that the length field delimits. *)
Definition udp_payload (length : Z) (data : bytes) : bytes :=
  if length =? 0 then drop 8 data else take (Z.to_nat (length - 8)) (drop 8 data).

Lemma UDP_DecodeFromBytes_any data r :
  wf_bytes data →
  match UDP.DecodeFromBytes data r with
  | (u, Ok _) => 8 ≤ len data ∧ (UDP.Length u = 0 ∨ 8 ≤ UDP.Length u) ∧
      UDP.base u = BaseLayer.mk (take 8 data) (udp_payload (UDP.Length u) data) ∧
      take 8 data = udp_out u (UDP.Length u) (UDP.Checksum u) ∧
      is_u16 (UDP.SrcPort u) ∧ is_u16 (UDP.DstPort u) ∧ is_u16 (UDP.Length u) ∧ is_u16 (UDP.Checksum u)
  | (u, Err _) => len data < 8 ∨
      (1 ≤ UDP.Length u < 8 ∧ take 8 data = udp_out u (UDP.Length u) (UDP.Checksum u) ∧
       is_u16 (UDP.SrcPort u) ∧ is_u16 (UDP.DstPort u) ∧ is_u16 (UDP.Checksum u))
  | (_, Panic) => False
  end.
Proof.
  intros Hb. unfold UDP.DecodeFromBytes. destruct (Z.ltb_spec (len data) 8) as [Hl|Hl]; [by left|].
  rewrite (SE_bind_eq _ _ r r tt) by done.
  do 8 (destruct data as [|? data]; [exfalso; rewrite ?len_cons in Hl; change (len (@nil Z)) with 0 in Hl; lia|]).
  set (d8 := z :: _) in *. wf_elems Hb.
  assert (∀ x y, is_u8 x → is_u8 y → be_bytes 2 (be_val [x; y]) = [x; y] ∧ is_u16 (be_val [x; y])) as Hbe.
  { intros x y Hx Hy. assert (wf_bytes [x; y]) by wf_list. split; [by apply be_bytes_be_val_n|by apply be_val_u16]. }
  destruct (Hbe z z0) as [E1 R1]; [done..|]. destruct (Hbe z1 z2) as [E2 R2]; [done..|].
  destruct (Hbe z3 z4) as [E3 R3]; [done..|]. destruct (Hbe z5 z6) as [E4 R4]; [done..|].
  rewrite (SE_bind_eq _ _ r r [z; z0]), (SE_bind_eq _ _ r r (be_val [z; z0])) by done.
  rewrite (SE_bind_eq _ _ r r [z1; z2]), (SE_bind_eq _ _ r r (be_val [z1; z2])) by done.
  rewrite (SE_bind_eq _ _ r r (be_val [z3; z4])), (SE_bind_eq _ _ r r (be_val [z5; z6])) by done.
  rewrite (SE_bind_eq _ _ r r [z; z0; z1; z2; z3; z4; z5; z6]) by done.
  set (L := be_val [z3; z4]) in *. 
  set (u1 := UDP.mk (BaseLayer.mk [z; z0; z1; z2; z3; z4; z5; z6] []) (be_val [z; z0]) (be_val [z1; z2]) L
               (be_val [z5; z6]) [z; z0] [z1; z2] (UDP.scn r)).
  rewrite (SE_bind_eq _ _ r u1 tt) by done. uint_bounds.
  assert (len d8 = 8 + len data) as Ld by (unfold d8; rewrite !len_cons; lia).
  assert (drop 8 d8 = data) as Edrop by done. assert (take 8 d8 = [z; z0; z1; z2; z3; z4; z5; z6]) as Etake by done.
  assert (d8 = [z; z0; z1; z2; z3; z4; z5; z6] ++ data) as Ed by done. rewrite Etake. clearbody d8.
  pose proof (len_nonneg data). unfold udp_payload, udp_out.
  destruct (Z.leb_spec 8 L) as [HL|HL]; [|destruct (Z.eqb_spec L 0) as [HL0|HL0]].
  - rewrite (SE_bind_eq _ _ u1 u1 (take (Z.to_nat (L - 8)) data)).
    2:{ unfold lift. destruct (Z.ltb_spec (len d8) L).
        - rewrite Ed at 1. rewrite (sub_suffix [z; z0; z1; z2; z3; z4; z5; z6]) by (rewrite ?Ld; done).
          rewrite take_ge; [done|]. unfold len in *. lia.
        - rewrite sub_Ok by lia. change (Z.to_nat 8) with 8%nat. by rewrite Edrop. }
    unfold modify. cbn [UDP.Length UDP.set_Payload u1 UDP.base UDP.SrcPort UDP.DstPort UDP.Checksum].
    replace (L =? 0) with false by lia. rewrite E1, E2, E3, E4, Edrop. split_and!; try done; lia.
  - rewrite (SE_bind_eq _ _ u1 u1 data).
    2:{ unfold lift, sub_from. rewrite Ed at 1. by rewrite (sub_suffix [z; z0; z1; z2; z3; z4; z5; z6]) by (rewrite ?Ld; done). }
    unfold modify. cbn [UDP.Length UDP.set_Payload u1 UDP.base UDP.SrcPort UDP.DstPort UDP.Checksum].
    replace (L =? 0) with true by lia. rewrite E1, E2, E3, E4, Edrop. split_and!; try done; lia.
  - right. cbn [UDP.Length u1 UDP.SrcPort UDP.DstPort UDP.Checksum].
    rewrite E1, E2, E3, E4. split_and!; try done; lia.
Qed.

End UdpLemmas.

(** * Properties *)
Module ScmpProperties.

Import ScmpHeaderLemmas UdpLemmas.


(** Decoding SCMP never panics.  The header decoder fails only on less than
    four bytes, and otherwise splits the data after four bytes that are the type
    code and the checksum; the decoder of the message that the type code announces
    fails only when its fixed part does not fit, and otherwise splits the payload
    after that part. *)
Theorem scmp_decode_safe data r :
  wf_bytes data →
  match SCMP.DecodeFromBytes data r with
  | (s, Ok _) =>
      BaseLayer.Contents (SCMP.base s) = be_bytes 2 (SCMP.TypeCode s) ++ be_bytes 2 (SCMP.Checksum s) ∧
      BaseLayer.Contents (SCMP.base s) ++ BaseLayer.Payload (SCMP.base s) = data ∧
      let l := SCMP.NextLayerType s in
      let payload := BaseLayer.Payload (SCMP.base s) in
      match ScmpDispatch.decode l payload with
      | Ok m => ScmpDispatch.size l ≤ len payload ∧
          BaseLayer.Contents (ScmpDispatch.base m) ++ BaseLayer.Payload (ScmpDispatch.base m) = payload ∧
          len (BaseLayer.Contents (ScmpDispatch.base m)) = ScmpDispatch.size l
      | Err _ => len payload < ScmpDispatch.size l
      | Panic => False
      end
  | (s, Err _) => s = r ∧ len data < 4
  | (_, Panic) => False
  end.
Proof.
  intros Hb. pose proof (SCMP_DecodeFromBytes_any data r Hb) as H.
  destruct (SCMP.DecodeFromBytes data r) as [s [| |]]; [|done..].
  destruct H as (_ & _ & _ & Hc & Hd). split_and!; [done..|]. cbn zeta.
  assert (wf_bytes (BaseLayer.Payload (SCMP.base s))) as Hp by (rewrite <- Hd in Hb; by apply wf_bytes_app in Hb as [_ ?]).
  pose proof (ScmpDispatch.decode_any (SCMP.NextLayerType s) _ Hp) as H.
  destruct (ScmpDispatch.decode _ _) as [m| |]; [|done..]. destruct H as [E L]. split_and!; [|done..].
  rewrite <- E, len_app, L. pose proof (len_nonneg (BaseLayer.Payload (ScmpDispatch.base m))). lia.
Qed.

(** ** UDP *)

(** UDP packets survive the wire, whatever their size.  Serialising with
    [FixLengths] writes the length, or 0 when it does not fit 16 bits, and, when
    asked to, a checksum that verifies; decoding gives the ports and the whole
    payload back, for jumbograms too. *)
Theorem udp_roundtrip PrependBytes u r b opts :
  (∀ n, 0 ≤ n → len (PrependBytes n) = n) → is_u16 (UDP.SrcPort u) → is_u16 (UDP.DstPort u) →
  is_u16 (UDP.Checksum u) → wf_bytes b → SCION.FixLengths opts = true →
  (SCION.ComputeChecksums opts = true →
     ∃ h, UDP.scn u = Some h ∧ ScionHdrLemmas.wf_fields h ∧ 8 + len b ≤ 65535) →
  ∃ u' out r', UDP.SerializeTo PrependBytes b opts u = (u', Ok (out ++ b)) ∧ len out = 8 ∧
    UDP.Length u' = (if 65535 <? 8 + len b then 0 else 8 + len b) ∧
    (SCION.ComputeChecksums opts = true → SCION.computeChecksum (UDP.scn u) (out ++ b) L4.UDP = Ok 0) ∧
    UDP.DecodeFromBytes (out ++ b) r = (r', Ok tt) ∧
    UDP.SrcPort r' = UDP.SrcPort u ∧ UDP.DstPort r' = UDP.DstPort u ∧
    UDP.Length r' = UDP.Length u' ∧ UDP.Checksum r' = UDP.Checksum u' ∧
    UDP.base r' = BaseLayer.mk out b.
Proof.
  intros Hpre Hs Hd Hc Hb Hfix Hck.
  destruct (UDP_SerializeTo_Ok PrependBytes b opts u Hpre Hc Hb Hfix Hck) as (c & Hser & Rc & Hv).
  set (u1 := UDP.fixLengths (8 + len b) u) in *. pose proof (len_nonneg b) as Hb0.
  assert (UDP.Length u1 = if 65535 <? 8 + len b then 0 else 8 + len b) as EL.
  { unfold u1, UDP.fixLengths. destruct (Z.ltb_spec 65535 (8 + len b)); [done|].
    cbn [UDP.Length UDP.set_Length]. apply uint_of_small. split; lia. }
  assert (is_u16 (UDP.Length u1)) as RL by (rewrite EL; destruct (Z.ltb_spec 65535 (8 + len b)); ulia).
  set (out := udp_out u (UDP.Length u1) c). assert (len out = 8) as Lo by done.
  assert (wf_bytes out) as Wo by (unfold out, udp_out; rewrite !wf_bytes_app; split_and!; apply wf_be_bytes).
  assert (wf_bytes (out ++ b)) as Wob by (by apply wf_bytes_app).
  pose proof (UDP_DecodeFromBytes_any (out ++ b) r Wob) as H.
  assert (take 8 (out ++ b) = out) as Et by (change 8%nat with (length out); apply take_app_length).
  assert (drop 8 (out ++ b) = b) as Edr by (change 8%nat with (length out); apply drop_app_length).
  assert (∀ r', take 8 (out ++ b) = udp_out r' (UDP.Length r') (UDP.Checksum r') →
    is_u16 (UDP.SrcPort r') → is_u16 (UDP.DstPort r') → is_u16 (UDP.Length r') → is_u16 (UDP.Checksum r') →
    UDP.SrcPort r' = UDP.SrcPort u ∧ UDP.DstPort r' = UDP.DstPort u ∧ UDP.Length r' = UDP.Length u1 ∧
    UDP.Checksum r' = c) as Hinj.
  { intros r' E R1 R2 R3 R4. rewrite Et in E. unfold out, udp_out in E.
    apply app_inj_1 in E as [E1 E]; [|by rewrite !length_be_bytes].
    apply app_inj_1 in E as [E2 E]; [|by rewrite !length_be_bytes].
    apply app_inj_1 in E as [E3 E4]; [|by rewrite !length_be_bytes].
    apply (f_equal be_val) in E1, E2, E3, E4. by rewrite !be_val_be_bytes_16 in *. }
  assert (∀ r', UDP.Length r' = UDP.Length u1 → udp_payload (UDP.Length r') (out ++ b) = b) as Hpl.
  { intros r' ->. unfold udp_payload. rewrite Edr, EL. destruct (Z.ltb_spec 65535 (8 + len b)); [done|].
    replace (8 + len b =? 0) with false by lia. apply take_ge. unfold len. lia. }
  destruct (UDP.DecodeFromBytes (out ++ b) r) as [r' [[]|e|]] eqn:Edec; [|exfalso|done].
  - destruct H as (_ & _ & Hbase & Hout & R1 & R2 & R3 & R4). destruct (Hinj r' Hout R1 R2 R3 R4) as (E1 & E2 & E3 & E4).
    exists (UDP.set_Checksum c u1), out, r'. split_and!; try done. by rewrite Hbase, Et, Hpl.
  - destruct H as [H|(HL & Hout & R1 & R2 & R4)]; [rewrite len_app, Lo in H; lia|].
    destruct (Hinj r' Hout R1 R2 ltac:(ulia) R4) as (_ & _ & E3 & _). rewrite E3, EL in HL.
    destruct (Z.ltb_spec 65535 (8 + len b)); lia.
Qed.

(** Decoding UDP never panics.  It fails exactly on less than eight bytes or on
    a length field from 1 to 7; otherwise the payload is what follows the eight
    bytes up to the length field, up to the end of the data when the field is 0 or
    points beyond it, never outside of the data. *)
Theorem udp_decode_safe data r :
  wf_bytes data →
  match UDP.DecodeFromBytes data r with
  | (u, Ok _) => 8 ≤ len data ∧ (UDP.Length u = 0 ∨ 8 ≤ UDP.Length u) ∧
      UDP.base u = BaseLayer.mk (take 8 data) (udp_payload (UDP.Length u) data) ∧
      take 8 data = udp_out u (UDP.Length u) (UDP.Checksum u)
  | (u, Err _) => len data < 8 ∨
      (1 ≤ UDP.Length u < 8 ∧ take 8 data = udp_out u (UDP.Length u) (UDP.Checksum u))
  | (_, Panic) => False
  end.
Proof.
  intros Hb. pose proof (UDP_DecodeFromBytes_any data r Hb) as H.
  destruct (UDP.DecodeFromBytes data r) as [u [| |]]; [by destruct H as (?&?&?&?&_)| |done].
  destruct H as [?|(?&?&_)]; [by left|by right].
Qed.

(** ** Witnesses *)

Definition example_scmp : SCMP.t :=
  SCMP.mk (BaseLayer.mk [] []) 0x8200 0 (Some ScionHdrProperties.example_header).
Definition example_traceroute : Traceroute.t := Traceroute.mk (BaseLayer.mk [] []) 5 6 0x1ff0000000110 41.


Lemma scmp_decode_safe_witness :
  ∃ s, SCMP.DecodeFromBytes [1; 4; 9; 9; 0; 0; 0; 0; 77] example_scmp = (s, Ok tt) ∧
    BaseLayer.Contents (SCMP.base s) ++ BaseLayer.Payload (SCMP.base s) = [1; 4; 9; 9; 0; 0; 0; 0; 77].
Proof.
  pose proof (scmp_decode_safe [1; 4; 9; 9; 0; 0; 0; 0; 77] example_scmp) as H.
  specialize (H ltac:(repeat constructor; done)).
  destruct (SCMP.DecodeFromBytes _ _) as [s [[]| |]] eqn:E; [|vm_compute in E; discriminate E..].
  exists s. split; [done|]. apply H.
Defined.

Definition example_udp : UDP.t :=
  UDP.mk (BaseLayer.mk [] []) 50000 30041 0 0 [] [] (Some ScionHdrProperties.example_header).

Lemma udp_roundtrip_witness :
  ∃ u' out r', UDP.SerializeTo make_bytes [1; 2; 3] (SCION.mkOpts true true) example_udp = (u', Ok (out ++ [1; 2; 3])) ∧
    UDP.DecodeFromBytes (out ++ [1; 2; 3]) example_udp = (r', Ok tt) ∧ UDP.base r' = BaseLayer.mk out [1; 2; 3].
Proof.
  destruct (udp_roundtrip make_bytes example_udp example_udp [1; 2; 3] (SCION.mkOpts true true))
    as (u' & out & r' & H1 & _ & _ & _ & H2 & _ & _ & _ & _ & H3); try done.
  - intros n Hn. by apply len_make_bytes.
  - repeat constructor; done.
  - intros _. exists ScionHdrProperties.example_header. split_and!; [done| |done].
    exact ScionHdrProperties.example_wf_fields.
  - by exists u', out, r'.
Defined.

Lemma udp_decode_safe_witness :
  ∃ u, UDP.DecodeFromBytes [0; 53; 0; 54; 0; 10; 0; 0; 1; 2; 3] example_udp = (u, Ok tt) ∧
    BaseLayer.Payload (UDP.base u) = [1; 2].
Proof.
  pose proof (udp_decode_safe [0; 53; 0; 54; 0; 10; 0; 0; 1; 2; 3] example_udp) as H.
  specialize (H ltac:(repeat constructor; done)).
  destruct (UDP.DecodeFromBytes _ _) as [u [[]| |]] eqn:E; [|vm_compute in E; discriminate E..].
  exists u. split; [done|]. destruct H as (_ & _ & -> & _). vm_compute in E. by injection E as <-.
Defined.

End ScmpProperties.
