(* ===== verification/Drkey.v ===== *)
(** Symmetric keys of the data plane: key derivation of [pkg/drkey] (Module
    [KeyDerivation]), the AS's secret values of
    [router/control/drkey.go] (Module [DRKeyProvider]) and the FABRID
    validators of [pkg/experimental/fabrid/crypto] (Module [FabridCrypto]).
    The AES block function of [crypto/aes] is a parameter. *)
From S2P Require Export Options.

(** * crypto/aes and crypto/cipher: what the code uses of them *)
Module AES.

Definition BlockSize : Z := 16.

Definition xor_bytes (a b : bytes) : bytes := zip_with Z.lxor a b.

Section cipher.
(** [aes_Encrypt key block] is the block that [cipher.Block.Encrypt] writes. *)
Context (aes_Encrypt : bytes → bytes → bytes).

(** [aes.NewCipher]: the block function for the key. *)
Definition NewCipher (key : bytes) : outcome (bytes → bytes) :=
  if (len key =? 16) || (len key =? 24) || (len key =? 32) then Ok (aes_Encrypt key)
  else Err (New "crypto/aes: invalid key size").
End cipher.

(** Cipher block chaining of [n] blocks: the output and the last block, which
    is the chaining value of the next call. *)
Fixpoint cbc (E : bytes → bytes) (n : nat) (iv src : bytes) : bytes * bytes :=
  match n with
  | O => ([], iv)
  | S n =>
      let c := E (xor_bytes (take 16 src) iv) in
      let '(out, iv) := cbc E n c (drop 16 src) in
      (c ++ out, iv)
  end.

(** [BlockMode.CryptBlocks(dst, src)] of a CBC encrypter with chaining value
    [iv]; it panics on partial blocks and on a [dst] that is too short. *)
Definition CryptBlocks (E : bytes → bytes) (iv dst src : bytes) : outcome (bytes * bytes) :=
  if negb (len src mod 16 =? 0) || (len dst <? len src) then Panic else
  let '(out, iv) := cbc E (Z.to_nat (len src / 16)) iv src in
  Ok (copy dst out, iv).

End AES.

(** * pkg/drkey/protocol.go, pkg/drkey/specific/specific.go *)
Module KeyDerivation.

Import AES.

Definition AsAs : Z := 0.
Definition AsHost : Z := 1.
Definition HostAS : Z := 2.
Definition HostHost : Z := 3.

Definition ZeroBlock : bytes := make_bytes BlockSize.
(** [drkey.Key] is an array of 16 bytes. *)
Definition zero_key : bytes := make_bytes 16.

(** The common shape of the inputs of the second level: a key type, the kind of
    host address and the address, padded with zeros to whole blocks.  The result
    is the buffer and the length of the input. *)
Definition serialize_host (derType : Z) (input : bytes) (host : Host.t) : outcome (bytes * Z) :=
  p ← wrap_err "packing host address" (AddrType.PackAddr host);
  let '(typ, raw) := p in
  let l := len raw in
  let nrBlocks := Z.quot (2 + l - 1) 16 + 1 in
  let inputLength := 16 * nrBlocks in
  _ ← get input (inputLength - 1);
  input ← put input 0 derType;
  input ← put input 1 (Z.land typ 0xF);
  input ← on_sub_from input 2 (λ b, Ok (copy b raw));
  input ← on_sub input (2 + l) inputLength (λ b, Ok (copy b ZeroBlock));
  Ok (input, inputLength).

Definition SerializeHostHostInput := serialize_host HostHost.
Definition serializeLevel2Input (input : bytes) (derType : Z) (host : Host.t) :=
  serialize_host derType input host.

Definition serializeLevel1Input (buf : bytes) (dstIA : Z) : outcome (bytes * Z) :=
  _ ← get buf (BlockSize - 1);
  buf ← put buf 0 AsAs;
  buf ← on_sub_from buf 1 (λ b, PutUint64 b dstIA);
  buf ← on_sub_from buf 9 (λ b, Ok (copy b ZeroBlock));
  Ok (buf, BlockSize).

Section derive.
Context (aes_Encrypt : bytes → bytes → bytes).
Context (netip_ParseAddr : gostring → outcome IP.t).

Definition initAESCBC (key : bytes) : outcome (bytes → bytes) :=
  match NewCipher aes_Encrypt key with
  | Ok E => Ok E
  | Err _ => Err (New "Unable to initialize AES cipher")
  | Panic => Panic
  end.

Definition cbcMac (E : bytes → bytes) (b : bytes) : outcome bytes :=
  r ← CryptBlocks E ZeroBlock b b;
  let '(b, _) := r in
  sub_from b (len b - BlockSize).

Definition DeriveKey (input upperLevelKey : bytes) : outcome bytes :=
  b ← initAESCBC upperLevelKey;
  mac ← cbcMac b input;
  Ok (copy zero_key mac).

Definition DeriveLevel1 (dstIA : Z) (key : bytes) : outcome bytes :=
  r ← serializeLevel1Input (make_bytes BlockSize) dstIA;
  let '(buf, l) := r in
  input ← sub buf 0 l;
  DeriveKey input key.

(** The derivation with a host on one side. *)
Definition derive_host (serialize : bytes → Host.t → outcome (bytes * Z)) (parsing serializing : string)
    (hostText : gostring) (key : bytes) : outcome bytes :=
  host ← wrap_err parsing (Host.ParseHost netip_ParseAddr hostText);
  r ← wrap_err serializing (serialize (make_bytes 32) host);
  let '(buf, l) := r in
  input ← sub buf 0 l;
  DeriveKey input key.

Definition DeriveASHost :=
  derive_host (λ b, serializeLevel2Input b AsHost) "parsing dst host" "serializing drkey level 2 input".
Definition DeriveHostAS :=
  derive_host (λ b, serializeLevel2Input b HostAS) "parsing src host" "serializing drkey level 2 input".
Definition DeriveHostHost :=
  derive_host SerializeHostHostInput "deriving input H2H" "serializing drkey host-host input".
End derive.

End KeyDerivation.

(** * router/control/drkey.go *)
Module DRKeyProvider.

Import KeyDerivation.

Definition Second : Z := 1000000000.
Definition pastValidity : Z := 5 * Second.
(** The entries of the protocol table of the generated code. *)
Definition numDRKeyProtocols : Z := 3.
Definition FABRID : Z := 2.

(** Instants are nanoseconds since the Unix epoch; [time.Time{}] is the first of
    January of year 1. *)
Definition zero_time : Z := -62135596800 * Second.

Record SecretValue := mkSecret {
  EpochBegin : Z;
  EpochEnd : Z;
  Key : bytes
}.
Definition zero_secret : SecretValue := mkSecret zero_time zero_time zero_key.

(** [None] is the nil slice before [Init]. *)
Record t := mk {
  drKeySecrets : option (list (list SecretValue));
  drKeySecretNextOverwrite : list Z
}.
Definition zero : t := mk None [].

Definition errDRKeySecretInvalid : error := New "no valid drkey secret for provided time period".
Definition errDRKeyNotInitialized : error := New "drkey not initialized".

Definition Init : SE t unit :=
  modify (λ _, mk (Some (replicate (Z.to_nat numDRKeyProtocols) [zero_secret; zero_secret]))
                  (make_bytes numDRKeyProtocols)).

Definition AddSecret (protocolID : Z) (sv : SecretValue) : SE t unit := λ d,
  match drKeySecrets d with
  | None => (d, Err errDRKeyNotInitialized)
  | Some secrets =>
      if len secrets <? protocolID
      then (d, Err (New "Error while adding a new drkey. ProtocolID too large")) else
      match (nextOverwrite ← get (drKeySecretNextOverwrite d) protocolID;
             row ← get secrets protocolID;
             row ← put row nextOverwrite sv;
             secrets ← put secrets protocolID row;
             next ← put (drKeySecretNextOverwrite d) protocolID (u8 (1 - nextOverwrite));
             Ok (mk (Some secrets) next)) with
      | Ok d' => (d', Ok tt)
      | Err e => (d, Err e)
      | Panic => (d, Panic)
      end
  end.

(** [Time.Sub] saturates at the range of [time.Duration]. *)
Definition time_Sub (a b : Z) : Z := Z.min (2 ^ 63 - 1) (Z.max (- 2 ^ 63) (a - b)).

Definition valid_at (t : Z) (sv : SecretValue) : bool := (EpochBegin sv <? t) && (t <? EpochEnd sv).

Fixpoint first_valid (t : Z) (secrets : list SecretValue) : outcome SecretValue :=
  match secrets with
  | [] => Err errDRKeySecretInvalid
  | sv :: secrets => if valid_at t sv then Ok sv else first_valid t secrets
  end.

(** [now] is the value of [time.Now] that [time.Since] reads. *)
Definition getSecret (now : Z) (d : t) (protocolID t : Z) : outcome SecretValue :=
  match drKeySecrets d with
  | None => Err errDRKeyNotInitialized
  | Some secrets =>
      row ← get secrets protocolID;
      let since := time_Sub now t in
      _ ← fail_if (pastValidity <? since) (New "time after validity window");
      first_valid t row
  end.

Section derive.
Context (aes_Encrypt : bytes → bytes → bytes).
Context (netip_ParseAddr : gostring → outcome IP.t).

Definition DeriveASASKey (now : Z) (d : t) (protocolID t srcAS : Z) : outcome bytes :=
  secret ← getSecret now d protocolID t;
  DeriveLevel1 aes_Encrypt srcAS (Key secret).

Definition DeriveASHostKey (now : Z) (d : t) (protocolID t srcAS : Z) (src : gostring) : outcome bytes :=
  asToAsKey ← DeriveASASKey now d protocolID t srcAS;
  DeriveASHost aes_Encrypt netip_ParseAddr src asToAsKey.
End derive.

End DRKeyProvider.

(** * pkg/experimental/fabrid/crypto/fabrid_crypto.go *)
Module FabridCrypto.

Import AES.

Definition FabridMacInputSize : Z := 46.
Definition zeroBlock : bytes := make_bytes 16.

Section crypto.
Context (aes_Encrypt : bytes → bytes → bytes).

(** The new contents of [tmp] and [dst].  The callers pass a [src] that may
    start where [dst] starts: whole blocks of it are read before they are
    overwritten, and the partial block at its end is not overwritten. *)
Definition macBlock (key tmp src dst : bytes) : outcome (bytes * bytes) :=
  block ← wrap_err "unable to initialize AES cipher" (NewCipher aes_Encrypt key);
  _ ← fail_if (len dst <? 16) (New "Dst length is invalid");
  _ ← fail_if (len src =? 0) (New "Src length cannot be 0");
  _ ← fail_if (len tmp <? 16) (New "tmp length is invalid");
  let paddingLength := (16 - len src mod 16) mod 16 in
  let blockCount := len src / BlockSize in
  r ← (if negb (blockCount =? 0)
       then whole ← sub src 0 (16 * blockCount); CryptBlocks block zeroBlock dst whole
       else Ok (dst, zeroBlock));
  let '(dst, iv) := r in
  if negb (paddingLength =? 0) then
    rest ← sub_from src (16 * blockCount);
    let tmp := copy tmp rest in
    zeros ← sub zeroBlock 0 paddingLength;
    tmp ← on_sub_from tmp (16 - paddingLength) (λ b, Ok (copy b zeros));
    r ← CryptBlocks block iv dst tmp;
    let '(dst, _) := r in
    Ok (tmp, dst)
  else Ok (tmp, dst).

(** The new contents of [tmpBuffer] and [resultBuffer]. *)
Definition computeFabridHVF (f : Fabrid.md) (id : option Identifier.t) (s : SCION.t)
    (tmpBuffer resultBuffer key : bytes) (ingress egress : Z) : outcome (bytes * bytes) :=
  _ ← fail_if (negb (len key =? 16)) (New "Wrong key length");
  _ ← fail_if (len tmpBuffer <? FabridMacInputSize) (New "tmpBuffer too small");
  _ ← fail_if (len resultBuffer <? 16) (New "resultBuffer too small");
  tmpBuffer ← on_sub tmpBuffer 0 8 (Identifier.Serialize id);
  let srcAddr := SCION.RawSrcAddr s in
  let requiredLen := 14 + len srcAddr in
  tmpBuffer ← on_sub tmpBuffer 8 10 (λ b, PutUint16 b ingress);
  tmpBuffer ← on_sub tmpBuffer 10 12 (λ b, PutUint16 b egress);
  tmpBuffer ← put tmpBuffer 12 (Fabrid.EncryptedPolicyID f);
  tmpBuffer ← put tmpBuffer 13 (u8 (AddrType.Length (SCION.SrcAddrType s)));
  tmpBuffer ← on_sub tmpBuffer 14 requiredLen (λ b, Ok (copy b srcAddr));
  tmp ← sub tmpBuffer 30 46;
  src ← sub tmpBuffer 0 requiredLen;
  r ← macBlock key tmp src resultBuffer;
  let '(tmp, resultBuffer) := r in
  tmpBuffer ← on_sub tmpBuffer 30 46 (λ _, Ok tmp);
  Ok (tmpBuffer, resultBuffer).

Definition set_HVF (f : Fabrid.md) (hvf : bytes) : Fabrid.md :=
  Fabrid.mkMd (Fabrid.EncryptedPolicyID f) (Fabrid.FabridEnabled f) (Fabrid.ASLevelKey f)
    (copy (Fabrid.HopValidationField f) hvf).

(** [b[i] &= 0x3f] *)
Definition mask6 (b : bytes) (i : Z) : outcome bytes := x ← get b i; put b i (Z.land x 0x3f).

Definition ComputeBaseHVF (f : Fabrid.md) id s (tmpBuffer key : bytes) (ingress egress : Z) :
    outcome Fabrid.md :=
  r ← computeFabridHVF f id s tmpBuffer (make_bytes 16) key ingress egress;
  computedHVF ← mask6 r.2 0;
  hvf ← sub computedHVF 0 3;
  Ok (set_HVF f hvf).

Definition ComputeVerifiedHVF (f : Fabrid.md) id s (tmpBuffer key : bytes) (ingress egress : Z) :
    outcome Fabrid.md :=
  r ← computeFabridHVF f id s tmpBuffer (make_bytes 16) key ingress egress;
  computedHVF ← mask6 r.2 3;
  hvf ← sub computedHVF 3 6;
  Ok (set_HVF f hvf).

Definition VerifyAndUpdate (f : Fabrid.md) id s (tmpBuffer key : bytes) (ingress egress : Z) :
    outcome Fabrid.md :=
  r ← computeFabridHVF f id s tmpBuffer (make_bytes 16) key ingress egress;
  computedHVF ← mask6 r.2 0;
  base ← sub computedHVF 0 3;
  _ ← fail_if (negb (bool_decide (base = Fabrid.HopValidationField f))) (New "HVF is not valid");
  computedHVF ← mask6 computedHVF 3;
  hvf ← sub computedHVF 3 6;
  Ok (set_HVF f hvf).

Definition calcPolicyEncryptionMask (key : bytes) (id : option Identifier.t) : outcome bytes :=
  cipher ← NewCipher aes_Encrypt key;
  buf ← Identifier.Serialize id (make_bytes BlockSize);
  Ok (copy buf (cipher buf)).

Definition ComputePolicyID (f : Fabrid.md) (id : option Identifier.t) (key : bytes) : outcome Z :=
  buf ← calcPolicyEncryptionMask key id;
  b0 ← get buf 0;
  Ok (Z.lxor (Fabrid.EncryptedPolicyID f) b0).

Definition EncryptPolicyID (f : Z) (id : option Identifier.t) (key : bytes) : outcome Z :=
  buf ← calcPolicyEncryptionMask key id;
  b0 ← get buf 0;
  Ok (Z.lxor f b0).

(** The loop that gathers the validation fields of the hops from index [i] on. *)
Fixpoint gather_hvfs (i : Z) (ms : list Fabrid.md) (tmpBuffer : bytes) : outcome bytes :=
  match ms with
  | [] => Ok tmpBuffer
  | meta :: ms =>
      hvf ← sub (Fabrid.HopValidationField meta) 0 3;
      tmpBuffer ← on_sub tmpBuffer (16 + i * 3) (16 + (i + 1) * 3) (λ b, Ok (copy b hvf));
      gather_hvfs (i + 1) ms tmpBuffer
  end.

(** [(n+15) &^ 15] *)
Definition round_up16 (n : Z) : Z := Z.ldiff (n + 15) 15.

(** The validation number is returned with the error of a mismatch as well. *)
Definition VerifyPathValidator (f : Fabrid.t) (tmpBuffer pathKey : bytes) : outcome (Z * outcome unit) :=
  let inputLength := 3 * len (Fabrid.HopfieldMetadata f) in
  let requiredBufferLength := 16 + round_up16 inputLength in
  _ ← fail_if (len tmpBuffer <? requiredBufferLength) (New "tmpBuffer length is invalid");
  tmpBuffer ← gather_hvfs 0 (Fabrid.HopfieldMetadata f) tmpBuffer;
  tmp ← sub tmpBuffer 0 16;
  src ← sub tmpBuffer 16 (16 + inputLength);
  dst ← sub_from tmpBuffer 16;
  r ← macBlock pathKey tmp src dst;
  let tmpBuffer := r.1 ++ r.2 in
  validationNumber ← get tmpBuffer 20;
  computed ← sub tmpBuffer 16 20;
  Ok (validationNumber,
      fail_if (negb (bool_decide (computed = Fabrid.PathValidator f))) (New "Path validator is not valid")).

(** [snet.HopInterface]: the interface identifiers are 64 bits wide. *)
Record HopInterface := mkHop {
  IgIf : Z;
  EgIf : Z;
  IA : Z
}.

Section init.
Context (id : option Identifier.t) (s : SCION.t) (pathKey : option bytes)
  (asHostKeys asAsKeys : gmap Z bytes) (hops : list HopInterface).

(** The loop of [InitValidators] over the hops from index [i] on: the metadata
    written back and the contents of the three buffers. *)
Fixpoint init_hops (i : Z) (ms : list Fabrid.md) (tmpBuffer outBuffer pathValBuffer : bytes) :
    outcome (list Fabrid.md * bytes * bytes) :=
  match ms with
  | [] => Ok ([], tmpBuffer, pathValBuffer)
  | meta :: ms =>
      r ← (if Fabrid.FabridEnabled meta then
             hop ← get hops i;
             match (if Fabrid.ASLevelKey meta then asAsKeys else asHostKeys) !! IA hop with
             | None => Err (New "InitValidators expected AS to AS key but was not in dictionary")
             | Some key =>
                 r ← computeFabridHVF meta id s tmpBuffer outBuffer key (u16 (IgIf hop)) (u16 (EgIf hop));
                 let '(tmpBuffer, outBuffer) := r in
                 outBuffer ← mask6 outBuffer 0;
                 outBuffer ← mask6 outBuffer 3;
                 base ← sub outBuffer 0 3;
                 pathValBuffer ← match pathKey with
                                 | None => Ok pathValBuffer
                                 | Some _ =>
                                     verified ← sub outBuffer 3 6;
                                     on_sub pathValBuffer (i * 3) ((i + 1) * 3) (λ b, Ok (copy b verified))
                                 end;
                 Ok (set_HVF meta base, tmpBuffer, outBuffer, pathValBuffer)
             end
           else Ok (meta, tmpBuffer, outBuffer, pathValBuffer));
      let '(meta, tmpBuffer, outBuffer, pathValBuffer) := r in
      r ← init_hops (i + 1) ms tmpBuffer outBuffer pathValBuffer;
      let '(ms, tmpBuffer, pathValBuffer) := r in
      Ok (meta :: ms, tmpBuffer, pathValBuffer)
  end.

(** Without a path key [pathValBuffer] is the nil slice. *)
Definition InitValidators (f : Fabrid.t) (tmpBuffer : bytes) : outcome Fabrid.t :=
  let pathValInputLength := 3 * len (Fabrid.HopfieldMetadata f) in
  let pathValBuffer := match pathKey with
                       | None => []
                       | Some _ => make_bytes (round_up16 pathValInputLength)
                       end in
  r ← init_hops 0 (Fabrid.HopfieldMetadata f) tmpBuffer (make_bytes 16) pathValBuffer;
  let '(ms, tmpBuffer, pathValBuffer) := r in
  match pathKey with
  | None => Ok (Fabrid.mk ms (Fabrid.PathValidator f))
  | Some key =>
      tmp ← sub tmpBuffer 0 16;
      src ← sub pathValBuffer 0 pathValInputLength;
      r ← macBlock key tmp src pathValBuffer;
      pv ← sub r.2 0 4;
      Ok (Fabrid.mk ms (copy (Fabrid.PathValidator f) pv))
  end.
End init.
End crypto.

End FabridCrypto.

(** * Lemmas *)
Module DrkeyLemmas.

Import AES FabridCrypto.

(** Documented behaviour of AES: blocks of 16 bytes are mapped to blocks of 16
    bytes. *)
Class BlockCipher (aes_Encrypt : bytes → bytes → bytes) := {
  aes_block_len key b : len b = 16 → len (aes_Encrypt key b) = 16;
  aes_block_wf key b : wf_bytes b → wf_bytes (aes_Encrypt key b)
}.

Lemma xor_bytes_len a b : len a = len b → len (xor_bytes a b) = len a.
Proof. unfold len, xor_bytes. rewrite length_zip_with. lia. Qed.

Lemma cbc_add E n m iv src :
  cbc E (n + m) iv src =
  ((cbc E n iv src).1 ++ (cbc E m (cbc E n iv src).2 (drop (16 * n) src)).1,
   (cbc E m (cbc E n iv src).2 (drop (16 * n) src)).2).
Proof.
  revert iv src. induction n as [|n IH]; intros iv src.
  - cbn [cbc Nat.add app fst snd]. rewrite Nat.mul_0_r, drop_0. by destruct (cbc E m iv src).
  - cbn [cbc Nat.add]. rewrite IH, drop_drop.
    replace (16 + 16 * n)%nat with (16 * S n)%nat by lia.
    destruct (cbc E n _ (drop 16 src)) as [out iv1]. cbn [fst snd].
    destruct (cbc E m iv1 _) as [out' iv2]. cbn [fst snd]. by rewrite <- app_assoc.
Qed.

Lemma cbc_take E n k iv src :
  (16 * n ≤ k)%nat → cbc E n iv (take k src) = cbc E n iv src.
Proof.
  revert k iv src. induction n as [|n IH]; intros k iv src H; [done|]. cbn [cbc].
  rewrite take_take, Nat.min_l, skipn_firstn_comm by lia. by rewrite IH by lia.
Qed.

Lemma cbc_app E n iv (a b : bytes) :
  (16 * n ≤ length a)%nat → cbc E n iv (a ++ b) = cbc E n iv a.
Proof.
  intros H. rewrite <- (cbc_take E n (16 * n) iv (a ++ b)), <- (cbc_take E n (16 * n) iv a) by lia.
  by rewrite take_app_le.
Qed.

Section cipher.
Context (E : bytes → bytes) (HE : ∀ b, len b = 16 → len (E b) = 16).

Lemma cbc_len n iv (src : bytes) :
  len iv = 16 → 16 * Z.of_nat n ≤ len src →
  len (cbc E n iv src).1 = 16 * Z.of_nat n ∧ len (cbc E n iv src).2 = 16.
Proof using HE.
  revert iv src. induction n as [|n IH]; intros iv src Hiv Hl; [done|]. cbn [cbc].
  assert (len (E (xor_bytes (take 16 src) iv)) = 16) as Hc.
  { apply HE. rewrite xor_bytes_len; len_lia. }
  destruct (IH (E (xor_bytes (take 16 src) iv)) (drop 16 src)) as [H1 H2]; [done|len_lia|].
  destruct (cbc E n _ _) as [out iv']. cbn [fst snd] in *. split; [|done].
  rewrite len_app, Hc. lia.
Qed.

(** Zero padding to whole blocks, and the CBC-MAC of the padded message. *)
Definition padded (src : bytes) : bytes := src ++ make_bytes ((- len src) mod 16).
Definition cbc_mac (src : bytes) : bytes :=
  (cbc E (Z.to_nat (len (padded src) / 16)) zeroBlock (padded src)).2.

(** What [macBlock] leaves in the first 16 bytes of its destination: the CBC-MAC
    of the padded message, unless the message needs no padding; then it is the
    first block of the ciphertext. *)
Definition tag (src : bytes) : bytes :=
  if len src mod 16 =? 0 then E (xor_bytes (take 16 src) zeroBlock) else cbc_mac src.

Lemma CryptBlocks_Ok iv dst (src : bytes) n :
  len src = 16 * Z.of_nat n → len src ≤ len dst →
  CryptBlocks E iv dst src = Ok (copy dst (cbc E n iv src).1, (cbc E n iv src).2).
Proof using.
  intros Hs Hd. unfold CryptBlocks.
  replace (_ || _) with false.
  2:{ symmetry. apply orb_false_iff. split; [|lia]. apply negb_false_iff, Z.eqb_eq.
      rewrite Hs, Z.mul_comm. by apply Z.mod_mul. }
  replace (Z.to_nat (len src / 16)) with n.
  2:{ rewrite Hs, Z.mul_comm, Z.div_mul by done. lia. }
  by destruct (cbc E n iv src).
Qed.

Lemma take_copy (dst src : bytes) n :
  (n ≤ length src)%nat → (n ≤ length dst)%nat → take n (copy dst src) = take n src.
Proof using.
  intros H1 H2. unfold copy. rewrite take_app_le by (rewrite length_take; lia).
  rewrite take_take. f_equal. lia.
Qed.

Lemma take_cbc n iv (src : bytes) :
  len iv = 16 → 16 * Z.of_nat (S n) ≤ len src →
  take 16 (cbc E (S n) iv src).1 = E (xor_bytes (take 16 src) iv).
Proof using HE.
  intros Hiv Hl. cbn [cbc].
  assert (len (E (xor_bytes (take 16 src) iv)) = 16) as Hc.
  { apply HE. rewrite xor_bytes_len; len_lia. }
  destruct (cbc E n _ _) as [out iv']. cbn [fst]. by apply (take_len_app 16).
Qed.
(** The whole blocks of [macBlock]. *)
Lemma whole_blocks dst (src : bytes) n :
  16 * (len src / 16) ≤ len dst → n = Z.to_nat (len src / 16) →
  (if negb (len src / 16 =? 0) then whole ← sub src 0 (16 * (len src / 16)); CryptBlocks E zeroBlock dst whole
   else Ok (dst, zeroBlock)) = Ok (copy dst (cbc E n zeroBlock src).1, (cbc E n zeroBlock src).2).
Proof using.
  intros Hd ->. assert (0 ≤ len src / 16 ∧ 16 * (len src / 16) ≤ len src) as [H0 H1] by (pose proof (len_nonneg src); dlia).
  destruct (Z.eqb_spec (len src / 16) 0) as [E0|]; cbn [negb].
  - rewrite E0. change (cbc E (Z.to_nat 0) zeroBlock src) with (@nil Z, zeroBlock). cbn [fst snd].
    unfold copy. cbn [length]. by rewrite take_nil, drop_0.
  - rewrite sub_Ok by lia. go_cbn. rewrite Z.sub_0_r, drop_0.
    rewrite (CryptBlocks_Ok zeroBlock dst _ (Z.to_nat (len src / 16))) by len_lia.
    by rewrite cbc_take by lia.
Qed.

(** The last block, padded with zeros, is the last block of the padded message. *)
Lemma last_block (src : bytes) n :
  n = Z.to_nat (len src / 16) → len src mod 16 ≠ 0 →
  tag src = E (xor_bytes (take 16 (drop (16 * n) src ++ make_bytes (16 - len src mod 16))) (cbc E n zeroBlock src).2).
Proof using.
  intros -> Hr. unfold tag, cbc_mac. replace (len src mod 16 =? 0) with false by lia.
  pose proof (len_nonneg src). set (r := len src mod 16) in *. set (bc := len src / 16).
  assert (len src = 16 * bc + r ∧ 0 ≤ r < 16 ∧ 0 ≤ bc) as (El & Hr' & Hbc) by (unfold bc, r; dlia).
  assert (padded src = src ++ make_bytes (16 - r)) as ->.
  { unfold padded. f_equal. f_equal. rewrite El. clear -Hr Hr'. dlia. }
  replace (Z.to_nat (len (src ++ make_bytes (16 - r)) / 16)) with (Z.to_nat bc + 1)%nat.
  2:{ rewrite len_app, len_make_bytes by lia. rewrite El.
      replace (16 * bc + r + (16 - r)) with ((bc + 1) * 16) by lia. rewrite Z.div_mul by done. lia. }
  rewrite cbc_add. cbn [snd cbc fst]. rewrite (cbc_app E _ zeroBlock) by (unfold len in *; lia).
  by rewrite drop_app_le by (unfold len in *; lia).
Qed.
End cipher.

(** The temporary buffer: the rest of the message and zeros. *)
Lemma pad_buffer (tmp rest : bytes) r :
  len rest = r → 0 < r < 16 → len tmp = 16 →
  on_sub_from (copy tmp rest) (16 - (16 - r)) (λ b, Ok (copy b (make_bytes (16 - r)))) = Ok (rest ++ make_bytes (16 - r)).
Proof.
  intros Lr Hr Ht. assert (copy tmp rest = rest ++ drop (length rest) tmp) as ->.
  { unfold copy. f_equal. apply take_ge. unfold len in *. lia. }
  unfold on_sub_from. rewrite on_sub_suffix by (rewrite ?len_app; lia). go_cbn. f_equal. f_equal. apply copy_same.
  unfold make_bytes, len in *. rewrite length_replicate, length_drop. lia.
Qed.

Section mac_block.
Context {aes_Encrypt : bytes → bytes → bytes} `{!BlockCipher aes_Encrypt}.

Lemma macBlock_Ok (key tmp src dst : bytes) :
  len key = 16 → len tmp = 16 → 0 < len src → 16 ≤ len dst → 16 * (len src / 16) ≤ len dst →
  ∃ tmp' dst', macBlock aes_Encrypt key tmp src dst = Ok (tmp', dst') ∧
    take 16 dst' = tag (aes_Encrypt key) src ∧ len dst' = len dst ∧ len tmp' = 16.
Proof.
  intros Hk Ht Hs Hd Hd'. set (E := aes_Encrypt key).
  assert (∀ b, len b = 16 → len (E b) = 16) as HE by (intros; by apply aes_block_len).
  unfold macBlock, NewCipher. rewrite Hk. cbn [Z.eqb Pos.eqb orb wrap_err]. go_cbn.
  do 3 go_guard. unfold BlockSize. fold E. remember (Z.to_nat (len src / 16)) as n eqn:Hn.
  rewrite (whole_blocks E dst src n) by done. go_cbn.
  assert (len src = 16 * (len src / 16) + len src mod 16 ∧ 0 ≤ len src mod 16 < 16 ∧ 0 ≤ len src / 16) as (El & Hr & Hbc) by dlia.
  assert (16 * (len src / 16) = 16 * Z.of_nat n) as Hn' by lia. rewrite Hn' in El.
  destruct (cbc_len E HE n zeroBlock src) as [Lo Li]; [done|lia|].
  set (r := len src mod 16) in *. destruct (Z.eqb_spec r 0) as [Er|Er].
  - replace ((16 - r) mod 16) with 0 by (rewrite Er; done). cbn [Z.eqb negb].
    eexists _, _. split; [done|]. split_and!; [|apply len_copy|done].
    unfold tag. fold r. rewrite Er. cbn [Z.eqb].
    rewrite take_copy by (unfold len in *; lia).
    destruct n as [|m]; [exfalso; cbn in El; lia|]. apply take_cbc; [done..|lia].
  - replace ((16 - r) mod 16) with (16 - r) by (rewrite Z.mod_small; lia).
    replace (negb (16 - r =? 0)) with true by lia.
    unfold sub_from. rewrite Hn', (sub_Ok src (16 * Z.of_nat n)) by lia. go_cbn.
    rewrite take_ge by (unfold len in *; rewrite length_drop; lia).
    replace (Z.to_nat (16 * Z.of_nat n)) with (16 * n)%nat by lia.
    assert (len (drop (16 * n) src) = r) as Lr by (rewrite len_drop; lia).
    rewrite sub_Ok by (change (len zeroBlock) with 16; lia). go_cbn.
    replace (take _ (drop _ zeroBlock)) with (make_bytes (16 - r)).
    2:{ unfold zeroBlock, make_bytes. rewrite drop_0, take_replicate. f_equal. lia. }
    rewrite (pad_buffer tmp _ r) by (done || lia). go_cbn.
    assert (len (drop (16 * n) src ++ make_bytes (16 - r)) = 16) as L16 by (rewrite len_app, len_make_bytes; lia).
    rewrite (CryptBlocks_Ok E _ _ _ 1) by (rewrite ?L16, ?len_copy; lia). go_cbn.
    eexists _, _. split; [done|]. split_and!; [|by rewrite !len_copy|done].
    cbn [cbc]. rewrite app_nil_r. cbn [fst]. rewrite (last_block E src n) by done. fold r.
    assert (len (E (xor_bytes (take 16 (drop (16 * n) src ++ make_bytes (16 - r))) (cbc E n zeroBlock src).2)) = 16) as Lc.
    { apply HE. rewrite xor_bytes_len; len_lia. }
    rewrite take_copy by (rewrite ?length_app; pose proof (len_copy dst (cbc E n zeroBlock src).1); unfold len in *; lia).
    by rewrite take_ge by (unfold len in *; lia).
Qed.

End mac_block.

Lemma on_sub_write {A} (a m c x : list A) lo hi f :
  lo = len a → hi = len a + len m → f m = Ok x → on_sub (a ++ m ++ c) lo hi f = Ok (a ++ x ++ c).
Proof. intros. rewrite on_sub_mid by done. by replace (f m) with (Ok x). Qed.

Lemma on_sub_write_first {A} (m c x : list A) hi f :
  hi = len m → f m = Ok x → on_sub (m ++ c) 0 hi f = Ok (x ++ c).
Proof. intros. apply (on_sub_write [] m c x); [done|by rewrite len_nil|done]. Qed.

Lemma put_be_all n v (m : bytes) : len m = Z.of_nat n → put_be n v m = Ok (be_bytes n v).
Proof.
  intros. rewrite <- (app_nil_r m), put_be_app by done. by rewrite app_nil_r.
Qed.

(** The wire format of an identifier, without the option header. *)
Definition encode_id (i : Identifier.t) : bytes :=
  be_bytes 4 (Identifier.GetRelativeTimestamp i) ++ be_bytes 4 (Identifier.PacketID i).

Lemma Serialize_encode i (b : bytes) :
  8 ≤ len b → Identifier.Serialize (Some i) b = Ok (encode_id i ++ drop 8 b).
Proof.
  intros Hl. unfold Identifier.Serialize, Identifier.identifierLength. go_guard.
  destruct (split_len 4 b) as (b1 & b2 & -> & L1 & L2); [lia|]. rewrite len_app in *.
  destruct (split_len 4 b2) as (b3 & b4 & -> & L3 & L4); [lia|].
  unfold Identifier.serializeTimestampTo, PutUint32.
  rewrite (on_sub_write_first b1 _ (be_bytes 4 (Identifier.GetRelativeTimestamp i)))
    by (by rewrite ?put_be_all). go_cbn.
  rewrite (on_sub_write (be_bytes 4 (Identifier.GetRelativeTimestamp i)) b3 b4
    (be_bytes 4 (Identifier.PacketID i)))
    by (rewrite ?len_be_bytes, ?put_be_all; first [done|lia]).
  unfold encode_id. rewrite <- app_assoc. do 3 f_equal. rewrite app_assoc.
  change 8%nat with (Z.to_nat 8). symmetry. apply drop_len_app. rewrite len_app. lia.
Qed.

Section hvf.
Context {aes_Encrypt : bytes → bytes → bytes} `{!BlockCipher aes_Encrypt}.

(** The message that a hop authenticates. *)
Definition hvf_input (f : Fabrid.md) (i : Identifier.t) (s : SCION.t) (ingress egress : Z) : bytes :=
  encode_id i ++ be_bytes 2 ingress ++ be_bytes 2 egress ++
  [Fabrid.EncryptedPolicyID f; u8 (AddrType.Length (SCION.SrcAddrType s))] ++ SCION.RawSrcAddr s.

Definition hvf_tag f i s key ingress egress : bytes :=
  tag (aes_Encrypt key) (hvf_input f i s ingress egress).

Lemma cbc_iv_len E n iv (src : bytes) :
  (∀ b, len b = 16 → len (E b) = 16) → len iv = 16 → 16 * Z.of_nat n ≤ len src →
  len (cbc E n iv src).2 = 16.
Proof. intros HE ? ?. by apply (cbc_len E HE). Qed.

Lemma tag_len key (src : bytes) : 0 < len src → len (tag (aes_Encrypt key) src) = 16.
Proof using BlockCipher0.
  intros H. assert (∀ b, len b = 16 → len (aes_Encrypt key b) = 16) as HE
    by (intros; by apply aes_block_len).
  unfold tag. destruct (Z.eqb_spec (len src mod 16) 0) as [E|E].
  - apply HE. rewrite xor_bytes_len; change (len zeroBlock) with 16; [|]; rewrite len_take; dlia.
  - unfold cbc_mac. apply cbc_iv_len; [done..|]. set (p := padded src).
    pose proof (len_nonneg p). rewrite Z2Nat.id by dlia. dlia.
Qed.

Lemma hvf_input_len f i s ingress egress :
  len (hvf_input f i s ingress egress) = 14 + len (SCION.RawSrcAddr s).
Proof using.
  unfold hvf_input, encode_id. rewrite !len_app, !len_be_bytes, !len_cons, len_nil. lia.
Qed.

Lemma hvf_tag_len f i s key ingress egress :
  len (hvf_tag f i s key ingress egress) = 16.
Proof using BlockCipher0.
  apply tag_len. rewrite hvf_input_len. pose proof (len_nonneg (SCION.RawSrcAddr s)). lia.
Qed.

Lemma computeFabridHVF_Ok f i s (tmpBuffer resultBuffer key : bytes) ingress egress :
  len key = 16 → FabridMacInputSize ≤ len tmpBuffer → len resultBuffer = 16 →
  len (SCION.RawSrcAddr s) ≤ 16 →
  ∃ tmpBuffer', computeFabridHVF aes_Encrypt f (Some i) s tmpBuffer resultBuffer key ingress egress =
    Ok (tmpBuffer', hvf_tag f i s key ingress egress) ∧ len tmpBuffer' = len tmpBuffer.
Proof using BlockCipher0.
  unfold FabridMacInputSize. intros Hk Ht Hr Hs. set (src := SCION.RawSrcAddr s) in *.
  pose proof (len_nonneg src). unfold computeFabridHVF. rewrite Hk, Hr. unfold FabridMacInputSize.
  cbn [Z.eqb Pos.eqb negb]. go_cbn.
  replace (len tmpBuffer <? 46) with false by lia. change (16 <? 16) with false. go_cbn. fold src.
  destruct (split_len 8 tmpBuffer) as (b1 & r1 & -> & L1 & L1'); [lia|]. rewrite len_app in *.
  destruct (split_len 2 r1) as (b2 & r2 & -> & L2 & L2'); [lia|]. rewrite len_app in *.
  destruct (split_len 2 r2) as (b3 & r3 & -> & L3 & L3'); [lia|]. rewrite len_app in *.
  destruct r3 as [|x [|y r3]]; [len_lia|len_lia|]. rewrite !len_cons in *.
  destruct (split_len (len src) r3) as (b4 & r4 & -> & L4 & L4'); [lia|]. rewrite len_app in *.
  rewrite (on_sub_write_first b1 _ (encode_id i)); [|done|].
  2:{ rewrite Serialize_encode by lia. by rewrite drop_len, app_nil_r by done. }
  go_cbn. set (e := encode_id i). assert (len e = 8) as Le by done.
  rewrite (on_sub_write e b2 _ (be_bytes 2 ingress)) by (rewrite ?Le; first [done|lia|by apply put_be_all]).
  go_cbn. set (ig := be_bytes 2 ingress). assert (len ig = 2) as Li by done. rewrite app_assoc.
  rewrite (on_sub_write (e ++ ig) b3 _ (be_bytes 2 egress))
    by (rewrite ?len_app; first [lia|by apply put_be_all]).
  go_cbn. set (eg := be_bytes 2 egress). assert (len eg = 2) as Lg by done.
  rewrite app_assoc, (put_app ((e ++ ig) ++ eg)) by (rewrite !len_app; lia). go_cbn.
  set (p := Fabrid.EncryptedPolicyID f). set (q := u8 (AddrType.Length (SCION.SrcAddrType s))).
  set (h := (e ++ ig) ++ eg). assert (len h = 12) as Lh by (unfold h; rewrite !len_app; lia).
  assert (put (h ++ p :: y :: b4 ++ r4) 13 q = Ok ((h ++ [p; q]) ++ b4 ++ r4)) as ->.
  { pose proof (put_app (h ++ [p]) y (b4 ++ r4) 13 q) as E. rewrite <- !app_assoc in E.
    rewrite <- app_assoc. apply E. rewrite len_app, Lh. done. }
  go_cbn.
  rewrite (on_sub_write (h ++ [p; q]) b4 r4 src).
  2:{ rewrite len_app, Lh. done. } 2:{ rewrite len_app, Lh, L4. done. }
  2:{ f_equal. apply copy_same. unfold len in L4. lia. }
  go_cbn.
  assert ((h ++ [p; q]) ++ src = hvf_input f i s ingress egress) as Ein.
  { unfold hvf_input, h. fold src e ig eg p q. by rewrite <- !app_assoc. }
  rewrite app_assoc, Ein. set (input := hvf_input f i s ingress egress).
  assert (len input = 14 + len src) as Linp by apply hvf_input_len.
  rewrite (sub_Ok (input ++ r4) 30 46) by (rewrite ?len_app; lia). go_cbn.
  rewrite sub_prefix by lia. go_cbn.
  set (tmp := take _ _). assert (len tmp = 16) as Ltmp.
  { unfold tmp. rewrite len_take, len_drop, len_app. lia. }
  destruct (macBlock_Ok key tmp input resultBuffer) as (tmp' & dst' & Em & Etag & Ldst & Ltmp');
    [lia|lia|lia|lia|dlia|].
  rewrite Em. go_cbn. rewrite on_sub_Ok by (rewrite ?len_app; lia). go_cbn.
  eexists. split.
  - f_equal. f_equal. unfold hvf_tag. fold input. rewrite <- Etag.
    symmetry. apply take_ge. unfold len in *. lia.
  - rewrite !len_app, len_take, len_drop, len_app. cbn [len]. lia.
Qed.
End hvf.

End DrkeyLemmas.

(** * Properties *)
Module DrkeyProperties.

Import AES FabridCrypto DrkeyLemmas.

Lemma round_up16_spec n : round_up16 n = 16 * ((n + 15) / 16).
Proof.
  unfold round_up16. change 15 with (Z.ones 4) at 2. rewrite Z.ldiff_ones_r by done.
  rewrite Z.shiftl_mul_pow2, Z.shiftr_div_pow2 by done. change (2 ^ 4) with 16. lia.
Qed.

Section path.
Context {aes_Encrypt : bytes → bytes → bytes} `{!BlockCipher aes_Encrypt}.
Context (id : Identifier.t) (s : SCION.t) (asHostKeys asAsKeys : gmap Z bytes) (hops : list HopInterface).

(** The key of hop number [i] and the interfaces it authenticates. *)
Definition hop_auth (i : nat) (m : Fabrid.md) : option (bytes * Z * Z) :=
  hop ← hops !! i;
  key ← (if Fabrid.ASLevelKey m then asAsKeys else asHostKeys) !! IA hop;
  Some (key, u16 (IgIf hop), u16 (EgIf hop)).

(** The metadata can be initialised: a key of 16 bytes is known for a hop that
    takes part, and a hop that does not has no validation field. *)
Definition usable (i : nat) (m : Fabrid.md) : Prop :=
  if Fabrid.FabridEnabled m then
    len (Fabrid.HopValidationField m) = 3 ∧
    ∃ key ig eg, hop_auth i m = Some (key, ig, eg) ∧ len key = 16
  else Fabrid.HopValidationField m = [0; 0; 0].

(** What the router of hop [i] does: it verifies and updates its own field. *)
Definition hop_accepts (i : nat) (m m' : Fabrid.md) : Prop :=
  if Fabrid.FabridEnabled m then
    ∃ key ig eg, hop_auth i m = Some (key, ig, eg) ∧
      ∀ tmpBuffer, FabridMacInputSize ≤ len tmpBuffer →
        VerifyAndUpdate aes_Encrypt m (Some id) s tmpBuffer key ig eg = Ok m'
  else m' = m.

Definition base_of (t : bytes) : bytes := Z.land (t !!! 0%nat) 0x3f :: take 2 (drop 1 t).
Definition verified_of (t : bytes) : bytes := Z.land (t !!! 3%nat) 0x3f :: take 2 (drop 4 t).

Definition tag_at (i : nat) (m : Fabrid.md) : bytes :=
  match hop_auth i m with
  | Some (key, ig, eg) => hvf_tag (aes_Encrypt:=aes_Encrypt) m id s key ig eg
  | None => []
  end.
Definition initialised (i : nat) (m : Fabrid.md) : Fabrid.md :=
  if Fabrid.FabridEnabled m then set_HVF m (base_of (tag_at i m)) else m.
Definition updated (i : nat) (m : Fabrid.md) : Fabrid.md :=
  if Fabrid.FabridEnabled m then set_HVF m (verified_of (tag_at i m)) else m.

Lemma masks (t : bytes) :
  len t = 16 → ∃ t0 t3,
    mask6 t 0 = Ok t0 ∧ sub t0 0 3 = Ok (base_of t) ∧ mask6 t0 3 = Ok t3 ∧
    sub t3 0 3 = Ok (base_of t) ∧ sub t3 3 6 = Ok (verified_of t) ∧ len t3 = 16.
Proof.
  intros H. explode t 16%nat. destruct t; [|len_lia]. eexists _, _. split_and!; reflexivity.
Qed.

Lemma set_HVF_3 m (v : bytes) :
  len (Fabrid.HopValidationField m) = 3 → len v = 3 →
  Fabrid.HopValidationField (set_HVF m v) = v.
Proof. intros H1 H2. cbn. apply copy_same. unfold len in *. lia. Qed.

Lemma set_HVF_twice m (v w : bytes) :
  len (Fabrid.HopValidationField m) = 3 → len v = 3 → len w = 3 →
  set_HVF (set_HVF m v) w = set_HVF m w.
Proof.
  intros. unfold set_HVF at 1 3. cbn [Fabrid.EncryptedPolicyID Fabrid.FabridEnabled Fabrid.ASLevelKey].
  rewrite set_HVF_3 by done. f_equal. rewrite !copy_same by (unfold len in *; lia). done.
Qed.

Lemma base_len t : len t = 16 → len (base_of t) = 3.
Proof. intros H. unfold base_of. rewrite len_cons. len_lia. Qed.
Lemma verified_len t : len t = 16 → len (verified_of t) = 3.
Proof. intros H. unfold verified_of. rewrite len_cons. len_lia. Qed.

Lemma tag_at_len i m key ig eg : hop_auth i m = Some (key, ig, eg) → len (tag_at i m) = 16.
Proof using BlockCipher0. intros H. unfold tag_at. rewrite H. by apply hvf_tag_len. Qed.

(** A field that was initialised is accepted by its router. *)
Lemma initialised_accepted i m :
  len (SCION.RawSrcAddr s) ≤ 16 → usable i m → hop_accepts i (initialised i m) (updated i m).
Proof using BlockCipher0.
  intros Hsrc. unfold usable, hop_accepts, initialised, updated.
  destruct (Fabrid.FabridEnabled m) eqn:En; [|by rewrite En].
  intros (H3 & key & ig & eg & Ha & Hk).
  change (Fabrid.FabridEnabled (set_HVF m (base_of (tag_at i m)))) with (Fabrid.FabridEnabled m).
  rewrite En. exists key, ig, eg. split; [done|]. intros tmp Ht.
  pose proof (tag_at_len i m _ _ _ Ha) as Hl.
  assert (tag_at i m = hvf_tag (aes_Encrypt:=aes_Encrypt) m id s key ig eg) as Et
    by (unfold tag_at; by rewrite Ha).
  unfold VerifyAndUpdate.
  destruct (computeFabridHVF_Ok (aes_Encrypt:=aes_Encrypt) (set_HVF m (base_of (tag_at i m))) id s tmp
    (make_bytes 16) key ig eg) as (tmp' & -> & _); [done..|].
  change (hvf_tag (set_HVF m (base_of (tag_at i m))) id s key ig eg) with
    (hvf_tag (aes_Encrypt:=aes_Encrypt) m id s key ig eg). rewrite <- Et. go_cbn. cbn [snd].
  destruct (masks (tag_at i m) Hl) as (t0 & t3 & -> & Es0 & Em3 & _ & Es3 & _). go_cbn.
  rewrite Es0. go_cbn. rewrite set_HVF_3 by (done || by apply base_len).
  rewrite bool_decide_eq_true_2 by done. cbn [negb]. go_cbn. rewrite Em3. go_cbn. rewrite Es3. go_cbn.
  by rewrite set_HVF_twice by (done || by first [apply base_len|apply verified_len]).
Qed.

(** The three bytes that the path validator covers for a hop. *)
Definition covered (i : nat) (m : Fabrid.md) : bytes :=
  if Fabrid.FabridEnabled m then verified_of (tag_at i m) else [0; 0; 0].

Lemma covered_len i m : usable i m → len (covered i m) = 3.
Proof using BlockCipher0.
  unfold usable, covered. destruct (Fabrid.FabridEnabled m); [|done].
  intros (_ & key & ig & eg & Ha & _). apply verified_len. by eapply tag_at_len.
Qed.

Lemma updated_HVF i m : usable i m → Fabrid.HopValidationField (updated i m) = covered i m.
Proof using BlockCipher0.
  intros Hu. pose proof (covered_len i m Hu) as Hc. revert Hu Hc.
  unfold usable, updated, covered. destruct (Fabrid.FabridEnabled m); [|done].
  intros (H3 & _) Hc. by apply set_HVF_3.
Qed.

(** From index [i] on. *)
Fixpoint imap_from {A} (g : nat → Fabrid.md → A) (i : nat) (ms : list Fabrid.md) : list A :=
  match ms with [] => [] | m :: ms => g i m :: imap_from g (S i) ms end.

Lemma init_hops_Ok pathKey i ms tmpBuffer outBuffer (pre post : bytes) :
  len (SCION.RawSrcAddr s) ≤ 16 →
  (∀ k m, ms !! k = Some m → usable (i + k) m) →
  FabridMacInputSize ≤ len tmpBuffer → len outBuffer = 16 → len pre = 3 * Z.of_nat i →
  ∃ tmpBuffer', len tmpBuffer' = len tmpBuffer ∧
    init_hops aes_Encrypt (Some id) s (Some pathKey) asHostKeys asAsKeys hops (Z.of_nat i) ms
      tmpBuffer outBuffer (pre ++ make_bytes (3 * len ms) ++ post) =
    Ok (imap_from initialised i ms, tmpBuffer', pre ++ concat (imap_from covered i ms) ++ post).
Proof using BlockCipher0.
  intros Hsrc. revert i tmpBuffer outBuffer pre. induction ms as [|m ms IH]; intros i tmp out pre Hu Ht Ho Hp.
  { exists tmp. split; [done|]. done. }
  pose proof (Hu 0%nat m eq_refl) as Hm. rewrite Nat.add_0_r in Hm.
  assert (make_bytes (3 * len (m :: ms)) = [0; 0; 0] ++ make_bytes (3 * len ms)) as Emk.
  { rewrite len_cons. unfold make_bytes. change [0; 0; 0] with (replicate 3 0).
    rewrite <- replicate_add. f_equal. unfold len. lia. }
  rewrite Emk. cbn [init_hops].
  assert (∃ tmp' out', len tmp' = len tmp ∧ len out' = 16 ∧
    (if Fabrid.FabridEnabled m then
             hop ← get hops (Z.of_nat i);
             match (if Fabrid.ASLevelKey m then asAsKeys else asHostKeys) !! IA hop with
             | None => Err (New "InitValidators expected AS to AS key but was not in dictionary")
             | Some key =>
                 r ← computeFabridHVF aes_Encrypt m (Some id) s tmp out key (u16 (IgIf hop)) (u16 (EgIf hop));
                 let '(tmpBuffer, outBuffer) := r in
                 outBuffer ← mask6 outBuffer 0;
                 outBuffer ← mask6 outBuffer 3;
                 base ← sub outBuffer 0 3;
                 pathValBuffer ← (verified ← sub outBuffer 3 6;
                     on_sub (pre ++ ([0; 0; 0] ++ make_bytes (3 * len ms)) ++ post)
                       (Z.of_nat i * 3) ((Z.of_nat i + 1) * 3) (λ b, Ok (copy b verified)));
                 Ok (set_HVF m base, tmpBuffer, outBuffer, pathValBuffer)
             end
           else Ok (m, tmp, out, pre ++ ([0; 0; 0] ++ make_bytes (3 * len ms)) ++ post))
    = Ok (initialised i m, tmp', out', (pre ++ covered i m) ++ make_bytes (3 * len ms) ++ post)) as
    (tmp' & out' & Lt' & Lo' & Estep).
  { pose proof (covered_len i m Hm) as Hc. revert Hm Hc. unfold usable, initialised, covered, tag_at, hop_auth.
    destruct (Fabrid.FabridEnabled m).
    2:{ intros _ _. exists tmp, out. split_and!; [done..|]. by rewrite <- !app_assoc. }
    destruct (hops !! i) as [hop|] eqn:Eh; [|by intros (_&?&?&?&?&?)].
    cbn [mbind option_bind].
    destruct (_ !! IA hop) as [key|] eqn:Ek; [|by intros (_&?&?&?&?&?)].
    cbn [mbind option_bind]. intros (H3 & ? & ? & ? & [= <- <- <-] & Hk) Hc.
    rewrite (get_Ok hops (Z.of_nat i) hop) by (rewrite ?Nat2Z.id; first [done|lia]). go_cbn. rewrite Ek.
    destruct (computeFabridHVF_Ok (aes_Encrypt:=aes_Encrypt) m id s tmp out key (u16 (IgIf hop)) (u16 (EgIf hop)))
      as (tmp' & -> & Lt'); [done..|]. go_cbn.
    set (T := hvf_tag m id s key (u16 (IgIf hop)) (u16 (EgIf hop))) in *.
    assert (len T = 16) as HT by apply hvf_tag_len.
    destruct (masks T HT) as (t0 & t3 & -> & _ & Em3 & Es0 & Es3 & L3). go_cbn.
    rewrite Em3. go_cbn. rewrite Es0. go_cbn. rewrite Es3. go_cbn.
    rewrite <- (app_assoc [0; 0; 0]).
    rewrite (on_sub_write pre [0; 0; 0] _ (verified_of T)); [|lia|change (len [0;0;0]) with 3; lia|].
    2:{ f_equal. apply copy_same. unfold len in Hc. change (length [0;0;0]) with 3%nat. lia. }
    go_cbn. exists tmp', t3. split_and!; [done..|]. by rewrite app_assoc. }
  rewrite Estep. clear Estep. go_cbn. cbn beta iota.
  destruct (IH (S i) tmp' out' (pre ++ covered i m)) as (tmp'' & Lt'' & E).
  { intros k x Hx. replace (S i + k)%nat with (i + S k)%nat by lia. by apply Hu. }
  { lia. } { done. } { rewrite len_app, (covered_len i m Hm). lia. }
  exists tmp''. split; [lia|]. replace (Z.of_nat i + 1) with (Z.of_nat (S i)) by lia.
  rewrite E. go_cbn. cbn beta iota. cbn [imap_from concat]. by rewrite <- !app_assoc.
Qed.

Lemma gather_hvfs_Ok i (ms : list Fabrid.md) (pre mid post : bytes) :
  Forall (λ m, len (Fabrid.HopValidationField m) = 3) ms →
  len pre = 16 + 3 * i → len mid = 3 * len ms →
  gather_hvfs i ms (pre ++ mid ++ post) =
  Ok (pre ++ concat (map Fabrid.HopValidationField ms) ++ post).
Proof using.
  intros H. revert i pre mid. induction H as [|m ms Hm _ IH]; intros i pre mid Hp Hl.
  { destruct mid; [done|]. rewrite len_cons in Hl. change (len (@nil Fabrid.md)) with 0 in Hl.
    pose proof (len_nonneg mid). lia. }
  rewrite len_cons in Hl. pose proof (len_nonneg ms). cbn [gather_hvfs].
  destruct (split_len 3 mid) as (m1 & m2 & -> & L1 & L2); [lia|].
  rewrite sub_whole by lia. go_cbn. rewrite <- app_assoc.
  rewrite (on_sub_write pre m1 _ (Fabrid.HopValidationField m)); [|lia|lia|].
  2:{ f_equal. apply copy_same. unfold len in *. lia. }
  go_cbn. rewrite app_assoc, (IH (i + 1)) by (rewrite ?len_app; lia).
  cbn [map concat]. by rewrite <- !app_assoc.
Qed.

(** The path validator that is computed over the gathered fields. *)
Lemma validator_Ok key (tmpBuffer : bytes) (ms : list Fabrid.md) pv :
  len key = 16 → ms ≠ [] → 16 + round_up16 (3 * len ms) ≤ len tmpBuffer →
  Forall (λ m, len (Fabrid.HopValidationField m) = 3) ms →
  ∃ num, VerifyPathValidator aes_Encrypt (Fabrid.mk ms pv) tmpBuffer key =
    Ok (num, fail_if (negb (bool_decide
      (take 4 (tag (aes_Encrypt key) (concat (map Fabrid.HopValidationField ms))) = pv)))
      (New "Path validator is not valid")).
Proof using BlockCipher0.
  intros Hk Hne Hl Hms. unfold VerifyPathValidator. cbn [Fabrid.HopfieldMetadata Fabrid.PathValidator].
  rewrite round_up16_spec in *. set (n := 3 * len ms) in *.
  assert (0 < n) as Hn by (unfold n; destruct ms; [done|]; rewrite len_cons; pose proof (len_nonneg ms); lia).
  assert (n ≤ 16 * ((n + 15) / 16)) as Hup by dlia.
  replace (len tmpBuffer <? _) with false by lia. go_cbn.
  destruct (split_len 16 tmpBuffer) as (b1 & r1 & -> & L1 & L1'); [lia|]. rewrite len_app in *.
  destruct (split_len n r1) as (b2 & b3 & -> & L2 & L2'); [lia|]. rewrite len_app in *.
  rewrite (gather_hvfs_Ok 0 ms b1 b2 b3) by (done || lia). go_cbn.
  set (src := concat (map Fabrid.HopValidationField ms)).
  assert (len src = n) as Ls.
  { unfold src, n. clear -Hms. induction Hms as [|m l Hm _ IH]; [done|].
    cbn [map concat]. rewrite len_app, IH, len_cons. lia. }
  rewrite sub_prefix by lia. go_cbn. rewrite (sub_mid b1 src b3) by lia. go_cbn.
  unfold sub_from. rewrite sub_suffix by (rewrite ?len_app; lia). go_cbn.
  destruct (macBlock_Ok key b1 src (src ++ b3)) as (tmp' & dst' & -> & Et & Ld & Lt);
    [lia|lia|lia|rewrite len_app; lia|rewrite len_app; dlia|]. go_cbn. cbn [fst snd].
  rewrite len_app in Ld.
  destruct dst' as [|x0 [|x1 [|x2 [|x3 [|x4 dst']]]]]; rewrite ?len_cons, ?len_nil in Ld; try lia.
  exists x4. rewrite (get_Ok _ 20 x4).
  2:{ lia. } 2:{ rewrite lookup_app_r by (unfold len in Lt; lia).
      replace (Z.to_nat 20 - length tmp')%nat with 4%nat by (unfold len in Lt; lia). done. }
  go_cbn. rewrite (sub_mid tmp' [x0; x1; x2; x3] (x4 :: dst')); [|lia|change (len [x0;x1;x2;x3]) with 4; lia].
  go_cbn. by rewrite <- Et.
Qed.

Lemma imap_from_lookup {A} (g : nat → Fabrid.md → A) i ms k :
  imap_from g i ms !! k = g (i + k)%nat <$> ms !! k.
Proof using.
  revert i k. induction ms as [|m ms IH]; intros i [|k]; try done.
  - cbn. by rewrite Nat.add_0_r.
  - cbn [imap_from lookup]. cbn. rewrite IH. by replace (S i + k)%nat with (i + S k)%nat by lia.
Qed.

Lemma imap_from_length {A} (g : nat → Fabrid.md → A) i ms : len (imap_from g i ms) = len ms.
Proof using.
  revert i. induction ms as [|m ms IH]; intros i; [done|]. cbn [imap_from]. by rewrite !len_cons, IH.
Qed.

Lemma updated_HVFs i ms :
  (∀ k m, ms !! k = Some m → usable (i + k) m) →
  map Fabrid.HopValidationField (imap_from updated i ms) = imap_from covered i ms.
Proof using BlockCipher0.
  revert i. induction ms as [|m ms IH]; intros i Hu; [done|]. cbn [imap_from map].
  rewrite IH, updated_HVF; [done| |].
  - rewrite <- (Nat.add_0_r i). by apply (Hu 0%nat m).
  - intros k x Hx. replace (S i + k)%nat with (i + S k)%nat by lia. by apply Hu.
Qed.

(** C25: FABRID validation works end to end.  For a path of hops whose keys are
    known to the source, [InitValidators] produces an option in which every
    participating router accepts its own field and replaces it, and once all of
    them did, the destination accepts the path validator. *)
Theorem fabrid_end_to_end f pathKey tmpBuffer :
  len (SCION.RawSrcAddr s) ≤ 16 →
  (∀ i m, Fabrid.HopfieldMetadata f !! i = Some m → usable i m) →
  Fabrid.HopfieldMetadata f ≠ [] → len (Fabrid.PathValidator f) = 4 →
  FabridMacInputSize ≤ len tmpBuffer → len pathKey = 16 →
  ∃ f1 ms2,
    InitValidators aes_Encrypt (Some id) s (Some pathKey) asHostKeys asAsKeys hops f tmpBuffer = Ok f1 ∧
    len ms2 = len (Fabrid.HopfieldMetadata f1) ∧
    (∀ i m1 m2, Fabrid.HopfieldMetadata f1 !! i = Some m1 → ms2 !! i = Some m2 → hop_accepts i m1 m2) ∧
    ∀ buffer, 16 + round_up16 (3 * len ms2) ≤ len buffer →
      ∃ num, VerifyPathValidator aes_Encrypt (Fabrid.mk ms2 (Fabrid.PathValidator f1)) buffer pathKey =
        Ok (num, Ok tt).
Proof using BlockCipher0.
  destruct f as [ms pv]. cbn [Fabrid.HopfieldMetadata Fabrid.PathValidator]. intros Hsrc Hu Hne Hpv Ht Hk.
  set (ms1 := imap_from initialised 0 ms). set (ms2 := imap_from updated 0 ms).
  set (src := concat (imap_from covered 0 ms)).
  assert (map Fabrid.HopValidationField ms2 = imap_from covered 0 ms) as Ecov by by apply updated_HVFs.
  set (T := tag (aes_Encrypt pathKey) src).
  exists (Fabrid.mk ms1 (take 4 T)), ms2. split_and!.
  - unfold InitValidators. cbn [Fabrid.HopfieldMetadata Fabrid.PathValidator].
    rewrite round_up16_spec. set (n := 3 * len ms).
    assert (0 < n) as Hn by (unfold n; destruct ms; [done|]; rewrite len_cons; pose proof (len_nonneg ms); lia).
    set (pad := 16 * ((n + 15) / 16) - n). assert (0 ≤ pad < 16) as Hpad by (unfold pad; dlia).
    assert (make_bytes (16 * ((n + 15) / 16)) = [] ++ make_bytes n ++ make_bytes pad) as ->.
    { cbn [app]. unfold make_bytes. rewrite <- replicate_add. f_equal. unfold pad. dlia. }
    destruct (init_hops_Ok pathKey 0 ms tmpBuffer (make_bytes 16) [] (make_bytes pad))
      as (tmp' & Lt' & E); [done..|].
    fold n in E. change (Z.of_nat 0) with 0 in E. rewrite E. clear E. go_cbn. cbn beta iota.
    unfold FabridMacInputSize in Ht. rewrite (sub_Ok tmp' 0 16) by lia. go_cbn. cbn [app]. fold src.
    assert (len src = n) as Ls.
    { unfold src, n. rewrite <- Ecov. unfold ms2. clear -Hu BlockCipher0.
      assert (∀ i, (∀ k m, ms !! k = Some m → usable (i + k) m) →
        len (concat (map Fabrid.HopValidationField (imap_from updated i ms))) = 3 * len ms) as H; [|by apply H].
      clear Hu. induction ms as [|m ms IH]; intros i Hu; [done|]. cbn [imap_from map concat].
      rewrite len_app, IH, updated_HVF, covered_len, len_cons; [lia| | |].
      1-2: rewrite <- (Nat.add_0_r i); by apply (Hu 0%nat m).
      intros k x Hx. replace (S i + k)%nat with (i + S k)%nat by lia. by apply Hu. }
    rewrite sub_prefix by lia. go_cbn.
    destruct (macBlock_Ok pathKey (take (Z.to_nat (16 - 0)) (drop (Z.to_nat 0) tmp')) src
      (src ++ make_bytes pad)) as (tmp'' & dst & -> & Et & Ld & _).
    { lia. } { rewrite len_take, len_drop. lia. } { lia. }
    { rewrite len_app, len_make_bytes by lia. unfold pad. dlia. }
    { rewrite len_app, len_make_bytes by lia. dlia. }
    go_cbn. cbn [snd]. rewrite len_app, len_make_bytes in Ld by lia.
    assert (16 ≤ len dst) by (rewrite Ld; unfold pad; dlia).
    rewrite sub_Ok by lia. go_cbn. f_equal. f_equal.
    rewrite copy_same by (unfold len in *; rewrite length_take, length_drop; lia).
    unfold T. rewrite <- Et, take_take. done.
  - cbn. unfold ms1, ms2. by rewrite !imap_from_length.
  - cbn. intros i m1 m2. unfold ms1, ms2. rewrite !imap_from_lookup.
    destruct (ms !! i) as [m|] eqn:Em; [|done]. cbn. intros [= <-] [= <-].
    by apply initialised_accepted, Hu.
  - intros buffer Hb. cbn [Fabrid.PathValidator].
    destruct (validator_Ok pathKey buffer ms2 (take 4 T)) as [num E]; [done| |done| |].
    + unfold ms2. by destruct ms.
    + apply Forall_lookup. intros i m. unfold ms2. rewrite imap_from_lookup.
      destruct (ms !! i) as [m0|] eqn:Em; [|done]. cbn. intros [= <-].
      rewrite updated_HVF by by apply Hu. by apply covered_len, Hu.
    + exists num. rewrite E, Ecov. fold src T. by rewrite bool_decide_eq_true_2.
Qed.

(** C26: The path validator of a path with 16, 32 or 48 hops only covers the first
    16 bytes of the validation fields: two options that agree on those bytes get
    the same verdict, whatever the fields of the sixth hop and of all later hops
    are. *)
Theorem validator_ignores_tail pv (ms ms' : list Fabrid.md) pathKey (buffer buffer' : bytes) :
  len pathKey = 16 → ms ≠ [] → len ms' = len ms → (3 * len ms) mod 16 = 0 →
  Forall (λ m, len (Fabrid.HopValidationField m) = 3) ms →
  Forall (λ m, len (Fabrid.HopValidationField m) = 3) ms' →
  16 + round_up16 (3 * len ms) ≤ len buffer → 16 + round_up16 (3 * len ms) ≤ len buffer' →
  take 16 (concat (map Fabrid.HopValidationField ms)) =
    take 16 (concat (map Fabrid.HopValidationField ms')) →
  ∃ num num' verdict,
    VerifyPathValidator aes_Encrypt (Fabrid.mk ms pv) buffer pathKey = Ok (num, verdict) ∧
    VerifyPathValidator aes_Encrypt (Fabrid.mk ms' pv) buffer' pathKey = Ok (num', verdict).
Proof using BlockCipher0.
  intros Hk Hne Hl Hmod Hms Hms' Hb Hb' E.
  assert (∀ l, Forall (λ m, len (Fabrid.HopValidationField m) = 3) l →
    len (concat (map Fabrid.HopValidationField l)) = 3 * len l) as Hcat.
  { intros l H. induction H as [|m l Hm _ IH]; [done|]. cbn [map concat].
    rewrite len_app, IH, len_cons. lia. }
  destruct (validator_Ok pathKey buffer ms pv) as [num E1]; [done..|].
  destruct (validator_Ok pathKey buffer' ms' pv) as [num' E2]; [done| |by rewrite Hl|done|].
  { intros ->. destruct ms; [done|]. rewrite len_cons in Hl. change (len (@nil Fabrid.md)) with 0 in Hl.
    pose proof (len_nonneg ms). lia. }
  eexists num, num', _. split; [exact E1|]. rewrite E2. unfold tag.
  rewrite !Hcat, Hl, Hmod by done. cbn [Z.eqb]. by rewrite E.
Qed.
End path.

(** Policy numbers survive encryption: what the source encrypts with the key
    of a hop, the hop decrypts to the same policy. *)
Theorem policy_id_roundtrip (aes_Encrypt : bytes → bytes → bytes) `{!BlockCipher aes_Encrypt}
    (policy : Z) (id : Identifier.t) (key : bytes) :
  is_u8 policy → wf_bytes key → len key = 16 →
  ∃ e, EncryptPolicyID aes_Encrypt policy (Some id) key = Ok e ∧ is_u8 e ∧
    ∀ f, Fabrid.EncryptedPolicyID f = e → ComputePolicyID aes_Encrypt f (Some id) key = Ok policy.
Proof.
  intros Hp Hw Hk. unfold EncryptPolicyID, ComputePolicyID, calcPolicyEncryptionMask, NewCipher.
  rewrite Hk. cbn [Z.eqb Pos.eqb orb]. go_cbn.
  rewrite Serialize_encode by done. go_cbn. set (b := encode_id id ++ drop 8 (make_bytes BlockSize)).
  assert (len b = 16) as Lb by done.
  assert (wf_bytes b) as Wb.
  { unfold b, encode_id. rewrite !wf_bytes_app. split_and!; try apply wf_be_bytes. repeat constructor; done. }
  pose proof (aes_block_len key b Lb) as Lc. pose proof (aes_block_wf key b Wb) as Wc.
  rewrite copy_same by (unfold len in *; lia).
  destruct (aes_Encrypt key b) as [|c0 c]; [done|]. apply Forall_cons_1 in Wc as [Hc0 _].
  change (get (c0 :: c) 0) with (Ok c0). go_cbn. eexists. split; [done|]. split.
  - by apply lxor_uint.
  - intros f ->. by rewrite Z.lxor_assoc, Z.lxor_nilpotent, Z.lxor_0_r.
Qed.

(** ** Secret values *)

(** A provider that was initialised and then got the secrets [svs] of one
    protocol, in that order. *)
Definition registered (protocolID : Z) (svs : list DRKeyProvider.SecretValue) :
    SE DRKeyProvider.t unit :=
  _ ← DRKeyProvider.Init;
  foldl (λ m sv, _ ← m; DRKeyProvider.AddSecret protocolID sv) (mret tt) svs.

Definition latest_two (svs : list DRKeyProvider.SecretValue) : list DRKeyProvider.SecretValue :=
  take 2 (rev svs).

Section secrets.
Import DRKeyProvider.

(** The row of a protocol: the latest secret was written last. *)
Definition row_of (next : Z) (svs : list SecretValue) : list SecretValue :=
  match rev svs ++ [zero_secret; zero_secret] with
  | x :: y :: _ => if next =? 1 then [x; y] else [y; x]
  | _ => []
  end.

Lemma zero_never_valid t : valid_at t zero_secret = false.
Proof. unfold valid_at, zero_secret. cbn [EpochBegin EpochEnd]. lia. Qed.

Lemma put_in_range {A} (l : list A) i v :
  0 ≤ i < len l → ∃ l', put l i v = Ok l' ∧ len l' = len l ∧ get l' i = Ok v.
Proof.
  intros Hi. destruct (split_len i l) as (a & c & -> & La & Lc); [lia|].
  destruct c as [|x c]; [change (len (@nil A)) with 0 in Lc; lia|].
  exists (a ++ v :: c). rewrite put_app, get_app by done. by rewrite !len_app, !len_cons.
Qed.

Lemma registered_state p svs :
  0 ≤ p < numDRKeyProtocols →
  ∃ secrets next n, registered p svs zero = (mk (Some secrets) next, Ok tt) ∧
    len secrets = 3 ∧ len next = 3 ∧ get next p = Ok n ∧ (n = 0 ∨ n = 1) ∧
    get secrets p = Ok (row_of n svs).
Proof.
  unfold numDRKeyProtocols. intros Hp. induction svs as [|sv svs IH] using rev_ind.
  - eexists _, _, 0. split; [reflexivity|].
    assert (p = 0 ∨ p = 1 ∨ p = 2) as [->|[->| ->]] by lia; split_and!; first [done|by left].
  - destruct IH as (secrets & next & n & E & Ls & Ln & Hn & Hn01 & Hrow).
    unfold registered in *. apply SE_bind_Ok in E as (s' & [] & EI & E).
    rewrite (SE_bind_eq _ _ _ _ _ EI), foldl_app. cbn [foldl].
    rewrite (SE_bind_eq _ _ _ _ _ E). unfold AddSecret. cbn [drKeySecrets drKeySecretNextOverwrite].
    replace (len secrets <? p) with false by lia. rewrite Hn. go_cbn. rewrite Hrow. go_cbn.
    set (h := rev svs ++ [zero_secret; zero_secret]) in *.
    assert (rev (svs ++ [sv]) ++ [zero_secret; zero_secret] = sv :: h) as Eh by (by rewrite rev_app_distr).
    assert (put (row_of n svs) n sv = Ok (row_of (1 - n) (svs ++ [sv]))) as ->.
    { unfold row_of. rewrite Eh. fold h. destruct h as [|x [|y h']] eqn:Eh'; unfold h in Eh'.
      1-2: by destruct (rev svs) as [|? [|? ?]]. destruct Hn01 as [->| ->]; done. }
    go_cbn. destruct (put_in_range secrets p (row_of (1 - n) (svs ++ [sv]))) as (secrets' & Ep & Lp & Gp); [lia|].
    rewrite Ep. go_cbn.
    destruct (put_in_range next p (u8 (1 - n))) as (next' & En & Lnx & Gn); [lia|]. rewrite En. go_cbn.
    exists secrets', next', (1 - n). split_and!; [done|lia|lia| |lia|done].
    rewrite Gn. by destruct Hn01 as [->| ->].
Qed.

(** The provider keeps the two secret values of a protocol that were
    registered last: at an instant that is not more than five seconds in the past,
    the secret it selects is one of those two and is valid then; it selects one
    whenever one of those two is valid, and reports an error otherwise. *)
Theorem latest_secrets_available p svs now t :
  0 ≤ p < numDRKeyProtocols → time_Sub now t ≤ pastValidity →
  ∃ d, registered p svs zero = (d, Ok tt) ∧
    match getSecret now d p t with
    | Ok sv => sv ∈ latest_two svs ∧ valid_at t sv = true
    | Err e => e = errDRKeySecretInvalid ∧ Forall (λ sv, valid_at t sv = false) (latest_two svs)
    | Panic => False
    end.
Proof.
  intros Hp Ht. destruct (registered_state p svs Hp) as (secrets & next & n & E & _ & _ & _ & Hn & Hrow).
  eexists. split; [exact E|]. unfold getSecret. cbn [drKeySecrets]. rewrite Hrow. go_cbn.
  replace (pastValidity <? time_Sub now t) with false by lia. go_cbn.
  unfold row_of, latest_two. pose proof (zero_never_valid t) as Hz.
  destruct (rev svs) as [|x [|y l]]; cbn [app take];
    destruct Hn as [->| ->]; cbn [Z.eqb Pos.eqb first_valid]; rewrite ?Hz;
    repeat match goal with
    | |- context [if valid_at t ?v then _ else _] => destruct (valid_at t v) eqn:?
    end; rewrite ?Forall_cons, ?Forall_nil; set_solver.
Qed.

(** A protocol number one past the table passes the check of [AddSecret]. *)
Example add_secret_off_by_one :
  let d := after Init zero in
  AddSecret 3 zero_secret d = (d, Panic) ∧
  AddSecret 4 zero_secret d = (d, Err (New "Error while adding a new drkey. ProtocolID too large")).
Proof. split; reflexivity. Qed.
End secrets.

(** ** Witnesses *)

Definition toy_aes (key b : bytes) : bytes := map (λ x, Z.lxor x 90) b.

#[local] Instance toy_cipher : BlockCipher toy_aes.
Proof.
  split.
  - intros key b <-. unfold len, toy_aes. by rewrite length_map.
  - intros key b H. unfold toy_aes. apply Forall_map. eapply Forall_impl; [exact H|].
    intros x Hx. by apply (lxor_uint 8).
Defined.

Definition example_key : bytes := make_bytes 16.
Definition example_id : Identifier.t := Identifier.mk 1700000000000000000 7 1700000000.
Definition example_fabrid : Fabrid.t :=
  Fabrid.mk [Fabrid.mkMd 5 true false [0; 0; 0]; Fabrid.mkMd 0 false false [0; 0; 0]] [0; 0; 0; 0].
Definition example_hops : list HopInterface := [mkHop 0 1 100; mkHop 2 0 101].

Lemma fabrid_end_to_end_witness :
  ∃ f1, InitValidators toy_aes (Some example_id) SCION.zero (Some example_key) {[ 100 := example_key ]} ∅
    example_hops example_fabrid (make_bytes 46) = Ok f1.
Proof.
  destruct (fabrid_end_to_end (aes_Encrypt:=toy_aes) example_id SCION.zero {[ 100 := example_key ]} ∅
    example_hops example_fabrid example_key (make_bytes 46)) as (f1 & ms2 & E & _); [done| |done..|].
  - intros [|[|i]] m [= <-]; [|done].
    split; [done|]. exists example_key, 0, 1. split; [vm_compute; reflexivity|done].
  - by exists f1.
Defined.

Definition hop_md (b : Z) : Fabrid.md := Fabrid.mkMd 0 true false [b; b; b].

Lemma validator_ignores_tail_witness :
  ∃ num num' verdict,
    VerifyPathValidator toy_aes (Fabrid.mk (replicate 16 (hop_md 1)) [0; 0; 0; 0]) (make_bytes 64) example_key
      = Ok (num, verdict) ∧
    VerifyPathValidator toy_aes (Fabrid.mk (replicate 6 (hop_md 1) ++ replicate 10 (hop_md 9)) [0; 0; 0; 0])
      (make_bytes 64) example_key = Ok (num', verdict).
Proof.
  apply validator_ignores_tail; first [done|by vm_compute|repeat constructor].
Defined.

Lemma policy_id_roundtrip_witness :
  ∃ e, EncryptPolicyID toy_aes 5 (Some example_id) example_key = Ok e ∧
    ComputePolicyID toy_aes (Fabrid.mkMd e true false [0; 0; 0]) (Some example_id) example_key = Ok 5.
Proof.
  destruct (policy_id_roundtrip toy_aes 5 example_id example_key) as (e & E & _ & H);
    [done|repeat constructor; done|done|].
  exists e. split; [exact E|by apply H].
Defined.

Lemma latest_secrets_available_witness :
  ∃ d, registered 2 [DRKeyProvider.mkSecret 10 20 example_key] DRKeyProvider.zero = (d, Ok tt) ∧
    match DRKeyProvider.getSecret 15 d 2 15 with
    | Ok sv => sv ∈ latest_two [DRKeyProvider.mkSecret 10 20 example_key] ∧ DRKeyProvider.valid_at 15 sv = true
    | Err e => e = DRKeyProvider.errDRKeySecretInvalid ∧
        Forall (λ sv, DRKeyProvider.valid_at 15 sv = false) (latest_two [DRKeyProvider.mkSecret 10 20 example_key])
    | Panic => False
    end.
Proof. apply latest_secrets_available; by vm_compute. Defined.

End DrkeyProperties.
