(* ===== verification/Spao.v ===== *)
(** The packet authenticator over a SCION packet: the data it covers
    ([pkg/spao/mac.go], [timestamp.go], Module [Spao]) and the keys and
    timestamps that a receiver accepts
    ([private/drkey/drkeyutil/provider.go], Module [KeyWindow]). *)
From S2P Require Export Options Drkey.

(** * pkg/spao *)
Module Spao.

Definition fixAuthDataInputLen : Z := PacketAuth.PacketAuthOptionMetadataLen + SCION.CmnHdrLen - AddrType.LineLen.
Definition MACBufferSize : Z := 1032.

Record MACInput := mkInput {
  Key : bytes;
  Header : TLV.t;
  ScionLayer : SCION.t;
  PldType : Z;
  Pld : bytes
}.

Definition bigEndianPutUint48 (b : bytes) (v : Z) : outcome bytes :=
  b ← put b 0 (u8 (Z.shiftr v 40));
  b ← put b 1 (u8 (Z.shiftr v 32));
  on_sub b 2 6 (λ m, PutUint32 m (u32 v)).

(** The loops of [zeroOutWithBase]: the offset and the buffer they leave. *)
Fixpoint zero_infos (n : nat) (offset : Z) (buf : bytes) : outcome (Z * bytes) :=
  match n with
  | O => Ok (offset, buf)
  | S n => buf ← on_sub_from buf (offset + 2) (λ m, PutUint16 m 0); zero_infos n (offset + 8) buf
  end.
Fixpoint zero_hops (n : nat) (offset : Z) (buf : bytes) : outcome (Z * bytes) :=
  match n with
  | O => Ok (offset, buf)
  | S n => buf ← put buf offset 0; zero_hops n (offset + 12) buf
  end.
Fixpoint zero_segments (segLens : list Z) (offset : Z) (buf : bytes) : outcome (Z * bytes) :=
  match segLens with
  | [] => Ok (offset, buf)
  | l :: segLens => '(offset, buf) ← zero_hops (Z.to_nat l) offset buf; zero_segments segLens offset buf
  end.

Definition zeroOutWithBase (b : Base.t) (buf : bytes) : outcome bytes :=
  buf ← put buf 0 0;
  '(offset, buf) ← zero_infos (Z.to_nat (Base.NumINF b)) 4 buf;
  let m := Base.PathMeta b in
  segLens ← sub [MetaHdr.SegLen m 0; MetaHdr.SegLen m 1; MetaHdr.SegLen m 2] 0 (Base.NumINF b);
  '(_, buf) ← zero_segments segLens offset buf;
  Ok buf.

Definition zeroOutMutablePath (buf : bytes) : SE Path bytes := λ orig,
  let '(orig, r) := Serialize buf orig in
  (orig,
   buf ← wrap_err "serializing path for resetting fields" r;
   match orig with
   | PEmpty => Ok buf
   | PScion p => zeroOutWithBase (Raw.base p) buf
   | PDecoded p => zeroOutWithBase (Decoded.base p) buf
   | PEpic p =>
       match Epic.ScionPath p with
       | None => Panic
       | Some r => on_sub_from buf Epic.MetadataLen (zeroOutWithBase (Raw.base r))
       end
   | POneHop _ =>
       buf ← on_sub_from buf 2 (λ m, PutUint16 m 0);
       buf ← put buf 8 0;
       on_sub_from buf 20 (λ m, Ok (copy m (make_bytes 12)))
   | PRaw _ => Err (New "unknown path type")
   end).

(** The first lines of the input, which have a fixed length. *)
Definition put_fixed (s : SCION.t) (opt : TLV.t) (pldType : Z) (pld buf : bytes) (hdrLen : Z) : outcome bytes :=
  buf ← put buf 0 (u8 (Z.quot hdrLen AddrType.LineLen));
  buf ← put buf 1 pldType;
  buf ← on_sub_from buf 2 (λ m, PutUint16 m (u16 (len pld)));
  algorithm ← PacketAuth.get_Algorithm opt;
  buf ← put buf 4 algorithm;
  buf ← put buf 5 0;
  timestamp ← PacketAuth.get_TimestampSN opt;
  buf ← on_sub buf 6 12 (λ m, bigEndianPutUint48 m timestamp);
  let firstHdrLine := Z.lor (Z.lor (u32 (Z.shiftl (Z.land (SCION.Version s) 0xF) 28))
                              (u32 (Z.shiftl (Z.land (SCION.TrafficClass s) 0x3f) 20)))
                        (Z.land (SCION.FlowID s) 0xFFFFF) in
  buf ← on_sub_from buf 12 (λ m, PutUint32 m firstHdrLine);
  buf ← put buf 16 (u8 (SCION.PathType s));
  buf ← put buf 17 (Z.lor (u8 (Z.shiftl (Z.land (SCION.DstAddrType s) 0xF) 4)) (Z.land (SCION.SrcAddrType s) 0xF));
  on_sub_from buf 18 (λ m, PutUint16 m 0).

(** [n := copy(buf[offset:], src)] if [c] holds: the new offset and buffer. *)
Definition append_if (c : bool) (offset : Z) (src buf : bytes) : outcome (Z * bytes) :=
  if c then
    rest ← sub_from buf offset;
    buf ← on_sub_from buf offset (λ m, Ok (copy m src));
    Ok (offset + Z.min (len rest) (len src), buf)
  else Ok (offset, buf).

Definition serializeAuthenticatedData (buf : bytes) (opt : TLV.t) (pldType : Z) (pld : bytes) :
    SE SCION.t (bytes * Z) := λ s,
  match get buf (MACBufferSize - 1), SCION.Path s with
  | Ok _, Some path =>
      let hdrLen := SCION.CmnHdrLen + SCION.AddrHdrLen s + PathLen path in
      match
        (_ ← fail_if (SCION.MaxHdrLen <? hdrLen) (New "SCION header length exceeds maximum");
         _ ← fail_if (negb (Z.rem hdrLen AddrType.LineLen =? 0))
               (New "SCION header length is not an integer multiple of line length");
         buf ← put_fixed s opt pldType pld buf hdrLen;
         spi ← PacketAuth.get_SPI opt;
         let drkey := PacketAuth.IsDRKey spi in
         let asHost dir := (PacketAuth.Type_ spi =? PacketAuth.PacketAuthASHost) && (PacketAuth.Direction spi =? dir) in
         let offset := fixAuthDataInputLen in
         '(offset, buf) ← (if negb drkey then
                             buf ← on_sub_from buf offset (λ m, PutUint64 m (SCION.DstIA s));
                             buf ← on_sub_from buf (offset + 8) (λ m, PutUint64 m (SCION.SrcIA s));
                             Ok (offset + 16, buf)
                           else Ok (offset, buf));
         '(offset, buf) ← append_if (negb drkey || asHost PacketAuth.PacketAuthReceiverSide) offset (SCION.RawDstAddr s) buf;
         append_if (negb drkey || asHost PacketAuth.PacketAuthSenderSide) offset (SCION.RawSrcAddr s) buf)
      with
      | Ok (offset, buf) =>
          match sub_from buf offset with
          | Ok rest =>
              let '(path, r) := zeroOutMutablePath rest path in
              (SCION.set_Path path s,
               rest ← r;
               buf ← on_sub_from buf offset (λ _, Ok rest);
               Ok (buf, offset + PathLen path))
          | Err e => (s, Err e)
          | Panic => (s, Panic)
          end
      | Err e => (s, Err e)
      | Panic => (s, Panic)
      end
  | _, _ => (s, Panic)
  end.

Section cmac.
(** [cmac.Sum]: the tag of [github.com/dchest/cmac] for a block function and the
    bytes written. *)
Context (aes_Encrypt : bytes → bytes → bytes) (cmac_Sum : (bytes → bytes) → bytes → bytes).

Definition initCMAC (key : bytes) : outcome (bytes → bytes) :=
  wrap_err "unable to initialize AES cipher" (AES.NewCipher aes_Encrypt key).

(** The new contents of the auxiliary buffer and the tag.  The copy of the SCION
    header that the input points to may change, which the caller gets back. *)
Definition ComputeAuthCMAC (input : MACInput) (auxBuffer : bytes) : SCION.t * outcome (bytes * bytes) :=
  match initCMAC (Key input) with
  | Ok block =>
      let '(s, r) := serializeAuthenticatedData auxBuffer (Header input) (PldType input) (Pld input) (ScionLayer input) in
      (s, '(auxBuffer, inputLen) ← r;
          head ← sub auxBuffer 0 inputLen;
          Ok (auxBuffer, cmac_Sum block (head ++ Pld input)))
  | Err e => (ScionLayer input, Err e)
  | Panic => (ScionLayer input, Panic)
  end.
End cmac.

(** Points in time are nanoseconds.  [t.Sub] saturates, and the conversion to an
    unsigned integer wraps around. *)
Definition RelativeTimestamp (NotBefore t : Z) : outcome Z :=
  let relTime := Z.max (- 2 ^ 63) (Z.min (2 ^ 63 - 1) (t - NotBefore)) in
  if Z.shiftl 1 48 <=? relTime then Err (New "relative timestamp is bigger than 2^48-1") else Ok (u64 relTime).

(** [time.Duration(relTime)] is signed. *)
Definition AbsoluteTimestamp (NotBefore relTime : Z) : Z :=
  NotBefore + (let d := u64 relTime in if d <? 2 ^ 63 then d else d - 2 ^ 64).

End Spao.

(** * The authenticated data *)
Module SpaoLemmas.

Import Spao Base MetaHdr.

(** ** Zeroing the mutable fields of a path *)

Definition zero_info (c : bytes) : bytes := take 2 c ++ be_bytes 2 0 ++ drop 4 c.
Definition zero_hop (c : bytes) : bytes := 0 :: drop 1 c.

Lemma zero_infos_Ok ibs pre rest :
  Forall (λ c, len c = InfoField.InfoLen) ibs →
  zero_infos (length ibs) (len pre) (pre ++ concat ibs ++ rest) =
    Ok (len pre + len ibs * 8, pre ++ concat (zero_info <$> ibs) ++ rest).
Proof.
  intros H. revert pre. induction H as [|c ibs Hc _ IH]; intros pre.
  { cbn. rewrite Z.add_0_r. done. }
  cbn [length zero_infos concat fmap list_fmap]. unfold InfoField.InfoLen in Hc.
  destruct (split_len 2 c) as (c1 & c' & -> & L1 & L'); [lia|].
  destruct (split_len 2 c') as (c2 & c3 & -> & L2 & L3); [lia|].
  rewrite !len_app in Hc. clear L' L3.
  assert (zero_info (c1 ++ c2 ++ c3) = c1 ++ be_bytes 2 0 ++ c3) as ->.
  { unfold zero_info. change 2%nat with (Z.to_nat 2) at 1. rewrite (take_len_app 2 c1) by done. do 2 f_equal.
    rewrite app_assoc. change 4%nat with (Z.to_nat 4). apply drop_len_app. rewrite len_app. lia. }
  replace (pre ++ ((c1 ++ c2 ++ c3) ++ concat ibs) ++ rest) with ((pre ++ c1) ++ c2 ++ (c3 ++ concat ibs ++ rest))
    by (by rewrite <- !app_assoc).
  unfold on_sub_from. rewrite (on_sub_suffix (pre ++ c1) (c2 ++ c3 ++ concat ibs ++ rest)) by (rewrite ?len_app; lia).
  unfold PutUint16. rewrite put_be_app by done. go_cbn.
  replace ((pre ++ c1) ++ be_bytes 2 0 ++ c3 ++ concat ibs ++ rest)
    with ((pre ++ c1 ++ be_bytes 2 0 ++ c3) ++ concat ibs ++ rest) by (by rewrite <- !app_assoc).
  assert (len pre + 8 = len (pre ++ c1 ++ be_bytes 2 0 ++ c3)) as -> by (rewrite !len_app, len_be_bytes; lia).
  rewrite IH. rewrite !len_app, len_be_bytes, len_cons. f_equal. f_equal; [lia|]. by rewrite <- !app_assoc.
Qed.

Lemma zero_hops_Ok hbs pre rest :
  Forall (λ c, len c = HopField.HopLen) hbs →
  zero_hops (length hbs) (len pre) (pre ++ concat hbs ++ rest) =
    Ok (len pre + len hbs * 12, pre ++ concat (zero_hop <$> hbs) ++ rest).
Proof.
  intros H. revert pre. induction H as [|c hbs Hc _ IH]; intros pre.
  { cbn. rewrite Z.add_0_r. done. }
  cbn [length zero_hops concat fmap list_fmap]. unfold HopField.HopLen in Hc.
  destruct c as [|x c]; [by rewrite len_nil in Hc|]. rewrite len_cons in Hc.
  change (zero_hop (x :: c)) with (0 :: c).
  replace (pre ++ ((x :: c) ++ concat hbs) ++ rest) with (pre ++ x :: (c ++ concat hbs ++ rest))
    by (cbn; by rewrite <- !app_assoc).
  rewrite put_app by done. go_cbn.
  replace (pre ++ 0 :: c ++ concat hbs ++ rest) with ((pre ++ 0 :: c) ++ concat hbs ++ rest)
    by (rewrite <- !app_assoc; done).
  assert (len pre + 12 = len (pre ++ 0 :: c)) as -> by (rewrite len_app, len_cons; lia).
  rewrite IH. rewrite !len_app, !len_cons. f_equal. f_equal; [lia|]. rewrite <- !app_assoc. done.
Qed.

Lemma zero_segments_Ok segLens hbs pre rest :
  Forall (λ c, len c = HopField.HopLen) hbs → Forall (λ l, 0 ≤ l) segLens → len hbs = foldr Z.add 0 segLens →
  zero_segments segLens (len pre) (pre ++ concat hbs ++ rest) =
    Ok (len pre + len hbs * 12, pre ++ concat (zero_hop <$> hbs) ++ rest).
Proof.
  intros Hh Hl. revert pre hbs Hh. induction Hl as [|l segLens Hl0 Hl IH]; intros pre hbs Hh Hn.
  { cbn in Hn. destruct hbs; [|rewrite len_cons in Hn; pose proof (len_nonneg hbs); lia]. cbn. rewrite Z.add_0_r. done. }
  cbn [foldr] in Hn. assert (0 ≤ foldr Z.add 0 segLens) as Hf.
  { clear -Hl. induction Hl; cbn; lia. }
  destruct (split_len l hbs) as (h1 & h2 & -> & L1 & L2); [lia|]. apply Forall_app in Hh as [H1 H2].
  cbn [zero_segments]. rewrite concat_app, <- app_assoc.
  replace (Z.to_nat l) with (length h1) by (unfold len in L1; lia).
  rewrite (zero_hops_Ok h1 pre (concat h2 ++ rest) H1). go_cbn.
  rewrite app_assoc. assert (len pre + len h1 * 12 = len (pre ++ concat (zero_hop <$> h1))) as Ep.
  { rewrite len_app, (len_concat HopField.HopLen (zero_hop <$> h1)).
    - assert (len (zero_hop <$> h1) = len h1) as -> by (unfold len; by rewrite length_fmap). done.
    - apply Forall_fmap. eapply Forall_impl; [exact H1|]. intros c Hc. cbn. unfold zero_hop, HopField.HopLen in *.
      rewrite len_cons, len_drop. lia. }
  rewrite Ep, IH by (done || lia). rewrite <- Ep, fmap_app, concat_app, len_app, <- !app_assoc.
  f_equal. f_equal. lia.
Qed.

Lemma seg_lens_sum b :
  Base.wf b → ∃ segLens, sub [SegLen (PathMeta b) 0; SegLen (PathMeta b) 1; SegLen (PathMeta b) 2] 0 (NumINF b) = Ok segLens ∧
    Forall (λ l, 0 ≤ l) segLens ∧ foldr Z.add 0 segLens = NumHops b.
Proof.
  intros [[_ _ ? ? ?] [H1 H2 HN HH _]]. uint_bounds. unfold SegLen.
  change (0 =? 0) with true. change (1 =? 0) with false. change (1 =? 1) with true. change (2 =? 0) with false. change (2 =? 1) with false.
  destruct (Z.ltb_spec 0 (SegLen2 (PathMeta b))), (Z.ltb_spec 0 (SegLen1 (PathMeta b))), (Z.ltb_spec 0 (SegLen0 (PathMeta b)));
    try lia; rewrite HN; (eexists; split; [reflexivity|]); split; repeat constructor; cbn; lia.
Qed.
(** The path with its mutable fields zeroed: the position, the accumulators and the
    router alerts. *)
Definition still_meta (m : MetaHdr.t) : MetaHdr.t := set_CurrINF 0 (set_CurrHF 0 m).
Definition still_hop (h : HopField.t) : HopField.t :=
  HopField.mk false false (HopField.ExpTime h) (HopField.ConsIngress h) (HopField.ConsEgress h) (HopField.Mac h).
Definition still (D : Decoded.t) : Decoded.t :=
  Decoded.mk (Base.mk (still_meta (PathMeta (Decoded.base D))) (NumINF (Decoded.base D)) (NumHops (Decoded.base D)))
    ((λ i, InfoField.set_SegID i 0) <$> Decoded.InfoFields D) (still_hop <$> Decoded.HopFields D).

Lemma zero_meta m : MetaHdr.wf m → ∃ x tl, MetaHdr.encode m = x :: tl ∧ MetaHdr.encode (still_meta m) = 0 :: tl.
Proof.
  intros []. unfold MetaHdr.encode, line. cbn [still_meta set_CurrINF set_CurrHF CurrINF CurrHF SegLen0 SegLen1 SegLen2].
  set (c := CurrINF m * 2 ^ 30 + CurrHF m * 2 ^ 24). set (l := SegLen0 m * 2 ^ 12 + SegLen1 m * 2 ^ 6 + SegLen2 m).
  assert (c = (CurrINF m * 64 + CurrHF m) * 2 ^ 24) as Ec by (unfold c; lia).
  assert (0 ≤ l < 2 ^ 24) as Hl by (unfold l; lia).
  replace (c + _ + _ + _) with (c + l) by (unfold l; lia).
  replace (0 * _ + 0 * _ + _ + _ + _) with l by (unfold l; lia). clearbody c l.
  set (k := CurrINF m * 64 + CurrHF m) in *. clearbody k. subst c.
  assert ((k * 2 ^ 24 + l) / 256 = k * 2 ^ 16 + l / 256) as E1 by dlia.
  assert ((k * 2 ^ 16 + l / 256) / 256 = k * 2 ^ 8 + l / 256 / 256) as E2 by dlia.
  exists (k mod 256), [l / 256 / 256 mod 256; l / 256 mod 256; l mod 256].
  assert (∀ v, be_bytes 4 v = [v / 256 / 256 / 256 mod 256; v / 256 / 256 mod 256; v / 256 mod 256; v mod 256]) as Eb by done.
  rewrite !Eb, E1, E2.
  assert ((k * 2 ^ 8 + l / 256 / 256) / 256 = k + l / 256 / 256 / 256) as -> by dlia.
  assert (l / 256 / 256 / 256 = 0) as El by dlia. rewrite El, Z.add_0_r.
  assert (∀ x y, (k * 256 * y + x) mod 256 = x mod 256) as Em by (intros; rewrite Z.add_comm, <- Z.mul_assoc, (Z.mul_comm 256), Z.mul_assoc; apply Z.mod_add; done).
  split; [|done].
  replace (k * 2 ^ 24) with (k * 256 * 65536) by lia. replace (k * 2 ^ 16) with (k * 256 * 256) by lia.
  replace (k * 2 ^ 8) with (k * 256 * 1) by lia. by rewrite !Em.
Qed.

Lemma still_infos infos : concat (zero_info <$> (InfoField.encode <$> infos)) =
  encode_fields InfoField.encode ((λ i, InfoField.set_SegID i 0) <$> infos).
Proof.
  unfold encode_fields. by rewrite <- !list_fmap_compose.
Qed.
Lemma still_hops hops : concat (zero_hop <$> (HopField.encode <$> hops)) =
  encode_fields HopField.encode (still_hop <$> hops).
Proof. unfold encode_fields. by rewrite <- !list_fmap_compose. Qed.

(** The parts of the bytes of a raw path. *)
Record raw_parts (b : Base.t) (ibs hbs : list bytes) : Prop := {
  rp_base : Base.wf b;
  rp_infos : Forall (λ c, len c = InfoField.InfoLen) ibs;
  rp_hops : Forall (λ c, len c = HopField.HopLen) hbs;
  rp_NumINF : len ibs = NumINF b;
  rp_NumHops : len hbs = NumHops b
}.
Definition raw_of (b : Base.t) (ibs hbs : list bytes) : bytes := MetaHdr.encode (PathMeta b) ++ concat ibs ++ concat hbs.
Definition still_raw (b : Base.t) (ibs hbs : list bytes) : bytes :=
  MetaHdr.encode (still_meta (PathMeta b)) ++ concat (zero_info <$> ibs) ++ concat (zero_hop <$> hbs).

Lemma zero_chunks {size} (f : bytes → bytes) (cs : list bytes) :
  Forall (λ c, len c = size) cs → (∀ c, len c = size → len (f c) = size) → len (concat (f <$> cs)) = len cs * size.
Proof.
  intros H Hf. rewrite (len_concat size (f <$> cs)).
  - assert (len (f <$> cs) = len cs) as -> by (unfold len; by rewrite length_fmap). done.
  - apply Forall_fmap. eapply Forall_impl; [exact H|]. intros c. apply Hf.
Qed.
Lemma len_zero_info c : len c = InfoField.InfoLen → len (zero_info c) = InfoField.InfoLen.
Proof. intros Hc. unfold zero_info, InfoField.InfoLen in *. rewrite !len_app, len_take, len_drop, len_be_bytes. lia. Qed.
Lemma len_zero_hop c : len c = HopField.HopLen → len (zero_hop c) = HopField.HopLen.
Proof. intros Hc. unfold zero_hop, HopField.HopLen in *. rewrite len_cons, len_drop. lia. Qed.

Lemma len_raw_of b ibs hbs : raw_parts b ibs hbs → len (raw_of b ibs hbs) = Base.Len b.
Proof.
  intros [Hb Hi Hh Li Lh]. unfold raw_of, Base.Len, MetaLen. rewrite !len_app, (len_concat _ _ Hi), (len_concat _ _ Hh), Li, Lh.
  change (len (MetaHdr.encode _)) with 4. unfold InfoField.InfoLen, HopField.HopLen. lia.
Qed.
Lemma len_still_raw b ibs hbs : raw_parts b ibs hbs → len (still_raw b ibs hbs) = Base.Len b.
Proof.
  intros [Hb Hi Hh Li Lh]. unfold still_raw, Base.Len, MetaLen.
  rewrite !len_app, (zero_chunks _ _ Hi len_zero_info), (zero_chunks _ _ Hh len_zero_hop), Li, Lh.
  change (len (MetaHdr.encode _)) with 4. unfold InfoField.InfoLen, HopField.HopLen. lia.
Qed.

Lemma zeroOutWithBase_Ok b ibs hbs rest :
  raw_parts b ibs hbs → zeroOutWithBase b (raw_of b ibs hbs ++ rest) = Ok (still_raw b ibs hbs ++ rest).
Proof.
  intros [Hb Hci Hch Li Lh]. unfold zeroOutWithBase, raw_of. cbv zeta.
  destruct (zero_meta (PathMeta b) (Base.wf_meta _ Hb)) as (x & tl & Em & Es). rewrite Em.
  change (((x :: tl) ++ ?a) ++ rest) with ([] ++ x :: (tl ++ a) ++ rest). rewrite put_app by done. go_cbn. cbn [app].
  assert (len (0 :: tl) = 4) as Lm by (rewrite <- Es; done).
  replace (Z.to_nat (NumINF b)) with (length ibs) by (unfold len in Li; lia).
  replace (0 :: (tl ++ concat ibs ++ concat hbs) ++ rest) with ((0 :: tl) ++ concat ibs ++ concat hbs ++ rest)
    by (cbn; by rewrite <- !app_assoc).
  pose proof (zero_infos_Ok ibs (0 :: tl) (concat hbs ++ rest) Hci) as Ez. rewrite Lm in Ez. rewrite Ez. clear Ez. go_cbn.
  destruct (seg_lens_sum b Hb) as (segLens & -> & Hl & Hs). go_cbn.
  assert (4 + len ibs * 8 = len ((0 :: tl) ++ concat (zero_info <$> ibs))) as ->
    by (by rewrite len_app, Lm, (zero_chunks _ _ Hci len_zero_info)).
  rewrite (app_assoc (0 :: tl)). rewrite zero_segments_Ok by (done || lia). go_cbn.
  unfold still_raw. rewrite Es, <- !app_assoc. done.
Qed.

(** A decoded path is written as such parts. *)
Lemma decoded_parts D :
  Decoded.wf D → let ibs := InfoField.encode <$> Decoded.InfoFields D in let hbs := HopField.encode <$> Decoded.HopFields D in
  raw_parts (Decoded.base D) ibs hbs ∧ Decoded.encode D = raw_of (Decoded.base D) ibs hbs ∧
  Decoded.encode (still D) = still_raw (Decoded.base D) ibs hbs.
Proof.
  intros [Hb Hi Hh Hwi Hwh] ibs hbs. split_and!; [split| |].
  - exact Hb.
  - apply Forall_fmap, Forall_true; done.
  - apply Forall_fmap. eapply Forall_impl; [exact Hwh|]. intros h Hw. apply HopField.hop_len_encode, Hw.
  - rewrite <- Hi. unfold ibs, len. by rewrite length_fmap.
  - rewrite <- Hh. unfold hbs, len. by rewrite length_fmap.
  - done.
  - unfold still_raw, ibs, hbs. rewrite still_infos, still_hops. done.
Qed.

(** ** Paths and the bytes that stand for them *)

(** [authenticates p b]: the path [p] goes into the authenticated data as [b].
    The bytes of a raw path go in as they are, apart from its mutable fields. *)
Definition still_onehop (o : OneHop.t) : bytes :=
  InfoField.encode (InfoField.set_SegID (OneHop.Info o) 0) ++ HopField.encode (still_hop (OneHop.FirstHop o)) ++ make_bytes 12.
Inductive authenticates : Path → bytes → Prop :=
| auth_empty : authenticates PEmpty []
| auth_decoded D : Decoded.wf D → authenticates (PDecoded D) (Decoded.encode (still D))
| auth_raw b mb ibs hbs : raw_parts b ibs hbs → len mb = 4 →
    authenticates (PScion (Raw.mk b (Some (mb ++ concat ibs ++ concat hbs)))) (still_raw b ibs hbs)
| auth_epic p b mb ibs hbs : raw_parts b ibs hbs → len mb = 4 →
    Epic.ScionPath p = Some (Raw.mk b (Some (mb ++ concat ibs ++ concat hbs))) →
    length (Epic.PHVF p) = 4%nat → length (Epic.LHVF p) = 4%nat →
    authenticates (PEpic p) (Epic.encode_metadata p ++ still_raw b ibs hbs)
| auth_onehop o : OneHop.wf o → authenticates (POneHop o) (still_onehop o).

Lemma still_wf D : Decoded.wf D → Decoded.wf (still D).
Proof.
  intros [[[? ? ? ? ?] [? ? ? ? ?]] Hi Hh Hwi Hwh]. split.
  - split; [by split|by split].
  - cbn. rewrite <- Hi. unfold len. by rewrite length_fmap.
  - cbn. rewrite <- Hh. unfold len. by rewrite length_fmap.
  - cbn. apply Forall_fmap. eapply Forall_impl; [exact Hwi|]. intros i []. by split.
  - cbn. apply Forall_fmap. eapply Forall_impl; [exact Hwh|]. intros i []. by split.
Qed.

Lemma len_still D : Decoded.wf D → len (Decoded.encode (still D)) = Decoded.Len D.
Proof. intros H. by rewrite (Decoded.dec_len_encode _ (still_wf _ H)). Qed.

Lemma authenticates_len p b : authenticates p b → len b = PathLen p.
Proof.
  intros [|D Hw|bs mb ibs hbs Hp _|e bs mb ibs hbs Hp _ He H1 H2|o Hw]; [done|by apply len_still|by apply len_still_raw| |].
  - rewrite len_app, (len_still_raw _ _ _ Hp), Epic.len_encode_metadata by done.
    change (PathLen (PEpic e)) with (Epic.Len e). unfold Epic.Len. by rewrite He.
  - destruct Hw as [_ [] _]. unfold still_onehop. rewrite !len_app, InfoField.info_len_encode, HopField.hop_len_encode by done. done.
Qed.

(** ** The path in the buffer *)

Lemma flush_meta_parts b mb ibs hbs :
  raw_parts b ibs hbs → len mb = 4 →
  Raw.flush_meta (Raw.mk b (Some (mb ++ concat ibs ++ concat hbs))) = (Raw.mk b (Some (raw_of b ibs hbs)), Ok tt).
Proof.
  intros [Hb _ _ _ _] Hm. unfold Raw.flush_meta, Raw.write_raw, Raw.raw_bytes. cbn [Raw.Raw default from_option id Raw.base].
  rewrite on_sub_prefix by done. rewrite MetaHdr.meta_SerializeTo_Ok by (apply Hb || (unfold MetaLen; lia)). go_cbn.
  change MetaLen with 4. rewrite (drop_len 4), app_nil_r by done. done.
Qed.

Lemma SerializeTo_parts b mb ibs hbs buf :
  raw_parts b ibs hbs → len mb = 4 → Base.Len b ≤ len buf →
  Raw.SerializeTo buf (Raw.mk b (Some (mb ++ concat ibs ++ concat hbs))) =
    (Raw.mk b (Some (raw_of b ibs hbs)), Ok (raw_of b ibs hbs ++ drop (Z.to_nat (Base.Len b)) buf)).
Proof.
  intros Hp Hm Hl. unfold Raw.SerializeTo. cbn [Raw.Raw]. change (Raw.Len _) with (Base.Len b).
  replace (len buf <? Base.Len b) with false by (symmetry; by apply Z.ltb_ge).
  rewrite (SE_bind_eq _ _ _ _ _ (flush_meta_parts b mb ibs hbs Hp Hm)).
  set (r := Raw.mk b (Some (raw_of b ibs hbs))).
  rewrite (SE_bind_eq (gets Raw.raw_bytes) _ r r (raw_of b ibs hbs)) by done.
  unfold mret, SE_ret. do 2 f_equal. pose proof (len_raw_of _ _ _ Hp) as E.
  unfold copy. rewrite take_ge by (unfold len in *; lia). do 2 f_equal. unfold len in *. lia.
Qed.

Lemma zeroOut_onehop o rest :
  OneHop.wf o →
  (buf ← on_sub_from (OneHop.encode o ++ rest) 2 (λ m, PutUint16 m 0); buf ← put buf 8 0;
   on_sub_from buf 20 (λ m, Ok (copy m (make_bytes 12)))) = Ok (still_onehop o ++ rest).
Proof.
  intros Hw. destruct Hw as [_ [_ _ _ _ L1] [_ _ _ _ L2]].
  pose proof (HopField.hop_len_encode _ L2) as E2. unfold OneHop.encode.
  set (h2 := HopField.encode (OneHop.SecondHop o)) in *.
  change (HopField.encode (OneHop.FirstHop o)) with (HopField.flags (OneHop.FirstHop o) :: drop 1 (HopField.encode (OneHop.FirstHop o))).
  set (h1 := drop 1 (HopField.encode (OneHop.FirstHop o))).
  assert (len h1 = 11) as E1.
  { unfold h1. rewrite len_drop, HopField.hop_len_encode by done. done. }
  set (i := OneHop.Info o).
  change (InfoField.encode i) with ([InfoField.flags i; 0] ++ be_bytes 2 (InfoField.SegID i) ++ be_bytes 4 (InfoField.Timestamp i)).
  set (f := [InfoField.flags i; 0]). set (ts := be_bytes 4 (InfoField.Timestamp i)).
  assert (len f = 2) as Lf by done. assert (len ts = 4) as Lts by done.
  rewrite <- !app_assoc. unfold on_sub_from.
  rewrite (on_sub_suffix f) by (rewrite ?len_app; done). unfold PutUint16. rewrite put_be_app by done. go_cbn.
  replace (f ++ be_bytes 2 0 ++ ts ++ (HopField.flags (OneHop.FirstHop o) :: h1) ++ h2 ++ rest)
    with ((f ++ be_bytes 2 0 ++ ts) ++ HopField.flags (OneHop.FirstHop o) :: (h1 ++ h2 ++ rest))
    by (by rewrite <- !app_assoc).
  rewrite put_app by (rewrite !len_app, len_be_bytes; lia). go_cbn.
  replace ((f ++ be_bytes 2 0 ++ ts) ++ 0 :: h1 ++ h2 ++ rest) with (((f ++ be_bytes 2 0 ++ ts) ++ 0 :: h1) ++ h2 ++ rest)
    by (by rewrite <- !app_assoc).
  rewrite (on_sub_suffix ((f ++ be_bytes 2 0 ++ ts) ++ 0 :: h1)) by (rewrite ?len_app, ?len_cons, ?len_be_bytes; lia).
  rewrite copy_app by (change (length (make_bytes 12)) with 12%nat; unfold len, HopField.HopLen in E2; lia). go_cbn.
  unfold still_onehop. rewrite <- !app_assoc. done.
Qed.

(** Serialising writes the meta header of a raw path to its bytes; it does not
    change a decoded path. *)
Definition keeps_decoded (p p' : Path) : Prop := ∀ D, p = PDecoded D → p' = p.

Lemma zeroOutMutablePath_Ok p b buf :
  authenticates p b → PathLen p ≤ len buf →
  ∃ p', zeroOutMutablePath buf p = (p', Ok (b ++ drop (Z.to_nat (PathLen p)) buf)) ∧ PathLen p' = PathLen p ∧ keeps_decoded p p'.
Proof.
  intros [|D Hw|bs mb ibs hbs Hp Hm|e bs mb ibs hbs Hp Hm He H1 H2|o Hw] Hl; unfold zeroOutMutablePath.
  - exists PEmpty. done.
  - exists (PDecoded D). change (PathLen (PDecoded D)) with (Decoded.Len D) in *. split; [|done].
    cbn [Serialize any_path_ops zoom_path decoded_ops pure_serialize].
    rewrite Decoded.dec_SerializeTo_Ok by done. cbn [wrap_err]. go_cbn.
    destruct (decoded_parts D Hw) as (Hp & -> & ->). by rewrite zeroOutWithBase_Ok.
  - set (r := Raw.mk _ _). exists (PScion (Raw.mk bs (Some (raw_of bs ibs hbs)))). split; [|done].
    change (Serialize buf (PScion r)) with (zoom_path PScion (Raw.SerializeTo buf) r). unfold zoom_path, r.
    rewrite SerializeTo_parts by done. cbn [wrap_err Raw.base]. go_cbn. by rewrite zeroOutWithBase_Ok.
  - change (PathLen (PEpic e)) with (Epic.Len e) in *. unfold Epic.Len in Hl |- *. rewrite He in Hl |- *.
    change (Raw.Len _) with (Base.Len bs) in *. pose proof (len_raw_of _ _ _ Hp) as Er. pose proof (len_nonneg (raw_of bs ibs hbs)).
    unfold Epic.MetadataLen in Hl |- *. destruct (split_len 16 buf) as (m & rest & -> & Lm & _); [lia|].
    rewrite len_app in Hl.
    exists (PEpic (Epic.set_ScionPath (Raw.mk bs (Some (raw_of bs ibs hbs))) e)). split; [|done].
    change (Serialize (m ++ rest) (PEpic e)) with (zoom_path PEpic (Epic.SerializeTo (m ++ rest)) e). unfold zoom_path, Epic.SerializeTo.
    unfold Epic.Len. rewrite He. change (Raw.Len _) with (Base.Len bs). unfold Epic.MetadataLen, Epic.HVFLen.
    replace (_ <? _) with false by (rewrite len_app; lia).
    replace (len (Epic.PHVF e) =? 4) with true by (unfold len; lia). replace (len (Epic.LHVF e) =? 4) with true by (unfold len; lia).
    cbn [negb].
    pose proof (Epic.write_metadata e m rest H1 H2 Lm) as Ew. unfold Epic.PktIDLen, Epic.HVFLen, Epic.MetadataLen in *. rewrite Ew.
    rewrite SerializeTo_parts by (done || lia). pose proof (Epic.len_encode_metadata e H1 H2) as Le. unfold Epic.MetadataLen in Le.
    cbn [mbind outcome_bind]. unfold on_sub_from. rewrite on_sub_suffix by (rewrite ?len_app; lia). go_cbn. cbn [wrap_err]. go_cbn.
    cbn [Epic.set_ScionPath Epic.ScionPath Raw.base]. rewrite on_sub_suffix by (rewrite ?len_app; lia).
    rewrite zeroOutWithBase_Ok by done. go_cbn. rewrite <- app_assoc. do 4 f_equal.
    rewrite Z2Nat.inj_add, <- drop_drop by lia. change (Z.to_nat 16) with 16%nat. f_equal.
    change 16%nat with (Z.to_nat 16). symmetry. by apply drop_len_app.
  - exists (POneHop o). change (PathLen (POneHop o)) with 32 in *. split; [|done].
    cbn [Serialize any_path_ops zoom_path onehop_ops pure_serialize].
    rewrite OneHop.onehop_SerializeTo_Ok by done. cbn [wrap_err]. go_cbn. by rewrite zeroOut_onehop.
Qed.

(** ** The whole input *)

(** The first 20 bytes, for an option with the fields [p]. *)
Definition fixed_input (s : SCION.t) (p : PacketAuth.Params) (pldType : Z) (pld : bytes) (hdrLen : Z) : bytes :=
  [u8 (Z.quot hdrLen AddrType.LineLen); pldType] ++ be_bytes 2 (u16 (len pld)) ++
  [PacketAuth.Algorithm p; 0] ++ OptionsLemmas.encode48 (PacketAuth.TimestampSN p) ++
  be_bytes 4 (Z.lor (Z.lor (u32 (Z.shiftl (Z.land (SCION.Version s) 0xF) 28))
                           (u32 (Z.shiftl (Z.land (SCION.TrafficClass s) 0x3f) 20)))
                    (Z.land (SCION.FlowID s) 0xFFFFF)) ++
  [u8 (SCION.PathType s);
   Z.lor (u8 (Z.shiftl (Z.land (SCION.DstAddrType s) 0xF) 4)) (Z.land (SCION.SrcAddrType s) 0xF)] ++ be_bytes 2 0.

Lemma len_fixed_input s p pldType pld hdrLen : len (fixed_input s p pldType pld hdrLen) = 20.
Proof. unfold fixed_input, OptionsLemmas.encode48. rewrite !len_app, !len_be_bytes. done. Qed.

Record reads (o : TLV.t) (p : PacketAuth.Params) : Prop := {
  reads_SPI : PacketAuth.get_SPI o = Ok (PacketAuth.SPI p);
  reads_Algorithm : PacketAuth.get_Algorithm o = Ok (PacketAuth.Algorithm p);
  reads_TimestampSN : PacketAuth.get_TimestampSN o = Ok (PacketAuth.TimestampSN p)
}.

Lemma put48_writes v : writes (λ m, bigEndianPutUint48 m v) (OptionsLemmas.encode48 v).
Proof.
  intros m Hm. change (len (OptionsLemmas.encode48 v)) with 6 in Hm. do 6 (destruct m as [|? m]; [exfalso; len_lia|]). reflexivity.
Qed.

Ltac tail_side := first [apply put_be_writes | apply put48_writes | apply copy_writes | reflexivity |
  rewrite ?len_be_bytes, ?length_be_bytes, ?len_drop; change (length (OptionsLemmas.encode48 _)) with 6%nat;
  change (len (OptionsLemmas.encode48 _)) with 6; cbn; lia].
Lemma put_fixed_Ok s p o pldType pld buf hdrLen :
  reads o p → 20 ≤ len buf →
  put_fixed s o pldType pld buf hdrLen = Ok (fixed_input s p pldType pld hdrLen ++ drop 20 buf).
Proof.
  intros [_ Ea Et] Hb. unfold put_fixed, fixed_input. cbv zeta.
  change (put buf 0 ?v) with (put ([] ++ buf) 0 v). rewrite put_tail by (done || lia). go_cbn.
  rewrite put_tail by tail_side. go_cbn.
  rewrite (write_tail _ _ (be_bytes 2 (u16 (len pld)))) by tail_side.
  go_cbn. rewrite Ea. go_cbn.
  rewrite put_tail by tail_side. go_cbn.
  rewrite put_tail by tail_side. go_cbn. rewrite Et. go_cbn.
  rewrite (write_window_tail _ _ (OptionsLemmas.encode48 (PacketAuth.TimestampSN p))) by tail_side.
  go_cbn.
  set (line := Z.lor (Z.lor _ _) _).
  rewrite (write_tail _ _ (be_bytes 4 line)) by tail_side.
  go_cbn.
  rewrite put_tail by tail_side. go_cbn.
  rewrite put_tail by tail_side. go_cbn.
  rewrite (write_tail _ _ (be_bytes 2 0)) by tail_side.
  f_equal. rewrite !drop_drop, <- !app_assoc. reflexivity.
Qed.

(** The input in full: what is authenticated besides the payload. *)
Definition covers (p : PacketAuth.Params) (dir : Z) : bool :=
  negb (PacketAuth.IsDRKey (PacketAuth.SPI p)) ||
  (PacketAuth.Type_ (PacketAuth.SPI p) =? PacketAuth.PacketAuthASHost) && (PacketAuth.Direction (PacketAuth.SPI p) =? dir).
Definition address_input (s : SCION.t) (p : PacketAuth.Params) : bytes :=
  (if negb (PacketAuth.IsDRKey (PacketAuth.SPI p)) then be_bytes 8 (SCION.DstIA s) ++ be_bytes 8 (SCION.SrcIA s) else []) ++
  (if covers p PacketAuth.PacketAuthReceiverSide then SCION.RawDstAddr s else []) ++
  (if covers p PacketAuth.PacketAuthSenderSide then SCION.RawSrcAddr s else []).
Definition input_of (s : SCION.t) (p : PacketAuth.Params) (pldType : Z) (pld : bytes) (hdrLen : Z) (path : bytes) : bytes :=
  (fixed_input s p pldType pld hdrLen ++ address_input s p) ++ path.

Lemma append_if_Ok (c : bool) a src rest :
  len src ≤ len rest →
  ∃ rest', append_if c (len a) src (a ++ rest) =
    Ok (len (a ++ if c then src else []), (a ++ if c then src else []) ++ rest') ∧
    len rest' = len rest - len (if c then src else []).
Proof.
  intros Hl. unfold append_if. destruct c; [|exists rest; rewrite app_nil_r, len_nil; split; [done|lia]].
  unfold sub_from. rewrite (sub_suffix a rest) by (rewrite ?len_app; done). go_cbn.
  rewrite (write_tail a rest src (len a) _ (copy_writes src)) by done. go_cbn.
  rewrite Z.min_r, len_app by done. eexists. split; [done|]. rewrite len_drop. unfold len in *. lia.
Qed.

Lemma address_bounds s p :
  len (SCION.RawDstAddr s) = AddrType.Length (SCION.DstAddrType s) → len (SCION.RawSrcAddr s) = AddrType.Length (SCION.SrcAddrType s) →
  len (address_input s p) ≤ SCION.AddrHdrLen s.
Proof.
  intros Hd Hs. unfold SCION.AddrHdrLen. rewrite <- Hd, <- Hs.
  unfold address_input, ISDAS.IABytes. pose proof (len_nonneg (SCION.RawDstAddr s)). pose proof (len_nonneg (SCION.RawSrcAddr s)).
  repeat case_match; len_lia.
Qed.

Lemma addresses_Ok s p a rest :
  len (SCION.RawDstAddr s) = AddrType.Length (SCION.DstAddrType s) → len (SCION.RawSrcAddr s) = AddrType.Length (SCION.SrcAddrType s) →
  SCION.AddrHdrLen s ≤ len rest →
  ∃ rest', (let drkey := PacketAuth.IsDRKey (PacketAuth.SPI p) in
     let asHost dir := (PacketAuth.Type_ (PacketAuth.SPI p) =? PacketAuth.PacketAuthASHost) && (PacketAuth.Direction (PacketAuth.SPI p) =? dir) in
     '(offset, buf) ← (if negb drkey then
                         buf ← on_sub_from (a ++ rest) (len a) (λ m, PutUint64 m (SCION.DstIA s));
                         buf ← on_sub_from buf (len a + 8) (λ m, PutUint64 m (SCION.SrcIA s));
                         Ok (len a + 16, buf)
                       else Ok (len a, a ++ rest));
     '(offset, buf) ← append_if (negb drkey || asHost PacketAuth.PacketAuthReceiverSide) offset (SCION.RawDstAddr s) buf;
     append_if (negb drkey || asHost PacketAuth.PacketAuthSenderSide) offset (SCION.RawSrcAddr s) buf) =
    Ok (len (a ++ address_input s p), (a ++ address_input s p) ++ rest') ∧ len rest' = len rest - len (address_input s p).
Proof.
  intros Hd Hs Hl. unfold SCION.AddrHdrLen, ISDAS.IABytes in Hl. rewrite <- Hd, <- Hs in Hl.
  pose proof (len_nonneg (SCION.RawDstAddr s)). pose proof (len_nonneg (SCION.RawSrcAddr s)).
  cbv zeta beta.
  change (negb (PacketAuth.IsDRKey (PacketAuth.SPI p)) || (PacketAuth.Type_ (PacketAuth.SPI p) =? PacketAuth.PacketAuthASHost) &&
    (PacketAuth.Direction (PacketAuth.SPI p) =? ?dir)) with (covers p dir).
  unfold address_input. set (ias := if negb _ then _ else []).
  assert (∃ rest0, (if negb (PacketAuth.IsDRKey (PacketAuth.SPI p)) then
    buf ← on_sub_from (a ++ rest) (len a) (λ m, PutUint64 m (SCION.DstIA s));
    buf ← on_sub_from buf (len a + 8) (λ m, PutUint64 m (SCION.SrcIA s)); Ok (len a + 16, buf)
    else Ok (len a, a ++ rest)) = Ok (len (a ++ ias), (a ++ ias) ++ rest0) ∧ len rest0 = len rest - len ias ∧ len ias ≤ 16)
    as (rest0 & -> & L0 & Li).
  { unfold ias. destruct (negb _); [|exists rest; rewrite app_nil_r, len_nil; split_and!; [done|lia..]].
    rewrite (write_tail _ _ (be_bytes 8 (SCION.DstIA s))) by tail_side. go_cbn.
    rewrite (write_tail _ _ (be_bytes 8 (SCION.SrcIA s))) by (first [tail_side | len_lia]). go_cbn.
    set (x := be_bytes 8 (SCION.DstIA s)). set (y := be_bytes 8 (SCION.SrcIA s)).
    assert (len x = 8) as Lx by done. assert (len y = 8) as Ly by done. clearbody x y.
    exists (drop (length y) (drop (length x) rest)). rewrite app_assoc, !len_app, !len_drop.
    split_and!; [do 2 f_equal; lia|unfold len in *; lia|lia]. }
  go_cbn. clearbody ias.
  destruct (append_if_Ok (covers p PacketAuth.PacketAuthReceiverSide) (a ++ ias) (SCION.RawDstAddr s) rest0) as (rest1 & -> & L1); [lia|].
  go_cbn. set (dst := if covers p PacketAuth.PacketAuthReceiverSide then _ else _) in *.
  assert (len dst ≤ len (SCION.RawDstAddr s)) by (unfold dst; case_match; rewrite ?len_nil; lia).
  destruct (append_if_Ok (covers p PacketAuth.PacketAuthSenderSide) ((a ++ ias) ++ dst) (SCION.RawSrcAddr s) rest1) as (rest2 & -> & L2); [lia|].
  exists rest2. rewrite <- !app_assoc. split; [done|]. rewrite L2, L1, L0. len_lia.
Qed.

Lemma serializeAuthenticatedData_Ok s o p pldType pld buf path b (hdrLen := SCION.CmnHdrLen + SCION.AddrHdrLen s + PathLen path) :
  reads o p → SCION.Path s = Some path → authenticates path b →
  len (SCION.RawDstAddr s) = AddrType.Length (SCION.DstAddrType s) → len (SCION.RawSrcAddr s) = AddrType.Length (SCION.SrcAddrType s) →
  hdrLen ≤ SCION.MaxHdrLen → Z.rem hdrLen AddrType.LineLen = 0 → MACBufferSize ≤ len buf →
  ∃ path' rest, serializeAuthenticatedData buf o pldType pld s =
    (SCION.set_Path path' s, Ok (input_of s p pldType pld hdrLen b ++ rest, len (input_of s p pldType pld hdrLen b))) ∧
    len (input_of s p pldType pld hdrLen b ++ rest) = len buf ∧ keeps_decoded path path'.
Proof.
  intros Ho Hp Hb Hd Hs Hl Hr Hbuf. unfold serializeAuthenticatedData. unfold MACBufferSize in *.
  destruct (lookup_lt_is_Some_2 buf (Z.to_nat (1032 - 1))) as [x Hx]; [unfold len in Hbuf; lia|].
  rewrite (get_Ok buf (1032 - 1) x) by done. rewrite Hp. cbv zeta. fold hdrLen.
  rewrite (proj2 (Z.ltb_ge _ _) Hl). rewrite Hr. cbn [fail_if negb Z.eqb]. go_cbn.
  rewrite (put_fixed_Ok s p o) by (done || lia). go_cbn. rewrite (reads_SPI _ _ Ho). go_cbn.
  pose proof (address_bounds s p Hd Hs) as Ha. pose proof (authenticates_len _ _ Hb) as Lb. pose proof (len_nonneg b).
  change fixAuthDataInputLen with 20. rewrite <- (len_fixed_input s p pldType pld hdrLen). unfold input_of.
  set (f := fixed_input s p pldType pld hdrLen). assert (len f = 20) as Lf by apply len_fixed_input. clearbody f.
  unfold SCION.MaxHdrLen, SCION.CmnHdrLen in *.
  destruct (addresses_Ok s p f (drop 20 buf) Hd Hs) as (rest & Er & Lr); [rewrite len_drop; lia|].
  cbv zeta in Er. rewrite Er. clear Er. set (a := f ++ address_input s p) in *. rewrite len_drop in Lr.
  unfold sub_from. rewrite (sub_suffix a rest) by (rewrite ?len_app; done). go_cbn.
  destruct (zeroOutMutablePath_Ok path b rest Hb) as (path' & -> & Hp' & Hk); [lia|]. go_cbn.
  unfold on_sub_from. rewrite on_sub_suffix by (rewrite ?len_app; done). go_cbn.
  exists path', (drop (Z.to_nat (PathLen path)) rest). rewrite <- app_assoc, Hp', <- Lb, (len_app a b). split; [reflexivity|].
  split; [|exact Hk].
  rewrite app_assoc, len_app, len_app, len_drop. unfold a. rewrite len_app. unfold len in *. lia.
Qed.

End SpaoLemmas.

(** * The properties of the authenticator *)
Module SpaoProperties.

Import Spao SpaoLemmas.

Definition hdr_len (s : SCION.t) (path : Path) : Z := SCION.CmnHdrLen + SCION.AddrHdrLen s + PathLen path.

(** A packet that can be authenticated: [b] stands for its path. *)
Record authenticable (s : SCION.t) (p : PacketAuth.Params) (pldType : Z) (path : Path) (b : bytes) : Prop := {
  au_fields : ScionHdrLemmas.wf_fields s;
  au_path : SCION.Path s = Some path;
  au_bytes : authenticates path b;
  au_max : hdr_len s path ≤ SCION.MaxHdrLen;
  au_lines : Z.rem (hdr_len s path) AddrType.LineLen = 0;
  au_option : OptionsLemmas.wf_params p;
  au_timestamp : PacketAuth.TimestampSN p < 2 ^ 48;
  au_pldType : is_u8 pldType
}.

(** The first header line in arithmetic: what it keeps of the traffic class is
    its remainder modulo 64. *)
Lemma first_line s :
  ScionHdrLemmas.wf_fields s →
  Z.lor (Z.lor (u32 (Z.shiftl (Z.land (SCION.Version s) 0xF) 28)) (u32 (Z.shiftl (Z.land (SCION.TrafficClass s) 0x3f) 20)))
        (Z.land (SCION.FlowID s) 0xFFFFF) =
  SCION.Version s * 2 ^ 28 + SCION.TrafficClass s mod 64 * 2 ^ 20 + SCION.FlowID s.
Proof.
  intros [].
  rewrite ScionHdrLemmas.land_15 by done. change 0xFFFFF with (2 ^ 20 - 1). change 0x3f with (2 ^ 6 - 1).
  rewrite !land_ones_mod, (Z.mod_small (SCION.FlowID s)) by lia.
  rewrite !Z.shiftl_mul_pow2 by lia. change (2 ^ 6) with 64. uint_bounds.
  pose proof (Z.mod_pos_bound (SCION.TrafficClass s) 64).
  rewrite !(uint_of_small 32) by (split; lia).
  rewrite (lor_disjoint_add (_ * _) _ 28) by dlia.
  rewrite (lor_disjoint_add (_ + _) _ 20) by dlia. done.
Qed.

Lemma types_byte s :
  ScionHdrLemmas.wf_fields s →
  Z.lor (u8 (Z.shiftl (Z.land (SCION.DstAddrType s) 0xF) 4)) (Z.land (SCION.SrcAddrType s) 0xF) =
  SCION.DstAddrType s * 16 + SCION.SrcAddrType s.
Proof.
  intros []. rewrite !ScionHdrLemmas.land_15 by done. rewrite !Z.shiftl_mul_pow2 by lia.
  rewrite (uint_of_small 8) by (split; lia). by rewrite (lor_disjoint_add (_ * _) _ 4) by dlia.
Qed.

Lemma fixed_input_inj s p t pld path b s' p' t' pld' path' b' r r' :
  authenticable s p t path b → authenticable s' p' t' path' b' →
  fixed_input s p t pld (hdr_len s path) ++ r = fixed_input s' p' t' pld' (hdr_len s' path') ++ r' →
  (t = t' ∧ PacketAuth.Algorithm p = PacketAuth.Algorithm p' ∧ PacketAuth.TimestampSN p = PacketAuth.TimestampSN p') ∧
  (SCION.Version s = SCION.Version s' ∧ SCION.TrafficClass s mod 64 = SCION.TrafficClass s' mod 64 ∧
   SCION.FlowID s = SCION.FlowID s' ∧ SCION.PathType s = SCION.PathType s' ∧
   SCION.DstAddrType s = SCION.DstAddrType s' ∧ SCION.SrcAddrType s = SCION.SrcAddrType s') ∧
  hdr_len s path = hdr_len s' path' ∧ u16 (len pld) = u16 (len pld') ∧ r = r'.
Proof.
  intros [W _ Hb M R [_ A1 T1 _] T _] [W' _ Hb' M' R' [_ A1' T1' _] T' _] E.
  assert (∀ s path b, authenticates path b → 0 ≤ hdr_len s path) as Hpos.
  { clear. intros s path b H. pose proof (authenticates_len _ _ H). pose proof (len_nonneg b).
    pose proof (ScionHdrLemmas.AddrHdrLen_range s). unfold hdr_len, SCION.CmnHdrLen. lia. }
  pose proof (Hpos s _ _ Hb) as P. pose proof (Hpos s' _ _ Hb') as P'. clear Hpos.
  set (h := hdr_len s path) in *. set (h' := hdr_len s' path') in *. clearbody h h'.
  unfold fixed_input in E. rewrite <- !app_assoc, !first_line, !types_byte in E by done.
  apply (app_inj_1 [_; _] [_; _]) in E as [[= E1 Et] E]; [|done].
  apply app_inj_1 in E as [E2 E]; [|by rewrite !length_be_bytes].
  apply (app_inj_1 [_; _] [_; _]) in E as [[= E3] E]; [|done].
  apply app_inj_1 in E as [E4 E]; [|done].
  apply app_inj_1 in E as [E5 E]; [|by rewrite !length_be_bytes].
  apply (app_inj_1 [_; _] [_; _]) in E as [[= E6 E7] E]; [|done].
  apply app_inj_1 in E as [_ E]; [|by rewrite !length_be_bytes].
  assert (PacketAuth.TimestampSN p = PacketAuth.TimestampSN p') as Ets.
  { pose proof (f_equal PacketAuth.bigEndianUint48 E4) as Eb. rewrite !OptionsLemmas.get48_encode48 in Eb by (uint_bounds; lia).
    by injection Eb. }
  destruct W, W'. uint_bounds.
  pose proof (Z.mod_pos_bound (SCION.TrafficClass s) 64). pose proof (Z.mod_pos_bound (SCION.TrafficClass s') 64).
  apply be_bytes_inj in E2, E5; [|change (256 ^ Z.of_nat 4) with (2 ^ 32); lia..|apply uint_of_range; lia|apply uint_of_range; lia].
  unfold AddrType.LineLen, SCION.MaxHdrLen in *.
  rewrite !Z.quot_div_nonneg in E1 by lia. rewrite !Z.rem_mod_nonneg in R, R' by lia.
  rewrite !(uint_of_small 8) in E1 by (split; dlia). rewrite !(uint_of_small 8) in E6 by (split; lia).
  split_and!; try done; dlia.
Qed.

Section cmac.
Context (aes_Encrypt : bytes → bytes → bytes) (cmac_Sum : (bytes → bytes) → bytes → bytes).

Lemma ComputeAuthCMAC_runs key block s o p pldType pld buf path b :
  AES.NewCipher aes_Encrypt key = Ok block → reads o p → ScionHdrLemmas.wf_fields s → SCION.Path s = Some path →
  authenticates path b → hdr_len s path ≤ SCION.MaxHdrLen → Z.rem (hdr_len s path) AddrType.LineLen = 0 → MACBufferSize ≤ len buf →
  ∃ path' rest, ComputeAuthCMAC aes_Encrypt cmac_Sum (mkInput key o s pldType pld) buf =
    (SCION.set_Path path' s,
     Ok (input_of s p pldType pld (hdr_len s path) b ++ rest, cmac_Sum block (input_of s p pldType pld (hdr_len s path) b ++ pld))) ∧
    len (input_of s p pldType pld (hdr_len s path) b ++ rest) = len buf ∧ keeps_decoded path path'.
Proof.
  intros Hk Ho [] Hp Hb Hm Hr Hbuf.
  destruct (serializeAuthenticatedData_Ok s o p pldType pld buf path b Ho Hp Hb) as (path' & rest & E & El);
    [apply wf_RawDstAddr|apply wf_RawSrcAddr|exact Hm|exact Hr|exact Hbuf|].
  exists path', rest. unfold ComputeAuthCMAC, initCMAC. cbn [Key ScionLayer Header PldType Pld]. rewrite Hk. cbn [wrap_err].
  rewrite E. go_cbn. fold (hdr_len s path). rewrite sub_prefix by done. split; [done|exact El].
Qed.

Lemma ComputeAuthCMAC_Ok key block s o p pldType pld buf path b :
  AES.NewCipher aes_Encrypt key = Ok block → reads o p → authenticable s p pldType path b → MACBufferSize ≤ len buf →
  ∃ path' rest, ComputeAuthCMAC aes_Encrypt cmac_Sum (mkInput key o s pldType pld) buf =
    (SCION.set_Path path' s,
     Ok (input_of s p pldType pld (hdr_len s path) b ++ rest, cmac_Sum block (input_of s p pldType pld (hdr_len s path) b ++ pld))) ∧
    len (input_of s p pldType pld (hdr_len s path) b ++ rest) = len buf ∧ keeps_decoded path path'.
Proof. intros Hk Ho [] Hbuf. by eapply ComputeAuthCMAC_runs. Qed.
End cmac.

Lemma addresses_inj s p s' p' b b' r r' :
  ScionHdrLemmas.wf_fields s → ScionHdrLemmas.wf_fields s' → PacketAuth.SPI p = PacketAuth.SPI p' →
  SCION.DstAddrType s = SCION.DstAddrType s' → SCION.SrcAddrType s = SCION.SrcAddrType s' → len b = len b' →
  address_input s p ++ b ++ r = address_input s' p' ++ b' ++ r' →
  (PacketAuth.IsDRKey (PacketAuth.SPI p) = false → SCION.DstIA s = SCION.DstIA s' ∧ SCION.SrcIA s = SCION.SrcIA s') ∧
  (covers p PacketAuth.PacketAuthReceiverSide = true → SCION.RawDstAddr s = SCION.RawDstAddr s') ∧
  (covers p PacketAuth.PacketAuthSenderSide = true → SCION.RawSrcAddr s = SCION.RawSrcAddr s') ∧ b = b' ∧ r = r'.
Proof.
  intros [] [] Es Ed1 Es1 Lb E. unfold address_input in E. rewrite <- !app_assoc in E.
  assert (∀ dir, covers p' dir = covers p dir) as Ec by (intros; unfold covers; by rewrite Es).
  rewrite <- Es, !Ec in E. destruct wf_RawDstAddr as [_ L1], wf_RawDstAddr0 as [_ L1'], wf_RawSrcAddr as [_ L2], wf_RawSrcAddr0 as [_ L2'].
  rewrite Ed1 in L1. rewrite Es1 in L2. unfold len in L1, L1', L2, L2', Lb.
  apply app_inj_1 in E as [E1 E]; [|case_match; by rewrite ?length_app, ?length_be_bytes].
  apply app_inj_1 in E as [E2 E]; [|case_match; [lia|done]].
  apply app_inj_1 in E as [E3 E]; [|case_match; [lia|done]].
  apply app_inj_1 in E as [E4 E5]; [|lia].
  split_and!; try done.
  - intros Hn. rewrite Hn in E1. cbn [negb] in E1. apply app_inj_1 in E1 as [E0 E1]; [|by rewrite !length_be_bytes].
    by apply be_bytes_inj in E0, E1.
  - intros Hc. by rewrite Hc in E2.
  - intros Hc. by rewrite Hc in E3.
Qed.


(** ** A packet at work *)

Definition hop_w : HopField.t := HopField.mk true false 63 1 2 [1; 2; 3; 4; 5; 6].
Definition path_w : Decoded.t :=
  Decoded.mk (Base.mk (MetaHdr.mk 0 1 2 0 0) 1 2) [InfoField.mk false true 7 100] [hop_w; hop_w].
Definition scion_w : SCION.t :=
  SCION.mk 0 5 77 17 0 8 1 0 0 1 2 [10; 0; 0; 1] [10; 0; 0; 2] (Some (PDecoded path_w)) None [] [].
Definition params_w : PacketAuth.Params := PacketAuth.mkParams 1 0 123456 (make_bytes 16).
Definition option_w : TLV.t := (PacketAuth.NewPacketAuthOption params_w).1.

Lemma params_w_wf : OptionsLemmas.wf_params params_w.
Proof. split; try done. repeat constructor; done. Qed.

Lemma authenticable_w : authenticable scion_w params_w 17 (PDecoded path_w) (Decoded.encode (still path_w)).
Proof.
  split; [|done| |done|done|exact params_w_wf|done|done].
  - split; try done; split; try done; repeat constructor; done.
  - constructor. split; [|done|done| |]; repeat constructor; done.
Qed.

(** The same packet at another router, and with another codepoint. *)
Definition path_w' : Decoded.t :=
  Decoded.mk (Base.mk (MetaHdr.mk 0 0 2 0 0) 1 2) [InfoField.mk false true 9 100] [hop_w; still_hop hop_w].
Definition scion_w' : SCION.t :=
  SCION.mk 0 69 77 17 0 8 1 0 0 1 2 [10; 0; 0; 1] [10; 0; 0; 2] (Some (PDecoded path_w')) None [] [].
Lemma authenticable_w' : authenticable scion_w' params_w 17 (PDecoded path_w') (Decoded.encode (still path_w')).
Proof.
  split; [|done| |done|done|exact params_w_wf|done|done].
  - split; try done; split; try done; repeat constructor; done.
  - constructor. split; [|done|done| |]; repeat constructor; done.
Qed.


End SpaoProperties.

(** * private/drkey/drkeyutil: the keys that a receiver tries *)
Module KeyWindow.

Import Spao.
Definition Second : Z := DRKeyProvider.Second.

(** Points in time and durations are nanoseconds. *)
Record Epoch := mkEpoch {
  NotBefore : Z;
  NotAfter : Z
}.
Record ASHostKey := mkASHostKey {
  Key : bytes;
  KeyEpoch : Epoch
}.
Record FakeProvider := mkProvider {
  EpochDuration : Z;
  AcceptanceWindow : Z
}.

Definition SecsToTime (t : Z) : Z := t * Second.
Definition NewEpoch (begin_ end_ : Z) : Epoch := mkEpoch (SecsToTime begin_) (SecsToTime end_).
Definition Contains (v : Epoch) (t : Z) : bool := negb (t <? NotBefore v) && negb (NotAfter v <? t).

Definition newEpoch (idx duration : Z) : Epoch :=
  let begin_ := u32 (idx * duration) in
  let end_ := u32 (begin_ + u32 duration) in
  NewEpoch begin_ end_.

(** [validTime.Unix() / duration], which divides by zero when the epoch is shorter
    than a second. *)
Definition epoch_index (p : FakeProvider) (validTime : Z) : outcome (Z * Z) :=
  let duration := Z.quot (EpochDuration p) Second in
  if duration =? 0 then Panic else Ok (Z.quot (validTime / Second) duration, duration).

Definition GetASHostKey (p : FakeProvider) (validTime : Z) : outcome ASHostKey :=
  '(idxCurrent, duration) ← epoch_index p validTime;
  Ok (mkASHostKey (make_bytes 16) (newEpoch idxCurrent duration)).

Definition getASHostTriple (p : FakeProvider) (validTime : Z) : outcome (list ASHostKey) :=
  '(idxCurrent, duration) ← epoch_index p validTime;
  Ok [mkASHostKey (make_bytes 16) (newEpoch (idxCurrent - 1) duration);
      mkASHostKey (make_bytes 16) (newEpoch idxCurrent duration);
      mkASHostKey (make_bytes 16) (newEpoch (idxCurrent + 1) duration)].

Definition GetKeyWithinAcceptanceWindow (p : FakeProvider) (t timestamp : Z) : outcome ASHostKey :=
  keys ← getASHostTriple p t;
  let validity := mkEpoch (t + - Z.quot (AcceptanceWindow p) 2) (t + Z.quot (AcceptanceWindow p) 2) in
  previous ← get keys 0;
  current ← get keys 1;
  next ← get keys 2;
  let abs k := AbsoluteTimestamp (NotBefore (KeyEpoch k)) timestamp in
  if Contains validity (abs current) then Ok current
  else if Contains validity (abs previous) then Ok previous
  else if Contains validity (abs next) then Ok next
  else Err (New "no absTime falls into the acceptance window").

End KeyWindow.

(** * The properties of the acceptance window *)
Module KeyWindowProperties.

Import Spao KeyWindow.

(** Epochs of [n] seconds that 32-bit seconds can tell, around the time [t]. *)
Record sane (p : FakeProvider) (n t : Z) : Prop := {
  sane_duration : EpochDuration p = n * Second;
  sane_pos : 0 < n;
  sane_rel : n * Second ≤ 2 ^ 48;
  sane_window : 0 ≤ AcceptanceWindow p < n * Second;
  sane_past : n * Second ≤ t;
  sane_future : t + 2 * (n * Second) < 2 ^ 32 * Second
}.

Lemma newEpoch_NotBefore n idx : 0 < n → 0 ≤ idx → idx * n < 2 ^ 32 → NotBefore (newEpoch idx n) = idx * (n * Second).
Proof. intros. unfold newEpoch. cbn. unfold SecsToTime. rewrite uint_of_small by (split; nia). lia. Qed.

Lemma epoch_index_Ok p n t :
  0 < n → EpochDuration p = n * Second → 0 ≤ t → epoch_index p t = Ok (t / (n * Second), n).
Proof.
  intros Hn Hd Ht. unfold epoch_index. cbv zeta. rewrite Hd, Z.quot_mul by done. replace (n =? 0) with false by lia.
  unfold Second, DRKeyProvider.Second in *. rewrite Z.quot_div_nonneg by (try apply Z.div_pos; lia).
  rewrite Z.div_div, (Z.mul_comm 1000000000) by lia. done.
Qed.

Lemma AbsoluteTimestamp_small nb r : 0 ≤ r < 2 ^ 63 → AbsoluteTimestamp nb r = nb + r.
Proof. intros. unfold AbsoluteTimestamp. rewrite uint_of_small by (split; lia). cbv zeta. by replace (r <? 2 ^ 63) with true by lia. Qed.

Lemma Contains_spec v t : Contains v t = true ↔ NotBefore v ≤ t ≤ NotAfter v.
Proof. unfold Contains. lia. Qed.

(** C33: The acceptance window.  A key that the receiver picks puts the timestamp
    into the window around its clock.  With an acceptance window shorter than the
    epoch, a packet whose sender used the key of its epoch and stamped it with the
    time since the epoch began is accepted, with the key of the sender's epoch, by
    every receiver whose clock is within half the window of the sender's. *)
Theorem acceptance_window p n sent now rel key :
  sane p n sent → sane p n now →
  (GetKeyWithinAcceptanceWindow p now rel = Ok key →
   Z.abs (AbsoluteTimestamp (NotBefore (KeyEpoch key)) rel - now) ≤ AcceptanceWindow p / 2) ∧
  (Z.abs (sent - now) ≤ AcceptanceWindow p / 2 →
   ∃ key rel, GetASHostKey p sent = Ok key ∧ RelativeTimestamp (NotBefore (KeyEpoch key)) sent = Ok rel ∧
     GetKeyWithinAcceptanceWindow p now rel = Ok key ∧ AbsoluteTimestamp (NotBefore (KeyEpoch key)) rel = sent).
Proof.
  intros [Hd Hn Hr Hw Hp Hf] [_ _ _ _ Hp' Hf']. set (D := n * Second) in *.
  assert (0 < D) as HD by (unfold D, Second, DRKeyProvider.Second; lia).
  unfold GetKeyWithinAcceptanceWindow, getASHostTriple, GetASHostKey. rewrite !(epoch_index_Ok p n) by (done || lia).
  fold D. go_cbn. rewrite Z.quot_div_nonneg by lia. set (w := AcceptanceWindow p / 2) in *.
  assert (0 ≤ w ∧ 2 * w < D) as [Hw0 HwD] by (unfold w; dlia).
  set (i := sent / D). set (j := now / D).
  change (get [?a; ?b; ?c] 0) with (Ok a). change (get [?a; ?b; ?c] 1) with (Ok b). change (get [?a; ?b; ?c] 2) with (Ok c).
  go_cbn. cbn [KeyEpoch].
  split.
  { repeat case_match; intros [=]; subst key; cbn [KeyEpoch];
      match goal with H : Contains _ _ = true |- _ => apply Contains_spec in H; cbn [NotBefore NotAfter] in H; lia end. }
  intros Hsn.
  assert (i * D ≤ sent < i * D + D) as Hi by (unfold i; dlia).
  assert (j * D ≤ now < j * D + D) as Hj by (unfold j; dlia).
  assert (0 < Second) as HS by done.
  assert (1 ≤ i ∧ 1 ≤ j) as [Hi1 Hj1] by nia.
  assert (∀ k, 0 ≤ k → k * D < 2 ^ 32 * Second → NotBefore (newEpoch k n) = k * D) as Hnb.
  { intros k Hk Hkd. rewrite newEpoch_NotBefore; [done|lia..|]. unfold D in Hkd. nia. }
  rewrite !Hnb by nia. 
  eexists. exists (sent - i * D). split; [done|]. cbn [KeyEpoch].
  split. { unfold RelativeTimestamp. rewrite Hnb by nia. cbv zeta. change (Z.shiftl 1 48) with (2 ^ 48).
    rewrite (Z.min_r (2 ^ 63 - 1)), Z.max_r by lia. replace (_ <=? _) with false by lia. rewrite uint_of_small by (split; lia). done. }
  rewrite !Hnb by nia. rewrite !AbsoluteTimestamp_small by lia. split; [|lia].
  set (W := mkEpoch _ _).
  assert (∀ k, Contains W (k * D + (sent - i * D)) = bool_decide (k = i)) as HW.
  { intros k. unfold Contains, W. cbn [NotBefore NotAfter]. destruct (decide (k = i)) as [->|Hk].
    - rewrite bool_decide_eq_true_2 by done. lia.
    - rewrite bool_decide_eq_false_2 by done. assert (k ≤ i - 1 ∨ i + 1 ≤ k) as [] by lia; [assert (k * D ≤ (i - 1) * D) by nia|assert ((i + 1) * D ≤ k * D) by nia]; lia. }
  rewrite !HW. assert (i = j ∨ i = j - 1 ∨ i = j + 1) as [-> | [-> | ->]] by nia; repeat case_bool_decide; done || lia.
Qed.

Lemma acceptance_window_witness :
  let p := mkProvider (86400 * Second) (300 * Second) in
  ∃ key rel, GetASHostKey p (864000 * Second - 1) = Ok key ∧
    GetKeyWithinAcceptanceWindow p (864000 * Second + 7) rel = Ok key ∧
    AbsoluteTimestamp (NotBefore (KeyEpoch key)) rel = 864000 * Second - 1.
Proof.
  destruct (acceptance_window (mkProvider (86400 * Second) (300 * Second)) 86400 (864000 * Second - 1) (864000 * Second + 7) 0
    (mkASHostKey [] (mkEpoch 0 0))) as [_ H]; [split; vm_compute; try split; congruence..|].
  destruct H as (key & rel & E1 & _ & E3 & E4); [vm_compute; discriminate|].
  exists key, rel. split; [exact E1|]. split; [exact E3|exact E4].
Defined.

End KeyWindowProperties.
