(* ===== verification/RouterConfig.v ===== *)
(** The configuration of the border router, [router/dataplane.go]: the table of
    service addresses of [router/svc.go] (Module [Services]), the choice of a
    processor by a hash of the flow, [router/fnv1aCheap.go] and [computeProcID]
    (Module [FlowHash]), and the state of the data plane with the operations
    that set it up (Module [DataPlane]). *)
From S2P Require Export Drkey Scmp.

(** * net: what the code uses of it *)
Module Net.

(** [net.UDPAddr]; [IP] is a [net.IP], of 4 or of 16 bytes. *)
Record UDPAddr := mkUDP {
  IP : bytes;
  Port : Z
}.

#[export] Instance UDPAddr_eq_dec : EqDecision UDPAddr.
Proof. solve_decision. Defined.

(** [net.IP.Equal]: an IPv4 address and its IPv6-mapped form are equal. *)
Definition IP_Equal (a b : bytes) : bool :=
  if len a =? len b then bool_decide (a = b)
  else if (len a =? 4) && (len b =? 16) then bool_decide (b = Addr.IP.mapped_prefix ++ a)
  else if (len a =? 16) && (len b =? 4) then bool_decide (a = Addr.IP.mapped_prefix ++ b)
  else false.

(** [To4]: the 4-byte form of an address, if it has one. *)
Definition To4 (ip : bytes) : option bytes :=
  if len ip =? 4 then Some ip
  else if (len ip =? 16) && bool_decide (take 12 ip = Addr.IP.mapped_prefix) then Some (drop 12 ip)
  else None.

(** [net.IPNet] with a canonical mask of [ones] bits. *)
Record IPNet := mkIPNet {
  NetIP : bytes;
  ones : Z
}.

(** The first [n] bits of [a] and [b] agree. *)
Definition same_prefix (n : Z) (a b : bytes) : bool :=
  let bits := 8 * len a in
  (len a =? len b) && (be_val a / 2 ^ (bits - n) =? be_val b / 2 ^ (bits - n)).

(** [IPNet.Contains] *)
Definition Contains (n : IPNet) (ip : bytes) : bool :=
  same_prefix (ones n) (default (NetIP n) (To4 (NetIP n))) (default ip (To4 ip)).

End Net.

(** * svc.go *)
Module Services.

Import Net.

(** Addresses are shared with the caller: a pointer is a location, and [mem] is
    what is stored there.  [m] lists, for each service, the registered pointers. *)
Record t := mk {
  m : gmap Z (list nat);
  mem : gmap nat UDPAddr
}.

Definition deref (s : t) (p : nat) : outcome UDPAddr :=
  match mem s !! p with Some a => Ok a | None => Panic end.

Definition addrs_of (s : t) (svc : Z) : list nat := default [] (m s !! svc).

(** [a.IP.Equal(o.IP) && a.Port == o.Port] *)
Definition same_addr (a o : UDPAddr) : bool := IP_Equal (IP a) (IP o) && (Port a =? Port o).

Fixpoint index_from (s : t) (a : UDPAddr) (i : Z) (addrs : list nat) : outcome (option Z) :=
  match addrs with
  | [] => Ok None
  | p :: addrs =>
      o ← deref s p;
      if same_addr a o then Ok (Some i) else index_from s a (i + 1) addrs
  end.
Definition index (s : t) (a : UDPAddr) (addrs : list nat) : outcome (option Z) := index_from s a 0 addrs.

Definition set_addrs (svc : Z) (addrs : list nat) (s : t) : t := mk (<[svc:=addrs]> (m s)) (mem s).

Definition AddSvc (svc : Z) (p : nat) : SE t unit := λ s,
  let addrs := addrs_of s svc in
  match (a ← deref s p; index s a addrs) with
  | Ok (Some _) => (s, Ok tt)
  | Ok None => (set_addrs svc (addrs ++ [p]) s, Ok tt)
  | Err e => (s, Err e)
  | Panic => (s, Panic)
  end.

Definition DelSvc (svc : Z) (p : nat) : SE t unit := λ s,
  let addrs := addrs_of s svc in
  match (a ← deref s p;
         i ← index s a addrs;
         match i with
         | None => Ok None
         | Some i =>
             last ← get addrs (len addrs - 1);
             addrs ← put addrs i last;
             addrs ← sub addrs 0 (len addrs - 1);
             Ok (Some addrs)
         end) with
  | Ok None => (s, Ok tt)
  | Ok (Some addrs) => (set_addrs svc addrs s, Ok tt)
  | Err e => (s, Err e)
  | Panic => (s, Panic)
  end.

(** [intn n] is the value that [mrand.Intn(n)] returns; it panics for [n <= 0]. *)
Definition Any (intn : Z → Z) (s : t) (svc : Z) : outcome (option nat) :=
  let addrs := addrs_of s svc in
  if len addrs =? 0 then Ok None else p ← get addrs (intn (len addrs)); Ok (Some p).

End Services.

(** * fnv1aCheap.go, computeProcID *)
Module FlowHash.

Definition fnv1aOffset32 : Z := 2166136261.

Definition hashFNV1a (state c : Z) : Z := u32 (Z.lxor state c * 16777619).

Definition errShortPacket : error := New "Packet is too short".

Definition computeProcID (data : bytes) (numProcRoutines hashSeed : Z) : outcome Z :=
  _ ← fail_if (len data <? SCION.CmnHdrLen) errShortPacket;
  b9 ← get data 9;
  let dstHostAddrLen := AddrType.Length (Z.land (Z.shiftr b9 4) 0xf) in
  let srcHostAddrLen := AddrType.Length (Z.land b9 0xf) in
  let addrHdrLen := 2 * ISDAS.IABytes + srcHostAddrLen + dstHostAddrLen in
  _ ← fail_if (len data <? SCION.CmnHdrLen + addrHdrLen) errShortPacket;
  b1 ← get data 1;
  let s := hashFNV1a hashSeed (Z.land b1 0xF) in
  flow ← sub data 2 4;
  let s := foldl hashFNV1a s flow in
  addrs ← sub data SCION.CmnHdrLen (SCION.CmnHdrLen + addrHdrLen);
  let s := foldl hashFNV1a s addrs in
  if u32 numProcRoutines =? 0 then Panic else Ok (s mod u32 numProcRoutines).

End FlowHash.

(** * pkg/scrypto/mac.go *)
Module Scrypto.

Section mac.
(** [cmac_New block] is the keyed hash that package [cmac] makes of a block cipher. *)
Context (aes_Encrypt : bytes → bytes → bytes) (cmac_New : (bytes → bytes) → outcome (bytes → bytes)).

Definition InitMac (key : bytes) : outcome (bytes → bytes) :=
  block ← wrap_err "Unable to initialize AES cipher" (AES.NewCipher aes_Encrypt key);
  wrap_err "Unable to initialize Mac" (cmac_New block).
End mac.

End Scrypto.

(** * dataplane.go: configuration *)
Module DataPlane.

Import Net.

(** Link types of [private/topology/linktype.go]. *)
Definition Unset : Z := 0.
Definition Core : Z := 1.
Definition Parent : Z := 2.
Definition Child : Z := 3.
Definition Peer : Z := 4.

Definition EndhostPort : Z := 30041.
Definition hopFieldDefaultExpTime : Z := 63.

(** A [BatchConn] is an interface value; only its identity matters here. *)
Definition BatchConn : Type := nat.

(** [control.LinkEnd] and [control.BFD]; [None] is a nil pointer. *)
Record LinkEnd := mkLinkEnd {
  IA : Z;
  Addr : option UDPAddr
}.
Record BFDcfg := mkBFD {
  Disable : option bool;
  DetectMult : Z;
  DesiredMinTxInterval : Z;
  RequiredMinRxInterval : Z
}.

(** [bfdSend]: the connection, the underlay addresses and the header of the
    messages; the one-hop path, if there is one, is the path of that header. *)
Record bfdSend := mkSend {
  conn : option BatchConn;
  srcAddr : UDPAddr;
  dstAddr : UDPAddr;
  scn : SCION.t
}.

(** [bfd.Session], as it is configured. *)
Record Session := mkSession {
  Sender : bfdSend;
  sDetectMult : Z;
  sDesiredMinTxInterval : Z;
  sRequiredMinRxInterval : Z;
  LocalDiscriminator : Z
}.

(** [control.PolicyIPRange] *)
Record PolicyIPRange := mkRange {
  MPLSLabel : Z;
  IPPrefix : IPNet
}.

(** [DataPlane].  A nil map reads like an empty one and is allocated before it is
    written, so both are the empty map.  [macFactory] is the keyed hash that the
    factory creates.  BFD sessions are shared: [bfdSessions] maps an interface to
    an index of [sessions].  [svc] is nil until the first service is added. *)
Record t := mk {
  interfaces : gmap Z BatchConn;
  external : gmap Z BatchConn;
  linkTypes : gmap Z Z;
  neighborIAs : gmap Z Z;
  peerInterfaces : gmap Z Z;
  internal : option BatchConn;
  internalIP : Addr.IP.t;
  internalNextHops : gmap Z UDPAddr;
  svc : option Services.t;
  macFactory : option (bytes → bytes);
  bfdSessions : gmap Z nat;
  sessions : list Session;
  localIA : Z;
  running : bool;
  drkeys : DRKeyProvider.t;
  fabridPolicyIPRangeMap : gmap Z (list PolicyIPRange);
  fabridPolicyInterfaceMap : gmap Z Z;
  dispatchedPortStart : Z;
  dispatchedPortEnd : Z
}.

Definition zero : t :=
  mk ∅ ∅ ∅ ∅ ∅ None IP.Invalid ∅ None None ∅ [] 0 false DRKeyProvider.zero ∅ ∅ 0 0.

Definition set_localIA (ia : Z) (d : t) : t :=
  mk (interfaces d) (external d) (linkTypes d) (neighborIAs d) (peerInterfaces d) (internal d)
    (internalIP d) (internalNextHops d) (svc d) (macFactory d) (bfdSessions d) (sessions d) ia
    (running d) (drkeys d) (fabridPolicyIPRangeMap d) (fabridPolicyInterfaceMap d)
    (dispatchedPortStart d) (dispatchedPortEnd d).
Definition set_macFactory (h : bytes → bytes) (d : t) : t :=
  mk (interfaces d) (external d) (linkTypes d) (neighborIAs d) (peerInterfaces d) (internal d)
    (internalIP d) (internalNextHops d) (svc d) (Some h) (bfdSessions d) (sessions d) (localIA d)
    (running d) (drkeys d) (fabridPolicyIPRangeMap d) (fabridPolicyInterfaceMap d)
    (dispatchedPortStart d) (dispatchedPortEnd d).
Definition set_ports (first last : Z) (d : t) : t :=
  mk (interfaces d) (external d) (linkTypes d) (neighborIAs d) (peerInterfaces d) (internal d)
    (internalIP d) (internalNextHops d) (svc d) (macFactory d) (bfdSessions d) (sessions d) (localIA d)
    (running d) (drkeys d) (fabridPolicyIPRangeMap d) (fabridPolicyInterfaceMap d) first last.
Definition set_internal (c : BatchConn) (ip : IP.t) (d : t) : t :=
  mk (<[0:=c]> (interfaces d)) (external d) (linkTypes d) (neighborIAs d) (peerInterfaces d) (Some c)
    ip (internalNextHops d) (svc d) (macFactory d) (bfdSessions d) (sessions d) (localIA d)
    (running d) (drkeys d) (fabridPolicyIPRangeMap d) (fabridPolicyInterfaceMap d)
    (dispatchedPortStart d) (dispatchedPortEnd d).
Definition set_external (ifID : Z) (c : BatchConn) (d : t) : t :=
  mk (<[ifID:=c]> (interfaces d)) (<[ifID:=c]> (external d)) (linkTypes d) (neighborIAs d)
    (peerInterfaces d) (internal d) (internalIP d) (internalNextHops d) (svc d) (macFactory d)
    (bfdSessions d) (sessions d) (localIA d) (running d) (drkeys d) (fabridPolicyIPRangeMap d)
    (fabridPolicyInterfaceMap d) (dispatchedPortStart d) (dispatchedPortEnd d).
Definition set_links (links neighbors peers : gmap Z Z) (d : t) : t :=
  mk (interfaces d) (external d) links neighbors peers (internal d)
    (internalIP d) (internalNextHops d) (svc d) (macFactory d) (bfdSessions d) (sessions d) (localIA d)
    (running d) (drkeys d) (fabridPolicyIPRangeMap d) (fabridPolicyInterfaceMap d)
    (dispatchedPortStart d) (dispatchedPortEnd d).
Definition set_nextHop (ifID : Z) (a : UDPAddr) (d : t) : t :=
  mk (interfaces d) (external d) (linkTypes d) (neighborIAs d) (peerInterfaces d) (internal d)
    (internalIP d) (<[ifID:=a]> (internalNextHops d)) (svc d) (macFactory d) (bfdSessions d) (sessions d)
    (localIA d) (running d) (drkeys d) (fabridPolicyIPRangeMap d) (fabridPolicyInterfaceMap d)
    (dispatchedPortStart d) (dispatchedPortEnd d).
Definition set_svc (s : Services.t) (d : t) : t :=
  mk (interfaces d) (external d) (linkTypes d) (neighborIAs d) (peerInterfaces d) (internal d)
    (internalIP d) (internalNextHops d) (Some s) (macFactory d) (bfdSessions d) (sessions d) (localIA d)
    (running d) (drkeys d) (fabridPolicyIPRangeMap d) (fabridPolicyInterfaceMap d)
    (dispatchedPortStart d) (dispatchedPortEnd d).
Definition set_bfd (bs : gmap Z nat) (ss : list Session) (d : t) : t :=
  mk (interfaces d) (external d) (linkTypes d) (neighborIAs d) (peerInterfaces d) (internal d)
    (internalIP d) (internalNextHops d) (svc d) (macFactory d) bs ss (localIA d)
    (running d) (drkeys d) (fabridPolicyIPRangeMap d) (fabridPolicyInterfaceMap d)
    (dispatchedPortStart d) (dispatchedPortEnd d).
Definition set_fabrid (ranges : gmap Z (list PolicyIPRange)) (ifs : gmap Z Z) (d : t) : t :=
  mk (interfaces d) (external d) (linkTypes d) (neighborIAs d) (peerInterfaces d) (internal d)
    (internalIP d) (internalNextHops d) (svc d) (macFactory d) (bfdSessions d) (sessions d) (localIA d)
    (running d) (drkeys d) ranges ifs (dispatchedPortStart d) (dispatchedPortEnd d).

Definition alreadySet : error := New "already set".
Definition emptyValue : error := New "empty value".
Definition modifyExisting : error := New "modifying a running dataplane is not allowed".
Definition unsupportedPathType : error := New "unsupported path type".

(** [if c { return e }] *)
Definition refuse (c : t → bool) (e : error) : SE t unit := λ d, (d, fail_if (c d) e).

Definition SetIA (ia : Z) : SE t unit :=
  _ ← refuse running modifyExisting;
  _ ← refuse (λ _, ISDAS.IsZero ia) emptyValue;
  _ ← refuse (λ d, negb (ISDAS.IsZero (localIA d))) alreadySet;
  modify (set_localIA ia).

Definition SetPortRange (first last : Z) : SE t unit := modify (set_ports first last).

Definition is_nil {A} (o : option A) : bool := match o with None => true | Some _ => false end.

Definition AddInternalInterface (c : option BatchConn) (ip : IP.t) : SE t unit :=
  _ ← refuse running modifyExisting;
  match c with
  | None => lift (Err emptyValue)
  | Some c =>
      _ ← refuse (λ d, negb (is_nil (internal d))) alreadySet;
      modify (set_internal c ip)
  end.

Definition AddNeighborIA (ifID remote : Z) : SE t unit :=
  _ ← refuse running modifyExisting;
  _ ← refuse (λ _, ISDAS.IsZero remote) emptyValue;
  _ ← refuse (λ d, negb (is_nil (neighborIAs d !! ifID))) alreadySet;
  modify (λ d, set_links (linkTypes d) (<[ifID:=remote]> (neighborIAs d)) (peerInterfaces d) d).

Definition AddLinkType (ifID linkTo : Z) : SE t unit :=
  _ ← refuse (λ d, negb (is_nil (linkTypes d !! ifID))) alreadySet;
  modify (λ d, set_links (<[ifID:=linkTo]> (linkTypes d)) (neighborIAs d) (peerInterfaces d) d).

Definition AddRemotePeer (local remote : Z) : SE t unit :=
  _ ← refuse (λ d, match linkTypes d !! local with Some t => negb (t =? Peer) | None => false end)
        unsupportedPathType;
  _ ← refuse (λ d, negb (is_nil (peerInterfaces d !! local))) alreadySet;
  modify (λ d, set_links (linkTypes d) (neighborIAs d) (<[local:=remote]> (peerInterfaces d)) d).

(** Runs a method of the service table. *)
Definition on_svc (m : SE Services.t unit) : SE t unit := λ d,
  match svc d with
  | None => (d, Ok tt)
  | Some s => let '(s, r) := m s in (set_svc s d, r)
  end.

(** [mem] is the memory that the first call allocates the table over: the
    addresses that callers hold pointers to. *)
Definition AddSvc (mem : gmap nat UDPAddr) (svcAddr : Z) (a : option nat) : SE t unit :=
  match a with
  | None => lift (Err emptyValue)
  | Some a =>
      _ ← modify (λ d, if is_nil (svc d) then set_svc (Services.mk ∅ mem) d else d);
      on_svc (Services.AddSvc svcAddr a)
  end.

Definition DelSvc (svcAddr : Z) (a : option nat) : SE t unit :=
  match a with
  | None => lift (Err emptyValue)
  | Some a => on_svc (Services.DelSvc svcAddr a)
  end.

Definition UpdateFabridPolicies (ranges : gmap Z (list PolicyIPRange)) (ifs : gmap Z Z) : SE t unit :=
  modify (set_fabrid ranges ifs).

(** [netip.AddrFromSlice] *)
Definition AddrFromSlice (ip : bytes) : option IP.t :=
  if len ip =? 4 then Some (IP.AddrFrom4 ip) else if len ip =? 16 then Some (IP.AddrFrom16 ip) else None.

(** [SetSrcAddr] and [SetDstAddr] with an address that must be accepted. *)
Definition must {A} (m : SE A unit) (a : A) : outcome A :=
  match m a with (a, Ok _) => Ok a | _ => Panic end.

Definition newBFDSend (c : option BatchConn) (srcIA dstIA : Z) (src dst : UDPAddr) (ifID : Z) :
    outcome bfdSend :=
  match AddrFromSlice (IP src), AddrFromSlice (IP dst) with
  | None, _ => Err (New "invalid source IP")
  | _, None => Err (New "invalid destination IP")
  | Some srcIP, Some dstIP =>
      let scn := SCION.mk 0 0xb8 0xdead L4.BFD 0 0 0 0 0 dstIA srcIA [] [] None None [] [] in
      scn ← must (SCION.SetSrcAddr (Host.HostIP srcIP)) scn;
      scn ← must (SCION.SetDstAddr (Host.HostIP dstIP)) scn;
      let '(pathType, path) :=
        if ifID =? 0 then (EmptyPath.PathType, PEmpty)
        else (OneHop.PathType,
              POneHop (OneHop.mk (InfoField.mk false true 0 0)
                (HopField.mk false false hopFieldDefaultExpTime 0 ifID (make_bytes 6)) HopField.zero)) in
      let scn := SCION.set_Path path (SCION.set_cmn (SCION.Version scn) (SCION.TrafficClass scn)
        (SCION.FlowID scn) (SCION.NextHdr scn) 0 0 pathType (SCION.DstAddrType scn)
        (SCION.SrcAddrType scn) scn) in
      Ok (mkSend c src dst scn)
  end.

(** [randInt max] is the random number of [rand.Int], or its failure. *)
Definition addBFDController (randInt : Z → outcome Z) (ifID : Z) (s : bfdSend) (cfg : BFDcfg) : SE t unit :=
  discInt ← lift (randInt 0xfffffffe);
  let disc := u32 (u32 discInt + 1) in
  modify (λ d, set_bfd (<[ifID := length (sessions d)]> (bfdSessions d))
    (sessions d ++ [mkSession s (u8 (DetectMult cfg)) (DesiredMinTxInterval cfg)
                      (RequiredMinRxInterval cfg) disc]) d).

(** [d.macFactory()] *)
Definition call_macFactory : SE t unit := λ d, (d, if is_nil (macFactory d) then Panic else Ok tt).

Definition deref {A} (o : option A) : outcome A := match o with Some a => Ok a | None => Panic end.

Section config.
Context (aes_Encrypt : bytes → bytes → bytes) (cmac_New : (bytes → bytes) → outcome (bytes → bytes)).
Context (randInt : Z → outcome Z).
(** The order in which [range] visits the entries of a map, and [net.UDPAddr.String]. *)
Context (range : gmap Z UDPAddr → list (Z * UDPAddr)) (UDPAddr_String : UDPAddr → gostring).

Definition SetKey (key : bytes) : SE t unit :=
  _ ← refuse running modifyExisting;
  _ ← refuse (λ _, len key =? 0) emptyValue;
  _ ← refuse (λ d, negb (is_nil (macFactory d))) alreadySet;
  mac ← lift (Scrypto.InitMac aes_Encrypt cmac_New key);
  modify (set_macFactory mac).

Definition addExternalInterfaceBFD (ifID : Z) (c : BatchConn) (src dst : LinkEnd) (cfg : BFDcfg) : SE t unit :=
  disabled ← lift (deref (Disable cfg));
  if (disabled : bool) then mret tt else
  _ ← call_macFactory;
  srcA ← lift (deref (Addr src));
  dstA ← lift (deref (Addr dst));
  s ← lift (newBFDSend (Some c) (IA src) (IA dst) srcA dstA ifID);
  addBFDController randInt ifID s cfg.

Definition AddExternalInterface (ifID : Z) (c : option BatchConn) (src dst : LinkEnd) (cfg : BFDcfg) :
    SE t unit :=
  _ ← refuse running modifyExisting;
  _ ← refuse (λ _, is_nil c || is_nil (Addr src) || is_nil (Addr dst)) emptyValue;
  c ← lift (deref c);
  _ ← wrap_errS "adding external BFD" (addExternalInterfaceBFD ifID c src dst cfg);
  _ ← refuse (λ d, negb (is_nil (external d !! ifID))) alreadySet;
  modify (set_external ifID c).

(** The first sibling with the same address that has a session. *)
Fixpoint shared_session (d : t) (dst : UDPAddr) (hops : list (Z * UDPAddr)) : option nat :=
  match hops with
  | [] => None
  | (k, v) :: hops =>
      if bool_decide (UDPAddr_String v = UDPAddr_String dst) then
        match bfdSessions d !! k with
        | Some c => Some c
        | None => shared_session d dst hops
        end
      else shared_session d dst hops
  end.

Definition addNextHopBFD (ifID : Z) (src dst : UDPAddr) (cfg : BFDcfg) : SE t unit :=
  disabled ← lift (deref (Disable cfg));
  if (disabled : bool) then mret tt else
  d ← gets id;
  match shared_session d dst (range (internalNextHops d)) with
  | Some c => modify (λ d, set_bfd (<[ifID:=c]> (bfdSessions d)) (sessions d) d)
  | None =>
      _ ← call_macFactory;
      s ← lift (newBFDSend (internal d) (localIA d) (localIA d) src dst 0);
      addBFDController randInt ifID s cfg
  end.

Definition AddNextHop (ifID : Z) (src dst : option UDPAddr) (cfg : BFDcfg) : SE t unit :=
  _ ← refuse running modifyExisting;
  _ ← refuse (λ _, is_nil dst || is_nil src) emptyValue;
  src ← lift (deref src);
  dst ← lift (deref dst);
  _ ← wrap_errS "adding next hop BFD" (addNextHopBFD ifID src dst cfg);
  _ ← refuse (λ d, negb (is_nil (internalNextHops d !! ifID))) alreadySet;
  modify (set_nextHop ifID dst).
End config.

(** [getInterfaceState]; [IsUp] is the state of a session. *)
Inductive InterfaceState := InterfaceUp | InterfaceDown.

Definition session_down (IsUp : nat → bool) (d : t) (ifID : Z) : bool :=
  match bfdSessions d !! ifID with Some s => negb (IsUp s) | None => false end.

Definition getInterfaceState (IsUp : nat → bool) (d : t) (interfaceID : Z) : InterfaceState :=
  if session_down IsUp d interfaceID then InterfaceDown else InterfaceUp.

End DataPlane.

(** * Lemmas *)
Module RouterConfigLemmas.

Import Net Services.

Lemma IP_Equal_sym a b : IP_Equal a b = IP_Equal b a.
Proof.
  unfold IP_Equal. pose proof (len_nonneg a). pose proof (len_nonneg b).
  rewrite (Z.eqb_sym (len b) (len a)).
  destruct (Z.eqb_spec (len a) (len b)) as [E|E].
  - apply bool_decide_ext. naive_solver.
  - destruct (Z.eqb_spec (len a) 4) as [E4|]; destruct (Z.eqb_spec (len b) 16) as [E16|];
      destruct (Z.eqb_spec (len b) 4); destruct (Z.eqb_spec (len a) 16); cbn [andb]; lia || done.
Qed.

Lemma same_addr_sym a b : same_addr a b = same_addr b a.
Proof. unfold same_addr. by rewrite IP_Equal_sym, Z.eqb_sym. Qed.

Lemma same_addr_refl a : same_addr a a = true.
Proof.
  unfold same_addr, IP_Equal. rewrite !Z.eqb_refl, bool_decide_eq_true_2 by done. done.
Qed.

(** Every registered pointer can be followed. *)
Definition services_wf (s : Services.t) : Prop :=
  ∀ svc, Forall (λ p, is_Some (mem s !! p)) (addrs_of s svc).

(** The registered addresses of a service. *)
Definition contents (s : Services.t) (svc : Z) : list UDPAddr := omap (λ p, mem s !! p) (addrs_of s svc).

(** The abstract operations on the list of addresses of one service. *)
Definition spec_add (a : UDPAddr) (l : list UDPAddr) : list UDPAddr :=
  if existsb (same_addr a) l then l else l ++ [a].
Fixpoint spec_del (a : UDPAddr) (l : list UDPAddr) : list UDPAddr :=
  match l with
  | [] => []
  | o :: l => if same_addr a o then l else o :: spec_del a l
  end.

Lemma omap_ptr_cons s p o ps :
  mem s !! p = Some o → omap (λ p, mem s !! p) (p :: ps) = o :: omap (λ p, mem s !! p) ps.
Proof. intros H. cbn. by rewrite H. Qed.

Lemma index_from_spec s a i ps :
  Forall (λ p, is_Some (mem s !! p)) ps →
  match index_from s a i ps with
  | Ok (Some k) => ∃ pre p post, ps = pre ++ p :: post ∧ k = i + len pre ∧
      existsb (same_addr a) (omap (λ p, mem s !! p) ps) = true ∧
      spec_del a (omap (λ p, mem s !! p) ps) = omap (λ p, mem s !! p) (pre ++ post)
  | Ok None => existsb (same_addr a) (omap (λ p, mem s !! p) ps) = false ∧
      spec_del a (omap (λ p, mem s !! p) ps) = omap (λ p, mem s !! p) ps
  | _ => False
  end.
Proof.
  intros H. revert i. induction H as [|p ps [o Ho] _ IH]; intros i; [done|].
  rewrite (omap_ptr_cons s p o ps Ho). cbn [index_from]. unfold deref. rewrite Ho. go_cbn. cbn [existsb spec_del].
  destruct (same_addr a o) eqn:E.
  - exists [], p, ps. split_and!; [done|by rewrite Z.add_0_r|done|done].
  - specialize (IH (i + 1)). destruct (index_from s a (i + 1) ps) as [[k|]| |]; [| |done..].
    + destruct IH as (pre & q & post & -> & -> & Hex & Hdel). exists (p :: pre), q, post.
      split_and!; [done|rewrite len_cons; lia|done|]. rewrite Hdel. cbn [app]. by rewrite (omap_ptr_cons s p o (pre ++ post) Ho).
    + destruct IH as [? ->]. done.
Qed.

Lemma addrs_of_insert s svc ps other :
  addrs_of (Services.set_addrs svc ps s) other = if decide (other = svc) then ps else addrs_of s other.
Proof.
  unfold addrs_of, Services.set_addrs. cbn [m]. destruct (decide (other = svc)) as [->|Hn].
  - by rewrite lookup_insert_eq.
  - by rewrite lookup_insert_ne.
Qed.

Lemma contents_insert s svc ps other :
  contents (Services.set_addrs svc ps s) other =
    if decide (other = svc) then omap (λ p, mem s !! p) ps else contents s other.
Proof. unfold contents. rewrite addrs_of_insert. by destruct (decide _). Qed.

Lemma services_wf_insert s svc ps :
  services_wf s → Forall (λ p, is_Some (mem s !! p)) ps → services_wf (Services.set_addrs svc ps s).
Proof. intros Hs Hp other. rewrite addrs_of_insert. cbn [mem]. destruct (decide _); [done|apply Hs]. Qed.

Lemma get_in_range {A} (l : list A) i :
  0 ≤ i < len l → ∃ x, get l i = Ok x ∧ l !! Z.to_nat i = Some x.
Proof.
  intros Hi. destruct (lookup_lt_is_Some_2 l (Z.to_nat i)) as [x Hx]; [unfold len in Hi; lia|].
  exists x. split; [|done]. apply get_Ok; [lia|done].
Qed.

Lemma get_total (l : bytes) i : 0 ≤ i < len l → get l i = Ok (l !!! Z.to_nat i).
Proof.
  intros Hi. destruct (get_in_range l i Hi) as (x & -> & Hx). by rewrite (list_lookup_total_correct _ _ _ Hx).
Qed.

(** Deleting by moving the last element into the hole. *)
Lemma swap_delete {A} (pre : list A) q post :
  ∃ x l, get (pre ++ q :: post) (len (pre ++ q :: post) - 1) = Ok x ∧
    put (pre ++ q :: post) (0 + len pre) x = Ok (pre ++ x :: post) ∧
    sub (pre ++ x :: post) 0 (len (pre ++ x :: post) - 1) = Ok l ∧ l ≡ₚ pre ++ post.
Proof.
  destruct post as [|y post' _] using rev_ind.
  - exists q, pre. split_and!.
    + apply get_app. rewrite len_app, len_cons. change (len (@nil A)) with 0. lia.
    + by apply put_app.
    + apply sub_prefix. rewrite len_app, len_cons. change (len (@nil A)) with 0. lia.
    + by rewrite app_nil_r.
  - exists y, (pre ++ y :: post'). split_and!.
    + rewrite app_comm_cons, app_assoc. apply get_app. rewrite !len_app. change (len [y]) with 1. lia.
    + by apply put_app.
    + rewrite app_comm_cons, app_assoc. apply sub_prefix. rewrite !len_app. change (len [y]) with 1. lia.
    + by rewrite (Permutation_app_comm post').
Qed.

End RouterConfigLemmas.

(** * Properties *)
Module RouterConfigProperties.

Import Net Services DataPlane RouterConfigLemmas.

(** The service table implements a list of distinct addresses per service:
    adding appends an address unless an equal one (IPv4 and mapped IPv6 forms
    included) is present, deleting removes the first equal one, both leave the
    other services and the registered addresses alone, and [Any] finds an address
    exactly when the list is not empty, always one from the list. *)
Theorem services_refine_lists s svc p a intn :
  services_wf s → mem s !! p = Some a → (∀ n, 0 < n → 0 ≤ intn n < n) →
  (∃ s', Services.AddSvc svc p s = (s', Ok tt) ∧ services_wf s' ∧ mem s' = mem s ∧
     ∀ other, contents s' other = if decide (other = svc) then spec_add a (contents s svc) else contents s other) ∧
  (∃ s', Services.DelSvc svc p s = (s', Ok tt) ∧ services_wf s' ∧ mem s' = mem s ∧
     ∀ other, if decide (other = svc) then contents s' other ≡ₚ spec_del a (contents s svc)
              else contents s' other = contents s other) ∧
  match Services.Any intn s svc with
  | Ok (Some q) => ∃ o, mem s !! q = Some o ∧ o ∈ contents s svc
  | Ok None => contents s svc = []
  | _ => False
  end.
Proof.
  intros Hs Hp Hn. pose proof (Hs svc) as Hps. split_and!.
  - unfold Services.AddSvc, index, Services.deref. rewrite Hp. go_cbn.
    pose proof (index_from_spec s a 0 _ Hps) as Hi. fold (contents s svc) in Hi.
    destruct (index_from s a 0 (addrs_of s svc)) as [[k|]| |]; [| |done..].
    + destruct Hi as (_ & _ & _ & _ & _ & Hex & _). exists s. split_and!; [done..|].
      intros other. unfold spec_add. rewrite Hex. by destruct (decide _) as [->|].
    + destruct Hi as [Hex _]. eexists. split_and!; [done| |done|].
      * apply services_wf_insert; [done|]. apply Forall_app. split; [done|]. by repeat constructor.
      * intros other. rewrite contents_insert. destruct (decide _); [|done]. unfold spec_add.
        rewrite Hex. rewrite omap_app. cbn. by rewrite Hp.
  - unfold Services.DelSvc, index, Services.deref. rewrite Hp. go_cbn.
    pose proof (index_from_spec s a 0 _ Hps) as Hi. fold (contents s svc) in Hi.
    destruct (index_from s a 0 (addrs_of s svc)) as [[k|]| |]; [| |done..]; go_cbn.
    + destruct Hi as (pre & q & post & Eps & -> & _ & Hdel). rewrite Eps in *.
      destruct (swap_delete pre q post) as (x & l & Eg & Epu & Es & Hperm).
      rewrite Eg. go_cbn. rewrite Epu. go_cbn. rewrite Es. go_cbn.
      assert (Forall (λ p, is_Some (mem s !! p)) l) as Hl.
      { rewrite Hperm. rewrite Forall_app in *. destruct Hps as [? Hps]. by apply Forall_cons in Hps as [_ ?]. }
      eexists. split_and!; [done|by apply services_wf_insert|done|].
      intros other. rewrite contents_insert. destruct (decide _); [|done].
      rewrite Hdel. by apply omap_Permutation.
    + destruct Hi as [_ Hdel]. exists s. split_and!; [done..|].
      intros other. destruct (decide _) as [->|]; [|done]. by rewrite Hdel.
  - unfold Services.Any. destruct (Z.eqb_spec (len (addrs_of s svc)) 0) as [E|E].
    + unfold contents. destruct (addrs_of s svc) as [|n l]; [done|].
      rewrite len_cons in E. pose proof (len_nonneg l). lia.
    + pose proof (len_nonneg (addrs_of s svc)). pose proof (Hn (len (addrs_of s svc)) ltac:(lia)) as Hr.
      destruct (get_in_range (addrs_of s svc) (intn (len (addrs_of s svc)))) as (q & Eg & Hq); [done|].
      rewrite Eg. go_cbn. rewrite Forall_lookup in Hps. destruct (Hps _ _ Hq) as [o Ho].
      exists o. split; [done|]. apply list_elem_of_omap. exists q. split; [|done].
      by eapply list_elem_of_lookup_2.
Qed.

(** The part of a packet that identifies its flow: the flow label, and the
    address header that byte 9 delimits. *)
Definition flow_addr_len (data : bytes) : Z :=
  let b9 := data !!! 9%nat in
  2 * ISDAS.IABytes + AddrType.Length (Z.land b9 0xf) + AddrType.Length (Z.land (Z.shiftr b9 4) 0xf).
Definition flow_key (data : bytes) : bytes :=
  Z.land (data !!! 1%nat) 0xF :: take 2 (drop 2 data) ++
  take (Z.to_nat (flow_addr_len data)) (drop 12 data).

Lemma flow_addr_len_range data : 24 ≤ flow_addr_len data ≤ 48.
Proof.
  unfold flow_addr_len, AddrType.Length, AddrType.LineLen, ISDAS.IABytes.
  assert (∀ x, 0 ≤ Z.land x 3 ≤ 3) as H.
  { intros x. change 3 with (2 ^ 2 - 1) at 1 2. rewrite land_ones_mod by lia.
    pose proof (Z.mod_pos_bound x (2 ^ 2)). lia. }
  cbv zeta. pose proof (H (Z.land (data !!! 9%nat) 15)).
  pose proof (H (Z.land (Z.shiftr (data !!! 9%nat) 4) 15)). lia.
Qed.

(** The processor of a packet is a function of its flow alone.  The hash
    never panics, refuses exactly the packets that are shorter than their address
    header, and yields the index of a processor that depends on nothing but the
    seed and the flow key: packets of one flow stay in order on one processor. *)
Theorem same_flow_same_processor data n seed :
  0 < n < 2 ^ 32 →
  if (len data <? 12) || (len data <? 12 + flow_addr_len data)
  then FlowHash.computeProcID data n seed = Err FlowHash.errShortPacket
  else FlowHash.computeProcID data n seed = Ok (foldl FlowHash.hashFNV1a seed (flow_key data) mod n) ∧
       0 ≤ foldl FlowHash.hashFNV1a seed (flow_key data) mod n < n.
Proof.
  intros Hn. unfold FlowHash.computeProcID. pose proof (flow_addr_len_range data) as Hr.
  unfold SCION.CmnHdrLen. destruct (Z.ltb_spec (len data) 12) as [|Hl]; [done|]. cbn [orb]. go_cbn.
  rewrite (get_total data 9), (get_total data 1) by lia. go_cbn. change (Z.to_nat 9) with 9%nat.
  fold (flow_addr_len data).
  destruct (Z.ltb_spec (len data) (12 + flow_addr_len data)) as [|Hl']; [done|]. go_cbn.
  rewrite (sub_Ok data 2 4) by lia. go_cbn. rewrite sub_Ok by lia. go_cbn.
  unfold uint_of at 1 2. rewrite (Z.mod_small n) by lia. replace (n =? 0) with false by lia.
  replace (12 + flow_addr_len data - 12) with (flow_addr_len data) by lia.
  split; [|apply Z.mod_pos_bound; lia].
  unfold flow_key. cbn [foldl]. by rewrite foldl_app.
Qed.

(** ** Configuration *)

Section config.
Context (aes_Encrypt : bytes → bytes → bytes) (cmac_New : (bytes → bytes) → outcome (bytes → bytes)).
Context (randInt : Z → outcome Z).
Context (range : gmap Z UDPAddr → list (Z * UDPAddr)) (UDPAddr_String : UDPAddr → gostring).

(** A configuration call with its arguments. *)
Inductive config_op :=
| OpSetIA (ia : Z)
| OpSetKey (key : bytes)
| OpSetPortRange (first last : Z)
| OpAddInternalInterface (c : option BatchConn) (ip : IP.t)
| OpAddExternalInterface (ifID : Z) (c : option BatchConn) (src dst : LinkEnd) (cfg : BFDcfg)
| OpAddNeighborIA (ifID remote : Z)
| OpAddLinkType (ifID linkTo : Z)
| OpAddRemotePeer (local remote : Z)
| OpAddSvc (mem : gmap nat UDPAddr) (svcAddr : Z) (a : option nat)
| OpDelSvc (svcAddr : Z) (a : option nat)
| OpAddNextHop (ifID : Z) (src dst : option UDPAddr) (cfg : BFDcfg)
| OpUpdateFabridPolicies (ranges : gmap Z (list PolicyIPRange)) (ifs : gmap Z Z).

Definition run_op (o : config_op) : SE DataPlane.t unit :=
  match o with
  | OpSetIA ia => SetIA ia
  | OpSetKey key => SetKey aes_Encrypt cmac_New key
  | OpSetPortRange first last => SetPortRange first last
  | OpAddInternalInterface c ip => AddInternalInterface c ip
  | OpAddExternalInterface ifID c src dst cfg => AddExternalInterface randInt ifID c src dst cfg
  | OpAddNeighborIA ifID remote => AddNeighborIA ifID remote
  | OpAddLinkType ifID linkTo => AddLinkType ifID linkTo
  | OpAddRemotePeer local remote => AddRemotePeer local remote
  | OpAddSvc mem svcAddr a => AddSvc mem svcAddr a
  | OpDelSvc svcAddr a => DelSvc svcAddr a
  | OpAddNextHop ifID src dst cfg => AddNextHop randInt range UDPAddr_String ifID src dst cfg
  | OpUpdateFabridPolicies ranges ifs => UpdateFabridPolicies ranges ifs
  end.

(** Packets are read from every interface that they can be sent to. *)
Definition ifaces_ok (d : DataPlane.t) : Prop :=
  (∀ ifID, is_Some (external d !! ifID) → is_Some (interfaces d !! ifID)) ∧
  (is_Some (internal d) → is_Some (interfaces d !! 0)).

Lemma ifaces_internal c ip d : ifaces_ok d → ifaces_ok (set_internal c ip d).
Proof.
  intros [H _]. split; cbn; [|by rewrite lookup_insert_eq].
  intros ifID. rewrite lookup_insert_is_Some. destruct (decide (0 = ifID)); [by left|]. right. auto.
Qed.

Lemma ifaces_external ifID c d : ifaces_ok d → ifaces_ok (set_external ifID c d).
Proof.
  intros [H1 H2]. split; cbn.
  - intros i. rewrite !lookup_insert_is_Some. naive_solver.
  - intros. rewrite lookup_insert_is_Some. destruct (decide (ifID = 0)); naive_solver.
Qed.

(** What [d2] may differ in from an earlier state [d1]: values are only ever
    filled in, and on a running data plane the identity, the key, the interfaces,
    the next hops and the neighbours are frozen. *)
Record config_extends (d1 d2 : DataPlane.t) : Prop := {
  ext_running : running d2 = running d1;
  ext_ia : ISDAS.IsZero (localIA d1) = false → localIA d2 = localIA d1;
  ext_key : is_nil (macFactory d1) = false → macFactory d2 = macFactory d1;
  ext_internal : is_nil (internal d1) = false → internal d2 = internal d1 ∧ internalIP d2 = internalIP d1;
  ext_external : external d1 ⊆ external d2;
  ext_nextHops : internalNextHops d1 ⊆ internalNextHops d2;
  ext_neighbors : neighborIAs d1 ⊆ neighborIAs d2;
  ext_links : linkTypes d1 ⊆ linkTypes d2;
  ext_peers : peerInterfaces d1 ⊆ peerInterfaces d2;
  ext_ifaces : ifaces_ok d1 → ifaces_ok d2;
  ext_frozen : running d1 = true →
    localIA d2 = localIA d1 ∧ macFactory d2 = macFactory d1 ∧ internal d2 = internal d1 ∧
    interfaces d2 = interfaces d1 ∧ external d2 = external d1 ∧
    internalNextHops d2 = internalNextHops d1 ∧ neighborIAs d2 = neighborIAs d1
}.

#[local] Instance config_extends_preorder : PreOrder config_extends.
Proof.
  split.
  - intros d. split; done || by intros ?.
  - intros d1 d2 d3 [] []. split; try (by etransitivity); try (by auto).
    + intros H. rewrite ext_ia1; [by apply ext_ia0|]. by rewrite ext_ia0.
    + intros H. rewrite ext_key1; [by apply ext_key0|]. by rewrite ext_key0.
    + intros H. destruct (ext_internal0 H) as [E1 E2]. rewrite <- E1, <- E2. apply ext_internal1. by rewrite E1.
    + intros H. destruct (ext_frozen0 H) as (?&?&?&?&?&?&?).
      destruct ext_frozen1 as (?&?&?&?&?&?&?); [congruence|]. split_and!; congruence.
Qed.

(** The calls that set up BFD only touch the sessions. *)
Definition only_bfd (d1 d2 : DataPlane.t) : Prop := ∃ bs ss, d2 = set_bfd bs ss d1.

Lemma only_bfd_refl d : only_bfd d d.
Proof. exists (bfdSessions d), (sessions d). by destruct d. Qed.

Ltac run_calls :=
  unfold mbind, SE_bind, mret, SE_ret, lift, refuse, modify, gets, call_macFactory, wrap_errS, fail_if;
  repeat (case_match; simplify_eq); cbn [fst snd].

Lemma addBFDController_only_bfd ifID s cfg d : only_bfd d (addBFDController randInt ifID s cfg d).1.
Proof. unfold addBFDController. run_calls; first [apply only_bfd_refl|by eexists _, _]. Qed.

Lemma addExternalInterfaceBFD_only_bfd ifID c src dst cfg d :
  only_bfd d (addExternalInterfaceBFD randInt ifID c src dst cfg d).1.
Proof.
  unfold addExternalInterfaceBFD. run_calls; try apply only_bfd_refl. apply addBFDController_only_bfd.
Qed.

Lemma addNextHopBFD_only_bfd ifID src dst cfg d :
  only_bfd d (addNextHopBFD randInt range UDPAddr_String ifID src dst cfg d).1.
Proof.
  unfold addNextHopBFD. run_calls; try apply only_bfd_refl; [by eexists _, _|apply addBFDController_only_bfd].
Qed.

Lemma on_svc_extends m d : config_extends d (on_svc m d).1.
Proof. unfold on_svc. destruct (svc d) as [s|]; [|done]. destruct (m s); cbn [fst]. split; done || by intros ?. Qed.

Lemma only_bfd_extends d1 d2 : only_bfd d1 d2 → config_extends d1 d2.
Proof. intros (bs & ss & ->). split; done || by intros ?. Qed.

Lemma is_nil_false {A} (o : option A) : negb (is_nil o) = false → o = None.
Proof. by destruct o. Qed.

Ltac extended :=
  split; cbn [running localIA macFactory internal internalIP external internalNextHops neighborIAs
    linkTypes peerInterfaces interfaces set_localIA set_macFactory set_ports set_internal set_external
    set_links set_nextHop set_svc set_bfd set_fabrid]; try done; intros; try congruence;
  try (by apply ifaces_internal); try (by apply ifaces_external);
  repeat match goal with H : negb (is_nil _) = false |- _ => apply is_nil_false in H end;
  try by apply insert_subseteq.

Lemma op_extends o d : config_extends d (run_op o d).1.
Proof.
  destruct o; cbn [run_op].
  - unfold SetIA. run_calls; first [done|extended].
    match goal with H : negb (ISDAS.IsZero _) = false, H' : ISDAS.IsZero _ = false |- _ => by rewrite H' in H end.
  - unfold SetKey. run_calls; first [done|extended].
    all: match goal with H : _ = None, H' : is_nil _ = false |- _ => by rewrite H in H' end.
  - by extended.
  - unfold AddInternalInterface. run_calls; first [done|extended].
    all: match goal with H : _ = None, H' : is_nil _ = false |- _ => by rewrite H in H' end.
  - unfold AddExternalInterface. run_calls; try done.
    all: pose proof (addExternalInterfaceBFD_only_bfd ifID a src dst cfg d) as Hb;
      destruct (addExternalInterfaceBFD _ _ _ _ _ _ _); simplify_eq; cbn [fst] in Hb;
      destruct Hb as (bs & ss & ->); by extended.
  - unfold AddNeighborIA. run_calls; first [done|extended].
  - unfold AddLinkType. run_calls; first [done|extended].
  - unfold AddRemotePeer. run_calls; first [done|extended].
  - unfold AddSvc. destruct a as [a|]; [|done].
    unfold mbind, SE_bind, modify. etransitivity; [|apply on_svc_extends].
    destruct (is_nil (svc d)); by extended.
  - unfold DelSvc. destruct a; [apply on_svc_extends|done].
  - unfold AddNextHop. run_calls; try done.
    all: pose proof (addNextHopBFD_only_bfd ifID a a0 cfg d) as Hb;
      destruct (addNextHopBFD _ _ _ _ _ _ _ _); simplify_eq; cbn [fst] in Hb;
      destruct Hb as (bs & ss & ->); by extended.
  - by extended.
Qed.

(** The states that a sequence of calls, failing ones included, leads to. *)
Inductive configured (d : DataPlane.t) : DataPlane.t → Prop :=
| configured_here : configured d d
| configured_op d' o : configured d d' → configured d (run_op o d').1.

(** Configuration is write-once.  Whatever calls are made, and whether they
    succeed or fail, a local identity, key, internal interface, external
    interface, next hop, neighbour, link type or remote peer that was set keeps its
    value; the interfaces listed for reading packets always include the external
    and the internal ones; and while the data plane runs, all but link types,
    remote peers, ports, services and FABRID policies is frozen. *)
Theorem config_write_once d1 d2 :
  configured zero d1 → configured d1 d2 →
  config_extends d1 d2 ∧
  (∀ ifID, is_Some (external d2 !! ifID) → is_Some (interfaces d2 !! ifID)) ∧
  (is_Some (internal d2) → is_Some (interfaces d2 !! 0)).
Proof.
  intros Hc He. assert (config_extends d1 d2) as H12.
  { induction He as [|d' o _ IH]; [done|]. etransitivity; [exact IH|apply op_extends]. }
  split; [done|]. apply (ext_ifaces _ _ H12).
  enough (config_extends zero d1) as [] by (apply ext_ifaces0; by split; intros; destruct H as []).
  clear H12 He. induction Hc as [|d' o _ IH]; [done|]. etransitivity; [exact IH|apply op_extends].
Qed.
End config.

(** A refused call still changes the state: adding an external interface a second
    time fails with "already set", but replaces the BFD session of the first. *)
Definition example_link (ia ip : Z) : LinkEnd := mkLinkEnd ia (Some (mkUDP [10; 0; 0; ip] 50000)).
Definition example_bfd : BFDcfg := mkBFD (Some false) 3 1000 1000.
Definition example_plane : DataPlane.t := set_macFactory (λ b, b) (set_localIA 1 zero).

Example refused_call_replaces_session :
  let add c dst := AddExternalInterface (λ max, Ok (max - 2)) 5 (Some c) (example_link 1 1)
                     (example_link 2 dst) example_bfd in
  let d1 := after (add 7%nat 2) example_plane in
  let d2 := after (add 8%nat 3) d1 in
  result (add 7%nat 2) example_plane = Ok tt ∧ bfdSessions d1 !! 5 = Some 0%nat ∧
  result (add 8%nat 3) d1 = Err alreadySet ∧ external d2 !! 5 = Some 7%nat ∧
  bfdSessions d2 !! 5 = Some 1%nat.
Proof. vm_compute. done. Qed.

(** ** Witnesses *)

Definition example_addr : UDPAddr := mkUDP [10; 0; 0; 9] 30252.

Lemma services_refine_lists_witness :
  ∃ s', Services.AddSvc 2 0%nat (Services.mk ∅ {[0%nat := example_addr]}) = (s', Ok tt) ∧
    contents s' 2 = [example_addr].
Proof.
  destruct (services_refine_lists (Services.mk ∅ {[0%nat := example_addr]}) 2 0%nat example_addr (λ n, 0))
    as [(s' & E & _ & _ & H) _].
  - intros svc. by constructor.
  - reflexivity.
  - lia.
  - exists s'. split; [exact E|]. exact (H 2).
Defined.

Lemma same_flow_same_processor_witness :
  0 < 4 < 2 ^ 32 ∧ ∃ n, FlowHash.computeProcID (make_bytes 36) 4 FlowHash.fnv1aOffset32 = Ok n ∧ 0 ≤ n < 4.
Proof.
  assert (H : 0 < 4 < 2 ^ 32) by (split; reflexivity). split; [exact H|].
  pose proof (same_flow_same_processor (make_bytes 36) 4 FlowHash.fnv1aOffset32 H) as [E Hr].
  eexists. split; [exact E|exact Hr].
Defined.

Lemma config_write_once_witness :
  let step := run_op (λ _ b, b) (λ f, Ok f) (λ max, Ok 1) map_to_list (λ _, []) in
  let d1 := (step (OpSetIA 5) zero).1 in
  let d2 := (step (OpSetIA 6) d1).1 in
  localIA d1 = 5 ∧ localIA d2 = localIA d1.
Proof.
  intros step d1 d2.
  destruct (config_write_once (λ _ b, b) (λ f, Ok f) (λ max, Ok 1) map_to_list (λ _, []) d1 d2) as [[_ E _ _ _ _ _ _ _ _ _] _].
  - unfold d1, step. apply configured_op, configured_here.
  - unfold d2, step. apply configured_op, configured_here.
  - split; [reflexivity|]. apply E. reflexivity.
Defined.

End RouterConfigProperties.
