(* ===== verification/RouterProcess.v ===== *)
(** The packet processor of the border router, [router/dataplane.go] and
    [router/dataplane_fabrid.go]: delivery to end hosts (Module [LocalDelivery]),
    the state of a processor with its checks and updates (Module [Processor]).
    A processor works in place: its path and the options of the hop-by-hop
    extension are windows of the packet, and writing to them writes the packet. *)
From S2P Require Export RouterConfig.

(** * dataplane.go: delivery inside the AS *)
Module LocalDelivery.

Import Net DataPlane.

(** Layers of a packet that [gopacket.NewPacket] decoded, as far as the router
    tells them apart. *)
Inductive Layer :=
| LayerSCMP (s : SCMP.t)
| LayerSCMPEcho (e : Echo.t)
| LayerSCMPTraceroute (r : Traceroute.t)
| LayerSCIONUDP (u : UDP.t)
| LayerPayload (b : bytes)
| LayerOther (serializable : bool).

Definition as_scmp (l : Layer) : option SCMP.t := match l with LayerSCMP s => Some s | _ => None end.
Definition as_echo (l : Layer) : option Echo.t := match l with LayerSCMPEcho e => Some e | _ => None end.
Definition as_traceroute (l : Layer) : option Traceroute.t :=
  match l with LayerSCMPTraceroute r => Some r | _ => None end.
Definition as_udp (l : Layer) : option UDP.t := match l with LayerSCIONUDP u => Some u | _ => None end.

(** [gpkt.Layer(t)]: the first layer of the type. *)
Definition first_layer {A} (as_ : Layer → option A) (ls : list Layer) : option A := head (omap as_ ls).

Definition is_serializable (l : Layer) : bool := match l with LayerOther b => b | _ => true end.

Definition noSVCBackend : error := New "cannot find internal IP for the SVC".
Definition invalidDstAddr : error := New "invalid destination address".

Section delivery.
(** [NewPacket data first]: the layers that [gopacket.NewPacket] decodes, and
    [intn]: the random number of [mrand.Intn]. *)
Context (NewPacket : bytes → L4.LayerType → list Layer) (intn : Z → Z).

Definition decodeSCMP (scmp : SCMP.t) : outcome (list Layer) :=
  let layers := NewPacket (BaseLayer.Payload (SCMP.base scmp)) (SCMP.NextLayerType scmp) in
  _ ← fail_if ((len layers =? 0) || (2 <? len layers)) (New "invalid number of SCMP layers");
  _ ← fail_if (negb (forallb is_serializable layers)) (New "invalid SCMP layer, not serializable");
  Ok layers.

(** The port in the packet that an SCMP error message quotes. *)
Definition quoted_port (gpkt : list Layer) : outcome Z :=
  match first_layer as_udp gpkt with
  | Some udp =>
      _ ← fail_if (UDP.SrcPort udp =? 0) (New "SCMP error with truncated UDP header");
      Ok (UDP.SrcPort udp)
  | None =>
  match first_layer as_scmp gpkt with
  | Some scmp =>
      let tc := SCMP.TypeCode scmp in
      _ ← fail_if (negb (TypeCode.InfoMsg tc))
            (New "SCMP error message in response to SCMP error message");
      let t := TypeCode.Type_ tc in
      _ ← fail_if (negb (t =? TypeCode.SCMPTypeEchoRequest) && negb (t =? TypeCode.SCMPTypeTracerouteRequest))
            (New "unsupported SCMP info message");
      match first_layer as_echo gpkt with
      | Some echo => Ok (Echo.Identifier echo)
      | None =>
          match first_layer as_traceroute gpkt with
          | Some tr => Ok (Traceroute.Identifier tr)
          | None => Err (New "SCMP error with truncated payload")
          end
      end
  | None => Err (New "unknown SCION SCMP content")
  end
  end.

Definition getDstPortSCMP (scmp : SCMP.t) : outcome Z :=
  let t := TypeCode.Type_ (SCMP.TypeCode scmp) in
  let payload := BaseLayer.Payload (SCMP.base scmp) in
  if (t =? TypeCode.SCMPTypeEchoRequest) || (t =? TypeCode.SCMPTypeTracerouteRequest)
  then Ok EndhostPort
  else if t =? TypeCode.SCMPTypeEchoReply then
    echo ← Echo.DecodeFromBytes payload; Ok (Echo.Identifier echo)
  else if t =? TypeCode.SCMPTypeTracerouteReply then
    tr ← Traceroute.DecodeFromBytes payload; Ok (Traceroute.Identifier tr)
  else
    _ ← fail_if (match SCMP.NextLayerType scmp with L4.LayerTypePayload => true | _ => false end)
          (New "unsupported SCMP error message");
    l ← decodeSCMP scmp;
    _ ← fail_if (negb (len l =? 2)) (New "SCMP error message without payload");
    quote ← get l 1;
    match quote with
    | LayerPayload b => quoted_port (NewPacket b L4.LayerTypeSCION)
    | _ => Panic
    end.

(** What a layer shows of itself: the next header it names and its payload. *)
Definition addEndhostPort (d : DataPlane.t) (l4Type : Z) (payload dst : bytes) : outcome UDPAddr :=
  let in_range port := (dispatchedPortStart d <=? port) && (port <=? dispatchedPortEnd d) in
  let deliver port := mkUDP dst (if in_range port then port else EndhostPort) in
  if l4Type =? L4.UDP then
    _ ← fail_if (len payload <? 8) (New "SCION/UDP header len too small");
    port ← sub_from payload 2 ≫= Uint16;
    Ok (deliver port)
  else if l4Type =? L4.SCMP then
    let '(scmp, r) := SCMP.DecodeFromBytes payload (SCMP.mk (BaseLayer.mk [] []) 0 0 None) in
    _ ← wrap_err "decoding SCMP layer for extracting endhost dst port" r;
    port ← wrap_err "getting dst port from SCMP message" (getDstPortSCMP scmp);
    Ok (deliver port)
  else Ok (mkUDP dst EndhostPort).

(** [a.Port = port] for a shared address. *)
Definition set_port (p : nat) (port : Z) (s : Services.t) : Services.t :=
  Services.mk (Services.m s) (alter (λ a, mkUDP (IP a) port) p (Services.mem s)).

(** The address of a service is shared with the table: correcting its port
    changes the registered address. *)
Definition resolveLocalDst (s : SCION.t) (l4Type : Z) (payload : bytes) : SE DataPlane.t UDPAddr := λ d,
  match SCION.DstAddr s with
  | Err _ => (d, Err invalidDstAddr)
  | Panic => (d, Panic)
  | Ok dst =>
      if Host.Type_ dst =? Host.HostTypeSVC then
        match svc d with
        | None => (d, Panic)
        | Some table =>
            match (svcAddr ← Host.SVC dst; Services.Any intn table (SVC.Base svcAddr)) with
            | Ok None => (d, Err noSVCBackend)
            | Ok (Some p) =>
                match Services.deref table p with
                | Ok a =>
                    let port := u16 (Port a) in
                    if (port <? dispatchedPortStart d) || (dispatchedPortEnd d <? port)
                    then (set_svc (set_port p EndhostPort table) d, Ok (mkUDP (IP a) EndhostPort))
                    else (d, Ok a)
                | Err e => (d, Err e)
                | Panic => (d, Panic)
                end
            | Err e => (d, Err e)
            | Panic => (d, Panic)
            end
        end
      else if Host.Type_ dst =? Host.HostTypeIP then
        (d, ip ← Host.IP dst; addEndhostPort d l4Type payload (IP.AsSlice ip))
      else (d, Panic)
  end.
End delivery.

End LocalDelivery.

(** * dataplane.go: the packet processor *)
Module Processor.

Import Net DataPlane LocalDelivery.

Inductive slowPathType := slowPathSCMP | slowPathRouterAlert.

Record slowPathRequest := mkSlow {
  typ : slowPathType;
  scmpType : Z;
  code : Z;
  cause : option error;
  pointer : Z;
  ia : Z;
  interfaceId : Z;
  ingressId : Z;
  egressId : Z
}.

(** An SCMP request with a pointer into the packet. *)
Definition scmp_request (scmpType code pointer : Z) (cause : error) : slowPathRequest :=
  mkSlow slowPathSCMP scmpType code (Some cause) pointer 0 0 0 0.

Definition ttOther : Z := 0.
Definition ttIn : Z := 1.
Definition ttOut : Z := 2.
Definition ttInTransit : Z := 3.
Definition ttOutTransit : Z := 4.
Definition ttBrTransit : Z := 5.

(** [processResult], without the request that comes with [slowPathRequired];
    [OutPkt] is [None] for the nil slice. *)
Record processResult := mkResult {
  EgressID : Z;
  OutAddr : option UDPAddr;
  OutPkt : option bytes;
  TrafficType : Z
}.

Inductive transitType := ingressEgressSameRouter | ingressEgressDifferentRouter | internalTraffic.

(** The layer that was parsed last. *)
Inductive layer := LSCION | LHopByHop | LEndToEnd.

(** The state of a processor.  [path] is the object that the path of
    [scionLayer] points to, and its bytes are the window of [rawPkt] that starts
    at [pathOff]. *)
Record t := mk {
  d : DataPlane.t;
  ingressID : Z;
  rawPkt : bytes;
  srcAddr : UDPAddr;
  scionLayer : SCION.t;
  hbhLayer : Extn.t;
  e2eLayer : Extn.t;
  lastLayer : layer;
  path : Raw.t;
  pathOff : Z;
  hopField : HopField.t;
  infoField : InfoField.t;
  effectiveXover : bool;
  peering : bool;
  cachedMac : option bytes;
  identifier : option Identifier.t;
  fabrid : option Fabrid.t;
  mplsLabel : Z;
  nextHop : option UDPAddr;
  transit : transitType
}.

Definition set_d (x : DataPlane.t) (p : t) : t :=
  mk x (ingressID p) (rawPkt p) (srcAddr p) (scionLayer p) (hbhLayer p) (e2eLayer p) (lastLayer p)
    (path p) (pathOff p) (hopField p) (infoField p) (effectiveXover p) (peering p) (cachedMac p)
    (identifier p) (fabrid p) (mplsLabel p) (nextHop p) (transit p).
Definition set_rawPkt (x : bytes) (p : t) : t :=
  mk (d p) (ingressID p) x (srcAddr p) (scionLayer p) (hbhLayer p) (e2eLayer p) (lastLayer p)
    (path p) (pathOff p) (hopField p) (infoField p) (effectiveXover p) (peering p) (cachedMac p)
    (identifier p) (fabrid p) (mplsLabel p) (nextHop p) (transit p).
Definition set_layers (s : SCION.t) (h e : Extn.t) (l : layer) (p : t) : t :=
  mk (d p) (ingressID p) (rawPkt p) (srcAddr p) s h e l
    (path p) (pathOff p) (hopField p) (infoField p) (effectiveXover p) (peering p) (cachedMac p)
    (identifier p) (fabrid p) (mplsLabel p) (nextHop p) (transit p).
Definition set_path_at (r : Raw.t) (off : Z) (p : t) : t :=
  mk (d p) (ingressID p) (rawPkt p) (srcAddr p) (scionLayer p) (hbhLayer p) (e2eLayer p) (lastLayer p)
    r off (hopField p) (infoField p) (effectiveXover p) (peering p) (cachedMac p)
    (identifier p) (fabrid p) (mplsLabel p) (nextHop p) (transit p).
Definition set_hopField (x : HopField.t) (p : t) : t :=
  mk (d p) (ingressID p) (rawPkt p) (srcAddr p) (scionLayer p) (hbhLayer p) (e2eLayer p) (lastLayer p)
    (path p) (pathOff p) x (infoField p) (effectiveXover p) (peering p) (cachedMac p)
    (identifier p) (fabrid p) (mplsLabel p) (nextHop p) (transit p).
Definition set_infoField (x : InfoField.t) (p : t) : t :=
  mk (d p) (ingressID p) (rawPkt p) (srcAddr p) (scionLayer p) (hbhLayer p) (e2eLayer p) (lastLayer p)
    (path p) (pathOff p) (hopField p) x (effectiveXover p) (peering p) (cachedMac p)
    (identifier p) (fabrid p) (mplsLabel p) (nextHop p) (transit p).
Definition set_flags (xover peer : bool) (p : t) : t :=
  mk (d p) (ingressID p) (rawPkt p) (srcAddr p) (scionLayer p) (hbhLayer p) (e2eLayer p) (lastLayer p)
    (path p) (pathOff p) (hopField p) (infoField p) xover peer (cachedMac p)
    (identifier p) (fabrid p) (mplsLabel p) (nextHop p) (transit p).
Definition set_cachedMac (x : bytes) (p : t) : t :=
  mk (d p) (ingressID p) (rawPkt p) (srcAddr p) (scionLayer p) (hbhLayer p) (e2eLayer p) (lastLayer p)
    (path p) (pathOff p) (hopField p) (infoField p) (effectiveXover p) (peering p) (Some x)
    (identifier p) (fabrid p) (mplsLabel p) (nextHop p) (transit p).
Definition set_options (i : option Identifier.t) (f : option Fabrid.t) (p : t) : t :=
  mk (d p) (ingressID p) (rawPkt p) (srcAddr p) (scionLayer p) (hbhLayer p) (e2eLayer p) (lastLayer p)
    (path p) (pathOff p) (hopField p) (infoField p) (effectiveXover p) (peering p) (cachedMac p)
    i f (mplsLabel p) (nextHop p) (transit p).
Definition set_mplsLabel (x : Z) (p : t) : t :=
  mk (d p) (ingressID p) (rawPkt p) (srcAddr p) (scionLayer p) (hbhLayer p) (e2eLayer p) (lastLayer p)
    (path p) (pathOff p) (hopField p) (infoField p) (effectiveXover p) (peering p) (cachedMac p)
    (identifier p) (fabrid p) x (nextHop p) (transit p).
Definition set_transit (tr : transitType) (hop : option UDPAddr) (p : t) : t :=
  mk (d p) (ingressID p) (rawPkt p) (srcAddr p) (scionLayer p) (hbhLayer p) (e2eLayer p) (lastLayer p)
    (path p) (pathOff p) (hopField p) (infoField p) (effectiveXover p) (peering p) (cachedMac p)
    (identifier p) (fabrid p) (mplsLabel p) hop tr.

(** ** Outcomes of a processing step *)

(** A step goes on, hands the packet to the slow path (the error
    [slowPathRequired]), drops the packet with another error, or panics. *)
Inductive verdict (A : Type) :=
| Continue (a : A)
| SlowPath (r : slowPathRequest)
| Drop (e : error)
| Crash.
Arguments Continue {A} a.
Arguments SlowPath {A} r.
Arguments Drop {A} e.
Arguments Crash {A}.

Definition P (A : Type) : Type := t → t * verdict A.

#[export] Instance P_ret : MRet P := λ A a p, (p, Continue a).
#[export] Instance P_bind : MBind P := λ A B f m p,
  match m p with
  | (p', Continue a) => f a p'
  | (p', SlowPath r) => (p', SlowPath r)
  | (p', Drop e) => (p', Drop e)
  | (p', Crash) => (p', Crash)
  end.

Definition verdict_of {A} (o : outcome A) : verdict A :=
  match o with Ok a => Continue a | Err e => Drop e | Panic => Crash end.
Definition call {A} (o : outcome A) : P A := λ p, (p, verdict_of o).
Definition read {A} (f : t → A) : P A := λ p, (p, Continue (f p)).
Definition update (f : t → t) : P unit := λ p, (f p, Continue tt).
Definition slow_path_if (c : bool) (r : slowPathRequest) : P unit :=
  λ p, (p, if c then SlowPath r else Continue tt).

(** Runs a method of the path: its bytes are a window of the packet. *)
Definition write_window (off : Z) (w pkt : bytes) : bytes :=
  take (Z.to_nat off) pkt ++ w ++ drop (Z.to_nat off + length w) pkt.
Definition on_path {A} (m : SE Raw.t A) : P A := λ p,
  let '(r, o) := m (path p) in
  (set_rawPkt (write_window (pathOff p) (Raw.raw_bytes r) (rawPkt p)) (set_path_at r (pathOff p) p),
   verdict_of o).

Definition on_plane {A} (m : SE DataPlane.t A) : P A := λ p,
  let '(x, o) := m (d p) in (set_d x p, verdict_of o).

Definition meta (p : t) : MetaHdr.t := Base.PathMeta (Raw.base (path p)).
Definition CurrINF (p : t) : Z := MetaHdr.CurrINF (meta p).
Definition CurrHF (p : t) : Z := MetaHdr.CurrHF (meta p).

(** [p.lastLayer.LayerPayload()] and [nextHdr(p.lastLayer)] *)
Definition LayerPayload (p : t) : bytes :=
  match lastLayer p with
  | LSCION => SCION.Payload (scionLayer p)
  | LHopByHop => Extn.Payload (hbhLayer p)
  | LEndToEnd => Extn.Payload (e2eLayer p)
  end.
Definition nextHdr (p : t) : Z :=
  match lastLayer p with
  | LSCION => SCION.NextHdr (scionLayer p)
  | LHopByHop => Extn.NextHdr (hbhLayer p)
  | LEndToEnd => Extn.NextHdr (e2eLayer p)
  end.

Definition invalidSrcIA_err : error := New "invalid source ISD-AS".
Definition invalidDstIA_err : error := New "invalid destination ISD-AS".
Definition invalidSrcAddrForTransit : error := New "invalid source address for transit pkt".
Definition cannotRoute : error := New "cannot route, dropping pkt".
Definition malformedPath : error := New "malformed path content".
Definition errPeeringEmptySeg0 : error := New "zero-length segment[0] in peering path".
Definition errPeeringEmptySeg1 : error := New "zero-length segment[1] in peering path".
Definition errPeeringNonemptySeg2 : error := New "non-zero-length segment[2] in peering path".
Definition errBFDSessionDown : error := New "bfd session down".
Definition expiredHop : error := New "expired hop".
Definition ingressInterfaceInvalid : error := New "ingress interface invalid".
Definition macVerificationFailed : error := New "MAC verification failed".
Definition badPacketSize : error := New "bad packet size".

(** ** Checks *)

(** On an error the field that could not be read is left alone; the packet is
    dropped and the processor is reset. *)
Definition parsePath : P unit :=
  hop ← (λ p, (p, verdict_of (Raw.GetCurrentHopField (path p))));
  _ ← update (set_hopField hop);
  info ← (λ p, (p, verdict_of (Raw.GetCurrentInfoField (path p))));
  update (set_infoField info).

Definition peer_of (pathMeta : MetaHdr.t) (inf : InfoField.t) : outcome bool :=
  if negb (InfoField.Peer inf) then Ok false else
  _ ← fail_if (MetaHdr.SegLen pathMeta 0 =? 0) errPeeringEmptySeg0;
  _ ← fail_if (MetaHdr.SegLen pathMeta 1 =? 0) errPeeringEmptySeg1;
  _ ← fail_if (negb (MetaHdr.SegLen pathMeta 2 =? 0)) errPeeringNonemptySeg2;
  let currHF := MetaHdr.CurrHF pathMeta in
  let segLen := MetaHdr.SegLen pathMeta 0 in
  Ok ((currHF =? u8 (segLen - 1)) || (currHF =? segLen)).

Definition determinePeer : P unit :=
  peer ← (λ p, (p, verdict_of (peer_of (meta p) (infoField p))));
  update (λ p, set_flags (effectiveXover p) peer p).

Definition currentInfoPointer (p : t) : Z :=
  u16 (SCION.CmnHdrLen + SCION.AddrHdrLen (scionLayer p) + MetaLen + InfoField.InfoLen * CurrINF p).
Definition currentHopPointer (p : t) : Z :=
  u16 (SCION.CmnHdrLen + SCION.AddrHdrLen (scionLayer p) + MetaLen +
       InfoField.InfoLen * Base.NumINF (Raw.base (path p)) + HopField.HopLen * CurrHF p).

(** [c] holds of the state: to the slow path with the request for the state. *)
Definition reject_if (c : t → bool) (r : t → slowPathRequest) : P unit :=
  λ p, slow_path_if (c p) (r p) p.

Definition parameter_problem (code pointer : Z) (cause : error) : slowPathRequest :=
  scmp_request TypeCode.SCMPTypeParameterProblem code pointer cause.

(** The end of validity of the current hop field, in nanoseconds. *)
Definition expiration (p : t) : Z :=
  InfoField.Timestamp (infoField p) * DRKeyProvider.Second +
  HopField.ExpTimeToDuration (HopField.ExpTime (hopField p)).

Definition validateHopExpiry (now : Z) : P unit :=
  reject_if (λ p, expiration p <? now)
    (λ p, parameter_problem TypeCode.SCMPCodePathExpired (currentHopPointer p) expiredHop).

Definition validateIngressID : P unit :=
  reject_if
    (λ p, let pktIngressID := if negb (InfoField.ConsDir (infoField p))
                              then HopField.ConsEgress (hopField p) else HopField.ConsIngress (hopField p) in
          negb (ingressID p =? 0) && negb (ingressID p =? pktIngressID))
    (λ p, let errCode := if negb (InfoField.ConsDir (infoField p))
                         then TypeCode.SCMPCodeUnknownHopFieldEgress
                         else TypeCode.SCMPCodeUnknownHopFieldIngress in
          parameter_problem errCode (currentHopPointer p) ingressInterfaceInvalid).

Definition invalidSrcIA : slowPathRequest :=
  parameter_problem TypeCode.SCMPCodeInvalidSourceAddress (u16 (SCION.CmnHdrLen + ISDAS.IABytes)) invalidSrcIA_err.
Definition invalidDstIA : slowPathRequest :=
  parameter_problem TypeCode.SCMPCodeInvalidDestinationAddress (u16 SCION.CmnHdrLen) invalidDstIA_err.

Definition validateSrcDstIA : P unit := λ p,
  let srcIsLocal := SCION.SrcIA (scionLayer p) =? localIA (d p) in
  let dstIsLocal := SCION.DstIA (scionLayer p) =? localIA (d p) in
  (if ingressID p =? 0 then
     _ ← slow_path_if (Raw.IsFirstHop (path p) && negb srcIsLocal) invalidSrcIA;
     slow_path_if dstIsLocal invalidDstIA
   else
     _ ← slow_path_if srcIsLocal invalidSrcIA;
     slow_path_if (negb (Bool.eqb (Raw.IsLastHop (path p)) dstIsLocal)) invalidDstIA) p.

Definition egressInterface (p : t) : Z :=
  if InfoField.ConsDir (infoField p) then HopField.ConsEgress (hopField p)
  else HopField.ConsIngress (hopField p).

(** The calls of this method cannot fail: an error is a panic. *)
Definition ingressInterface (p : t) : outcome Z :=
  let must {A} (o : outcome A) : outcome A := match o with Err _ => Panic | o => o end in
  ih ← (if negb (peering p) && Raw.IsFirstHopAfterXover (path p) then
          info ← must (Raw.GetInfoField (path p) (CurrINF p - 1));
          hop ← must (Raw.GetHopField (path p) (CurrHF p - 1));
          Ok (info, hop)
        else Ok (infoField p, hopField p));
  let '(info, hop) := ih in
  Ok (if InfoField.ConsDir info then HopField.ConsIngress hop else HopField.ConsEgress hop).

Definition validateTransitUnderlaySrc : P unit := λ p,
  if Raw.IsFirstHop (path p) || negb (ingressID p =? 0) then (p, Continue tt) else
  (pktIngressID ← call (ingressInterface p);
   match internalNextHops (d p) !! pktIngressID with
   | Some expectedSrc =>
       if IP_Equal (IP expectedSrc) (IP (srcAddr p)) then mret tt
       else call (Err invalidSrcAddrForTransit)
   | None => call (Err invalidSrcAddrForTransit)
   end) p.

Definition link_type (p : t) (ifID : Z) : Z := default Unset (linkTypes (d p) !! ifID).

(** The pairs of link types that a packet may traverse within a segment. *)
Definition segment_pair (ingress egress : Z) : bool :=
  ((ingress =? Core) && (egress =? Core)) || ((ingress =? Child) && (egress =? Parent)) ||
  ((ingress =? Parent) && (egress =? Child)) || ((ingress =? Child) && (egress =? Peer)) ||
  ((ingress =? Peer) && (egress =? Child)).

(** The pairs of link types between which a packet may change segments. *)
Definition xover_pair (ingress egress : Z) : bool :=
  ((ingress =? Core) && (egress =? Child)) || ((ingress =? Child) && (egress =? Core)) ||
  ((ingress =? Child) && (egress =? Child)).

Definition unknown_hop_code (p : t) : Z :=
  if negb (InfoField.ConsDir (infoField p)) then TypeCode.SCMPCodeUnknownHopFieldIngress
  else TypeCode.SCMPCodeUnknownHopFieldEgress.

Definition validateEgressID : P unit := λ p,
  let pktEgressID := egressInterface p in
  let ih := negb (is_nil (internalNextHops (d p) !! pktEgressID)) in
  let eh := negb (is_nil (external (d p) !! pktEgressID)) in
  (_ ← slow_path_if ((negb ih && negb eh) || ((ingressID p =? 0) && negb eh))
         (parameter_problem (unknown_hop_code p) (currentHopPointer p) cannotRoute);
   let ingress := link_type p (ingressID p) in
   let egress := link_type p pktEgressID in
   if negb (effectiveXover p) then
     slow_path_if (negb ((ingressID p =? 0) || segment_pair ingress egress))
       (parameter_problem TypeCode.SCMPCodeInvalidPath (currentHopPointer p) cannotRoute)
   else
     slow_path_if (negb (xover_pair ingress egress))
       (parameter_problem TypeCode.SCMPCodeInvalidSegmentChange (currentInfoPointer p) cannotRoute)) p.

Definition validatePktLen : P unit :=
  reject_if (λ p, negb (SCION.PayloadLen (scionLayer p) =? len (SCION.Payload (scionLayer p))))
    (λ _, parameter_problem TypeCode.SCMPCodeInvalidPacketSize 0 badPacketSize).

(** [IsUp] is the state of a BFD session when it is asked for. *)
Definition validateEgressUp (IsUp : nat → bool) : P unit :=
  reject_if (λ p, session_down IsUp (d p) (egressInterface p))
    (λ p, let egressID := egressInterface p in
          if is_nil (external (d p) !! egressID) then
            mkSlow slowPathSCMP TypeCode.SCMPTypeInternalConnectivityDown 0 (Some errBFDSessionDown) 0
              (localIA (d p)) 0 (ingressID p) egressID
          else
            mkSlow slowPathSCMP TypeCode.SCMPTypeExternalInterfaceDown 0 (Some errBFDSessionDown) 0
              (localIA (d p)) egressID 0 0).

(** ** Updates *)

Definition update_segID : P unit :=
  info ← (λ p, (p, verdict_of (InfoField.UpdateSegID (infoField p) (HopField.Mac (hopField p)))));
  update (set_infoField info).

(** [p.path.SetInfoField(p.infoField, int(p.path.PathMeta.CurrINF))], and the
    hop field likewise. *)
Definition store_info (msg : string) : P unit := λ p,
  on_path (wrap_errS msg (Raw.SetInfoField (infoField p) (CurrINF p))) p.
Definition store_hop (msg : string) : P unit := λ p,
  on_path (wrap_errS msg (Raw.SetHopField (hopField p) (CurrHF p))) p.

Definition updateNonConsDirIngressSegID : P unit := λ p,
  if negb (InfoField.ConsDir (infoField p)) && negb (ingressID p =? 0) && negb (peering p)
  then (_ ← update_segID; store_info "update info field") p
  else (p, Continue tt).

Definition processEgress : P unit :=
  _ ← (λ p, if InfoField.ConsDir (infoField p) && negb (peering p)
            then (_ ← update_segID; store_info "update info field") p
            else (p, Continue tt));
  on_path (wrap_errS "incrementing path" Raw.IncPath).

Definition doXover : P unit :=
  _ ← update (λ p, set_flags true (peering p) p);
  _ ← on_path (wrap_errS "incrementing path" Raw.IncPath);
  parsePath.

Definition set_ingress_alert (b : bool) (h : HopField.t) : HopField.t :=
  HopField.mk b (HopField.EgressRouterAlert h) (HopField.ExpTime h) (HopField.ConsIngress h)
    (HopField.ConsEgress h) (HopField.Mac h).
Definition set_egress_alert (b : bool) (h : HopField.t) : HopField.t :=
  HopField.mk (HopField.IngressRouterAlert h) b (HopField.ExpTime h) (HopField.ConsIngress h)
    (HopField.ConsEgress h) (HopField.Mac h).

(** The flag of the current hop field that the function of the code points to:
    [at_ingress] says for which side. *)
Definition alert_flag (at_ingress : bool) (p : t) : bool :=
  if Bool.eqb (InfoField.ConsDir (infoField p)) at_ingress
  then HopField.IngressRouterAlert (hopField p) else HopField.EgressRouterAlert (hopField p).
Definition clear_alert (at_ingress : bool) (p : t) : t :=
  set_hopField
    ((if Bool.eqb (InfoField.ConsDir (infoField p)) at_ingress then set_ingress_alert false
      else set_egress_alert false) (hopField p)) p.
Definition ingressRouterAlertFlag := alert_flag true.
Definition egressRouterAlertFlag := alert_flag false.

Definition router_alert (interfaceID : Z) : slowPathRequest :=
  mkSlow slowPathRouterAlert 0 0 None 0 0 interfaceID 0 0.

Definition handleIngressRouterAlert : P unit := λ p,
  if ingressID p =? 0 then (p, Continue tt) else
  if negb (ingressRouterAlertFlag p) then (p, Continue tt) else
  (_ ← update (clear_alert true);
   _ ← store_hop "update hop field";
   slow_path_if true (router_alert (ingressID p))) p.

Definition handleEgressRouterAlert : P unit := λ p,
  if negb (egressRouterAlertFlag p) then (p, Continue tt) else
  let egressID := egressInterface p in
  if is_nil (external (d p) !! egressID) then (p, Continue tt) else
  (_ ← update (clear_alert false);
   _ ← store_hop "update hop field";
   slow_path_if true (router_alert egressID)) p.

(** ** FABRID, dataplane_fabrid.go *)

Definition getFabridMplsLabelForInterface (d : DataPlane.t) (ingressID policyIndex egressID : Z) : outcome Z :=
  let key := u64 (u64 (Z.shiftl ingressID 24) + u64 (Z.shiftl egressID 8) + policyIndex) in
  match fabridPolicyInterfaceMap d !! key with
  | Some mplsLabel => Ok mplsLabel
  | None =>
      let key := u64 (2 ^ 63 + u64 (Z.shiftl egressID 8) + policyIndex) in
      match fabridPolicyInterfaceMap d !! key with
      | Some mplsLabel => Ok mplsLabel
      | None => Err (New "Provided policyID is invalid")
      end
  end.

(** The loop that keeps the range with the longest prefix. *)
Definition better_range (ip : bytes) (best : option PolicyIPRange) (r : PolicyIPRange) : option PolicyIPRange :=
  if Contains (IPPrefix r) ip then
    match best with
    | None => Some r
    | Some b => if ones (IPPrefix b) <? ones (IPPrefix r) then Some r else best
    end
  else best.

Definition getFabridMplsLabel (d : DataPlane.t) (ingressID policyIndex : Z) (nextHopIP : bytes) : outcome Z :=
  let key := u32 (u32 (Z.shiftl ingressID 8) + policyIndex) in
  ipRanges ← match fabridPolicyIPRangeMap d !! key with
             | Some r => Ok r
             | None =>
                 let key := u32 (2 ^ 31 + policyIndex) in
                 match fabridPolicyIPRangeMap d !! key with
                 | Some r => Ok r
                 | None => Err (New "Provided policyID is invalid")
                 end
             end;
  match foldl (better_range nextHopIP) None ipRanges with
  | None => Err (New "Provided policy index is not valid for nexthop.")
  | Some best => Ok (MPLSLabel best)
  end.

Section processor.
Context (aes_Encrypt : bytes → bytes → bytes) (mac : bytes → bytes).
Context (netip_ParseAddr : gostring → outcome IP.t) (netip_String : IP.t → gostring).
Context (NewPacket : bytes → L4.LayerType → list Layer) (intn : Z → Z).
(** [now] is what [time.Now] returns while the packet is processed. *)
Context (now : Z) (IsUp : nat → bool).

(** [o.Err ? f : o] *)
Definition or_else {A} (o f : outcome A) : outcome A := match o with Err _ => f | o => o end.

(** The label of the packet for policy [policyID], if one is to be set. *)
Definition fabrid_label (p : t) (policyID egressIF : Z) : outcome (option Z) :=
  match transit p with
  | ingressEgressSameRouter => Ok None
  | ingressEgressDifferentRouter =>
      Some <$> getFabridMplsLabelForInterface (d p) (ingressID p) policyID egressIF
  | internalTraffic =>
      hop ← DataPlane.deref (nextHop p);
      Some <$> or_else (getFabridMplsLabel (d p) (ingressID p) policyID (IP hop))
        (getFabridMplsLabelForInterface (d p) (ingressID p) policyID 0)
  end.

(** The contents of [fabridInputBuffer] are overwritten before they are read. *)
Definition processFabrid (egressIF : Z) : P unit := λ p,
  match fabrid p, identifier p with
  | Some f, Some id =>
      (meta ← call (get (Fabrid.HopfieldMetadata f) 0);
       src ← call (SCION.SrcAddr (scionLayer p));
       key ← call (if Fabrid.ASLevelKey meta then
                     DRKeyProvider.DeriveASASKey aes_Encrypt now (drkeys (d p)) DRKeyProvider.FABRID
                       (Identifier.Timestamp id) (SCION.SrcIA (scionLayer p))
                   else
                     text ← Host.String_ netip_String src;
                     DRKeyProvider.DeriveASHostKey aes_Encrypt netip_ParseAddr now (drkeys (d p))
                       DRKeyProvider.FABRID (Identifier.Timestamp id) (SCION.SrcIA (scionLayer p)) text);
       policyID ← call (FabridCrypto.ComputePolicyID aes_Encrypt meta (Some id) key);
       meta ← call (FabridCrypto.VerifyAndUpdate aes_Encrypt meta (Some id) (scionLayer p)
                      (make_bytes FabridCrypto.FabridMacInputSize) key (ingressID p) egressIF);
       rest ← call (sub_from (Fabrid.HopfieldMetadata f) 1);
       _ ← update (set_options (identifier p) (Some (Fabrid.mk (meta :: rest) (Fabrid.PathValidator f))));
       if negb (policyID =? 0) then
         label ← call (fabrid_label p policyID egressIF);
         match label with Some l => update (set_mplsLabel l) | None => mret tt end
       else mret tt) p
  | _, _ => (p, Crash)
  end.

Definition is_some {A} (o : option A) : bool := negb (is_nil o).

(** The identifier option; the base is the timestamp of the first info field. *)
Definition identifier_option (opt : TLV.t) : P unit := λ p,
  if is_some (identifier p) then (p, Drop (New "Identifier HBH option provided multiple times")) else
  (baseTimestamp ← (if 0 <? CurrINF p then
                      match Raw.GetInfoField (path p) 0 with
                      | Ok firstInfoField => mret (InfoField.Timestamp firstInfoField)
                      | Err _ => call (Err (New "Failed to parse first InfoField"))
                      | Panic => call Panic
                      end
                    else mret (InfoField.Timestamp (infoField p)));
   id ← call (Identifier.ParseIdentifierOption opt baseTimestamp);
   update (set_options (Some id) (fabrid p))) p.

(** The index of the hop among the FABRID hops, and their number. *)
Definition fabrid_hop (p : t) : Z :=
  if InfoField.Peer (infoField p) then CurrHF p else u8 (CurrHF p - CurrINF p).
Definition fabrid_hops (p : t) : Z :=
  Base.NumHops (Raw.base (path p)) - Base.NumINF (Raw.base (path p)) + 1 +
  (if InfoField.Peer (infoField p) then 1 else 0).

(** The FABRID option, whose data starts at [dataOff] of the packet.  The result
    says that the remaining options are to be skipped. *)
Definition fabrid_option (egressIF : Z) (opt : TLV.t) (dataOff : Z) : P bool := λ p,
  if is_some (fabrid p) then (p, Drop (New "FABRID HBH option provided multiple times")) else
  if is_nil (identifier p) then (p, Drop (New "Identifier HBH option must be present when using FABRID")) else
  let currHop := fabrid_hop p in
  if (ingressID p =? 0) && negb (currHop =? 0) then (p, Continue true) else
  (f ← call (Fabrid.ParseFabridOptionCurrentHop opt currHop (u8 (fabrid_hops p)));
   meta ← call (get (Fabrid.HopfieldMetadata f) 0);
   if Fabrid.FabridEnabled meta then
     _ ← update (λ p, set_options (identifier p) (Some f) p);
     _ ← processFabrid egressIF;
     updated ← read fabrid;
     meta ← call (f ← DataPlane.deref updated; get (Fabrid.HopfieldMetadata f) 0);
     let off := u8 (currHop * 4) in
     optData ← call (on_sub_from (TLV.OptData opt) off (Fabrid.SerializeTo_md meta));
     _ ← update (λ p, set_rawPkt (write_window dataOff optData (rawPkt p)) p);
     mret false
   else mret false) p.

(** The loop over the options that are left, the first of which starts at [off]
    in the packet. *)
Fixpoint hbh_loop (egressIF : Z) (opts : list TLV.t) (off : Z) : P unit :=
  match opts with
  | [] => mret tt
  | opt :: opts =>
      stop ← (if TLV.OptType opt =? TLV.OptTypeIdentifier then _ ← identifier_option opt; mret false
              else if TLV.OptType opt =? TLV.OptTypeFabrid then fabrid_option egressIF opt (off + 2)
              else mret false);
      if (stop : bool) then mret tt else hbh_loop egressIF opts (off + TLV.ActualLength opt)
  end.

Definition processHbhOptions (egressIF : Z) : P unit := λ p,
  hbh_loop egressIF (Extn.Options (hbhLayer p))
    (SCION.HdrLen (scionLayer p) * AddrType.LineLen + 2) p.

(** ** Processing a packet with a SCION path *)

Definition verifyCurrentMAC : P unit := λ p,
  (fullMac ← call (Mac.FullMAC mac (infoField p) (hopField p) (make_bytes Mac.MACBufferSize));
   expected ← call (sub fullMac 0 HopField.MacLen);
   _ ← slow_path_if (negb (bool_decide (HopField.Mac (hopField p) = expected)))
         (parameter_problem TypeCode.SCMPCodeInvalidHopFieldMAC (currentHopPointer p) macVerificationFailed);
   update (set_cachedMac fullMac)) p.

(** The [default] case passes on the nil address of any other error. *)
Definition resolveInbound : P (option UDPAddr) := λ p,
  let '(dp, r) := resolveLocalDst NewPacket intn (scionLayer p) (nextHdr p) (LayerPayload p) (d p) in
  let p := set_d dp p in
  match r with
  | Ok a => (p, Continue (Some a))
  | Panic => (p, Crash)
  | Err e =>
      if errors_Is e noSVCBackend then
        (p, SlowPath (scmp_request TypeCode.SCMPTypeDestinationUnreachable 0 0 e))
      else if errors_Is e invalidDstAddr then
        (p, SlowPath (scmp_request TypeCode.SCMPTypeParameterProblem
                        TypeCode.SCMPCodeInvalidDestinationAddress 0 e))
      else (p, Continue None)
  end.

(** A packet for the local AS. *)
Definition process_inbound : P processResult :=
  a ← resolveInbound;
  _ ← update (set_transit internalTraffic a);
  _ ← processHbhOptions 0;
  pkt ← read rawPkt;
  mret (mkResult 0 a (Some pkt) ttIn).

(** The validation of the next hop field after a change of segment. *)
Definition xover_if_needed : P unit := λ p,
  if Raw.IsXover (path p) && negb (peering p) then
    (_ ← doXover; _ ← validateHopExpiry now; verifyCurrentMAC) p
  else (p, Continue tt).

Definition traffic_type (p : t) : Z :=
  if SCION.SrcIA (scionLayer p) =? localIA (d p) then ttOut
  else if ingressID p =? 0 then ttOutTransit else ttBrTransit.

(** Sends the packet out of the interface of this router, or to the router that
    has the interface. *)
Definition forward : P processResult := λ p,
  let egressID := egressInterface p in
  if is_some (external (d p) !! egressID) then
    (_ ← update (λ p, set_transit ingressEgressSameRouter (nextHop p) p);
     _ ← processHbhOptions egressID;
     _ ← processEgress;
     p ← read id;
     mret (mkResult egressID None (Some (rawPkt p)) (traffic_type p))) p
  else
  match internalNextHops (d p) !! egressID with
  | Some a =>
      (_ ← update (set_transit ingressEgressDifferentRouter (Some a));
       _ ← processHbhOptions egressID;
       p ← read id;
       mret (mkResult 0 (Some a) (Some (rawPkt p)) ttInTransit)) p
  | None =>
      (p, SlowPath (parameter_problem (unknown_hop_code p) (currentHopPointer p) cannotRoute))
  end.

(** A packet that leaves the AS, here or through another router. *)
Definition process_outbound : P processResult :=
  _ ← xover_if_needed;
  _ ← validateEgressID;
  _ ← handleEgressRouterAlert;
  _ ← validateEgressUp IsUp;
  forward.

(** The first half of [process], up to the alert at the ingress. *)
Definition process_arrival : P unit :=
  _ ← parsePath;
  _ ← determinePeer;
  _ ← validateHopExpiry now;
  _ ← validateIngressID;
  _ ← validatePktLen;
  _ ← validateTransitUnderlaySrc;
  _ ← validateSrcDstIA;
  _ ← updateNonConsDirIngressSegID;
  _ ← verifyCurrentMAC;
  handleIngressRouterAlert.

Definition process : P processResult :=
  _ ← process_arrival;
  p ← read id;
  if SCION.DstIA (scionLayer p) =? localIA (d p) then process_inbound else process_outbound.
End processor.

End Processor.
