(* ===== verification/RouterLemmas.v ===== *)
(** Lemmas on the packet processor: the inversion of its steps (Module
    [StepLemmas]), and what each step does to the decoded path that the bytes of
    the packet represent (Module [PathLemmas]). *)
From S2P Require Export RouterProcess.

(** * Steps *)
Module StepLemmas.

Import Net DataPlane LocalDelivery Processor.

Section bind.
Context {A B : Type}.
Implicit Types (m : P A) (f : A → P B) (p : t).

Lemma P_bind_Continue m f p p'' b :
  (m ≫= f) p = (p'', Continue b) ↔ ∃ p' a, m p = (p', Continue a) ∧ f a p' = (p'', Continue b).
Proof. unfold mbind, P_bind. destruct (m p) as [? [| | |]]; naive_solver. Qed.

Lemma P_bind_eq m f p p' a : m p = (p', Continue a) → (m ≫= f) p = f a p'.
Proof. intros H. unfold mbind, P_bind. by rewrite H. Qed.

(** What holds of the state after every verdict, and the absence of panics. *)
Lemma P_bind_state (I : t → Prop) m f p :
  I (m p).1 → (∀ p' a, m p = (p', Continue a) → I (f a p').1) → I ((m ≫= f) p).1.
Proof. unfold mbind, P_bind. destruct (m p) as [? [| | |]]; naive_solver. Qed.

Lemma P_bind_no_crash m f p :
  (m p).2 ≠ Crash → (∀ p' a, m p = (p', Continue a) → (f a p').2 ≠ Crash) →
  ((m ≫= f) p).2 ≠ Crash.
Proof. unfold mbind, P_bind. destruct (m p) as [? [| | |]]; naive_solver. Qed.
End bind.

Lemma call_Continue {A} (o : outcome A) p p' a :
  call o p = (p', Continue a) ↔ p' = p ∧ o = Ok a.
Proof. unfold call. destruct o; naive_solver. Qed.

Lemma slow_path_if_Continue c r p p' u :
  slow_path_if c r p = (p', Continue u) ↔ p' = p ∧ c = false.
Proof. unfold slow_path_if. destruct c, u; naive_solver. Qed.

Lemma reject_if_Continue c r p p' u :
  reject_if c r p = (p', Continue u) ↔ p' = p ∧ c p = false.
Proof. unfold reject_if. apply slow_path_if_Continue. Qed.

Lemma update_Continue f p p' u : update f p = (p', Continue u) ↔ p' = f p.
Proof. unfold update. destruct u. naive_solver. Qed.

Lemma mret_Continue {A} (a b : A) p p' : (mret a : P A) p = (p', Continue b) ↔ p' = p ∧ b = a.
Proof. unfold mret, P_ret. naive_solver. Qed.

Lemma read_Continue {A} (f : t → A) p p' a : read f p = (p', Continue a) ↔ p' = p ∧ a = f p.
Proof. unfold read. naive_solver. Qed.

Lemma verdict_Continue {A} (o : outcome A) (p p' : t) a :
  (p, verdict_of o) = (p', Continue a) ↔ p' = p ∧ o = Ok a.
Proof. destruct o; naive_solver. Qed.

End StepLemmas.

(** Takes apart the hypothesis that a chain of steps went on. *)
Ltac step_inv :=
  repeat match goal with
  | H : (mbind _ _) _ = (_, Processor.Continue _) |- _ =>
      apply StepLemmas.P_bind_Continue in H as (?&?&?&H)
  | H : Processor.call _ _ = (_, Processor.Continue _) |- _ =>
      apply StepLemmas.call_Continue in H as [??]
  | H : Processor.slow_path_if _ _ _ = (_, Processor.Continue _) |- _ =>
      apply StepLemmas.slow_path_if_Continue in H as [??]
  | H : Processor.reject_if _ _ _ = (_, Processor.Continue _) |- _ =>
      apply StepLemmas.reject_if_Continue in H as [??]
  | H : Processor.update _ _ = (_, Processor.Continue _) |- _ =>
      apply StepLemmas.update_Continue in H
  | H : Processor.read _ _ = (_, Processor.Continue _) |- _ =>
      apply StepLemmas.read_Continue in H as [??]
  | H : mret _ _ = (_, Processor.Continue _) |- _ =>
      apply StepLemmas.mret_Continue in H as [??]
  | H : (_, Processor.verdict_of _) = (_, Processor.Continue _) |- _ =>
      apply StepLemmas.verdict_Continue in H as [??]
  end; simplify_eq.

(** * The path in the packet *)
Module PathLemmas.

Import Net DataPlane LocalDelivery Processor StepLemmas RawRefinement.

(** The fields at the current position of a path. *)
Definition cur_hop (D : Decoded.t) : option HopField.t :=
  Decoded.HopFields D !! Z.to_nat (MetaHdr.CurrHF (Base.PathMeta (Decoded.base D))).
Definition cur_info (D : Decoded.t) : option InfoField.t :=
  Decoded.InfoFields D !! Z.to_nat (MetaHdr.CurrINF (Base.PathMeta (Decoded.base D))).

(** Stores an info field or a hop field at the current position. *)
Definition store_cur_info (info : InfoField.t) (D : Decoded.t) : Decoded.t :=
  with_InfoField (Z.to_nat (MetaHdr.CurrINF (Base.PathMeta (Decoded.base D)))) info D.
Definition store_cur_hop (hop : HopField.t) (D : Decoded.t) : Decoded.t :=
  with_HopField (Z.to_nat (MetaHdr.CurrHF (Base.PathMeta (Decoded.base D)))) hop D.

(** ** Writes keep the length *)

Lemma len_put {A} (l l' : list A) i v : put l i v = Ok l' → len l' = len l.
Proof.
  unfold put. destruct (i <? 0); [done|]. rewrite split_at_take_drop.
  destruct (Nat.leb_spec (Z.to_nat i) (length l)); [|done].
  destruct (drop (Z.to_nat i) l) as [|x r] eqn:E; [done|]. intros [= <-].
  rewrite <- (take_drop (Z.to_nat i) l) at 2. by rewrite E, !len_app, !len_cons.
Qed.

Lemma len_on_sub {A} (l l' : list A) lo hi f :
  (∀ m m', f m = Ok m' → len m' = len m) → on_sub l lo hi f = Ok l' → len l' = len l.
Proof.
  intros Hf. unfold on_sub. destruct (_ || _); [done|]. rewrite split_at_take_drop.
  destruct (Nat.leb_spec (Z.to_nat lo) (length l)); [|done]. rewrite split_at_take_drop.
  destruct (Nat.leb_spec (Z.to_nat (hi - lo)) (length (drop (Z.to_nat lo) l))); [|done].
  intros (m' & Hm & [= <-])%bind_Ok. apply Hf in Hm. rewrite !len_app, Hm.
  rewrite !len_take, !len_drop. unfold len in *. rewrite length_drop in *. lia.
Qed.

Lemma len_or_first c v (b b' : bytes) : HopField.or_first c v b = Ok b' → len b' = len b.
Proof. unfold HopField.or_first. destruct c; [|by intros [= ->]]. intros (x & _ & H)%bind_Ok. by apply len_put in H. Qed.

Lemma len_put_be n v (b b' : bytes) : put_be n v b = Ok b' → len b' = len b.
Proof.
  unfold put_be. rewrite split_at_take_drop. destruct (Nat.leb_spec n (length b)); [|done].
  intros [= <-]. unfold len. rewrite length_app, length_be_bytes, length_drop. lia.
Qed.

Lemma len_info_SerializeTo inf (b b' : bytes) : InfoField.SerializeTo inf b = Ok b' → len b' = len b.
Proof.
  unfold InfoField.SerializeTo. intros (? & _ & H)%bind_Ok.
  apply bind_Ok in H as (? & H1 & H). apply bind_Ok in H as (? & H2 & H). apply bind_Ok in H as (? & H3 & H).
  apply bind_Ok in H as (? & H4 & H). apply bind_Ok in H as (? & H5 & H).
  apply len_on_sub in H, H5; try (intros ? ?; apply len_put_be). apply len_put in H1, H4. apply len_or_first in H2, H3.
  congruence.
Qed.

Lemma len_hop_SerializeTo h (b b' : bytes) : HopField.SerializeTo h b = Ok b' → len b' = len b.
Proof.
  unfold HopField.SerializeTo. intros (? & _ & H)%bind_Ok.
  apply bind_Ok in H as (? & H1 & H). apply bind_Ok in H as (? & H2 & H). apply bind_Ok in H as (? & H3 & H).
  apply bind_Ok in H as (? & H4 & H). apply bind_Ok in H as (? & H5 & H). apply bind_Ok in H as (? & H6 & H).
  apply len_on_sub in H; [|intros ? ? [= <-]; apply len_copy].
  apply len_on_sub in H5, H6; try (intros ? ?; apply len_put_be). apply len_put in H1, H4. apply len_or_first in H2, H3.
  congruence.
Qed.

(** ** Windows of the packet *)

Lemma window_len off (w pkt : bytes) :
  0 ≤ off → off + len w ≤ len pkt → len (write_window off w pkt) = len pkt.
Proof. intros. unfold write_window. rewrite !len_app, len_take, len_drop. unfold len in *. lia. Qed.

Lemma window_read off (w pkt : bytes) :
  0 ≤ off → off + len w ≤ len pkt →
  take (length w) (drop (Z.to_nat off) (write_window off w pkt)) = w.
Proof.
  intros. unfold write_window. rewrite drop_app_length' by (rewrite length_take; unfold len in *; lia).
  by apply take_app_length.
Qed.

Lemma window_before off (w pkt : bytes) n :
  0 ≤ off → off + len w ≤ len pkt → (n ≤ Z.to_nat off)%nat →
  take n (write_window off w pkt) = take n pkt.
Proof.
  intros. unfold write_window. rewrite take_app_le by (rewrite length_take; unfold len in *; lia).
  rewrite take_take. f_equal. lia.
Qed.

Lemma window_after off (w pkt : bytes) n :
  0 ≤ off → off + len w ≤ len pkt → (Z.to_nat off + length w ≤ n)%nat →
  drop n (write_window off w pkt) = drop n pkt.
Proof.
  intros. unfold write_window. rewrite app_assoc, drop_app_ge by (rewrite length_app, length_take; unfold len in *; lia).
  rewrite drop_drop. f_equal. rewrite length_app, length_take. unfold len in *. lia.
Qed.

(** Bytes outside the window of the path are the same. *)
Record same_outside (off n : Z) (pkt pkt' : bytes) : Prop := {
  outside_len : len pkt' = len pkt;
  outside_before : take (Z.to_nat off) pkt' = take (Z.to_nat off) pkt;
  outside_after : drop (Z.to_nat (off + n)) pkt' = drop (Z.to_nat (off + n)) pkt
}.

#[export] Instance same_outside_preorder off n : PreOrder (same_outside off n).
Proof. split; [by split|]. intros ? ? ? [] []. split; congruence. Qed.

Lemma window_same_outside off (w pkt : bytes) :
  0 ≤ off → off + len w ≤ len pkt → same_outside off (len w) pkt (write_window off w pkt).
Proof.
  intros. split; [by apply window_len|by apply window_before|apply window_after; unfold len in *; lia].
Qed.

(** The bytes of a raw path start with its meta header. *)
Definition synced (r : Raw.t) : Prop := Base.DecodeFromBytes (Raw.raw_bytes r) = Ok (Raw.base r).

Lemma base_decode_prefix (b b' : bytes) :
  len b' = len b → take 4 b' = take 4 b → Base.DecodeFromBytes b' = Base.DecodeFromBytes b.
Proof.
  intros HL HT. unfold Base.DecodeFromBytes. enough (MetaHdr.DecodeFromBytes b' = MetaHdr.DecodeFromBytes b) as -> by done.
  unfold MetaHdr.DecodeFromBytes. rewrite HL. destruct (Z.ltb_spec (len b) MetaLen) as [|H4]; [done|]. go_cbn.
  unfold MetaLen in H4. unfold Uint32. rewrite !get_be_Ok by lia. by rewrite HT.
Qed.

Lemma base_decode_take n (b : bytes) :
  (4 ≤ n)%nat → (4 ≤ length b)%nat → Base.DecodeFromBytes (take n b) = Base.DecodeFromBytes b.
Proof.
  intros Hn Hb. unfold Base.DecodeFromBytes. enough (MetaHdr.DecodeFromBytes (take n b) = MetaHdr.DecodeFromBytes b) as -> by done.
  unfold MetaHdr.DecodeFromBytes, Uint32, MetaLen. rewrite len_take. unfold len.
  do 2 go_guard. rewrite !get_be_Ok by (rewrite ?len_take; unfold len; lia).
  rewrite take_take. by replace (4 `min` n)%nat with 4%nat by lia.
Qed.

Lemma on_sub_prefix_same (l l' : bytes) lo hi f :
  4 ≤ lo → (∀ m m', f m = Ok m' → len m' = len m) → on_sub l lo hi f = Ok l' → len l' = len l ∧ take 4 l' = take 4 l.
Proof.
  intros Hlo Hf. unfold on_sub. destruct (_ || _); [done|]. rewrite split_at_take_drop.
  destruct (Nat.leb_spec (Z.to_nat lo) (length l)) as [Hl|]; [|done]. rewrite split_at_take_drop.
  destruct (Nat.leb_spec (Z.to_nat (hi - lo)) (length (drop (Z.to_nat lo) l))); [|done].
  intros (m' & Hm & [= <-])%bind_Ok. apply Hf in Hm. split.
  - rewrite !len_app, Hm, !len_take, !len_drop. unfold len in *. rewrite length_drop in *. lia.
  - rewrite take_app_le by (rewrite length_take; lia). rewrite take_take. f_equal. lia.
Qed.

Lemma write_raw_synced r r' lo hi f u :
  4 ≤ lo → (∀ m m', f m = Ok m' → len m' = len m) →
  Raw.write_raw (λ b, on_sub b lo hi f) r = (r', Ok u) → synced r → synced r'.
Proof.
  intros Hlo Hf. unfold Raw.write_raw, synced.
  destruct (on_sub (Raw.raw_bytes r) lo hi f) as [b| |] eqn:E; [|done..]. intros [= <- _].
  destruct (on_sub_prefix_same _ _ _ _ _ Hlo Hf E) as [HL HT]. cbn.
  intros <-. by apply base_decode_prefix.
Qed.

(** The processor works on a path that represents [D], stored in the packet. *)
Record holds (p : t) (D : Decoded.t) : Prop := {
  holds_repr : repr (path p) D;
  holds_off : 0 ≤ pathOff p;
  holds_bound : pathOff p + Decoded.Len D ≤ len (rawPkt p);
  holds_window : take (Z.to_nat (Decoded.Len D)) (drop (Z.to_nat (pathOff p)) (rawPkt p)) = Raw.raw_bytes (path p)
}.

Lemma repr_len r D : repr r D → len (Raw.raw_bytes r) = Decoded.Len D.
Proof. intros H. rewrite (repr_wf_len _ _ H). unfold Raw.Len, Decoded.Len. by rewrite (repr_base _ _ H). Qed.

(** Decoding the path from the packet gives the path of the processor. *)
Lemma holds_decode p D :
  holds p D → synced (path p) → wf_bytes (drop (Z.to_nat (pathOff p)) (rawPkt p)) →
  Raw.DecodeFromBytes (drop (Z.to_nat (pathOff p)) (rawPkt p)) = Ok (path p).
Proof.
  intros [Hr Ho Hb Hw] Hs Hwf. apply Raw.raw_DecodeFromBytes_Ok; [done|].
  pose proof (repr_len _ _ Hr) as HL.
  assert (Raw.Len (path p) = Decoded.Len D) as EL by (unfold Raw.Len, Decoded.Len; by rewrite (repr_base _ _ Hr)).
  pose proof (Base.Len_range _ (Decoded.wf_base _ (repr_wf _ _ Hr))). unfold Decoded.Len, MetaLen in *.
  set (b := drop _ (rawPkt p)) in *.
  assert (len (rawPkt p) - pathOff p = len b) as Lb by (unfold b; rewrite len_drop; lia).
  split_and!.
  - rewrite <- (base_decode_take (Z.to_nat (Base.Len (Decoded.base D))) b) by (unfold len in *; lia). by rewrite Hw.
  - lia.
  - rewrite EL, Hw. destruct (repr_raw _ _ Hr) as (? & ? & ? & E & _). unfold Raw.raw_bytes. by rewrite E.
Qed.

(** The state after a method of the path left it as [r]. *)
Definition with_path (r : Raw.t) (p : t) : t :=
  set_rawPkt (write_window (pathOff p) (Raw.raw_bytes r) (rawPkt p)) (set_path_at r (pathOff p) p).

Lemma on_path_eq {A} (m : SE Raw.t A) p r o :
  m (path p) = (r, o) → on_path m p = (with_path r p, verdict_of o).
Proof. intros H. unfold on_path. by rewrite H. Qed.


Lemma with_path_holds r p D D' :
  holds p D → repr r D' → Decoded.Len D' = Decoded.Len D →
  holds (with_path r p) D' ∧ same_outside (pathOff p) (Decoded.Len D) (rawPkt p) (rawPkt (with_path r p)).
Proof.
  intros [Hr Ho Hb Hw] Hr' HL. pose proof (repr_len _ _ Hr') as L.
  assert (0 ≤ Decoded.Len D') by (rewrite <- L; apply len_nonneg).
  split; [|rewrite <- HL, <- L; apply window_same_outside; [done|lia]].
  unfold with_path. split; cbn [path pathOff rawPkt set_rawPkt set_path_at]; [done|done| |].
  - rewrite window_len by lia. lia.
  - rewrite <- L. unfold len. rewrite Nat2Z.id. apply window_read; unfold len in *; lia.
Qed.

(** ** Reading *)

Lemma GetCurrentHopField_repr r D :
  repr r D → Raw.GetCurrentHopField r =
    match cur_hop D with Some h => Ok h | None => Err (New "HopField index out of bounds") end.
Proof.
  intros H. unfold Raw.GetCurrentHopField, cur_hop. rewrite (repr_base _ _ H).
  pose proof (MetaHdr.wf_CurrHF _ (Base.wf_meta _ (Decoded.wf_base _ (repr_wf _ _ H)))) as Hc.
  set (i := MetaHdr.CurrHF _) in *. destruct (Decoded.HopFields D !! Z.to_nat i) as [h|] eqn:E.
  - rewrite <- (Z2Nat.id i) by lia. by apply (GetHopField_repr r D).
  - apply lookup_ge_None in E. apply GetHopField_oob. rewrite (repr_base _ _ H).
    pose proof (Decoded.wf_NumHops _ (repr_wf _ _ H)). unfold len in *. lia.
Qed.

Lemma GetCurrentInfoField_repr r D :
  repr r D → Raw.GetCurrentInfoField r =
    match cur_info D with Some i => Ok i | None => Err (New "InfoField index out of bounds") end.
Proof.
  intros H. unfold Raw.GetCurrentInfoField, cur_info. rewrite (repr_base _ _ H).
  pose proof (MetaHdr.wf_CurrINF _ (Base.wf_meta _ (Decoded.wf_base _ (repr_wf _ _ H)))) as Hc.
  set (i := MetaHdr.CurrINF _) in *. destruct (Decoded.InfoFields D !! Z.to_nat i) as [h|] eqn:E.
  - rewrite <- (Z2Nat.id i) by lia. by apply (GetInfoField_repr r D).
  - apply lookup_ge_None in E. apply GetInfoField_oob. rewrite (repr_base _ _ H).
    pose proof (Decoded.wf_NumINF _ (repr_wf _ _ H)). unfold len in *. lia.
Qed.

Lemma cur_hop_wf D h : Decoded.wf D → cur_hop D = Some h → HopField.wf h.
Proof. intros [] H. by eapply Forall_lookup_1. Qed.
Lemma cur_info_wf D i : Decoded.wf D → cur_info D = Some i → InfoField.wf i.
Proof. intros [] H. by eapply Forall_lookup_1. Qed.

(** ** Writing *)

Lemma store_info_step msg p D :
  holds p D → InfoField.wf (infoField p) → is_Some (cur_info D) →
  ∃ r, store_info msg p = (with_path r p, Continue tt) ∧ repr r (store_cur_info (infoField p) D) ∧
    (synced (path p) → synced r).
Proof.
  intros [Hr _ _ _] Hwf [x Hx]. unfold cur_info in Hx. apply lookup_lt_Some in Hx.
  pose proof (MetaHdr.wf_CurrINF _ (Base.wf_meta _ (Decoded.wf_base _ (repr_wf _ _ Hr)))) as Hc.
  destruct (SetInfoField_repr _ _ _ (infoField p) Hr Hwf Hx) as (r & E & Hr').
  exists r. split_and!; [|done|].
  2:{ unfold Raw.SetInfoField in E. destruct (_ <=? _); [done|]. eapply write_raw_synced; [|apply len_info_SerializeTo|exact E].
      unfold MetaLen, InfoField.InfoLen. lia. }
  unfold store_info. apply (on_path_eq _ _ _ (Ok tt)).
  unfold wrap_errS, CurrINF, meta. rewrite (repr_base _ _ Hr). rewrite Z2Nat.id in E by lia. by rewrite E.
Qed.

Lemma store_hop_step msg p D :
  holds p D → HopField.wf (hopField p) → is_Some (cur_hop D) →
  ∃ r, store_hop msg p = (with_path r p, Continue tt) ∧ repr r (store_cur_hop (hopField p) D) ∧
    (synced (path p) → synced r).
Proof.
  intros [Hr _ _ _] Hwf [x Hx]. unfold cur_hop in Hx. apply lookup_lt_Some in Hx.
  pose proof (MetaHdr.wf_CurrHF _ (Base.wf_meta _ (Decoded.wf_base _ (repr_wf _ _ Hr)))) as Hc.
  destruct (SetHopField_repr _ _ _ (hopField p) Hr Hwf Hx) as (r & E & Hr').
  exists r. split_and!; [|done|].
  2:{ unfold Raw.SetHopField in E. destruct (_ <=? _); [done|]. eapply write_raw_synced; [|apply len_hop_SerializeTo|exact E].
      pose proof (Base.NumINF_range _ (Decoded.wf_base _ (repr_wf _ _ Hr))). rewrite (repr_base _ _ Hr).
      unfold MetaLen, InfoField.InfoLen, HopField.HopLen. lia. }
  unfold store_hop. apply (on_path_eq _ _ _ (Ok tt)).
  unfold wrap_errS, CurrHF, meta. rewrite (repr_base _ _ Hr). rewrite Z2Nat.id in E by lia. by rewrite E.
Qed.

Lemma flush_meta_synced r r' D u : repr r D → Raw.flush_meta r = (r', Ok u) → synced r'.
Proof.
  intros H E. destruct (flush_meta_repr _ _ H) as (r1 & E1 & H1 & ibs & hbs & Hraw & _).
  rewrite E in E1. injection E1 as <- _. unfold synced, Raw.raw_bytes. rewrite Hraw. cbn [default from_option id].
  rewrite (repr_base _ _ H1), (repr_base _ _ H).
  apply Decoded.Base_DecodeFromBytes_meta, Decoded.wf_base, (repr_wf _ _ H1).
Qed.

Lemma IncPath_synced r r' D u : repr r D → Raw.IncPath r = (r', Ok u) → synced r'.
Proof.
  intros H. unfold Raw.IncPath, mbind, SE_bind, zoom. rewrite (repr_base _ _ H).
  destruct (Base.IncPath (Decoded.base D)) as [b o] eqn:E. destruct (IncPath_counts _ _ _ E) as (? & ? & _).
  destruct o as [[]| |]; [|done..]. apply (flush_meta_synced _ _ (Decoded.set_base b D)).
  apply repr_set_base; try done. by eapply Base.IncPath_wf, E; apply H.
Qed.

Lemma IncPath_step msg p D :
  holds p D →
  ∃ r D' o, on_path (wrap_errS msg Raw.IncPath) p = (with_path r p, verdict_of (wrap_err msg o)) ∧
    Decoded.IncPath D = (D', o) ∧ repr r D' ∧ Decoded.Len D' = Decoded.Len D ∧ o ≠ Panic ∧
    Decoded.InfoFields D' = Decoded.InfoFields D ∧ Decoded.HopFields D' = Decoded.HopFields D ∧
    (o = Ok tt → synced r).
Proof.
  intros [Hr _ _ _]. destruct (IncPath_repr _ _ Hr) as (r & D' & o & E & ED & Hr').
  exists r, D', o. split_and!; try done.
  6:{ intros ->. exact (IncPath_synced _ _ _ _ Hr E). }
  - apply on_path_eq. unfold wrap_errS. by rewrite E.
  - revert ED. unfold Decoded.IncPath, zoom. destruct (Base.IncPath (Decoded.base D)) as [b o'] eqn:Eb.
    destruct (IncPath_counts _ _ _ Eb) as (E1 & E2 & _). intros [= <- <-].
    unfold Decoded.Len, Base.Len, Decoded.set_base. cbn [Decoded.base]. by rewrite E1, E2.
  - revert ED. unfold Decoded.IncPath, zoom. destruct (Base.IncPath (Decoded.base D)) as [b o'] eqn:Eb.
    destruct (IncPath_counts _ _ _ Eb) as (_ & _ & H). by intros [= <- <-].
  - revert ED. unfold Decoded.IncPath, zoom. destruct (Base.IncPath _). by intros [= <- <-].
  - revert ED. unfold Decoded.IncPath, zoom. destruct (Base.IncPath _). by intros [= <- <-].
Qed.

End PathLemmas.

(** * The steps of the processor on the path *)
Module ProcessLemmas.

Import Net DataPlane LocalDelivery Processor StepLemmas RawRefinement PathLemmas.

(** The info field after the SegID update with the MAC of a hop. *)
Definition chained (info : InfoField.t) (hop : HopField.t) : InfoField.t :=
  InfoField.set_SegID info (Z.lxor (InfoField.SegID info) (be_val (take 2 (HopField.Mac hop)))).

Lemma chained_wf info hop : InfoField.wf info → HopField.wf hop → InfoField.wf (chained info hop).
Proof.
  intros [Hs Ht] [_ _ _ Hw HM]. split; cbn; [|done]. apply lxor_uint; [done..|].
  apply be_val_u16; [by apply wf_bytes_take|]. by rewrite length_take, HM.
Qed.

(** Applying the update twice gives the field back. *)
Lemma chained_twice info hop : chained (chained info hop) hop = info.
Proof.
  destruct info. unfold chained, InfoField.set_SegID. cbn. f_equal.
  by rewrite Z.lxor_assoc, Z.lxor_nilpotent, Z.lxor_0_r.
Qed.

(** The fields a packet is judged by: its current hop and info field. *)
Definition ingress_of (info : InfoField.t) (hop : HopField.t) : Z :=
  if InfoField.ConsDir info then HopField.ConsIngress hop else HopField.ConsEgress hop.
Definition egress_of (info : InfoField.t) (hop : HopField.t) : Z :=
  if InfoField.ConsDir info then HopField.ConsEgress hop else HopField.ConsIngress hop.
Definition valid_until (info : InfoField.t) (hop : HopField.t) : Z :=
  InfoField.Timestamp info * DRKeyProvider.Second + HopField.ExpTimeToDuration (HopField.ExpTime hop).

(** The MAC of the hop field is the one this AS computes. *)
Definition authentic (mac : bytes → bytes) (info : InfoField.t) (hop : HopField.t) : Prop :=
  HopField.Mac hop = take 6 (mac (Mac.mac_block info hop)).

#[export] Instance authentic_dec mac info hop : Decision (authentic mac info hop).
Proof. unfold authentic. apply _. Defined.

Lemma holds_ext p p' D :
  path p' = path p → pathOff p' = pathOff p → rawPkt p' = rawPkt p → holds p D → holds p' D.
Proof. intros E1 E2 E3 []. split; congruence. Qed.

Lemma parsePath_eq p D :
  holds p D →
  parsePath p = match cur_hop D with
                | None => (p, Drop (New "HopField index out of bounds"))
                | Some hop =>
                    let p := set_hopField hop p in
                    match cur_info D with
                    | None => (p, Drop (New "InfoField index out of bounds"))
                    | Some info => (set_infoField info p, Continue tt)
                    end
                end.
Proof.
  intros [Hr _ _ _]. unfold parsePath, mbind, P_bind, update. rewrite (GetCurrentHopField_repr _ _ Hr).
  destruct (cur_hop D) as [hop|]; [|done]. cbn [verdict_of].
  change (path (set_hopField hop p)) with (path p). rewrite (GetCurrentInfoField_repr _ _ Hr).
  by destruct (cur_info D).
Qed.

Lemma update_segID_eq p :
  HopField.wf (hopField p) → update_segID p = (set_infoField (chained (infoField p) (hopField p)) p, Continue tt).
Proof.
  intros Hw. unfold update_segID, mbind, P_bind, update.
  rewrite InfoField.UpdateSegID_Ok by (rewrite (HopField.wf_MacLen _ Hw); lia). done.
Qed.

Section mac.
Context (mac : bytes → bytes) (Hmac : ∀ b, 16 ≤ len (mac b)).

Lemma verifyCurrentMAC_eq p :
  verifyCurrentMAC mac p =
  if decide (authentic mac (infoField p) (hopField p))
  then (set_cachedMac (take 16 (mac (Mac.mac_block (infoField p) (hopField p)))) p, Continue tt)
  else (p, SlowPath (parameter_problem TypeCode.SCMPCodeInvalidHopFieldMAC (currentHopPointer p)
                       macVerificationFailed)).
Proof using Hmac.
  unfold verifyCurrentMAC. rewrite Mac.FullMAC_Ok by (done || apply Hmac).
  set (m := mac _). assert (16 ≤ len m) as Hm by apply Hmac.
  unfold mbind, P_bind, call. cbn [verdict_of]. rewrite sub_Ok by (unfold HopField.MacLen; len_lia).
  cbn [verdict_of]. change (Z.to_nat (HopField.MacLen - 0)) with 6%nat. rewrite drop_0, take_take.
  change (6 `min` 16)%nat with 6%nat. unfold slow_path_if, update, authentic. fold m.
  destruct (decide (HopField.Mac (hopField p) = take 6 m)) as [E|E].
  - by rewrite bool_decide_eq_true_2.
  - by rewrite bool_decide_eq_false_2.
Qed.
End mac.

Lemma validateSrcDstIA_eq p :
  ∃ r, validateSrcDstIA p =
    (p, if (let srcIsLocal := SCION.SrcIA (scionLayer p) =? localIA (d p) in
            let dstIsLocal := SCION.DstIA (scionLayer p) =? localIA (d p) in
            if ingressID p =? 0
            then (negb (Raw.IsFirstHop (path p)) || srcIsLocal) && negb dstIsLocal
            else negb srcIsLocal && Bool.eqb (Raw.IsLastHop (path p)) dstIsLocal)
        then Continue tt else SlowPath r).
Proof.
  unfold validateSrcDstIA, slow_path_if, mbind, P_bind. cbv zeta.
  destruct (ingressID p =? 0), (Raw.IsFirstHop (path p)), (Raw.IsLastHop (path p)),
    (SCION.SrcIA (scionLayer p) =? localIA (d p)), (SCION.DstIA (scionLayer p) =? localIA (d p));
    cbn; first [by exists invalidSrcIA | by exists invalidDstIA].
Qed.

End ProcessLemmas.

(** * Hop-by-hop options *)
Module OptionLemmas.

Import Net DataPlane LocalDelivery Processor StepLemmas RawRefinement PathLemmas.

Lemma len_SerializeTo_md md (b b' : bytes) : Fabrid.SerializeTo_md md b = Ok b' → len b' = len b.
Proof.
  unfold Fabrid.SerializeTo_md, Fabrid.serialize_md. intros H.
  apply bind_Ok in H as (? & _ & H). apply bind_Ok in H as (b1 & H1 & H).
  apply bind_Ok in H as (b2 & H2 & H). apply bind_Ok in H as (b3 & _ & H).
  apply len_put in H, H1. apply len_on_sub in H2; [congruence|].
  intros m m' [= <-]. apply len_copy.
Qed.

(** Where the options may write: every option that is rewritten lies in the
    packet; [off] is the offset of the first one. *)
Fixpoint opts_fit (opts : list TLV.t) (off n : Z) : Prop :=
  match opts with
  | [] => True
  | o :: opts =>
      (TLV.OptType o = TLV.OptTypeFabrid → off + 2 + len (TLV.OptData o) ≤ n) ∧
      0 ≤ TLV.ActualLength o ∧ opts_fit opts (off + TLV.ActualLength o) n
  end.

(** Processing options leaves the first [k] bytes of the packet and all of the
    state but the options and the label alone. *)
Record opt_frame (k : Z) (p p' : t) : Prop := {
  of_state : p' = set_mplsLabel (mplsLabel p') (set_options (identifier p') (fabrid p') (set_rawPkt (rawPkt p') p));
  of_len : len (rawPkt p') = len (rawPkt p);
  of_take : take (Z.to_nat k) (rawPkt p') = take (Z.to_nat k) (rawPkt p)
}.

#[export] Instance opt_frame_preorder k : PreOrder (opt_frame k).
Proof.
  split.
  - intros p. split; [by destruct p|done|done].
  - intros p1 p2 p3 [E1 L1 T1] [E2 L2 T2]. split; [|congruence|congruence].
    rewrite E2, E1. by destruct p1.
Qed.

Section processor.
Context (aes_Encrypt : bytes → bytes → bytes).
Context (netip_ParseAddr : gostring → outcome IP.t) (netip_String : IP.t → gostring).
Context (now : Z).

Lemma identifier_option_frame k opt p : opt_frame k p (identifier_option opt p).1.
Proof.
  unfold identifier_option. destruct (is_some _); [done|].
  apply (P_bind_state (opt_frame k p)).
  - by repeat case_match.
  - intros p' a H. assert (p' = p) as ->.
    { revert H. destruct (0 <? CurrINF p); [|by intros [= <-]].
      destruct (Raw.GetInfoField _ _); by intros [= <-]. }
    apply (P_bind_state (opt_frame k p)); [done|]. intros p' id [-> _]%call_Continue.
    cbn [update fst]. split; [by destruct p|done|done].
Qed.

Lemma processFabrid_frame k e p :
  opt_frame k p (processFabrid aes_Encrypt netip_ParseAddr netip_String now e p).1 ∧
  rawPkt (processFabrid aes_Encrypt netip_ParseAddr netip_String now e p).1 = rawPkt p.
Proof.
  set (I := λ p', p' = set_mplsLabel (mplsLabel p') (set_options (identifier p') (fabrid p') p)).
  assert (∀ p', I p' → opt_frame k p p' ∧ rawPkt p' = rawPkt p) as Hgoal.
  { intros p' ->. split; [split|]; done. }
  apply Hgoal. clear Hgoal. assert (I p) as Hp by (unfold I; by destruct p).
  unfold processFabrid. destruct (fabrid p); [|done]. destruct (identifier p); [|done].
  do 6 (apply (P_bind_state I); [exact Hp|intros ? ? [-> ?]%call_Continue]).
  apply (P_bind_state I); [done|].
  intros p' ? ->%update_Continue. destruct (negb _); [|done].
  apply (P_bind_state I); [done|].
  by intros p' [] [-> _]%call_Continue.
Qed.

Lemma fabrid_option_frame k e opt dataOff p :
  0 ≤ k ≤ dataOff → dataOff + len (TLV.OptData opt) ≤ len (rawPkt p) →
  opt_frame k p (fabrid_option aes_Encrypt netip_ParseAddr netip_String now e opt dataOff p).1.
Proof.
  intros Hk Hb. unfold fabrid_option. destruct (is_some _); [done|]. destruct (is_nil _); [done|].
  destruct (_ && _); [done|].
  apply (P_bind_state (opt_frame k p)); [done|]. intros ? f [-> _]%call_Continue.
  apply (P_bind_state (opt_frame k p)); [done|]. intros ? md [-> _]%call_Continue.
  destruct (Fabrid.FabridEnabled md); [|done].
  set (p1 := set_options (identifier p) (Some f) p).
  assert (opt_frame k p p1 ∧ rawPkt p1 = rawPkt p) as [H1 E1] by (split; [split; [by destruct p|done|done]|done]).
  apply (P_bind_state (opt_frame k p)); [done|]. intros ? ? ->%update_Continue. fold p1.
  apply (P_bind_state (opt_frame k p)).
  { etransitivity; [exact H1|apply processFabrid_frame]. }
  intros p2 ? H2. pose proof (processFabrid_frame k e p1) as [F2 E2]. rewrite H2 in F2, E2. cbn [fst] in F2, E2.
  assert (opt_frame k p p2) as F by (etransitivity; [exact H1|exact F2]).
  apply (P_bind_state (opt_frame k p)); [exact F|]. intros ? ? [-> _]%read_Continue.
  apply (P_bind_state (opt_frame k p)); [exact F|]. intros ? ? [-> _]%call_Continue.
  apply (P_bind_state (opt_frame k p)); [exact F|]. intros ? optData [-> Ho]%call_Continue.
  apply len_on_sub in Ho; [|intros; by eapply len_SerializeTo_md].
  assert (opt_frame k p2 (set_rawPkt (write_window dataOff optData (rawPkt p2)) p2)) as F3.
  { split; cbn [rawPkt set_rawPkt identifier fabrid mplsLabel]; [by destruct p2| |].
    - apply window_len; [lia|]. rewrite E2, E1. lia.
    - apply window_before; [lia|rewrite E2, E1; lia|lia]. }
  apply (P_bind_state (opt_frame k p)).
  { etransitivity; [exact F|exact F3]. }
  intros ? ? ->%update_Continue. cbn [mret P_ret fst]. etransitivity; [exact F|exact F3].
Qed.

Lemma hbh_loop_frame k e opts off p :
  0 ≤ k ≤ off → opts_fit opts off (len (rawPkt p)) →
  opt_frame k p (hbh_loop aes_Encrypt netip_ParseAddr netip_String now e opts off p).1.
Proof.
  revert off p. induction opts as [|o opts IH]; intros off p Hk Hf; [done|].
  destruct Hf as (Hfab & Ha & Hf). cbn [hbh_loop].
  assert (∀ p' stop, opt_frame k p p' →
    opt_frame k p ((if (stop : bool) then mret tt else
      hbh_loop aes_Encrypt netip_ParseAddr netip_String now e opts (off + TLV.ActualLength o)) p').1) as Hrest.
  { intros p' [] Hp'; [done|]. etransitivity; [exact Hp'|]. apply IH; [lia|].
    by rewrite (of_len _ _ _ Hp'). }
  apply (P_bind_state (opt_frame k p)).
  - destruct (TLV.OptType o =? TLV.OptTypeIdentifier).
    + apply (P_bind_state (opt_frame k p)); [apply identifier_option_frame|].
      intros p' ? H. cbn [mret P_ret fst]. pose proof (identifier_option_frame k o p) as F. by rewrite H in F.
    + destruct (Z.eqb_spec (TLV.OptType o) TLV.OptTypeFabrid); [|done].
      apply fabrid_option_frame; [lia|auto].
  - intros p' stop H. apply Hrest.
    destruct (TLV.OptType o =? TLV.OptTypeIdentifier).
    + apply P_bind_Continue in H as (p1 & ? & H1 & [-> _]%mret_Continue).
      pose proof (identifier_option_frame k o p) as F. by rewrite H1 in F.
    + destruct (Z.eqb_spec (TLV.OptType o) TLV.OptTypeFabrid) as [E|].
      * pose proof (fabrid_option_frame k e o (off + 2) p ltac:(lia) ltac:(auto)) as F. by rewrite H in F.
      * apply mret_Continue in H as [-> _]. done.
Qed.
End processor.

End OptionLemmas.
