(* ===== verification/RouterSpec.v ===== *)
(** What the packet processor promises: an abstract router that works on the
    decoded path (Module [AbstractRouter]), and the lemmas that relate the steps
    of the processor to it (Module [RouterSimulation]). *)
From S2P Require Export RouterLemmas.

(** * The abstract router *)
Module AbstractRouter.

Import Net DataPlane LocalDelivery Processor PathLemmas ProcessLemmas.

Definition first_hop (D : Decoded.t) : bool := MetaHdr.CurrHF (Base.PathMeta (Decoded.base D)) =? 0.
Definition last_hop (D : Decoded.t) : bool :=
  MetaHdr.CurrHF (Base.PathMeta (Decoded.base D)) =? Base.NumHops (Decoded.base D) - 1.

(** The info field a router verifies the hop field with: a packet that came over
    an external interface against the construction direction gets its SegID
    updated first, unless it came over a peering link. *)
Definition at_ingress (external peer : bool) (info : InfoField.t) (hop : HopField.t) : InfoField.t :=
  if negb (InfoField.ConsDir info) && external && negb peer then chained info hop else info.

(** The info field that leaves the AS. *)
Definition at_egress (peer : bool) (info : InfoField.t) (hop : HopField.t) : InfoField.t :=
  if InfoField.ConsDir info && negb peer then chained info hop else info.

(** The interface over which the packet entered the AS, from the path alone. *)
Definition entered (peer : bool) (D : Decoded.t) : option Z :=
  let m := Base.PathMeta (Decoded.base D) in
  if negb peer && Base.IsFirstHopAfterXover (Decoded.base D) then
    info ← Decoded.InfoFields D !! Z.to_nat (MetaHdr.CurrINF m - 1);
    hop ← Decoded.HopFields D !! Z.to_nat (MetaHdr.CurrHF m - 1);
    Some (ingress_of info hop)
  else info ← cur_info D; hop ← cur_hop D; Some (ingress_of info hop).

(** A packet from the network inside the AS is at its first hop, or comes from
    the router that has the interface over which it entered. *)
Definition from_inside (p : t) (peer : bool) (D : Decoded.t) : Prop :=
  first_hop D = true ∨ ingressID p ≠ 0 ∨
  ∃ i a, entered peer D = Some i ∧ internalNextHops (d p) !! i = Some a ∧ IP_Equal (IP a) (IP (srcAddr p)) = true.

(** Which packets claim to come from where, and which are for this AS. *)
Definition endpoints_ok (p : t) (D : Decoded.t) : Prop :=
  let src := SCION.SrcIA (scionLayer p) in
  let dst := SCION.DstIA (scionLayer p) in
  if ingressID p =? 0
  then dst ≠ localIA (d p) ∧ (first_hop D = true → src = localIA (d p))
  else src ≠ localIA (d p) ∧ (last_hop D = true ↔ dst = localIA (d p)).

Section router.
Context (mac : bytes → bytes) (now : Z) (IsUp : nat → bool).
Context (NewPacket : bytes → L4.LayerType → list Layer) (intn : Z → Z).

(** The hop field is not expired and carries this AS's MAC. *)
Record usable (info : InfoField.t) (hop : HopField.t) : Prop := {
  usable_valid : now ≤ valid_until info hop;
  usable_mac : authentic mac info hop
}.

(** The packet is admitted: [info] and [hop] are its current fields. *)
Record admitted (p : t) (D : Decoded.t) (info : InfoField.t) (hop : HopField.t) (peer : bool) : Prop := {
  ad_info : cur_info D = Some info;
  ad_hop : cur_hop D = Some hop;
  ad_peer : peer_of (Base.PathMeta (Decoded.base D)) info = Ok peer;
  ad_usable : usable (at_ingress (negb (ingressID p =? 0)) peer info hop) hop;
  ad_ingress : ingressID p ≠ 0 → ingressID p = ingress_of info hop;
  ad_len : SCION.PayloadLen (scionLayer p) = len (SCION.Payload (scionLayer p));
  ad_inside : from_inside p peer D;
  ad_endpoints : endpoints_ok p D;
  ad_alert : ingressID p ≠ 0 →
    (if InfoField.ConsDir info then HopField.IngressRouterAlert hop else HopField.EgressRouterAlert hop) = false
}.

(** The path with the info field that the ingress leaves. *)
Definition arrived (p : t) (D : Decoded.t) (info : InfoField.t) (hop : HopField.t) (peer : bool) : Decoded.t :=
  if negb (InfoField.ConsDir info) && negb (ingressID p =? 0) && negb peer
  then store_cur_info (chained info hop) D else D.

(** A change of segment inside the AS. *)
Inductive changes_segment (peer : bool) (D : Decoded.t) : bool → Decoded.t → Prop :=
| stays : Base.IsXover (Decoded.base D) && negb peer = false → changes_segment peer D false D
| crosses D' info hop :
    Base.IsXover (Decoded.base D) && negb peer = true → Decoded.IncPath D = (D', Ok tt) →
    cur_info D' = Some info → cur_hop D' = Some hop → usable info hop →
    changes_segment peer D true D'.

(** The packet may leave over interface [egress]. *)
Record may_leave (p : t) (xover : bool) (info : InfoField.t) (hop : HopField.t) (egress : Z) : Prop := {
  ml_egress : egress = egress_of info hop;
  ml_known : is_Some (external (d p) !! egress) ∨
    ingressID p ≠ 0 ∧ external (d p) !! egress = None ∧ is_Some (internalNextHops (d p) !! egress);
  ml_links : if xover then xover_pair (link_type p (ingressID p)) (link_type p egress) = true
             else ingressID p = 0 ∨ segment_pair (link_type p (ingressID p)) (link_type p egress) = true;
  ml_alert : is_Some (external (d p) !! egress) →
    (if InfoField.ConsDir info then HopField.EgressRouterAlert hop else HopField.IngressRouterAlert hop) = false;
  ml_up : session_down IsUp (d p) egress = false
}.

(** The path that leaves the AS over an external interface. *)
Definition leaves (D : Decoded.t) (info : InfoField.t) (hop : HopField.t) (peer : bool) (D' : Decoded.t) : Prop :=
  Decoded.IncPath (if InfoField.ConsDir info && negb peer then store_cur_info (chained info hop) D else D) = (D', Ok tt).

(** To a host of the AS (without an address when it could not be resolved for a
    reason that the router does not report), out of an interface of this router,
    or to the router that has the interface. *)
Inductive action := Deliver (a : option UDPAddr) | Send (egress : Z) | Relay (a : UDPAddr).

(** [routes p D a D']: the router takes action [a] on the packet of [p] with the
    path [D], and leaves the path [D'] in it. *)
Inductive routes (p : t) (D : Decoded.t) : action → Decoded.t → Prop :=
| routes_deliver info hop peer a :
    admitted p D info hop peer → SCION.DstIA (scionLayer p) = localIA (d p) →
    (resolveInbound NewPacket intn p).2 = Continue a →
    routes p D (Deliver a) (arrived p D info hop peer)
| routes_send info hop peer xover D2 info2 hop2 egress D3 :
    admitted p D info hop peer → SCION.DstIA (scionLayer p) ≠ localIA (d p) →
    changes_segment peer (arrived p D info hop peer) xover D2 →
    cur_info D2 = Some info2 → cur_hop D2 = Some hop2 →
    may_leave p xover info2 hop2 egress → is_Some (external (d p) !! egress) →
    leaves D2 info2 hop2 peer D3 →
    routes p D (Send egress) D3
| routes_relay info hop peer xover D2 info2 hop2 egress a :
    admitted p D info hop peer → SCION.DstIA (scionLayer p) ≠ localIA (d p) →
    changes_segment peer (arrived p D info hop peer) xover D2 →
    cur_info D2 = Some info2 → cur_hop D2 = Some hop2 →
    may_leave p xover info2 hop2 egress → external (d p) !! egress = None →
    internalNextHops (d p) !! egress = Some a →
    routes p D (Relay a) D2.
End router.

End AbstractRouter.

(** * The steps of the processor against the abstract router *)
Module RouterSimulation.

Import Net DataPlane LocalDelivery Processor StepLemmas RawRefinement PathLemmas ProcessLemmas
  OptionLemmas AbstractRouter.

(** What no step on the path changes. *)
Record same_env (p p' : t) : Prop := {
  env_d : d p' = d p;
  env_ingress : ingressID p' = ingressID p;
  env_src : srcAddr p' = srcAddr p;
  env_scion : scionLayer p' = scionLayer p;
  env_hbh : hbhLayer p' = hbhLayer p;
  env_e2e : e2eLayer p' = e2eLayer p;
  env_last : lastLayer p' = lastLayer p;
  env_identifier : identifier p' = identifier p;
  env_fabrid : fabrid p' = fabrid p;
  env_off : pathOff p' = pathOff p
}.

#[export] Instance same_env_preorder : PreOrder same_env.
Proof. split; [by split|]. intros ? ? ? [] []. split; congruence. Qed.

(** The processor has parsed the fields at the current position of [D]. *)
Record at_pos (p : t) (D : Decoded.t) : Prop := {
  at_holds : holds p D;
  at_info : cur_info D = Some (infoField p);
  at_hop : cur_hop D = Some (hopField p)
}.

(** The packet of [p] now holds the path [D'], and nothing else changed. *)
Record moved (p : t) (D : Decoded.t) (p' : t) (D' : Decoded.t) : Prop := {
  mv_env : same_env p p';
  mv_at : at_pos p' D';
  mv_len : Decoded.Len D' = Decoded.Len D;
  mv_outside : same_outside (pathOff p) (Decoded.Len D) (rawPkt p) (rawPkt p');
  mv_synced : synced (path p) → synced (path p')
}.

Lemma moved_trans p1 D1 p2 D2 p3 D3 : moved p1 D1 p2 D2 → moved p2 D2 p3 D3 → moved p1 D1 p3 D3.
Proof.
  intros [E1 A1 L1 O1 S1] [E2 A2 L2 O2 S2]. split; [by etransitivity|done|congruence| |auto].
  etransitivity; [exact O1|]. by rewrite <- L1, <- (env_off _ _ E1).
Qed.

Lemma moved_refl p D : at_pos p D → moved p D p D.
Proof. by split. Qed.

Lemma at_info_wf p D : at_pos p D → InfoField.wf (infoField p).
Proof. intros [[Hr _ _ _] Hi _]. eapply cur_info_wf; [apply (repr_wf _ _ Hr)|done]. Qed.
Lemma at_hop_wf p D : at_pos p D → HopField.wf (hopField p).
Proof. intros [[Hr _ _ _] _ Hh]. eapply cur_hop_wf; [apply (repr_wf _ _ Hr)|done]. Qed.

Lemma cur_info_store info D : is_Some (cur_info D) → cur_info (store_cur_info info D) = Some info.
Proof. intros [x Hx]. unfold cur_info in *. cbn. rewrite list_lookup_insert_eq; [done|]. by eapply lookup_lt_Some. Qed.
Lemma cur_hop_store_info info D : cur_hop (store_cur_info info D) = cur_hop D.
Proof. done. Qed.

Lemma len_store_info info D : Decoded.Len (store_cur_info info D) = Decoded.Len D.
Proof. done. Qed.

(** ** Fields *)

Lemma parsePath_step p D info hop :
  holds p D → cur_info D = Some info → cur_hop D = Some hop →
  parsePath p = (set_infoField info (set_hopField hop p), Continue tt).
Proof. intros H Hi Hh. rewrite (parsePath_eq _ _ H), Hh. by rewrite Hi. Qed.

Lemma parsePath_inv p D p' u :
  holds p D → parsePath p = (p', Continue u) →
  ∃ info hop, cur_info D = Some info ∧ cur_hop D = Some hop ∧ p' = set_infoField info (set_hopField hop p).
Proof.
  intros H. rewrite (parsePath_eq _ _ H). destruct (cur_hop D) as [hop|]; [|done].
  destruct (cur_info D) as [info|]; [|done]. intros [= <- _]. by eexists _, _.
Qed.

(** Updates the SegID with the current hop and stores the info field. *)
Lemma segid_store_step msg p D :
  at_pos p D →
  ∃ p', (_ ← update_segID; store_info msg) p = (p', Continue tt) ∧
    moved p D p' (store_cur_info (chained (infoField p) (hopField p)) D) ∧
    infoField p' = chained (infoField p) (hopField p) ∧ hopField p' = hopField p ∧
    peering p' = peering p ∧ effectiveXover p' = effectiveXover p.
Proof.
  intros Hat. pose proof (at_info_wf _ _ Hat) as Wi. pose proof (at_hop_wf _ _ Hat) as Wh.
  destruct Hat as [Hh Hi Ho]. set (info' := chained (infoField p) (hopField p)).
  set (p1 := set_infoField info' p).
  assert (holds p1 D) as Hh1 by (by apply (holds_ext p)).
  destruct (store_info_step msg p1 D Hh1) as (r & E & Hr & Hs); [by apply chained_wf|done|].
  change (infoField p1) with info' in *.
  destruct (with_path_holds r p1 D _ Hh1 Hr) as [H2 O2]; [done|].
  exists (with_path r p1). split_and!; [|split; [done| |done|exact O2|exact Hs]|done..].
  - by rewrite (P_bind_eq _ _ _ _ _ (update_segID_eq _ Wh)).
  - split; [done| |done]. by apply cur_info_store.
Qed.

Lemma updateNonConsDirIngressSegID_step p D :
  at_pos p D →
  ∃ p', updateNonConsDirIngressSegID p = (p', Continue tt) ∧
    moved p D p' (arrived p D (infoField p) (hopField p) (peering p)) ∧
    infoField p' = at_ingress (negb (ingressID p =? 0)) (peering p) (infoField p) (hopField p) ∧
    hopField p' = hopField p ∧ peering p' = peering p ∧ effectiveXover p' = effectiveXover p.
Proof.
  intros Hat. unfold updateNonConsDirIngressSegID, arrived, at_ingress.
  destruct (_ && _); [by apply segid_store_step|]. exists p. by split_and!.
Qed.

(** ** Checks *)

Lemma reject_step c r p : c p = false → reject_if c r p = (p, Continue tt).
Proof. intros H. unfold reject_if, slow_path_if. by rewrite H. Qed.

Lemma repr_entered p D peer :
  at_pos p D → peering p = peer →
  ingressInterface p = match entered peer D with Some i => Ok i | None => Panic end.
Proof.
  intros [[Hr Ho Hb Hw] Hi Hh] <-. unfold ingressInterface, entered.
  unfold Raw.IsFirstHopAfterXover. rewrite (repr_base _ _ Hr).
  destruct (negb (peering p) && _) eqn:E.
  2:{ rewrite Hi, Hh. done. }
  apply andb_true_iff in E as [_ E]. unfold Base.IsFirstHopAfterXover in E.
  apply andb_true_iff in E as [E _]. apply andb_true_iff in E as [E1 E2].
  unfold CurrINF, CurrHF, meta. rewrite (repr_base _ _ Hr).
  set (b := Decoded.base D) in *. set (m := Base.PathMeta b) in *.
  assert (is_Some (Decoded.InfoFields D !! Z.to_nat (MetaHdr.CurrINF m - 1))) as [info Einfo].
  { apply lookup_lt_is_Some. apply lookup_lt_Some in Hi. fold b m in Hi. lia. }
  assert (is_Some (Decoded.HopFields D !! Z.to_nat (MetaHdr.CurrHF m - 1))) as [hop Ehop].
  { apply lookup_lt_is_Some. apply lookup_lt_Some in Hh. fold b m in Hh. lia. }
  rewrite Einfo, Ehop.
  pose proof (GetInfoField_repr _ _ _ _ Hr Einfo) as G1. pose proof (GetHopField_repr _ _ _ _ Hr Ehop) as G2.
  rewrite Z2Nat.id in G1, G2 by lia. rewrite G1, G2. done.
Qed.

Lemma entered_Some peer D :
  is_Some (cur_info D) → is_Some (cur_hop D) → is_Some (entered peer D).
Proof.
  intros [info Hi] [hop Hh]. unfold entered. rewrite Hi, Hh. destruct (negb peer && _) eqn:E; [|eauto].
  unfold cur_info, cur_hop in *. apply lookup_lt_Some in Hi, Hh.
  destruct (lookup_lt_is_Some_2 (Decoded.InfoFields D) (Z.to_nat (MetaHdr.CurrINF (Base.PathMeta (Decoded.base D)) - 1))) as [? ->]; [lia|].
  destruct (lookup_lt_is_Some_2 (Decoded.HopFields D) (Z.to_nat (MetaHdr.CurrHF (Base.PathMeta (Decoded.base D)) - 1))) as [? ->]; [lia|].
  cbn. eauto.
Qed.

(** A check of the processor and what it stands for. *)
Definition checks (m : P unit) (p : t) (Q : Prop) : Prop :=
  (∀ p', m p = (p', Continue tt) → p' = p ∧ Q) ∧ (Q → m p = (p, Continue tt)) ∧ (m p).2 ≠ Crash.

Lemma reject_checks c r p (Q : Prop) : (c p = false ↔ Q) → checks (reject_if c r) p Q.
Proof.
  intros HQ. unfold checks, reject_if, slow_path_if. destruct (c p); naive_solver.
Qed.

Lemma validateHopExpiry_checks now p :
  checks (validateHopExpiry now) p (now ≤ valid_until (infoField p) (hopField p)).
Proof. apply reject_checks. unfold expiration, valid_until. lia. Qed.

Lemma validateIngressID_checks p :
  checks validateIngressID p (ingressID p ≠ 0 → ingressID p = ingress_of (infoField p) (hopField p)).
Proof.
  apply reject_checks. unfold ingress_of. destruct (InfoField.ConsDir _); cbn; lia.
Qed.

Lemma validatePktLen_checks p :
  checks validatePktLen p (SCION.PayloadLen (scionLayer p) = len (SCION.Payload (scionLayer p))).
Proof. apply reject_checks. rewrite negb_false_iff. lia. Qed.

Lemma validateTransitUnderlaySrc_checks p D :
  at_pos p D → checks validateTransitUnderlaySrc p (from_inside p (peering p) D).
Proof.
  intros Hat. unfold checks, validateTransitUnderlaySrc, from_inside.
  assert (Raw.IsFirstHop (path p) = first_hop D) as ->.
  { unfold Raw.IsFirstHop, first_hop. by rewrite (repr_base _ _ (holds_repr _ _ (at_holds _ _ Hat))). }
  destruct (first_hop D); cbn [orb]; [naive_solver|].
  destruct (Z.eqb_spec (ingressID p) 0) as [E0|]; cbn [negb]; [|naive_solver].
  rewrite (repr_entered p D (peering p)) by done.
  destruct (entered_Some (peering p) D) as [i Ei]; [by rewrite (at_info _ _ Hat)|by rewrite (at_hop _ _ Hat)|].
  rewrite Ei. unfold mbind, P_bind, call. cbn [verdict_of].
  destruct (internalNextHops (d p) !! i) as [a|] eqn:Ea; [destruct (IP_Equal _ _) eqn:Eq|].
  - split_and!; [|done|done]. intros p' [= <-]. naive_solver.
  - split_and!; [done| |done]. naive_solver congruence.
  - split_and!; [done| |done]. naive_solver congruence.
Qed.

Lemma validateSrcDstIA_checks p D :
  holds p D → checks validateSrcDstIA p (endpoints_ok p D).
Proof.
  intros Hat. unfold checks. destruct (validateSrcDstIA_eq p) as [r ->]. unfold endpoints_ok.
  assert (Raw.IsFirstHop (path p) = first_hop D) as ->.
  { unfold Raw.IsFirstHop, first_hop. by rewrite (repr_base _ _ (holds_repr _ _ Hat)). }
  assert (Raw.IsLastHop (path p) = last_hop D) as ->.
  { unfold Raw.IsLastHop, last_hop. by rewrite (repr_base _ _ (holds_repr _ _ Hat)). }
  cbv zeta. destruct (ingressID p =? 0), (first_hop D), (last_hop D),
    (Z.eqb_spec (SCION.SrcIA (scionLayer p)) (localIA (d p))), (Z.eqb_spec (SCION.DstIA (scionLayer p)) (localIA (d p)));
    cbn; naive_solver.
Qed.

Lemma handleIngressRouterAlert_checks p D :
  at_pos p D →
  checks handleIngressRouterAlert p
    (ingressID p ≠ 0 → (if InfoField.ConsDir (infoField p) then HopField.IngressRouterAlert (hopField p)
                        else HopField.EgressRouterAlert (hopField p)) = false).
Proof.
  intros Hat. unfold checks, handleIngressRouterAlert.
  destruct (Z.eqb_spec (ingressID p) 0); [naive_solver|].
  unfold ingressRouterAlertFlag, alert_flag.
  replace (Bool.eqb (InfoField.ConsDir (infoField p)) true) with (InfoField.ConsDir (infoField p)) by (by destruct (InfoField.ConsDir _)).
  destruct (if InfoField.ConsDir _ then _ else _) eqn:E; [|naive_solver].
  cbn [negb]. rewrite (P_bind_eq (update (clear_alert true)) _ p (clear_alert true p) tt eq_refl).
  assert (holds (clear_alert true p) D) as Hh by (apply (holds_ext p); [done..|apply (at_holds _ _ Hat)]).
  assert (HopField.wf (hopField (clear_alert true p))) as Hw.
  { pose proof (at_hop_wf _ _ Hat) as []. unfold clear_alert. cbn. by destruct (Bool.eqb _ _); split. }
  destruct (store_hop_step "update hop field" _ D Hh Hw) as (r & Er & _ & _); [by rewrite (at_hop _ _ Hat)|].
  rewrite (P_bind_eq _ _ _ _ _ Er). unfold slow_path_if. cbn. split_and!; [done|naive_solver|done].
Qed.

Lemma determinePeer_step p peer :
  peer_of (meta p) (infoField p) = Ok peer →
  determinePeer p = (set_flags (effectiveXover p) peer p, Continue tt).
Proof. intros H. unfold determinePeer, mbind, P_bind, update. by rewrite H. Qed.

Lemma determinePeer_inv p p' u :
  determinePeer p = (p', Continue u) →
  ∃ peer, peer_of (meta p) (infoField p) = Ok peer ∧ p' = set_flags (effectiveXover p) peer p.
Proof.
  unfold determinePeer. intros (p1 & peer & [-> H]%verdict_Continue & ->%update_Continue)%P_bind_Continue.
  by exists peer.
Qed.

Lemma parsed_at p D info hop :
  holds p D → cur_info D = Some info → cur_hop D = Some hop →
  moved p D (set_infoField info (set_hopField hop p)) D.
Proof. intros. split; [done|split; [by apply (holds_ext p)|done..]|done|done|done]. Qed.

(** ** The arrival of a packet *)

Section arrival.
Context (mac : bytes → bytes) (Hmac : ∀ b, 16 ≤ len (mac b)) (now : Z).

Lemma verifyCurrentMAC_step p D :
  at_pos p D → authentic mac (infoField p) (hopField p) →
  ∃ p', verifyCurrentMAC mac p = (p', Continue tt) ∧ moved p D p' D ∧
    infoField p' = infoField p ∧ hopField p' = hopField p ∧
    peering p' = peering p ∧ effectiveXover p' = effectiveXover p.
Proof using Hmac.
  intros Hat Ha. rewrite (verifyCurrentMAC_eq mac Hmac), decide_True by done.
  eexists. split; [done|]. split_and!; [|done..]. split; [done| |done|done|done].
  destruct Hat as [Hh Hi Ho]. split; [by apply (holds_ext p)|done..].
Qed.

Lemma verifyCurrentMAC_inv p p' u :
  verifyCurrentMAC mac p = (p', Continue u) → authentic mac (infoField p) (hopField p).
Proof using Hmac. rewrite (verifyCurrentMAC_eq mac Hmac). by destruct (decide _). Qed.

(** What [process_arrival] leaves of an admitted packet. *)
Record arrival_done (p : t) (D : Decoded.t) (info : InfoField.t) (hop : HopField.t) (peer : bool) (p' : t) : Prop := {
  ar_moved : moved p D p' (arrived p D info hop peer);
  ar_info : infoField p' = at_ingress (negb (ingressID p =? 0)) peer info hop;
  ar_hop : hopField p' = hop;
  ar_peer : peering p' = peer;
  ar_xover : effectiveXover p' = effectiveXover p
}.

Lemma arrival_complete p D info hop peer :
  holds p D → admitted mac now p D info hop peer →
  ∃ p', process_arrival mac now p = (p', Continue tt) ∧ arrival_done p D info hop peer p'.
Proof using Hmac.
  intros Hh [Hi Ho Hp [Hv Ha] Hin Hl Hins He Hal].
  unfold process_arrival.
  rewrite (P_bind_eq _ _ _ _ _ (parsePath_step _ _ _ _ Hh Hi Ho)).
  set (p1 := set_infoField info (set_hopField hop p)). pose proof (parsed_at _ _ _ _ Hh Hi Ho) as M1. fold p1 in M1.
  set (p2 := set_flags (effectiveXover p1) peer p1).
  assert (determinePeer p1 = (p2, Continue tt)) as E2.
  { apply determinePeer_step. unfold meta. change (path p1) with (path p).
    by rewrite (repr_base _ _ (holds_repr _ _ Hh)). }
  assert (moved p1 D p2 D) as M2.
  { destruct M1 as [_ [] _ _ _]. split; [done| |done|done|done]. split; [by apply (holds_ext p1)|done|done]. }
  rewrite (P_bind_eq _ _ _ _ _ E2). pose proof (mv_at _ _ _ _ M2) as A2.
  rewrite (P_bind_eq _ _ _ p2 tt) by (apply validateHopExpiry_checks; revert Hv; unfold at_ingress; by destruct (_ && _)).
  rewrite (P_bind_eq _ _ _ p2 tt) by (by apply validateIngressID_checks).
  rewrite (P_bind_eq _ _ _ p2 tt) by (by apply validatePktLen_checks).
  rewrite (P_bind_eq _ _ _ p2 tt) by (by apply (validateTransitUnderlaySrc_checks p2 D)).
  rewrite (P_bind_eq _ _ _ p2 tt) by (by apply (validateSrcDstIA_checks p2 D (at_holds _ _ A2))).
  destruct (updateNonConsDirIngressSegID_step p2 D A2) as (p3 & E3 & M3 & I3 & O3 & F3 & X3).
  rewrite (P_bind_eq _ _ _ _ _ E3). change (ingressID p2) with (ingressID p) in *.
  change (infoField p2) with info in *. change (hopField p2) with hop in *.
  change (peering p2) with peer in *. change (effectiveXover p2) with (effectiveXover p) in *.
  destruct (verifyCurrentMAC_step p3 _ (mv_at _ _ _ _ M3)) as (p4 & E4 & M4 & I4 & O4 & F4 & X4); [by rewrite I3, O3|].
  rewrite (P_bind_eq _ _ _ _ _ E4).
  assert (moved p D p4 (arrived p D info hop peer)) as M by (eapply moved_trans; [exact M1|]; eapply moved_trans; [exact M2|]; by eapply moved_trans).
  exists p4. split; [|split; [done|congruence..]].
  apply (handleIngressRouterAlert_checks p4 _ (mv_at _ _ _ _ M4)).
  rewrite I4, I3, O4, O3, (env_ingress _ _ (mv_env _ _ _ _ M)). unfold at_ingress. by destruct (_ && _).
Qed.

Lemma arrival_sound p D p' u :
  holds p D → process_arrival mac now p = (p', Continue u) →
  ∃ info hop peer, admitted mac now p D info hop peer.
Proof using Hmac.
  intros Hh. unfold process_arrival.
  intros (p1 & [] & (info & hop & Hi & Ho & ->)%(parsePath_inv _ D) & H)%P_bind_Continue; [|done].
  pose proof (mv_at _ _ _ _ (parsed_at _ _ _ _ Hh Hi Ho)) as A1.
  set (p1 := set_infoField info (set_hopField hop p)) in *.
  apply P_bind_Continue in H as (p2 & [] & H2 & H).
  apply determinePeer_inv in H2 as (peer & Hp & ->).
  set (p2 := set_flags (effectiveXover p1) peer p1) in *.
  assert (at_pos p2 D) as A2 by (split; [by apply (holds_ext p1), A1|apply A1..]).
  apply P_bind_Continue in H as (? & [] & [-> Hv]%validateHopExpiry_checks & H).
  apply P_bind_Continue in H as (? & [] & [-> Hin]%validateIngressID_checks & H).
  apply P_bind_Continue in H as (? & [] & [-> Hl]%validatePktLen_checks & H).
  apply P_bind_Continue in H as (? & [] & [-> Hins]%(validateTransitUnderlaySrc_checks _ D A2) & H).
  apply P_bind_Continue in H as (? & [] & [-> He]%(validateSrcDstIA_checks _ D (at_holds _ _ A2)) & H).
  destruct (updateNonConsDirIngressSegID_step p2 D A2) as (p3 & E3 & M3 & I3 & O3 & F3 & X3).
  rewrite (P_bind_eq _ _ _ _ _ E3) in H.
  apply P_bind_Continue in H as (p4 & [] & H4 & H).
  pose proof (verifyCurrentMAC_inv _ _ _ H4) as Ha. rewrite I3, O3 in Ha.
  destruct (verifyCurrentMAC_step p3 _ (mv_at _ _ _ _ M3)) as (p4' & E4 & M4 & I4 & O4 & _ & _); [by rewrite I3, O3|].
  rewrite E4 in H4. injection H4 as ->. destruct u.
  apply (handleIngressRouterAlert_checks p4 _ (mv_at _ _ _ _ M4)) in H as [_ Hal].
  rewrite I4, I3, O4, O3, (env_ingress _ _ (mv_env _ _ _ _ M4)), (env_ingress _ _ (mv_env _ _ _ _ M3)) in Hal.
  unfold meta in Hp. change (path p1) with (path p) in Hp. rewrite (repr_base _ _ (holds_repr _ _ Hh)) in Hp.
  exists info, hop, peer. split; [done..| |done|done|done|done|].
  - split; [|done]. revert Hv. cbn. unfold at_ingress. by destruct (_ && _).
  - revert Hal. cbn. unfold at_ingress. by destruct (_ && _).
Qed.
End arrival.

(** ** A change of segment *)

Section xover.
Context (mac : bytes → bytes) (Hmac : ∀ b, 16 ≤ len (mac b)) (now : Z).

(** The current fields of the next segment, once the path was advanced. *)
Lemma doXover_eq p D :
  at_pos p D →
  ∃ D' o, Decoded.IncPath D = (D', o) ∧
    (o = Ok tt → ∀ info hop, cur_info D' = Some info → cur_hop D' = Some hop →
     ∃ p', doXover p = (p', Continue tt) ∧ moved p D p' D' ∧
       infoField p' = info ∧ hopField p' = hop ∧ effectiveXover p' = true ∧ peering p' = peering p) ∧
    (∀ p', doXover p = (p', Continue tt) →
     o = Ok tt ∧ is_Some (cur_info D') ∧ is_Some (cur_hop D')).
Proof.
  intros Hat. unfold doXover. set (p1 := set_flags true (peering p) p).
  rewrite (P_bind_eq (update (λ p, set_flags true (peering p) p)) _ p p1 tt eq_refl).
  assert (holds p1 D) as H1 by (by apply (holds_ext p), Hat).
  destruct (IncPath_step "incrementing path" p1 D H1) as (r & D' & o & E & ED & Hr & HL & _ & _ & _ & Hs).
  destruct (with_path_holds r p1 D D' H1 Hr HL) as [H2 O2]. set (p2 := with_path r p1) in *.
  exists D', o. split; [done|]. split.
  - intros -> info hop Hi Ho. exists (set_infoField info (set_hopField hop p2)).
    rewrite (P_bind_eq _ _ _ _ _ E), (parsePath_step _ _ _ _ H2 Hi Ho).
    split_and!; [done| |done..]. split; [done|apply (parsed_at _ _ _ _ H2 Hi Ho)|done|exact O2|]. intros _. by apply Hs.
  - intros p' (p3 & [] & H3 & H)%P_bind_Continue. rewrite E in H3.
    destruct o as [[]| |]; [|done..]. injection H3 as <-.
    apply (parsePath_inv _ _ _ _ H2) in H as (? & ? & -> & -> & _). eauto.
Qed.

Lemma xover_complete p D peer xover D2 :
  at_pos p D → peering p = peer → effectiveXover p = false → changes_segment mac now peer D xover D2 →
  ∃ p', xover_if_needed mac now p = (p', Continue tt) ∧ moved p D p' D2 ∧
    effectiveXover p' = xover ∧ peering p' = peer.
Proof using Hmac.
  intros Hat <- Hx Hc. unfold xover_if_needed, Raw.IsXover.
  rewrite (repr_base _ _ (holds_repr _ _ (at_holds _ _ Hat))).
  destruct Hc as [->|D' info hop -> EI Hi Ho [Hv Ha]].
  { exists p. split_and!; [done|by apply moved_refl|done..]. }
  destruct (doXover_eq p D Hat) as (D'' & o & EI' & Hd & _). rewrite EI in EI'. injection EI' as <- <-.
  destruct (Hd eq_refl _ _ Hi Ho) as (p1 & E1 & M1 & I1 & O1 & X1 & F1).
  rewrite (P_bind_eq _ _ _ _ _ E1).
  rewrite (P_bind_eq _ _ _ p1 tt) by (apply validateHopExpiry_checks; by rewrite I1, O1).
  destruct (verifyCurrentMAC_step mac Hmac p1 _ (mv_at _ _ _ _ M1)) as (p2 & E2 & M2 & _ & _ & F2 & X2); [by rewrite I1, O1|].
  exists p2. split_and!; [done|by eapply moved_trans|congruence..].
Qed.

Lemma xover_sound p D p' u :
  at_pos p D → xover_if_needed mac now p = (p', Continue u) →
  ∃ xover D2, changes_segment mac now (peering p) D xover D2.
Proof using Hmac.
  intros Hat. unfold xover_if_needed, Raw.IsXover.
  rewrite (repr_base _ _ (holds_repr _ _ (at_holds _ _ Hat))).
  destruct (_ && _) eqn:Ex; [|by eexists _, _; constructor].
  intros (p1 & [] & H1 & H)%P_bind_Continue.
  destruct (doXover_eq p D Hat) as (D' & o & EI & Hd & Hd').
  destruct (Hd' _ H1) as (-> & [info Hi] & [hop Ho]).
  destruct (Hd eq_refl _ _ Hi Ho) as (p1' & E1 & _ & I1 & O1 & _ & _). rewrite E1 in H1. injection H1 as ->.
  apply P_bind_Continue in H as (? & [] & [-> Hv]%validateHopExpiry_checks & H).
  apply (verifyCurrentMAC_inv mac Hmac) in H. rewrite I1, O1 in *.
  exists true, D'. by apply (crosses _ _ _ _ _ info hop).
Qed.
End xover.

(** ** The egress *)

Lemma validateEgressID_checks p :
  checks validateEgressID p
    (let egress := egress_of (infoField p) (hopField p) in
     (is_Some (external (d p) !! egress) ∨
      ingressID p ≠ 0 ∧ external (d p) !! egress = None ∧ is_Some (internalNextHops (d p) !! egress)) ∧
     (if effectiveXover p then xover_pair (link_type p (ingressID p)) (link_type p egress) = true
      else ingressID p = 0 ∨ segment_pair (link_type p (ingressID p)) (link_type p egress) = true)).
Proof.
  unfold checks, validateEgressID. change (egressInterface p) with (egress_of (infoField p) (hopField p)).
  set (e := egress_of _ _). cbv zeta. unfold mbind, P_bind, slow_path_if.
  destruct (external (d p) !! e) as [x|], (internalNextHops (d p) !! e) as [y|];
    destruct (Z.eqb_spec (ingressID p) 0) as [E0|E0]; cbn [is_nil negb andb orb];
    destruct (effectiveXover p), (xover_pair (link_type p (ingressID p)) (link_type p e)),
      (segment_pair (link_type p (ingressID p)) (link_type p e)); cbn; split_and!; try done;
    intros; simplify_eq/=; try (split; [done|]); naive_solver.
Qed.

Lemma handleEgressRouterAlert_checks p D :
  at_pos p D →
  checks handleEgressRouterAlert p
    (is_Some (external (d p) !! egress_of (infoField p) (hopField p)) →
     (if InfoField.ConsDir (infoField p) then HopField.EgressRouterAlert (hopField p)
      else HopField.IngressRouterAlert (hopField p)) = false).
Proof.
  intros Hat. unfold checks, handleEgressRouterAlert.
  change (egressInterface p) with (egress_of (infoField p) (hopField p)). set (e := egress_of _ _).
  assert (egressRouterAlertFlag p = if InfoField.ConsDir (infoField p) then HopField.EgressRouterAlert (hopField p)
      else HopField.IngressRouterAlert (hopField p)) as -> by (unfold egressRouterAlertFlag, alert_flag; by destruct (InfoField.ConsDir _)).
  destruct (if InfoField.ConsDir _ then _ else _) eqn:E; cbn [negb]; [|naive_solver].
  cbv zeta. destruct (external (d p) !! e) as [x|]; cbn [is_nil].
  2:{ split_and!; [|done|done]. intros p' [= <-]. split; [done|]. by intros [? ?]. }
  rewrite (P_bind_eq (update (clear_alert false)) _ p (clear_alert false p) tt eq_refl).
  assert (holds (clear_alert false p) D) as Hh by (apply (holds_ext p); [done..|apply (at_holds _ _ Hat)]).
  assert (HopField.wf (hopField (clear_alert false p))) as Hw.
  { pose proof (at_hop_wf _ _ Hat) as []. unfold clear_alert. cbn. by destruct (Bool.eqb _ _); split. }
  destruct (store_hop_step "update hop field" _ D Hh Hw) as (r & Er & _ & _); [by rewrite (at_hop _ _ Hat)|].
  rewrite (P_bind_eq _ _ _ _ _ Er). unfold slow_path_if. cbn. split_and!; [done|naive_solver|done].
Qed.

Lemma validateEgressUp_checks IsUp p :
  checks (validateEgressUp IsUp) p (session_down IsUp (d p) (egress_of (infoField p) (hopField p)) = false).
Proof. by apply reject_checks. Qed.

Lemma processEgress_eq p D :
  at_pos p D →
  ∃ p' D' o,
    Decoded.IncPath (if InfoField.ConsDir (infoField p) && negb (peering p)
                     then store_cur_info (chained (infoField p) (hopField p)) D else D) = (D', o) ∧
    processEgress p = (p', verdict_of (wrap_err "incrementing path" o)) ∧ o ≠ Panic ∧
    holds p' D' ∧ Decoded.Len D' = Decoded.Len D ∧ same_env p p' ∧
    same_outside (pathOff p) (Decoded.Len D) (rawPkt p) (rawPkt p') ∧ (o = Ok tt → synced (path p')).
Proof.
  intros Hat. unfold processEgress.
  set (D1 := if InfoField.ConsDir (infoField p) && negb (peering p)
    then store_cur_info (chained (infoField p) (hopField p)) D else D).
  assert (∃ p1, (if InfoField.ConsDir (infoField p) && negb (peering p)
      then (_ ← update_segID; store_info "update info field") p else (p, Continue tt)) = (p1, Continue tt) ∧
      moved p D p1 D1) as (p1 & E1 & M1).
  { unfold D1. destruct (_ && _); [|exists p; by split; [|apply moved_refl]].
    destruct (segid_store_step "update info field" p D Hat) as (p1 & ? & ? & _). eauto. }
  rewrite (P_bind_eq _ _ p p1 tt E1). destruct M1 as [Ee [Hh _ _] HL Ho _].
  destruct (IncPath_step "incrementing path" p1 D1 Hh) as (r & D' & o & E & ED & Hr & HL' & Hp & _ & _ & Hs).
  destruct (with_path_holds r p1 D1 D' Hh Hr HL') as [H2 O2].
  exists (with_path r p1), D', o. split_and!; [done..|congruence|by etransitivity| |exact Hs].
  rewrite (env_off _ _ Ee), HL in O2. etransitivity; [exact Ho|exact O2].
Qed.

(** ** What leaves the router *)

(** The end of the SCION header, where the hop-by-hop extension starts. *)
Definition hdr_end (p : t) : Z := SCION.HdrLen (scionLayer p) * AddrType.LineLen.

(** Two packets of the same length that agree before the path, and after it up
    to position [hi]. *)
Record agree (off n hi : Z) (pkt pkt' : bytes) : Prop := {
  agree_len : len pkt' = len pkt;
  agree_byte (i : nat) : Z.of_nat i < off ∨ off + n ≤ Z.of_nat i < hi → pkt' !! i = pkt !! i
}.

#[export] Instance agree_preorder off n hi : PreOrder (agree off n hi).
Proof.
  split; [by split|]. intros x y z [L1 B1] [L2 B2]. split; [congruence|].
  intros i Hi. by rewrite B2, B1.
Qed.

Lemma same_outside_agree off n hi pkt pkt' :
  0 ≤ off → 0 ≤ n → same_outside off n pkt pkt' → agree off n hi pkt pkt'.
Proof.
  intros Ho Hn [L B A]. split; [done|]. intros i [Hi|Hi].
  - rewrite <- (lookup_take_lt pkt (Z.to_nat off) i), <- (lookup_take_lt pkt' (Z.to_nat off) i) by lia. by rewrite B.
  - replace i with (Z.to_nat (off + n) + (i - Z.to_nat (off + n)))%nat by lia.
    by rewrite <- !lookup_drop, A.
Qed.

Lemma opt_frame_agree k off n hi p p' :
  hi ≤ k → off ≤ k → opt_frame k p p' → agree off n hi (rawPkt p) (rawPkt p').
Proof.
  intros Hk Ho [_ L T]. split; [done|]. intros i Hi.
  rewrite <- (lookup_take_lt (rawPkt p) (Z.to_nat k) i), <- (lookup_take_lt (rawPkt p') (Z.to_nat k) i) by lia.
  by rewrite T.
Qed.

Lemma opt_frame_at k p D p' :
  at_pos p D → pathOff p + Decoded.Len D ≤ k → opt_frame k p p' → at_pos p' D.
Proof.
  intros [[Hr Ho Hb Hw] Hi Hh] Hk [E L T]. 
  assert (path p' = path p) as E1 by (by rewrite E). assert (pathOff p' = pathOff p) as E2 by (by rewrite E).
  assert (0 ≤ Decoded.Len D) by (rewrite <- (repr_len _ _ Hr); apply len_nonneg).
  split; [split|by rewrite E|by rewrite E]; rewrite ?E1, ?E2, ?L; try done.
  rewrite <- Hw. apply list_eq. intros i.
  destruct (decide (i < Z.to_nat (Decoded.Len D))%nat).
  2:{ by rewrite !lookup_take_ge by lia. }
  rewrite !lookup_take_lt, !lookup_drop by lia.
  rewrite <- (lookup_take_lt (rawPkt p) (Z.to_nat k)), <- (lookup_take_lt (rawPkt p') (Z.to_nat k)) by lia.
  by rewrite T.
Qed.

(** Before a packet is processed: it holds [D] as the path of its header, and the
    options of its hop-by-hop extension lie in it. *)
Record ready (p : t) (D : Decoded.t) : Prop := {
  rd_holds : holds p D;
  rd_synced : synced (path p);
  rd_header : pathOff p + Decoded.Len D ≤ hdr_end p;
  rd_xover : effectiveXover p = false;
  rd_options : opts_fit (Extn.Options (hbhLayer p)) (hdr_end p + 2) (len (rawPkt p))
}.

(** After it was processed. *)
Record emitted (p : t) (D : Decoded.t) (p' : t) (D' : Decoded.t) : Prop := {
  em_holds : holds p' D';
  em_synced : synced (path p');
  em_off : pathOff p' = pathOff p;
  em_scion : scionLayer p' = scionLayer p;
  em_len : Decoded.Len D' = Decoded.Len D;
  em_bytes : agree (pathOff p) (Decoded.Len D) (hdr_end p) (rawPkt p) (rawPkt p')
}.

Section options.
Context (aes_Encrypt : bytes → bytes → bytes).
Context (netip_ParseAddr : gostring → outcome IP.t) (netip_String : IP.t → gostring).
Context (now : Z).
Let options := processHbhOptions aes_Encrypt netip_ParseAddr netip_String now.

Lemma hdr_end_bound p D : ready p D → 0 ≤ pathOff p ∧ 0 ≤ Decoded.Len D ∧ pathOff p + Decoded.Len D ≤ hdr_end p.
Proof.
  intros [[Hr Ho _ _] _ Hb _ _]. split_and!; [done| |done].
  rewrite <- (repr_len _ _ Hr). apply len_nonneg.
Qed.

(** The options of a packet on its way, in a state that a [ready] one has moved to. *)
Lemma options_step p D p1 D1 e :
  ready p D → moved p D p1 D1 →
  let p2 := (options e p1).1 in
  opt_frame (hdr_end p + 2) p1 p2 ∧ at_pos p2 D1 ∧
  agree (pathOff p) (Decoded.Len D) (hdr_end p) (rawPkt p) (rawPkt p2).
Proof.
  intros Hrd [Ee Hat HL Ho _]. pose proof (hdr_end_bound _ _ Hrd). destruct Hrd as [Hh _ Hb _ Hf].
  assert (opt_frame (hdr_end p + 2) p1 (options e p1).1) as F.
  { unfold options, processHbhOptions. unfold hdr_end in *. rewrite (env_hbh _ _ Ee), (env_scion _ _ Ee).
    apply hbh_loop_frame; [lia|]. by rewrite (outside_len _ _ _ _ Ho). }
  split_and!; [done| |].
  - eapply opt_frame_at; [done| |exact F]. rewrite (env_off _ _ Ee). lia.
  - etransitivity; [eapply same_outside_agree; [lia..|exact Ho]|].
    eapply opt_frame_agree; [| |exact F]; lia.
Qed.

Lemma options_none p e : Extn.Options (hbhLayer p) = [] → options e p = (p, Continue tt).
Proof. intros H. unfold options, processHbhOptions. by rewrite H. Qed.

(** ** The exits of the router *)

Let forward := forward aes_Encrypt netip_ParseAddr netip_String now.

Lemma set_transit_moved tr a p D p1 D1 : moved p D p1 D1 → moved p D (set_transit tr a p1) D1.
Proof. intros [[] [Hh Hi Ho] HL O S]. split; [by split| |done|done|exact S]. split; [by apply (holds_ext p1)|done..]. Qed.

(** What the router leaves when it sends a packet that has arrived. *)
Definition sent (p : t) (D : Decoded.t) (p1 : t) (D2 : Decoded.t) (egress : Z) (p' : t) (res : processResult) : Prop :=
  ∃ D', leaves D2 (infoField p1) (hopField p1) (peering p1) D' ∧
    res = mkResult egress None (Some (rawPkt p')) (traffic_type p) ∧ emitted p D p' D'.
Definition relayed (p : t) (D D2 : Decoded.t) (a : UDPAddr) (p' : t) (res : processResult) : Prop :=
  res = mkResult 0 (Some a) (Some (rawPkt p')) ttInTransit ∧ emitted p D p' D2.

Lemma options_env e p1 p2 :
  opt_frame e p1 p2 → same_env p1 (set_options (identifier p1) (fabrid p1) p2) ∧
  infoField p2 = infoField p1 ∧ hopField p2 = hopField p1 ∧ peering p2 = peering p1 ∧ path p2 = path p1.
Proof. intros [-> _ _]. by split. Qed.

Lemma traffic_type_env p p' : same_env p p' → traffic_type p' = traffic_type p.
Proof. intros []. unfold traffic_type. by rewrite env_scion0, env_d0, env_ingress0. Qed.

(** Out of an interface of this router, once the options went through. *)
Lemma send_step p D p1 D2 k p2 :
  ready p D → moved p D p1 D2 → opt_frame k p1 p2 → at_pos p2 D2 →
  agree (pathOff p) (Decoded.Len D) (hdr_end p) (rawPkt p) (rawPkt p2) →
  ∃ p3 D3 o,
    Decoded.IncPath (if InfoField.ConsDir (infoField p1) && negb (peering p1)
                     then store_cur_info (chained (infoField p1) (hopField p1)) D2 else D2) = (D3, o) ∧
    processEgress p2 = (p3, verdict_of (wrap_err "incrementing path" o)) ∧ o ≠ Panic ∧
    traffic_type p3 = traffic_type p ∧
    agree (pathOff p) (Decoded.Len D) (hdr_end p) (rawPkt p) (rawPkt p3) ∧ (o = Ok tt → emitted p D p3 D3).
Proof.
  intros Hrd HM F A2 Hag. destruct HM as [Ee _ HL _ _]. pose proof (hdr_end_bound _ _ Hrd) as (Hb1 & Hb2 & _).
  destruct (options_env _ _ _ F) as (Ev & Ei & Eh & Ep & _).
  destruct (processEgress_eq p2 D2 A2) as (p3 & D3 & o & EI & EE & Hp & Hh & HL3 & Ee3 & HO & Hs).
  rewrite Ei, Eh, Ep in EI. exists p3, D3, o.
  assert (agree (pathOff p) (Decoded.Len D) (hdr_end p) (rawPkt p) (rawPkt p3)) as Hag3.
  { etransitivity; [exact Hag|]. rewrite <- HL, <- (env_off _ _ Ee), <- (env_off _ _ Ev).
    apply same_outside_agree; [| |exact HO]; [|lia].
    rewrite <- (env_off _ _ Ee), <- (env_off _ _ Ev) in Hb1. exact Hb1. }
  split_and!; [done..| |done|].
  - rewrite (traffic_type_env _ _ Ee3), <- (traffic_type_env _ _ Ee). apply (traffic_type_env _ _ Ev).
  - intros Eo. split; [done|by apply Hs| | |congruence|done].
    + rewrite (env_off _ _ Ee3), <- (env_off _ _ Ee). by rewrite <- (env_off _ _ Ev).
    + rewrite (env_scion _ _ Ee3), <- (env_scion _ _ Ee). by rewrite <- (env_scion _ _ Ev).
Qed.

Lemma forward_sound p D p1 D2 p' res :
  ready p D → moved p D p1 D2 → forward p1 = (p', Continue res) →
  let egress := egress_of (infoField p1) (hopField p1) in
  (is_Some (external (d p) !! egress) ∧ sent p D p1 D2 egress p' res) ∨
  (external (d p) !! egress = None ∧
   ∃ a, internalNextHops (d p) !! egress = Some a ∧ relayed p D D2 a p' res).
Proof.
  intros Hrd HM. unfold forward, Processor.forward. change (egressInterface p1) with (egress_of (infoField p1) (hopField p1)).
  set (e := egress_of _ _). rewrite (env_d _ _ (mv_env _ _ _ _ HM)). cbv zeta.
  destruct (external (d p) !! e) as [x|] eqn:Ex; cbn [is_some is_nil negb].
  - intros H. left. split; [eauto|]. apply P_bind_Continue in H as (p2 & [] & ->%update_Continue & H).
    pose proof (set_transit_moved ingressEgressSameRouter (nextHop p1) _ _ _ _ HM) as HM'.
    apply P_bind_Continue in H as (p3 & [] & H3 & H).
    destruct (options_step _ _ _ _ e Hrd HM') as (F & A & G). unfold options in *. rewrite H3 in F, A, G. cbn [fst] in F, A, G.
    apply P_bind_Continue in H as (p4 & [] & H4 & H).
    destruct (send_step _ _ _ _ _ _ Hrd HM' F A G) as (p4' & D3 & o & EI & EE & _ & ET & _ & EM).
    rewrite EE in H4. destruct o as [[]| |]; [|done..]. injection H4 as ->.
    apply P_bind_Continue in H as (? & ? & [-> ->]%read_Continue & [-> ->]%mret_Continue).
    exists D3. split_and!; [done| |by apply EM]. unfold id. by rewrite ET.
  - destruct (internalNextHops (d p) !! e) as [a|] eqn:Ea; [|done]. intros H. right. split; [done|].
    exists a. split; [done|]. apply P_bind_Continue in H as (p2 & [] & ->%update_Continue & H).
    pose proof (set_transit_moved ingressEgressDifferentRouter (Some a) _ _ _ _ HM) as HM'.
    apply P_bind_Continue in H as (p3 & [] & H3 & H).
    destruct (options_step _ _ _ _ e Hrd HM') as (F & A & G). unfold options in *. rewrite H3 in F, A, G. cbn [fst] in F, A, G.
    apply P_bind_Continue in H as (? & ? & [-> ->]%read_Continue & [-> ->]%mret_Continue).
    destruct (options_env _ _ _ F) as (Ev & _ & _ & _ & Epath).
    split; [done|]. split; [apply A| | | |apply HM|done].
    + rewrite Epath. apply (mv_synced _ _ _ _ HM'), (rd_synced _ _ Hrd).
    + rewrite <- (env_off _ _ (mv_env _ _ _ _ HM')). by rewrite <- (env_off _ _ Ev).
    + rewrite <- (env_scion _ _ (mv_env _ _ _ _ HM')). by rewrite <- (env_scion _ _ Ev).
Qed.

Lemma forward_sends p D p1 D2 D' :
  ready p D → moved p D p1 D2 → Extn.Options (hbhLayer p) = [] →
  let egress := egress_of (infoField p1) (hopField p1) in
  is_Some (external (d p) !! egress) → leaves D2 (infoField p1) (hopField p1) (peering p1) D' →
  ∃ p' res, forward p1 = (p', Continue res).
Proof.
  intros Hrd HM Hn. unfold forward, Processor.forward. change (egressInterface p1) with (egress_of (infoField p1) (hopField p1)).
  set (e := egress_of _ _). rewrite (env_d _ _ (mv_env _ _ _ _ HM)). cbv zeta. intros [x Ex] Hl.
  rewrite Ex. cbn [is_some is_nil negb].
  pose proof (set_transit_moved ingressEgressSameRouter (nextHop p1) _ _ _ _ HM) as HM'.
  assert (Extn.Options (hbhLayer (set_transit ingressEgressSameRouter (nextHop p1) p1)) = []) as Hn'.
  { by rewrite (env_hbh _ _ (mv_env _ _ _ _ HM')). }
  rewrite (P_bind_eq _ _ _ _ _ (eq_refl : update (λ p, set_transit ingressEgressSameRouter (nextHop p) p) p1 = (_, Continue tt))).
  rewrite (P_bind_eq _ _ _ _ _ (options_none _ e Hn')).
  destruct (options_step _ _ _ _ e Hrd HM') as (F & A & G).
  rewrite (options_none _ e Hn') in F, A, G. cbn [fst] in F, A, G.
  destruct (send_step _ _ _ _ _ _ Hrd HM' F A G) as (p4 & D3 & o & EI & EE & _ & _).
  unfold leaves in Hl. change (infoField (set_transit _ _ p1)) with (infoField p1) in EI.
  change (hopField (set_transit _ _ p1)) with (hopField p1) in EI.
  change (peering (set_transit _ _ p1)) with (peering p1) in EI. rewrite Hl in EI. injection EI as <- <-.
  rewrite (P_bind_eq _ _ _ _ _ EE). by eexists _, _.
Qed.

Lemma forward_relays p D p1 D2 a :
  moved p D p1 D2 → Extn.Options (hbhLayer p) = [] →
  let egress := egress_of (infoField p1) (hopField p1) in
  external (d p) !! egress = None → internalNextHops (d p) !! egress = Some a →
  ∃ p' res, forward p1 = (p', Continue res).
Proof.
  intros HM Hn. unfold forward, Processor.forward. change (egressInterface p1) with (egress_of (infoField p1) (hopField p1)).
  set (e := egress_of _ _). rewrite (env_d _ _ (mv_env _ _ _ _ HM)). cbv zeta. intros Ex Ea.
  rewrite Ex, Ea. cbn [is_some is_nil negb].
  pose proof (set_transit_moved ingressEgressDifferentRouter (Some a) _ _ _ _ HM) as HM'.
  assert (Extn.Options (hbhLayer (set_transit ingressEgressDifferentRouter (Some a) p1)) = []) as Hn'.
  { by rewrite (env_hbh _ _ (mv_env _ _ _ _ HM')). }
  rewrite (P_bind_eq _ _ _ _ _ (eq_refl : update (set_transit ingressEgressDifferentRouter (Some a)) p1 = (_, Continue tt))).
  rewrite (P_bind_eq _ _ _ _ _ (options_none _ e Hn')). by eexists _, _.
Qed.
(** Into the AS. *)
Section inbound.
Context (NewPacket : bytes → L4.LayerType → list Layer) (intn : Z → Z).
Let inbound := process_inbound aes_Encrypt netip_ParseAddr netip_String NewPacket intn now.

Lemma resolveInbound_env p p' :
  same_env p p' → (resolveInbound NewPacket intn p').2 = (resolveInbound NewPacket intn p).2.
Proof.
  intros [Ed _ _ Es Eh Ee El _ _ _]. unfold resolveInbound, nextHdr, LayerPayload.
  rewrite Ed, Es, Eh, Ee, El. destruct (resolveLocalDst _ _ _ _ _ _) as [? [?|?|]]; [done| |done].
  by repeat destruct (errors_Is _ _).
Qed.

Lemma resolveInbound_state p : ∃ dp, (resolveInbound NewPacket intn p).1 = set_d dp p.
Proof.
  unfold resolveInbound. destruct (resolveLocalDst _ _ _ _ _ _) as [dp [?|?|]]; exists dp; [done| |done].
  by repeat destruct (errors_Is _ _).
Qed.

Lemma set_d_moved dp p D p1 D1 : moved p D p1 D1 → moved (set_d dp p) D (set_d dp p1) D1.
Proof. intros [[] [Hh Hi Ho] HL O S]. split; [by split| |done|done|exact S]. split; [by apply (holds_ext p1)|done..]. Qed.

Definition delivered (p : t) (D D1 : Decoded.t) (a : option UDPAddr) (p' : t) (res : processResult) : Prop :=
  res = mkResult 0 a (Some (rawPkt p')) ttIn ∧ emitted p D p' D1.

Lemma inbound_sound p D p1 D1 p' res :
  ready p D → moved p D p1 D1 → inbound p1 = (p', Continue res) →
  ∃ a, (resolveInbound NewPacket intn p).2 = Continue a ∧ delivered p D D1 a p' res.
Proof.
  intros Hrd HM. unfold inbound, process_inbound.
  intros (p2 & a & H2 & H)%P_bind_Continue. exists a.
  rewrite <- (resolveInbound_env _ _ (mv_env _ _ _ _ HM)), H2. split; [done|].
  destruct (resolveInbound_state p1) as [dp Ed]. rewrite H2 in Ed. cbn [fst] in Ed. subst p2.
  apply P_bind_Continue in H as (? & [] & ->%update_Continue & H).
  apply P_bind_Continue in H as (p4 & [] & H4 & H).
  apply P_bind_Continue in H as (? & ? & [-> ->]%read_Continue & [-> ->]%mret_Continue).
  assert (ready (set_d dp p) D) as Hrd'.
  { destruct Hrd. split; [by apply (holds_ext p)|done..]. }
  pose proof (set_transit_moved internalTraffic a _ _ _ _ (set_d_moved dp _ _ _ _ HM)) as HM'.
  destruct (options_step _ _ _ _ 0 Hrd' HM') as (F & A & G). unfold options in *. rewrite H4 in F, A, G. cbn [fst] in F, A, G.
  destruct (options_env _ _ _ F) as (Ev & _ & _ & _ & Epath).
  split; [done|]. split; [apply A| | | |apply HM|exact G].
  - rewrite Epath. apply (mv_synced _ _ _ _ HM), (rd_synced _ _ Hrd).
  - rewrite <- (env_off _ _ (mv_env _ _ _ _ HM)). exact (env_off _ _ Ev).
  - rewrite <- (env_scion _ _ (mv_env _ _ _ _ HM)). exact (env_scion _ _ Ev).
Qed.

Lemma inbound_complete p D p1 D1 a :
  moved p D p1 D1 → Extn.Options (hbhLayer p) = [] → (resolveInbound NewPacket intn p).2 = Continue a →
  ∃ p' res, inbound p1 = (p', Continue res).
Proof.
  intros HM Hn Ha. unfold inbound, process_inbound.
  rewrite <- (resolveInbound_env _ _ (mv_env _ _ _ _ HM)) in Ha.
  destruct (resolveInbound_state p1) as [dp Ed].
  assert (resolveInbound NewPacket intn p1 = (set_d dp p1, Continue a)) as E.
  { rewrite <- Ed, <- Ha. by destruct (resolveInbound _ _ _). }
  rewrite (P_bind_eq _ _ _ _ _ E).
  rewrite (P_bind_eq _ _ _ _ _ (eq_refl : update (set_transit internalTraffic a) (set_d dp p1) = (_, Continue tt))).
  assert (Extn.Options (hbhLayer (set_transit internalTraffic a (set_d dp p1))) = []) as Hn'.
  { by rewrite <- Hn, <- (env_hbh _ _ (mv_env _ _ _ _ HM)). }
  rewrite (P_bind_eq _ _ _ _ _ (options_none _ 0 Hn')). by eexists _, _.
Qed.
End inbound.
End options.

(** ** The departure of a packet *)

Lemma may_leave_env IsUp p p' xover info hop e :
  same_env p p' → may_leave IsUp p' xover info hop e ↔ may_leave IsUp p xover info hop e.
Proof.
  intros E. split; intros []; split;
    unfold link_type in *; rewrite ?(env_d _ _ E), ?(env_ingress _ _ E) in *; done.
Qed.

Section departure.
Context (mac : bytes → bytes) (Hmac : ∀ b, 16 ≤ len (mac b)) (now : Z) (IsUp : nat → bool).

(** The steps before a packet is sent or relayed. *)
Definition departure : P unit :=
  _ ← xover_if_needed mac now;
  _ ← validateEgressID;
  _ ← handleEgressRouterAlert;
  validateEgressUp IsUp.

Lemma departure_complete p D p1 D1 peer xover D2 info2 hop2 egress :
  moved p D p1 D1 → peering p1 = peer → effectiveXover p1 = false →
  changes_segment mac now peer D1 xover D2 → cur_info D2 = Some info2 → cur_hop D2 = Some hop2 →
  may_leave IsUp p xover info2 hop2 egress →
  ∃ p2, departure p1 = (p2, Continue tt) ∧ moved p D p2 D2 ∧
    infoField p2 = info2 ∧ hopField p2 = hop2 ∧ peering p2 = peer.
Proof using Hmac.
  intros HM Hp Hx Hc Hi Ho Hl. unfold departure.
  destruct (xover_complete mac Hmac now _ _ _ _ _ (mv_at _ _ _ _ HM) Hp Hx Hc) as (p2 & E2 & M2 & X2 & F2).
  rewrite (P_bind_eq _ _ _ _ _ E2). exists p2.
  assert (moved p D p2 D2) as HM2 by (by eapply moved_trans).
  pose proof (at_info _ _ (mv_at _ _ _ _ M2)) as Ei. rewrite Hi in Ei. injection Ei as ->.
  pose proof (at_hop _ _ (mv_at _ _ _ _ M2)) as Eh. rewrite Ho in Eh. injection Eh as ->.
  apply (may_leave_env _ _ _ _ _ _ _ (mv_env _ _ _ _ HM2)) in Hl. destruct Hl as [-> Hk Hl Ha Hu].
  rewrite (P_bind_eq _ _ _ p2 tt) by (apply validateEgressID_checks; by rewrite X2).
  rewrite (P_bind_eq _ _ _ p2 tt) by (by apply (handleEgressRouterAlert_checks p2 D2 (mv_at _ _ _ _ M2))).
  split_and!; [by apply validateEgressUp_checks|done..].
Qed.

Lemma departure_sound p D p1 D1 p2 u :
  moved p D p1 D1 → effectiveXover p1 = false → departure p1 = (p2, Continue u) →
  ∃ xover D2 info2 hop2, changes_segment mac now (peering p1) D1 xover D2 ∧
    cur_info D2 = Some info2 ∧ cur_hop D2 = Some hop2 ∧
    may_leave IsUp p xover info2 hop2 (egress_of info2 hop2).
Proof using Hmac.
  intros HM Hx. unfold departure. intros (p3 & [] & H3 & H)%P_bind_Continue.
  destruct (xover_sound mac Hmac now _ _ _ _ (mv_at _ _ _ _ HM) H3) as (xover & D2 & Hc).
  destruct (xover_complete mac Hmac now _ _ _ _ _ (mv_at _ _ _ _ HM) eq_refl Hx Hc) as (p3' & E3 & M3 & X3 & _).
  rewrite H3 in E3. injection E3 as <-.
  pose proof (mv_at _ _ _ _ M3) as A3.
  exists xover, D2, (infoField p3), (hopField p3). split_and!; [done|apply A3..|].
  apply P_bind_Continue in H as (? & [] & [-> [Hk Hl]]%validateEgressID_checks & H).
  apply P_bind_Continue in H as (? & [] & [-> Ha]%(handleEgressRouterAlert_checks _ _ A3) & H).
  destruct u. apply validateEgressUp_checks in H as [-> Hu]. rewrite X3 in Hl.
  apply (may_leave_env _ p p3); [apply (moved_trans _ _ _ _ _ _ HM M3)|by split].
Qed.
End departure.

(** ** The whole processor *)

(** The abstract router is deterministic. *)
Lemma admitted_det mac now p D info hop peer info' hop' peer' :
  admitted mac now p D info hop peer → admitted mac now p D info' hop' peer' →
  info = info' ∧ hop = hop' ∧ peer = peer'.
Proof.
  intros [Hi Ho Hp _ _ _ _ _ _] [Hi' Ho' Hp' _ _ _ _ _ _].
  rewrite Hi in Hi'. injection Hi' as <-. rewrite Ho in Ho'. injection Ho' as <-.
  rewrite Hp in Hp'. by injection Hp' as <-.
Qed.

Lemma changes_segment_det mac now peer D x D2 x' D2' :
  changes_segment mac now peer D x D2 → changes_segment mac now peer D x' D2' → x = x' ∧ D2 = D2'.
Proof.
  intros H Hc. destruct H as [E|D1 ? ? E EI]; destruct Hc as [E'|D1' ? ? E' EI']; [done|congruence..|].
  rewrite EI in EI'. by injection EI' as ->.
Qed.

Lemma routes_det mac now IsUp NewPacket intn p D a D1 a' D1' :
  routes mac now IsUp NewPacket intn p D a D1 → routes mac now IsUp NewPacket intn p D a' D1' → a = a' ∧ D1 = D1'.
Proof.
  intros H H'.
  destruct H as [info hop peer a Had El Ha
    |info hop peer xover D2 info2 hop2 e D3 Had El Hc Hi2 Ho2 Hl Hex Hlv
    |info hop peer xover D2 info2 hop2 e a Had El Hc Hi2 Ho2 Hl Hex Ha];
  destruct H' as [info' hop' peer' a' Had' El' Ha'
    |info' hop' peer' xover' D2' info2' hop2' e' D3' Had' El' Hc' Hi2' Ho2' Hl' Hex' Hlv'
    |info' hop' peer' xover' D2' info2' hop2' e' a' Had' El' Hc' Hi2' Ho2' Hl' Hex' Ha'];
  try done; destruct (admitted_det _ _ _ _ _ _ _ _ _ _ Had Had') as (<- & <- & <-); [rewrite Ha in Ha'; by injection Ha' as ->|..];
  destruct (changes_segment_det _ _ _ _ _ _ _ _ Hc Hc') as (<- & <-);
  rewrite Hi2 in Hi2'; rewrite Ho2 in Ho2'; injection Hi2' as <-; injection Ho2' as <-;
  pose proof (ml_egress _ _ _ _ _ _ Hl) as ->; pose proof (ml_egress _ _ _ _ _ _ Hl') as ->.
  - unfold leaves in *. rewrite Hlv in Hlv'. by injection Hlv' as ->.
  - destruct Hex as [? Hex]. congruence.
  - destruct Hex' as [? Hex']. congruence.
  - rewrite Ha in Ha'. by injection Ha' as ->.
Qed.

Section process.
Context (aes_Encrypt : bytes → bytes → bytes) (mac : bytes → bytes).
Context (netip_ParseAddr : gostring → outcome IP.t) (netip_String : IP.t → gostring).
Context (NewPacket : bytes → L4.LayerType → list Layer) (intn : Z → Z).
Context (now : Z) (IsUp : nat → bool).
Context (Hmac : ∀ b, 16 ≤ len (mac b)).
Let process := process aes_Encrypt mac netip_ParseAddr netip_String NewPacket intn now IsUp.
Let routes := routes mac now IsUp NewPacket intn.

(** The result that stands for an action. *)
Definition result_of (p : t) (a : action) (p' : t) : processResult :=
  match a with
  | Deliver a => mkResult 0 a (Some (rawPkt p')) ttIn
  | Send egress => mkResult egress None (Some (rawPkt p')) (traffic_type p)
  | Relay a => mkResult 0 (Some a) (Some (rawPkt p')) ttInTransit
  end.

Lemma process_outbound_eq p :
  process_outbound aes_Encrypt mac netip_ParseAddr netip_String now IsUp p =
  (departure mac now IsUp ≫= λ _, Processor.forward aes_Encrypt netip_ParseAddr netip_String now) p.
Proof.
  unfold process_outbound, departure, mbind, P_bind.
  destruct (xover_if_needed _ _ _) as [? [| | |]]; [|done..]. destruct (validateEgressID _) as [? [| | |]]; [|done..].
  by destruct (handleEgressRouterAlert _) as [? [| | |]].
Qed.

Lemma arrival_is_local p D info hop peer p1 :
  arrival_done p D info hop peer p1 →
  (SCION.DstIA (scionLayer p1) =? localIA (d p1)) = (SCION.DstIA (scionLayer p) =? localIA (d p)).
Proof. intros [[E _ _ _ _] _ _ _ _]. by rewrite (env_scion _ _ E), (env_d _ _ E). Qed.

Lemma process_sim p D p' res :
  ready p D → process p = (p', Continue res) →
  ∃ a D', routes p D a D' ∧ res = result_of p a p' ∧ emitted p D p' D'.
Proof using Hmac.
  intros Hrd. unfold process, Processor.process. intros (p1 & u & H1 & H)%P_bind_Continue.
  destruct (arrival_sound mac Hmac now _ _ _ _ (rd_holds _ _ Hrd) H1) as (info & hop & peer & Had).
  destruct (arrival_complete mac Hmac now _ _ _ _ _ (rd_holds _ _ Hrd) Had) as (p1' & E1 & Hd).
  rewrite H1 in E1. injection E1 as <- _.
  apply P_bind_Continue in H as (? & ? & [-> ->]%read_Continue & H). unfold id in H.
  rewrite (arrival_is_local _ _ _ _ _ _ Hd) in H. destruct Hd as [HM HI HO HP HX].
  rewrite (rd_xover _ _ Hrd) in HX.
  destruct (Z.eqb_spec (SCION.DstIA (scionLayer p)) (localIA (d p))) as [El|El].
  - destruct (inbound_sound _ _ _ _ _ _ _ _ _ _ _ _ Hrd HM H) as (a & Ha & -> & Hem).
    exists (Deliver a). eexists. split; [|split; [done|exact Hem]]. by apply (routes_deliver _ _ _ _ _ _ _ info hop).
  - rewrite process_outbound_eq in H. apply P_bind_Continue in H as (p2 & [] & H2 & H).
    destruct (departure_sound mac Hmac now IsUp _ _ _ _ _ _ HM HX H2) as (xover & D2 & info2 & hop2 & Hc & Hi & Ho & Hl).
    destruct (departure_complete mac Hmac now IsUp _ _ _ _ _ _ _ _ _ _ HM eq_refl HX Hc Hi Ho Hl) as (p2' & E2 & M2 & I2 & O2 & P2).
    rewrite H2 in E2. injection E2 as <-. rewrite HP in *.
    destruct (forward_sound _ _ _ _ _ _ _ _ _ _ Hrd M2 H) as [(Hex & D' & Hlv & -> & Hem)|(Hex & a & Ha & -> & Hem)];
      rewrite I2, O2 in *.
    + rewrite P2 in Hlv. exists (Send (egress_of info2 hop2)), D'. split; [|by split]. by eapply routes_send.
    + exists (Relay a), D2. split; [|by split]. by eapply routes_relay.
Qed.

(** Packets without options that the abstract router routes go through. *)
Lemma process_runs p D a D' :
  ready p D → Extn.Options (hbhLayer p) = [] → routes p D a D' →
  ∃ p' res, process p = (p', Continue res).
Proof using Hmac.
  intros Hrd Hn Hr. unfold process, Processor.process.
  assert (∃ info hop peer, admitted mac now p D info hop peer) as (info & hop & peer & Had) by (destruct Hr; eauto).
  destruct (arrival_complete mac Hmac now _ _ _ _ _ (rd_holds _ _ Hrd) Had) as (p1 & E1 & Hd).
  rewrite (P_bind_eq _ _ _ _ _ E1), (P_bind_eq _ _ _ p1 p1 eq_refl), (arrival_is_local _ _ _ _ _ _ Hd).
  destruct Hd as [HM HI HO HP HX]. rewrite (rd_xover _ _ Hrd) in HX.
  destruct Hr as [info' hop' peer' a Had' El Ha
    |info' hop' peer' xover D2 info2 hop2 e D3 Had' El Hc Hi2 Ho2 Hl Hex Hlv
    |info' hop' peer' xover D2 info2 hop2 e a Had' El Hc Hi2 Ho2 Hl Hex Ha];
    destruct (admitted_det _ _ _ _ _ _ _ _ _ _ Had Had') as (<- & <- & <-).
  - rewrite (proj2 (Z.eqb_eq _ _) El). by eapply inbound_complete.
  - rewrite (proj2 (Z.eqb_neq _ _) El), process_outbound_eq.
    destruct (departure_complete mac Hmac now IsUp _ _ _ _ _ _ _ _ _ _ HM HP HX Hc Hi2 Ho2 Hl) as (p2 & E2 & M2 & I2 & O2 & P2).
    rewrite (P_bind_eq _ _ _ _ _ E2). rewrite (ml_egress _ _ _ _ _ _ Hl) in Hex.
    eapply (forward_sends _ _ _ _ p D p2 D2 D3 Hrd M2 Hn); rewrite I2, O2; [done|by rewrite P2].
  - rewrite (proj2 (Z.eqb_neq _ _) El), process_outbound_eq.
    destruct (departure_complete mac Hmac now IsUp _ _ _ _ _ _ _ _ _ _ HM HP HX Hc Hi2 Ho2 Hl) as (p2 & E2 & M2 & I2 & O2 & P2).
    rewrite (P_bind_eq _ _ _ _ _ E2). rewrite (ml_egress _ _ _ _ _ _ Hl) in Hex, Ha.
    eapply (forward_relays _ _ _ _ p D p2 D2 a M2 Hn); by rewrite I2, O2.
Qed.
End process.

End RouterSimulation.
