(* ===== verification/EpicHvf.v ===== *)
(** EPIC packet timestamps and hop validation fields,
    [pkg/experimental/epic/epic.go] (Module [LibEpic]): the freshness window of
    a timestamp and what a hop validation field authenticates. *)
From S2P Require Export Drkey.

Module LibEpic.

Definition AuthLen : Z := 16.
Definition MaxPacketLifetime : Z := 2 * DRKeyProvider.Second.
Definition MaxClockSkew : Z := DRKeyProvider.Second.
(** 21 microseconds *)
Definition TimestampResolution : Z := 21 * 1000.
Definition MACBufferSize : Z := 48.
Definition zeroInitVector : bytes := make_bytes 16.

(** [a.Sub(b)] of two points in time, in nanoseconds: the result saturates. *)
Definition time_Sub (a b : Z) : Z := Z.max (- 2 ^ 63) (Z.min (2 ^ 63 - 1) (a - b)).

Definition CreateTimestamp (input now : Z) : outcome Z :=
  if now <? input then Err (New "provided input timestamp is in the future") else
  let epicTS := Z.quot (time_Sub now input) TimestampResolution - 1 in
  let epicTS := if epicTS <? 0 then 0 else epicTS in
  if Z.shiftl 1 32 <=? epicTS then Err (New "diff between input and now >1d63min") else
  Ok (u32 epicTS).

(** The product does not exceed 63 bits. *)
Definition VerifyTimestamp (timestamp epicTS now : Z) : outcome unit :=
  let diff := (epicTS + 1) * TimestampResolution in
  let tsSender := timestamp + diff in
  _ ← fail_if (now + MaxClockSkew <? tsSender) (New "epic timestamp is in the future");
  fail_if (tsSender + MaxPacketLifetime + MaxClockSkew <? now) (New "epic timestamp expired").

(** The buffer and the length of the input in it. *)
Definition prepareMacInput (pktID : Epic.PktID) (s : option SCION.t) (timestamp : Z) (inputBuffer : bytes) :
    outcome (bytes * Z) :=
  match s with
  | None => Err (New "SCION common+address header must not be nil")
  | Some s =>
      let srcAddr := SCION.RawSrcAddr s in
      let l := len srcAddr in
      let nrBlocks := (23 + l + 15) / 16 in
      let inputLength := 16 * nrBlocks in
      b ← put inputBuffer 0 (u8 (Z.land (SCION.SrcAddrType s) 3));
      b ← on_sub_from b 1 (λ m, PutUint32 m timestamp);
      b ← on_sub_from b 5 (Epic.PktID_SerializeTo pktID);
      b ← on_sub_from b 13 (λ m, PutUint64 m (SCION.SrcIA s));
      b ← on_sub_from b 21 (λ m, Ok (copy m srcAddr));
      b ← on_sub_from b (21 + l) (λ m, PutUint16 m (SCION.PayloadLen s));
      b ← on_sub b (23 + l) inputLength (λ m, Ok (copy m zeroInitVector));
      Ok (b, inputLength)
  end.

Section cipher.
Context (aes_Encrypt : bytes → bytes → bytes).

Definition initEpicMac (key : bytes) : outcome (bytes → bytes) :=
  match AES.NewCipher aes_Encrypt key with
  | Ok E => Ok E
  | Err _ => Err (New "Unable to initialize AES cipher")
  | Panic => Panic
  end.

Definition CalcMac (auth : bytes) (pktID : Epic.PktID) (s : option SCION.t) (timestamp : Z) (buffer : bytes) :
    outcome bytes :=
  let buffer := if len buffer <? MACBufferSize then make_bytes MACBufferSize else buffer in
  f ← initEpicMac auth;
  r ← prepareMacInput pktID s timestamp buffer;
  let '(buffer, inputLength) := r in
  input ← sub buffer 0 inputLength;
  r ← AES.CryptBlocks f zeroInitVector input input;
  let '(input, _) := r in
  sub input (len input - AES.BlockSize) (len input - AES.BlockSize + 4).

Definition VerifyHVF (auth : bytes) (pktID : Epic.PktID) (s : option SCION.t) (timestamp : Z)
    (hvf buffer : bytes) : outcome unit :=
  _ ← fail_if (match s with None => true | Some _ => false end || negb (len auth =? AuthLen)) (New "invalid input");
  mac ← CalcMac auth pktID s timestamp buffer;
  fail_if (negb (bool_decide (hvf = mac))) (New "epic hop validation field verification failed").
End cipher.

Definition PktCounterFromCore (coreID coreCounter : Z) : Z :=
  Z.lor (u32 (Z.shiftl coreID 24)) (Z.land coreCounter 0x00FFFFFF).
Definition CoreFromPktCounter (counter : Z) : Z * Z :=
  (u8 (Z.shiftr counter 24), Z.land counter 0x00FFFFFF).

End LibEpic.

(** * Specification and lemmas *)
Module EpicHvfLemmas.

Import AES LibEpic DrkeyLemmas.

Definition pad_to_block (b : bytes) : bytes := b ++ make_bytes ((- len b) mod 16).

(** The fields that a hop validation field covers, and the input of the MAC. *)
Definition mac_fields (pktID : Epic.PktID) (s : SCION.t) (timestamp : Z) : bytes :=
  Z.land (SCION.SrcAddrType s) 3 :: be_bytes 4 timestamp ++
  be_bytes 4 (Epic.Timestamp pktID) ++ be_bytes 4 (Epic.Counter pktID) ++
  be_bytes 8 (SCION.SrcIA s) ++ SCION.RawSrcAddr s ++ be_bytes 2 (SCION.PayloadLen s).

Lemma mac_fields_len pktID s timestamp : len (mac_fields pktID s timestamp) = 23 + len (SCION.RawSrcAddr s).
Proof. unfold mac_fields. rewrite len_cons, !len_app, !len_be_bytes. lia. Qed.

Lemma land3_u8 x : u8 (Z.land x 3) = Z.land x 3.
Proof. apply uint_of_small. change 3 with (Z.ones 2). rewrite Z.land_ones by done. unfold is_uint. dlia. Qed.

Lemma PktID_writes i : writes (Epic.PktID_SerializeTo i) (be_bytes 4 (Epic.Timestamp i) ++ be_bytes 4 (Epic.Counter i)).
Proof.
  intros m Hm. rewrite len_app, !len_be_bytes in Hm. unfold Epic.PktID_SerializeTo.
  destruct (split_len 4 m) as (m1 & r1 & -> & L1 & L1'); [lia|]. rewrite len_app in Hm.
  destruct (split_len 4 r1) as (m2 & r2 & -> & L2 & L2'); [lia|].
  rewrite (on_sub_write_first m1 _ (be_bytes 4 (Epic.Timestamp i))) by (done || by apply put_be_all).
  go_cbn. rewrite (on_sub_write _ m2 r2 (be_bytes 4 (Epic.Counter i)))
    by (rewrite ?len_be_bytes; first [lia|by apply put_be_all]).
  rewrite <- app_assoc, (app_assoc m1), drop_app_length'; [done|].
  rewrite !length_app, !length_be_bytes. unfold len in *. lia.
Qed.

(** ** The input of the MAC *)

Lemma prepareMacInput_Ok pktID s timestamp buf :
  len (SCION.RawSrcAddr s) ≤ 16 → 48 ≤ len buf →
  ∃ rest, prepareMacInput pktID (Some s) timestamp buf =
    Ok (pad_to_block (mac_fields pktID s timestamp) ++ rest, len (pad_to_block (mac_fields pktID s timestamp))).
Proof.
  intros Hs Hb. set (src := SCION.RawSrcAddr s) in *. pose proof (len_nonneg src).
  set (f := mac_fields pktID s timestamp).
  assert (len f = 23 + len src) as Lf by apply mac_fields_len.
  assert (len (pad_to_block f) = 16 * ((23 + len src + 15) / 16)) as Lp.
  { unfold pad_to_block. rewrite len_app, len_make_bytes, Lf by dlia. dlia. }
  destruct buf as [|b0 buf]; [by rewrite len_nil in Hb|]. rewrite len_cons in Hb.
  unfold prepareMacInput. fold src. rewrite (put_app [] b0 buf 0) by done. go_cbn. rewrite land3_u8.
  cbn [app]. change (Z.land (SCION.SrcAddrType s) 3 :: buf) with ([Z.land (SCION.SrcAddrType s) 3] ++ buf).
  rewrite (write_tail _ _ _ 1 _ (put_be_writes 4 timestamp)) by (rewrite ?len_be_bytes; done || lia). go_cbn.
  rewrite (write_tail _ _ _ 5 _ (PktID_writes pktID))
    by (rewrite ?len_app, ?len_drop, ?len_be_bytes, ?length_be_bytes; done || lia). go_cbn.
  rewrite (write_tail _ _ _ 13 _ (put_be_writes 8 (SCION.SrcIA s)))
    by (rewrite ?len_app, ?len_drop, ?length_app, ?len_be_bytes, ?length_be_bytes; done || lia). go_cbn.
  rewrite (write_tail _ _ _ 21 _ (copy_writes src))
    by (rewrite ?len_app, ?len_drop, ?length_app, ?len_be_bytes, ?length_be_bytes; done || lia). go_cbn.
  rewrite (write_tail _ _ _ (21 + len src) _ (put_be_writes 2 (SCION.PayloadLen s)))
    by (rewrite ?len_app, ?len_drop, ?length_app, ?len_be_bytes, ?length_be_bytes; change (len [_]) with 1; unfold len in *; lia).
  go_cbn. set (r := drop _ (drop _ _)).
  assert (48 - (23 + len src) ≤ len r) as Lr.
  { unfold r. rewrite !len_drop, ?length_app, ?length_be_bytes. unfold len in *. lia. }
  clearbody r.
  match goal with |- context [on_sub ?b _ _ _] => replace b with (f ++ r) end.
  2:{ unfold f, mac_fields. cbn [app]. by rewrite <- !app_assoc. }
  destruct (split_len ((- len f) mod 16) r) as (m & rest & -> & Lm & _); [dlia|].
  rewrite (on_sub_write f m rest (make_bytes (len m))); [|lia|rewrite Lf in *; dlia|].
  2:{ f_equal. unfold copy, zeroInitVector, make_bytes. rewrite drop_ge.
      2:{ rewrite length_replicate. unfold len in Lm. dlia. }
      rewrite app_nil_r, take_replicate. f_equal. unfold len in *. dlia. }
  exists rest. go_cbn. rewrite Lp. unfold pad_to_block. rewrite Lm. by rewrite <- app_assoc.
Qed.

(** The validation field of a hop: the first four bytes of the last block. *)
Definition hvf (E : bytes → bytes) (pktID : Epic.PktID) (s : SCION.t) (timestamp : Z) : bytes :=
  let input := pad_to_block (mac_fields pktID s timestamp) in
  take 4 (cbc E (Z.to_nat (len input / 16)) zeroInitVector input).2.

Section cipher.
Context {aes_Encrypt : bytes → bytes → bytes} `{!BlockCipher aes_Encrypt}.

Lemma cbc_last E n iv (src : bytes) :
  (∀ b, len b = 16 → len (E b) = 16) → len iv = 16 → 16 * Z.of_nat (S n) ≤ len src →
  drop (16 * n) (cbc E (S n) iv src).1 = (cbc E (S n) iv src).2.
Proof.
  intros HE Hiv Hl. replace (S n) with (n + 1)%nat by lia. rewrite cbc_add. cbn [fst snd].
  destruct (cbc_len E HE n iv src Hiv) as [L _]; [lia|].
  rewrite drop_app_length' by (unfold len in L; lia). cbn [cbc]. by rewrite app_nil_r.
Qed.

Lemma CalcMac_Ok auth pktID s timestamp buf :
  len auth = 16 → len (SCION.RawSrcAddr s) ≤ 16 →
  CalcMac aes_Encrypt auth pktID (Some s) timestamp buf = Ok (hvf (aes_Encrypt auth) pktID s timestamp).
Proof using BlockCipher0.
  intros Ha Hs. unfold CalcMac. set (b := if len buf <? _ then _ else _).
  assert (48 ≤ len b) as Hb by (unfold b, MACBufferSize; destruct (Z.ltb_spec (len buf) 48); [done|lia]).
  unfold initEpicMac, NewCipher. rewrite Ha. cbn [Z.eqb Pos.eqb orb]. go_cbn.
  destruct (prepareMacInput_Ok pktID s timestamp b Hs Hb) as [rest ->]. go_cbn.
  unfold hvf. set (input := pad_to_block _).
  assert (∃ n, len input = 16 * Z.of_nat (S n)) as [n Hn].
  { unfold input, pad_to_block. rewrite len_app, mac_fields_len. pose proof (len_nonneg (SCION.RawSrcAddr s)).
    rewrite len_make_bytes by dlia. set (l := len (SCION.RawSrcAddr s)) in *.
    exists (Z.to_nat ((23 + l + 15) / 16 - 1)). dlia. }
  rewrite sub_prefix by done. go_cbn.
  assert (∀ x, len x = 16 → len (aes_Encrypt auth x) = 16) as HE by (intros; by apply aes_block_len).
  rewrite (CryptBlocks_Ok (aes_Encrypt auth) _ _ _ (S n)) by lia. go_cbn.
  destruct (cbc_len (aes_Encrypt auth) HE (S n) zeroInitVector input) as [L1 L2]; [done|lia|].
  assert (copy input (cbc (aes_Encrypt auth) (S n) zeroInitVector input).1 = (cbc (aes_Encrypt auth) (S n) zeroInitVector input).1) as ->.
  { apply copy_same. unfold len in *. lia. }
  rewrite L1. unfold BlockSize. rewrite sub_Ok by (rewrite ?L1; lia).
  replace (Z.to_nat (len input / 16)) with (S n) by (rewrite Hn, Z.mul_comm, Z.div_mul by lia; lia).
  rewrite <- (cbc_last _ n) by (done || lia). do 2 f_equal; [lia|]. f_equal. lia.
Qed.
End cipher.

End EpicHvfLemmas.

(** * Properties *)
Module EpicHvfProperties.

Import AES LibEpic DrkeyLemmas EpicHvfLemmas.

(** An EPIC timestamp stands for a point in time within one resolution step
    of the moment it was created, so a packet is accepted by every verifier
    whose clock is at most the allowed skew behind and less than the lifetime
    plus the skew ahead, and rejected outside that window; the borders are exact
    to one step.  Creation fails exactly when the reference time is in the future
    or more than 2^32 steps back. *)
Theorem epic_timestamp_window (input now later : Z) :
  0 ≤ input < 2 ^ 62 → 0 ≤ now < 2 ^ 62 →
  ((∃ e, CreateTimestamp input now = Err e) ↔ now < input ∨ (2 ^ 32 + 1) * TimestampResolution ≤ now - input) ∧
  (∀ ts, CreateTimestamp input now = Ok ts → is_u32 ts ∧
    (now - MaxClockSkew + TimestampResolution ≤ later ≤ now + MaxPacketLifetime + MaxClockSkew - TimestampResolution →
      VerifyTimestamp input ts later = Ok tt) ∧
    (later < now - MaxClockSkew - TimestampResolution →
      VerifyTimestamp input ts later = Err (New "epic timestamp is in the future")) ∧
    (now + MaxPacketLifetime + MaxClockSkew + TimestampResolution < later →
      VerifyTimestamp input ts later = Err (New "epic timestamp expired"))).
Proof.
  intros Hi Hn. unfold CreateTimestamp. destruct (Z.ltb_spec now input) as [Hf|Hf].
  { split; [|done]. split; [by left|by eexists]. }
  assert (time_Sub now input = now - input) as -> by (unfold time_Sub; lia).
  rewrite Z.quot_div_nonneg by (unfold TimestampResolution; lia).
  change (Z.shiftl 1 32) with (2 ^ 32).
  set (q := (now - input) / TimestampResolution) in *.
  assert (q * 21000 ≤ now - input < q * 21000 + 21000) as Hq by (unfold q, TimestampResolution; dlia).
  set (ts := if q - 1 <? 0 then 0 else q - 1).
  assert (ts = Z.max 0 (q - 1)) as Ets by (unfold ts; destruct (Z.ltb_spec (q - 1) 0); lia).
  unfold TimestampResolution, MaxClockSkew, MaxPacketLifetime, DRKeyProvider.Second in *.
  destruct (Z.leb_spec (2 ^ 32) ts) as [Hl|Hl].
  - split; [|done]. split; [|by eexists]. intros _. right. lia.
  - split; [split; [by intros [? ?]|lia]|]. intros t [= <-].
    rewrite uint_of_small by (unfold is_uint; lia). split; [unfold is_uint; lia|].
    unfold VerifyTimestamp, TimestampResolution, MaxClockSkew, MaxPacketLifetime, DRKeyProvider.Second.
    cbv zeta. split_and!; intros Hw.
    + do 2 go_guard. done.
    + by replace (later + 1000000000 <? input + (ts + 1) * (21 * 1000)) with true by (clearbody ts q; lia).
    + go_guard. by replace (_ + _ <? later) with true by (clearbody ts q; lia).
Qed.

(** The fields that the MAC covers are in range. *)
Record covered (id : Epic.PktID) (s : SCION.t) (timestamp : Z) : Prop := {
  cv_timestamp : is_u32 timestamp;
  cv_id : is_u32 (Epic.Timestamp id) ∧ is_u32 (Epic.Counter id);
  cv_ia : is_u64 (SCION.SrcIA s);
  cv_src : len (SCION.RawSrcAddr s) = AddrType.Length (SCION.SrcAddrType s);
  cv_payload : is_u16 (SCION.PayloadLen s)
}.

Lemma mac_fields_inj id s ts id' s' ts' r r' :
  covered id s ts → covered id' s' ts' → mac_fields id s ts ++ r = mac_fields id' s' ts' ++ r' →
  id = id' ∧ ts = ts' ∧ SCION.SrcIA s = SCION.SrcIA s' ∧ SCION.RawSrcAddr s = SCION.RawSrcAddr s' ∧
  SCION.PayloadLen s = SCION.PayloadLen s'.
Proof.
  intros [T1 [I1 C1] A1 S1 P1] [T2 [I2 C2] A2 S2 P2] E. unfold mac_fields in E. cbn [app] in E.
  pose proof (f_equal (hd 0) E) as Ef. apply (f_equal tl) in E. cbn [hd tl] in Ef, E.
  assert (length (SCION.RawSrcAddr s) = length (SCION.RawSrcAddr s')) as Ls.
  { unfold AddrType.Length in *. rewrite Ef in S1. unfold len in *. lia. }
  rewrite <- !app_assoc in E.
  apply app_inj_1 in E as [E1 E]; [|by rewrite !length_be_bytes].
  apply app_inj_1 in E as [E2 E]; [|by rewrite !length_be_bytes].
  apply app_inj_1 in E as [E3 E]; [|by rewrite !length_be_bytes].
  apply app_inj_1 in E as [E4 E]; [|by rewrite !length_be_bytes].
  apply app_inj_1 in E as [E5 E]; [|done].
  apply app_inj_1 in E as [E6 _]; [|by rewrite !length_be_bytes].
  apply be_bytes_inj in E1, E2, E3, E4, E6; [|done..].
  destruct id, id'. cbn in *. by subst.
Qed.

(** C6: A hop validation field is accepted exactly when it is the MAC under the
    hop's authenticator, and the MAC's input determines everything it is meant
    to protect: the packet identifier, the segment's timestamp, the source and
    the payload length.  Verification never panics. *)
Theorem epic_hvf_binds `{!BlockCipher aes_Encrypt} (auth : bytes) id s ts (field buffer : bytes) :
  len auth = 16 → covered id s ts →
  (VerifyHVF aes_Encrypt auth id (Some s) ts field buffer = Ok tt ↔ field = hvf (aes_Encrypt auth) id s ts) ∧
  no_panic (VerifyHVF aes_Encrypt auth id (Some s) ts field buffer) ∧
  (∀ id' s' ts', covered id' s' ts' →
    pad_to_block (mac_fields id s ts) = pad_to_block (mac_fields id' s' ts') →
    id = id' ∧ ts = ts' ∧ SCION.SrcIA s = SCION.SrcIA s' ∧ SCION.RawSrcAddr s = SCION.RawSrcAddr s' ∧
    SCION.PayloadLen s = SCION.PayloadLen s').
Proof.
  intros Ha Hc. unfold VerifyHVF. rewrite Ha. go_cbn.
  rewrite CalcMac_Ok; [|done|rewrite (cv_src _ _ _ Hc); apply ScionHdrLemmas.Length_range].
  cbn [Z.eqb AuthLen Pos.eqb negb orb]. go_cbn.
  split_and!.
  - destruct (bool_decide_reflect (field = hvf (aes_Encrypt auth) id s ts)); [done|]. split; [done|]. by intros ?.
  - apply fail_if_no_panic.
  - intros id' s' ts' Hc'. unfold pad_to_block. by apply mac_fields_inj.
Qed.

Lemma epic_timestamp_window_witness :
  CreateTimestamp 0 (10 * DRKeyProvider.Second) = Ok 476189 ∧
  VerifyTimestamp 0 476189 (12 * DRKeyProvider.Second) = Ok tt.
Proof.
  destruct (epic_timestamp_window 0 (10 * DRKeyProvider.Second) (12 * DRKeyProvider.Second)) as [_ H];
    [by split|by split|].
  assert (E : CreateTimestamp 0 (10 * DRKeyProvider.Second) = Ok 476189) by reflexivity.
  split; [exact E|]. destruct (H _ E) as (_ & Hok & _). apply Hok. split; vm_compute; discriminate.
Defined.

#[local] Instance toy_cipher : BlockCipher DrkeyProperties.toy_aes := DrkeyProperties.toy_cipher.

Lemma epic_hvf_binds_witness :
  let s := ScionHdrProperties.example_header in
  let m := hvf (DrkeyProperties.toy_aes (make_bytes 16)) (Epic.mkPktID 7 9) s 1000 in
  VerifyHVF DrkeyProperties.toy_aes (make_bytes 16) (Epic.mkPktID 7 9) (Some s) 1000 m [] = Ok tt.
Proof.
  intros s m.
  apply (epic_hvf_binds (aes_Encrypt:=DrkeyProperties.toy_aes) (make_bytes 16) (Epic.mkPktID 7 9) s 1000 m []);
    [reflexivity| |reflexivity].
  split; vm_compute; repeat split; discriminate.
Defined.

End EpicHvfProperties.
