(* ===== verification/RouterPacket.v ===== *)
(** From received bytes to the handler of their path type,
    [router/dataplane.go]: resetting a processor, decoding the layers, BFD
    messages, one-hop and EPIC packets. *)
From S2P Require Export RouterSpec EpicHvf.

Module PacketProcessor.

Import Net DataPlane LocalDelivery Processor.

#[export] Existing Instance L4.LayerType_eq_dec.

(** [reset], with the nil path as the zero value: no handler reads the path
    before it has set it.  [Clear] of a serialize buffer does not fail. *)
Definition reset (p : t) : t :=
  mk (d p) 0 [] (mkUDP [] 0) (scionLayer p) Extn.zero Extn.zero (lastLayer p) Registry.raw_zero 0
    HopField.zero Registry.info_zero false false None None None 0 None (transit p).

Definition set_packet (pkt : bytes) (src : UDPAddr) (ingress : Z) (p : t) : t :=
  mk (d p) ingress pkt src (scionLayer p) (hbhLayer p) (e2eLayer p) (lastLayer p)
    (path p) (pathOff p) (hopField p) (infoField p) (effectiveXover p) (peering p) (cachedMac p)
    (identifier p) (fabrid p) (mplsLabel p) (nextHop p) (transit p).

(** ** Layers *)

(** Decodes into a layer of the processor. *)
Definition on_scion (m : SE SCION.t unit) : P unit := λ p,
  let '(s, o) := m (scionLayer p) in (set_layers s (hbhLayer p) (e2eLayer p) (lastLayer p) p, verdict_of o).
Definition on_hbh (m : SE Extn.t unit) : P unit := λ p,
  let '(h, o) := m (hbhLayer p) in (set_layers (scionLayer p) h (e2eLayer p) (lastLayer p) p, verdict_of o).
Definition on_e2e (m : SE Extn.t unit) : P unit := λ p,
  let '(e, o) := m (e2eLayer p) in (set_layers (scionLayer p) (hbhLayer p) e (lastLayer p) p, verdict_of o).
Definition set_last (l : layer) : P unit :=
  update (λ p, set_layers (scionLayer p) (hbhLayer p) (e2eLayer p) l p).

(** [p.lastLayer.NextLayerType()] *)
Definition NextLayerType (p : t) : L4.LayerType :=
  match lastLayer p with
  | LSCION => SCION.NextLayerType (scionLayer p)
  | LHopByHop => HopByHopExtn.NextLayerType (hbhLayer p)
  | LEndToEnd => EndToEndExtnSkipper.NextLayerType (e2eLayer p)
  end.

(** [opt.CanDecode().Contains(last.NextLayerType())]: each of the layers decodes
    one type. *)
Definition CanDecode (l : layer) : L4.LayerType :=
  match l with
  | LSCION => L4.LayerTypeSCION
  | LHopByHop => L4.LayerTypeHopByHopExtn
  | LEndToEnd => L4.LayerTypeEndToEndExtn
  end.

Definition decode_opt (l : layer) (decode : bytes → P unit) : P unit := λ p,
  if bool_decide (NextLayerType p = CanDecode l) then (_ ← decode (LayerPayload p); set_last l) p
  else (p, Continue tt).

Section packet.
Context (reg : Registry.t) (PrependBytes : Z → bytes).
Context (aes_Encrypt : bytes → bytes → bytes) (mac : bytes → bytes).
Context (netip_ParseAddr : gostring → outcome IP.t) (netip_String : IP.t → gostring).
Context (NewPacket : bytes → L4.LayerType → list Layer) (intn : Z → Z).
Context (now : Z) (IsUp : nat → bool).

(** [decodeLayers] on the layers of the processor. *)
Definition decodeLayers : P unit := λ p,
  (_ ← on_scion (SCION.DecodeFromBytes reg (rawPkt p));
   _ ← set_last LSCION;
   _ ← decode_opt LHopByHop (λ data, on_hbh (HopByHopExtn.DecodeFromBytes data));
   decode_opt LEndToEnd (λ data, on_e2e (EndToEndExtnSkipper.DecodeFromBytes data))) p.

(** ** BFD *)

Definition noBFDSessionFound : error := New "no BFD session was found".
Definition noBFDSessionConfigured : error := New "no BFD sessions have been configured".

(** [layers.BFD] and its [DecodeFromBytes]; [order] is the order in which a
    [range] loop visits the next hops. *)
Context {BFD : Type} (bfd_DecodeFromBytes : bytes → outcome BFD).
Context (order : gmap Z UDPAddr → list (Z * UDPAddr)).

(** What [processPkt] returns without an error: a result, which is the empty one
    when a message was passed to a BFD session. *)
Inductive processed :=
| Result (r : processResult)
| Received (session : nat) (message : BFD).

Definition receive (d : DataPlane.t) (ifID : Z) (data : bytes) : outcome processed :=
  _ ← fail_if (bool_decide (bfdSessions d = ∅)) noBFDSessionConfigured;
  bfd ← bfd_DecodeFromBytes data;
  match bfdSessions d !! ifID with
  | Some session => Ok (Received session bfd)
  | None => Err noBFDSessionFound
  end.

Definition processInterBFD (data : bytes) : P processed := λ p,
  (p, verdict_of (receive (d p) (ingressID p) data)).

(** The first next hop with the address of the sender, or 0. *)
Definition sender_interface (p : t) : Z :=
  match find (λ e, bool_decide (IP e.2 = IP (srcAddr p)) && (Port e.2 =? Port (srcAddr p)))
          (order (internalNextHops (d p))) with
  | Some (ifID, _) => ifID
  | None => 0
  end.
Definition processIntraBFD (data : bytes) : P processed := λ p,
  (p, verdict_of (receive (d p) (sender_interface p) data)).

(** ** SCION and EPIC *)

(** The offset of the path in the packet. *)
Definition path_offset (s : SCION.t) : Z := SCION.CmnHdrLen + SCION.AddrHdrLen s.

Definition process : P processResult :=
  process aes_Encrypt mac netip_ParseAddr netip_String NewPacket intn now IsUp.

Definition processSCION : P processResult := λ p,
  match SCION.Path (scionLayer p) with
  | Some (PScion r) => process (set_path_at r (path_offset (scionLayer p)) p)
  | _ => (p, Drop malformedPath)
  end.

(** The check of the validation field after the packet was processed. *)
Definition verify_epic (e : Epic.t) (isLast : bool) : P unit := λ p,
  (firstInfo ← call (Raw.GetInfoField (path p) 0);
   let timestamp := InfoField.Timestamp firstInfo * DRKeyProvider.Second in
   _ ← call (LibEpic.VerifyTimestamp timestamp (Epic.Timestamp (Epic.PktId e)) now);
   let HVF := if isLast then Epic.LHVF e else Epic.PHVF e in
   call (LibEpic.VerifyHVF aes_Encrypt (default [] (cachedMac p)) (Epic.PktId e) (Some (scionLayer p))
           (InfoField.Timestamp firstInfo) HVF (make_bytes LibEpic.MACBufferSize))) p.

Definition processEPIC : P processResult := λ p,
  match SCION.Path (scionLayer p) with
  | Some (PEpic e) =>
      match Epic.ScionPath e with
      | None => (p, Drop malformedPath)
      | Some r =>
          let isPenultimate := Raw.IsPenultimateHop r in
          let isLast := Raw.IsLastHop r in
          (result ← (λ p, process (set_path_at r (path_offset (scionLayer p) + Epic.MetadataLen) p));
           _ ← (if isPenultimate || isLast then verify_epic e isLast else mret tt);
           mret result) p
      end
  | _ => (p, Drop malformedPath)
  end.

(** ** One-hop paths *)

(** Writes the header over the start of the packet. *)
Definition updateSCIONLayer : P unit := λ p,
  let '(s, o) := SCION.SerializeTo PrependBytes [] (SCION.mkOpts false false) (scionLayer p) in
  match (rawContents ← o; on_sub (rawPkt p) 0 (len rawContents) (λ b, Ok (copy b rawContents))) with
  | Ok pkt => (set_rawPkt pkt (set_layers s (hbhLayer p) (e2eLayer p) (lastLayer p) p), Continue tt)
  | Err e => (p, Drop e)
  | Panic => (p, Crash)
  end.

(** The path object is shared with the header. *)
Definition set_onehop (o : OneHop.t) (p : t) : t :=
  set_layers (SCION.set_Path (POneHop o) (scionLayer p)) (hbhLayer p) (e2eLayer p) (lastLayer p) p.

Definition ohp_mac (info : InfoField.t) (hop : HopField.t) : outcome bytes :=
  Mac.MAC mac info hop (make_bytes Mac.MACBufferSize).

Definition ohp_out (ohp : OneHop.t) : P processResult := λ p,
  let s := scionLayer p in
  let egress := HopField.ConsEgress (OneHop.FirstHop ohp) in
  if negb (ISDAS.Equal (localIA (d p)) (SCION.SrcIA s)) then (p, Drop (WrapStr "bad source IA" cannotRoute)) else
  match neighborIAs (d p) !! egress with
  | None => (p, Drop cannotRoute)
  | Some neighborIA =>
      if negb (ISDAS.Equal neighborIA (SCION.DstIA s))
      then (p, Drop (WrapStr "bad destination IA" cannotRoute)) else
      (m ← call (ohp_mac (OneHop.Info ohp) (OneHop.FirstHop ohp));
       _ ← call (fail_if (negb (bool_decide (HopField.Mac (OneHop.FirstHop ohp) = m))) (New "MAC"));
       info ← call (InfoField.UpdateSegID (OneHop.Info ohp) (HopField.Mac (OneHop.FirstHop ohp)));
       _ ← update (set_onehop (OneHop.mk info (OneHop.FirstHop ohp) (OneHop.SecondHop ohp)));
       _ ← updateSCIONLayer;
       pkt ← read rawPkt;
       mret (mkResult egress None (Some pkt) ttOther)) p
  end.

Definition ohp_deliver : P processResult := λ p,
  let '(dp, r) := resolveLocalDst NewPacket intn (scionLayer p) (nextHdr p) (LayerPayload p) (d p) in
  let p := set_d dp p in
  match r with
  | Ok a => (p, Continue (mkResult 0 (Some a) (Some (rawPkt p)) ttOther))
  | Err e => (p, Drop e)
  | Panic => (p, Crash)
  end.

Definition ohp_in (ohp : OneHop.t) : P processResult := λ p,
  let s := scionLayer p in
  if negb (ISDAS.Equal (localIA (d p)) (SCION.DstIA s)) then (p, Drop (WrapStr "bad destination IA" cannotRoute)) else
  if negb (ISDAS.Equal (default 0 (neighborIAs (d p) !! ingressID p)) (SCION.SrcIA s))
  then (p, Drop (WrapStr "bad source IA" cannotRoute)) else
  let second := HopField.mk false false (HopField.ExpTime (OneHop.FirstHop ohp)) (ingressID p) 0
                  (make_bytes HopField.MacLen) in
  (m ← call (ohp_mac (OneHop.Info ohp) second);
   _ ← update (set_onehop (OneHop.mk (OneHop.Info ohp) (OneHop.FirstHop ohp)
                 (HopField.mk false false (HopField.ExpTime (OneHop.FirstHop ohp)) (ingressID p) 0 m)));
   _ ← updateSCIONLayer;
   ohp_deliver) p.

Definition processOHP : P processResult := λ p,
  match SCION.Path (scionLayer p) with
  | Some (POneHop ohp) =>
      if negb (InfoField.ConsDir (OneHop.Info ohp)) then
        (p, Drop (WrapStr "OneHop path in reverse construction direction is not allowed" malformedPath))
      else if ingressID p =? 0 then ohp_out ohp p else ohp_in ohp p
  | _ => (p, Drop malformedPath)
  end.

(** ** All packets *)

Definition unsupportedPathType : error := New "unsupported path type".
Definition unsupportedPathTypeNextHeader : error := New "unsupported combination".

Definition as_result (m : P processResult) : P processed := r ← m; mret (Result r).

(** The dispatch on the type of the path. *)
Definition dispatch : P processed := λ p,
  let pld := LayerPayload p in
  let is_bfd := bool_decide (NextLayerType p = L4.LayerTypeBFD) in
  let pathType := SCION.PathType (scionLayer p) in
  if pathType =? EmptyPath.PathType then
    if is_bfd then processIntraBFD pld p else (p, Drop unsupportedPathTypeNextHeader)
  else if pathType =? OneHop.PathType then
    if is_bfd then
      match SCION.Path (scionLayer p) with
      | Some (POneHop _) => processInterBFD pld p
      | _ => (p, Drop malformedPath)
      end
    else as_result processOHP p
  else if pathType =? scion_PathType then as_result processSCION p
  else if pathType =? Epic.PathType then as_result processEPIC p
  else (p, Drop unsupportedPathType).

Definition processPkt (pkt : bytes) (src : UDPAddr) (ingress : Z) : P processed := λ p,
  (_ ← decodeLayers; dispatch) (set_packet pkt src ingress (reset p)).
End packet.

(** [newPacketProcessor], of a data plane whose MAC factory is set. *)
Definition newPacketProcessor (d : DataPlane.t) : t :=
  mk d 0 [] (mkUDP [] 0) (after SCION.RecyclePaths SCION.zero) Extn.zero Extn.zero LSCION
    Registry.raw_zero 0 HopField.zero Registry.info_zero false false None None None 0 None
    ingressEgressSameRouter.

End PacketProcessor.

(** * Decoded packets are ready *)
Module PacketLemmas.

Import Net DataPlane LocalDelivery Processor PacketProcessor StepLemmas RawRefinement PathLemmas
  OptionLemmas RouterSimulation ScionHdrLemmas ExtnLemmas.

(** The options of a decoded extension lie in it. *)
Lemma on_wire_fit opts off n :
  Forall on_wire opts → 0 ≤ off → off + len (wire opts) ≤ n →
  (∀ o, o ∈ opts → TLV.ActualLength o = len (opt_bytes o)) → opts_fit opts off n.
Proof.
  revert off. induction opts as [|o opts IH]; intros off Hw H0 Hn Ha; [done|].
  apply Forall_cons_1 in Hw as [Ho Hw]. rewrite wire_cons, len_app in Hn.
  pose proof (len_nonneg (opt_bytes o)). pose proof (len_nonneg (wire opts)).
  assert (TLV.ActualLength o = len (opt_bytes o)) as E by (apply Ha; left).
  cbn [opts_fit]. rewrite E. split_and!; [|done|apply IH; [done|lia..|intros; apply Ha; by right]].
  intros Et. unfold opt_bytes in Hn. rewrite Et in Hn. cbn in Hn. rewrite !len_cons in Hn. lia.
Qed.

Lemma on_wire_length o : on_wire o → TLV.ActualLength o = len (opt_bytes o).
Proof.
  intros (_ & _ & _ & <-). rewrite opt_bytes_norm. unfold norm, opt_bytes.
  destruct (TLV.OptType o =? TLV.OptTypePad1); [done|]. cbn [TLV.ActualLength]. rewrite !len_cons. lia.
Qed.

(** What decoding a hop-by-hop extension establishes of its options. *)
Lemma hbh_decoded data r e u :
  wf_bytes data → HopByHopExtn.DecodeFromBytes data r = (e, Ok u) →
  opts_fit (Extn.Options e) 2 (len data) ∧ wf_bytes (Extn.Payload e).
Proof.
  intros Hb H. pose proof (Extn_DecodeFromBytes_any Extn.checkHopByHopExtnNextHdr data r (or_introl eq_refl) Hb) as Hd.
  unfold HopByHopExtn.DecodeFromBytes in H. rewrite H in Hd.
  destruct Hd as (Ed & Ec & El & Hw & _). split.
  - apply on_wire_fit; [done|done| |].
    + rewrite <- Ed, Ec, !len_app. change (len [_; _]) with 2. pose proof (len_nonneg (Extn.Payload e)). lia.
    + intros o Ho. rewrite Forall_forall in Hw. by apply on_wire_length, Hw.
  - rewrite <- Ed in Hb. by apply wf_bytes_app in Hb as [_ ?].
Qed.

Lemma opts_fit_shift opts k off n : opts_fit opts off n → opts_fit opts (k + off) (k + n).
Proof.
  revert off. induction opts as [|o opts IH]; intros off H; [done|]. destruct H as (H1 & H2 & H3).
  cbn [opts_fit]. split_and!; [intros Et; specialize (H1 Et); lia|done|]. rewrite <- Z.add_assoc. by apply IH.
Qed.

(** The layers of a packet after [decodeLayers]. *)
Record layers_of (p : t) : Prop := {
  lo_scion : decoded (rawPkt p) (scionLayer p);
  lo_options : opts_fit (Extn.Options (hbhLayer p)) (hdr_end p + 2) (len (rawPkt p));
  lo_payload : wf_bytes (LayerPayload p)
}.

Section decode.
Context (reg : Registry.t).

(** Nothing but the layers changes. *)
Definition layers_only (p p' : t) : Prop :=
  p' = set_layers (scionLayer p') (hbhLayer p') (e2eLayer p') (lastLayer p') p.

Lemma layers_only_refl p : layers_only p p.
Proof. by destruct p. Qed.
Lemma layers_only_trans p1 p2 p3 : layers_only p1 p2 → layers_only p2 p3 → layers_only p1 p3.
Proof. unfold layers_only. intros -> ->. done. Qed.

(** A step of the decoder keeps the packet, does not panic, and leaves layers of
    the packet if it goes on. *)
Definition decodes (m : P unit) (p : t) : Prop :=
  layers_only p (m p).1 ∧ (m p).2 ≠ Crash ∧ (∀ p' u, m p = (p', Continue u) → layers_of p').

Lemma decode_hbh_step p :
  layers_of p → lastLayer p = LSCION →
  decodes (decode_opt LHopByHop (λ data, on_hbh (HopByHopExtn.DecodeFromBytes data))) p.
Proof.
  intros Hlo Hlast. unfold decodes, decode_opt. destruct (bool_decide _).
  2:{ split_and!; [apply layers_only_refl|done|by intros p' u [= <- _]]. }
  destruct Hlo as [Hs _ Hp]. unfold LayerPayload in *. rewrite Hlast in *.
  assert (len (rawPkt p) = hdr_end p + len (SCION.Payload (scionLayer p))) as El.
  { rewrite <- (decoded_split _ _ Hs), len_app, (decoded_HdrLen _ _ Hs). done. }
  unfold mbind, P_bind, on_hbh. set (data := SCION.Payload (scionLayer p)) in *.
  pose proof (Extn_DecodeFromBytes_any Extn.checkHopByHopExtnNextHdr data (hbhLayer p) (or_introl eq_refl) Hp) as Hd.
  change (Extn.DecodeFromBytes Extn.checkHopByHopExtnNextHdr) with HopByHopExtn.DecodeFromBytes in Hd.
  destruct (HopByHopExtn.DecodeFromBytes data (hbhLayer p)) as [e [[]| |]] eqn:E; [|by split_and!|done].
  cbn [verdict_of set_last update fst snd]. split_and!; [done|done|]. intros p' u [= <- _].
  apply hbh_decoded in E as [Hf Hw]; [|done]. split; [done| |done].
  change (opts_fit (Extn.Options e) (hdr_end p + 2) (len (rawPkt p))).
  rewrite El. by apply opts_fit_shift.
Qed.

Lemma decode_e2e_step p :
  layers_of p → decodes (decode_opt LEndToEnd (λ data, on_e2e (EndToEndExtnSkipper.DecodeFromBytes data))) p.
Proof.
  intros Hlo. unfold decodes, decode_opt. destruct (bool_decide _).
  2:{ split_and!; [apply layers_only_refl|done|by intros p' u [= <- _]]. }
  destruct Hlo as [Hs Hf Hp]. unfold mbind, P_bind, on_e2e. set (data := LayerPayload p) in *.
  unfold EndToEndExtnSkipper.DecodeFromBytes, Extn.Skip, mbind, SE_bind, Extn.set_extnBase.
  pose proof (decodeExtnBase_any data Hp) as Hd.
  destruct (Extn.decodeExtnBase data) as [e [[]| |]]; [|by split_and!|done].
  unfold gets, lift, id. destruct (Extn.checkEndToEndExtnNextHdr (Extn.NextHdr e)) as [[]| |] eqn:Ec; [|by split_and!|].
  2:{ exfalso. revert Ec. unfold Extn.checkEndToEndExtnNextHdr, fail_if. by repeat case_match. }
  cbn [verdict_of set_last update fst snd]. split_and!; [done|done|]. intros p' u [= <- _].
  destruct Hd as (body & post & Ed & Ee & _). split; [done|done|]. cbn.
  rewrite Ee. cbn. rewrite Ed in Hp. by apply wf_bytes_app in Hp as [_ [_ ?]%wf_bytes_app].
Qed.

Lemma decodes_bind (m : P unit) (f : unit → P unit) p :
  layers_only p (m p).1 → (m p).2 ≠ Crash → (∀ p' u, m p = (p', Continue u) → decodes (f u) p') → decodes (m ≫= f) p.
Proof.
  intros Hl Hc Hf. unfold decodes, mbind, P_bind. destruct (m p) as [p1 [u| | |]]; [|by split_and!..|done].
  destruct (Hf p1 u eq_refl) as (H1 & H2 & H3). split_and!; [|done|done]. by eapply layers_only_trans.
Qed.

Lemma decodeLayers_spec p :
  wf_bytes (rawPkt p) → Extn.Options (hbhLayer p) = [] → decodes (decodeLayers reg) p.
Proof.
  intros Hb Hn. unfold decodes, decodeLayers.
  pose proof (DecodeFromBytes_any reg (rawPkt p) (scionLayer p) Hb) as Hd.
  assert (∀ p', layers_of p' → lastLayer p' = LSCION → decodes (
    _ ← decode_opt LHopByHop (λ data, on_hbh (HopByHopExtn.DecodeFromBytes data));
    decode_opt LEndToEnd (λ data, on_e2e (EndToEndExtnSkipper.DecodeFromBytes data))) p') as Hrest.
  { intros p' Hlo Hlast. destruct (decode_hbh_step p' Hlo Hlast) as (H1 & H2 & H3).
    apply decodes_bind; [done|done|]. intros. by eapply decode_e2e_step, H3. }
  destruct (SCION.DecodeFromBytes reg (rawPkt p) (scionLayer p)) as [s o] eqn:Es.
  assert (on_scion (SCION.DecodeFromBytes reg (rawPkt p)) p =
    (set_layers s (hbhLayer p) (e2eLayer p) (lastLayer p) p, verdict_of o)) as E1 by (unfold on_scion; by rewrite Es).
  destruct o as [[]| |]; [|unfold mbind, P_bind; rewrite E1; by split_and!|done].
  set (p1 := set_layers s (hbhLayer p) (e2eLayer p) (lastLayer p) p).
  set (p2 := set_layers s (hbhLayer p) (e2eLayer p) LSCION p1).
  rewrite (P_bind_eq _ _ _ _ _ E1), (P_bind_eq (set_last LSCION) _ p1 p2 tt eq_refl).
  destruct (Hrest p2) as (H1 & H2 & H3); [|done|].
  - split; [done| |].
    + change (Extn.Options (hbhLayer p2)) with (Extn.Options (hbhLayer p)). by rewrite Hn.
    + change (LayerPayload p2) with (SCION.Payload s). rewrite <- (decoded_split _ _ Hd) in Hb.
      by apply wf_bytes_app in Hb as [_ ?].
  - split_and!; [|done|done]. by apply (layers_only_trans p p2).
Qed.

(** ** The path of a decoded packet *)

(** A raw path decoded from the bytes [b] of the header. *)
Lemma raw_ready p r D pre b post :
  rawPkt p = pre ++ b ++ post → len (pre ++ b) ≤ hdr_end p → wf_bytes b →
  Raw.DecodeFromBytes b = Ok r → repr r D → effectiveXover p = false →
  opts_fit (Extn.Options (hbhLayer p)) (hdr_end p + 2) (len (rawPkt p)) →
  ready (set_path_at r (len pre) p) D.
Proof.
  intros Ed Lb Hb Hdec Hr Hx Hf. apply Raw.raw_DecodeFromBytes_Ok in Hdec as (HB & HL & Hraw); [|done].
  assert (Raw.Len r = Decoded.Len D) as EL by (unfold Raw.Len, Decoded.Len; by rewrite (repr_base _ _ Hr)).
  pose proof (len_nonneg pre). pose proof (len_nonneg post). rewrite len_app in Lb. unfold hdr_end in *.
  split; [split|..]; cbn [path pathOff rawPkt set_path_at effectiveXover scionLayer hbhLayer].
  - done.
  - lia.
  - rewrite Ed, !len_app. lia.
  - rewrite Ed, (drop_len_app (len pre)) by done. unfold Raw.raw_bytes. rewrite Hraw. cbn.
    rewrite <- EL, take_app_le by (unfold len in *; lia). done.
  - pose proof (Base.Len_range _ (Decoded.wf_base _ (repr_wf _ _ Hr))). unfold Decoded.Len, MetaLen in *.
    unfold synced, Raw.raw_bytes. rewrite Hraw. cbn [default from_option id].
    rewrite base_decode_take by (unfold len in *; lia). exact HB.
  - unfold hdr_end. cbn. lia.
  - done.
  - exact Hf.
Qed.

(** The path of a decoded header, and the bytes it was decoded from. *)
Lemma decoded_path_bytes p path :
  layers_of p → wf_bytes (rawPkt p) → SCION.Path (scionLayer p) = Some path →
  ∃ pre b post q, rawPkt p = pre ++ b ++ post ∧ len pre = path_offset (scionLayer p) ∧
    len (pre ++ b) = hdr_end p ∧ wf_bytes b ∧ Decode b q = Ok path.
Proof.
  intros [Hs _ _] Hb Hp. destruct (decoded_at _ _ Hs) as (pre & b & q & Ed & Lp & Lb & Hq).
  exists pre, b, (SCION.Payload (scionLayer p)), q. rewrite Hp in Hq.
  destruct (Decode b q) as [p'| |]; [|done..]. injection Hq as ->.
  rewrite Ed in Hb. apply wf_bytes_app in Hb as [_ [? _]%wf_bytes_app]. done.
Qed.

Lemma decoded_scion p r D :
  layers_of p → wf_bytes (rawPkt p) → SCION.Path (scionLayer p) = Some (PScion r) → repr r D →
  effectiveXover p = false → ready (set_path_at r (path_offset (scionLayer p)) p) D.
Proof.
  intros Hl Hb Hp Hr Hx. destruct (decoded_path_bytes _ _ Hl Hb Hp) as (pre & b & post & q & Ed & Lp & Lb & Wb & Hq).
  assert (Raw.DecodeFromBytes b = Ok r) as Hdec by (by destruct q; cbn in Hq; go_inv).
  rewrite <- Lp. eapply raw_ready; [exact Ed|lia|done..|apply Hl].
Qed.

(** The raw path of an EPIC path follows its metadata. *)
Lemma epic_raw b e r :
  Epic.DecodeFromBytes b = Ok e → Epic.ScionPath e = Some r →
  ∃ m b', b = m ++ b' ∧ len m = Epic.MetadataLen ∧ Raw.DecodeFromBytes b' = Ok r.
Proof.
  intros Hdec He. unfold Epic.DecodeFromBytes in Hdec. apply bind_Ok in Hdec as ([] & Hlen%fail_if_Ok & Hdec).
  unfold Epic.MetadataLen in *. destruct (split_len 16 b) as (m & b' & -> & Lm & _); [lia|]. exists m, b'. split; [done|]. split; [done|].
  apply bind_Ok in Hdec as (? & _ & Hdec). apply bind_Ok in Hdec as (? & _ & Hdec). apply bind_Ok in Hdec as (? & _ & Hdec).
  apply bind_Ok in Hdec as (rest & Hrest & Hdec). unfold sub_from in Hrest.
  rewrite sub_suffix in Hrest by (rewrite ?len_app; done). injection Hrest as <-.
  apply bind_Ok in Hdec as (r' & Hdec & [= <-]). cbn in He. by injection He as ->.
Qed.

Lemma decoded_epic p e r D :
  layers_of p → wf_bytes (rawPkt p) → SCION.Path (scionLayer p) = Some (PEpic e) →
  Epic.ScionPath e = Some r → repr r D → effectiveXover p = false →
  ready (set_path_at r (path_offset (scionLayer p) + Epic.MetadataLen) p) D.
Proof.
  intros Hl Hb Hp He Hr Hx. destruct (decoded_path_bytes _ _ Hl Hb Hp) as (pre & b & post & q & Ed & Lp & Lb & Wb & Hq).
  assert (Epic.DecodeFromBytes b = Ok e) as Hdec by (by destruct q; cbn in Hq; go_inv).
  destruct (epic_raw _ _ _ Hdec He) as (m & b' & -> & Lm & Hdec'). unfold Epic.MetadataLen in *.
  apply wf_bytes_app in Wb as [_ Wb]. rewrite !app_assoc in Ed. rewrite <- (app_assoc (pre ++ m)) in Ed.
  rewrite <- Lp, <- Lm, <- len_app. eapply raw_ready; [exact Ed| |done..|apply Hl].
  rewrite <- app_assoc. lia.
Qed.
End decode.

End PacketLemmas.
