(* ===== verification/RouterExample.v ===== *)
(** Concrete routers and packets: two ASes joined by a link, a packet on the
    two-hop segment between them and a packet with a one-hop path, on which the
    properties of the router are evaluated. *)
From S2P Require Export RouterPacket.

Module RouterExample.

Import Net DataPlane LocalDelivery Processor PacketProcessor ScionHdrLemmas ProcessLemmas.

(** A MAC function, and an AS's key as a byte in front of its input. *)
Definition toy_mac (key : Z) (b : bytes) : bytes := map u8 (take 16 (key :: drop 2 b ++ make_bytes 16)).

Lemma toy_mac_len key b : len (toy_mac key b) = 16.
Proof.
  unfold toy_mac, len. rewrite length_map, length_take. cbn [length]. rewrite length_app, length_drop.
  unfold make_bytes. rewrite length_replicate. lia.
Qed.
Lemma toy_mac_enough key b : 16 ≤ len (toy_mac key b).
Proof. by rewrite toy_mac_len. Qed.
Lemma toy_mac_wf key b : wf_bytes (toy_mac key b).
Proof. unfold toy_mac, wf_bytes. rewrite Forall_map. apply Forall_true. intros x. by apply (uint_of_range 8). Qed.

Definition no_layers (b : bytes) (l : L4.LayerType) : list Layer := [].
Definition first_of (n : Z) : Z := 0.
Definition up (session : nat) : bool := true.
Definition parse_none (s : gostring) : outcome IP.t := Err (New "unable to parse IP").
Definition print_none (ip : IP.t) : gostring := [].
Definition bfd_ok (b : bytes) : outcome unit := Ok tt.
Definition clock : Z := 1000 * DRKeyProvider.Second.

(** The routers: AS 1 has interface 2 to AS 2, which has interface 3 to AS 1. *)
Definition router_of (ia own other : Z) : t :=
  newPacketProcessor (DataPlane.mk {[own := 1%nat]} {[own := 1%nat]} {[own := Core]} {[own := other]} ∅ (Some 0%nat)
    (IP.V4 [10; 0; 0; 1]) ∅ (Some (Services.mk ∅ ∅)) (Some (toy_mac ia)) ∅ [] ia true DRKeyProvider.zero ∅ ∅ 1024 65535).
Definition router1 : t := router_of 1 2 2.
Definition router2 : t := router_of 2 3 1.
Definition host_addr : UDPAddr := mkUDP [10; 0; 0; 9] 40000.

(** The segment from AS 1 to AS 2. *)
Definition sealed (key : Z) (info : InfoField.t) (ingress egress : Z) : HopField.t :=
  let h m := HopField.mk false false 63 ingress egress m in
  h (take 6 (toy_mac key (Mac.mac_block info (h [])))).
Definition info1 : InfoField.t := InfoField.mk false true 0x1234 900.
Definition hop1 : HopField.t := sealed 1 info1 0 2.
Definition info2 : InfoField.t := chained info1 hop1.
Definition hop2 : HopField.t := sealed 2 info2 3 0.
Definition segment (at_hop : Z) (info : InfoField.t) : Decoded.t :=
  Decoded.mk (Base.mk (MetaHdr.mk 0 at_hop 2 0 0) 1 2) [info] [hop1; hop2].

Definition header (pathType : Z) (hdrLen : Z) (payload : bytes) : SCION.t :=
  SCION.mk 0 0 0x12345 17 hdrLen (len payload) pathType AddrType.T4Ip AddrType.T4Ip 2 1
    [10; 0; 0; 7] [10; 0; 0; 9] None None [] [].
Definition payload : bytes := [156; 64; 156; 64; 0; 12; 0; 0; 1; 2; 3; 4].

(** A packet from AS 1 to AS 2 on the segment, as its sender sends it. *)
Definition pkt1 : bytes :=
  let s := header scion_PathType 18 payload in
  encode_cmn s ++ encode_addrs s ++ Decoded.encode (segment 0 info1) ++ payload.

(** A packet with a one-hop path. *)
Definition onehop1 : OneHop.t := OneHop.mk info1 hop1 HopField.zero.
Definition ohp_pkt1 : bytes :=
  let s := header OneHop.PathType 17 payload in
  encode_cmn s ++ encode_addrs s ++ OneHop.encode onehop1 ++ payload.

Abbreviation run aes key :=
  (processPkt Registry.initial make_bytes aes (toy_mac key) parse_none print_none no_layers first_of clock up bfd_ok map_to_list).

(** The processors after decoding, and the path they decoded. *)
Abbreviation received p0 pkt ingress := (set_packet pkt host_addr ingress (reset p0)).
Definition decoded1 : t := (decodeLayers Registry.initial (received router1 pkt1 0)).1.
Definition raw1 : Raw.t := Raw.mk (Decoded.base (segment 0 info1)) (Some (Decoded.encode (segment 0 info1))).
Definition ohp_decoded1 : t := (decodeLayers Registry.initial (received router1 ohp_pkt1 0)).1.

Lemma decodeLayers1 : decodeLayers Registry.initial (received router1 pkt1 0) = (decoded1, Continue tt).
Proof.
  unfold decoded1. rewrite (surjective_pairing (decodeLayers _ _)) at 1.
  apply (f_equal2 pair); [reflexivity|vm_compute; reflexivity].
Qed.
Lemma ohp_decodeLayers1 : decodeLayers Registry.initial (received router1 ohp_pkt1 0) = (ohp_decoded1, Continue tt).
Proof.
  unfold ohp_decoded1. rewrite (surjective_pairing (decodeLayers _ _)) at 1.
  apply (f_equal2 pair); [reflexivity|vm_compute; reflexivity].
Qed.
Lemma decoded1_path : SCION.Path (scionLayer decoded1) = Some (PScion raw1).
Proof. vm_compute. reflexivity. Qed.
Lemma pkt1_wf : wf_bytes pkt1.
Proof. apply (bool_decide_unpack _). vm_compute. exact I. Qed.
Lemma ohp_pkt1_wf : wf_bytes ohp_pkt1.
Proof. apply (bool_decide_unpack _). vm_compute. exact I. Qed.

Lemma hop_wf key info i e :
  is_u16 i → is_u16 e → HopField.wf (sealed key info i e).
Proof.
  intros Hi He. unfold sealed.
  split; cbn [HopField.ExpTime HopField.ConsIngress HopField.ConsEgress HopField.Mac]; [done|done|done| |].
  - apply wf_bytes_take, toy_mac_wf.
  - rewrite length_take. pose proof (toy_mac_len key (Mac.mac_block info (HopField.mk false false 63 i e []))).
    unfold len in *. lia.
Qed.
Lemma segment_wf : Decoded.wf (segment 0 info1).
Proof.
  split; [split; split; done|done|done| |].
  - apply Forall_cons_2; [by split|apply Forall_nil_2].
  - apply Forall_cons_2; [by apply hop_wf|]. apply Forall_cons_2; [by apply hop_wf|apply Forall_nil_2].
Qed.
Lemma raw1_repr : RawRefinement.repr raw1 (segment 0 info1).
Proof. apply RawRefinement.repr_encode, segment_wf. Qed.

(** What the router of AS 1 makes of the first packet: it leaves over interface
    2 with the path at its second hop. *)
Definition pkt2 : bytes :=
  let s := header scion_PathType 18 payload in
  encode_cmn s ++ encode_addrs s ++ Decoded.encode (segment 1 info2) ++ payload.
Definition result1 : processResult := mkResult 2 None (Some pkt2) ttOut.
Definition processor1 : t := set_path_at raw1 (path_offset (scionLayer decoded1)) decoded1.

Lemma run1 aes : ∃ p', run aes 1 pkt1 host_addr 0 router1 = (p', Continue (Result result1)).
Proof. eexists. rewrite (surjective_pairing (processPkt _ _ _ _ _ _ _ _ _ _ _ _ _ _ _ _)). apply (f_equal2 pair); [reflexivity|vm_compute; reflexivity]. Qed.
Lemma process1 aes :
  ∃ p', Processor.process aes (toy_mac 1) parse_none print_none no_layers first_of clock up processor1 =
    (p', Continue result1).
Proof.
  eexists. rewrite (surjective_pairing (Processor.process _ _ _ _ _ _ _ _ _)).
  apply (f_equal2 pair); [reflexivity|vm_compute; reflexivity].
Qed.

(** The same for the one-hop packet, and what the router of AS 2 makes of it. *)
Definition ohp_pkt2 : bytes :=
  let s := header OneHop.PathType 17 payload in
  encode_cmn s ++ encode_addrs s ++ OneHop.encode (OneHop.mk info2 hop1 HopField.zero) ++ payload.
Lemma ohp_pkt2_wf : wf_bytes ohp_pkt2.
Proof. apply (bool_decide_unpack _). vm_compute. exact I. Qed.
Definition ohp_result1 : processResult := mkResult 2 None (Some ohp_pkt2) ttOther.
Lemma ohp_run1 aes : ∃ p', run aes 1 ohp_pkt1 host_addr 0 router1 = (p', Continue (Result ohp_result1)).
Proof. eexists. rewrite (surjective_pairing (processPkt _ _ _ _ _ _ _ _ _ _ _ _ _ _ _ _)). apply (f_equal2 pair); [reflexivity|vm_compute; reflexivity]. Qed.
Lemma ohp_run2 aes : ∃ p' res, run aes 2 ohp_pkt2 host_addr 3 router2 = (p', Continue (Result res)).
Proof.
  eexists _, _. rewrite (surjective_pairing (processPkt _ _ _ _ _ _ _ _ _ _ _ _ _ _ _ _)).
  apply (f_equal2 pair); [reflexivity|vm_compute; reflexivity].
Qed.
End RouterExample.
