(* ===== verification/RouterSafety.v ===== *)
(** The router does not panic, and processing a packet writes nothing but the
    window of its path and its hop-by-hop options, whatever the verdict. *)
From S2P Require Export RouterProperties.

(** * Calls that do not panic *)
Module NoPanicLemmas.

Import Net DataPlane LocalDelivery Processor RouterConfigLemmas.

(** Host addresses of the lengths their types say. *)
Lemma ParseAddr_safe typ raw :
  len raw = AddrType.Length typ →
  match AddrType.ParseAddr typ raw with
  | Ok h => Host.Type_ h = Host.HostTypeIP ∨ Host.Type_ h = Host.HostTypeSVC
  | Err _ => True
  | Panic => False
  end.
Proof.
  intros Hl. unfold AddrType.ParseAddr.
  destruct (Z.eqb_spec typ AddrType.T4Ip); [by left|]. destruct (Z.eqb_spec typ AddrType.T4Svc) as [->|].
  { change (AddrType.Length _) with 4 in Hl. rewrite sub_Ok by lia. go_cbn. unfold Uint16.
    rewrite get_be_Ok by (rewrite len_take, len_drop; lia). by right. }
  destruct (typ =? AddrType.T16Ip); [by left|done].
Qed.

(** Discharges [no_panic] of a chain of reads whose bounds were checked. *)
Ltac reads :=
  repeat first
    [ apply no_panic_bind; [|intros ? ?]
    | match goal with H : fail_if _ _ = Ok _ |- _ => apply fail_if_Ok in H end
    | match goal with H : sub _ _ _ = Ok _ |- _ => apply len_sub in H end ].

Lemma split_no_panic data n : 0 ≤ n ≤ len data → no_panic (BaseLayer.split data n).
Proof. intros H. by destruct (ScmpLemmas.split_any data n H) as (a & b & -> & _). Qed.

Ltac reads_ok :=
  reads; auto with go;
  try first [apply sub_no_panic; lia | apply get_be_no_panic; lia | apply split_no_panic; lia].

Lemma Echo_no_panic data : no_panic (Echo.DecodeFromBytes data).
Proof. unfold Echo.DecodeFromBytes, Uint16. reads_ok. Qed.

Lemma Traceroute_no_panic data : no_panic (Traceroute.DecodeFromBytes data).
Proof.
  unfold Traceroute.DecodeFromBytes, Uint16, Uint64, scmpRawInterfaceLen, ISDAS.IABytes. cbv zeta. reads_ok.
Qed.

Section delivery.
Context (NewPacket : bytes → L4.LayerType → list Layer) (intn : Z → Z).

(** Documented behaviour of [gopacket]: what follows an SCMP message is decoded
    as a payload layer; and of [rand.Intn]. *)
Class DeliveryLaws := {
  second_is_payload scmp l1 l2 :
    SCMP.NextLayerType scmp ≠ L4.LayerTypePayload →
    NewPacket (BaseLayer.Payload (SCMP.base scmp)) (SCMP.NextLayerType scmp) = [l1; l2] → ∃ b, l2 = LocalDelivery.LayerPayload b;
  intn_range n : 0 < n → 0 ≤ intn n < n
}.
Context {laws : DeliveryLaws}.

Lemma quoted_port_no_panic gpkt : no_panic (quoted_port gpkt).
Proof using.
  unfold quoted_port. destruct (first_layer as_udp gpkt); [reads; auto with go|].
  destruct (first_layer as_scmp gpkt); [|done]. reads; auto with go.
  destruct (first_layer as_echo gpkt); [done|]. by destruct (first_layer as_traceroute gpkt).
Qed.

Lemma getDstPortSCMP_no_panic scmp : no_panic (getDstPortSCMP NewPacket scmp).
Proof using laws.
  unfold getDstPortSCMP. destruct (_ || _); [done|].
  set (t := TypeCode.Type_ _). destruct (t =? _); [apply no_panic_bind; [apply Echo_no_panic|done]|].
  destruct (t =? _); [apply no_panic_bind; [apply Traceroute_no_panic|done]|].
  apply no_panic_bind; [auto with go|]. intros [] Hl%fail_if_Ok.
  apply no_panic_bind; [unfold decodeSCMP; reads; auto with go|]. intros l El.
  apply no_panic_bind; [auto with go|]. intros [] Hn%fail_if_Ok.
  unfold decodeSCMP in El. go_inv.
  set (ls := NewPacket _ _) in *. destruct ls as [|l1 [|l2 [|]]] eqn:E; try (exfalso; unfold len in *; cbn in *; lia).
  destruct (second_is_payload scmp l1 l2) as [b ->]; [by intros E0; rewrite E0 in Hl|done|].
  change (get [l1; LocalDelivery.LayerPayload b] 1) with (Ok (LocalDelivery.LayerPayload b)). apply quoted_port_no_panic.
Qed.

Lemma addEndhostPort_no_panic d l4 payload dst :
  wf_bytes payload → no_panic (addEndhostPort NewPacket d l4 payload dst).
Proof using laws.
  intros Hb. unfold addEndhostPort. cbv zeta. destruct (_ =? _).
  { apply no_panic_bind; [auto with go|]. intros [] H%fail_if_Ok. unfold Uint16, sub_from.
    rewrite sub_Ok by lia. go_cbn. rewrite get_be_Ok by (rewrite len_take, len_drop; lia). done. }
  destruct (_ =? _); [|done].
  pose proof (ScmpHeaderLemmas.SCMP_DecodeFromBytes_any payload (SCMP.mk (BaseLayer.mk [] []) 0 0 None) Hb) as H.
  destruct (SCMP.DecodeFromBytes _ _) as [scmp [[]| |]]; [|done..].
  apply no_panic_bind; [done|]. intros _ _. apply no_panic_bind; [|done].
  apply no_panic_wrap, getDstPortSCMP_no_panic.
Qed.

(** A table of services was created, and its pointers can be followed. *)
Definition services_ready (d : DataPlane.t) : Prop := ∃ table, svc d = Some table ∧ services_wf table.

Lemma resolveLocalDst_no_panic s l4 payload d :
  wf_bytes payload → len (SCION.RawDstAddr s) = AddrType.Length (SCION.DstAddrType s) → services_ready d →
  (resolveLocalDst NewPacket intn s l4 payload d).2 ≠ Panic.
Proof using laws.
  intros Hb Hl (table & Et & Hw). unfold resolveLocalDst, SCION.DstAddr.
  pose proof (ParseAddr_safe _ _ Hl) as Hp. destruct (AddrType.ParseAddr _ _) as [h| |]; [|done..].
  destruct (Z.eqb_spec (Host.Type_ h) Host.HostTypeSVC) as [Es|Es].
  - rewrite Et. unfold Host.SVC. rewrite (proj2 (Z.eqb_eq _ _) Es : (Host.ty h =? _) = true). cbn [negb]. go_cbn.
    unfold Services.Any. set (svc := SVC.Base _). destruct (Z.eqb_spec (len (Services.addrs_of table svc)) 0) as [|Hn]; [done|].
    pose proof (len_nonneg (Services.addrs_of table svc)).
    destruct (get (Services.addrs_of table svc) _) as [q| |] eqn:Eg.
    + go_cbn. unfold Services.deref. pose proof (Hw svc) as Hw'. rewrite Forall_forall in Hw'.
      destruct (Hw' q) as [a ->].
      { unfold get in Eg. destruct (_ <? 0); [done|]. destruct (_ !! _) eqn:E; [|done]. injection Eg as <-.
        by eapply list_elem_of_lookup_2. }
      by destruct (_ || _).
    + done.
    + exfalso. revert Eg. apply get_no_panic, (intn_range (DeliveryLaws:=laws)). lia.
  - destruct (Z.eqb_spec (Host.Type_ h) Host.HostTypeIP) as [Ei|]; [|by destruct Hp].
    cbn [snd]. unfold Host.IP. rewrite (proj2 (Z.eqb_eq _ _) Ei : (Host.ty h =? _) = true). cbn [negb]. go_cbn.
    by apply addEndhostPort_no_panic.
Qed.
End delivery.
End NoPanicLemmas.

(** * Steps that stay within the path *)
Module TameLemmas.

Import Net DataPlane LocalDelivery Processor StepLemmas RawRefinement PathLemmas ProcessLemmas
  OptionLemmas AbstractRouter RouterSimulation NoPanicLemmas.

Section tame.
Context (p : t) (D : Decoded.t) (Hrd : ready p D).

(** The packet differs from the one of [p] in the window of the path only. *)
Definition kept (p1 : t) : Prop := agree (pathOff p) (Decoded.Len D) (hdr_end p) (rawPkt p) (rawPkt p1).

(** A step that, done after other steps on the path, keeps the rest of the
    packet with every verdict and does not panic. *)
Definition tame {A} (m : P A) : Prop := ∀ p1 D1, moved p D p1 D1 →
  kept (m p1).1 ∧ (m p1).2 ≠ Crash ∧ ∀ p2 a, m p1 = (p2, Continue a) → ∃ D2, moved p D p2 D2.

Lemma moved_kept p1 D1 : moved p D p1 D1 → kept p1.
Proof using Hrd.
  intros [_ _ _ Ho _]. destruct (hdr_end_bound _ _ Hrd) as (? & ? & _). by apply same_outside_agree.
Qed.

Lemma tame_bind {A B} (m : P A) (f : A → P B) : tame m → (∀ a, tame (f a)) → tame (m ≫= f).
Proof using.
  intros Hm Hf p1 D1 H1. destruct (Hm p1 D1 H1) as (K & C & M). unfold mbind, P_bind.
  destruct (m p1) as [p2 [a| | |]]; [|by split_and!..].
  destruct (M p2 a eq_refl) as [D2 H2]. by apply (Hf a p2 D2).
Qed.

(** Checks that leave the state alone. *)
Lemma tame_check (m : P unit) : (∀ p1 D1, moved p D p1 D1 → (m p1).1 = p1 ∧ (m p1).2 ≠ Crash) → tame m.
Proof using Hrd.
  intros Hm p1 D1 H1. destruct (Hm p1 D1 H1) as [E C]. rewrite E. split_and!; [by eapply moved_kept|done|].
  intros p2 a E2. rewrite E2 in E. cbn in E. subst. eauto.
Qed.

Lemma tame_reject c r : tame (reject_if c r).
Proof using Hrd. apply tame_check. intros p1 D1 _. unfold reject_if, slow_path_if. by destruct (c p1). Qed.

Lemma peer_of_no_panic m inf : no_panic (peer_of m inf).
Proof using. unfold peer_of. destruct (negb _); [done|]. reads; auto with go. Qed.

Lemma tame_determinePeer : tame determinePeer.
Proof using Hrd.
  intros p1 D1 H1. unfold determinePeer, mbind, P_bind, update.
  pose proof (peer_of_no_panic (meta p1) (infoField p1)) as Hp.
  destruct (peer_of _ _) as [b| |]; cbn [verdict_of fst snd]; [| |done].
  - split_and!; [by eapply (moved_kept p1)|done|]. intros p2 a [= <- _]. exists D1.
    destruct H1 as [[] [] ? ? ?]. split; try done. split; [by apply (holds_ext p1)|done..].
  - split_and!; [by eapply moved_kept|done|done].
Qed.

Lemma tame_update_segID_ingress : tame updateNonConsDirIngressSegID.
Proof using Hrd.
  intros p1 D1 H1. destruct (updateNonConsDirIngressSegID_step p1 D1 (mv_at _ _ _ _ H1)) as (p2 & E & M & _).
  pose proof (moved_trans _ _ _ _ _ _ H1 M) as H2. rewrite E. cbn. split_and!; [by eapply moved_kept|done|].
  intros ? ? [= <- _]. eauto.
Qed.

Lemma tame_transit : tame validateTransitUnderlaySrc.
Proof using Hrd.
  apply tame_check. intros p1 D1 H1. split.
  - unfold validateTransitUnderlaySrc. destruct (_ || _); [done|]. unfold mbind, P_bind, call.
    destruct (ingressInterface p1); [|done..]. cbn. destruct (_ !! _); [|done]. by destruct (IP_Equal _ _).
  - apply (validateTransitUnderlaySrc_checks p1 D1), (mv_at _ _ _ _ H1).
Qed.

Lemma tame_srcdst : tame validateSrcDstIA.
Proof using Hrd.
  apply tame_check. intros p1 D1 H1. destruct (validateSrcDstIA_eq p1) as [r ->]. split; [done|]. cbv zeta.
  by repeat case_match.
Qed.

Section mac.
Context (mac : bytes → bytes) (Hmac : ∀ b, 16 ≤ len (mac b)) (now : Z).

Lemma tame_verifyMAC : tame (verifyCurrentMAC mac).
Proof using Hrd Hmac.
  intros p1 D1 H1. pose proof (verifyCurrentMAC_step mac Hmac p1 D1 (mv_at _ _ _ _ H1)) as Hs.
  rewrite (verifyCurrentMAC_eq mac Hmac) in *. destruct (decide _) as [Ha|].
  - destruct (Hs Ha) as (p2 & [= <-] & M & _). split_and!; [by eapply (moved_kept p1)|done|].
    intros ? ? [= <- _]. exists D1. by eapply moved_trans.
  - split_and!; [by eapply moved_kept|done|done].
Qed.

(** Clearing a router alert writes the hop field. *)
Definition raise_alert (at_ingress : bool) (r : slowPathRequest) : P unit :=
  _ ← update (clear_alert at_ingress); _ ← store_hop "update hop field"; slow_path_if true r.
Lemma alert_step at_ingress r p1 D1 :
  moved p D p1 D1 →
  ∃ p2 D2, raise_alert at_ingress r p1 = (p2, SlowPath r) ∧ holds p2 D2 ∧ Decoded.base D2 = Decoded.base D1 ∧
    pathOff p2 = pathOff p ∧ same_outside (pathOff p) (Decoded.Len D) (rawPkt p) (rawPkt p2) ∧ synced (path p2).
Proof using Hrd.
  intros H1. pose proof (mv_at _ _ _ _ H1) as Hat. unfold raise_alert.
  rewrite (P_bind_eq (update (clear_alert at_ingress)) _ p1 (clear_alert at_ingress p1) tt eq_refl).
  assert (holds (clear_alert at_ingress p1) D1) as Hh by (apply (holds_ext p1); [done..|apply (at_holds _ _ Hat)]).
  assert (HopField.wf (hopField (clear_alert at_ingress p1))) as Hw.
  { pose proof (at_hop_wf _ _ Hat) as []. unfold clear_alert. cbn. by destruct (Bool.eqb _ _); split. }
  destruct (store_hop_step "update hop field" _ D1 Hh Hw) as (r' & Er & Hr & Hs); [by rewrite (at_hop _ _ Hat)|].
  rewrite (P_bind_eq _ _ _ _ _ Er). destruct (with_path_holds r' _ D1 _ Hh Hr eq_refl) as [H2 O2].
  do 2 eexists. split; [reflexivity|]. destruct H1 as [E1 _ L O S]. split_and!; [exact H2|done|apply E1| |apply Hs, S, (rd_synced _ _ Hrd)].
  etransitivity; [exact O|]. rewrite <- L, <- (env_off _ _ E1). exact O2.
Qed.

Lemma alert_kept at_ingress r p1 D1 :
  moved p D p1 D1 → kept (raise_alert at_ingress r p1).1 ∧ (raise_alert at_ingress r p1).2 = SlowPath r.
Proof using Hrd.
  intros H1. destruct (alert_step at_ingress r p1 D1 H1) as (p2 & D2 & -> & _ & _ & _ & O & _). split; [|done].
  destruct (hdr_end_bound _ _ Hrd) as (? & ? & _). by apply same_outside_agree.
Qed.

Lemma tame_ingress_alert : tame handleIngressRouterAlert.
Proof using Hrd.
  intros p1 D1 H1. pose proof (alert_kept true (router_alert (ingressID p1)) p1 D1 H1) as [K V]. unfold raise_alert in K, V.
  unfold handleIngressRouterAlert. destruct (_ =? 0); [|destruct (negb _)].
  1,2: split_and!; [by eapply moved_kept|done|intros ? ? [= <- _]; eauto].
  split_and!; [exact K|by rewrite V|]. intros p2 a E. rewrite E in V. done.
Qed.

Lemma tame_egress_alert : tame handleEgressRouterAlert.
Proof using Hrd.
  intros p1 D1 H1. pose proof (alert_kept false (router_alert (egressInterface p1)) p1 D1 H1) as [K V]. unfold raise_alert in K, V.
  unfold handleEgressRouterAlert. destruct (negb _); [|cbv zeta; destruct (is_nil _)].
  1,2: split_and!; [by eapply moved_kept|done|intros ? ? [= <- _]; eauto].
  split_and!; [exact K|by rewrite V|]. intros p2 a E. rewrite E in V. done.
Qed.

(** The path is advanced and parsed. *)
Lemma tame_doXover : tame doXover.
Proof using Hrd.
  intros p1 D1 H1. pose proof (mv_at _ _ _ _ H1) as Hat. unfold doXover.
  set (p2 := set_flags true (peering p1) p1).
  rewrite (P_bind_eq (update (λ p, set_flags true (peering p) p)) _ p1 p2 tt eq_refl).
  assert (moved p D p2 D1) as H2.
  { destruct H1 as [[] [] ? ? ?]. split; try done. split; [by apply (holds_ext p1)|done..]. }
  destruct (IncPath_step "incrementing path" p2 D1 (at_holds _ _ (mv_at _ _ _ _ H2)))
    as (r & D' & o & E & ED & Hr & HL & Hp & _ & _ & Hs).
  destruct (with_path_holds r p2 D1 D' (at_holds _ _ (mv_at _ _ _ _ H2)) Hr HL) as [H3 O3].
  set (p3 := with_path r p2) in *. destruct H2 as [E2 A2 L2 O2 S2].
  assert (same_outside (pathOff p) (Decoded.Len D) (rawPkt p) (rawPkt p3)) as O.
  { etransitivity; [exact O2|]. rewrite <- L2, <- (env_off _ _ E2). exact O3. }
  assert (kept p3) as K3.
  { destruct (hdr_end_bound _ _ Hrd) as (? & ? & _). by apply same_outside_agree. }
  unfold mbind, P_bind. rewrite E. destruct o as [[]| |]; [|by split_and!|done].
  cbn [wrap_err verdict_of]. rewrite (parsePath_eq _ _ H3).
  destruct (cur_hop D') as [hop|] eqn:Eh; [|by split_and!].
  destruct (cur_info D') as [info|] eqn:Ei; [|by split_and!].
  split_and!; [done|done|]. intros p4 a [= <- _]. exists D'.
  split; [by transitivity p2| |by rewrite HL|exact O|by intros _; apply Hs].
  apply (mv_at _ _ _ _ (parsed_at _ _ _ _ H3 Ei Eh)).
Qed.

Lemma tame_xover : tame (xover_if_needed mac now).
Proof using Hrd Hmac.
  intros p1 D1 H1. unfold xover_if_needed. destruct (_ && _).
  - apply (tame_bind doXover _ tame_doXover (λ _, tame_bind _ _ (tame_reject _ _) (λ _, tame_verifyMAC)) p1 D1 H1).
  - split_and!; [by eapply moved_kept|done|intros ? ? [= <- _]; eauto].
Qed.

Lemma tame_egressID : tame validateEgressID.
Proof using Hrd.
  apply tame_check. intros p1 D1 _. unfold validateEgressID, mbind, P_bind, slow_path_if. cbv zeta.
  destruct (_ || _); [done|]. destruct (negb (effectiveXover p1)).
  - by destruct (negb _).
  - by destruct (negb _).
Qed.

(** ** The two halves of the processor *)

Lemma parsePath_tame :
  kept (parsePath p).1 ∧ (parsePath p).2 ≠ Crash ∧
  ∀ p2 a, parsePath p = (p2, Continue a) → moved p D p2 D.
Proof using Hrd.
  assert (∀ q, rawPkt q = rawPkt p → kept q) as K by (intros q E; unfold kept; by rewrite E).
  pose proof (rd_holds _ _ Hrd) as Hh. rewrite (parsePath_eq _ _ Hh).
  destruct (cur_hop D) as [hop|] eqn:Eh; [|split_and!; [by apply K|done|done]].
  destruct (cur_info D) as [info|] eqn:Ei; [|split_and!; [by apply K|done|done]].
  split_and!; [by apply K|done|]. intros p2 a [= <- _]. by apply parsed_at.
Qed.

Lemma process_arrival_tame :
  kept (process_arrival mac now p).1 ∧ (process_arrival mac now p).2 ≠ Crash ∧
  ∀ p2 a, process_arrival mac now p = (p2, Continue a) → ∃ D2, moved p D p2 D2.
Proof using Hrd Hmac.
  destruct parsePath_tame as (K & C & M).
  set (rest := (_ ← determinePeer; _ ← validateHopExpiry now; _ ← validateIngressID; _ ← validatePktLen;
    _ ← validateTransitUnderlaySrc; _ ← validateSrcDstIA; _ ← updateNonConsDirIngressSegID;
    _ ← verifyCurrentMAC mac; handleIngressRouterAlert) : P unit).
  assert (tame rest) as Ht.
  { unfold rest, validateHopExpiry, validateIngressID, validatePktLen.
    repeat (apply tame_bind; [|intros _]); auto using tame_determinePeer, tame_reject, tame_transit, tame_srcdst,
      tame_update_segID_ingress, tame_verifyMAC, tame_ingress_alert. }
  change (process_arrival mac now) with (parsePath ≫= λ _, rest). clearbody rest. unfold mbind, P_bind.
  destruct (parsePath p) as [p1 [a| | |]]; [|by split_and!..].
  by apply (Ht p1 D), (M p1 a).
Qed.

Lemma departure_tame IsUp : tame (departure mac now IsUp).
Proof using Hrd Hmac.
  unfold departure, validateEgressUp. repeat (apply tame_bind; [|intros _]);
    auto using tame_xover, tame_egressID, tame_egress_alert, tame_reject.
Qed.
End mac.
End tame.

(** ** The exits *)

Lemma GetInfoField_no_panic r D i : repr r D → 0 ≤ i → no_panic (Raw.GetInfoField r i).
Proof.
  intros Hr Hi. destruct (Decoded.InfoFields D !! Z.to_nat i) as [inf|] eqn:E.
  - rewrite <- (Z2Nat.id i) by done. by rewrite (GetInfoField_repr _ _ _ _ Hr E).
  - rewrite GetInfoField_oob; [done|]. rewrite (repr_base _ _ Hr).
    apply lookup_ge_None in E. pose proof (Decoded.wf_NumINF _ (repr_wf _ _ Hr)). unfold len in *. lia.
Qed.

Lemma ParseIdentifierOption_no_panic o base : no_panic (Identifier.ParseIdentifierOption o base).
Proof.
  unfold Identifier.ParseIdentifierOption. destruct (negb _); [done|]. go_cbn. unfold Identifier.decode.
  destruct (Z.ltb_spec (len (TLV.OptData o)) Identifier.identifierLength) as [|Hl]; [done|].
  unfold Identifier.identifierLength in Hl.
  destruct (split_len 8 (TLV.OptData o)) as (b & rest & -> & Lb & _); [lia|].
  explode b 8%nat. destruct b; [|len_lia]. done.
Qed.

Section exits.
Context (aes_Encrypt : bytes → bytes → bytes).
Context (netip_ParseAddr : gostring → outcome IP.t) (netip_String : IP.t → gostring).
Context (NewPacket : bytes → L4.LayerType → list Layer) (intn : Z → Z).
Context (now : Z).

Lemma identifier_option_no_crash opt q D : repr (path q) D → (identifier_option opt q).2 ≠ Crash.
Proof.
  intros Hr. unfold identifier_option. destruct (is_some _); [done|].
  apply P_bind_no_crash.
  - destruct (_ <? _); [|done]. pose proof (GetInfoField_no_panic _ _ 0 Hr ltac:(lia)).
    by destruct (Raw.GetInfoField _ 0).
  - intros q' base _. apply P_bind_no_crash; [|done].
    pose proof (ParseIdentifierOption_no_panic opt base). unfold call. by destruct (Identifier.ParseIdentifierOption _ _).
Qed.

(** Without a FABRID option. *)
Lemma hbh_loop_no_crash e opts off q D :
  repr (path q) D → Forall (λ o, TLV.OptType o ≠ TLV.OptTypeFabrid) opts →
  (hbh_loop aes_Encrypt netip_ParseAddr netip_String now e opts off q).2 ≠ Crash.
Proof.
  revert off q. induction opts as [|o opts IH]; intros off q Hr Ho; [done|].
  apply Forall_cons in Ho as [Hno Ho]. cbn [hbh_loop]. apply Z.eqb_neq in Hno. rewrite Hno.
  apply P_bind_no_crash.
  - destruct (TLV.OptType o =? TLV.OptTypeIdentifier); [|done]. apply P_bind_no_crash; [by eapply identifier_option_no_crash|done].
  - intros q' stop H. destruct stop; [done|]. apply IH; [|done].
    destruct (TLV.OptType o =? TLV.OptTypeIdentifier).
    + apply P_bind_Continue in H as (q1 & u & H1 & [-> _]%mret_Continue).
      pose proof (identifier_option_frame 0 o q) as F. rewrite H1 in F. cbn [fst] in F. by rewrite (of_state _ _ _ F).
    + by apply mret_Continue in H as [-> _].
Qed.

Lemma forward_kept p D p1 D2 :
  ready p D → moved p D p1 D2 → kept p D (forward aes_Encrypt netip_ParseAddr netip_String now p1).1.
Proof.
  intros Hrd HM. unfold forward. cbv zeta. set (e := egressInterface p1). destruct (is_some _).
  - apply P_bind_state; [by eapply (moved_kept p D Hrd p1)|]. intros p2 [] ->%update_Continue.
    pose proof (set_transit_moved ingressEgressSameRouter (nextHop p1) _ _ _ _ HM) as HM'.
    destruct (options_step aes_Encrypt netip_ParseAddr netip_String now _ _ _ _ e Hrd HM') as (F & A & G).
    apply P_bind_state; [exact G|]. intros p3 [] H3. rewrite H3 in F, A, G. cbn [fst] in F, A, G.
    destruct (send_step _ _ _ _ _ _ Hrd HM' F A G) as (p4 & D3 & o & _ & EE & _ & _ & K & _).
    apply P_bind_state; [by rewrite EE|]. intros p4' [] H4. rewrite EE in H4. injection H4 as <- _. exact K.
  - destruct (_ !! e) as [a|]; [|by eapply moved_kept].
    apply P_bind_state; [by eapply (moved_kept p D Hrd p1)|]. intros p2 [] ->%update_Continue.
    pose proof (set_transit_moved ingressEgressDifferentRouter (Some a) _ _ _ _ HM) as HM'.
    destruct (options_step aes_Encrypt netip_ParseAddr netip_String now _ _ _ _ e Hrd HM') as (F & A & G).
    apply P_bind_state; [exact G|]. intros p3 [] H3. rewrite H3 in G. exact G.
Qed.

Lemma inbound_kept p D p1 D1 :
  ready p D → moved p D p1 D1 →
  kept p D (process_inbound aes_Encrypt netip_ParseAddr netip_String NewPacket intn now p1).1.
Proof.
  intros Hrd HM. unfold process_inbound. destruct (resolveInbound_state NewPacket intn p1) as [dp Ed].
  apply P_bind_state; [rewrite Ed; exact (moved_kept _ _ Hrd _ _ HM)|]. intros p2 a H2. rewrite H2 in Ed. cbn in Ed. subst p2.
  apply P_bind_state; [exact (moved_kept _ _ Hrd _ _ HM)|]. intros p3 [] ->%update_Continue.
  assert (ready (set_d dp p) D) as Hrd'.
  { destruct Hrd. split; [by apply (holds_ext p)|done..]. }
  pose proof (set_transit_moved internalTraffic a _ _ _ _ (set_d_moved dp _ _ _ _ HM)) as HM'.
  destruct (options_step aes_Encrypt netip_ParseAddr netip_String now _ _ _ _ 0 Hrd' HM') as (F & A & G).
  apply P_bind_state; [exact G|]. intros p4 [] H4. rewrite H4 in G. exact G.
Qed.

(** The absence of panics, for packets without FABRID options. *)
Definition no_fabrid (p : t) : Prop := Forall (λ o, TLV.OptType o ≠ TLV.OptTypeFabrid) (Extn.Options (hbhLayer p)).

Lemma options_no_crash p D p1 D1 e :
  moved p D p1 D1 → no_fabrid p →
  (processHbhOptions aes_Encrypt netip_ParseAddr netip_String now e p1).2 ≠ Crash.
Proof.
  intros [E A _ _ _] Hn. unfold processHbhOptions. eapply hbh_loop_no_crash; [apply A|].
  by rewrite (env_hbh _ _ E).
Qed.

Lemma forward_no_crash p D p1 D2 :
  ready p D → moved p D p1 D2 → no_fabrid p →
  (forward aes_Encrypt netip_ParseAddr netip_String now p1).2 ≠ Crash.
Proof.
  intros Hrd HM Hn. unfold forward. cbv zeta. set (e := egressInterface p1). destruct (is_some _).
  - pose proof (set_transit_moved ingressEgressSameRouter (nextHop p1) _ _ _ _ HM) as HM'.
    apply P_bind_no_crash; [done|]. intros p2 [] ->%update_Continue.
    apply P_bind_no_crash; [by eapply options_no_crash|]. intros p3 [] H3.
    destruct (options_step aes_Encrypt netip_ParseAddr netip_String now _ _ _ _ e Hrd HM') as (F & A & G).
    rewrite H3 in F, A, G. cbn [fst] in F, A, G.
    destruct (send_step _ _ _ _ _ _ Hrd HM' F A G) as (p4 & D3 & o & _ & EE & Hp & _).
    apply P_bind_no_crash; [rewrite EE; by destruct o|]. done.
  - destruct (_ !! e) as [a|]; [|done].
    apply P_bind_no_crash; [done|]. intros p2 [] ->%update_Continue.
    apply P_bind_no_crash; [|done]. eapply options_no_crash; [|done]. by apply set_transit_moved.
Qed.

Lemma inbound_no_crash {laws : DeliveryLaws NewPacket intn} p D p1 D1 :
  ready p D → moved p D p1 D1 → no_fabrid p → services_ready (d p) → wf_bytes (LayerPayload p) →
  len (SCION.RawDstAddr (scionLayer p)) = AddrType.Length (SCION.DstAddrType (scionLayer p)) →
  (process_inbound aes_Encrypt netip_ParseAddr netip_String NewPacket intn now p1).2 ≠ Crash.
Proof.
  intros Hrd HM Hn Hs Hw Hl. unfold process_inbound. apply P_bind_no_crash.
  - rewrite (resolveInbound_env _ _ _ _ (mv_env _ _ _ _ HM)). unfold resolveInbound.
    pose proof (resolveLocalDst_no_panic NewPacket intn (scionLayer p) (nextHdr p) (LayerPayload p) (d p) Hw Hl Hs) as Hr.
    destruct (resolveLocalDst _ _ _ _ _ _) as [dp [a|er|]]; [done| |done].
    by repeat destruct (errors_Is _ _).
  - intros p2 a H2. destruct (resolveInbound_state NewPacket intn p1) as [dp Ed]. rewrite H2 in Ed. cbn in Ed. subst p2.
    apply P_bind_no_crash; [done|]. intros p3 [] ->%update_Continue.
    pose proof (set_transit_moved internalTraffic a _ _ _ _ (set_d_moved dp _ _ _ _ HM)) as HM'.
    apply P_bind_no_crash; [by eapply options_no_crash|]. done.
Qed.
End exits.

End TameLemmas.
