(* ===== verification/RouterOneHop.v ===== *)
(** One-hop packets: how the two routers of a link complete a path that is not
    known yet, and that the reply to it is accepted. *)
From S2P Require Export RouterSafety.

Module OneHopLemmas.

Import Net DataPlane LocalDelivery Processor PacketProcessor StepLemmas RawRefinement PathLemmas
  ProcessLemmas OptionLemmas AbstractRouter RouterSimulation ScionHdrLemmas PacketLemmas NoPanicLemmas.

(** [pkt] starts with a header with the addresses of [s] and the one-hop path [o],
    and goes on like [pkt0]. *)
Record onehop_packet (s : SCION.t) (o : OneHop.t) (pkt0 pkt : bytes) : Prop := {
  oh_bytes : ∃ path, pkt = (encode_cmn s ++ encode_addrs s ++ path) ++ drop (Z.to_nat (path_offset s + OneHop.PathLen)) pkt0 ∧
    len path = OneHop.PathLen ∧ OneHop.DecodeFromBytes path = Ok o;
  oh_len : len pkt = len pkt0
}.

Section update.
Context (PrependBytes : Z → bytes) (Hpre : ∀ n, 0 ≤ n → len (PrependBytes n) = n).

Lemma updateSCIONLayer_Ok p o o' :
  layers_of p → SCION.Path (scionLayer p) = Some (POneHop o) → OneHop.wf o' →
  ∃ pkt, updateSCIONLayer PrependBytes (set_onehop o' p) = (set_rawPkt pkt (set_onehop o' p), Continue tt) ∧
    onehop_packet (scionLayer p) o' (rawPkt p) pkt.
Proof using Hpre.
  intros [Hs _ _] Hp Hw. destruct (decoded_path _ _ Hs) as (q & Hq & _ & Hlen).
  rewrite Hp in Hq. injection Hq as <-. change (PathLen (POneHop o)) with 32 in Hlen.
  pose proof (AddrHdrLen_range (scionLayer p)) as Hr. pose proof (decoded_fields _ _ Hs) as Hf.
  set (s := scionLayer p) in *. pose proof (wf_HdrLen _ Hf) as Hhl. uint_bounds.
  assert (SCION.HdrLen s * AddrType.LineLen ≤ len (rawPkt p)) as Lp.
  { rewrite <- (decoded_split _ _ Hs), len_app, (decoded_HdrLen _ _ Hs).
    pose proof (len_nonneg (SCION.Payload s)). lia. }
  unfold SCION.CmnHdrLen, AddrType.LineLen in *.
  assert (wf_fields (SCION.set_Path (POneHop o') s)) as Hf' by (destruct Hf; by split).
  destruct (SerializeTo_encode PrependBytes (SCION.set_Path (POneHop o') s) (POneHop o') [] (SCION.mkOpts false false) Hpre)
    as (p' & path & E & Lpath & Ep & _ & Hd & _); [done|done|exact Hw| |done|].
  { change (SCION.AddrHdrLen (SCION.set_Path (POneHop o') s)) with (SCION.AddrHdrLen s).
    change (PathLen (POneHop o')) with 32. unfold SCION.CmnHdrLen, SCION.MaxHdrLen. lia. }
  change (PathLen (POneHop o')) with 32 in Lpath.
  assert (p' = POneHop o') as -> by (destruct p'; try done; by rewrite Ep).
  destruct (Hd (POneHop o') I) as (p2 & Hdec & Ep2).
  assert (OneHop.DecodeFromBytes path = Ok o') as Hdec'.
  { cbn in Hdec. destruct (OneHop.DecodeFromBytes path) as [o2| |]; [|done..]. injection Hdec as <-. by rewrite Ep2. }
  change (with_lens (SCION.mkOpts false false) (POneHop o') [] (SCION.set_Path (POneHop o') s))
    with (SCION.set_Path (POneHop o') s) in E.
  change (encode_cmn (SCION.set_Path (POneHop o') s)) with (encode_cmn s) in E.
  change (encode_addrs (SCION.set_Path (POneHop o') s)) with (encode_addrs s) in E.
  rewrite app_nil_r in E. set (h := encode_cmn s ++ encode_addrs s ++ path) in *.
  assert (len h = path_offset s + OneHop.PathLen) as Lh.
  { unfold h, path_offset. rewrite !len_app, len_encode_cmn, Lpath.
    rewrite len_encode_addrs by (apply (wf_RawDstAddr _ Hf) || apply (wf_RawSrcAddr _ Hf)). change OneHop.PathLen with 32. lia. }
  assert (len h ≤ len (rawPkt p)) as Lhp.
  { rewrite Lh. unfold path_offset, SCION.CmnHdrLen. change OneHop.PathLen with 32. lia. }
  destruct (split_len (len h) (rawPkt p)) as (b & rest & Eb & Lb & _); [split; [apply len_nonneg|done]|].
  exists (h ++ rest). split.
  - unfold updateSCIONLayer. change (scionLayer (set_onehop o' p)) with (SCION.set_Path (POneHop o') s). rewrite E.
    change (rawPkt (set_onehop o' p)) with (rawPkt p). go_cbn. rewrite Eb, on_sub_prefix by done.
    go_cbn. rewrite copy_same by (unfold len in *; lia). done.
  - split; [exists path|rewrite Eb, !len_app; lia]. split_and!; [|done|done].
    rewrite <- Lh, Eb, (drop_len_app (len h)) by done. done.
Qed.
End update.

Section handler.
Context (PrependBytes : Z → bytes) (Hpre : ∀ n, 0 ≤ n → len (PrependBytes n) = n).
Context (mac : bytes → bytes) (Hmac : ∀ b, 16 ≤ len (mac b)) (Hwmac : ∀ b, wf_bytes (mac b)).
Context (NewPacket : bytes → L4.LayerType → list Layer) (intn : Z → Z).

Lemma ohp_mac_Ok info hop : ohp_mac mac info hop = Ok (take 6 (mac (Mac.mac_block info hop))).
Proof using Hmac. apply Mac.MAC_Ok; [done|apply Hmac]. Qed.

(** The second hop field that the receiving router fills in. *)
Definition second_hop (info : InfoField.t) (first : HopField.t) (ingress : Z) : HopField.t :=
  let h m := HopField.mk false false (HopField.ExpTime first) ingress 0 m in
  h (take 6 (mac (Mac.mac_block info (h (make_bytes HopField.MacLen))))).

Lemma second_hop_authentic info first ingress : authentic mac info (second_hop info first ingress).
Proof using. done. Qed.

Lemma second_hop_wf info first ingress :
  HopField.wf first → is_u16 ingress → HopField.wf (second_hop info first ingress).
Proof using Hmac Hwmac.
  intros [He _ _ _ _] Hi. unfold second_hop. split; cbn [HopField.ExpTime HopField.ConsIngress HopField.ConsEgress HopField.Mac]; try done.
  - apply wf_bytes_take, Hwmac.
  - rewrite length_take. pose proof (Hmac (Mac.mac_block info (HopField.mk false false (HopField.ExpTime first) ingress 0 (make_bytes HopField.MacLen)))).
    unfold len in *. lia.
Qed.

(** The conditions under which a router lets a one-hop packet out and in. *)
Record leaves_by (p : t) (o : OneHop.t) : Prop := {
  lb_src : SCION.SrcIA (scionLayer p) = localIA (d p);
  lb_dst : neighborIAs (d p) !! HopField.ConsEgress (OneHop.FirstHop o) = Some (SCION.DstIA (scionLayer p));
  lb_mac : authentic mac (OneHop.Info o) (OneHop.FirstHop o)
}.
Record enters_by (p : t) : Prop := {
  eb_dst : SCION.DstIA (scionLayer p) = localIA (d p);
  eb_src : SCION.SrcIA (scionLayer p) = default 0 (neighborIAs (d p) !! ingressID p)
}.

Lemma ohp_out_spec p o :
  layers_of p → SCION.Path (scionLayer p) = Some (POneHop o) → OneHop.wf o →
  let r := ohp_out PrependBytes mac o p in
  len (rawPkt r.1) = len (rawPkt p) ∧ r.2 ≠ Crash ∧
  ∀ p' res, r = (p', Continue res) → leaves_by p o ∧
    onehop_packet (scionLayer p) (OneHop.mk (chained (OneHop.Info o) (OneHop.FirstHop o)) (OneHop.FirstHop o) (OneHop.SecondHop o))
      (rawPkt p) (rawPkt p') ∧
    res = mkResult (HopField.ConsEgress (OneHop.FirstHop o)) None (Some (rawPkt p')) ttOther.
Proof using Hpre Hmac.
  intros Hl Hp Hw. cbv zeta. unfold ohp_out.
  destruct (ISDAS.Equal (localIA (d p)) (SCION.SrcIA (scionLayer p))) eqn:Es; cbn [negb]; [|by split_and!].
  destruct (neighborIAs (d p) !! _) as [n|] eqn:En; [|by split_and!].
  destruct (ISDAS.Equal n (SCION.DstIA (scionLayer p))) eqn:Ed; cbn [negb]; [|by split_and!].
  unfold ISDAS.Equal in *. apply Z.eqb_eq in Es, Ed. subst n.
  set (first := OneHop.FirstHop o) in *. set (info := OneHop.Info o) in *.
  set (m := take 6 (mac (Mac.mac_block info first))).
  rewrite (P_bind_eq (call (ohp_mac mac info first)) _ p p m) by (unfold call; by rewrite ohp_mac_Ok).
  destruct (bool_decide (HopField.Mac first = m)) eqn:Em; [apply bool_decide_eq_true in Em|].
  2:{ unfold mbind, P_bind, call, fail_if. cbn [negb fst snd]. by split_and!. }
  rewrite (P_bind_eq _ _ p p tt) by done.
  rewrite (P_bind_eq (call (InfoField.UpdateSegID info (HopField.Mac first))) _ p p (chained info first)).
  2:{ unfold call. rewrite InfoField.UpdateSegID_Ok; [done|].
     pose proof (HopField.wf_MacLen _ (OneHop.wf_FirstHop _ Hw)). unfold first. lia. }
  set (o' := OneHop.mk (chained info first) first (OneHop.SecondHop o)).
  rewrite (P_bind_eq (update (set_onehop o')) _ p (set_onehop o' p) tt) by done.
  destruct (updateSCIONLayer_Ok PrependBytes Hpre p o o' Hl Hp) as (pkt & E & Hpkt).
  { destruct Hw. split; [by apply chained_wf|done..]. }
  rewrite (P_bind_eq _ _ _ _ _ E), (P_bind_eq (read rawPkt) _ _ (set_rawPkt pkt (set_onehop o' p)) pkt eq_refl).
  cbn [fst snd mret P_ret rawPkt set_rawPkt].
  split_and!; [apply (oh_len _ _ _ _ Hpkt)|done|]. intros p' res [= <- <-]. by split_and!.
Qed.

Lemma ohp_in_spec p o :
  layers_of p → SCION.Path (scionLayer p) = Some (POneHop o) → OneHop.wf o → is_u16 (ingressID p) →
  let r := ohp_in PrependBytes mac NewPacket intn o p in
  len (rawPkt r.1) = len (rawPkt p) ∧
  (DeliveryLaws NewPacket intn → services_ready (d p) → r.2 ≠ Crash) ∧
  ∀ p' res, r = (p', Continue res) → enters_by p ∧
    onehop_packet (scionLayer p) (OneHop.mk (OneHop.Info o) (OneHop.FirstHop o)
       (second_hop (OneHop.Info o) (OneHop.FirstHop o) (ingressID p))) (rawPkt p) (rawPkt p') ∧
    ∃ a, res = mkResult 0 (Some a) (Some (rawPkt p')) ttOther.
Proof using Hpre Hmac Hwmac.
  intros Hl Hp Hw Hi. cbv zeta. unfold ohp_in.
  destruct (ISDAS.Equal (localIA (d p)) (SCION.DstIA (scionLayer p))) eqn:Ed; cbn [negb]; [|by split_and!].
  destruct (ISDAS.Equal (default 0 _) (SCION.SrcIA (scionLayer p))) eqn:Es; cbn [negb]; [|by split_and!].
  unfold ISDAS.Equal in *. apply Z.eqb_eq in Es, Ed.
  set (first := OneHop.FirstHop o) in *. set (info := OneHop.Info o) in *.
  set (h := λ m, HopField.mk false false (HopField.ExpTime first) (ingressID p) 0 m).
  set (m := take 6 (mac (Mac.mac_block info (h (make_bytes HopField.MacLen))))).
  rewrite (P_bind_eq (call (ohp_mac mac info _)) _ p p m) by (unfold call; by rewrite ohp_mac_Ok).
  set (o' := OneHop.mk info first (second_hop info first (ingressID p))).
  rewrite (P_bind_eq (update _) _ p (set_onehop o' p) tt) by done.
  destruct (updateSCIONLayer_Ok PrependBytes Hpre p o o' Hl Hp) as (pkt & E & Hpkt).
  { destruct Hw. split; [done|done|by apply second_hop_wf]. }
  rewrite (P_bind_eq _ _ _ _ _ E). unfold ohp_deliver.
  set (p2 := set_rawPkt pkt (set_onehop o' p)).
  pose proof (λ laws, resolveLocalDst_no_panic NewPacket intn (laws:=laws) (scionLayer p2) (nextHdr p2) (LayerPayload p2) (d p2)) as Hnp.
  destruct (resolveLocalDst NewPacket intn (scionLayer p2) (nextHdr p2) (LayerPayload p2) (d p2)) as [dp [a|er|]];
    cbn [fst snd].
  - split_and!; [apply (oh_len _ _ _ _ Hpkt)|done|]. intros p' res [= <- <-]. split_and!; [done|done|by exists a].
  - split_and!; [apply (oh_len _ _ _ _ Hpkt)|done|done].
  - split_and!; [apply (oh_len _ _ _ _ Hpkt)| |done]. intros laws Hs _. revert Hnp. cbn [snd]. intros Hnp.
    destruct Hl as [Hdec _ Hwp]. apply (Hnp laws); [exact Hwp| |done|done].
    apply (proj2 (wf_RawDstAddr _ (decoded_fields _ _ Hdec))).
Qed.
End handler.

(** ** The packet at the next router *)

Lemma onehop_DecodeFromBytes_app b pad : OneHop.PathLen ≤ len b → OneHop.DecodeFromBytes (b ++ pad) = OneHop.DecodeFromBytes b.
Proof.
  intros Hb. unfold OneHop.DecodeFromBytes, OneHop.PathLen, InfoLen, HopLen in *.
  assert (∀ lo hi, 0 ≤ lo ≤ hi → hi ≤ 32 → sub (b ++ pad) lo hi = sub b lo hi) as E.
  { intros lo hi H1 H2. pose proof (len_nonneg pad). rewrite !sub_Ok by len_lia. f_equal.
    rewrite drop_app_le, take_app_le; [done|..]; rewrite ?length_drop; unfold len in *; lia. }
  rewrite !E by lia. replace (len (b ++ pad) <? _) with false by (pose proof (len_nonneg pad); len_lia).
  by replace (len b <? _) with false by lia.
Qed.

(** The fields that the header [s'] shares with [s]. *)
Definition same_header (s s' : SCION.t) : Prop :=
  encode_cmn s' = encode_cmn s ∧ encode_addrs s' = encode_addrs s ∧ path_offset s' = path_offset s ∧
  SCION.SrcIA s' = SCION.SrcIA s ∧ SCION.DstIA s' = SCION.DstIA s ∧ SCION.PathType s' = SCION.PathType s.

Lemma onehop_redecode reg r o0 q s o pkt0 pkt :
  decoded pkt0 s → SCION.Path s = Some (POneHop o0) → onehop_packet s o pkt0 pkt →
  SCION.getPath reg r (SCION.PathType s) = Ok (POneHop q) →
  ∃ s', SCION.DecodeFromBytes reg pkt r = (s', Ok tt) ∧ same_header s s' ∧ SCION.Path s' = Some (POneHop o).
Proof.
  intros Hd Hp [(path & -> & Lp & Ho) _] Hq.
  destruct (decoded_at _ _ Hd) as (pre & b & q' & -> & Lpre & Lb & _).
  destruct (decoded_path _ _ Hd) as (p & Hp' & _ & Hlen). rewrite Hp in Hp'. injection Hp' as <-.
  change (PathLen (POneHop o0)) with 32 in Hlen. change OneHop.PathLen with 32 in *. rewrite len_app in Lb.
  destruct (split_len 32 b) as (b1 & pad & -> & Lb1 & Lpad); [lia|]. rewrite len_app in Lb.
  replace (drop _ _) with (pad ++ SCION.Payload s).
  2:{ rewrite !app_assoc, <- (app_assoc (pre ++ b1)), (drop_len_app _ (pre ++ b1)); [done|].
      unfold path_offset. rewrite len_app. lia. }
  rewrite <- !app_assoc, (app_assoc path).
  exists (decoded_from s (POneHop o) (encode_cmn s ++ encode_addrs s ++ path ++ pad) (SCION.Payload s) r).
  split; [|done]. apply (DecodeFromBytes_encode s reg r (POneHop q) (path ++ pad));
    [apply (decoded_fields _ _ Hd)|rewrite len_app; lia|done|].
  change (Decode (path ++ pad) (POneHop q)) with (POneHop <$> OneHop.DecodeFromBytes (path ++ pad)).
  rewrite onehop_DecodeFromBytes_app by (rewrite Lp; done). by rewrite Ho.
Qed.

Lemma onehop_packet_trans s s' o o' pkt0 pkt pkt' :
  wf_fields s → same_header s s' → onehop_packet s o pkt0 pkt → onehop_packet s' o' pkt pkt' → onehop_packet s o' pkt0 pkt'.
Proof.
  intros Hf (Ec & Ea & Eo & _) [(path & E & Lp & Ho) L] [(path' & E' & Lp' & Ho') L'].
  split; [exists path'|lia]. rewrite Ec, Ea, Eo in E'. split_and!; [|done|done].
  rewrite E'. f_equal. rewrite E. rewrite (drop_len_app _ (encode_cmn s ++ encode_addrs s ++ path)); [done|].
  destruct (wf_RawDstAddr _ Hf) as [_ L1]. destruct (wf_RawSrcAddr _ Hf) as [_ L2].
  rewrite !len_app, len_encode_cmn, (len_encode_addrs s L1 L2), Lp. unfold path_offset. lia.
Qed.

Lemma decodeLayers_header reg p p' u :
  decodeLayers reg p = (p', Continue u) → SCION.DecodeFromBytes reg (rawPkt p) (scionLayer p) = (scionLayer p', Ok tt).
Proof.
  assert (∀ l (m : bytes → P unit) q q' v, (∀ b q q' v, m b q = (q', Continue v) → scionLayer q' = scionLayer q) →
    decode_opt l m q = (q', Continue v) → scionLayer q' = scionLayer q) as Hopt.
  { intros l m q q' v Hm H. unfold decode_opt in H. destruct (bool_decide _); [|by injection H as <-].
    apply P_bind_Continue in H as (q1 & v1 & H1 & ->%update_Continue). exact (Hm _ _ _ _ H1). }
  intros H. unfold decodeLayers in H. apply P_bind_Continue in H as (p1 & u1 & H1 & H).
  apply P_bind_Continue in H as (p2 & u2 & ->%update_Continue & H).
  apply P_bind_Continue in H as (p3 & u3 & H3 & H).
  apply Hopt in H3; [|intros b q q' v Hq; unfold on_hbh in Hq; destruct (HopByHopExtn.DecodeFromBytes _ _); by injection Hq as <- _].
  apply Hopt in H; [|intros b q q' v Hq; unfold on_e2e in Hq; destruct (EndToEndExtnSkipper.DecodeFromBytes _ _); by injection Hq as <- _].
  unfold on_scion in H1. destruct (SCION.DecodeFromBytes _ _ _) as [s [[]| |]]; [|done..]. injection H1 as <- _.
  by rewrite H, H3.
Qed.

End OneHopLemmas.

Module RouterOneHop.

Import Net DataPlane LocalDelivery Processor PacketProcessor StepLemmas RawRefinement PathLemmas
  ProcessLemmas AbstractRouter RouterSimulation ScionHdrLemmas PacketLemmas NoPanicLemmas RouterProperties OneHopLemmas.

Section handler.
Context (reg : Registry.t) (PrependBytes : Z → bytes).
Context (aes_Encrypt : bytes → bytes → bytes) (mac : bytes → bytes).
Context (netip_ParseAddr : gostring → outcome IP.t) (netip_String : IP.t → gostring).
Context (NewPacket : bytes → L4.LayerType → list Layer) (intn : Z → Z).
Context (now : Z) (IsUp : nat → bool).
Context {BFD : Type} (bfd_DecodeFromBytes : bytes → outcome BFD).
Context (order : gmap Z UDPAddr → list (Z * UDPAddr)).

(** A packet with a one-hop path that is passed on went through [processOHP]. *)
Lemma onehop_dispatch p0 pkt src ingress p1 o p' res :
  decodeLayers reg (set_packet pkt src ingress (reset p0)) = (p1, Continue tt) →
  SCION.PathType (scionLayer p1) = OneHop.PathType → SCION.Path (scionLayer p1) = Some (POneHop o) →
  processPkt reg PrependBytes aes_Encrypt mac netip_ParseAddr netip_String NewPacket intn now IsUp
    bfd_DecodeFromBytes order pkt src ingress p0 = (p', Continue (Result res)) →
  (if ingressID p1 =? 0 then ohp_out PrependBytes mac o p1 else ohp_in PrependBytes mac NewPacket intn o p1)
    = (p', Continue res).
Proof.
  intros Hd Ht Hp H. unfold processPkt in H. rewrite (P_bind_eq _ _ _ _ _ Hd) in H.
  unfold dispatch in H. rewrite Ht, Hp in H. change (OneHop.PathType =? EmptyPath.PathType) with false in H.
  change (OneHop.PathType =? OneHop.PathType) with true in H. cbv beta iota zeta in H.
  destruct (bool_decide _).
  - unfold processInterBFD, receive in H. injection H as <- H. revert H. unfold verdict_of.
    repeat (case_match; try done); intros; simplify_eq; go_inv.
  - unfold as_result in H. apply P_bind_Continue in H as (p2 & r & H & [-> [= ->]]%mret_Continue).
    unfold processOHP in H. rewrite Hp in H. destruct (negb _) in H; [done|]. by destruct (_ =? 0).
Qed.

(** The reply to the completed path [o] is a segment that both ASes authorised. *)
Lemma onehop_reply macA macB info first i :
  (∀ b, 16 ≤ len (macA b)) → (∀ b, 16 ≤ len (macB b)) → authentic macA info first → i ≠ 0 →
  let o := OneHop.mk (chained info first) first (second_hop macB (chained info first) first i) in
  let hops := [OneHop.SecondHop o; OneHop.FirstHop o] in
  let infos j := InfoField.mk false false (InfoField.SegID (if (j =? 0)%nat then chained info first else info)) (InfoField.Timestamp info) in
  OneHop.Reverse o = Ok (segment_path hops 0 (infos 0%nat)) ∧
  authorised false hops (λ j, if (j =? 0)%nat then macB else macA) infos.
Proof.
  intros HA HB Hm Hi. cbv zeta. split.
  - unfold OneHop.Reverse, OneHop.ToSCIONDecoded. cbn [OneHop.SecondHop HopField.ConsIngress second_hop].
    rewrite (proj2 (Z.eqb_neq _ _) Hi). done.
  - split.
    + intros [|j] b; [apply HB|apply HA].
    + intros [|[|j]] hop; cbn; intros [= <-]; [reflexivity|exact Hm].
    + done.
    + intros [|[|j]] hop hop'; cbn; intros [= <-] [= <-]. done.
Qed.
End handler.

Section link.
Context (reg : Registry.t) (PrependBytes : Z → bytes) (Hpre : ∀ n, 0 ≤ n → len (PrependBytes n) = n).
Context (netip_ParseAddr : gostring → outcome IP.t) (netip_String : IP.t → gostring).
Context (NewPacket : bytes → L4.LayerType → list Layer).
Context {BFD : Type} (bfd_DecodeFromBytes : bytes → outcome BFD).
Context (order : gmap Z UDPAddr → list (Z * UDPAddr)).

(** One of the two routers, which have their own keys, clocks and links. *)
Let router aes_Encrypt mac intn now IsUp :=
  processPkt reg PrependBytes aes_Encrypt mac netip_ParseAddr netip_String NewPacket intn now IsUp bfd_DecodeFromBytes order.

(** C5: Two routers complete a one-hop path.  When the router of the sender's AS
    sends on a packet with a one-hop path that came from inside, its hop field
    carries the MAC of that AS, the sender is in that AS, the receiver in the AS
    at the other end of the egress link, and only the SegID changes.  When the
    router at the other end delivers what it received on interface [i], the link
    comes from the sender's AS, and the second hop field is filled in with [i] and
    the MAC of its own AS.  The reply that the receiver builds by reversing the
    path is a segment against construction direction which both ASes authorised,
    so that [segment_accepted] applies to it. *)
Theorem onehop_link aesA aesB macA macB intnA intnB nowA nowB IsUpA IsUpB
    pA pB pkt src src' i p1 o q pA' resA pktA pB' resB :
  (∀ b, 16 ≤ len (macA b)) → (∀ b, 16 ≤ len (macB b) ∧ wf_bytes (macB b)) →
  wf_bytes pkt → wf_bytes pktA → is_u16 i → i ≠ 0 →
  decodeLayers reg (set_packet pkt src 0 (reset pA)) = (p1, Continue tt) →
  SCION.PathType (scionLayer p1) = OneHop.PathType → SCION.Path (scionLayer p1) = Some (POneHop o) →
  SCION.getPath reg (scionLayer pB) OneHop.PathType = Ok (POneHop q) →
  router aesA macA intnA nowA IsUpA pkt src 0 pA = (pA', Continue (Result resA)) → OutPkt resA = Some pktA →
  router aesB macB intnB nowB IsUpB pktA src' i pB = (pB', Continue (Result resB)) →
  leaves_by macA p1 o ∧ EgressID resA = HopField.ConsEgress (OneHop.FirstHop o) ∧
  SCION.DstIA (scionLayer p1) = localIA (d pB) ∧ default 0 (neighborIAs (d pB) !! i) = localIA (d pA) ∧ EgressID resB = 0 ∧
  let info := chained (OneHop.Info o) (OneHop.FirstHop o) in
  let o' := OneHop.mk info (OneHop.FirstHop o) (second_hop macB info (OneHop.FirstHop o) i) in
  (∃ pktB, OutPkt resB = Some pktB ∧ onehop_packet (scionLayer p1) o' pkt pktB) ∧
  ∃ infos, let hops := [OneHop.SecondHop o'; OneHop.FirstHop o'] in
    OneHop.Reverse o' = Ok (segment_path hops 0 (infos 0%nat)) ∧
    authorised false hops (λ j, if (j =? 0)%nat then macB else macA) infos.
Proof.
  intros HA HB Hb HbA Hi Hi0 Hd Ht Hp Hq H1 Ho H2.
  destruct (received_decoded _ _ _ _ _ _ _ Hb Hd) as (Hl & Ed & Epkt & _ & Ei & _).
  assert (HoutA := onehop_dispatch reg PrependBytes aesA macA netip_ParseAddr netip_String NewPacket intnA nowA IsUpA
    bfd_DecodeFromBytes order _ _ _ _ _ _ _ _ Hd Ht Hp H1).
  rewrite Ei in HoutA. change (0 =? 0) with true in HoutA. cbv iota in HoutA.
  destruct (decoded_path _ _ (lo_scion _ Hl)) as (o1 & Ho1 & Hw & _). rewrite Hp in Ho1. injection Ho1 as <-.
  destruct (ohp_out_spec PrependBytes Hpre macA HA p1 o Hl Hp Hw) as (_ & _ & S).
  destruct (S _ _ HoutA) as (Hlb & Hpkt & ->). clear S HoutA H1. cbn [OutPkt EgressID] in *. injection Ho as <-.
  rewrite Epkt in Hpkt. set (info := chained (OneHop.Info o) (OneHop.FirstHop o)) in *.
  pose proof H2 as H2'. unfold router, processPkt in H2. apply P_bind_Continue in H2 as (p2 & [] & Hd2 & _).
  destruct (received_decoded _ _ _ _ _ _ _ HbA Hd2) as (Hl2 & Ed2 & Epkt2 & _ & Ei2 & _).
  pose proof (lo_scion _ Hl) as Hs. rewrite Epkt in Hs.
  pose proof (onehop_redecode reg (scionLayer pB) o q _ _ _ _ Hs Hp Hpkt) as Hre. rewrite Ht in Hre.
  destruct (Hre Hq) as (s' & Es' & Hsh & Hp'). clear Hre.
  pose proof (decodeLayers_header _ _ _ _ Hd2) as Es2. cbn [rawPkt scionLayer set_packet reset] in Es2.
  rewrite Es' in Es2. injection Es2 as ->. rename p2 into p2'. set (p2 := p2') in *.
  assert (SCION.PathType (scionLayer p2) = OneHop.PathType) as Ht2 by (rewrite <- Ht; apply Hsh).
  assert (HinB := onehop_dispatch reg PrependBytes aesB macB netip_ParseAddr netip_String NewPacket intnB nowB IsUpB
    bfd_DecodeFromBytes order _ _ _ _ _ _ _ _ Hd2 Ht2 Hp' H2').
  rewrite Ei2, (proj2 (Z.eqb_neq _ _) Hi0) in HinB.
  destruct (decoded_path _ _ (lo_scion _ Hl2)) as (o2 & Ho2 & Hw2 & _). rewrite Hp' in Ho2. injection Ho2 as <-.
  destruct (ohp_in_spec PrependBytes Hpre macB (λ b, proj1 (HB b)) (λ b, proj2 (HB b)) NewPacket intnB p2 _ Hl2 Hp' Hw2)
    as (_ & _ & S); [by rewrite Ei2|].
  destruct (S _ _ HinB) as ([Hdst Hsrc] & Hpkt2 & a & ->). rewrite Ei2, Epkt2 in *. rewrite Ed2 in Hdst, Hsrc.
  destruct Hsh as (Ec & Ea & Eo & Esrc & Edst & Et).
  split_and!; [done|done|by rewrite <- Hdst, Edst| |done| |].
  - rewrite <- Hsrc, Esrc, (lb_src _ _ _ Hlb). by rewrite Ed.
  - cbn [OutPkt]. eexists. split; [done|]. eapply (onehop_packet_trans _ (scionLayer p2)); [apply (decoded_fields _ _ Hs)|by split_and!|exact Hpkt|exact Hpkt2].
  - eexists. apply (onehop_reply macA macB (OneHop.Info o) (OneHop.FirstHop o) i HA (λ b, proj1 (HB b)) (lb_mac _ _ _ Hlb) Hi0).
Qed.
End link.

Import RouterExample.

Lemma onehop_link_witness :
  ∃ hops infos, authorised false hops (λ j, if (j =? 0)%nat then toy_mac 2 else toy_mac 1) infos ∧
    HopField.ConsIngress <$> hops !! 0%nat = Some 3.
Proof.
  destruct (ohp_run1 DrkeyProperties.toy_aes) as [pA' H1].
  destruct (ohp_run2 DrkeyProperties.toy_aes) as (pB' & resB & H2).
  destruct (onehop_link Registry.initial make_bytes len_make_bytes parse_none print_none no_layers bfd_ok map_to_list
    DrkeyProperties.toy_aes DrkeyProperties.toy_aes (toy_mac 1) (toy_mac 2) first_of first_of clock clock up up
    router1 router2 ohp_pkt1 host_addr host_addr 3 ohp_decoded1 onehop1 Registry.onehop_zero pA' ohp_result1 ohp_pkt2 pB' resB
    (toy_mac_enough 1) (λ b, conj (toy_mac_enough 2 b) (toy_mac_wf 2 b)) ohp_pkt1_wf ohp_pkt2_wf)
    as (_ & _ & _ & _ & _ & _ & infos & _ & Hau).
  - by split.
  - discriminate.
  - exact ohp_decodeLayers1.
  - vm_compute. reflexivity.
  - vm_compute. reflexivity.
  - vm_compute. reflexivity.
  - exact H1.
  - reflexivity.
  - exact H2.
  - eexists _, infos. split; [exact Hau|reflexivity].
Defined.

End RouterOneHop.
