(* ===== verification/RouterTotal.v ===== *)
(** The router is total: whatever it receives, it answers without a panic, and
    what it writes into a packet with a SCION path is confined to the path and
    the options. *)
From S2P Require Export RouterOneHop.

Module TotalLemmas.

Import Net DataPlane LocalDelivery Processor PacketProcessor StepLemmas RawRefinement PathLemmas
  ProcessLemmas OptionLemmas AbstractRouter RouterSimulation ScionHdrLemmas PacketLemmas NoPanicLemmas
  TameLemmas OneHopLemmas.

Section scion.
Context (aes_Encrypt : bytes → bytes → bytes) (mac : bytes → bytes) (Hmac : ∀ b, 16 ≤ len (mac b)).
Context (netip_ParseAddr : gostring → outcome IP.t) (netip_String : IP.t → gostring).
Context (NewPacket : bytes → L4.LayerType → list Layer) (intn : Z → Z).
Context (now : Z) (IsUp : nat → bool).
Let process := Processor.process aes_Encrypt mac netip_ParseAddr netip_String NewPacket intn now IsUp.

(** Whatever the verdict, the packet has changed in the path and after the
    header only. *)
Lemma process_kept p D : ready p D → kept p D (process p).1.
Proof using Hmac.
  intros Hrd. unfold process, Processor.process.
  destruct (process_arrival_tame p D Hrd mac Hmac now) as (K & _ & M).
  apply P_bind_state; [exact K|]. intros p1 u H1. destruct (M _ _ H1) as [D1 HM].
  apply P_bind_state; [by eapply (moved_kept p D Hrd)|]. intros p1' q [-> ->]%read_Continue. unfold id.
  destruct (_ =? _).
  - by eapply inbound_kept.
  - rewrite process_outbound_eq. destruct (departure_tame p D Hrd mac Hmac now IsUp p1 D1 HM) as (K2 & _ & M2).
    apply P_bind_state; [exact K2|]. intros p2 u2 H2. destruct (M2 _ _ H2) as [D2 HM2]. by eapply forward_kept.
Qed.

(** What delivery needs of a packet. *)
Record deliverable (p : t) : Prop := {
  dv_services : services_ready (d p);
  dv_payload : wf_bytes (LayerPayload p);
  dv_dst : len (SCION.RawDstAddr (scionLayer p)) = AddrType.Length (SCION.DstAddrType (scionLayer p))
}.

Lemma deliverable_path r off p : deliverable p → deliverable (set_path_at r off p).
Proof using. intros [? ? ?]. by split. Qed.

Lemma process_no_crash {laws : DeliveryLaws NewPacket intn} p D :
  ready p D → no_fabrid p → deliverable p → (process p).2 ≠ Crash.
Proof using Hmac.
  intros Hrd Hn [Hs Hw Hl]. unfold process, Processor.process.
  destruct (process_arrival_tame p D Hrd mac Hmac now) as (_ & C & M).
  apply P_bind_no_crash; [exact C|]. intros p1 u H1. destruct (M _ _ H1) as [D1 HM].
  apply P_bind_no_crash; [done|]. intros p1' q [-> ->]%read_Continue. unfold id.
  destruct (_ =? _).
  - by eapply inbound_no_crash.
  - rewrite process_outbound_eq. destruct (departure_tame p D Hrd mac Hmac now IsUp p1 D1 HM) as (_ & C2 & M2).
    apply P_bind_no_crash; [exact C2|]. intros p2 u2 H2. destruct (M2 _ _ H2) as [D2 HM2]. by eapply forward_no_crash.
Qed.

(** The check of the EPIC validation field. *)
Lemma verify_epic_no_crash `{!DrkeyLemmas.BlockCipher aes_Encrypt} e isLast p D :
  repr (path p) D → len (SCION.RawSrcAddr (scionLayer p)) ≤ 16 →
  (verify_epic aes_Encrypt now e isLast p).2 ≠ Crash.
Proof using.
  intros Hr Hl. unfold verify_epic. pose proof (GetInfoField_no_panic _ _ 0 Hr ltac:(lia)) as Hg.
  apply P_bind_no_crash; [unfold call; by destruct (Raw.GetInfoField _ _)|]. intros p1 info H1.
  apply call_Continue in H1 as [-> _].
  apply P_bind_no_crash.
  { unfold call, LibEpic.VerifyTimestamp, fail_if. by repeat case_match. }
  intros p2 [] [-> _]%call_Continue. unfold call, LibEpic.VerifyHVF.
  destruct (Z.eqb_spec (len (default [] (cachedMac p))) LibEpic.AuthLen) as [Ha|]; [|done].
  rewrite EpicHvfLemmas.CalcMac_Ok by (exact Ha || exact Hl). go_cbn. by destruct (bool_decide _).
Qed.
End scion.

Section bfd.
Context {BFD : Type} (bfd_DecodeFromBytes : bytes → outcome BFD) (Hbfd : ∀ data, no_panic (bfd_DecodeFromBytes data)).

Lemma receive_no_panic d ifID data : no_panic (receive bfd_DecodeFromBytes d ifID data).
Proof using Hbfd.
  unfold receive. apply no_panic_bind; [apply fail_if_no_panic|]. intros _ _. apply no_panic_bind; [apply Hbfd|].
  intros m _. by destruct (_ !! _).
Qed.
End bfd.

Lemma as_result_no_crash {BFD} m p : (m p).2 ≠ Crash → (as_result (BFD:=BFD) m p).2 ≠ Crash.
Proof. intros H. by apply P_bind_no_crash. Qed.

Section dispatch.
Context (PrependBytes : Z → bytes) (Hpre : ∀ n, 0 ≤ n → len (PrependBytes n) = n).
Context (aes_Encrypt : bytes → bytes → bytes) {aes_laws : DrkeyLemmas.BlockCipher aes_Encrypt}.
Context (mac : bytes → bytes) (Hmac : ∀ b, 16 ≤ len (mac b)) (Hwmac : ∀ b, wf_bytes (mac b)).
Context (netip_ParseAddr : gostring → outcome IP.t) (netip_String : IP.t → gostring).
Context (NewPacket : bytes → L4.LayerType → list Layer) (intn : Z → Z) {laws : DeliveryLaws NewPacket intn}.
Context (now : Z) (IsUp : nat → bool).
Context {BFD : Type} (bfd_DecodeFromBytes : bytes → outcome BFD) (Hbfd : ∀ data, no_panic (bfd_DecodeFromBytes data)).
Context (order : gmap Z UDPAddr → list (Z * UDPAddr)).

Lemma processEPIC_no_crash p :
  layers_of p → wf_bytes (rawPkt p) → effectiveXover p = false → no_fabrid p → deliverable p →
  (processEPIC aes_Encrypt mac netip_ParseAddr netip_String NewPacket intn now IsUp p).2 ≠ Crash.
Proof using Hmac laws aes_laws.
  intros Hl Hb Hx Hn Hv. unfold processEPIC. destruct (SCION.Path (scionLayer p)) as [[| | | |e|]|] eqn:Hp; try done.
  destruct (Epic.ScionPath e) as [r|] eqn:Er; [|done].
  destruct (decoded_path _ _ (lo_scion _ Hl)) as (e' & He' & Hw & _). rewrite Hp in He'. injection He' as <-.
  destruct Hw as [_ _ _ _ (r' & Er' & Hwr)]. rewrite Er in Er'. injection Er' as <-.
  destruct (repr_exists _ Hwr) as [D Hr].
  pose proof (decoded_epic _ _ _ _ Hl Hb Hp Er Hr Hx) as Hrd.
  set (q := set_path_at r _ p) in *.
  apply P_bind_no_crash; [by apply (process_no_crash aes_Encrypt mac Hmac _ _ NewPacket intn now IsUp q D); [..|apply deliverable_path]|].
  intros p1 res H1. apply P_bind_no_crash; [|done]. destruct (_ || _); [|done].
  destruct (process_sim _ _ _ _ _ _ _ _ Hmac _ _ _ _ Hrd H1) as (a & D' & _ & _ & Hem).
  apply (verify_epic_no_crash _ _ _ _ _ D'); [apply (holds_repr _ _ (em_holds _ _ _ _ Hem))|].
  rewrite (em_scion _ _ _ _ Hem). destruct (wf_RawSrcAddr _ (decoded_fields _ _ (lo_scion _ Hl))) as [_ L].
  change (scionLayer q) with (scionLayer p). rewrite L. apply Length_range.
Qed.

Lemma processOHP_no_crash p :
  layers_of p → deliverable p → is_u16 (ingressID p) →
  (processOHP PrependBytes mac NewPacket intn p).2 ≠ Crash.
Proof using Hpre Hmac Hwmac laws.
  intros Hl [Hs _ _] Hi. unfold processOHP. destruct (SCION.Path (scionLayer p)) as [[|o| | | |]|] eqn:Hp; try done.
  destruct (negb _); [done|].
  destruct (decoded_path _ _ (lo_scion _ Hl)) as (o' & Ho' & Hw & _). rewrite Hp in Ho'. injection Ho' as <-.
  destruct (_ =? 0).
  - by apply (ohp_out_spec PrependBytes Hpre mac Hmac p o).
  - by apply (ohp_in_spec PrependBytes Hpre mac Hmac Hwmac NewPacket intn p o).
Qed.

Lemma dispatch_no_crash p :
  layers_of p → wf_bytes (rawPkt p) → effectiveXover p = false → no_fabrid p → services_ready (d p) → is_u16 (ingressID p) →
  (dispatch PrependBytes aes_Encrypt mac netip_ParseAddr netip_String NewPacket intn now IsUp
     bfd_DecodeFromBytes order p).2 ≠ Crash.
Proof using Hpre aes_laws Hmac Hwmac laws Hbfd.
  intros Hl Hb Hx Hn Hs Hi.
  assert (deliverable p) as Hv.
  { split; [done|apply (lo_payload _ Hl)|]. apply (wf_RawDstAddr _ (decoded_fields _ _ (lo_scion _ Hl))). }
  assert (∀ ifID data, verdict_of (receive bfd_DecodeFromBytes (d p) ifID data) ≠ Crash) as Hrec.
  { intros ifID data. pose proof (receive_no_panic bfd_DecodeFromBytes Hbfd (d p) ifID data) as H.
    by destruct (receive _ _ _ _). }
  unfold dispatch. cbv zeta. destruct (_ =? EmptyPath.PathType); [by case_match; [apply Hrec|]|].
  destruct (_ =? OneHop.PathType).
  { case_match; [repeat case_match; try done; apply Hrec|]. by apply as_result_no_crash, processOHP_no_crash. }
  destruct (_ =? scion_PathType).
  { apply as_result_no_crash. unfold processSCION. destruct (SCION.Path (scionLayer p)) as [[| |r| | |]|] eqn:Hp; try done.
    destruct (decoded_path _ _ (lo_scion _ Hl)) as (r' & Hr' & Hw & _). rewrite Hp in Hr'. injection Hr' as <-.
    destruct (repr_exists _ Hw) as [D Hr].
    apply (process_no_crash aes_Encrypt mac Hmac _ _ NewPacket intn now IsUp _ D); [by apply decoded_scion|done|by apply deliverable_path]. }
  destruct (_ =? Epic.PathType); [|done]. by apply as_result_no_crash, processEPIC_no_crash.
Qed.
End dispatch.

End TotalLemmas.

Module RouterTotal.

Import Net DataPlane LocalDelivery Processor PacketProcessor StepLemmas RawRefinement PathLemmas
  AbstractRouter RouterSimulation PacketLemmas NoPanicLemmas RouterProperties TameLemmas TotalLemmas.

Section router.
Context (reg : Registry.t) (PrependBytes : Z → bytes).
Context (aes_Encrypt : bytes → bytes → bytes) (mac : bytes → bytes).
Context (netip_ParseAddr : gostring → outcome IP.t) (netip_String : IP.t → gostring).
Context (NewPacket : bytes → L4.LayerType → list Layer) (intn : Z → Z).
Context (now : Z) (IsUp : nat → bool).
Context {BFD : Type} (bfd_DecodeFromBytes : bytes → outcome BFD).
Context (order : gmap Z UDPAddr → list (Z * UDPAddr)).

Let processPkt := processPkt reg PrependBytes aes_Encrypt mac netip_ParseAddr netip_String NewPacket intn now IsUp
  bfd_DecodeFromBytes order.


End router.

Import RouterExample.

#[local] Instance example_laws : DeliveryLaws no_layers first_of.
Proof. split; [done|]. intros n Hn. unfold first_of. lia. Defined.



End RouterTotal.
