(* ===== verification/RouterSpao.v ===== *)
(** The packet authenticator across a router: what a router changes in the path
    is what the authenticated data leaves out. *)
From S2P Require Import RouterProperties Spao.

Module SpaoRouting.

Import Net DataPlane LocalDelivery Processor StepLemmas RawRefinement PathLemmas ProcessLemmas AbstractRouter Spao SpaoLemmas SpaoProperties.

(** Two paths that differ in their mutable fields only. *)
Definition alike (D D' : Decoded.t) : Prop := still D = still D' ∧ Decoded.wf D'.

Lemma alike_trans D D1 D2 : alike D D1 → alike D1 D2 → alike D D2.
Proof. intros [E _] [E' H]. split; [by rewrite E|done]. Qed.

Lemma alike_chained D info hop :
  Decoded.wf D → cur_info D = Some info → HopField.wf hop → alike D (store_cur_info (chained info hop) D).
Proof.
  intros Hw Hi Hh. assert (InfoField.wf info) as Hwi by (eapply Forall_lookup_1; [apply Hw|exact Hi]).
  split.
  - unfold still, store_cur_info, with_InfoField. cbn [Decoded.base Decoded.InfoFields Decoded.HopFields]. f_equal.
    rewrite list_fmap_insert. symmetry. apply list_insert_id. unfold cur_info in Hi. by rewrite list_lookup_fmap, Hi.
  - destruct Hw as [Hb Li Lh Fi Fh]. split; [exact Hb| |exact Lh| |exact Fh]; cbn [store_cur_info with_InfoField Decoded.base Decoded.InfoFields].
    + unfold len in *. by rewrite length_insert.
    + apply Forall_insert; [done|by apply chained_wf].
Qed.

Lemma alike_inc D D' : Decoded.wf D → Decoded.IncPath D = (D', Ok tt) → alike D D'.
Proof.
  intros [Hb Li Lh Fi Fh] H. unfold Decoded.IncPath, zoom in H.
  destruct (Base.IncPath (Decoded.base D)) as [b r] eqn:E. injection H as <- ->.
  pose proof (Base.IncPath_wf _ _ _ Hb E) as Hb'.
  assert (still_meta (Base.PathMeta b) = still_meta (Base.PathMeta (Decoded.base D)) ∧
    Base.NumINF b = Base.NumINF (Decoded.base D) ∧ Base.NumHops b = Base.NumHops (Decoded.base D)) as (E1 & E2 & E3).
  { unfold Base.IncPath in E. repeat case_match; simplify_eq; done. }
  split.
  - unfold still, Decoded.set_base. cbn [Decoded.base Decoded.InfoFields Decoded.HopFields]. by rewrite E1, E2, E3.
  - unfold Decoded.set_base. split; cbn [Decoded.base Decoded.InfoFields Decoded.HopFields]; congruence || done.
Qed.

Section router.
Context (mac : bytes → bytes) (now : Z) (IsUp : nat → bool).
Context (NewPacket : bytes → L4.LayerType → list Layer) (intn : Z → Z).

Lemma alike_arrived p D info hop peer :
  Decoded.wf D → admitted mac now p D info hop peer → alike D (arrived p D info hop peer).
Proof.
  intros Hw [Hi Hh _ _ _ _ _ _ _]. unfold arrived. case_match; [|done]. apply alike_chained; [done..|].
  eapply Forall_lookup_1; [apply Hw|exact Hh].
Qed.

Lemma alike_changes peer D xover D' : Decoded.wf D → changes_segment mac now peer D xover D' → alike D D'.
Proof. intros Hw [|D1 info hop _ H _ _ _]; [done|by apply alike_inc]. Qed.

Lemma routes_alike p D a D' : Decoded.wf D → routes mac now IsUp NewPacket intn p D a D' → alike D D'.
Proof.
  intros Hw [info hop peer a' Ha _ _|info hop peer xover D2 info2 hop2 egress D3 Ha _ Hc Hi Hh _ _ Hl
            |info hop peer xover D2 info2 hop2 egress a' Ha _ Hc _ _ _ _ _];
    pose proof (alike_arrived _ _ _ _ _ Hw Ha) as A; [done| |].
  - eapply alike_trans; [exact A|]. pose proof (alike_changes _ _ _ _ (proj2 A) Hc) as A2.
    eapply alike_trans; [exact A2|]. unfold leaves in Hl. destruct (_ && _); [|by apply alike_inc; [apply A2|]].
    assert (alike D2 (store_cur_info (chained info2 hop2) D2)) as A3.
    { apply alike_chained; [apply A2|done|]. eapply Forall_lookup_1; [apply A2|exact Hh]. }
    eapply alike_trans; [exact A3|]. apply alike_inc; [apply A3|done].
  - eapply alike_trans; [exact A|]. by eapply alike_changes; [apply A|].
Qed.

(** A path in the header of a packet that is authenticated. *)
Definition carries (q : Path) (D : Decoded.t) : Prop :=
  q = PDecoded D ∨ q = PScion (Raw.mk (Decoded.base D) (Some (Decoded.encode D))).

Lemma carries_authenticates q D : Decoded.wf D → carries q D → authenticates q (Decoded.encode (still D)).
Proof.
  intros Hw [-> | ->]; [by constructor|]. destruct (decoded_parts D Hw) as (Hp & -> & ->). by constructor.
Qed.

Lemma carries_len q D : Decoded.wf D → carries q D → PathLen q = len (Decoded.encode (still D)).
Proof. intros Hw H. symmetry. by apply authenticates_len, carries_authenticates. Qed.

(** C34: The packet authenticator survives forwarding.  When a router sends, relays
    or delivers a packet, the tag that is computed over the packet with the path it
    leaves is the tag computed over the packet with the path it came with, under
    any key, index and payload, and whatever the scratch buffers of the two
    computations held. *)
Theorem spao_survives_routing p D a D' (aes_Encrypt : bytes → bytes → bytes) cmac_Sum key block o opts pldType pld q q' buf buf' :
  routes mac now IsUp NewPacket intn p D a D' → Decoded.wf D → carries q D → carries q' D' →
  AES.NewCipher aes_Encrypt key = Ok block → reads o opts →
  authenticable (SCION.set_Path q (scionLayer p)) opts pldType q (Decoded.encode (still D)) →
  MACBufferSize ≤ len buf → MACBufferSize ≤ len buf' →
  ∃ tag s1 b1 s2 b2,
    ComputeAuthCMAC aes_Encrypt cmac_Sum (mkInput key o (SCION.set_Path q (scionLayer p)) pldType pld) buf = (s1, Ok (b1, tag)) ∧
    ComputeAuthCMAC aes_Encrypt cmac_Sum (mkInput key o (SCION.set_Path q' (scionLayer p)) pldType pld) buf' = (s2, Ok (b2, tag)).
Proof.
  intros Hr Hw Hq Hq' Hk Ho Ha Hb Hb'. destruct (routes_alike _ _ _ _ Hw Hr) as [Es Hw'].
  assert (PathLen q' = PathLen q) as El by (by rewrite (carries_len _ _ Hw' Hq'), (carries_len _ _ Hw Hq), Es).
  assert (authenticable (SCION.set_Path q' (scionLayer p)) opts pldType q' (Decoded.encode (still D))) as Ha'.
  { pose proof (carries_authenticates _ _ Hw' Hq') as Hc. rewrite <- Es in Hc.
    destruct Ha as [Hf _ _ Hm Hl Hp Ht Hu]. unfold hdr_len in *.
    split; [|done|exact Hc|unfold hdr_len; by rewrite El|unfold hdr_len; by rewrite El|done..]. destruct Hf. by split. }
  destruct (ComputeAuthCMAC_Ok aes_Encrypt cmac_Sum key block _ o opts pldType pld buf _ _ Hk Ho Ha Hb) as (r1 & t1 & E1 & _).
  destruct (ComputeAuthCMAC_Ok aes_Encrypt cmac_Sum key block _ o opts pldType pld buf' _ _ Hk Ho Ha' Hb') as (r2 & t2 & E2 & _).
  rewrite E1, E2. do 5 eexists. split; [reflexivity|]. unfold hdr_len. rewrite El. reflexivity.
Qed.
End router.

(** ** A packet at work *)
Import RouterExample.

Lemma authenticable1 :
  authenticable (SCION.set_Path (PDecoded (segment 0 info1)) (scionLayer processor1)) params_w 17 (PDecoded (segment 0 info1))
    (Decoded.encode (still (segment 0 info1))).
Proof.
  split; [|done|constructor; exact segment_wf|vm_compute; discriminate|reflexivity|exact params_w_wf|reflexivity|done].
  constructor; vm_compute; repeat split; try discriminate; repeat constructor; discriminate.
Qed.

Lemma spao_survives_routing_witness :
  ∃ D' tag s1 b1 s2 b2,
    ComputeAuthCMAC DrkeyProperties.toy_aes (λ f b, f (take 16 b))
      (mkInput (make_bytes 16) option_w (SCION.set_Path (PDecoded (segment 0 info1)) (scionLayer processor1)) 17 [1; 2; 3])
      (make_bytes 1032) = (s1, Ok (b1, tag)) ∧
    ComputeAuthCMAC DrkeyProperties.toy_aes (λ f b, f (take 16 b))
      (mkInput (make_bytes 16) option_w (SCION.set_Path (PDecoded D') (scionLayer processor1)) 17 [1; 2; 3])
      (make_bytes 1040) = (s2, Ok (b2, tag)).
Proof.
  destruct RouterProperties.routes1 as (D' & Hr & _). exists D'.
  apply (spao_survives_routing (toy_mac 1) clock up no_layers first_of processor1 (segment 0 info1) (Send 2) D'
    DrkeyProperties.toy_aes (λ f b, f (take 16 b)) (make_bytes 16) (DrkeyProperties.toy_aes (make_bytes 16)) option_w params_w 17 [1; 2; 3]
    (PDecoded (segment 0 info1)) (PDecoded D') (make_bytes 1032) (make_bytes 1040) Hr segment_wf).
  - left. reflexivity.
  - left. reflexivity.
  - reflexivity.
  - split; vm_compute; reflexivity.
  - exact authenticable1.
  - vm_compute. discriminate.
  - vm_compute. discriminate.
Defined.

End SpaoRouting.
