(* ===== verification/RouterSlowPath.v ===== *)
(** The slow path of the router, [router/dataplane.go]: SCMP errors and traceroute
    replies, with their authentication, and the serialize buffer they are written
    to. *)
From S2P Require Export RouterPacket Spao.

(** * The serialize buffer of gopacket *)

(** What the slow path uses of [github.com/google/gopacket]: the bytes that
    [PrependBytes] returns, [SerializeLayers] on the [SerializeTo] methods of the
    layers, and the payload layer. *)
Class GoPacket := {
  PrependBytes : Z → bytes;
  SerializeLayers : list (bytes → outcome bytes) → outcome bytes;
  Payload_SerializeTo : bytes → bytes → outcome bytes
}.

(** Their documented behaviour: [SerializeLayers] clears the buffer and runs the
    layers from the last to the first. *)
Class GoPacketLaws `(GoPacket) : Prop := {
  len_PrependBytes n : 0 ≤ n → len (PrependBytes n) = n;
  SerializeLayers_eq ls : SerializeLayers ls = foldr (λ l b, b ≫= l) (Ok []) ls;
  Payload_SerializeTo_eq p b : Payload_SerializeTo p b = Ok (p ++ b)
}.

(** * The slow path *)
Module SlowPath.

Import Net DataPlane Processor.

#[export] Existing Instance L4.LayerType_eq_dec.

Definition e2eAuthHdrLen : Z := 32.
Definition zeroBuffer : bytes := make_bytes 16.
Definition PacketAuthCMAC : Z := 0.
Definition drkey_SCMP : Z := 1.

(** The state of a slow-path processor.  The bytes of the raw path of [scionLayer]
    are a window of [rawPkt].  The serialize buffer is cleared before it is used. *)
Record t := mk {
  d : DataPlane.t;
  ingressID : Z;
  rawPkt : bytes;
  srcAddr : UDPAddr;
  scionLayer : SCION.t;
  hbhLayer : Extn.t;
  e2eLayer : Extn.t;
  lastLayer : layer;
  path : option Raw.t;
  macInputBuffer : bytes;
  optAuth : TLV.t;
  validAuthBuf : bytes
}.

Definition set_packet (ingress : Z) (src : UDPAddr) (pkt : bytes) (p : t) : t :=
  mk (d p) ingress pkt src (scionLayer p) (hbhLayer p) (e2eLayer p) (lastLayer p) (path p)
    (macInputBuffer p) (optAuth p) (validAuthBuf p).
Definition set_rawPkt (x : bytes) (p : t) : t := set_packet (ingressID p) (srcAddr p) x p.
Definition set_layers (s : SCION.t) (h e : Extn.t) (l : layer) (p : t) : t :=
  mk (d p) (ingressID p) (rawPkt p) (srcAddr p) s h e l (path p) (macInputBuffer p) (optAuth p) (validAuthBuf p).
Definition set_scion (s : SCION.t) (p : t) : t := set_layers s (hbhLayer p) (e2eLayer p) (lastLayer p) p.
Definition set_hbh (h : Extn.t) (p : t) : t := set_layers (scionLayer p) h (e2eLayer p) (lastLayer p) p.
Definition set_e2e (e : Extn.t) (p : t) : t := set_layers (scionLayer p) (hbhLayer p) e (lastLayer p) p.
Definition set_last (l : layer) (p : t) : t := set_layers (scionLayer p) (hbhLayer p) (e2eLayer p) l p.
Definition set_path (r : option Raw.t) (p : t) : t :=
  mk (d p) (ingressID p) (rawPkt p) (srcAddr p) (scionLayer p) (hbhLayer p) (e2eLayer p) (lastLayer p) r
    (macInputBuffer p) (optAuth p) (validAuthBuf p).
Definition set_bufs (aux : bytes) (opt : TLV.t) (valid : bytes) (p : t) : t :=
  mk (d p) (ingressID p) (rawPkt p) (srcAddr p) (scionLayer p) (hbhLayer p) (e2eLayer p) (lastLayer p) (path p)
    aux opt valid.
Definition set_optAuth (opt : TLV.t) (p : t) : t := set_bufs (macInputBuffer p) opt (validAuthBuf p) p.

Definition reset (p : t) : t := set_path None (set_layers (scionLayer p) Extn.zero Extn.zero (lastLayer p) p).

Definition LayerPayload (p : t) : bytes :=
  match lastLayer p with
  | LSCION => SCION.Payload (scionLayer p)
  | LHopByHop => Extn.Payload (hbhLayer p)
  | LEndToEnd => Extn.Payload (e2eLayer p)
  end.
Definition NextLayerType (p : t) : L4.LayerType :=
  match lastLayer p with
  | LSCION => SCION.NextLayerType (scionLayer p)
  | LHopByHop => HopByHopExtnSkipper.NextLayerType (hbhLayer p)
  | LEndToEnd => EndToEndExtnSkipper.NextLayerType (e2eLayer p)
  end.
Definition CanDecode (l : layer) : L4.LayerType :=
  match l with
  | LSCION => L4.LayerTypeSCION
  | LHopByHop => L4.LayerTypeHopByHopExtn
  | LEndToEnd => L4.LayerTypeEndToEndExtn
  end.

Definition decode_opt (l : layer) (decode : bytes → SE t unit) : SE t unit := λ p,
  if bool_decide (NextLayerType p = CanDecode l) then (_ ← decode (LayerPayload p); modify (set_last l)) p
  else (p, Ok tt).

(** ** The raw path of the packet *)

Abbreviation path_offset := PacketProcessor.path_offset.

(** Writes the bytes of the raw path to the packet they are a window of. *)
Definition alias (p : t) : t :=
  match SCION.Path (scionLayer p) with
  | Some (PScion r) => set_rawPkt (write_window (path_offset (scionLayer p)) (Raw.raw_bytes r) (rawPkt p)) p
  | Some (PEpic e) =>
      match Epic.ScionPath e with
      | Some r => set_rawPkt (write_window (path_offset (scionLayer p) + Epic.MetadataLen) (Raw.raw_bytes r) (rawPkt p)) p
      | None => p
      end
  | _ => p
  end.

(** Runs a method on the raw path that [prepareSCMP] finds in the header. *)
Definition on_raw {A} (m : SE Raw.t A) : SE t A := λ p,
  match SCION.Path (scionLayer p) with
  | Some (PScion r) =>
      let '(r, x) := m r in (alias (set_scion (SCION.set_Path (PScion r) (scionLayer p)) p), x)
  | Some (PEpic e) =>
      match Epic.ScionPath e with
      | Some r =>
          let '(r, x) := m r in
          (alias (set_scion (SCION.set_Path (PEpic (Epic.mk (Epic.PktId e) (Epic.PHVF e) (Epic.LHVF e) (Some r))) (scionLayer p)) p), x)
      | None => (p, Panic)
      end
  | Some _ => (p, Err cannotRoute)
  | None => (p, Panic)
  end.

(** ** The path of the reply *)

Definition IncPath (D : Decoded.t) : outcome Decoded.t :=
  match Decoded.IncPath D with
  | (D, Ok _) => Ok D
  | (_, Err e) => Err e
  | (_, Panic) => Panic
  end.

Definition update_segID (D : Decoded.t) (inf : InfoField.t) : outcome Decoded.t :=
  let m := Base.PathMeta (Decoded.base D) in
  hopField ← get (Decoded.HopFields D) (MetaHdr.CurrHF m);
  inf ← InfoField.UpdateSegID inf (HopField.Mac hopField);
  infos ← put (Decoded.InfoFields D) (MetaHdr.CurrINF m) inf;
  Ok (Decoded.mk (Decoded.base D) infos (Decoded.HopFields D)).

(** [external]: the packet came over an external interface. *)
Definition reply_path (external : bool) (decPath : Decoded.t) : outcome Decoded.t :=
  revPath ← wrap_err "reversing path for SCMP" (Decoded.Reverse decPath);
  let m := Base.PathMeta (Decoded.base revPath) in
  inf ← get (Decoded.InfoFields revPath) (MetaHdr.CurrINF m);
  peering ← wrap_err "peering cannot be determined" (peer_of m inf);
  revPath ← (if Base.IsXover (Decoded.base revPath) && negb peering
             then wrap_err "reverting cross over for SCMP" (IncPath revPath) else Ok revPath);
  if external then
    inf ← get (Decoded.InfoFields revPath) (MetaHdr.CurrINF (Base.PathMeta (Decoded.base revPath)));
    revPath ← (if InfoField.ConsDir inf && negb peering then update_segID revPath inf else Ok revPath);
    wrap_err "incrementing path for SCMP" (IncPath revPath)
  else Ok revPath.

(** ** The header of the reply *)

Definition exec (m : SE SCION.t unit) (s : SCION.t) : outcome SCION.t :=
  match m s with
  | (s, Ok _) => Ok s
  | (_, Err e) => Err e
  | (_, Panic) => Panic
  end.

Definition set_NextHdr (n : Z) (s : SCION.t) : SCION.t :=
  SCION.set_cmn (SCION.Version s) (SCION.TrafficClass s) (SCION.FlowID s) n (SCION.HdrLen s) (SCION.PayloadLen s)
    (SCION.PathType s) (SCION.DstAddrType s) (SCION.SrcAddrType s) s.

Definition reply_header (s : SCION.t) (localIA : Z) (internalIP : IP.t) (revPath : Decoded.t) : outcome SCION.t :=
  let scionL := SCION.mk 0 (SCION.TrafficClass s) (SCION.FlowID s) 0 0 0 scion_PathType 0 0
                  (SCION.SrcIA s) localIA [] [] (Some (PDecoded revPath)) None [] [] in
  srcA ← wrap_err "extracting src addr" (SCION.SrcAddr s);
  scionL ← wrap_err "setting dest addr" (exec (SCION.SetDstAddr srcA) scionL);
  scionL ← wrap_err "setting src addr" (exec (SCION.SetSrcAddr (Host.HostIP internalIP)) scionL);
  Ok (set_NextHdr L4.SCMP scionL).

(** ** The quote *)

(** The length of the headers in front of the quote. *)
Definition quote_offset (scionL : SCION.t) (revPath : Decoded.t) (needsAuth : bool) (typ : Z) : Z :=
  let hdrLen := SCION.CmnHdrLen + SCION.AddrHdrLen scionL + Decoded.Len revPath in
  let hdrLen := if needsAuth then hdrLen + e2eAuthHdrLen else hdrLen in
  if typ =? TypeCode.SCMPTypeExternalInterfaceDown then hdrLen + 20
  else if typ =? TypeCode.SCMPTypeInternalConnectivityDown then hdrLen + 28
  else hdrLen + 8.

Definition quote_of (pkt : bytes) (hdrLen : Z) : outcome bytes :=
  let maxQuoteLen := SCMP.MaxSCMPPacketLen - hdrLen in
  if maxQuoteLen <? len pkt then sub pkt 0 maxQuoteLen else Ok pkt.

(** The messages that the slow path sends. *)
Inductive message :=
| MParameterProblem (m : ParameterProblem.t)
| MDestinationUnreachable (m : DestinationUnreachable.t)
| MExternalInterfaceDown (m : ExternalInterfaceDown.t)
| MInternalConnectivityDown (m : InternalConnectivityDown.t)
| MTraceroute (m : Traceroute.t).

Definition sopts : SCION.SerializeOptions := SCION.mkOpts true true.

Section slow.
Context (reg : Registry.t) `{GoPacket}.
Context (aes_Encrypt : bytes → bytes → bytes) (cmac_Sum : (bytes → bytes) → bytes → bytes).
(** The provider of the keys, [time.Now()], the flag [ExperimentalSCMPAuthentication]
    of the data plane and the capacity of the packet's buffer. *)
Context (drkeyProvider : KeyWindow.FakeProvider) (now : Z) (authentication : bool) (capacity : Z).

Definition message_SerializeTo (m : message) (b : bytes) : outcome bytes :=
  match m with
  | MParameterProblem m => msg_SerializeTo PrependBytes b m
  | MDestinationUnreachable m => msg_SerializeTo PrependBytes b m
  | MExternalInterfaceDown m => msg_SerializeTo PrependBytes b m
  | MInternalConnectivityDown m => msg_SerializeTo PrependBytes b m
  | MTraceroute m => msg_SerializeTo PrependBytes b m
  end.

(** The nil interface value has no methods. *)
Definition layer_SerializeTo (m : option message) (b : bytes) : outcome bytes :=
  match m with Some m => message_SerializeTo m b | None => Panic end.

Definition decodeLayers (data : bytes) : SE t unit := λ p,
  (_ ← zoom scionLayer set_scion (SCION.DecodeFromBytes reg data);
   _ ← modify (set_last LSCION);
   _ ← decode_opt LHopByHop (λ data, zoom hbhLayer set_hbh (HopByHopExtnSkipper.DecodeFromBytes data));
   decode_opt LEndToEnd (λ data, zoom e2eLayer set_e2e (EndToEndExtnSkipper.DecodeFromBytes data))) p.

(** ** Authentication *)

Definition resetSPAOMetadata (key : KeyWindow.ASHostKey) : SE t unit :=
  spi ← lift (PacketAuth.MakePacketAuthSPIDRKey drkey_SCMP PacketAuth.PacketAuthASHost PacketAuth.PacketAuthSenderSide);
  timestamp ← lift (Spao.RelativeTimestamp (KeyWindow.NotBefore (KeyWindow.KeyEpoch key)) now);
  zoom optAuth set_optAuth (PacketAuth.Reset (PacketAuth.mkParams spi PacketAuthCMAC timestamp zeroBuffer) []).

(** The option of the packet's extension header and the key to verify it with. *)
Definition received_auth (p : t) : outcome (TLV.t * KeyWindow.ASHostKey) :=
  let '(e, r) := EndToEndExtn.DecodeFromBytes (Extn.Contents (e2eLayer p)) Extn.zero in
  _ ← r;
  e2eOption ← Extn.FindOption e TLV.OptTypeAuthenticator;
  authOption ← PacketAuth.ParsePacketAuthOption e2eOption;
  _ ← SCION.SrcAddr (scionLayer p);
  timestamp ← PacketAuth.get_TimestampSN authOption;
  key ← KeyWindow.GetKeyWithinAcceptanceWindow drkeyProvider now timestamp;
  Ok (authOption, key).

(** Any error means that there is no valid authenticator. *)
Definition hasValidAuth : SE t bool := λ p,
  if negb (bool_decide (CanDecode (lastLayer p) = L4.LayerTypeEndToEndExtn)) then (p, Ok false) else
  match received_auth p with
  | Err _ => (p, Ok false)
  | Panic => (p, Panic)
  | Ok (authOption, key) =>
      let '(s, r) := Spao.ComputeAuthCMAC aes_Encrypt cmac_Sum
        (Spao.mkInput (KeyWindow.Key key) authOption (scionLayer p) L4.SCMP (LayerPayload p)) (macInputBuffer p) in
      let p := alias (set_scion s p) in
      match r with
      | Err _ => (p, Ok false)
      | Panic => (p, Panic)
      | Ok (aux, tag) =>
          let valid := copy (validAuthBuf p) tag in
          (set_bufs aux (optAuth p) valid p,
           authenticator ← PacketAuth.Authenticator authOption; Ok (bool_decide (authenticator = valid)))
      end
  end.

(** The extension header with the authenticator in front of the message [pld]:
    the header of the packet and the new contents of the buffer. *)
Definition authenticate (scionL : SCION.t) (pld : bytes) : SE t (SCION.t * bytes) :=
  let scionL := set_NextHdr L4.End2EndClass scionL in
  key ← lift (wrap_err "retrieving DRKey" (KeyWindow.GetASHostKey drkeyProvider now));
  _ ← wrap_errS "resetting SPAO header" (resetSPAOMetadata key);
  p ← gets id;
  let '(scionL, r) := Spao.ComputeAuthCMAC aes_Encrypt cmac_Sum
    (Spao.mkInput (KeyWindow.Key key) (optAuth p) scionL L4.SCMP pld) (macInputBuffer p) in
  '(aux, tag) ← lift (wrap_err "computing CMAC" r);
  data ← lift (on_sub_from (TLV.OptData (optAuth p)) PacketAuth.PacketAuthOptionMetadataLen (λ b, Ok (copy b tag)));
  let o := optAuth p in
  let o := TLV.mk (TLV.OptType o) (TLV.OptDataLen o) (TLV.ActualLength o) data (TLV.OptAlign o) in
  let '(e2e, r) := EndToEndExtn.SerializeTo PrependBytes pld sopts (Extn.mk [] [] L4.SCMP 0 0 [o]) in
  _ ← modify (λ p, set_bufs aux (default o (head (Extn.Options e2e))) (validAuthBuf p) p);
  buf ← lift (wrap_err "serializing SCION E2E headers" r);
  mret (scionL, buf).

(** ** SCMP *)

Definition needs_auth (typeCode : Z) (cause : option error) : SE t bool :=
  if authentication then
    match cause with
    | Some _ => mret true
    | None => if TypeCode.Type_ typeCode =? TypeCode.SCMPTypeTracerouteReply then hasValidAuth else mret false
    end
  else mret false.

Definition prepareSCMP (typ code : Z) (scmpP : option message) (cause : option error) : SE t bytes :=
  decPath ← wrap_errS "decoding raw path" (on_raw Raw.ToDecoded);
  p ← gets id;
  revPath ← lift (reply_path (bool_decide (is_Some (external (d p) !! ingressID p))) decPath);
  scionL ← lift (reply_header (scionLayer p) (localIA (d p)) (internalIP (d p)) revPath);
  typeCode ← lift (TypeCode.CreateSCMPTypeCode typ code);
  let scmpH := SCMP.SetNetworkLayerForChecksum scionL (SCMP.mk (BaseLayer.mk [] []) typeCode 0 None) in
  needsAuth ← needs_auth typeCode cause;
  p ← gets id;
  quote ← lift (match cause with
                | Some _ => quote_of (rawPkt p) (quote_offset scionL revPath needsAuth (TypeCode.Type_ typeCode))
                | None => Ok []
                end);
  msg ← lift (wrap_err "serializing SCMP message"
                (SerializeLayers [(λ b, (SCMP.SerializeTo PrependBytes b sopts scmpH).2); layer_SerializeTo scmpP;
                                  Payload_SerializeTo quote]));
  r ← (if (needsAuth : bool) then authenticate scionL msg else (mret (scionL, msg) : SE t (SCION.t * bytes)));
  let '(scionL, buf) := r in
  lift (wrap_err "serializing SCION header" (SCION.SerializeTo PrependBytes buf sopts scionL).2).

(** The upper layer is an SCMP message: its header. *)
Definition decode_scmp (p : t) : outcome SCMP.t :=
  let '(h, r) := SCMP.DecodeFromBytes (LayerPayload p) (SCMP.mk (BaseLayer.mk [] []) 0 0 None) in
  _ ← r; Ok h.

Definition packSCMP (typ code : Z) (scmpP : option message) (cause : option error) : SE t processResult :=
  p ← gets id;
  _ ← lift (if bool_decide (NextLayerType p = L4.LayerTypeSCMP) then
              scmpLayer ← wrap_err "decoding SCMP layer" (decode_scmp p);
              fail_if (negb (TypeCode.InfoMsg (SCMP.TypeCode scmpLayer))) (New "SCMP error for SCMP error pkt -> DROP")
            else Ok tt);
  rawSCMP ← prepareSCMP typ code scmpP cause;
  _ ← lift (if capacity <? len rawSCMP then Panic else Ok ());
  _ ← modify (set_rawPkt rawSCMP);
  p ← gets id;
  mret (mkResult (ingressID p) (Some (srcAddr p)) (Some (rawPkt p)) 0).

Definition no_result : processResult := mkResult 0 None None 0.

(** The traceroute request that the packet holds. *)
Definition traceroute_request (p : t) : outcome Traceroute.t :=
  _ ← fail_if (negb (bool_decide (NextLayerType p = L4.LayerTypeSCMP))) (New "Packet with router alert, but not SCMP");
  scmpH ← decode_scmp p;
  request ← TypeCode.CreateSCMPTypeCode TypeCode.SCMPTypeTracerouteRequest 0;
  _ ← fail_if (negb (SCMP.TypeCode scmpH =? request)) (New "Packet with router alert, but not traceroute request");
  Traceroute.DecodeFromBytes (BaseLayer.Payload (SCMP.base scmpH)).

(** Other packets with a router alert are logged. *)
Definition handleSCMPTraceRouteRequest (interfaceID : Z) : SE t processResult := λ p,
  match traceroute_request p with
  | Err _ => (p, Ok no_result)
  | Panic => (p, Panic)
  | Ok m =>
      let scmpP := Traceroute.mk (BaseLayer.mk [] []) (Traceroute.Identifier m) (Traceroute.Sequence m)
                     (localIA (d p)) interfaceID in
      packSCMP TypeCode.SCMPTypeTracerouteReply 0 (Some (MTraceroute scmpP)) None p
  end.

Definition request_message (s : slowPathRequest) : option message :=
  let base := BaseLayer.mk [] [] in
  let typ := scmpType s in
  if typ =? TypeCode.SCMPTypeParameterProblem then Some (MParameterProblem (ParameterProblem.mk base (pointer s)))
  else if typ =? TypeCode.SCMPTypeDestinationUnreachable then Some (MDestinationUnreachable (DestinationUnreachable.mk base))
  else if typ =? TypeCode.SCMPTypeExternalInterfaceDown then
    Some (MExternalInterfaceDown (ExternalInterfaceDown.mk base (ia s) (interfaceId s)))
  else if typ =? TypeCode.SCMPTypeInternalConnectivityDown then
    Some (MInternalConnectivityDown (InternalConnectivityDown.mk base (ia s) (ingressId s) (egressId s)))
  else None.

Definition find_path : SE t unit := λ p,
  let pathType := SCION.PathType (scionLayer p) in
  if pathType =? scion_PathType then
    match SCION.Path (scionLayer p) with
    | Some (PScion r) => (set_path (Some r) p, Ok tt)
    | _ => (p, Err malformedPath)
    end
  else if pathType =? Epic.PathType then
    match SCION.Path (scionLayer p) with
    | Some (PEpic e) =>
        match Epic.ScionPath e with
        | Some r => (set_path (Some r) p, Ok tt)
        | None => (set_path None p, Err malformedPath)
        end
    | _ => (p, Err malformedPath)
    end
  else (p, Err (New "Path type not supported for slow-path")).

(** The packet: its bytes, where it came from, and why it is on the slow path. *)
Definition processPacket (pkt : bytes) (src : UDPAddr) (ingress : Z) (s : slowPathRequest) : SE t processResult :=
  _ ← modify (λ p, set_packet ingress src pkt (reset p));
  _ ← decodeLayers pkt;
  _ ← find_path;
  match typ s with
  | slowPathSCMP => packSCMP (scmpType s) (code s) (request_message s) (cause s)
  | slowPathRouterAlert => handleSCMPTraceRouteRequest (interfaceId s)
  end.

End slow.

(** A new processor; [scion0] is the SCION layer after [RecyclePaths]. *)
Definition newSlowPathProcessor (dp : DataPlane.t) : t :=
  mk dp 0 [] (mkUDP [] 0) (after SCION.RecyclePaths SCION.zero) Extn.zero Extn.zero LSCION None
    (make_bytes Spao.MACBufferSize) (TLV.mk 0 0 0 [] (0, 0)) (make_bytes 16).

End SlowPath.
