(* ===== verification/RouterReply.v ===== *)
(** The replies of the slow path: the path of a reply and its way back (Module
    [ReplyPath]), the bytes of a reply (Module [ReplyLemmas]), and the properties
    of the slow path (Module [RouterReply]). *)
From S2P Require Export RouterTotal RouterSlowPath.
From S2P Require Import RouterSpao.

(** * The path of a reply *)
Module ReplyPath.

Import Net DataPlane Processor PathLemmas ProcessLemmas AbstractRouter RouterProperties SlowPath.
Import DecodedReverse SpaoRouting TameLemmas.

(** A path whose current indices point into it. *)
Record placed (D : Decoded.t) : Prop := {
  pl_wf : Decoded.wf D;
  pl_range : in_range (Decoded.base D)
}.

Lemma placed_info D : placed D →
  ∃ inf, get (Decoded.InfoFields D) (MetaHdr.CurrINF (Base.PathMeta (Decoded.base D))) = Ok inf ∧ cur_info D = Some inf.
Proof.
  intros [[Hb Hi _ _ _] [H _]]. pose proof (MetaHdr.wf_CurrINF _ (Base.wf_meta _ Hb)).
  destruct (lookup_lt_is_Some_2 (Decoded.InfoFields D) (Z.to_nat (MetaHdr.CurrINF (Base.PathMeta (Decoded.base D)))))
    as [inf E]; [unfold len in *; lia|].
  exists inf. split; [by apply get_Ok; [lia|]|done].
Qed.
Lemma placed_hop D : placed D →
  ∃ hop, get (Decoded.HopFields D) (MetaHdr.CurrHF (Base.PathMeta (Decoded.base D))) = Ok hop ∧ cur_hop D = Some hop ∧ HopField.wf hop.
Proof.
  intros [[Hb _ Hi _ Hw] [_ H]]. pose proof (MetaHdr.wf_CurrHF _ (Base.wf_meta _ Hb)).
  destruct (lookup_lt_is_Some_2 (Decoded.HopFields D) (Z.to_nat (MetaHdr.CurrHF (Base.PathMeta (Decoded.base D)))))
    as [hop E]; [unfold len in *; lia|].
  exists hop. split; [by apply get_Ok; [lia|]|]. split; [done|]. by eapply Forall_lookup_1.
Qed.

Lemma IncPath_placed D :
  Decoded.wf D →
  match IncPath D with
  | Ok D' => placed D' ∧ Decoded.Len D' = Decoded.Len D
  | Err _ => True
  | Panic => False
  end.
Proof.
  intros Hw. unfold IncPath. destruct (Decoded.IncPath D) as [D' [[]|e|]] eqn:E; [|done|].
  - destruct (alike_inc D D' Hw E) as [Es Hw'].
    assert (Base.NumINF (Decoded.base D') = Base.NumINF (Decoded.base D) ∧ Base.NumHops (Decoded.base D') = Base.NumHops (Decoded.base D)) as [E1 E2]
      by (by injection Es).
    split; [|unfold Decoded.Len, Base.Len; by rewrite E1, E2].
    unfold Decoded.IncPath, zoom in E. destruct (Base.IncPath _) as [b r] eqn:Eb. injection E as <- ->. cbn [Decoded.set_base Decoded.base] in *.
    pose proof (Base.IncPath_in_sync _ _ (Decoded.wf_base _ Hw) Eb) as Hs. pose proof (Base.wf_meta _ (Decoded.wf_base _ Hw')) as [].
    split; [done|]. split; [by apply Base.in_sync_INF; [apply Hw'|]|apply Hs].
  - unfold Decoded.IncPath, zoom, Base.IncPath in E. repeat case_match; simplify_eq.
Qed.

Lemma update_segID_Ok D inf hop :
  placed D → cur_info D = Some inf → cur_hop D = Some hop →
  update_segID D inf = Ok (store_cur_info (chained inf hop) D).
Proof.
  intros Hp Hi Ho. destruct (placed_hop D Hp) as (hop' & Eh & Eo & Hw). rewrite Ho in Eo. injection Eo as <-.
  unfold update_segID. rewrite Eh. go_cbn. rewrite InfoField.UpdateSegID_Ok by (destruct Hw; lia). go_cbn.
  change (InfoField.set_SegID inf _) with (chained inf hop). unfold store_cur_info, RawRefinement.with_InfoField.
  destruct Hp as [[Hb Li _ _ _] [H _]]. pose proof (MetaHdr.wf_CurrINF _ (Base.wf_meta _ Hb)).
  rewrite (put_insert _ _ inf _) by (exact Hi || lia). done.
Qed.

Lemma reply_path_safe external D :
  placed D →
  match reply_path external D with
  | Ok D' => placed D' ∧ Decoded.Len D' = Decoded.Len D
  | Err _ => True
  | Panic => False
  end.
Proof.
  intros [Hw Hr]. unfold reply_path.
  pose proof (Base.wf_meta _ (Decoded.wf_base _ Hw)) as Hm. pose proof (MetaHdr.wf_CurrINF _ Hm). pose proof (range_INF _ Hr).
  rewrite Reverse_Ok by (done || lia). cbn [wrap_err]. go_cbn. set (R := reverse_spec D).
  assert (placed R) as HR.
  { split; [apply reverse_spec_wf; done || lia|]. apply (reverse_meta_wf _ (Decoded.wf_base _ Hw) Hr). lia. }
  assert (Decoded.Len R = Decoded.Len D) as LR by done.
  destruct (placed_info R HR) as (inf & -> & _). go_cbn.
  destruct (peer_of _ inf) as [peering|e|] eqn:Ep; cbn [wrap_err]; go_cbn; [|done|by apply (peer_of_no_panic _ _ Ep)].
  assert (∀ c (X : Decoded.t), placed X → Decoded.Len X = Decoded.Len D → ∀ msg,
    match (if c : bool then wrap_err msg (IncPath X) else Ok X) with Ok D' => placed D' ∧ Decoded.Len D' = Decoded.Len D | Err _ => True | Panic => False end) as Hinc.
  { intros [] X HX LX msg; [|done]. pose proof (IncPath_placed X (pl_wf X HX)) as Hi. destruct (IncPath X); cbn [wrap_err]; [|done|done].
    destruct Hi as [? ->]. done. }
  pose proof (Hinc (Base.IsXover (Decoded.base R) && negb peering) R HR LR "reverting cross over for SCMP"%string) as Hx.
  match type of Hx with match ?o with _ => _ end => destruct o as [X|e|] end; go_cbn; [|done|done]. destruct Hx as [HX LX].
  destruct external; [|done]. destruct (placed_info X HX) as (inf2 & -> & Hi2). go_cbn.
  destruct (placed_hop X HX) as (hop & _ & Ho & Wh).
  assert (∃ X', (if InfoField.ConsDir inf2 && negb peering then update_segID X inf2 else Ok X) = Ok X' ∧ placed X' ∧ Decoded.Len X' = Decoded.Len D)
    as (X' & -> & HX' & LX').
  { destruct (_ && _); [|by exists X]. rewrite (update_segID_Ok X inf2 hop) by done. eexists. split; [done|]. split; [|done].
    split; [|apply HX]. by apply alike_chained; [apply HX|..]. }
  go_cbn. exact (Hinc true X' HX' LX' _).
Qed.

(** ** A segment the other way round *)

Lemma IncPath_segment hs i info :
  Decoded.wf (segment_path hs i info) → (S i < length hs)%nat → IncPath (segment_path hs i info) = Ok (segment_path hs (S i) info).
Proof.
  intros Hw Hi. unfold IncPath. pose proof (Decoded.wf_base _ Hw) as Hb.
  assert (∃ D', Decoded.IncPath (segment_path hs i info) = (D', Ok tt)) as [D' E].
  { unfold Decoded.IncPath, zoom. rewrite (Base.IncPath_Ok _ Hb); [by eexists|]. cbn. unfold len. lia. }
  rewrite E. destruct (segment_IncPath hs i info D' Hb) as [_ ->]; [lia|exact E|done].
Qed.

Section segment.
Context (cons : bool) (hops : list HopField.t) (macs : nat → bytes → bytes) (infos : nat → InfoField.t).
Let n := length hops.
(** Hop [j] of the reversed segment is hop [back j]. *)
Definition back (j : nat) : nat := (n - 1 - j)%nat.
Definition rev_macs (j : nat) : bytes → bytes := macs (back j).
Definition rev_infos (j : nat) : InfoField.t := flip (infos (back j)).

Lemma flip_chained info hop : flip (chained info hop) = chained (flip info) hop.
Proof. done. Qed.
Lemma authentic_flip mac info hop : authentic mac (flip info) hop ↔ authentic mac info hop.
Proof. done. Qed.

Lemma reverse_lookup_back j hop : reverse hops !! j = Some hop → hops !! back j = Some hop ∧ (j < n)%nat.
Proof.
  intros H. pose proof (lookup_lt_Some _ _ _ H) as Hj. rewrite length_reverse in Hj.
  apply reverse_lookup_Some in H as [H _]. split; [|done]. unfold back. fold n in H. by replace (n - 1 - j)%nat with (n - S j)%nat by lia.
Qed.

Lemma reversed_authorised :
  authorised cons hops macs infos → authorised (negb cons) (reverse hops) rev_macs rev_infos.
Proof.
  intros [Hm Ha Hd Hc]. split.
  - intros j b. apply Hm.
  - intros j hop [H _]%reverse_lookup_back. apply authentic_flip. by apply Ha.
  - intros j. unfold rev_infos. cbn. destruct (Hd (back j)) as [-> ->]. done.
  - intros j hop hop' [H Hj]%reverse_lookup_back [H' Hj']%reverse_lookup_back. unfold rev_infos.
    assert (back j = S (back (S j))) as Eb by (unfold back; lia). rewrite Eb in H |- *.
    specialize (Hc _ _ _ H' H). rewrite <- flip_chained. destruct cons; cbn [negb]; by rewrite Hc.
Qed.

Lemma reverse_segment j info :
  (0 < n)%nat → (j < n)%nat →
  reverse_spec (segment_path hops j info) = segment_path (reverse hops) (back j) (flip info).
Proof.
  intros Hn Hj. unfold reverse_spec, segment_path, reverse_meta, back.
  cbn [Decoded.base Decoded.InfoFields Decoded.HopFields Base.NumINF Base.NumHops Base.PathMeta fmap list_fmap].
  change (reverse [info]) with [info]. change (len (reverse hops)) with (Z.of_nat (length (reverse hops))). rewrite length_reverse.
  unfold Base.set_PathMeta, len. cbn. fold n. change (1 - 1) with 0. do 3 f_equal. cbn.
  unfold MetaHdr.set_CurrHF, MetaHdr.set_CurrINF. cbn. f_equal. lia.
Qed.

(** The reply to a packet that the router at hop [j] has looked at goes to the hop
    before it as a packet on the reversed segment. *)
Lemma back_back j : (j < n)%nat → back (back j) = j.
Proof. unfold back. lia. Qed.

Lemma reply_segment j :
  authorised cons hops macs infos → Decoded.wf (segment_path hops j (infos j)) → (0 < j)%nat → (j < n)%nat →
  reply_path true (segment_path hops j (infos j)) =
    Ok (segment_path (reverse hops) (S (back j)) (carried (negb cons) rev_infos (S (back j)))).
Proof.
  intros Hau Hw Hj0 Hj. pose proof (reversed_authorised Hau) as Hau'. unfold reply_path.
  assert (in_range (Decoded.base (segment_path hops j (infos j)))) as Hr by (split; cbn; unfold len; lia).
  rewrite Reverse_Ok by done. cbn [wrap_err]. go_cbn. rewrite reverse_segment by lia.
  set (i := back j). set (rs := reverse hops). set (D1 := segment_path rs i (flip (infos j))).
  assert (placed D1) as HD1.
  { unfold D1, i, rs. rewrite <- reverse_segment by lia. split; [by apply reverse_spec_wf|].
    apply (reverse_meta_wf _ (Decoded.wf_base _ Hw) Hr). done. }
  assert (length rs = n) as Ln by apply length_reverse. assert (S i < n)%nat as Hi by (unfold i, back; lia).
  destruct (lookup_lt_is_Some_2 rs i) as [hop Hhop]; [lia|].
  destruct (segment_current rs i (flip (infos j)) hop Hhop) as [Eh Ei].
  destruct (placed_info D1 HD1) as (inf & Eg & Ei'). fold D1 in Eh, Ei. rewrite Ei in Ei'. injection Ei' as <-.
  rewrite Eg. go_cbn. destruct (au_dir _ _ _ _ Hau j) as [Ed Ep].
  unfold peer_of at 1. change (InfoField.Peer (flip (infos j))) with (InfoField.Peer (infos j)). rewrite Ep. cbn [negb wrap_err]. go_cbn.
  pose proof (segment_no_xover rs i _ (Decoded.wf_base _ (pl_wf _ HD1))) as Hx. fold D1 in Hx. rewrite Hx by lia. cbn [andb].
  cbn [mbind outcome_bind]. rewrite Eg. go_cbn. cbn [InfoField.ConsDir flip]. rewrite Ed, andb_true_r.
  assert (rev_infos i = flip (infos j)) as Er by (unfold rev_infos, i; by rewrite back_back).
  destruct (lookup_lt_is_Some_2 rs (S i)) as [hop' Hhop']; [lia|].
  pose proof (au_chain _ _ _ _ Hau' i hop hop' Hhop Hhop') as Hc. unfold carried. cbn [pred].
  destruct cons; cbn [negb] in *.
  - go_cbn. unfold D1. rewrite (IncPath_segment rs i) by (apply HD1 || lia). cbn [wrap_err]. by rewrite Er.
  - rewrite (update_segID_Ok D1 _ hop) by done. go_cbn. change (store_cur_info _ D1) with (segment_path rs i (chained (flip (infos j)) hop)).
    rewrite (IncPath_segment rs i); [|apply (alike_chained D1); [apply HD1|exact Ei|]; eapply Forall_lookup_1; [apply HD1|exact Hhop]|lia]. cbn [wrap_err]. by rewrite Hc, Er.
Qed.
End segment.

End ReplyPath.

(** * The bytes of a reply *)
Module ReplyLemmas.

Import Net DataPlane Processor SlowPath ReplyPath ScmpLemmas ScionHdrLemmas.

(** ** The header *)

(** [s'] is the header of a reply to [s] with the path [D]. *)
Record replies (s : SCION.t) (localIA : Z) (ip : IP.t) (D : Decoded.t) (s' : SCION.t) : Prop := {
  re_fields : wf_fields s';
  re_path : SCION.Path s' = Some (PDecoded D);
  re_next : SCION.NextHdr s' = L4.SCMP;
  re_type : SCION.PathType s' = scion_PathType;
  re_class : SCION.TrafficClass s' = SCION.TrafficClass s ∧ SCION.FlowID s' = SCION.FlowID s ∧ SCION.Version s' = 0;
  re_ia : SCION.DstIA s' = SCION.SrcIA s ∧ SCION.SrcIA s' = localIA;
  re_dst : ∃ a, SCION.SrcAddr s = Ok a ∧ AddrType.PackAddr a = Ok (SCION.DstAddrType s', SCION.RawDstAddr s');
  re_src : AddrType.PackAddr (Host.HostIP ip) = Ok (SCION.SrcAddrType s', SCION.RawSrcAddr s')
}.

Lemma ParseAddr_wf ty raw h :
  AddrType.ParseAddr ty raw = Ok h → wf_bytes raw → len raw = AddrType.Length ty → IP.wf (Host.ip h) ∧ is_u16 (Host.svc h).
Proof.
  intros H Hw Hl. unfold AddrType.ParseAddr in H.
  destruct (Z.eqb_spec ty AddrType.T4Ip) as [->|]; [|destruct (Z.eqb_spec ty AddrType.T4Svc) as [->|]; [|destruct (Z.eqb_spec ty AddrType.T16Ip) as [->|]; [|done]]].
  - injection H as <-. change (AddrType.Length _) with 4 in Hl.
    rewrite copy_same by (unfold len in Hl; change (length (make_bytes 4)) with 4%nat; lia). split; [split; [done|unfold len in Hl; lia]|done].
  - destruct (sub_be_wf 2 raw 0 2) as (v & E & Hv); [done|lia|lia|by rewrite Hl|]. unfold Uint16 in H. rewrite E in H. injection H as <-.
    split; done.
  - injection H as <-. change (AddrType.Length _) with 16 in Hl. rewrite copy_same by (unfold len in Hl; change (length (make_bytes 16)) with 16%nat; lia).
    split; [split; [done|unfold len in Hl; lia]|done].
Qed.

Lemma reply_header_spec s localIA ip D :
  wf_fields s → IP.wf ip → is_u64 localIA →
  match reply_header s localIA ip D with
  | Ok s' => replies s localIA ip D s'
  | Err _ => True
  | Panic => False
  end.
Proof.
  intros Hw Hip Hia. unfold reply_header. cbv zeta.
  destruct (wf_RawSrcAddr s Hw) as [Wsrc Lsrc].
  pose proof (NoPanicLemmas.ParseAddr_safe (SCION.SrcAddrType s) (SCION.RawSrcAddr s) Lsrc) as Hs.
  change (AddrType.ParseAddr _ _) with (SCION.SrcAddr s) in Hs.
  destruct (SCION.SrcAddr s) as [a|e|] eqn:Ea; [|done|done]. cbn [wrap_err]. go_cbn.
  destruct (ParseAddr_wf _ _ _ Ea Wsrc Lsrc) as [Wa Va].
  pose proof (ScionHdrProperties.pack_parse_addr a Wa Va) as Hd. unfold SCION.SetDstAddr at 1.
  destruct (AddrType.PackAddr a) as [[ty raw]|e|] eqn:Ep; [|done|done]. cbn [exec wrap_err]. go_cbn.
  unfold SCION.SetSrcAddr at 1. pose proof (ScionHdrProperties.pack_parse_addr (Host.HostIP ip) Hip ltac:(done)) as Hi.
  destruct (AddrType.PackAddr (Host.HostIP ip)) as [[ty' raw']|e|] eqn:Ep'; [|done|done]. cbn [exec wrap_err]. go_cbn.
  destruct Hd as (? & ? & ? & _), Hi as (? & ? & ? & _), Hw.
  split; try done. by exists a.
Qed.

(** ** The message *)

Section gopacket.
Context `{GP : GoPacket} {laws : GoPacketLaws GP}.

Definition body (m : message) : bytes :=
  match m with
  | MParameterProblem m => enc (msg_fields m)
  | MDestinationUnreachable m => enc (msg_fields m)
  | MExternalInterfaceDown m => enc (msg_fields m)
  | MInternalConnectivityDown m => enc (msg_fields m)
  | MTraceroute m => enc (msg_fields m)
  end.
Definition message_type (m : message) : Z :=
  match m with
  | MParameterProblem _ => TypeCode.SCMPTypeParameterProblem
  | MDestinationUnreachable _ => TypeCode.SCMPTypeDestinationUnreachable
  | MExternalInterfaceDown _ => TypeCode.SCMPTypeExternalInterfaceDown
  | MInternalConnectivityDown _ => TypeCode.SCMPTypeInternalConnectivityDown
  | MTraceroute _ => TypeCode.SCMPTypeTracerouteReply
  end.

Lemma body_wf m : wf_bytes (body m).
Proof using. destruct m; apply wf_enc. Qed.
Lemma body_len m :
  len (body m) = match m with
                 | MExternalInterfaceDown _ => 16 | MInternalConnectivityDown _ => 24 | MTraceroute _ => 20 | _ => 4
                 end.
Proof using. destruct m as [m|m|m|m|m]; exact (msg_fields_len m). Qed.

Lemma msg_Ok {M} `{MsgLaws M} (m : M) b : 0 ≤ msg_min → msg_SerializeTo PrependBytes b m = Ok (enc (msg_fields m) ++ b).
Proof using laws.
  intros Hm. unfold msg_SerializeTo. rewrite msg_write_Ok; [done|]. by rewrite len_PrependBytes, msg_size_min by (rewrite msg_size_min; done).
Qed.
Lemma message_Ok m b : message_SerializeTo m b = Ok (body m ++ b).
Proof using laws. by destruct m; apply msg_Ok. Qed.

Lemma type_code typ code :
  is_u8 typ → is_u8 code →
  ∃ tc, TypeCode.CreateSCMPTypeCode typ code = Ok tc ∧ is_u16 tc ∧ TypeCode.Type_ tc = typ ∧ be_bytes 2 tc = [typ; code].
Proof using.
  intros Ht Hc. exists (typ * 256 + code). uint_bounds. split_and!.
  - unfold TypeCode.CreateSCMPTypeCode, Uint16. rewrite <- (app_nil_r [typ; code]), get_be_app by done. done.
  - split; lia.
  - unfold TypeCode.Type_. rewrite Z.shiftr_div_pow2 by lia. rewrite uint_of_small by (split; dlia). dlia.
  - change (be_bytes 2 (typ * 256 + code)) with [(typ * 256 + code) / 256 mod 256; (typ * 256 + code) mod 256].
    f_equal; [dlia|]. f_equal. dlia.
Qed.

(** What [SerializeLayers] makes of the SCMP header, the message and the quote. *)
Lemma scmp_layers_Ok h tc typ code m quote :
  wf_fields h → is_u16 tc → be_bytes 2 tc = [typ; code] → wf_bytes quote → len quote ≤ 65000 →
  ∃ c, SerializeLayers [(λ b, (SCMP.SerializeTo PrependBytes b sopts
           (SCMP.SetNetworkLayerForChecksum h (SCMP.mk (BaseLayer.mk [] []) tc 0 None))).2);
         layer_SerializeTo (Some m); Payload_SerializeTo quote] =
       Ok ([typ; code] ++ be_bytes 2 c ++ body m ++ quote) ∧ is_u16 c ∧
    SCION.computeChecksum (Some h) ([typ; code] ++ be_bytes 2 c ++ body m ++ quote) L4.SCMP = Ok 0.
Proof using laws.
  intros Hh Ht Eb Hq Hl. set (s := SCMP.SetNetworkLayerForChecksum _ _).
  assert (len (body m) ≤ 24) as Hm by (rewrite body_len; destruct m; lia).
  destruct (ScmpHeaderLemmas.SCMP_SerializeTo_Ok PrependBytes (body m ++ quote) sopts s) as (c & E & Hc & Hk & _);
    [apply len_PrependBytes|done|done|apply wf_bytes_app; split; [apply body_wf|done]|..].
  { intros _. exists h. rewrite len_app. split_and!; [done|done|lia]. }
  change (SCMP.TypeCode s) with tc in E, Hk. rewrite Eb in E, Hk.
  exists c. split_and!; [|done|by apply Hk]. rewrite SerializeLayers_eq. cbn [foldr mbind outcome_bind].
  rewrite Payload_SerializeTo_eq, app_nil_r. go_cbn. cbn [layer_SerializeTo]. rewrite message_Ok. go_cbn. by rewrite E.
Qed.
End gopacket.

End ReplyLemmas.

(** * The answer to a packet *)
Module AnswerLemmas.

Import Net DataPlane Processor SlowPath ReplyPath ReplyLemmas ScionHdrLemmas Spao SpaoLemmas SpaoProperties.
Import RawRefinement PathLemmas.

(** The raw path in a header. *)
Definition raw_path (s : SCION.t) : option Raw.t :=
  match SCION.Path s with
  | Some (PScion r) => Some r
  | Some (PEpic e) => Epic.ScionPath e
  | _ => None
  end.

(** The path of a decoded header: [D] stands for its raw path. *)
Record headed (s : SCION.t) (D : Decoded.t) : Prop := {
  hd_fields : wf_fields s;
  hd_path : ∃ q r, SCION.Path s = Some q ∧ path_wf q ∧ hdr_len s q ≤ SCION.MaxHdrLen ∧
    raw_path s = Some r ∧ Raw.wf r ∧ repr r D
}.

Lemma set_Path_fields s q : wf_fields s → wf_fields (SCION.set_Path q s).
Proof. intros []. by split. Qed.

Lemma repr_parts r D : repr r D → ∃ mb ibs hbs,
  r = Raw.mk (Decoded.base D) (Some (mb ++ concat ibs ++ concat hbs)) ∧ len mb = 4 ∧ raw_parts (Decoded.base D) ibs hbs.
Proof.
  intros [Hw Eb (mb & ibs & hbs & Er & Lm & Hi & Hh)]. exists mb, ibs, hbs.
  pose proof (info_chunks_len _ _ Hi) as [Ci Li]. pose proof (hop_chunks_len _ _ Hh) as [Ch Lh].
  split_and!; [destruct r as [b o]; cbn in *; by rewrite Eb, Er|done|].
  split; [apply Hw|exact Ci|exact Ch|rewrite <- (Decoded.wf_NumINF _ Hw)|rewrite <- (Decoded.wf_NumHops _ Hw)]; done.
Qed.

Lemma headed_authenticates s D : headed s D → ∃ q b, SCION.Path s = Some q ∧ authenticates q b ∧ hdr_len s q ≤ SCION.MaxHdrLen.
Proof.
  intros [_ (q & r & Eq & Wq & Hl & Er & _ & Hr)]. destruct (repr_parts r D Hr) as (mb & ibs & hbs & -> & Lm & Hp).
  unfold raw_path in Er. rewrite Eq in Er. destruct q as [| |r'| |e|]; try done.
  - injection Er as ->. do 2 eexists. split; [exact Eq|]. split; [by constructor|exact Hl].
  - destruct Wq as [_ _ [_ L1] [_ L2] _]. do 2 eexists. split; [exact Eq|]. split; [by eapply auth_epic|exact Hl].
Qed.

Lemma path_lines q b : authenticates q b → PathLen q mod 4 = 0.
Proof.
  assert (∀ b, Base.Len b mod 4 = 0) as Hb.
  { intros b'. unfold Base.Len, MetaLen, InfoField.InfoLen, HopField.HopLen. dlia. }
  intros [|D _|bs mb ibs hbs _ _|e bs mb ibs hbs _ _ He _ _|o _]; try done; [apply Hb..|].
  change (PathLen (PEpic e)) with (Epic.Len e). unfold Epic.Len, Epic.MetadataLen. rewrite He.
  change (Raw.Len _) with (Base.Len bs). specialize (Hb bs). dlia.
Qed.

Lemma hdr_lines s q b : authenticates q b → Z.rem (hdr_len s q) AddrType.LineLen = 0.
Proof.
  intros H. pose proof (path_lines _ _ H). pose proof (AddrHdrLen_range s). pose proof (len_nonneg b). rewrite (authenticates_len _ _ H) in *.
  unfold hdr_len, SCION.AddrHdrLen, AddrType.Length, SCION.CmnHdrLen, AddrType.LineLen, ISDAS.IABytes in *.
  rewrite Z.rem_mod_nonneg by lia. dlia.
Qed.

(** The path of the header, decoded. *)
Lemma path_ToDecoded r D : Raw.wf r → repr r D → ∃ r', Raw.ToDecoded r = (r', Ok D) ∧ Raw.wf r' ∧ repr r' D.
Proof.
  intros Hw Hr. destruct (flush_meta_raw r Hw) as (r' & Ef & Er & _).
  destruct (ToDecoded_repr r D Hr) as (r1 & E1 & H1). exists r'. destruct (flush_meta_repr r D Hr) as (r2 & E2 & H2 & _).
  rewrite Ef in E2. injection E2 as <-. split_and!; [|by apply Er|done].
  unfold Raw.ToDecoded in *. rewrite (SE_bind_eq _ _ _ _ _ Ef) in E1 |- *. unfold gets, lift, mbind, SE_bind in *.
  by injection E1 as _ ->.
Qed.

(** Where the raw path starts in the packet. *)
Definition raw_offset (s : SCION.t) : Z :=
  match SCION.Path s with Some (PEpic _) => path_offset s + Epic.MetadataLen | _ => path_offset s end.

(** The processor holds a packet that it can answer. *)
Record answerable (p : t) (D : Decoded.t) : Prop := {
  an_headed : headed (scionLayer p) D;
  an_pkt : wf_bytes (rawPkt p);
  an_window : raw_offset (scionLayer p) + Decoded.Len D ≤ len (rawPkt p);
  an_payload : wf_bytes (LayerPayload p);
  an_contents : wf_bytes (Extn.Contents (e2eLayer p));
  an_aux : MACBufferSize ≤ len (macInputBuffer p)
}.

Lemma raw_offset_pos s : 0 ≤ raw_offset s.
Proof.
  pose proof (AddrHdrLen_range s). unfold raw_offset, path_offset, SCION.CmnHdrLen, Epic.MetadataLen. repeat case_match; lia.
Qed.

Lemma wf_write_window off w pkt : wf_bytes w → wf_bytes pkt → wf_bytes (write_window off w pkt).
Proof.
  intros Hw Hp. unfold write_window. apply wf_bytes_app. split; [by apply Forall_take|].
  apply wf_bytes_app. split; [done|by apply Forall_drop].
Qed.

Lemma on_raw_ToDecoded p D :
  answerable p D →
  ∃ x q, let p' := set_rawPkt x (set_scion (SCION.set_Path q (scionLayer p)) p) in
    on_raw Raw.ToDecoded p = (p', Ok D) ∧ answerable p' D ∧
    same_outside (raw_offset (scionLayer p)) (Decoded.Len D) (rawPkt p) x.
Proof.
  intros [[Hf (q & r & Eq & Wq & Hl & Er & Wr & Hr)] Hb Hwin Hp Hc Ha].
  destruct (path_ToDecoded r D Wr Hr) as (r' & Et & Wr' & Hr'). pose proof (repr_len _ _ Hr') as Lr.
  pose proof (raw_offset_pos (scionLayer p)) as Ho. pose proof (Raw.wf_raw _ Wr') as Hwr.
  assert (∀ q', raw_path (SCION.set_Path q' (scionLayer p)) = Some r' → path_wf q' → PathLen q' = PathLen q →
    raw_offset (SCION.set_Path q' (scionLayer p)) = raw_offset (scionLayer p) →
    let x := write_window (raw_offset (scionLayer p)) (Raw.raw_bytes r') (rawPkt p) in
    answerable (set_rawPkt x (set_scion (SCION.set_Path q' (scionLayer p)) p)) D ∧
    same_outside (raw_offset (scionLayer p)) (Decoded.Len D) (rawPkt p) x) as K.
  { intros q' Eq' Wq' El Eo x. rewrite <- Lr. split; [|apply window_same_outside; lia].
    split; [split|..]; cbn; try done.
    - by apply set_Path_fields.
    - exists q', r'. split_and!; try done. unfold hdr_len in *. by rewrite El.
    - by apply wf_write_window.
    - change (raw_offset (SCION.set_Path q' (scionLayer p)) + Decoded.Len D ≤ len x). rewrite Eo. unfold x. by rewrite window_len by lia. }
  unfold on_raw, raw_offset, raw_path in *. rewrite Eq in *.
  assert (Raw.base r' = Raw.base r) as Eb by (by rewrite (repr_base _ _ Hr), (repr_base _ _ Hr')).
  destruct q as [| |r0| |e|]; try done.
  - injection Er as ->. rewrite Et. exists (write_window (path_offset (scionLayer p)) (Raw.raw_bytes r') (rawPkt p)), (PScion r').
    cbv zeta. split; [done|]. apply (K (PScion r')); try done. change (Base.Len (Raw.base r') = Base.Len (Raw.base r)). by rewrite Eb.
  - rewrite Er, Et. set (e' := Epic.mk _ _ _ _).
    exists (write_window (path_offset (scionLayer p) + Epic.MetadataLen) (Raw.raw_bytes r') (rawPkt p)), (PEpic e').
    cbv zeta. split; [done|]. apply (K (PEpic e')); try done.
    + destruct Wq as [? ? ? ? _]. split; try done. by exists r'.
    + change (Epic.Len e' = Epic.Len e). unfold Epic.Len, e'. cbn. rewrite Er. unfold Raw.Len. by rewrite Eb.
Qed.

(** ** Authentication *)

Lemma reads_any o : wf_bytes (TLV.OptData o) → 12 ≤ len (TLV.OptData o) → ∃ opts, reads o opts.
Proof.
  intros Hb Hl. destruct (sub_be_wf 4 (TLV.OptData o) 0 4) as (spi & E1 & _); [done|lia..|].
  destruct (get_wf (TLV.OptData o) 4) as (alg & E2 & _); [done|lia|].
  assert (∃ ts, PacketAuth.get_TimestampSN o = Ok ts) as [ts E3].
  { unfold PacketAuth.get_TimestampSN. rewrite sub_Ok by lia. go_cbn. set (c := take _ _).
    assert (len c = 6) as Lc by (unfold c; rewrite len_take, len_drop; lia).
    assert (wf_bytes c) as Wc by (by apply Forall_take, Forall_drop). unfold PacketAuth.bigEndianUint48.
    destruct (get_wf c 0) as (x & -> & _); [done|lia|]. destruct (get_wf c 1) as (y & -> & _); [done|lia|]. go_cbn.
    destruct (sub_be_wf 4 c 2 6) as (z & Ez & _); [done|lia..|]. unfold Uint32. rewrite Ez. go_cbn. by eexists. }
  exists (PacketAuth.mkParams spi alg ts []). by split.
Qed.

Lemma find_option_in typ l o : Extn.find_option typ l = Ok o → o ∈ l.
Proof.
  induction l as [|o' l IH]; [done|]. cbn. case_match; [intros [= ->]; left|intros Hf; right; by apply IH].
Qed.

Lemma find_option_no_panic typ l : no_panic (Extn.find_option typ l).
Proof. induction l as [|o l IH]; [done|]. cbn. by case_match. Qed.

Section auth.
Context (aes_Encrypt : bytes → bytes → bytes) (cmac_Sum : (bytes → bytes) → bytes → bytes).
Context (provider : KeyWindow.FakeProvider) (now : Z).
(** An epoch of the provider is not shorter than a second. *)
Context (Hprovider : KeyWindow.Second ≤ KeyWindow.EpochDuration provider).

Lemma epoch_index_runs t : ∃ i n, KeyWindow.epoch_index provider t = Ok (i, n).
Proof using Hprovider.
  unfold KeyWindow.epoch_index, KeyWindow.Second, DRKeyProvider.Second in *. cbv zeta.
  assert (0 < KeyWindow.EpochDuration provider ÷ 1000000000) by (rewrite Z.quot_div_nonneg by lia; dlia).
  replace (_ =? 0) with false by lia. by do 2 eexists.
Qed.

Lemma key_within ts :
  match KeyWindow.GetKeyWithinAcceptanceWindow provider now ts with
  | Ok key => KeyWindow.Key key = make_bytes 16
  | Err _ => True
  | Panic => False
  end.
Proof using Hprovider.
  unfold KeyWindow.GetKeyWithinAcceptanceWindow, KeyWindow.getASHostTriple.
  destruct (epoch_index_runs now) as (i & n & ->). go_cbn.
  change (get [?a; ?b; ?c] 0) with (Ok a). change (get [?a; ?b; ?c] 1) with (Ok b). change (get [?a; ?b; ?c] 2) with (Ok c).
  go_cbn. cbv zeta. by repeat case_match; simplify_eq.
Qed.

Lemma key_block : AES.NewCipher aes_Encrypt (make_bytes 16) = Ok (aes_Encrypt (make_bytes 16)).
Proof. done. Qed.

Lemma received_auth_safe p D :
  answerable p D →
  match received_auth provider now p with
  | Ok (o, key) => (∃ opts, reads o opts) ∧ 12 ≤ len (TLV.OptData o) ∧ KeyWindow.Key key = make_bytes 16
  | Err _ => True
  | Panic => False
  end.
Proof using Hprovider.
  intros [[Hf _] _ _ _ Hc _]. unfold received_auth.
  pose proof (ExtnLemmas.Extn_DecodeFromBytes_any Extn.checkEndToEndExtnNextHdr _ Extn.zero (or_intror eq_refl) Hc) as He.
  change (Extn.DecodeFromBytes Extn.checkEndToEndExtnNextHdr) with EndToEndExtn.DecodeFromBytes in He.
  destruct (EndToEndExtn.DecodeFromBytes _ _) as [e [[]|err|]]; [|done..]. go_cbn. destruct He as (_ & _ & _ & Hw & _).
  unfold Extn.FindOption. destruct (Extn.find_option _ _) as [o|err|] eqn:Eo; [|done|by apply find_option_no_panic in Eo].
  go_cbn. apply find_option_in in Eo. rewrite Forall_forall in Hw. destruct (Hw o Eo) as (_ & Wo & _).
  unfold PacketAuth.ParsePacketAuthOption. destruct (negb _); [done|]. cbn [fail_if]. go_cbn.
  unfold PacketAuth.PacketAuthOptionMetadataLen. destruct (Z.ltb_spec (len (TLV.OptData o)) 12) as [|Hl]; [done|]. cbn [fail_if]. go_cbn.
  pose proof (NoPanicLemmas.ParseAddr_safe (SCION.SrcAddrType (scionLayer p)) (SCION.RawSrcAddr (scionLayer p)) (proj2 (wf_RawSrcAddr _ Hf))) as Hs.
  change (AddrType.ParseAddr _ _) with (SCION.SrcAddr (scionLayer p)) in Hs.
  destruct (SCION.SrcAddr (scionLayer p)); [|done..]. go_cbn.
  destruct (reads_any o Wo Hl) as [opts Ho]. rewrite (reads_TimestampSN _ _ Ho). go_cbn.
  pose proof (key_within (PacketAuth.TimestampSN opts)) as Hk.
  destruct (KeyWindow.GetKeyWithinAcceptanceWindow _ _ _); [|done..]. go_cbn. split; [by exists opts|done].
Qed.

(** What a step on the way to the reply leaves alone. *)
Record same_ports (p p' : t) : Prop := {
  sp_d : d p' = d p;
  sp_ingress : ingressID p' = ingressID p;
  sp_src : srcAddr p' = srcAddr p;
  sp_aux : MACBufferSize ≤ len (macInputBuffer p) → MACBufferSize ≤ len (macInputBuffer p')
}.
#[export] Instance same_ports_preorder : PreOrder same_ports.
Proof. split; [by split|]. intros ? ? ? [] []. split; try congruence. auto. Qed.

Lemma same_ports_alias p : same_ports p (alias p).
Proof. unfold alias. repeat case_match; by split. Qed.

Lemma hasValidAuth_runs p D :
  answerable p D →
  ∃ p' b, hasValidAuth aes_Encrypt cmac_Sum provider now p = (p', Ok b) ∧ same_ports p p'.
Proof using Hprovider.
  intros Hp. unfold hasValidAuth. case_match; [by do 2 eexists|].
  pose proof (received_auth_safe p D Hp) as Hr. destruct (received_auth provider now p) as [[o key]|err|]; [|by do 2 eexists|done].
  destruct Hr as ([opts Ho] & Lo & Hk). destruct (headed_authenticates _ _ (an_headed _ _ Hp)) as (q & b & Eq & Hb & Hl).
  destruct (ComputeAuthCMAC_runs aes_Encrypt cmac_Sum (KeyWindow.Key key) (aes_Encrypt (make_bytes 16)) (scionLayer p) o opts L4.SCMP
    (LayerPayload p) (macInputBuffer p) q b) as (q' & rest & -> & Lr & _);
    [by rewrite Hk|exact Ho|apply (an_headed _ _ Hp)|exact Eq|exact Hb|exact Hl|by eapply hdr_lines|apply (an_aux _ _ Hp)|].
  set (aux := _ ++ rest) in *. clearbody aux.
  unfold PacketAuth.Authenticator, sub_from. rewrite sub_Ok by lia. go_cbn. do 2 eexists. split; [done|].
  set (p1 := alias _). assert (same_ports p p1) as [E1 E2 E3 E4] by (unfold p1; etransitivity; [|apply same_ports_alias]; by split).
  split; cbn; [done..|]. by rewrite Lr.
Qed.

(** *** The authenticator of a reply *)

Lemma set_NextHdr_replies s ia ip R s1 n : replies s ia ip R s1 → is_u8 n → wf_fields (set_NextHdr n s1).
Proof using. intros [[] _ _ _ _ _ _ _] Hn. by split. Qed.

Context `{GP : GoPacket} {laws : GoPacketLaws GP}.

(** The option of a reply. *)
Definition auth_option (o : TLV.t) : Prop :=
  ∃ opts, o = TLV.mk TLV.OptTypeAuthenticator 0 0 (OptionsLemmas.encode_auth opts) (4, 2) ∧ OptionsLemmas.wf_params opts ∧
    PacketAuth.TimestampSN opts < 2 ^ 48 ∧ len (PacketAuth.Auth opts) = 16.

Lemma resetSPAO_safe key p :
  match resetSPAOMetadata now key p with
  | (p', Ok _) => ∃ o, p' = set_optAuth o p ∧ auth_option o
  | (_, Err _) => True
  | (_, Panic) => False
  end.
Proof using.
  unfold resetSPAOMetadata. rewrite (SE_bind_eq _ _ p p 1) by done.
  assert (∀ nb, match Spao.RelativeTimestamp nb now with Ok ts => is_u64 ts | Err _ => True | Panic => False end) as Ht.
  { intros nb. unfold Spao.RelativeTimestamp. cbv zeta. destruct (_ <=? _); [done|]. apply uint_of_range. lia. }
  specialize (Ht (KeyWindow.NotBefore (KeyWindow.KeyEpoch key))).
  destruct (Spao.RelativeTimestamp _ now) as [ts|e|]; [|done..].
  rewrite (SE_bind_eq _ _ p p ts) by done. unfold zoom.
  set (opts := PacketAuth.mkParams 1 PacketAuthCMAC ts zeroBuffer).
  destruct (Z.ltb_spec ts (2 ^ 48)) as [Hs|Hs].
  - assert (OptionsLemmas.wf_params opts) as Hw by (split; [done..|]; by apply Forall_replicate).
    rewrite (OptionsLemmas.Reset_Ok opts) by done. eexists. split; [done|]. by exists opts.
  - unfold PacketAuth.Reset, mbind, SE_bind, lift. change (Z.shiftl 1 48) with (2 ^ 48). cbn [PacketAuth.TimestampSN opts].
    rewrite (proj2 (Z.leb_le _ _) Hs). done.
Qed.

Lemma auth_option_data o : auth_option o → wf_bytes (TLV.OptData o) ∧ len (TLV.OptData o) = 28.
Proof using.
  intros (opts & -> & [H1 H2 _ H4] & Ht & Hl). cbn [TLV.OptData]. split.
  - unfold OptionsLemmas.encode_auth, OptionsLemmas.encode48. rewrite !wf_bytes_app. split_and!; try apply wf_be_bytes; try done.
    + by apply Forall_cons_2; [|apply Forall_cons_2].
    + apply Forall_cons_2; [by apply uint_of_range|]. apply Forall_cons_2; [by apply uint_of_range|done].
  - unfold OptionsLemmas.encode_auth. rewrite !len_app, Hl. change (len (be_bytes 4 _)) with 4. change (len (OptionsLemmas.encode48 _)) with 6. done.
Qed.
Lemma auth_padded data :
  len data = 28 → let o := TLV.mk TLV.OptTypeAuthenticator 0 0 data (4, 2) in
  ExtnLemmas.all_padded true [o] = [ExtnLemmas.norm o] ∧ len (ExtnLemmas.wire [ExtnLemmas.norm o]) = 30.
Proof using.
  intros Hl o.
  assert (len (ExtnLemmas.wire [ExtnLemmas.norm o]) = 30) as Hw.
  { unfold ExtnLemmas.wire. cbn. rewrite !len_cons, app_nil_r. lia. }
  split; [|exact Hw]. unfold ExtnLemmas.all_padded. cbn [ExtnLemmas.padded].
  change (TLV.align_pad true 2 o) with 0. change (ExtnLemmas.pads 0 ++ ?l) with l. cbv zeta. rewrite Hw. done.
Qed.

(** The header keeps its path, and 32 bytes come in front of the message. *)
Lemma authenticate_safe p s1 R pld :
  (∀ f b, wf_bytes (cmac_Sum f b)) →
  wf_fields s1 → SCION.Path s1 = Some (PDecoded R) → Decoded.wf R → hdr_len s1 (PDecoded R) ≤ SCION.MaxHdrLen →
  MACBufferSize ≤ len (macInputBuffer p) →
  match authenticate aes_Encrypt cmac_Sum provider now s1 pld p with
  | (p', Ok (s2, buf)) => s2 = set_NextHdr L4.End2EndClass s1 ∧ (∃ ext, buf = ext ++ pld ∧ len ext = e2eAuthHdrLen) ∧ same_ports p p'
  | (_, Err _) => True
  | (_, Panic) => False
  end.
Proof using Hprovider laws.
  intros Hcmac Hf Hp HR Hl Ha. unfold authenticate. cbv zeta. set (s2 := set_NextHdr _ s1).
  assert (wf_fields s2) as Hf2 by (unfold s2; destruct Hf; by split).
  unfold KeyWindow.GetASHostKey. destruct (epoch_index_runs now) as (i & n & ->). go_cbn.
  set (key := KeyWindow.mkASHostKey _ _). rewrite (SE_bind_eq _ _ p p key) by done.
  pose proof (resetSPAO_safe key p) as Hr. unfold mbind at 1, SE_bind at 1, wrap_errS.
  destruct (resetSPAOMetadata now key p) as [p1 [[]|e|]]; [|done..]. cbn [wrap_err]. destruct Hr as (o & -> & Ho).
  destruct (auth_option_data o Ho) as [Wd Ld]. set (p1 := set_optAuth o p).
  rewrite (SE_bind_eq (gets id) _ p1 p1 p1) by done. change (optAuth p1) with o. change (macInputBuffer p1) with (macInputBuffer p).
  change (KeyWindow.Key key) with (make_bytes 16).
  destruct (reads_any o Wd ltac:(lia)) as [opts Hop].
  destruct (ComputeAuthCMAC_runs aes_Encrypt cmac_Sum (make_bytes 16) (aes_Encrypt (make_bytes 16)) s2 o opts L4.SCMP pld
    (macInputBuffer p) (PDecoded R) (Decoded.encode (still R))) as (q & rest & -> & Lr & Hk); [done|exact Hop|done|exact Hp|by constructor|exact Hl| |exact Ha|].
  { eapply hdr_lines. by constructor. }
  rewrite (Hk R eq_refl). assert (SCION.set_Path (PDecoded R) s2 = s2) as ->.
  { unfold s2. destruct s1. cbn in Hp. by rewrite Hp. }
  set (aux := _ ++ rest) in *. clearbody aux. set (tag := cmac_Sum _ _).
  assert (wf_bytes tag) as Wt by apply Hcmac. clearbody tag. cbn [wrap_err].
  rewrite (SE_bind_eq _ _ p1 p1 (aux, tag)) by done. unfold PacketAuth.PacketAuthOptionMetadataLen.
  destruct (split_len 12 (TLV.OptData o)) as (m & c & Ec & Lm & Lc); [lia|]. rewrite Ec in *.
  set (data := m ++ copy c tag).
  rewrite (SE_bind_eq _ _ p1 p1 data) by (unfold lift, on_sub_from, data; by rewrite on_sub_suffix by (rewrite ?len_app; done)).
  destruct Ho as (op & -> & _ & _ & _). cbn [TLV.OptType TLV.OptDataLen TLV.ActualLength TLV.OptAlign].
  apply wf_bytes_app in Wd as [Wm Wc]. rewrite len_app in Ld.
  assert (len data = 28) as Ldata by (unfold data; rewrite len_app, len_copy; lia).
  assert (wf_bytes data) as Wdata by (unfold data; rewrite wf_bytes_app; split; [done|]; unfold copy; apply wf_bytes_app; split; [by apply Forall_take|by apply Forall_drop]).
  clearbody data. destruct (auth_padded data Ldata) as [Ep Lw]. set (o' := TLV.mk _ 0 0 data (4, 2)) in *.
  unfold EndToEndExtn.SerializeTo. change [o'] with (Extn.Options (Extn.mk [] [] L4.SCMP 0 0 [o'])) in Ep.
  set (e := Extn.mk [] [] L4.SCMP 0 0 [o']) in *.
  rewrite (ExtnLemmas.Extn_SerializeTo_Ok _ _ e pld sopts);
    [|exact len_PrependBytes| |done|change (SCION.FixLengths sopts) with true; by rewrite Ep, Lw].
  2:{ apply Forall_cons_2; [|done]. split; cbn; try done. lia. }
  change (SCION.FixLengths sopts) with true. rewrite Ep. cbn zeta. split; [done|]. split.
  - set (w := ExtnLemmas.wire _) in *. exists ([Extn.NextHdr e; Extn.ExtLen (ExtnLemmas.serialized true e)] ++ w).
    split; [by rewrite app_assoc|]. rewrite len_app, Lw. done.
  - split; cbn; [done..|]. by rewrite Lr.
Qed.
(** ** The reply *)

Context (authentication : bool) (Hcmac : ∀ f b, wf_bytes (cmac_Sum f b)).

(** The packet that [out] is: a SCION header to the source of the packet with the
    path [R], and an SCMP message whose checksum verifies. *)
Definition scmp_payload (typ code c : Z) (m : message) (quote : bytes) : bytes :=
  [typ; code] ++ be_bytes 2 c ++ body m ++ quote.
Inductive is_reply (p : t) (R : Decoded.t) (typ code : Z) (m : message) (quote out : bytes) : Prop :=
| reply_bytes s1 c :
    replies (scionLayer p) (localIA (d p)) (internalIP (d p)) R s1 →
    SCION.computeChecksum (Some s1) (scmp_payload typ code c m quote) L4.SCMP = Ok 0 →
    let s2 := with_lens sopts (PDecoded R) (scmp_payload typ code c m quote) s1 in
    out = encode_cmn s2 ++ encode_addrs s2 ++ Decoded.encode R ++ scmp_payload typ code c m quote →
    is_reply p R typ code m quote out.

Lemma needs_auth_runs tc cause p D :
  answerable p D →
  ∃ p' b, needs_auth aes_Encrypt cmac_Sum provider now authentication tc cause p = (p', Ok b) ∧ same_ports p p' ∧
    (cause ≠ None → p' = p) ∧ (authentication = false → p' = p ∧ b = false).
Proof using Hprovider.
  intros Hp. unfold needs_auth. destruct authentication; [|by do 2 eexists].
  destruct cause; [by do 2 eexists|]. case_match; [|by do 2 eexists].
  destruct (hasValidAuth_runs p D Hp) as (p' & b & E & Hs). exists p', b. done.
Qed.

Lemma hdr_len_bound s R : Decoded.wf R → 0 ≤ hdr_len s (PDecoded R) ≤ 856.
Proof using.
  intros HR. pose proof (AddrHdrLen_range s). pose proof (Base.Len_range _ (Decoded.wf_base _ HR)).
  unfold hdr_len, SCION.CmnHdrLen, MetaLen in *. change (PathLen (PDecoded R)) with (Base.Len (Decoded.base R)). lia.
Qed.

(** The quote that fits behind the headers. *)
Lemma quote_of_safe pkt hdrLen :
  0 ≤ hdrLen ≤ SCMP.MaxSCMPPacketLen →
  ∃ quote, quote_of pkt hdrLen = Ok quote ∧ quote `prefix_of` pkt ∧ hdrLen + len quote ≤ SCMP.MaxSCMPPacketLen.
Proof using.
  intros Hh. unfold quote_of. cbv zeta. destruct (Z.ltb_spec (SCMP.MaxSCMPPacketLen - hdrLen) (len pkt)).
  - eexists. split; [apply sub_Ok; lia|]. rewrite drop_0, len_take. split; [apply prefix_take|lia].
  - exists pkt. split_and!; [done..|lia].
Qed.

Lemma quote_offset_body s1 R needsAuth m :
  match m with MTraceroute _ => False | _ => True end →
  quote_offset s1 R needsAuth (message_type m) = hdr_len s1 (PDecoded R) + (if needsAuth then e2eAuthHdrLen else 0) + 4 + len (body m).
Proof using.
  intros Hm. rewrite body_len. unfold quote_offset, hdr_len. cbv zeta. change (PathLen (PDecoded R)) with (Decoded.Len R).
  destruct m, needsAuth; try done; cbn [message_type]; repeat (case_match; [|]); try discriminate; unfold e2eAuthHdrLen; lia.
Qed.

Lemma replies_set_Path q s ia ip R s1 : replies (SCION.set_Path q s) ia ip R s1 → replies s ia ip R s1.
Proof using. intros []. by split. Qed.

(** The header that the reply ends up with. *)
Lemma serialize_reply s1 R buf :
  wf_fields s1 → SCION.Path s1 = Some (PDecoded R) → Decoded.wf R →
  ∃ s', SCION.SerializeTo PrependBytes buf sopts s1 =
    (s', Ok (encode_cmn (with_lens sopts (PDecoded R) buf s1) ++ encode_addrs (with_lens sopts (PDecoded R) buf s1) ++
             Decoded.encode R ++ buf)).
Proof using laws.
  intros Hf Hp HR. pose proof (hdr_len_bound s1 R HR) as Hb. unfold hdr_len in Hb.
  destruct (SerializeTo_encode PrependBytes s1 (PDecoded R) buf sopts len_PrependBytes Hf Hp HR) as (p' & path & -> & Lp & _ & _ & _ & rest & Lr & Es);
    [unfold SCION.MaxHdrLen; lia|eapply path_lines; by constructor|].
  eexists. do 2 f_equal. do 2 f_equal. f_equal.
  assert (Serialize rest (PDecoded R) = (PDecoded R, Decoded.SerializeTo R rest)) as Es' by done. rewrite Es in Es'.
  change (PathLen (PDecoded R)) with (Decoded.Len R) in *. rewrite Decoded.dec_SerializeTo_Ok in Es' by done.
  rewrite <- (Decoded.dec_len_encode _ HR) in Lp. set (enc := Decoded.encode R) in *. clearbody enc.
  injection Es' as _ Ep. apply app_inj_1 in Ep as [-> _]; [done|]. unfold len in Lp. lia.
Qed.
(** Why there may be no reply. *)
Definition unanswered (p : t) (D : Decoded.t) : Prop :=
  (∃ e, reply_path (bool_decide (is_Some (external (d p) !! ingressID p))) D = Err e) ∨ (∃ e, SCION.SrcAddr (scionLayer p) = Err e) ∨
  authentication = true.

Lemma parsed_packs ty raw a :
  AddrType.ParseAddr ty raw = Ok a → wf_bytes raw → len raw = AddrType.Length ty → ∃ r, AddrType.PackAddr a = Ok r.
Proof using.
  intros Ha Hw Hl. destruct (ParseAddr_wf _ _ _ Ha Hw Hl) as [Wa Va].
  pose proof (ScionHdrProperties.pack_parse_addr a Wa Va) as Hd. destruct (AddrType.PackAddr a) as [r|e|]; [by exists r| |done].
  exfalso. unfold AddrType.ParseAddr in Ha. destruct (_ =? _); [injection Ha as <-; by destruct Hd as [? [?|?]]|].
  destruct (_ =? _); [apply bind_Ok in Ha as (v & _ & [= <-]); by destruct Hd|].
  destruct (_ =? _); [injection Ha as <-; by destruct Hd as [? [?|?]]|done].
Qed.

Lemma reply_header_Err s ia ip R e :
  wf_fields s → IP.wf ip → IP.IsValid ip = true → reply_header s ia ip R = Err e → ∃ e, SCION.SrcAddr s = Err e.
Proof using.
  intros Hw Hip Hv. unfold reply_header. cbv zeta. destruct (wf_RawSrcAddr s Hw) as [Wsrc Lsrc].
  destruct (SCION.SrcAddr s) as [a|e'|] eqn:Ea; [|by eexists|done].
  destruct (parsed_packs _ _ _ Ea Wsrc Lsrc) as [[ty raw] Ep].
  cbn [wrap_err]. go_cbn. unfold SCION.SetDstAddr at 1. rewrite Ep. cbn [exec wrap_err]. go_cbn. unfold SCION.SetSrcAddr at 1.
  pose proof (ScionHdrProperties.pack_parse_addr (Host.HostIP ip) Hip ltac:(done)) as Hi.
  destruct (AddrType.PackAddr (Host.HostIP ip)) as [[ty' raw']|e'|]; [done| |done].
  destruct Hi as [_ [Hi|Hi]]; [done|]. cbn in Hi. by rewrite Hi in Hv.
Qed.

Let prepare := prepareSCMP aes_Encrypt cmac_Sum provider now authentication.
Definition came_external (p : t) : bool := bool_decide (is_Some (external (d p) !! ingressID p)).

(** What the router's own configuration has to say. *)
Record local_ok (dp : DataPlane.t) : Prop := {
  lk_ip : IP.wf (internalIP dp);
  lk_valid : IP.IsValid (internalIP dp) = true;
  lk_ia : is_u64 (localIA dp)
}.

(** A message with a cause is an error, and the others are traceroute replies. *)
Definition of_cause (m : message) (cause : option error) : Prop :=
  match m with MTraceroute _ => cause = None | _ => cause ≠ None end.

Lemma quote_runs s1 R m cause (na : bool) (x pkt : bytes) :
  0 ≤ hdr_len s1 (PDecoded R) ≤ 856 → of_cause m cause → (cause ≠ None → pkt = x) →
  ∃ quote, match cause with Some _ => quote_of pkt (quote_offset s1 R na (message_type m)) | None => Ok [] end = Ok quote ∧
    quote `prefix_of` x ∧ (cause = None → quote = []) ∧
    hdr_len s1 (PDecoded R) + (if na then e2eAuthHdrLen else 0) + 4 + len (body m) + len quote ≤ SCMP.MaxSCMPPacketLen.
Proof using.
  intros HB Hm Hx. pose proof (body_len m) as Lb. unfold of_cause in Hm. destruct cause as [e|].
  - rewrite (Hx ltac:(done)). rewrite quote_offset_body by (by destruct m). rewrite Lb.
    destruct (quote_of_safe x (hdr_len s1 (PDecoded R) + (if na then e2eAuthHdrLen else 0) + 4 + len (body m))) as (quote & E & Hp & Hl).
    { rewrite Lb. unfold e2eAuthHdrLen, SCMP.MaxSCMPPacketLen. destruct na, m; lia. }
    rewrite Lb in E, Hl. exists quote. split_and!; [exact E|done|done|lia].
  - exists []. split_and!; [done|apply prefix_nil|done|]. rewrite Lb. change (len (@nil Z)) with 0. unfold e2eAuthHdrLen, SCMP.MaxSCMPPacketLen. destruct na, m; lia.
Qed.

Lemma len_reply s1 R buf :
  wf_fields s1 → Decoded.wf R → let s2 := with_lens sopts (PDecoded R) buf s1 in
  len (encode_cmn s2 ++ encode_addrs s2 ++ Decoded.encode R ++ buf) = hdr_len s1 (PDecoded R) + len buf.
Proof using.
  intros Hf HR s2. pose proof (wf_with_lens sopts (PDecoded R) buf s1 Hf) as [_ _ _ _ _ _ _ _ _ _ _ [_ L1] [_ L2]].
  rewrite !len_app, len_encode_cmn, len_encode_addrs, (Decoded.dec_len_encode _ HR) by done.
  unfold s2. rewrite AddrHdrLen_with_lens. unfold hdr_len. change (PathLen (PDecoded R)) with (Decoded.Len R). unfold Decoded.Len. lia.
Qed.

(** [out] answers the packet of [p], whose path is [D]: the quote is what the packet
    starts with, after the path was written back to it. *)
Definition answer (p : t) (D : Decoded.t) (code : Z) (m : message) (cause : option error) (out : bytes) : Prop :=
  ∃ R x quote, reply_path (came_external p) D = Ok R ∧ placed R ∧
    same_outside (raw_offset (scionLayer p)) (Decoded.Len D) (rawPkt p) x ∧ quote `prefix_of` x ∧
    (cause = None → quote = []) ∧ is_reply p R (message_type m) code m quote out.

Lemma prepareSCMP_spec code m cause p D :
  answerable p D → placed D → local_ok (d p) → is_u8 code → of_cause m cause →
  match prepare (message_type m) code (Some m) cause p with
  | (p', Ok out) => same_ports p p' ∧ len out ≤ SCMP.MaxSCMPPacketLen ∧
      (authentication = false → answer p D code m cause out)
  | (_, Err _) => unanswered p D
  | (_, Panic) => False
  end.
Proof using Hprovider laws Hcmac.
  intros Hp Hpl [Hip Hiv Hia] Hcode Hm. unfold prepare, prepareSCMP. cbv zeta.
  destruct (on_raw_ToDecoded p D Hp) as (x & q & E & Hp1 & Ho). set (p1 := set_rawPkt x _) in *.
  rewrite (SE_bind_eq _ _ p p1 D) by (unfold wrap_errS; by rewrite E).
  rewrite (SE_bind_eq (gets id) _ p1 p1 p1) by done. change (bool_decide (is_Some (external (d p1) !! ingressID p1))) with (came_external p).
  pose proof (reply_path_safe (came_external p) D Hpl) as HR.
  destruct (reply_path (came_external p) D) as [R|e|] eqn:ER; [|left; by exists e|done].
  rewrite (SE_bind_eq _ _ p1 p1 R) by done. destruct HR as [HR LR].
  change (localIA (d p1)) with (localIA (d p)). change (internalIP (d p1)) with (internalIP (d p)).
  assert (wf_fields (scionLayer p1)) as Hf1 by apply (an_headed _ _ Hp1).
  pose proof (reply_header_spec (scionLayer p1) (localIA (d p)) (internalIP (d p)) R Hf1 Hip Hia) as Hh.
  destruct (reply_header _ _ _ R) as [s1|e|] eqn:Eh; [|right; left; by eapply (reply_header_Err _ _ _ _ e Hf1 Hip Hiv Eh)|done].
  rewrite (SE_bind_eq _ _ p1 p1 s1) by done. apply replies_set_Path in Hh.
  assert (is_u8 (message_type m)) as Htyp by (by destruct m).
  destruct (type_code (message_type m) code Htyp Hcode) as (tc & Etc & Htc & Ett & Ebc).
  rewrite (SE_bind_eq _ _ p1 p1 tc) by (unfold lift; by rewrite Etc).
  destruct (needs_auth_runs tc cause p1 D Hp1) as (p2 & na & En & Hs2 & Hc2 & Ha2).
  rewrite (SE_bind_eq _ _ p1 p2 na En). rewrite (SE_bind_eq (gets id) _ p2 p2 p2) by done.
  rewrite Ett. pose proof (hdr_len_bound s1 R (pl_wf _ HR)) as HB.
  destruct (quote_runs s1 R m cause na x (rawPkt p2) HB Hm) as (quote & Eq & Hpre & Hnone & Hlen); [intros Hc; by rewrite (Hc2 Hc)|].
  rewrite (SE_bind_eq _ _ p2 p2 quote) by (unfold lift; by rewrite Eq).
  assert (wf_bytes quote) as Wq by (destruct Hpre as [rest ->]; by apply (wf_bytes_app quote rest), (an_pkt _ _ Hp1)).
  assert (len quote ≤ 65000) as Lq by (pose proof (len_nonneg (body m)); destruct na; unfold e2eAuthHdrLen, SCMP.MaxSCMPPacketLen in *; lia).
  destruct (scmp_layers_Ok s1 tc (message_type m) code m quote (re_fields _ _ _ _ _ Hh) Htc Ebc Wq Lq) as (c & -> & Hc & Hk).
  fold (scmp_payload (message_type m) code c m quote) in *. set (pld := scmp_payload _ _ _ _ _) in *.
  assert (len pld = 4 + len (body m) + len quote) as Lp 
    by (unfold pld, scmp_payload; rewrite !len_app; change (len [_; _]) with 2; change (len (be_bytes 2 c)) with 2; lia).
  rewrite (SE_bind_eq _ _ p2 p2 pld) by done. destruct na.
  - assert (authentication = true) as Hyes by (destruct authentication; [done|by destruct (Ha2 eq_refl)]).
    pose proof (authenticate_safe p2 s1 R pld Hcmac (re_fields _ _ _ _ _ Hh) (re_path _ _ _ _ _ Hh) (pl_wf _ HR)) as Hau.
    destruct (authenticate _ _ _ _ s1 pld p2) as [p3 o] eqn:Eau. specialize (Hau ltac:(unfold SCION.MaxHdrLen; lia)).
    unfold mbind, SE_bind. rewrite Eau.
    specialize (Hau (sp_aux _ _ Hs2 (an_aux _ _ Hp1))). destruct o as [[s2 buf]|e|]; [|by right; right|done].
    destruct Hau as (-> & (ext & -> & Lext) & Hs3). unfold lift.
    destruct (serialize_reply (set_NextHdr L4.End2EndClass s1) R (ext ++ pld)) as (s' & ->);
      [by eapply set_NextHdr_replies; [exact Hh|]|apply (re_path _ _ _ _ _ Hh)|apply HR|].
    cbn [snd wrap_err]. split; [etransitivity; [|exact Hs3]; by etransitivity; [|exact Hs2]|]. split; [|by rewrite Hyes].
    rewrite len_reply by (apply HR || by eapply set_NextHdr_replies; [exact Hh|]).
    change (hdr_len (set_NextHdr _ s1) (PDecoded R)) with (hdr_len s1 (PDecoded R)). rewrite len_app, Lext. lia.
  - rewrite (SE_bind_eq _ _ p2 p2 (s1, pld)) by done. unfold lift.
    destruct (serialize_reply s1 R pld) as (s' & ->); [apply (re_fields _ _ _ _ _ Hh)|apply (re_path _ _ _ _ _ Hh)|apply HR|].
    cbn [snd wrap_err]. split; [by etransitivity; [|exact Hs2]|].
    split; [rewrite len_reply by (apply (re_fields _ _ _ _ _ Hh) || apply HR); lia|].
    intros _. exists R, x, quote. split_and!; try done. by eapply reply_bytes.
Qed.
(** ** The whole slow path *)

Context (capacity : Z) (Hcapacity : SCMP.MaxSCMPPacketLen ≤ capacity).
Let pack := packSCMP aes_Encrypt cmac_Sum provider now authentication capacity.

(** A packet with an SCMP error message in it. *)
Definition is_scmp_error (p : t) : Prop :=
  NextLayerType p = L4.LayerTypeSCMP ∧ ∃ h, decode_scmp p = Ok h ∧ TypeCode.InfoMsg (SCMP.TypeCode h) = false.

Lemma decode_scmp_safe p D : answerable p D → no_panic (decode_scmp p).
Proof using.
  intros Hp. unfold decode_scmp.
  pose proof (ScmpHeaderLemmas.SCMP_DecodeFromBytes_any (LayerPayload p) (SCMP.mk (BaseLayer.mk [] []) 0 0 None) (an_payload _ _ Hp)) as H.
  by destruct (SCMP.DecodeFromBytes _ _) as [h [[]|e|]].
Qed.

Lemma packSCMP_spec code m cause p D :
  answerable p D → placed D → local_ok (d p) → is_u8 code → of_cause m cause →
  match pack (message_type m) code (Some m) cause p with
  | (_, Ok res) => ∃ out, res = mkResult (ingressID p) (Some (srcAddr p)) (Some out) 0 ∧
      len out ≤ SCMP.MaxSCMPPacketLen ∧ (authentication = false → answer p D code m cause out) ∧ ¬ is_scmp_error p
  | (_, Err _) => unanswered p D ∨ is_scmp_error p ∨ NextLayerType p = L4.LayerTypeSCMP ∧ ∃ e, decode_scmp p = Err e
  | (_, Panic) => False
  end.
Proof using Hprovider laws Hcmac Hcapacity.
  intros Hp Hpl Hk Hcode Hm. unfold pack, packSCMP. rewrite (SE_bind_eq (gets id) _ p p p) by done.
  set (o := if bool_decide (NextLayerType p = L4.LayerTypeSCMP) then _ else _).
  assert (match o with Ok _ => ¬ is_scmp_error p | Panic => False
          | Err _ => is_scmp_error p ∨ NextLayerType p = L4.LayerTypeSCMP ∧ ∃ e, decode_scmp p = Err e end) as Ho.
  { unfold o. pose proof (decode_scmp_safe p D Hp) as Hs. case_bool_decide as Et; [|by intros [? _]].
    destruct (decode_scmp p) as [h|e|] eqn:Ed; [|right; by split; [|exists e]|done]. cbn [wrap_err]. go_cbn.
    destruct (TypeCode.InfoMsg (SCMP.TypeCode h)) eqn:Ei; cbn [negb fail_if].
    - intros (_ & h' & Eh & Ei'). rewrite Ed in Eh. injection Eh as <-. by rewrite Ei in Ei'.
    - left. split; [done|]. by exists h. }
  destruct o as [[]|e|]; [|by right|done]. rewrite (SE_bind_eq _ _ p p tt) by done.
  pose proof (prepareSCMP_spec code m cause p D Hp Hpl Hk Hcode Hm) as Hs. unfold mbind at 1, SE_bind at 1.
  unfold prepare in Hs.
  destruct (prepareSCMP _ _ _ _ _ _ _ _ _ p) as [p1 [out|e|]] eqn:Epr; [|by left|done].
  destruct Hs as ([_ Ei Es _] & Hl & Ha). replace (capacity <? len out) with false by lia.
  rewrite (SE_bind_eq _ _ p1 p1 tt) by done. rewrite (SE_bind_eq (modify _) _ p1 (set_rawPkt out p1) tt) by done.
  exists out. cbn. by rewrite Ei, Es.
Qed.

Lemma traceroute_request_safe p D : answerable p D → no_panic (traceroute_request p).
Proof using.
  intros Hp. unfold traceroute_request. apply no_panic_bind; [auto with go|]. intros _ _.
  apply no_panic_bind; [by eapply decode_scmp_safe|]. intros h _. apply no_panic_bind; [done|]. intros tc _.
  apply no_panic_bind; [auto with go|]. intros _ _. apply NoPanicLemmas.Traceroute_no_panic.
Qed.
End auth.

(** ** Decoding *)

Lemma Skip_safe check data e :
  check = Extn.checkHopByHopExtnNextHdr ∨ check = Extn.checkEndToEndExtnNextHdr → wf_bytes data →
  match Extn.Skip check data e with
  | (e', Ok _) => wf_bytes (Extn.Contents e') ∧ wf_bytes (Extn.Payload e')
  | (_, Err _) => True
  | (_, Panic) => False
  end.
Proof.
  intros Hc Hb. unfold Extn.Skip, mbind, SE_bind, Extn.set_extnBase. pose proof (ExtnLemmas.decodeExtnBase_any data Hb) as Hd.
  destruct (Extn.decodeExtnBase data) as [e' [[]|err|]]; [|done..]. unfold gets, lift, id.
  destruct Hd as (body & post & Ed & Ee & _). destruct (check (Extn.NextHdr e')) as [[]|err|] eqn:Ec; [|done|].
  - rewrite Ee. cbn [Extn.Contents Extn.Payload]. rewrite Ed, app_assoc in Hb. by apply wf_bytes_app in Hb.
  - destruct Hc as [-> | ->]; [unfold Extn.checkHopByHopExtnNextHdr, fail_if in Ec|unfold Extn.checkEndToEndExtnNextHdr in Ec]; by repeat case_match.
Qed.

(** The layers of a packet on the slow path. *)
Record slow_layers (pkt : bytes) (p : t) : Prop := {
  ly_scion : decoded pkt (scionLayer p);
  ly_pkt : rawPkt p = pkt;
  ly_payload : wf_bytes (LayerPayload p);
  ly_contents : wf_bytes (Extn.Contents (e2eLayer p))
}.
Definition decodes (pkt : bytes) (m : SE t unit) (p : t) : Prop :=
  match m p with
  | (p', Ok _) => slow_layers pkt p' ∧ same_ports p p'
  | (_, Err _) => True
  | (_, Panic) => False
  end.

Lemma decode_opt_hbh pkt p :
  slow_layers pkt p → decodes pkt (decode_opt LHopByHop (λ data, zoom hbhLayer set_hbh (HopByHopExtnSkipper.DecodeFromBytes data))) p.
Proof.
  intros Hl. unfold decodes, decode_opt. case_bool_decide; [|done]. unfold mbind, SE_bind, zoom.
  pose proof (Skip_safe Extn.checkHopByHopExtnNextHdr (LayerPayload p) (hbhLayer p) (or_introl eq_refl) (ly_payload _ _ Hl)) as Hs.
  change (Extn.Skip Extn.checkHopByHopExtnNextHdr) with HopByHopExtnSkipper.DecodeFromBytes in Hs.
  destruct (HopByHopExtnSkipper.DecodeFromBytes _ _) as [e [[]|err|]]; [|done..]. destruct Hl, Hs. split; by split.
Qed.
Lemma decode_opt_e2e pkt p :
  slow_layers pkt p → decodes pkt (decode_opt LEndToEnd (λ data, zoom e2eLayer set_e2e (EndToEndExtnSkipper.DecodeFromBytes data))) p.
Proof.
  intros Hl. unfold decodes, decode_opt. case_bool_decide; [|done]. unfold mbind, SE_bind, zoom.
  pose proof (Skip_safe Extn.checkEndToEndExtnNextHdr (LayerPayload p) (e2eLayer p) (or_intror eq_refl) (ly_payload _ _ Hl)) as Hs.
  change (Extn.Skip Extn.checkEndToEndExtnNextHdr) with EndToEndExtnSkipper.DecodeFromBytes in Hs.
  destruct (EndToEndExtnSkipper.DecodeFromBytes _ _) as [e [[]|err|]]; [|done..]. destruct Hl, Hs. split; by split.
Qed.

Lemma decodeLayers_safe reg pkt p :
  wf_bytes pkt → rawPkt p = pkt → wf_bytes (Extn.Contents (e2eLayer p)) → decodes pkt (SlowPath.decodeLayers reg pkt) p.
Proof.
  intros Hb Ep Hc. unfold SlowPath.decodeLayers. unfold decodes, zoom.
  pose proof (DecodeFromBytes_any reg pkt (scionLayer p) Hb) as Hd. unfold mbind at 1, SE_bind at 1.
  destruct (SCION.DecodeFromBytes reg pkt (scionLayer p)) as [s [[]|err|]]; [|done..].
  set (p1 := set_last LSCION (set_scion s p)). rewrite (SE_bind_eq (modify _) _ (set_scion s p) p1 tt) by done.
  assert (slow_layers pkt p1) as Hl.
  { split; [done..| |done]. change (wf_bytes (SCION.Payload s)). rewrite <- (decoded_split _ _ Hd) in Hb. by apply wf_bytes_app in Hb as [_ ?]. }
  pose proof (decode_opt_hbh pkt p1 Hl) as H1. unfold decodes in H1. unfold mbind, SE_bind, zoom in *.
  destruct (decode_opt LHopByHop _ p1) as [p2 [[]|err|]]; [|done..]. destruct H1 as [H1 S1].
  pose proof (decode_opt_e2e pkt p2 H1) as H2. unfold decodes, zoom in H2.
  destruct (decode_opt LEndToEnd _ p2) as [p3 [[]|err|]]; [|done..]. destruct H2 as [H2 S2].
  split; [done|]. etransitivity; [|exact S2]. etransitivity; [|exact S1]. by split.
Qed.

Lemma find_path_safe pkt p :
  wf_bytes pkt → slow_layers pkt p → MACBufferSize ≤ len (macInputBuffer p) →
  match find_path p with
  | (p', Ok _) => same_ports p p' ∧ scionLayer p' = scionLayer p ∧ ∃ D, answerable p' D
  | (_, Err _) => True
  | (_, Panic) => False
  end.
Proof.
  intros Hb [Hd Ep Hp Hc] Ha. 
  assert (∀ r o, raw_path (scionLayer p) = Some r → ∃ D, answerable (set_path o p) D) as K.
  { intros r o Hr. destruct (decoded_path _ _ Hd) as (q & Eq & Wq & Lq).
    assert (Raw.wf r ∧ raw_offset (scionLayer p) + Raw.Len r ≤ SCION.HdrLen (scionLayer p) * AddrType.LineLen) as [Wr Lr].
    { unfold raw_path, raw_offset in *. rewrite Eq in *. destruct q as [| |r0| |e|]; try done.
      - injection Hr as ->. split; [done|]. exact Lq.
      - destruct Wq as [_ _ _ _ (r1 & Er & Wr)]. rewrite Hr in Er. injection Er as <-. split; [done|].
        change (PathLen (PEpic e)) with (Epic.Len e) in Lq. unfold Epic.Len in Lq. rewrite Hr in Lq. unfold path_offset. lia. }
    destruct (repr_exists r Wr) as [D HD]. exists D.
    pose proof (decoded_HdrLen _ _ Hd) as Lh. pose proof (decoded_split _ _ Hd) as Es.
    pose proof (wf_HdrLen _ (decoded_fields _ _ Hd)) as Wh.
    split; cbn; [split|by rewrite Ep| |done..].
    - apply (decoded_fields _ _ Hd).
    - exists q, r. split_and!; try done. unfold hdr_len, SCION.MaxHdrLen, AddrType.LineLen in *. uint_bounds. lia.
    - assert (Raw.Len r = Decoded.Len D) as <- by (unfold Raw.Len, Decoded.Len; by rewrite (repr_base _ _ HD)).
      rewrite Ep, <- Es, len_app, Lh. pose proof (len_nonneg (SCION.Payload (scionLayer p))). lia. }
  unfold find_path. cbv zeta. unfold raw_path in K. repeat case_match; try done; simplify_eq;
    (split; [by split|]; split; [done|]; by eapply K).
Qed.

End AnswerLemmas.
