(* ===== verification/RouterTyped.v ===== *)
(** The types of the router: whatever it makes of a packet, the bytes of its
    buffers are bytes, its fields fit their widths, and the requests that it
    passes to the slow path are ones that the slow path knows. *)
From S2P Require Export RouterTotal RouterReply.

(** * Bytes stay bytes *)
Module ByteTypes.

Lemma wf_copy dst src : wf_bytes dst → wf_bytes src → wf_bytes (copy dst src).
Proof. intros Hd Hs. unfold copy. apply wf_bytes_app. split; [by apply Forall_take|by apply Forall_drop]. Qed.

Lemma split_at_inv {A} n (l a r : list A) : split_at n l = Some (a, r) → l = a ++ r.
Proof.
  revert l a. induction n as [|n IH]; intros l a H; [by injection H as <- <-|].
  destruct l as [|x l]; [done|]. cbn in H. destruct (split_at n l) as [[a' r']|] eqn:E; [|done].
  injection H as <- <-. cbn. by rewrite (IH _ _ E).
Qed.

(** What is written into a slice are bytes again. *)
Lemma wf_on_sub b lo hi f b' :
  (∀ m m', wf_bytes m → f m = Ok m' → wf_bytes m') → wf_bytes b → on_sub b lo hi f = Ok b' → wf_bytes b'.
Proof.
  intros Hf Hb H. unfold on_sub in H. destruct (_ || _); [done|].
  destruct (split_at _ b) as [[a r]|] eqn:E1; [|done]. destruct (split_at _ r) as [[m c]|] eqn:E2; [|done].
  apply split_at_inv in E1 as ->. apply split_at_inv in E2 as ->.
  rewrite !wf_bytes_app in Hb. apply bind_Ok in H as (m' & Em & [= <-]). rewrite !wf_bytes_app. naive_solver.
Qed.
Lemma wf_put b i v b' : wf_bytes b → is_u8 v → put b i v = Ok b' → wf_bytes b'.
Proof.
  intros Hb Hv H. unfold put in H. destruct (_ <? 0); [done|].
  destruct (split_at _ b) as [[a [|x c]]|] eqn:E; try done. injection H as <-. apply split_at_inv in E as ->.
  rewrite wf_bytes_app in *. destruct Hb as [? [_ ?]%Forall_cons_1]. split; [done|]. by apply Forall_cons_2.
Qed.
Lemma wf_put_be n v b b' : wf_bytes b → put_be n v b = Ok b' → wf_bytes b'.
Proof.
  intros Hb H. unfold put_be in H. destruct (split_at n b) as [[a r]|] eqn:E; [|done]. injection H as <-.
  apply split_at_inv in E as ->. rewrite wf_bytes_app in *. split; [apply wf_be_bytes|apply Hb].
Qed.
Lemma wf_get b i v : wf_bytes b → get b i = Ok v → is_u8 v.
Proof.
  intros Hb H. unfold get in H. destruct (_ <? 0); [done|]. destruct (b !! _) eqn:E; [|done]. injection H as <-.
  by eapply Forall_lookup_1.
Qed.
Lemma wf_xor a b : wf_bytes a → wf_bytes b → wf_bytes (AES.xor_bytes a b).
Proof.
  intros Ha Hb. unfold AES.xor_bytes. revert b Hb. induction Ha as [|x a Hx _ IH]; intros [|y b] Hb; try by constructor.
  apply Forall_cons_1 in Hb as [Hy Hb]. cbn. apply Forall_cons_2; [by apply lxor_uint|by apply IH].
Qed.

(** Fields. *)
Lemma wf_info_SerializeTo i b b' : wf_bytes b → InfoField.SerializeTo i b = Ok b' → wf_bytes b'.
Proof.
  intros Hb H. destruct (Z.leb_spec InfoField.InfoLen (len b)) as [Hl|Hl].
  - rewrite InfoField.info_SerializeTo_Ok in H by done. apply Ok_inj in H as <-. apply wf_bytes_app. split; [apply InfoField.info_encode_wf|by apply Forall_drop].
  - unfold InfoField.SerializeTo in H. by rewrite (proj2 (Z.ltb_lt _ _) Hl) in H.
Qed.
Lemma wf_hop_SerializeTo h b b' : HopField.wf h → wf_bytes b → HopField.SerializeTo h b = Ok b' → wf_bytes b'.
Proof.
  intros Hh Hb H. destruct (Z.leb_spec HopField.HopLen (len b)) as [Hl|Hl].
  - rewrite HopField.hop_SerializeTo_Ok in H by (done || apply Hh). apply Ok_inj in H as <-. apply wf_bytes_app. split; [by apply HopField.hop_encode_wf|by apply Forall_drop].
  - unfold HopField.SerializeTo in H. by rewrite (proj2 (Z.ltb_lt _ _) Hl) in H.
Qed.

(** ** Raw paths *)

Definition raw_typed {A} (m : SE Raw.t A) : Prop := ∀ r, Raw.wf r → Raw.wf (m r).1.

Lemma write_raw_typed lo hi f :
  (∀ m m', wf_bytes m → f m = Ok m' → wf_bytes m') → (∀ m m', f m = Ok m' → len m' = len m) →
  raw_typed (Raw.write_raw (λ b, on_sub b lo hi f)).
Proof.
  intros Hf Hl r Hr. unfold Raw.write_raw. destruct (on_sub _ lo hi f) as [b| |] eqn:E; [|done..].
  pose proof (wf_on_sub _ _ _ _ _ Hf (Raw.wf_raw _ Hr) E) as Hb. pose proof (PathLemmas.len_on_sub _ _ _ _ _ Hl E) as Lb.
  destruct Hr. split; unfold Raw.raw_bytes, Raw.Len; cbn; try done. by rewrite Lb.
Qed.

Lemma SetInfoField_typed info idx : raw_typed (Raw.SetInfoField info idx).
Proof.
  intros r Hr. unfold Raw.SetInfoField. destruct (_ <=? _); [done|]. apply write_raw_typed; [|apply PathLemmas.len_info_SerializeTo|done].
  intros m m' Hm. by apply wf_info_SerializeTo.
Qed.
Lemma SetHopField_typed hop idx : HopField.wf hop → raw_typed (Raw.SetHopField hop idx).
Proof.
  intros Hh r Hr. unfold Raw.SetHopField. destruct (_ <=? _); [done|]. apply write_raw_typed; [|apply PathLemmas.len_hop_SerializeTo|done].
  intros m m' Hm. by apply wf_hop_SerializeTo.
Qed.
Lemma raw_IncPath_typed : raw_typed Raw.IncPath.
Proof.
  intros r Hr. unfold Raw.IncPath, mbind, SE_bind, zoom. destruct (Base.IncPath (Raw.base r)) as [b o] eqn:E.
  pose proof (Base.IncPath_wf _ _ _ (Raw.wf_base _ Hr) E) as Hb.
  assert (Base.NumINF b = Base.NumINF (Raw.base r) ∧ Base.NumHops b = Base.NumHops (Raw.base r)) as [E1 E2]
    by (unfold Base.IncPath in E; by repeat case_match; simplify_eq).
  assert (Raw.wf (Raw.set_base b r)) as Hr'.
  { destruct Hr as [_ ? ? Hl]. split; try done. change (Raw.raw_bytes (Raw.set_base b r)) with (Raw.raw_bytes r).
    unfold Raw.Len, Raw.set_base, Base.Len in *. cbn. by rewrite E1, E2. }
  destruct o as [[]| |]; [|done..]. destruct (flush_meta_raw _ Hr') as (r' & -> & Er & _). by apply Er.
Qed.

Lemma GetHopField_typed r idx h : Raw.wf r → Raw.GetHopField r idx = Ok h → HopField.wf h.
Proof.
  intros Hr H. unfold Raw.GetHopField in H. go_inv. eapply HopField.hop_DecodeFromBytes_inv; [|done]. eapply wf_bytes_sub; [apply (Raw.wf_raw _ Hr)|done].
Qed.
Lemma GetInfoField_typed r idx i : Raw.wf r → Raw.GetInfoField r idx = Ok i → InfoField.wf i.
Proof.
  intros Hr H. unfold Raw.GetInfoField in H. go_inv. eapply InfoField.info_DecodeFromBytes_inv; [|done]. eapply wf_bytes_sub; [apply (Raw.wf_raw _ Hr)|done].
Qed.

(** ** Validation fields *)

Definition md_typed (m : Fabrid.md) : Prop := is_u8 (Fabrid.EncryptedPolicyID m) ∧ wf_bytes (Fabrid.HopValidationField m).

Lemma is_u8_ones x : is_u8 x ↔ Z.land x (Z.ones 8) = x.
Proof.
  rewrite Z.land_ones by done. change (2 ^ 8) with 256. split; [intros; apply Z.mod_small; ulia|].
  intros <-. pose proof (Z.mod_pos_bound x 256). ulia.
Qed.
Lemma land_u8 x k : is_u8 x → is_u8 (Z.land x k).
Proof. rewrite !is_u8_ones. intros H. by rewrite <- Z.land_assoc, (Z.land_comm k), Z.land_assoc, H. Qed.
Lemma lor_u8 x y : is_u8 x → is_u8 y → is_u8 (Z.lor x y).
Proof. rewrite !is_u8_ones. intros Hx Hy. by rewrite Z.land_lor_distr_l, Hx, Hy. Qed.

Lemma serialize_md_typed m b b' : md_typed m → wf_bytes b → Fabrid.serialize_md m b = Ok b' → wf_bytes b'.
Proof.
  intros [Hp Hv] Hb H. unfold Fabrid.serialize_md in H.
  apply bind_Ok in H as (b1 & E1 & H). apply bind_Ok in H as (b2 & E2 & H). apply bind_Ok in H as (x & E3 & H).
  pose proof (wf_put _ _ _ _ Hb Hp E1) as W1.
  assert (wf_bytes b2) as W2 by (eapply wf_on_sub; [|exact W1|exact E2]; intros ? ? ? [= <-]; by apply wf_copy).
  pose proof (wf_get _ _ _ W2 E3) as Wx. eapply wf_put; [exact W2| |exact H]. 
  repeat case_match; repeat first [apply lor_u8 | apply land_u8 | done].
Qed.
Lemma SerializeTo_md_typed m b b' : md_typed m → wf_bytes b → Fabrid.SerializeTo_md m b = Ok b' → wf_bytes b'.
Proof. intros Hm Hb H. unfold Fabrid.SerializeTo_md in H. go_inv. by eapply serialize_md_typed. Qed.

(** Bytes read from bytes. *)
Ltac slice := eapply wf_bytes_sub; [|eassumption]; done.

Lemma decode_md_typed b m m' : wf_bytes b → md_typed m → Fabrid.decode_md b m = (m', Ok tt) → md_typed m'.
Proof.
  intros Hb [_ Hv] H. unfold Fabrid.decode_md in H. apply SE_bind_Ok in H as (? & ? & [= <- <-] & H). unfold id in H.
  apply SE_bind_Ok in H as (? & b0 & [= <- E0] & H). apply SE_bind_Ok in H as (? & src & [= <- Es] & H).
  apply SE_bind_Ok in H as (? & b1 & [= <- E1] & H). apply SE_bind_Ok in H as (? & h0 & [= <- Eh] & H).
  apply SE_bind_Ok in H as (? & hvf & [= <- Ev] & H). injection H as <-.
  assert (wf_bytes (copy (Fabrid.HopValidationField m) src)) as Wc by (apply wf_copy; [done|slice]).
  split; [eapply wf_get; [|eassumption]; done|]. cbn. eapply wf_put; [exact Wc| |exact Ev]. apply land_u8. eapply wf_get; [|eassumption]; done.
Qed.

Lemma ParseFabrid_typed o cur num f :
  wf_bytes (TLV.OptData o) → Fabrid.ParseFabridOptionCurrentHop o cur num = Ok f → Forall md_typed (Fabrid.HopfieldMetadata f).
Proof.
  intros Hb H. unfold Fabrid.ParseFabridOptionCurrentHop, Fabrid.run_new, Fabrid.DecodeForHF in H. apply bind_Ok in H as ([] & _ & H).
  rewrite (SE_bind_eq (gets id) _ _ (Some Fabrid.zero) (Some Fabrid.zero)) in H by done.
  unfold mbind at 1, SE_bind at 1, lift at 1 in H. destruct (Fabrid.validate _ _ _ _) as [[]| |]; [|done..].
  unfold mbind at 1, SE_bind at 1, lift at 1 in H. destruct (Fabrid.new_md _ _) as [m| |] eqn:Em; [|done..].
  cbn in H. injection H as <-. apply Forall_cons_2; [|done]. unfold Fabrid.new_md in Em.
  apply bind_Ok in Em as (raw & Er & Em). destruct (Fabrid.decode_md raw Fabrid.md_zero) as [m' [[]| |]] eqn:Ed; [|done..].
  injection Em as <-. eapply decode_md_typed; [|split|exact Ed]; [slice|done|change (wf_bytes [0; 0; 0]); by_decide].
Qed.

Section cipher.
Context {aes_Encrypt : bytes → bytes → bytes} {cipher : DrkeyLemmas.BlockCipher aes_Encrypt}.
Import AES FabridCrypto.

Lemma cbc_typed E n iv src :
  (∀ b, wf_bytes b → wf_bytes (E b)) → wf_bytes iv → wf_bytes src → wf_bytes (cbc E n iv src).1 ∧ wf_bytes (cbc E n iv src).2.
Proof using.
  intros HE. revert iv src. induction n as [|n IH]; intros iv src Hi Hs; [split; [constructor|done]|]. cbn [cbc].
  set (c := E _). assert (wf_bytes c) as Hc by (apply HE, wf_xor; [by apply Forall_take|done]).
  destruct (IH c (drop 16 src) Hc ltac:(by apply Forall_drop)) as [H1 H2]. destruct (cbc E n c _) as [out iv']. cbn in *.
  split; [|done]. by apply wf_bytes_app.
Qed.
Lemma CryptBlocks_typed E iv dst src r :
  (∀ b, wf_bytes b → wf_bytes (E b)) → wf_bytes iv → wf_bytes dst → wf_bytes src → CryptBlocks E iv dst src = Ok r →
  wf_bytes r.1 ∧ wf_bytes r.2.
Proof using.
  intros HE Hi Hd Hs H. unfold CryptBlocks in H. destruct (_ || _); [done|].
  pose proof (cbc_typed E (Z.to_nat (len src / 16)) iv src HE Hi Hs) as [H1 H2]. destruct (cbc _ _ _ _) as [out iv'].
  injection H as <-. split; [by apply wf_copy|done].
Qed.

Lemma macBlock_typed key tmp src dst r :
  wf_bytes tmp → wf_bytes src → wf_bytes dst → macBlock aes_Encrypt key tmp src dst = Ok r → wf_bytes r.1 ∧ wf_bytes r.2.
Proof using cipher.
  intros Ht Hs Hd H. unfold macBlock in H. apply bind_Ok in H as (E & EE & H). apply wrap_err_Ok in EE.
  assert (∀ b, wf_bytes b → wf_bytes (E b)) as HE.
  { unfold NewCipher in EE. destruct (_ || _); [injection EE as <-|done]. apply DrkeyLemmas.aes_block_wf. }
  apply bind_Ok in H as (? & _ & H). apply bind_Ok in H as (? & _ & H). apply bind_Ok in H as (? & _ & H).
  assert (wf_bytes zeroBlock) as Hz by (unfold zeroBlock; by_decide).
  apply bind_Ok in H as ([dst1 iv] & Er & H).
  assert (wf_bytes dst1 ∧ wf_bytes iv) as [Hd1 Hiv].
  { destruct (negb _); [|by injection Er as <- <-]. apply bind_Ok in Er as (whole & Ew & Er).
    eapply (CryptBlocks_typed _ _ _ _ (dst1, iv)); [exact HE|exact Hz|exact Hd| |exact Er]. slice. }
  match type of H with (if ?c then _ else _) = _ => destruct c end; [|by injection H as <-].
  apply bind_Ok in H as (rest & Ere & H). apply bind_Ok in H as (zeros & Ez & H). apply bind_Ok in H as (tmp1 & Et & H).
  apply bind_Ok in H as ([dst2 iv2] & E2 & H). injection H as <-.
  assert (wf_bytes tmp1) as Ht1.
  { eapply wf_on_sub; [|apply (wf_copy tmp rest); [done|slice]|exact Et]. intros m m' Hm [= <-].
    apply wf_copy; [done|slice]. }
  pose proof (CryptBlocks_typed _ _ _ _ _ HE Hiv Hd1 Ht1 E2) as [? _]. done.
Qed.

Lemma Serialize_typed id b b' : wf_bytes b → Identifier.Serialize id b = Ok b' → wf_bytes b'.
Proof using.
  intros Hb H. unfold Identifier.Serialize in H. destruct id as [id|]; [|done]. apply bind_Ok in H as (? & _ & H).
  apply bind_Ok in H as (b1 & E1 & H).
  eapply wf_on_sub; [|eapply wf_on_sub; [|exact Hb|exact E1]|exact H]; intros m m' Hm; apply wf_put_be; done.
Qed.

Lemma computeFabridHVF_typed f id s tmpBuffer resultBuffer key ingress egress r :
  md_typed f → wf_bytes (SCION.RawSrcAddr s) → wf_bytes tmpBuffer → wf_bytes resultBuffer →
  computeFabridHVF aes_Encrypt f id s tmpBuffer resultBuffer key ingress egress = Ok r → wf_bytes r.2.
Proof using cipher.
  intros [Hp _] Hs Ht Hr H. unfold computeFabridHVF in H. do 3 apply bind_Ok in H as (? & _ & H).
  apply bind_Ok in H as (b1 & E1 & H). apply bind_Ok in H as (b2 & E2 & H). apply bind_Ok in H as (b3 & E3 & H).
  apply bind_Ok in H as (b4 & E4 & H). apply bind_Ok in H as (b5 & E5 & H). apply bind_Ok in H as (b6 & E6 & H).
  assert (wf_bytes b1) as W1 by (eapply wf_on_sub; [|exact Ht|exact E1]; intros m m' Hm; by apply Serialize_typed).
  assert (wf_bytes b2) as W2 by (eapply wf_on_sub; [|exact W1|exact E2]; intros m m' Hm; by apply wf_put_be).
  assert (wf_bytes b3) as W3 by (eapply wf_on_sub; [|exact W2|exact E3]; intros m m' Hm; by apply wf_put_be).
  assert (wf_bytes b4) as W4 by (by eapply wf_put).
  assert (wf_bytes b5) as W5 by (eapply wf_put; [exact W4| |exact E5]; by apply uint_of_range).
  assert (wf_bytes b6) as W6 by (eapply wf_on_sub; [|exact W5|exact E6]; intros m m' Hm [= <-]; by apply wf_copy).
  apply bind_Ok in H as (tmp & Et & H). apply bind_Ok in H as (src & Es & H). apply bind_Ok in H as ([tmp1 res] & Em & H).
  apply bind_Ok in H as (b7 & _ & H). injection H as <-. 
  eapply (macBlock_typed _ _ _ _ (tmp1, res)); [..|exact Em]; [slice|slice|done].
Qed.

Lemma VerifyAndUpdate_typed f id s tmpBuffer key ingress egress f' :
  md_typed f → wf_bytes (SCION.RawSrcAddr s) → wf_bytes tmpBuffer →
  VerifyAndUpdate aes_Encrypt f id s tmpBuffer key ingress egress = Ok f' → md_typed f'.
Proof using cipher.
  intros Hf Hs Ht H. unfold VerifyAndUpdate in H. apply bind_Ok in H as (r & Er & H).
  apply computeFabridHVF_typed in Er; [|done..|by_decide].
  apply bind_Ok in H as (b1 & E1 & H). apply bind_Ok in H as (? & _ & H). apply bind_Ok in H as (? & _ & H).
  apply bind_Ok in H as (b2 & E2 & H). apply bind_Ok in H as (hvf & Eh & H). injection H as <-.
  assert (∀ b i b', wf_bytes b → mask6 b i = Ok b' → wf_bytes b') as Hmask.
  { intros b i b' Hb Hm. unfold mask6 in Hm. apply bind_Ok in Hm as (y & Ey & Hm). eapply wf_put; [exact Hb| |exact Hm].
    apply land_u8. eapply wf_get; [|eassumption]; done. }
  destruct Hf as [Hp Hv]. split; [done|]. cbn. apply wf_copy; [done|]. eapply wf_bytes_sub; [|exact Eh]. eauto.
Qed.
End cipher.

End ByteTypes.

(** * The steps of the processor *)
Module TypedLemmas.

Import Net DataPlane LocalDelivery Processor PacketProcessor StepLemmas ByteTypes.

(** The fields of a processor fit their types. *)
Record typed (p : t) : Prop := {
  ty_pkt : wf_bytes (rawPkt p);
  ty_ingress : is_u16 (ingressID p);
  ty_header : ScionHdrLemmas.wf_fields (scionLayer p);
  ty_options : Forall (λ o, wf_bytes (TLV.OptData o)) (Extn.Options (hbhLayer p));
  ty_info : InfoField.wf (infoField p);
  ty_hop : HopField.wf (hopField p);
  ty_mac : wf_bytes (default [] (cachedMac p));
  ty_fabrid : Forall md_typed (default [] (Fabrid.HopfieldMetadata <$> fabrid p));
  ty_ia : is_u64 (localIA (d p))
}.
(** So does its path, once it is set. *)
Record typed_path (p : t) : Prop := {
  tp_typed : typed p;
  tp_path : Raw.wf (path p)
}.

(** A request that the slow path can serve. *)
Record request_typed (q : slowPathRequest) : Prop := {
  rq_code : is_u8 (code q);
  rq_pointer : is_u16 (pointer q);
  rq_ia : is_u64 (ia q);
  rq_interface : is_u16 (interfaceId q) ∧ is_u16 (ingressId q) ∧ is_u16 (egressId q);
  rq_message : typ q = slowPathSCMP → ∃ m, SlowPath.request_message q = Some m ∧
    ReplyLemmas.message_type m = scmpType q ∧ AnswerLemmas.of_cause m (cause q)
}.

(** A step from [p] keeps the types: of the state with every verdict, of what it
    returns, and of its request to the slow path. *)
Definition typed_result {A} (Q : A → Prop) (r : t * verdict A) : Prop :=
  typed_path r.1 ∧ match r.2 with Continue a => Q a | SlowPath q => request_typed q | _ => True end.
Definition wt {A} (Q : A → Prop) (m : P A) (p : t) : Prop := typed_path p → typed_result Q (m p).
Definition any {A} (a : A) : Prop := True.

Lemma wt_bind {A B} (Q : A → Prop) (R : B → Prop) (m : P A) (f : A → P B) p :
  wt Q m p → (∀ p' a, typed_path p' → Q a → wt R (f a) p') → wt R (m ≫= f) p.
Proof.
  intros Hm Hf Hp. destruct (Hm Hp) as [H1 H2]. unfold mbind, P_bind. destruct (m p) as [p1 [a| | |]]; [by apply Hf|by split..].
Qed.
Lemma wt_weaken {A} (Q R : A → Prop) (m : P A) p : (∀ a, Q a → R a) → wt Q m p → wt R m p.
Proof. intros HQ Hm Hp. destruct (Hm Hp) as [H1 H2]. split; [done|]. destruct (m p).2; auto. Qed.
Lemma wt_ret {A} (Q : A → Prop) a p : Q a → wt Q (mret a) p.
Proof. by intros Ha Hp. Qed.
Lemma wt_update f p : (typed_path p → typed_path (f p)) → wt any (update f) p.
Proof. intros Hf Hp. by split; [apply Hf|]. Qed.
Lemma wt_call {A} (Q : A → Prop) (o : outcome A) p : (∀ a, o = Ok a → Q a) → wt Q (call o) p.
Proof. intros Ho Hp. split; [done|]. unfold call. cbn. destruct o; cbn; auto. Qed.
Lemma wt_verdict {A} (Q : A → Prop) (o : t → outcome A) p :
  (typed_path p → ∀ a, o p = Ok a → Q a) → wt Q (λ p, (p, verdict_of (o p))) p.
Proof. intros Ho Hp. split; [done|]. cbn. specialize (Ho Hp). destruct (o p); cbn; auto. Qed.
Lemma wt_slow c q p : request_typed q → wt any (slow_path_if c q) p.
Proof. intros Hq Hp. split; [done|]. by destruct c. Qed.
Lemma wt_reject c r p : (typed_path p → request_typed (r p)) → wt any (reject_if c r) p.
Proof. intros Hq Hp. split; [done|]. unfold reject_if, slow_path_if. cbn. destruct (c p); [by apply Hq|done]. Qed.

Lemma typed_ret {A} (Q : A → Prop) a p : typed_path p → Q a → typed_result Q (p, Continue a).
Proof. done. Qed.
Lemma wt_if {A} (Q : A → Prop) (c : bool) (m m' : P A) p : wt Q m p → wt Q m' p → wt Q (if c then m else m') p.
Proof. by destruct c. Qed.

(** Requests. *)
Lemma parameter_problem_typed code ptr e : is_u8 code → is_u16 ptr → request_typed (parameter_problem code ptr e).
Proof. intros Hc Hp. split; try done. intros _. eexists. split; [reflexivity|]. done. Qed.

Lemma pointers_typed p : is_u16 (currentInfoPointer p) ∧ is_u16 (currentHopPointer p).
Proof. split; by apply uint_of_range. Qed.

(** ** Setting fields *)

Lemma set_hop_typed h p : HopField.wf h → typed_path p → typed_path (set_hopField h p).
Proof. intros Hh [[] ?]. by split. Qed.
Lemma set_info_typed i p : InfoField.wf i → typed_path p → typed_path (set_infoField i p).
Proof. intros Hh [[] ?]. by split. Qed.
Lemma set_flags_typed x y p : typed_path p → typed_path (set_flags x y p).
Proof. intros [[] ?]. by split. Qed.
Lemma set_transit_typed x y p : typed_path p → typed_path (set_transit x y p).
Proof. intros [[] ?]. by split. Qed.
Lemma set_mac_typed m p : wf_bytes m → typed_path p → typed_path (set_cachedMac m p).
Proof. intros Hm [[] ?]. by split. Qed.

Lemma on_path_typed {A} (Q : A → Prop) (m : t → SE Raw.t A) p :
  (typed_path p → raw_typed (m p) ∧ ∀ r a, m p (path p) = (r, Ok a) → Q a) → wt Q (λ p, on_path (m p) p) p.
Proof.
  intros Hm Hp. destruct (Hm Hp) as [Hr HQ]. pose proof (Hr _ (tp_path _ Hp)) as Hw. unfold on_path.
  destruct (m p (path p)) as [r o] eqn:E. cbn in *. split.
  - destruct Hp as [[] _]. split; [|done]. split; try done. cbn. apply AnswerLemmas.wf_write_window; [apply (Raw.wf_raw _ Hw)|done].
  - destruct o; cbn; eauto.
Qed.
Lemma wrap_typed {A} msg (m : SE Raw.t A) : raw_typed m → raw_typed (wrap_errS msg m).
Proof. intros Hm r Hr. unfold wrap_errS. specialize (Hm r Hr). by destruct (m r). Qed.

Lemma store_info_typed msg p : wt any (store_info msg) p.
Proof. apply on_path_typed. intros _. split; [apply wrap_typed, SetInfoField_typed|done]. Qed.
Lemma store_hop_typed msg p : wt any (store_hop msg) p.
Proof. apply on_path_typed. intros Hp. split; [apply wrap_typed, SetHopField_typed, Hp|done]. Qed.

(** ** The steps *)

Lemma parsePath_typed p : wt any parsePath p.
Proof.
  unfold parsePath. apply wt_bind with (Q := HopField.wf).
  { apply (wt_verdict _ (λ p, Raw.GetCurrentHopField (path p))). intros Hp a Ha. eapply GetHopField_typed; [apply Hp|exact Ha]. }
  intros p1 hop Hp1 Hh. apply wt_bind with (Q := any); [apply wt_update; by apply set_hop_typed|].
  intros p2 _ Hp2 _. apply wt_bind with (Q := InfoField.wf).
  { apply (wt_verdict _ (λ p, Raw.GetCurrentInfoField (path p))). intros Hp a Ha. eapply GetInfoField_typed; [apply Hp|exact Ha]. }
  intros p3 info Hp3 Hi. apply wt_update. by apply set_info_typed.
Qed.

Lemma determinePeer_typed p : wt any determinePeer p.
Proof.
  unfold determinePeer. apply wt_bind with (Q := any); [by apply (wt_verdict _ (λ p, peer_of (meta p) (infoField p)))|].
  intros p1 peer _ _. apply wt_update. apply set_flags_typed.
Qed.

Lemma checks_typed now p :
  wt any (validateHopExpiry now) p ∧ wt any validateIngressID p ∧ wt any validatePktLen p.
Proof.
  split_and!; apply wt_reject; intros _; apply parameter_problem_typed; try apply pointers_typed; try done. by case_match.
Qed.

Lemma transit_typed p : wt any validateTransitUnderlaySrc p.
Proof.
  intros Hp. unfold validateTransitUnderlaySrc. destruct (_ || _); [done|]. revert Hp.
  apply wt_bind with (Q := any); [by apply wt_call|]. intros p1 i _ _. destruct (_ !! i); [|by apply wt_call].
  apply wt_if; [by apply (wt_ret any tt)|by apply wt_call].
Qed.

Lemma srcdst_typed p : wt any validateSrcDstIA p.
Proof.
  assert (request_typed invalidSrcIA ∧ request_typed invalidDstIA) as [H1 H2]
    by (split; by apply parameter_problem_typed).
  intros Hp. unfold validateSrcDstIA. cbv zeta.
  destruct (_ =? 0); revert Hp; (apply wt_bind with (Q := any); [by apply wt_slow|]; intros; by apply wt_slow).
Qed.

Lemma update_segID_typed p : wt any update_segID p.
Proof.
  unfold update_segID. apply wt_bind with (Q := InfoField.wf).
  - apply (wt_verdict _ (λ p, InfoField.UpdateSegID (infoField p) (HopField.Mac (hopField p)))). intros [[] _] a Ha.
    rewrite InfoField.UpdateSegID_Ok in Ha by (destruct ty_hop0; lia). injection Ha as <-. by apply ProcessLemmas.chained_wf.
  - intros p1 i Hp1 Hi. apply wt_update. by apply set_info_typed.
Qed.

Lemma segid_typed msg p : wt any (_ ← update_segID; store_info msg) p.
Proof. apply wt_bind with (Q := any); [apply update_segID_typed|]. intros. apply store_info_typed. Qed.

Lemma ingress_segid_typed p : wt any updateNonConsDirIngressSegID p.
Proof. intros Hp. unfold updateNonConsDirIngressSegID. destruct (_ && _); [by apply segid_typed|done]. Qed.

Lemma processEgress_typed p : wt any processEgress p.
Proof.
  unfold processEgress. apply wt_bind with (Q := any).
  - intros Hp. destruct (_ && _); [by apply segid_typed|done].
  - intros p1 _ _ _. apply (on_path_typed any (λ _, wrap_errS "incrementing path" Raw.IncPath)). intros _.
    split; [apply wrap_typed, raw_IncPath_typed|done].
Qed.

Lemma doXover_typed p : wt any doXover p.
Proof.
  unfold doXover. apply wt_bind with (Q := any); [apply wt_update; by apply set_flags_typed|].
  intros p1 _ _ _. apply wt_bind with (Q := any).
  - apply (on_path_typed any (λ _, wrap_errS "incrementing path" Raw.IncPath)). intros _.
    split; [apply wrap_typed, raw_IncPath_typed|done].
  - intros. apply parsePath_typed.
Qed.

Lemma alert_typed b i p : is_u16 i → wt any (_ ← update (clear_alert b); _ ← store_hop "update hop field"; slow_path_if true (router_alert i)) p.
Proof.
  intros Hi. apply wt_bind with (Q := any).
  - apply wt_update. intros Hp. unfold clear_alert. apply set_hop_typed; [|done]. destruct (ty_hop _ (tp_typed _ Hp)).
    destruct (Bool.eqb _ _); by split.
  - intros p1 _ _ _. apply wt_bind with (Q := any); [apply store_hop_typed|]. intros. apply wt_slow. by split.
Qed.

Lemma egressInterface_typed p : typed_path p → is_u16 (egressInterface p).
Proof. intros [[] _]. unfold egressInterface. destruct ty_hop0. by case_match. Qed.

Lemma alerts_typed p : wt any handleIngressRouterAlert p ∧ wt any handleEgressRouterAlert p.
Proof.
  split; intros Hp.
  - unfold handleIngressRouterAlert. destruct (_ =? 0); [done|]. destruct (negb _); [done|]. apply alert_typed; [|done]. apply Hp.
  - unfold handleEgressRouterAlert. destruct (negb _); [done|]. cbv zeta. destruct (is_nil _); [done|].
    apply alert_typed; [|done]. by apply egressInterface_typed.
Qed.

Lemma egressID_typed p : wt any validateEgressID p.
Proof.
  assert (∀ q, is_u8 (unknown_hop_code q)) as Hc by (intros q; unfold unknown_hop_code; by case_match).
  intros Hp. unfold validateEgressID. cbv zeta. revert Hp. apply wt_bind with (Q := any).
  - apply wt_slow, parameter_problem_typed; [apply Hc|apply pointers_typed].
  - intros p1 _ _ _. apply wt_if; apply wt_slow, parameter_problem_typed; try apply pointers_typed; done.
Qed.

Lemma egressUp_typed IsUp p : wt any (validateEgressUp IsUp) p.
Proof.
  apply wt_reject. intros Hp. pose proof (egressInterface_typed p Hp). destruct Hp as [[] _]. cbv zeta.
  case_match; split; try done; intros _; eexists; (split; [reflexivity|done]).
Qed.

(** ** FABRID *)

Lemma get_typed {A} (Q : A → Prop) l i x : Forall Q l → get l i = Ok x → Q x.
Proof.
  intros Hl H. unfold get in H. destruct (_ <? 0); [done|]. destruct (l !! _) eqn:E; [|done]. injection H as <-.
  by eapply Forall_lookup_1.
Qed.
Lemma sub_typed {A} (Q : A → Prop) l lo hi l' : Forall Q l → sub l lo hi = Ok l' → Forall Q l'.
Proof. intros Hl (_ & _ & ->)%sub_inv. by apply Forall_take, Forall_drop. Qed.

Lemma wt_get {A} (Q : A → Prop) (f : t → A) p : (typed_path p → Q (f p)) → wt Q (read f) p.
Proof. intros Hf Hp. split; [done|]. by apply Hf. Qed.

Lemma set_options_typed i f p :
  Forall md_typed (default [] (Fabrid.HopfieldMetadata <$> f)) → typed_path p → typed_path (set_options i f p).
Proof. intros Hf [[] ?]. by split. Qed.

Lemma identifier_typed opt p : wt any (identifier_option opt) p.
Proof.
  intros Hp. pose proof (ty_fabrid _ (tp_typed _ Hp)) as Hf. unfold identifier_option. destruct (is_some _); [done|]. revert Hp.
  apply wt_bind with (Q := any).
  - destruct (0 <? _); [|by apply (wt_ret any)]. destruct (Raw.GetInfoField _ _); [by apply (wt_ret any)|by apply wt_call..].
  - intros p1 ts _ _. apply wt_bind with (Q := any); [by apply wt_call|]. intros p2 i Hp2 _. apply wt_update.
    by apply set_options_typed.
Qed.

Section fabrid.
Context {aes_Encrypt : bytes → bytes → bytes} {cipher : DrkeyLemmas.BlockCipher aes_Encrypt}.
Context (netip_ParseAddr : gostring → outcome IP.t) (netip_String : IP.t → gostring) (now : Z).

Lemma processFabrid_typed e p : wt any (processFabrid aes_Encrypt netip_ParseAddr netip_String now e) p.
Proof using cipher.
  intros Hp. unfold processFabrid. destruct (fabrid p) as [f|] eqn:Ef; [|done]. destruct (identifier p) as [id|]; [|done].
  pose proof (ty_fabrid _ (tp_typed _ Hp)) as Hf. rewrite Ef in Hf. cbn in Hf.
  pose proof (proj1 (ScionHdrLemmas.wf_RawSrcAddr _ (ty_header _ (tp_typed _ Hp)))) as Hs. revert Hp.
  apply wt_bind with (Q := md_typed); [apply wt_call; intros a Ha; exact (get_typed _ _ _ _ Hf Ha)|]. intros p1 m _ Hm.
  apply wt_bind with (Q := any); [by apply wt_call|]. intros p2 src _ _.
  apply wt_bind with (Q := any); [by apply wt_call|]. intros p3 key _ _.
  apply wt_bind with (Q := any); [by apply wt_call|]. intros p4 policy _ _.
  apply wt_bind with (Q := md_typed).
  { apply wt_call. intros m' Hv. eapply VerifyAndUpdate_typed; [exact Hm|exact Hs| |exact Hv].
    unfold FabridCrypto.FabridMacInputSize. by_decide. }
  intros p5 m' _ Hm'.
  apply wt_bind with (Q := Forall md_typed); [apply wt_call; intros a Ha; exact (sub_typed _ _ _ _ _ Hf Ha)|]. intros p6 rest _ Hr.
  apply wt_bind with (Q := any); [apply wt_update; intros; apply set_options_typed; [by apply Forall_cons_2|done]|].
  intros p7 _ _ _. destruct (negb _); [|by apply (wt_ret any tt)].
  apply wt_bind with (Q := any); [by apply wt_call|]. intros p8 [l|] _ _; [|by apply (wt_ret any tt)].
  apply wt_update. intros [[] ?]. by split.
Qed.

Lemma fabrid_option_typed e opt off p :
  wf_bytes (TLV.OptData opt) → wt any (fabrid_option aes_Encrypt netip_ParseAddr netip_String now e opt off) p.
Proof using cipher.
  intros Ho Hp. unfold fabrid_option. destruct (is_some _); [done|]. destruct (is_nil _); [done|]. cbv zeta.
  destruct (_ && _); [done|]. revert Hp.
  apply wt_bind with (Q := λ f, Forall md_typed (Fabrid.HopfieldMetadata f)).
  { apply wt_call. intros f Hf. exact (ParseFabrid_typed _ _ _ _ Ho Hf). }
  intros p1 f _ Hf.
  apply wt_bind with (Q := any); [by apply wt_call|]. intros p2 m _ _. destruct (Fabrid.FabridEnabled m); [|by apply (wt_ret any)].
  apply wt_bind with (Q := any); [apply wt_update; intros; by apply set_options_typed|]. intros p3 _ _ _.
  apply wt_bind with (Q := any); [apply processFabrid_typed|]. intros p4 _ _ _.
  apply wt_bind with (Q := λ f, Forall md_typed (default [] (Fabrid.HopfieldMetadata <$> f))).
  { apply wt_get. intros Hp. apply (ty_fabrid _ (tp_typed _ Hp)). }
  intros p5 g _ Hg. apply wt_bind with (Q := md_typed).
  { apply wt_call. intros m' H. apply bind_Ok in H as (f' & Ef & H). destruct g as [g|]; [|done]. injection Ef as <-. exact (get_typed _ _ _ _ Hg H). }
  intros p6 m' _ Hm'. apply wt_bind with (Q := wf_bytes).
  { apply wt_call. intros d H. unfold on_sub_from in H. eapply wf_on_sub; [|exact Ho|exact H]. intros b b' Hb. by apply SerializeTo_md_typed. }
  intros p7 d _ Hd. apply wt_bind with (Q := any); [|intros; by apply (wt_ret any)].
  apply wt_update. intros [[] ?]. split; [|done]. split; try done. by apply AnswerLemmas.wf_write_window.
Qed.

Lemma hbh_loop_typed e opts off p :
  Forall (λ o, wf_bytes (TLV.OptData o)) opts → wt any (hbh_loop aes_Encrypt netip_ParseAddr netip_String now e opts off) p.
Proof using cipher.
  intros Ho. revert off p. induction Ho as [|o opts Ho _ IH]; intros off p; [by apply (wt_ret any tt)|].
  cbn [hbh_loop]. apply wt_bind with (Q := any).
  - destruct (_ =? _); [|destruct (_ =? _); [by apply fabrid_option_typed|by apply (wt_ret any)]].
    apply wt_bind with (Q := any); [apply identifier_typed|]. intros. by apply (wt_ret any).
  - intros p1 [] _ _; [by apply (wt_ret any tt)|apply IH].
Qed.
Lemma options_typed e p : wt any (processHbhOptions aes_Encrypt netip_ParseAddr netip_String now e) p.
Proof using cipher. intros Hp. apply hbh_loop_typed; [|done]. apply (ty_options _ (tp_typed _ Hp)). Qed.
End fabrid.

(** ** Processing a packet *)

Section process.
Context (aes_Encrypt : bytes → bytes → bytes) {cipher : DrkeyLemmas.BlockCipher aes_Encrypt}.
Context (mac : bytes → bytes) (Hwmac : ∀ b, wf_bytes (mac b)).
Context (netip_ParseAddr : gostring → outcome IP.t) (netip_String : IP.t → gostring).
Context (NewPacket : bytes → L4.LayerType → list Layer) (intn : Z → Z).
Context (now : Z) (IsUp : nat → bool).

Definition result_typed (r : processResult) : Prop := is_u16 (EgressID r) ∧ wf_bytes (default [] (OutPkt r)).

Lemma verifyMAC_typed p : wt any (verifyCurrentMAC mac) p.
Proof using Hwmac.
  intros Hp. unfold verifyCurrentMAC. revert Hp. apply wt_bind with (Q := wf_bytes).
  { apply wt_call. intros m Hm. unfold Mac.FullMAC in Hm. go_inv. eapply wf_bytes_sub; [apply Hwmac|eassumption]. }
  intros p1 m _ Hm. apply wt_bind with (Q := any); [by apply wt_call|]. intros p2 ex _ _.
  apply wt_bind with (Q := any); [apply wt_slow, parameter_problem_typed; [done|apply pointers_typed]|].
  intros p3 _ _ _. apply wt_update. by apply set_mac_typed.
Qed.

Lemma xover_typed p : wt any (xover_if_needed mac now) p.
Proof using Hwmac.
  intros Hp. unfold xover_if_needed. destruct (_ && _); [|done]. revert Hp.
  apply wt_bind with (Q := any); [apply doXover_typed|]. intros p1 _ _ _.
  apply wt_bind with (Q := any); [apply checks_typed|]. intros p2 _ _ _. apply verifyMAC_typed.
Qed.

Lemma arrival_typed p : wt any (process_arrival mac now) p.
Proof using Hwmac.
  unfold process_arrival.
  repeat (apply wt_bind with (Q := any); [first [apply parsePath_typed|apply determinePeer_typed|exact (proj1 (checks_typed now _))
    |exact (proj1 (proj2 (checks_typed now _)))|exact (proj2 (proj2 (checks_typed now _)))|apply transit_typed|apply srcdst_typed|apply ingress_segid_typed|apply verifyMAC_typed]|]; intros ? _ _ _).
  apply alerts_typed.
Qed.

Lemma resolveInbound_typed p : wt any (resolveInbound NewPacket intn) p.
Proof using.
  intros Hp. unfold resolveInbound.
  assert (localIA (resolveLocalDst NewPacket intn (scionLayer p) (nextHdr p) (LayerPayload p) (d p)).1 = localIA (d p)) as Ed
    by (unfold resolveLocalDst; by repeat case_match).
  destruct (resolveLocalDst _ _ _ _ _ _) as [dp r]. cbn [fst] in Ed.
  assert (typed_path (set_d dp p)) as Hd.
  { destruct Hp as [[] ?]. split; [|done]. split; try done. change (localIA (d (set_d dp p))) with (localIA dp). by rewrite Ed. }
  destruct r as [a|e|]; [done| |done]. destruct (errors_Is e noSVCBackend); [|destruct (errors_Is e invalidDstAddr); [|done]];
    (split; [exact Hd|]; split; try done; intros _; eexists; (split; [reflexivity|done])).
Qed.

Lemma inbound_typed p : wt result_typed (process_inbound aes_Encrypt netip_ParseAddr netip_String NewPacket intn now) p.
Proof using cipher.
  unfold process_inbound. apply wt_bind with (Q := any); [apply resolveInbound_typed|]. intros p1 a _ _.
  apply wt_bind with (Q := any); [apply wt_update, set_transit_typed|]. intros p2 _ _ _.
  apply wt_bind with (Q := any); [apply options_typed|]. intros p3 _ _ _.
  apply wt_bind with (Q := wf_bytes); [apply wt_get; intros Hp; apply Hp|]. intros p4 pkt _ Hpkt. by apply wt_ret.
Qed.

Lemma forward_typed p : wt result_typed (forward aes_Encrypt netip_ParseAddr netip_String now) p.
Proof using cipher.
  intros Hp. unfold forward. cbv zeta. pose proof (egressInterface_typed p Hp) as He.
  destruct (is_some _); [|destruct (_ !! _)].
  - revert Hp. apply wt_bind with (Q := any); [apply wt_update, set_transit_typed|]. intros p2 _ _ _.
    apply wt_bind with (Q := any); [apply options_typed|]. intros p3 _ _ _.
    apply wt_bind with (Q := any); [apply processEgress_typed|]. intros p4 _ _ _.
    apply wt_bind with (Q := typed_path); [by apply wt_get|]. intros p5 q _ Hq. apply wt_ret. split; [done|apply Hq].
  - revert Hp. apply wt_bind with (Q := any); [apply wt_update, set_transit_typed|]. intros p2 _ _ _.
    apply wt_bind with (Q := any); [apply options_typed|]. intros p3 _ _ _.
    apply wt_bind with (Q := typed_path); [by apply wt_get|]. intros p5 q _ Hq. apply wt_ret. split; [done|apply Hq].
  - split; [done|]. apply parameter_problem_typed; [unfold unknown_hop_code; by case_match|apply pointers_typed].
Qed.

Lemma process_typed p :
  wt result_typed (Processor.process aes_Encrypt mac netip_ParseAddr netip_String NewPacket intn now IsUp) p.
Proof using cipher Hwmac.
  unfold Processor.process. apply wt_bind with (Q := any); [apply arrival_typed|]. intros p1 _ _ _.
  apply wt_bind with (Q := typed_path); [by apply wt_get|]. intros p2 q _ _. destruct (_ =? _); [apply inbound_typed|].
  unfold process_outbound.
  apply wt_bind with (Q := any); [apply xover_typed|]. intros p3 _ _ _.
  apply wt_bind with (Q := any); [apply egressID_typed|]. intros p4 _ _ _.
  apply wt_bind with (Q := any); [apply alerts_typed|]. intros p5 _ _ _.
  apply wt_bind with (Q := any); [apply egressUp_typed|]. intros p6 _ _ _. apply forward_typed.
Qed.
End process.

(** ** One-hop paths *)

Lemma wf_encode_cmn s : ScionHdrLemmas.wf_fields s → wf_bytes (ScionHdrLemmas.encode_cmn s).
Proof.
  intros []. unfold ScionHdrLemmas.encode_cmn. rewrite !wf_bytes_app.
  split_and!; try apply wf_be_bytes; repeat (apply Forall_cons_2; [try done; ulia|]); done.
Qed.
Lemma wf_encode_addrs s : ScionHdrLemmas.wf_fields s → wf_bytes (ScionHdrLemmas.encode_addrs s).
Proof.
  intros [? ? ? ? ? ? ? ? ? ? ? [Hd _] [Hs _]]. unfold ScionHdrLemmas.encode_addrs. rewrite !wf_bytes_app.
  split_and!; try apply wf_be_bytes; done.
Qed.

Section onehop.
Context (PrependBytes : Z → bytes) (Hpre : ∀ n, 0 ≤ n → len (PrependBytes n) = n).
Context (mac : bytes → bytes) (Hmac : ∀ b, 16 ≤ len (mac b)) (Hwmac : ∀ b, wf_bytes (mac b)).
Context (NewPacket : bytes → L4.LayerType → list Layer) (intn : Z → Z).

(** The types of a state whose path is not set, and of a verdict on it. *)
Definition typed_end (r : t * verdict processResult) : Prop :=
  wf_bytes (rawPkt r.1) ∧ match r.2 with Continue a => result_typed a | SlowPath q => request_typed q | _ => True end.

Lemma update_no_slow p p' q : updateSCIONLayer PrependBytes p ≠ (p', SlowPath q).
Proof using.
  unfold updateSCIONLayer. destruct (SCION.SerializeTo _ _ _ _) as [s o]. by destruct (o ≫= _).
Qed.

Lemma updateSCIONLayer_typed p o u :
  typed p → SCION.Path (scionLayer p) = Some (POneHop o) → OneHop.wf o →
  wf_bytes (rawPkt (updateSCIONLayer PrependBytes p).1) ∧
  ((updateSCIONLayer PrependBytes p).2 = Continue u → typed (updateSCIONLayer PrependBytes p).1).
Proof using Hpre.
  intros Hp Eo Ho. pose proof (ty_header _ Hp) as Hh. unfold updateSCIONLayer.
  destruct (ScionHdrLemmas.SerializeTo_encode PrependBytes (scionLayer p) (POneHop o) [] (SCION.mkOpts false false) Hpre Hh Eo)
    as (q & path & -> & _ & _ & Wp & _); [exact Ho| |done|].
  { pose proof (ScionHdrLemmas.AddrHdrLen_range (scionLayer p)). change (PathLen (POneHop o)) with 32. unfold SCION.CmnHdrLen, SCION.MaxHdrLen. lia. }
  go_cbn. set (c := ScionHdrLemmas.encode_cmn _ ++ _). set (s1 := ScionHdrLemmas.with_lens _ _ _ _) in *.
  assert (wf_bytes c) as Hc.
  { unfold c. rewrite !wf_bytes_app. assert (ScionHdrLemmas.wf_fields s1) by done.
    split_and!; [by apply wf_encode_cmn|by apply wf_encode_addrs|done|constructor]. }
  destruct (on_sub _ _ _ _) as [pkt| |] eqn:E; cbn [fst snd]; [|split; [apply Hp|done]..].
  assert (wf_bytes pkt) as Hpkt.
  { eapply wf_on_sub; [|apply (ty_pkt _ Hp)|exact E]. intros m m' Hm [= <-]. by apply wf_copy. }
  split; [done|]. intros _. destruct Hp. split; try done. by apply AnswerLemmas.set_Path_fields.
Qed.

Lemma ohp_out_typed p o : typed p → SCION.Path (scionLayer p) = Some (POneHop o) → OneHop.wf o → typed_end (ohp_out PrependBytes mac o p).
Proof using Hpre.
  intros Hp Eo Ho. assert (∀ v : verdict processResult, (match v with Drop _ | Crash => True | _ => False end) → typed_end (p, v)) as Hd.
  { intros v Hv. split; [apply Hp|]. by destruct v. }
  unfold ohp_out. cbv zeta. destruct (negb _); [by apply Hd|]. destruct (_ !! _) as [ia|]; [|by apply Hd]. destruct (negb _); [by apply Hd|].
  unfold mbind at 1, P_bind at 1, call at 1. destruct (ohp_mac _ _ _) as [m|e|]; [|by apply Hd..]. cbn [verdict_of].
  unfold mbind at 1, P_bind at 1, call at 1. destruct (fail_if _ _) as [[]|e|]; [|by apply Hd..]. cbn [verdict_of].
  destruct Ho as [Hi H1 H2]. rewrite InfoField.UpdateSegID_Ok by (destruct H1; lia).
  unfold mbind at 1, P_bind at 1, call at 1. cbn [verdict_of].
  set (o' := OneHop.mk _ _ _). unfold mbind at 1, P_bind at 1, update. set (p1 := set_onehop o' p).
  assert (typed p1 ∧ OneHop.wf o') as [Hp1 Ho'].
  { split; [destruct Hp; split; try done; by apply AnswerLemmas.set_Path_fields|]. split; [by apply (ProcessLemmas.chained_wf _ (OneHop.FirstHop o))|done|done]. }
  destruct (updateSCIONLayer_typed p1 o' tt Hp1 eq_refl Ho') as [W T]. unfold mbind at 1, P_bind at 1.
  destruct (updateSCIONLayer PrependBytes p1) as [p2 [[]|q|e|]] eqn:E2; [|by destruct (update_no_slow p1 p2 q)|split; [exact W|done]..].
  cbn. split; [exact W|]. split; [|exact W]. apply H1.
Qed.

Lemma ohp_in_typed p o : typed p → SCION.Path (scionLayer p) = Some (POneHop o) → OneHop.wf o → typed_end (ohp_in PrependBytes mac NewPacket intn o p).
Proof using Hpre Hmac Hwmac.
  intros Hp Eo Ho. assert (∀ v : verdict processResult, (match v with Drop _ | Crash => True | _ => False end) → typed_end (p, v)) as Hd.
  { intros v Hv. split; [apply Hp|]. by destruct v. }
  unfold ohp_in. cbv zeta. destruct (negb _); [by apply Hd|]. destruct (negb _); [by apply Hd|].
  destruct Ho as [Hi H1 H2]. rewrite OneHopLemmas.ohp_mac_Ok by done. set (m := take 6 _).
  unfold mbind at 1, P_bind at 1, call at 1. cbn [verdict_of].
  set (o' := OneHop.mk _ _ _). unfold mbind at 1, P_bind at 1, update. set (p1 := set_onehop o' p).
  assert (typed p1 ∧ OneHop.wf o') as [Hp1 Ho'].
  { split; [destruct Hp; split; try done; by apply AnswerLemmas.set_Path_fields|]. split; [done..|].
    apply (OneHopLemmas.second_hop_wf mac Hmac Hwmac (OneHop.Info o)); [done|apply Hp]. }
  destruct (updateSCIONLayer_typed p1 o' tt Hp1 eq_refl Ho') as [W T]. unfold mbind at 1, P_bind at 1.
  destruct (updateSCIONLayer PrependBytes p1) as [p2 [[]|q|e|]] eqn:E2; [|by destruct (update_no_slow p1 p2 q)|split; [exact W|done]..].
  unfold ohp_deliver. destruct (resolveLocalDst _ _ _ _ _ _) as [dp [a|e|]]; (split; [exact W|]); done.
Qed.

Lemma processOHP_typed p : typed p → ScionHdrLemmas.decoded (rawPkt p) (scionLayer p) → typed_end (processOHP PrependBytes mac NewPacket intn p).
Proof using Hpre Hmac Hwmac.
  intros Hp Hd. unfold processOHP. destruct (SCION.Path (scionLayer p)) as [[| o| | | |]|] eqn:Eo; try (split; [apply Hp|done]).
  destruct (ScionHdrLemmas.decoded_path _ _ Hd) as (q & Eq & Wq & _). rewrite Eo in Eq. injection Eq as <-.
  destruct (negb _); [split; [apply Hp|done]|]. destruct (_ =? 0); [by apply ohp_out_typed|by apply ohp_in_typed].
Qed.
End onehop.

End TypedLemmas.

(** * The router keeps its types *)
Module RouterTyped.

Import Net DataPlane LocalDelivery Processor PacketProcessor StepLemmas ByteTypes TypedLemmas PacketLemmas ScionHdrLemmas RouterProperties.

Lemma decoded_options reg p p' u :
  wf_bytes (rawPkt p) → Extn.Options (hbhLayer p) = [] → decodeLayers reg p = (p', Continue u) →
  Forall (λ o, wf_bytes (TLV.OptData o)) (Extn.Options (hbhLayer p')).
Proof.
  intros Hb Hn H. unfold decodeLayers in H. apply P_bind_Continue in H as (p1 & u1 & H1 & H).
  pose proof (DecodeFromBytes_any reg (rawPkt p) (scionLayer p) Hb) as Hd. unfold on_scion in H1.
  destruct (SCION.DecodeFromBytes _ _ _) as [s [[]| |]]; [|done..]. injection H1 as <- _.
  apply P_bind_Continue in H as (p2 & u2 & ->%update_Continue & H). apply P_bind_Continue in H as (p3 & u3 & H3 & H).
  assert (Forall (λ o, wf_bytes (TLV.OptData o)) (Extn.Options (hbhLayer p3))) as Ho.
  { unfold decode_opt in H3. destruct (bool_decide _); [|injection H3 as <- _; cbn; by rewrite Hn].
    apply P_bind_Continue in H3 as (q & v & H3 & ->%update_Continue). unfold on_hbh in H3. cbn [hbhLayer set_layers] in H3 |- *.
    rewrite <- (decoded_split _ _ Hd) in Hb. apply wf_bytes_app in Hb as [_ Hb].
    pose proof (ExtnLemmas.Extn_DecodeFromBytes_any Extn.checkHopByHopExtnNextHdr (SCION.Payload s) (hbhLayer p) (or_introl eq_refl) Hb) as He.
    change (Extn.DecodeFromBytes Extn.checkHopByHopExtnNextHdr) with HopByHopExtn.DecodeFromBytes in He.
    change (LayerPayload _) with (SCION.Payload s) in H3.
    destruct (HopByHopExtn.DecodeFromBytes _ _) as [e [[]| |]]; [|done..]. injection H3 as <- _. destruct He as (_ & _ & _ & Hw & _).
    eapply Forall_impl; [exact Hw|]. intros o (_ & Ho & _). exact Ho. }
  unfold decode_opt in H. destruct (bool_decide _); [|by injection H as <- _].
  apply P_bind_Continue in H as (q & v & H & ->%update_Continue). unfold on_e2e in H.
  destruct (EndToEndExtnSkipper.DecodeFromBytes _ _) as [e [[]| |]]; [|done..]. by injection H as <- _.
Qed.

(** Decoding makes no requests. *)
Definition direct {A} (m : P A) (p : t) : Prop := ∀ q, (m p).2 ≠ SlowPath q.
Lemma direct_bind {A B} (m : P A) (f : A → P B) p : direct m p → (∀ p' a, direct (f a) p') → direct (m ≫= f) p.
Proof. intros Hm Hf q. unfold mbind, P_bind. specialize (Hm q). destruct (m p) as [p' [a|q'|e|]]; [apply Hf|cbn in *; congruence|done..]. Qed.
Lemma decodeLayers_direct reg p : direct (decodeLayers reg) p.
Proof.
  assert (∀ {A} (o : outcome A) (p : t) (q : slowPathRequest), (p, verdict_of o).2 ≠ SlowPath q) as Hv by (by intros A []).
  assert (∀ l m p, (∀ b p, direct (m b) p) → direct (decode_opt l m) p) as Hopt.
  { intros l m p1 Hm. unfold direct, decode_opt. destruct (bool_decide _); [|done]. by apply direct_bind. }
  unfold decodeLayers. apply direct_bind; [intros q; unfold on_scion; destruct (SCION.DecodeFromBytes _ _ _); apply Hv|].
  intros p1 _. apply direct_bind; [done|]. intros p2 _. apply direct_bind.
  - apply Hopt. intros b p3 q. unfold on_hbh. destruct (HopByHopExtn.DecodeFromBytes _ _). apply Hv.
  - intros p3 _. apply Hopt. intros b p4 q. unfold on_e2e. destruct (EndToEndExtnSkipper.DecodeFromBytes _ _). apply Hv.
Qed.

Section router.
Context (reg : Registry.t) (PrependBytes : Z → bytes).
Context (aes_Encrypt : bytes → bytes → bytes) (mac : bytes → bytes).
Context (netip_ParseAddr : gostring → outcome IP.t) (netip_String : IP.t → gostring).
Context (NewPacket : bytes → L4.LayerType → list Layer) (intn : Z → Z).
Context (now : Z) (IsUp : nat → bool).
Context {BFD : Type} (bfd_DecodeFromBytes : bytes → outcome BFD).
Context (order : gmap Z UDPAddr → list (Z * UDPAddr)).

Let processPkt := processPkt reg PrependBytes aes_Encrypt mac netip_ParseAddr netip_String NewPacket intn now IsUp
  bfd_DecodeFromBytes order.

Lemma received_typed p0 pkt src ingress p1 u :
  wf_bytes pkt → is_u16 ingress → is_u64 (localIA (d p0)) →
  decodeLayers reg (set_packet pkt src ingress (reset p0)) = (p1, Continue u) → typed p1.
Proof using.
  intros Hb Hi Ha H. pose proof (decoded_options reg (set_packet pkt src ingress (reset p0)) p1 u Hb eq_refl H) as Ho.
  destruct (decodeLayers_spec reg (set_packet pkt src ingress (reset p0)) Hb eq_refl) as (Hl & _ & Hd).
  specialize (Hd _ _ H). rewrite H in Hl. cbn [fst] in Hl. unfold layers_only in Hl.
  set (q := set_packet pkt src ingress (reset p0)) in *.
  assert (infoField p1 = infoField q ∧ hopField p1 = hopField q ∧ cachedMac p1 = cachedMac q ∧ fabrid p1 = fabrid q ∧
    rawPkt p1 = rawPkt q ∧ ingressID p1 = ingressID q ∧ d p1 = d q) as (E1 & E2 & E3 & E4 & E5 & E6 & E7) by (by rewrite Hl).
  split; rewrite ?E1, ?E2, ?E3, ?E4, ?E5, ?E6, ?E7; try done; [apply (decoded_fields _ _ (lo_scion _ Hd))| |constructor].
  split; try done; by apply Forall_replicate.
Qed.

(** The verdict on a packet fits the types. *)
Definition processed_typed (v : verdict (processed (BFD := BFD))) : Prop :=
  match v with
  | Continue (Result r) => result_typed r
  | SlowPath q => request_typed q
  | _ => True
  end.

Lemma as_result_typed (m : P processResult) p : typed_end (m p) → wf_bytes (rawPkt (as_result (BFD := BFD) m p).1) ∧ processed_typed (as_result m p).2.
Proof using.
  intros [Hw Hv]. unfold as_result, mbind, P_bind. by destruct (m p) as [p' [r| | |]].
Qed.
Lemma typed_result_end (r : t * verdict processResult) : typed_result result_typed r → typed_end r.
Proof using. intros [Hp Hv]. split; [apply Hp|done]. Qed.

Lemma set_path_at_typed r off p : Raw.wf r → typed p → typed_path (set_path_at r off p).
Proof using. intros Hr []. by split. Qed.

Lemma dispatch_typed p :
  (∀ n, 0 ≤ n → len (PrependBytes n) = n) → DrkeyLemmas.BlockCipher aes_Encrypt →
  (∀ b, 16 ≤ len (mac b) ∧ wf_bytes (mac b)) → typed p → layers_of p →
  let r := dispatch PrependBytes aes_Encrypt mac netip_ParseAddr netip_String NewPacket intn now IsUp bfd_DecodeFromBytes order p in
  wf_bytes (rawPkt r.1) ∧ processed_typed r.2.
Proof using.
  intros Hpre Haes Hmac Hp [Hd _ _] r. 
  assert (∀ o : outcome (processed (BFD := BFD)), (∀ x, o ≠ Ok (Result x)) → wf_bytes (rawPkt p) ∧ processed_typed (verdict_of o)) as Hrec.
  { intros o Ho. split; [apply Hp|]. destruct o as [[x|]| |]; try done. by destruct (Ho x). }
  assert (∀ ifID b x, receive bfd_DecodeFromBytes (d p) ifID b ≠ Ok (Result x)) as Hr.
  { intros ifID b x H. unfold receive in H. go_inv. by case_match. }
  assert (∀ e, wf_bytes (rawPkt p) ∧ processed_typed (Drop e)) as Hdrop by (split; [apply Hp|done]).
  assert (∀ r off, Raw.wf r → typed_end (process aes_Encrypt mac netip_ParseAddr netip_String NewPacket intn now IsUp (set_path_at r off p))) as Hproc.
  { intros r' off Hr'. apply typed_result_end, process_typed; [done|apply Hmac|]. by apply set_path_at_typed. }
  destruct (decoded_path _ _ Hd) as (path & Epath & Wp & _).
  subst r. unfold dispatch. cbv zeta. destruct (_ =? EmptyPath.PathType); [case_match; [by apply Hrec|apply Hdrop]|].
  destruct (_ =? OneHop.PathType).
  { case_match; [repeat case_match; try apply Hdrop; by apply Hrec|]. apply as_result_typed, processOHP_typed; try done; apply Hmac. }
  destruct (_ =? scion_PathType).
  { apply as_result_typed. unfold processSCION. rewrite Epath. destruct path; try (split; [apply Hp|done]). by apply Hproc. }
  destruct (_ =? Epic.PathType); [|apply Hdrop]. apply as_result_typed. unfold processEPIC. rewrite Epath.
  destruct path as [| | | |e|]; try (split; [apply Hp|done]). destruct Wp as [_ _ _ _ (r & -> & Wr)].
  destruct (Hproc r (path_offset (scionLayer p) + Epic.MetadataLen) Wr) as [Hw Hv]. unfold mbind at 1, P_bind at 1.
  destruct (process _ _ _ _ _ _ _ _ _) as [p1 [res|q|er|]]; [|split; [exact Hw|exact Hv]|split; [exact Hw|done]..]. cbn [fst snd] in *.
  assert (∀ isLast, (verify_epic aes_Encrypt now e isLast p1).1 = p1 ∧ ∀ q, (verify_epic aes_Encrypt now e isLast p1).2 ≠ SlowPath q) as He.
  { intros isLast. unfold verify_epic, mbind, P_bind, call.
    destruct (Raw.GetInfoField _ _); [|done..]. cbn [verdict_of]. by destruct (LibEpic.VerifyTimestamp _ _ _) as [[]| |]; [destruct (LibEpic.VerifyHVF _ _ _ _ _ _ _)| |]. }
  unfold mbind, P_bind. destruct (_ || _); [|by split]. destruct (He (Raw.IsLastHop r)) as [E1 E2].
  destruct (verify_epic _ _ _ _ p1) as [p2 [[]|q|er|]]; cbn in E1; subst p2; [by split|by destruct (E2 q)|by split..].
Qed.

Lemma processPkt_typed p0 pkt src ingress :
  (∀ n, 0 ≤ n → len (PrependBytes n) = n) → DrkeyLemmas.BlockCipher aes_Encrypt →
  (∀ b, 16 ≤ len (mac b) ∧ wf_bytes (mac b)) →
  wf_bytes pkt → is_u16 ingress → is_u64 (localIA (d p0)) →
  wf_bytes (rawPkt (processPkt pkt src ingress p0).1) ∧ processed_typed (processPkt pkt src ingress p0).2.
Proof using.
  intros Hpre Haes Hmac Hb Hi Ha. unfold processPkt, PacketProcessor.processPkt.
  destruct (decodeLayers_spec reg (set_packet pkt src ingress (reset p0)) Hb eq_refl) as (Hl & _ & Hd).
  pose proof (decodeLayers_direct reg (set_packet pkt src ingress (reset p0))) as Hn.
  unfold direct in Hn. pose proof (received_typed p0 pkt src ingress) as Ht. unfold mbind, P_bind.
  destruct (decodeLayers reg _) as [p1 v]. cbn [fst] in Hl.
  assert (rawPkt p1 = pkt) as Ep by (by rewrite Hl).
  cbn [fst snd]. destruct v as [[]|q|e|]; [|by destruct (Hn q)|by split; [cbn; by rewrite Ep|]..].
  specialize (Ht p1 tt Hb Hi Ha eq_refl). specialize (Hd p1 tt eq_refl). by apply dispatch_typed.
Qed.

End router.

Import RouterExample.


End RouterTyped.
