(* ===== verification/RouterHandover.v ===== *)
(** From the fast path to the slow path: the packet that the router leaves for
    its slow path still holds the path it was working on (Module
    [HandoverLemmas]), and the slow path, which decodes the packet again, finds
    it there (Module [HeaderBytes]). *)
From S2P Require Export RouterReply RouterTyped.

(** * The header of a packet depends on its bytes only *)
Module HeaderBytes.

Import SCION ScionHdrLemmas AddrType PathLemmas AnswerLemmas.

(** The fields of the common header are determined by the first 12 bytes. *)
Lemma decode_cmn_prefix c : len c = CmnHdrLen →
  ∃ v tc fl nh hl pl pt d s, ∀ rest r, decode_cmn (c ++ rest) r = (set_cmn v tc fl nh hl pl pt d s r, Ok tt).
Proof. intros Hc. unfold CmnHdrLen in Hc. explode c 12%nat. destruct c; [|len_lia]. do 9 eexists. intros rest r. reflexivity. Qed.

Lemma sub_app_l (b rest : bytes) lo hi : 0 ≤ lo ≤ hi → hi ≤ len b → sub (b ++ rest) lo hi = sub b lo hi.
Proof.
  intros ? ?. pose proof (len_nonneg rest). rewrite !sub_Ok by len_lia. f_equal.
  rewrite drop_app_le by (unfold len in *; lia). rewrite take_app_le; [done|]. rewrite length_drop. unfold len in *. lia.
Qed.
Lemma get_be_app_l n (b rest : bytes) : Z.of_nat n ≤ len b → get_be n (b ++ rest) = get_be n b.
Proof.
  intros ?. pose proof (len_nonneg rest). rewrite !get_be_Ok by len_lia. by rewrite take_app_le by (unfold len in *; lia).
Qed.

(** The addresses by the bytes that follow it. *)
Lemma DecodeAddrHdr_prefix a r : wf_bytes a → len a = AddrHdrLen r →
  ∃ di si rd rs, ∀ rest r', DstAddrType r' = DstAddrType r → SrcAddrType r' = SrcAddrType r →
    DecodeAddrHdr (a ++ rest) r' = (set_addrs di si rd rs r', Ok tt).
Proof.
  intros Hw Ha. destruct (DecodeAddrHdr_any a r Hw ltac:(lia)) as (di & si & rd & rs & E & _). exists di, si, rd, rs.
  intros rest r' Ed Es. assert (AddrHdrLen r' = AddrHdrLen r) as El by (unfold AddrHdrLen; by rewrite Ed, Es).
  pose proof (Length_range (DstAddrType r)). pose proof (Length_range (SrcAddrType r)). pose proof (len_nonneg rest).
  assert (∀ o, 0 ≤ o → o + 8 ≤ len a → (sub_from (a ++ rest) o ≫= Uint64) = (sub_from a o ≫= Uint64)) as E8.
  { intros o Ho H8. unfold sub_from. rewrite !sub_Ok by len_lia. go_cbn. unfold Uint64.
    rewrite !firstn_all2 by (rewrite length_drop, ?length_app; unfold len; rewrite ?length_app; lia).
    rewrite drop_app_le by (unfold len in *; lia). apply get_be_app_l. len_lia. }
  unfold DecodeAddrHdr in *. rewrite El.
  rewrite (SE_bind_eq _ _ r r tt) in E by (unfold lift; by rewrite Ha, Z.ltb_irrefl).
  rewrite (SE_bind_eq _ _ r' r' tt) by (unfold lift; by replace (_ <? _) with false by len_lia).
  cbv zeta in *. rewrite Ed, Es. unfold AddrHdrLen, ISDAS.IABytes in *. rewrite !E8, !sub_app_l by lia.
  unfold mbind, SE_bind, lift in *. repeat (case_match; try done). unfold modify in *. by injection E as -> -> -> ->.
Qed.

(** What the common header and the addresses hold. *)
Definition hdr_fields (s : t) :=
  (Version s, TrafficClass s, FlowID s, NextHdr s, HdrLen s, PayloadLen s, PathType s, DstAddrType s, SrcAddrType s,
   (DstIA s, SrcIA s, RawDstAddr s, RawSrcAddr s)).

(** The path and the payload are not among them. *)
Definition keeps_hdr {A} (m : SE t A) : Prop := ∀ s, hdr_fields (m s).1 = hdr_fields s.
Lemma keeps_bind {A B} (m : SE t A) (f : A → SE t B) : keeps_hdr m → (∀ a, keeps_hdr (f a)) → keeps_hdr (m ≫= f).
Proof. intros Hm Hf s. unfold mbind, SE_bind. specialize (Hm s). destruct (m s) as [s' [a|e|]]; [by rewrite Hf|done..]. Qed.

Lemma DecodeFromBytes_steps reg data r s u :
  DecodeFromBytes reg data r = (s, Ok u) →
  CmnHdrLen ≤ len data ∧ ∃ r1 r2, decode_cmn data r = (r1, Ok tt) ∧
    DecodeAddrHdr (drop (Z.to_nat CmnHdrLen) data) r1 = (r2, Ok tt) ∧ hdr_fields s = hdr_fields r2.
Proof.
  intros H. unfold DecodeFromBytes in H.
  apply SE_bind_Ok in H as (r0 & u0 & H0 & H). unfold lift in H0. injection H0 as <- H0%fail_if_Ok.
  split; [lia|]. apply SE_bind_Ok in H as (r1 & [] & H1 & H). 
  apply SE_bind_Ok in H as (r1' & addrs & Ha & H). unfold lift, sub_from in Ha. injection Ha as <- Ha.
  rewrite sub_Ok in Ha by (unfold CmnHdrLen in *; lia). apply Ok_inj in Ha as <-.
  rewrite take_ge in H by (rewrite length_drop; unfold len, CmnHdrLen in *; lia).
  apply SE_bind_Ok in H as (r2 & [] & H2 & H). exists r1, r2. split_and!; [done..|].
  match type of H with ?m r2 = _ => assert (keeps_hdr m) as K end; [|specialize (K r2); by rewrite H in K].
  repeat (apply keeps_bind; [done|intros ?]). done.
Qed.

Lemma addr_len_fields s s' : hdr_fields s = hdr_fields s' → AddrHdrLen s = AddrHdrLen s'.
Proof. intros H. unfold AddrHdrLen. by injection H as _ _ _ _ _ _ _ -> -> _. Qed.
Lemma DecodeAddrHdr_fits data r r' : DecodeAddrHdr data r = (r', Ok tt) → AddrHdrLen r ≤ len data.
Proof.
  unfold DecodeAddrHdr. unfold mbind at 1, SE_bind at 1, lift at 1. destruct (Z.ltb_spec (len data) (AddrHdrLen r)); [done|lia].
Qed.

(** Two packets that agree up to the path have the same header. *)
Lemma same_header reg reg' pkt pkt' r r' s s' u u' off n :
  wf_bytes pkt → DecodeFromBytes reg pkt r = (s, Ok u) → DecodeFromBytes reg' pkt' r' = (s', Ok u') →
  same_outside off n pkt pkt' → CmnHdrLen + AddrHdrLen s ≤ off → hdr_fields s' = hdr_fields s.
Proof.
  intros Hb H H' [Hl Hbefore _] Hoff.
  apply DecodeFromBytes_steps in H as (L & r1 & r2 & Hc & Ha & Ef), H' as (L' & r1' & r2' & Hc' & Ha' & Ef').
  rewrite Ef, Ef'. rewrite (addr_len_fields _ _ Ef) in Hoff. clear Ef Ef' s s'.
  destruct (split_len CmnHdrLen pkt) as (c & x & -> & Lc & Lx); [done|]. 
  destruct (decode_cmn_prefix c Lc) as (v & tc & fl & nh & hl & pl & pt & d & sa & Ec). rewrite Ec in Hc. injection Hc as <-.
  rewrite (drop_len_app CmnHdrLen) in Ha by done. pose proof (DecodeAddrHdr_fits _ _ _ Ha) as Hfit.
  apply wf_bytes_app in Hb as [_ Hb]. set (r1 := set_cmn _ _ _ _ _ _ _ _ _ r) in *.
  pose proof (AddrHdrLen_range r1). destruct (split_len (AddrHdrLen r1) x) as (a & y & -> & La & _); [lia|].
  apply wf_bytes_app in Hb as [Hb _]. destruct (DecodeAddrHdr_prefix a r1 Hb La) as (di & si & rd & rs & Ea).
  rewrite Ea in Ha by done. injection Ha as <-. change (AddrHdrLen (set_addrs _ _ _ _ r1)) with (AddrHdrLen r1) in Hoff.
  assert (∃ y', pkt' = c ++ a ++ y') as [y' ->].
  { exists (drop (Z.to_nat (len (c ++ a))) pkt'). rewrite app_assoc.
    rewrite <- (take_drop (Z.to_nat (len (c ++ a))) pkt') at 1. f_equal.
    assert (len (c ++ a) ≤ off) by (rewrite len_app; lia). pose proof (len_nonneg (c ++ a)).
    replace (Z.to_nat (len (c ++ a))) with (Z.to_nat (len (c ++ a)) `min` Z.to_nat off)%nat by lia.
    rewrite <- take_take, Hbefore, take_take, Nat.min_l by lia. rewrite app_assoc. by apply take_len_app. }
  rewrite Ec in Hc'. injection Hc' as <-. rewrite (drop_len_app CmnHdrLen) in Ha' by done. rewrite Ea in Ha' by done.
  by injection Ha' as <-.
Qed.

End HeaderBytes.

(** * The path that the slow path finds *)
Module HandoverLemmas.

Import Net DataPlane LocalDelivery Processor PacketProcessor StepLemmas RawRefinement PathLemmas ProcessLemmas.
Import OptionLemmas AbstractRouter RouterSimulation ScionHdrLemmas PacketLemmas TameLemmas TotalLemmas.
Import ReplyPath ReplyLemmas AnswerLemmas HeaderBytes.

Lemma raw_DecodeFromBytes_app b post r :
  wf_bytes (b ++ post) → Raw.DecodeFromBytes b = Ok r → Raw.DecodeFromBytes (b ++ post) = Ok r.
Proof.
  intros Hw H. pose proof (proj1 (proj1 (wf_bytes_app b post) Hw)) as Hb.
  apply Raw.raw_DecodeFromBytes_Ok in H as (HB & HL & Hr); [|done]. apply Raw.raw_DecodeFromBytes_Ok; [done|].
  pose proof (proj2 (proj1 (Base.base_DecodeFromBytes_Ok _ _ Hb) HB)) as Hwb. pose proof (Base.Len_range _ Hwb). unfold Raw.Len, MetaLen in *.
  pose proof (len_nonneg post). split_and!; [|len_lia|].
  - rewrite <- HB. rewrite <- (base_decode_take (length b) (b ++ post)) by (rewrite ?length_app; unfold len in *; lia).
    by rewrite take_app_length.
  - rewrite Hr. f_equal. rewrite take_app_le by (unfold len in *; lia). done.
Qed.

(** The bytes of the raw path are where the header ends. *)
Lemma raw_path_decodes pkt s r :
  decoded pkt s → wf_bytes pkt → raw_path s = Some r → Raw.DecodeFromBytes (drop (Z.to_nat (raw_offset s)) pkt) = Ok r.
Proof.
  intros Hd Hw Hr. destruct (decoded_at _ _ Hd) as (pre & b & q & Ed & Lp & _ & Hq). rewrite Ed in Hw |- *.
  apply wf_bytes_app in Hw as [_ Hw]. unfold raw_path, raw_offset, path_offset in *.
  destruct (SCION.Path s) as [[|r0|o|D|e|o]|] eqn:Ep; try done.
  - injection Hr as ->. rewrite (drop_len_app _ pre) by done. apply raw_DecodeFromBytes_app; [done|].
    by destruct q; cbn in Hq; go_inv.
  - assert (Epic.DecodeFromBytes b = Ok e) as Hdec by (by destruct q; cbn in Hq; go_inv).
    destruct (epic_raw _ _ _ Hdec Hr) as (m & b' & -> & Lm & Hdec'). rewrite <- Lp, <- Lm, <- len_app.
    rewrite <- !app_assoc in *. rewrite app_assoc. rewrite (drop_len_app _ (pre ++ m)) by done.
    apply wf_bytes_app in Hw as [_ Hw]. by apply raw_DecodeFromBytes_app.
Qed.

(** ** Steps that make no requests *)

Import RouterTyped.
Lemma direct_verdict {A} (f : t → t) (o : t → outcome A) p : direct (λ p, (f p, verdict_of (o p))) p.
Proof. intros q. cbn. by destruct (o p). Qed.
Lemma direct_on_path {A} (m : SE Raw.t A) p : direct (on_path m) p.
Proof. intros q. unfold on_path. destruct (m (path p)) as [r o]. by destruct o. Qed.

Lemma direct_call {A} (o : outcome A) p : direct (call o) p.
Proof. apply (direct_verdict id). Qed.

(** Unfolds [m], a function of the state, at the state. *)
Ltac direct_open m := match goal with |- direct ?x _ => let q := fresh "q" in intros q; unfold m; revert q end.
Ltac direct_steps := repeat first
  [ match goal with |- ∀ q, ((?m ≫= ?f) ?p).2 ≠ SlowPath q => change (direct (m ≫= f) p) end
  | apply direct_bind; [|intros ? ?] | apply direct_on_path | apply direct_call | exact (direct_verdict id _ _) | done
  | match goal with |- direct (match ?c with _ => _ end) _ => destruct c end
  | match goal with |- direct (λ _, _) _ => let q := fresh "q" in intros q; lazy beta; revert q end
  | match goal with |- ∀ q, ((match ?c with _ => _ end) ?p).2 ≠ SlowPath q => destruct c end
  | match goal with |- ∀ q, (match ?c with _ => _ end).2 ≠ SlowPath q => destruct c end ].

Lemma parsePath_direct p : direct parsePath p.
Proof. unfold parsePath. direct_steps. Qed.
Lemma doXover_direct p : direct doXover p.
Proof. unfold doXover. direct_steps. Qed.

Section direct.
Context (aes_Encrypt : bytes → bytes → bytes).
Context (netip_ParseAddr : gostring → outcome IP.t) (netip_String : IP.t → gostring).
Context (now : Z).

Lemma identifier_option_direct o p : direct (identifier_option o) p.
Proof using. direct_open @identifier_option. direct_steps. Qed.
Lemma processFabrid_direct e p : direct (processFabrid aes_Encrypt netip_ParseAddr netip_String now e) p.
Proof using. direct_open @processFabrid. direct_steps. Qed.
Lemma fabrid_option_direct e o off p : direct (fabrid_option aes_Encrypt netip_ParseAddr netip_String now e o off) p.
Proof using. direct_open @fabrid_option. direct_steps. apply processFabrid_direct. Qed.
Lemma hbh_loop_direct e opts off p : direct (hbh_loop aes_Encrypt netip_ParseAddr netip_String now e opts off) p.
Proof using.
  revert off p. induction opts as [|o opts IH]; intros off p; [done|]. cbn [hbh_loop]. direct_steps; auto using identifier_option_direct, fabrid_option_direct.
Qed.
Lemma options_direct e p : direct (processHbhOptions aes_Encrypt netip_ParseAddr netip_String now e) p.
Proof using. apply hbh_loop_direct. Qed.
Lemma processEgress_direct p : direct processEgress p.
Proof using. unfold processEgress. direct_steps. Qed.
End direct.

Section hands.
Context (p : t) (D : Decoded.t) (Hrd : ready p D).

(** The packet of [p] now holds the path [D2], whose position is in it. *)
Record rests (p2 : t) (D2 : Decoded.t) : Prop := {
  rs_holds : holds p2 D2;
  rs_placed : placed D2;
  rs_off : pathOff p2 = pathOff p;
  rs_len : Decoded.Len D2 = Decoded.Len D;
  rs_outside : same_outside (pathOff p) (Decoded.Len D) (rawPkt p) (rawPkt p2);
  rs_synced : synced (path p2)
}.

Lemma current_placed D1 info hop : Decoded.wf D1 → cur_info D1 = Some info → cur_hop D1 = Some hop → placed D1.
Proof using.
  intros Hw Hi Ho. split; [done|]. apply lookup_lt_Some in Hi, Ho. pose proof (Base.wf_meta _ (Decoded.wf_base _ Hw)) as [].
  split; [rewrite <- (Decoded.wf_NumINF _ Hw)|rewrite <- (Decoded.wf_NumHops _ Hw)]; unfold len; lia.
Qed.
Lemma moved_rests p2 D2 : moved p D p2 D2 → rests p2 D2.
Proof using Hrd.
  intros [E [Hh Hi Ho] L O S]. split; try done; [|apply E|apply S, (rd_synced _ _ Hrd)].
  by eapply current_placed; [apply (holds_repr _ _ Hh)|..].
Qed.

(** When a step passes the packet to the slow path, the packet rests. *)
Definition hands {A} (m : P A) : Prop :=
  ∀ p1 D1 p2 q, moved p D p1 D1 → m p1 = (p2, SlowPath q) → ∃ D2, rests p2 D2.

Lemma hands_bind {A B} (m : P A) (f : A → P B) :
  tame p D m → hands m → (∀ a, hands (f a)) → hands (m ≫= f).
Proof using.
  intros Ht Hm Hf p1 D1 p2 q H1 E. destruct (Ht p1 D1 H1) as (_ & _ & M). unfold mbind, P_bind in E.
  destruct (m p1) as [p1' [a|q'|e|]] eqn:E1; try done.
  - destruct (M _ _ eq_refl) as [D1' M1]. by eapply Hf.
  - injection E as -> ->. by eapply Hm.
Qed.

(** Checks leave the packet as it is, and other steps make no requests. *)
Lemma hands_check {A} (m : P A) : (∀ p1, (m p1).1 = p1) → hands m.
Proof using Hrd. intros Hm p1 D1 p2 q H1 E. specialize (Hm p1). rewrite E in Hm. cbn in Hm. subst. eauto using moved_rests. Qed.
Lemma hands_direct {A} (m : P A) : (∀ p1, RouterTyped.direct m p1) → hands m.
Proof using. intros Hm p1 D1 p2 q H1 E. destruct (Hm p1 q). by rewrite E. Qed.

Lemma hands_reject c r : hands (reject_if c r).
Proof using Hrd. by apply hands_check. Qed.

Lemma alert_rests at_ingress r p1 D1 p2 q :
  moved p D p1 D1 → raise_alert at_ingress r p1 = (p2, SlowPath q) → ∃ D2, rests p2 D2.
Proof using Hrd.
  intros H1 E. destruct (alert_step _ _ Hrd at_ingress r p1 D1 H1) as (p2' & D2 & E2 & Hh & Eb & Eo & O & S).
  rewrite E in E2. injection E2 as <- _. exists D2. pose proof (moved_rests _ _ H1) as [_ [_ R] _ L _ _].
  split; try done; [split; [apply (holds_repr _ _ Hh)|by rewrite Eb]|]. unfold Decoded.Len in *. by rewrite Eb.
Qed.

Lemma hands_ingress_alert : hands handleIngressRouterAlert.
Proof using Hrd.
  intros p1 D1 p2 q H1 E. unfold handleIngressRouterAlert in E. destruct (_ =? 0); [done|]. destruct (negb _); [done|].
  by eapply (alert_rests true (router_alert (ingressID p1))).
Qed.
Lemma hands_egress_alert : hands handleEgressRouterAlert.
Proof using Hrd.
  intros p1 D1 p2 q H1 E. unfold handleEgressRouterAlert in E. destruct (negb _); [done|]. cbv zeta in E. destruct (is_nil _); [done|].
  by eapply (alert_rests false (router_alert (egressInterface p1))).
Qed.
Lemma hands_segID : hands updateNonConsDirIngressSegID.
Proof using Hrd.
  intros p1 D1 p2 q H1 E. destruct (updateNonConsDirIngressSegID_step p1 D1 (mv_at _ _ _ _ H1)) as (p2' & E' & _). by rewrite E in E'.
Qed.
Lemma hands_determinePeer : hands determinePeer.
Proof using.
  apply hands_direct. intros p1 q. unfold determinePeer, mbind, P_bind. by destruct (peer_of _ _).
Qed.
Lemma hands_transit : hands validateTransitUnderlaySrc.
Proof using Hrd.
  apply hands_check. intros p1. unfold validateTransitUnderlaySrc. destruct (_ || _); [done|]. unfold mbind, P_bind, call.
  destruct (ingressInterface p1); [|done..]. cbn. destruct (_ !! _); [|done]. by destruct (IP_Equal _ _).
Qed.
Lemma hands_srcdst : hands validateSrcDstIA.
Proof using Hrd. apply hands_check. intros p1. by destruct (validateSrcDstIA_eq p1) as [r ->]. Qed.
Lemma hands_doXover : hands doXover.
Proof using. apply hands_direct, doXover_direct. Qed.
Lemma hands_egressID : hands validateEgressID.
Proof using Hrd.
  apply hands_check. intros p1. unfold validateEgressID, mbind, P_bind, slow_path_if. cbv zeta.
  destruct (_ || _); [done|]. destruct (negb (effectiveXover p1)); by destruct (negb _).
Qed.

Section mac.
Context (mac : bytes → bytes) (Hmac : ∀ b, 16 ≤ len (mac b)) (now : Z) (IsUp : nat → bool).
Context (aes_Encrypt : bytes → bytes → bytes).
Context (netip_ParseAddr : gostring → outcome IP.t) (netip_String : IP.t → gostring).
Context (NewPacket : bytes → L4.LayerType → list Layer) (intn : Z → Z).

Lemma hands_verifyMAC : hands (verifyCurrentMAC mac).
Proof using Hrd Hmac.
  intros p1 D1 p2 q H1 E. rewrite (verifyCurrentMAC_eq mac Hmac) in E. destruct (decide _); [done|].
  injection E as <- _. by eauto using moved_rests.
Qed.

Lemma hands_arrival p2 q : process_arrival mac now p = (p2, SlowPath q) → ∃ D2, rests p2 D2.
Proof using Hrd Hmac.
  set (rest := (_ ← determinePeer; _ ← validateHopExpiry now; _ ← validateIngressID; _ ← validatePktLen;
    _ ← validateTransitUnderlaySrc; _ ← validateSrcDstIA; _ ← updateNonConsDirIngressSegID;
    _ ← verifyCurrentMAC mac; handleIngressRouterAlert) : P unit).
  assert (hands rest) as Hh.
  { unfold rest, validateHopExpiry, validateIngressID, validatePktLen.
    repeat (apply hands_bind; [| |intros _]); auto using tame_determinePeer, tame_reject, tame_transit, tame_srcdst,
      tame_update_segID_ingress, tame_verifyMAC, hands_determinePeer, hands_reject, hands_transit, hands_srcdst,
      hands_segID, hands_verifyMAC, hands_ingress_alert. }
  change (process_arrival mac now) with (parsePath ≫= λ _, rest). clearbody rest. unfold mbind, P_bind.
  destruct (parsePath_tame p D Hrd) as (_ & _ & M). pose proof (parsePath_direct p) as Hd. unfold direct in Hd.
  destruct (parsePath p) as [p1 [a|q'|e|]]; [|by destruct (Hd q')|done..].
  apply (Hh p1 D), (M p1 a eq_refl).
Qed.

Lemma hands_departure : hands (departure mac now IsUp).
Proof using Hrd Hmac.
  assert (hands (xover_if_needed mac now)) as Hx.
  { intros p1 D1 p2 q H1 E. unfold xover_if_needed in E. destruct (_ && _); [|done].
    refine (hands_bind _ _ (tame_doXover _ _ Hrd) hands_doXover (λ _, hands_bind _ _ (tame_reject _ _ Hrd _ _) (hands_reject _ _) (λ _, hands_verifyMAC)) p1 D1 p2 q H1 E). }
  unfold departure, validateEgressUp. repeat (apply hands_bind; [| |intros _]);
    auto using tame_xover, tame_egressID, tame_egress_alert, tame_reject, hands_egressID, hands_egress_alert, hands_reject.
Qed.

Ltac no_request E := exfalso;
  match type of E with ?m ?x = (_, SlowPath ?q) =>
    assert (direct m x) as Hd by (direct_steps; auto using options_direct, processEgress_direct); apply (Hd q); rewrite E
  end.
Lemma hands_forward : hands (forward aes_Encrypt netip_ParseAddr netip_String now).
Proof using Hrd.
  intros p1 D1 p2 q H1 E. unfold forward in E. cbv zeta in E. destruct (is_some _); [|destruct (_ !! _)].
  3: by injection E as <- _; eauto using moved_rests.
  all: by no_request E.
Qed.

Lemma hands_inbound : hands (process_inbound aes_Encrypt netip_ParseAddr netip_String NewPacket intn now).
Proof using Hrd.
  intros p1 D1 p2 q H1 E. unfold process_inbound in E. unfold mbind at 1, P_bind at 1 in E.
  destruct (resolveInbound_state NewPacket intn p1) as [dp Ed].
  destruct (resolveInbound NewPacket intn p1) as [p1' [a|q'|e|]]; [|cbn in Ed; injection E as <- _; subst p1'|done..].
  - by no_request E.
  - exists D1. destruct (moved_rests _ _ H1) as [Hh ? ? ? ? ?]. split; try done. by apply (holds_ext p1).
Qed.

Lemma hands_process p2 q :
  Processor.process aes_Encrypt mac netip_ParseAddr netip_String NewPacket intn now IsUp p = (p2, SlowPath q) → ∃ D2, rests p2 D2.
Proof using Hrd Hmac.
  intros E. unfold Processor.process in E. unfold mbind at 1, P_bind at 1 in E.
  destruct (process_arrival_tame p D Hrd mac Hmac now) as (_ & _ & M). pose proof hands_arrival as Ha.
  destruct (process_arrival mac now p) as [p1 [a|q'|e|]]; [|injection E as -> ->; by eapply Ha|done..].
  destruct (M _ _ eq_refl) as [D1 M1]. unfold mbind, P_bind, read, id in E. destruct (_ =? _); [by eapply hands_inbound|].
  rewrite process_outbound_eq in E. refine (hands_bind _ _ _ hands_departure (λ _, hands_forward) _ _ _ _ M1 E).
  by apply departure_tame.
Qed.
End mac.
End hands.

(** Where the raw path starts, by the type of the path. *)
Definition raw_kind (s : SCION.t) (off : Z) : Prop :=
  SCION.PathType s = scion_PathType ∧ off = path_offset s ∨
  SCION.PathType s = Epic.PathType ∧ off = path_offset s + Epic.MetadataLen.

Section dispatch.
Context (PrependBytes : Z → bytes).
Context (aes_Encrypt : bytes → bytes → bytes) (mac : bytes → bytes) (Hmac : ∀ b, 16 ≤ len (mac b)).
Context (netip_ParseAddr : gostring → outcome IP.t) (netip_String : IP.t → gostring).
Context (NewPacket : bytes → L4.LayerType → list Layer) (intn : Z → Z).
Context (now : Z) (IsUp : nat → bool).
Context {BFD : Type} (bfd_DecodeFromBytes : bytes → outcome BFD).
Context (order : gmap Z UDPAddr → list (Z * UDPAddr)).

Lemma ohp_direct p : direct (processOHP PrependBytes mac NewPacket intn) p.
Proof using.
  assert (∀ p, direct (updateSCIONLayer PrependBytes) p) as Hu.
  { intros p1 q E. by eapply (TypedLemmas.update_no_slow PrependBytes p1 _ q), injective_projections. }
  assert (∀ p, direct (ohp_deliver NewPacket intn) p) as Hd.
  { intros p1 q. unfold ohp_deliver. by destruct (resolveLocalDst _ _ _ _ _ _) as [dp []]. }
  direct_open @processOHP. destruct (SCION.Path _) as [[|o| | | |]|]; try done. destruct (negb _); [done|]. destruct (_ =? 0).
  - change (direct (ohp_out PrependBytes mac o) p). direct_open @ohp_out. direct_steps.
  - change (direct (ohp_in PrependBytes mac NewPacket intn o) p). direct_open @ohp_in. direct_steps; auto.
Qed.

Lemma as_result_Slow (m : P processResult) p p2 q :
  as_result (BFD := BFD) m p = (p2, SlowPath q) → m p = (p2, SlowPath q).
Proof using. unfold as_result, mbind, P_bind. by destruct (m p) as [p1 [a|q'|e|]]; [|intros [= <- <-]|..]. Qed.

Lemma dispatch_hands p p2 q :
  layers_of p → wf_bytes (rawPkt p) → effectiveXover p = false →
  dispatch PrependBytes aes_Encrypt mac netip_ParseAddr netip_String NewPacket intn now IsUp bfd_DecodeFromBytes order p = (p2, SlowPath q) →
  ∃ r off D D2, raw_kind (scionLayer p) off ∧ ready (set_path_at r off p) D ∧ rests (set_path_at r off p) D p2 D2.
Proof using Hmac.
  intros Hl Hb Hx E. unfold dispatch in E. cbv zeta in E.
  assert (∀ (o : outcome (processed (BFD := BFD))), (p, verdict_of o) ≠ (p2, SlowPath q)) as Hv by (by intros []).
  destruct (_ =? EmptyPath.PathType); [case_match; [by destruct (Hv _ E)|done]|].
  destruct (_ =? OneHop.PathType).
  { destruct (bool_decide _); [repeat case_match; try done; by destruct (Hv _ E)|].
    apply as_result_Slow in E. destruct (ohp_direct p q). by rewrite E. }
  destruct (decoded_path _ _ (lo_scion _ Hl)) as (path & Epath & Wp & _).
  destruct (Z.eqb_spec (SCION.PathType (scionLayer p)) scion_PathType) as [Et|_].
  { apply as_result_Slow in E. unfold processSCION in E. rewrite Epath in E. destruct path as [| |r| | |]; try done.
    destruct (repr_exists r Wp) as [D HD]. pose proof (decoded_scion p r D Hl Hb Epath HD Hx) as Hrd.
    destruct (hands_process _ D Hrd mac Hmac now IsUp _ _ _ _ _ _ _ E) as [D2 H2]. exists r, (path_offset (scionLayer p)), D, D2. by split; [left|]. }
  destruct (Z.eqb_spec (SCION.PathType (scionLayer p)) Epic.PathType) as [Et|_]; [|done].
  apply as_result_Slow in E. unfold processEPIC in E. rewrite Epath in E. destruct path as [| | | |e|]; try done.
  destruct Wp as [_ _ _ _ (r & Er & Wr)]. rewrite Er in E.
  destruct (repr_exists r Wr) as [D HD]. pose proof (decoded_epic p e r D Hl Hb Epath Er HD Hx) as Hrd.
  cbv zeta in E. unfold mbind at 1, P_bind at 1 in E. pose proof (hands_process _ D Hrd mac Hmac now IsUp aes_Encrypt netip_ParseAddr netip_String NewPacket intn) as K.
  unfold PacketProcessor.process in E. destruct (Processor.process _ _ _ _ _ _ _ _ _) as [p1 [a|q'|err|]]; [| |done..].
  - exfalso. match type of E with ?m p1 = _ => assert (direct m p1) as Hd end; [|by apply (Hd q); rewrite E].
    apply direct_bind; [|done]. destruct (_ || _); [|done]. direct_open @verify_epic. direct_steps.
  - injection E as -> ->. destruct (K _ _ eq_refl) as [D2 H2]. do 4 eexists. split; [by right|]. by split.
Qed.
End dispatch.

(** ** The slow path decodes the packet again *)

Lemma fast_header reg p0 p1 u :
  PacketProcessor.decodeLayers reg p0 = (p1, Continue u) →
  SCION.DecodeFromBytes reg (rawPkt p0) (scionLayer p0) = (scionLayer p1, Ok tt).
Proof.
  intros H. unfold PacketProcessor.decodeLayers in H. apply P_bind_Continue in H as (q1 & u1 & H1 & H). unfold on_scion in H1.
  destruct (SCION.DecodeFromBytes _ _ _) as [s [[]| |]]; [|done..]. injection H1 as <- _. f_equal.
  apply P_bind_Continue in H as (q2 & u2 & ->%update_Continue & H). apply P_bind_Continue in H as (q3 & u3 & H3 & H).
  assert (scionLayer q3 = s) as <-.
  { unfold decode_opt in H3. destruct (bool_decide _); [|by injection H3 as <- _].
    apply P_bind_Continue in H3 as (q & v & H3 & ->%update_Continue). unfold on_hbh in H3.
    destruct (HopByHopExtn.DecodeFromBytes _ _). by injection H3 as <- _. }
  unfold decode_opt in H. destruct (bool_decide _); [|by injection H as <- _].
  apply P_bind_Continue in H as (q & v & H & ->%update_Continue). unfold on_e2e in H.
  destruct (EndToEndExtnSkipper.DecodeFromBytes _ _). by injection H as <- _.
Qed.

Import SlowPath.

Lemma slow_header reg pkt (p p' : SlowPath.t) u :
  SlowPath.decodeLayers reg pkt p = (p', Ok u) →
  SCION.DecodeFromBytes reg pkt (scionLayer p) = (scionLayer p', Ok tt).
Proof.
  intros H. unfold SlowPath.decodeLayers in H. apply SE_bind_Ok in H as (q1 & u1 & H1 & H). unfold zoom in H1.
  destruct (SCION.DecodeFromBytes _ _ _) as [s o]. injection H1 as <- ->. destruct u1. f_equal.
  apply SE_bind_Ok in H as (q2 & u2 & [= <- <-] & H). apply SE_bind_Ok in H as (q3 & u3 & H3 & H).
  assert (∀ l (m : bytes → SE SlowPath.t unit) (q q' : SlowPath.t) v, (∀ data q, scionLayer (m data q).1 = scionLayer q) →
    SlowPath.decode_opt l m q = (q', Ok v) → scionLayer q' = scionLayer q) as K.
  { intros l m q q' v Hm E. unfold SlowPath.decode_opt in E. destruct (bool_decide _); [|by injection E as <- _].
    apply SE_bind_Ok in E as (r & w & Em & [= <- <-]). cbn. rewrite <- (Hm (SlowPath.LayerPayload q) q). by rewrite Em. }
  apply K in H3; [|intros; unfold zoom; by destruct (HopByHopExtnSkipper.DecodeFromBytes _ _)].
  apply K in H; [|intros; unfold zoom; by destruct (EndToEndExtnSkipper.DecodeFromBytes _ _)].
  by rewrite H, H3.
Qed.

(** The path that the slow path finds is of the type of the header. *)
Lemma find_path_kind p p' u : find_path p = (p', Ok u) → raw_kind (SlowPath.scionLayer p) (raw_offset (SlowPath.scionLayer p)).
Proof.
  unfold find_path, raw_kind, raw_offset. cbv zeta. destruct (Z.eqb_spec (SCION.PathType (scionLayer p)) scion_PathType) as [Et|_].
  - intros H. left. split; [done|]. by repeat case_match.
  - destruct (Z.eqb_spec (SCION.PathType (scionLayer p)) Epic.PathType) as [Et|_]; [|done].
    intros H. right. split; [done|]. by repeat case_match.
Qed.

Lemma find_path_state p p' u : find_path p = (p', Ok u) → ∃ o, p' = SlowPath.set_path o p.
Proof. unfold find_path. cbv zeta. intros H. repeat (case_match; simplify_eq); by eexists. Qed.

Lemma raw_kind_fields s s' off off' :
  hdr_fields s' = hdr_fields s → raw_kind s off → raw_kind s' off' → off' = off.
Proof.
  intros Hf. pose proof (addr_len_fields _ _ Hf) as El. assert (SCION.PathType s' = SCION.PathType s) as Et by (by injection Hf).
  unfold raw_kind, path_offset. rewrite El, Et. by intros [[-> ->]|[-> ->]] [[? ->]|[? ->]].
Qed.

(** The slow path found the path [D] in the packet [pkt], whose header was [s]. *)
Record found (pkt : bytes) (s : SCION.t) (p : SlowPath.t) (D : Decoded.t) : Prop := {
  fd_answerable : answerable p D;
  fd_placed : placed D;
  fd_pkt : SlowPath.rawPkt p = pkt;
  fd_header : hdr_fields (SlowPath.scionLayer p) = hdr_fields s
}.

Lemma slow_path_finds reg reg' pkt s r0 off p1 D p2 D2 ps pslow u :
  wf_bytes pkt → SCION.DecodeFromBytes reg pkt r0 = (s, Ok tt) → raw_kind s off →
  pathOff p1 = off → Processor.rawPkt p1 = pkt → ready p1 D → rests p1 D p2 D2 → wf_bytes (Processor.rawPkt p2) →
  SlowPath.rawPkt ps = Processor.rawPkt p2 → wf_bytes (Extn.Contents (SlowPath.e2eLayer ps)) → Spao.MACBufferSize ≤ len (macInputBuffer ps) →
  (_ ← SlowPath.decodeLayers reg' (Processor.rawPkt p2); find_path) ps = (pslow, Ok u) →
  found (Processor.rawPkt p2) s pslow D2 ∧ same_ports ps pslow.
Proof.
  intros Hb Hdec Hk Eoff Epkt Hrd [Hh Hpl Eo EL Hout Hs] Hb2 Es Hc Ha H.
  apply SE_bind_Ok in H as (p3 & [] & Hdl & Hfp).
  pose proof (decodeLayers_safe reg' (Processor.rawPkt p2) ps Hb2 Es Hc) as Hl. unfold decodes in Hl. rewrite Hdl in Hl. destruct Hl as [Hl S3].
  pose proof (find_path_safe _ _ Hb2 Hl (sp_aux _ _ S3 Ha)) as Hf. rewrite Hfp in Hf. destruct Hf as (S4 & Esc & D' & HD').
  pose proof (find_path_kind _ _ _ Hfp) as Hk'. apply slow_header in Hdl.
  destruct (find_path_state _ _ _ Hfp) as [o Ep].
  assert (hdr_fields (scionLayer p3) = hdr_fields s) as Hfields.
  { eapply (same_header _ _ pkt (Processor.rawPkt p2)); [done|exact Hdec|exact Hdl|rewrite Epkt, Eoff in Hout; exact Hout|].
    destruct Hk as [[_ ->]|[_ ->]]; unfold path_offset, Epic.MetadataLen; lia. }
  pose proof (raw_kind_fields _ _ _ _ Hfields Hk Hk') as Eo'.
  destruct HD' as [[Hwf (q & r & Eq & Wq & Lq & Er & Wr & Hr)] Wp Lp Hpay Hcont Haux].
  assert (r = Processor.path p2) as ->.
  { enough (Ok r = Ok (Processor.path p2)) as H1 by (by injection H1). 
    rewrite <- (raw_path_decodes (Processor.rawPkt p2) (scionLayer p3) r (ly_scion _ _ Hl) Hb2) by (by rewrite <- Esc).
    rewrite Eo', <- Eoff, <- Eo. apply (holds_decode p2 D2 Hh Hs). by apply wf_bytes_drop. }
  assert (D' = D2) as -> by apply (RouterProperties.repr_inj _ _ _ Hr (holds_repr _ _ Hh)).
  split; [|by etransitivity]. split; [split; [split; [done|]|done..]|done| |].
  - by exists q, (Processor.path p2).
  - rewrite Ep. apply (ly_pkt _ _ Hl).
  - by rewrite Esc.
Qed.
End HandoverLemmas.

(** * The slow path of the router *)
Module RouterHandover.

Import Net DataPlane LocalDelivery Processor PacketProcessor ScionHdrLemmas PacketLemmas RouterTyped.
Import ReplyPath ReplyLemmas AnswerLemmas HeaderBytes HandoverLemmas SlowPath.

Section router.
Context (reg : Registry.t) (PrependBytes : Z → bytes).
Context (aes_Encrypt : bytes → bytes → bytes) (mac : bytes → bytes).
Context (netip_ParseAddr : gostring → outcome IP.t) (netip_String : IP.t → gostring).
Context (NewPacket : bytes → L4.LayerType → list Layer) (intn : Z → Z).
Context (now : Z) (IsUp : nat → bool).
Context {BFD : Type} (bfd_DecodeFromBytes : bytes → outcome BFD).
Context (order : gmap Z UDPAddr → list (Z * UDPAddr)).

Let processPkt := PacketProcessor.processPkt reg PrependBytes aes_Encrypt mac netip_ParseAddr netip_String NewPacket intn now IsUp
  bfd_DecodeFromBytes order.

(** What the fast path hands over: the bytes of the packet, in which the path is
    now [D2], and a request with a message. *)
Record handed_over (pkt : bytes) (s : SCION.t) (pkt2 : bytes) (D2 : Decoded.t) : Prop := {
  ho_header : ∃ r0, SCION.DecodeFromBytes reg pkt r0 = (s, Ok tt);
  ho_path : ∃ p1 D p2, raw_kind s (pathOff p1) ∧ Processor.rawPkt p1 = pkt ∧ RouterSimulation.ready p1 D ∧
    rests p1 D p2 D2 ∧ Processor.rawPkt p2 = pkt2;
  ho_pkt : wf_bytes pkt2
}.

Lemma processPkt_hands p0 pkt src ingress p2 q :
  (∀ n, 0 ≤ n → len (PrependBytes n) = n) → DrkeyLemmas.BlockCipher aes_Encrypt →
  (∀ b, 16 ≤ len (mac b) ∧ wf_bytes (mac b)) → wf_bytes pkt → is_u16 ingress → is_u64 (localIA (Processor.d p0)) →
  processPkt pkt src ingress p0 = (p2, SlowPath q) →
  TypedLemmas.request_typed q ∧ ∃ s D2, handed_over pkt s (Processor.rawPkt p2) D2.
Proof using.
  intros Hpre Haes Hmac Hb Hi Ha E.
  pose proof (processPkt_typed reg PrependBytes aes_Encrypt mac netip_ParseAddr netip_String NewPacket intn now IsUp
    bfd_DecodeFromBytes order p0 pkt src ingress Hpre Haes Hmac Hb Hi Ha) as [Hw Hq].
  unfold processPkt in E. rewrite E in Hw, Hq. split; [exact Hq|]. cbn [fst] in Hw.
  unfold PacketProcessor.processPkt, mbind, P_bind in E.
  pose proof (decodeLayers_direct reg (PacketProcessor.set_packet pkt src ingress (PacketProcessor.reset p0))) as Hn. unfold direct in Hn.
  destruct (PacketProcessor.decodeLayers reg _) as [p1 [u|q'|e|]] eqn:Ed; [|by destruct (Hn q')|done..].
  destruct (RouterProperties.received_decoded reg p0 pkt src ingress p1 u Hb Ed) as (Hl & _ & Epkt & _ & _ & Hx).
  apply fast_header in Ed. change (Processor.rawPkt (PacketProcessor.set_packet pkt _ _ _)) with pkt in Ed.
  apply dispatch_hands in E as (r & off & D & D2 & Hk & Hrd & Hrs); [|apply Hmac|done|by rewrite Epkt|done].
  exists (Processor.scionLayer p1), D2. split; [by eexists| |done]. exists (set_path_at r off p1), D, p2. by split_and!.
Qed.

(** ** Serving the request *)

Section slow.
Context (reg' : Registry.t) {GP : GoPacket} {laws : GoPacketLaws GP}.
Context (aes_Encrypt' : bytes → bytes → bytes) (cmac_Sum : (bytes → bytes) → bytes → bytes).
Context (Hcmac : ∀ f b, wf_bytes (cmac_Sum f b)).
Context (provider : KeyWindow.FakeProvider) (now' : Z).
Context (Hprovider : KeyWindow.Second ≤ KeyWindow.EpochDuration provider).
Context (authentication : bool) (capacity : Z) (Hcapacity : SCMP.MaxSCMPPacketLen ≤ capacity).

Let processPacket := SlowPath.processPacket reg' aes_Encrypt' cmac_Sum provider now' authentication capacity.

(** The message that a request asks for: with the type of the request, or the reply
    to the traceroute request in the packet. *)
Definition serves (q : slowPathRequest) (p : SlowPath.t) (m : message) (c : Z) (why : option error) : Prop :=
  match typ q with
  | slowPathSCMP => request_message q = Some m ∧ message_type m = scmpType q ∧ c = code q ∧ why = cause q
  | slowPathRouterAlert => ∃ r, traceroute_request p = Ok r ∧ c = 0 ∧ why = None ∧
      m = MTraceroute (Traceroute.mk (BaseLayer.mk [] []) (Traceroute.Identifier r) (Traceroute.Sequence r)
                         (localIA (SlowPath.d p)) (interfaceId q))
  end.

(** The reply [out] to the request [q] about the packet [pkt], in which the path is
    [D]: it is sent back to where the packet came from. *)
Record served (dp : DataPlane.t) (src : UDPAddr) (ingress : Z) (pkt : bytes) (s : SCION.t) (D : Decoded.t)
    (q : slowPathRequest) (res : processResult) (out : bytes) : Prop := {
  sv_result : res = mkResult ingress (Some src) (Some out) 0;
  sv_len : len out ≤ SCMP.MaxSCMPPacketLen;
  sv_answer : ∃ p m c why, found pkt s p D ∧ SlowPath.d p = dp ∧ SlowPath.ingressID p = ingress ∧
    serves q p m c why ∧ ¬ is_scmp_error p ∧ (authentication = false → answer p D c m why out)
}.

Lemma processPacket_serves pkt s pkt2 D src ingress q p :
  wf_bytes pkt → handed_over pkt s pkt2 D → TypedLemmas.request_typed q → local_ok (SlowPath.d p) →
  Spao.MACBufferSize ≤ len (macInputBuffer p) →
  match processPacket pkt2 src ingress q p with
  | (_, Ok res) => res = no_result ∨ ∃ out, served (SlowPath.d p) src ingress pkt2 s D q res out
  | (_, Err _) => True
  | (_, Panic) => False
  end.
Proof using laws Hcmac Hprovider Hcapacity.
  intros Hb [(r0 & Hdec) (p1 & D1 & p2 & Hk & Epkt & Hrd & Hrs & Ep2) Hw] Hq Hloc Haux. unfold processPacket, SlowPath.processPacket.
  set (ps := SlowPath.set_packet ingress src pkt2 (SlowPath.reset p)).
  rewrite (SE_bind_eq (modify _) _ p ps tt) by done.
  pose proof (decodeLayers_safe reg' pkt2 ps Hw eq_refl ltac:(constructor)) as Hl. unfold decodes in Hl.
  unfold mbind at 1, SE_bind at 1. destruct (SlowPath.decodeLayers reg' pkt2 ps) as [p3 [[]|e|]] eqn:Edl; [|done..].
  destruct Hl as [Hl S3]. pose proof (find_path_safe _ _ Hw Hl (sp_aux _ _ S3 Haux)) as Hf.
  unfold mbind at 1, SE_bind at 1. destruct (find_path p3) as [p4 [[]|e|]] eqn:Efp; [|done..]. clear Hf Hl S3.
  destruct (slow_path_finds reg reg' pkt s r0 (pathOff p1) p1 D1 p2 D ps p4 tt) as [Hfd [Sd Si Ss _]]; try done; [by rewrite Ep2..|constructor| |].
  { rewrite Ep2. unfold mbind, SE_bind. by rewrite Edl. }
  rewrite Ep2 in Hfd. pose proof Hfd as [Han Hpl _ _]. change (SlowPath.d ps) with (SlowPath.d p) in Sd. rewrite <- Sd in Hloc.
  assert (∀ m c why, is_u8 c → of_cause m why → serves q p4 m c why →
    match packSCMP aes_Encrypt' cmac_Sum provider now' authentication capacity (message_type m) c (Some m) why p4 with
    | (_, Ok res) => res = no_result ∨ ∃ out, served (SlowPath.d p) src ingress pkt2 s D q res out
    | (_, Err _) => True
    | (_, Panic) => False
    end) as K.
  { intros m c why Hc Hm Hsv.
    pose proof (packSCMP_spec aes_Encrypt' cmac_Sum provider now' Hprovider authentication Hcmac capacity Hcapacity c m why p4 D Han Hpl Hloc Hc Hm) as Hp.
    destruct (packSCMP _ _ _ _ _ _ _ _ _ _ p4) as [p5 [res|e|]]; [|done..]. destruct Hp as (out & -> & Hlen & Ha & Hne).
    right. exists out. split; [by rewrite Si, Ss|done|]. exists p4, m, c, why. by split_and!. }
  destruct Hq as [Hc _ _ _ Hmsg]. unfold serves in K. destruct (typ q).
  - destruct (Hmsg eq_refl) as (m & Em & Et & Hm). rewrite Em, <- Et. by apply K.
  - unfold handleSCMPTraceRouteRequest. pose proof (traceroute_request_safe p4 D Han) as Hs.
    destruct (traceroute_request p4) as [r|e|]; [|by left|by destruct Hs].
    apply (K (MTraceroute _)); [done|done|]. exists r. by split_and!.
Qed.
End slow.
End router.
End RouterHandover.
