(* ===== verification/RouterJourney.v ===== *)
(** The routers along a whole path: up to three segments, with a change of
    segment inside an AS or over a peering link.  Module [Journey] says when the
    ASes of a path authorised it, and shows that what each router writes is what
    the next one expects. *)
From S2P Require Export RouterProperties.

Module Journey.

Import Net DataPlane LocalDelivery Processor PacketProcessor StepLemmas RawRefinement PathLemmas
  ProcessLemmas OptionLemmas AbstractRouter RouterSimulation PacketLemmas RouterProperties.

(** * What a packet on its way meets *)

(** The current hop of a packet, counted from the start of the path. *)
Definition position (D : Decoded.t) : nat := Z.to_nat (MetaHdr.CurrHF (Base.PathMeta (Decoded.base D))).

Section travel.
Context (aes_Encrypt : bytes → bytes → bytes).
Context (netip_ParseAddr : gostring → outcome IP.t) (netip_String : IP.t → gostring).
Context (NewPacket : bytes → L4.LayerType → list Layer) (intn : Z → Z).

(** [travelled macs D0 D]: a packet that set out with the path [D0] has been sent
    on by the routers, one per AS, and arrives somewhere with the path [D]. *)
Inductive travelled (macs : nat → bytes → bytes) (D0 : Decoded.t) : Decoded.t → Prop :=
| travelled_start : travelled macs D0 D0
| travelled_hop now IsUp p D p' res D' :
    travelled macs D0 D → ready p D → (ingressID p = 0 ↔ position D = 0%nat) →
    Processor.process aes_Encrypt (macs (position D)) netip_ParseAddr netip_String NewPacket intn now IsUp p =
      (p', Continue res) →
    EgressID res ≠ 0 → repr (path p') D' → travelled macs D0 D'.

End travel.

(** The MAC checks that the router of an AS makes: of the current hop field, and
    when the path changes the segment inside the AS, of the next one. *)
Record accepted (mac : bytes → bytes) (external : bool) (D : Decoded.t) : Prop := {
  ac_hop : ∃ info hop peer, cur_info D = Some info ∧ cur_hop D = Some hop ∧
    peer_of (Base.PathMeta (Decoded.base D)) info = Ok peer ∧
    authentic mac (at_ingress external peer info hop) hop ∧
    (Base.IsXover (Decoded.base D) && negb peer = true →
      ∃ D2 info2 hop2, Decoded.IncPath D = (D2, Ok tt) ∧
        cur_info D2 = Some info2 ∧ cur_hop D2 = Some hop2 ∧ authentic mac info2 hop2)
}.

(** * Segments *)

(** A segment of a path: the hop fields in the order of travel, and the info field
    that each of them was created with. *)
Record pseg := mkSeg {
  ps_cons : bool;
  ps_peer : bool;
  ps_hops : list HopField.t;
  ps_infos : nat → InfoField.t
}.

(** The hop fields at a peering link: the last one of the first segment and the
    first one of the second. *)
Definition is_peer (k : nat) (s : pseg) (j : nat) : bool :=
  ps_peer s && (if (k =? 0)%nat then (S j =? length (ps_hops s))%nat else (j =? 0)%nat).

(** The info field that a packet carries to hop [j] of a segment. *)
Definition carried (s : pseg) (j : nat) : InfoField.t := if ps_cons s then ps_infos s j else ps_infos s (pred j).

Section path.
(** The segments, and the MAC function of the AS of each hop. *)
Context (segs : list pseg) (macs : nat → bytes → bytes).

Definition offset (k : nat) : nat := sum_list_with (λ s, length (ps_hops s)) (take k segs).
Definition all_hops : list HopField.t := mjoin (ps_hops <$> segs).
Definition seg_len (i : nat) : Z := match segs !! i with Some s => len (ps_hops s) | None => 0 end.

(** The path as it leaves the host. *)
Definition first_path : Decoded.t :=
  Decoded.mk (Base.mk (MetaHdr.mk 0 0 (seg_len 0) (seg_len 1) (seg_len 2)) (len segs) (len all_hops))
    ((λ s, ps_infos s 0%nat) <$> segs) all_hops.

(** Every AS created its hop field with the SegID that the hops before it, in
    construction direction, chain to; at a peering link with the SegID of the hop
    after it. *)
Record seg_authorised (k : nat) (s : pseg) : Prop := {
  sa_mac j hop : ps_hops s !! j = Some hop → authentic (macs (offset k + j)) (ps_infos s j) hop;
  sa_wf j : InfoField.wf (ps_infos s j);
  sa_dir j : InfoField.ConsDir (ps_infos s j) = ps_cons s ∧ InfoField.Peer (ps_infos s j) = ps_peer s;
  sa_chain j hop hop' : ps_hops s !! j = Some hop → ps_hops s !! S j = Some hop' →
    if ps_cons s
    then ps_infos s (S j) = if is_peer k s j then ps_infos s j else chained (ps_infos s j) hop
    else ps_infos s j = if is_peer k s (S j) then ps_infos s (S j) else chained (ps_infos s (S j)) hop'
}.

(** All the ASes authorised the path.  A path over a peering link has two segments;
    a change of segment inside an AS is between two hop fields of that AS. *)
Record authorised_path : Prop := {
  ap_macs g b : 16 ≤ len (macs g b);
  ap_segs k s : segs !! k = Some s → seg_authorised k s;
  ap_hops k s : segs !! k = Some s → (1 ≤ length (ps_hops s))%nat ∧ (ps_peer s = false → 2 ≤ length (ps_hops s))%nat;
  ap_peers k s : segs !! k = Some s → ps_peer s = true → length segs = 2%nat ∧ Forall (λ s, ps_peer s = true) segs;
  ap_xover k s : segs !! k = Some s → is_Some (segs !! S k) → ps_peer s = false →
    macs (offset (S k)) = macs (offset k + pred (length (ps_hops s)))%nat
}.

(** ** Positions on the path *)

Record at_hop (k j : nat) (info : InfoField.t) (D : Decoded.t) : Prop := {
  ah_wf : Decoded.wf D;
  ah_lens : ∀ i, (i < 3)%nat → MetaHdr.SegLen (Base.PathMeta (Decoded.base D)) (Z.of_nat i) = seg_len i;
  ah_hops : Decoded.HopFields D = all_hops;
  ah_count : length (Decoded.InfoFields D) = length segs;
  ah_hf : MetaHdr.CurrHF (Base.PathMeta (Decoded.base D)) = Z.of_nat (offset k + j);
  ah_inf : MetaHdr.CurrINF (Base.PathMeta (Decoded.base D)) = Z.of_nat k;
  ah_info : Decoded.InfoFields D !! k = Some info;
  ah_later k' s : segs !! k' = Some s → (k < k')%nat → Decoded.InfoFields D !! k' = Some (ps_infos s 0%nat)
}.

Lemma offset_S k s : segs !! k = Some s → offset (S k) = (offset k + length (ps_hops s))%nat.
Proof. intros H. unfold offset. rewrite (take_S_r _ _ _ H), sum_list_with_app. cbn. lia. Qed.

Lemma length_join_hops (l : list pseg) : length (mjoin (ps_hops <$> l)) = sum_list_with (λ s, length (ps_hops s)) l.
Proof. induction l as [|x l IH]; [done|]. cbn. rewrite length_app. f_equal. exact IH. Qed.

Lemma offset_end : offset (length segs) = length all_hops.
Proof.
  unfold offset, all_hops. by rewrite take_ge, length_join_hops.
Qed.

Lemma lookup_all_hops k s j :
  segs !! k = Some s → (j < length (ps_hops s))%nat → all_hops !! (offset k + j)%nat = ps_hops s !! j.
Proof.
  intros Hk Hj. unfold all_hops, offset.
  assert (mjoin (ps_hops <$> segs) =
    mjoin (ps_hops <$> take k segs) ++ ps_hops s ++ mjoin (ps_hops <$> drop (S k) segs)) as ->.
  { rewrite <- (take_drop_middle _ _ _ Hk) at 1. by rewrite fmap_app, fmap_cons, join_app. }
  rewrite lookup_app_r by (rewrite length_join_hops; lia). rewrite length_join_hops.
  replace (_ + j - _)%nat with j by lia. by rewrite lookup_app_l.
Qed.

Lemma offset_le k s : segs !! k = Some s → (offset k + length (ps_hops s) ≤ length all_hops)%nat.
Proof.
  intros H. rewrite <- (offset_S _ _ H), <- offset_end. unfold offset.
  rewrite <- (take_drop (S k) (take (length segs) segs)), sum_list_with_app, take_take.
  apply lookup_lt_Some in H. rewrite Nat.min_l by lia. lia.
Qed.

Section at_hop.
Context (k j : nat) (info : InfoField.t) (D : Decoded.t).
Hypothesis Hat : at_hop k j info D.
Let b := Decoded.base D.

Lemma ah_base : Base.wf b.
Proof using Hat. apply Decoded.wf_base, (ah_wf _ _ _ _ Hat). Qed.
Lemma ah_NumHops : Base.NumHops b = len all_hops.
Proof using Hat. unfold b. rewrite <- (Decoded.wf_NumHops _ (ah_wf _ _ _ _ Hat)). by rewrite (ah_hops _ _ _ _ Hat). Qed.
Lemma ah_segs : (length segs ≤ 3)%nat.
Proof using Hat.
  rewrite <- (ah_count _ _ _ _ Hat). pose proof (Decoded.wf_NumINF _ (ah_wf _ _ _ _ Hat)).
  pose proof (Base.NumINF_range _ ah_base). unfold len, MaxINFs, b in *. lia.
Qed.

(** The segment of a hop from the lengths in the meta header. *)
Lemma infIndexForHF_offset k' s' j' :
  segs !! k' = Some s' → (j' < length (ps_hops s'))%nat → Base.infIndexForHF b (Z.of_nat (offset k' + j')) = Z.of_nat k'.
Proof using Hat.
  intros Hs' Hj'. rewrite (Base.infIndexForHF_eq _ _ ah_base). pose proof (lookup_lt_Some _ _ _ Hs'). pose proof ah_segs.
  pose proof (ah_lens _ _ _ _ Hat 0 ltac:(lia)) as L0. pose proof (ah_lens _ _ _ _ Hat 1 ltac:(lia)) as L1.
  change (MetaHdr.SegLen (Base.PathMeta (Decoded.base D)) (Z.of_nat 0)) with (MetaHdr.SegLen0 (Base.PathMeta b)) in L0.
  change (MetaHdr.SegLen (Base.PathMeta (Decoded.base D)) (Z.of_nat 1)) with (MetaHdr.SegLen1 (Base.PathMeta b)) in L1.
  rewrite L0, L1. unfold seg_len. destruct k' as [|[|[|k']]]; [| | |lia].
  - rewrite Hs'. change (offset 0) with 0%nat. unfold len. repeat case_match; lia.
  - destruct (segs !! 0%nat) as [s0|] eqn:E0; [|apply lookup_ge_None in E0; lia].
    rewrite (offset_S 0 s0) by done. rewrite Hs'. change (offset 0) with 0%nat. unfold len.
    repeat case_match; lia.
  - destruct (segs !! 0%nat) as [s0|] eqn:E0; [|apply lookup_ge_None in E0; lia].
    destruct (segs !! 1%nat) as [s1|] eqn:E1; [|apply lookup_ge_None in E1; lia].
    rewrite (offset_S 1 s1), (offset_S 0 s0) by done. change (offset 0) with 0%nat. unfold len.
    repeat case_match; lia.
Qed.

Lemma at_hop_store info' : InfoField.wf info' → at_hop k j info' (store_cur_info info' D).
Proof using Hat.
  intros Hw. destruct Hat as [[? ? ? ? ?] HL HH HC Hhf Hinf Hi Hla]. unfold store_cur_info, with_InfoField. rewrite Hinf, Nat2Z.id.
  split; cbn; [|done|done|by rewrite length_insert|done|done| |].
  - split; cbn; [done|unfold len; by rewrite length_insert|done| |done]. by apply Forall_insert.
  - rewrite list_lookup_insert_eq; [done|]. by eapply lookup_lt_Some.
  - intros k2 s2 Hk2 Hlt. rewrite list_lookup_insert_ne by lia. by apply Hla.
Qed.

Context (s : pseg).
Hypothesis Hs : segs !! k = Some s.
Hypothesis Hj : (j < length (ps_hops s))%nat.

Lemma at_hop_cur : cur_hop D = ps_hops s !! j ∧ cur_info D = Some info.
Proof using Hat Hs Hj.
  unfold cur_hop, cur_info. rewrite (ah_hf _ _ _ _ Hat), (ah_inf _ _ _ _ Hat), !Nat2Z.id, (ah_hops _ _ _ _ Hat).
  split; [by apply lookup_all_hops|apply Hat].
Qed.

(** The hop after it is in the same segment, or the first one of the next. *)
Definition next_hop (k' j' : nat) (s' : pseg) : Prop :=
  ((S j < length (ps_hops s))%nat ∧ k' = k ∧ j' = S j ∧ s' = s) ∨
  (S j = length (ps_hops s) ∧ k' = S k ∧ j' = 0%nat ∧ segs !! S k = Some s').

Lemma next_hop_lookup k' j' s' : next_hop k' j' s' → segs !! k' = Some s' ∧ (offset k' + j' = offset k + S j)%nat.
Proof using Hs Hj.
  intros [(H & -> & -> & ->)|(H & -> & -> & H')]; [done|]. split; [done|]. rewrite (offset_S _ _ Hs). lia.
Qed.

(** Some hop comes after it unless it is the last one of the last segment. *)
Lemma hop_after :
  (∀ s', segs !! S k = Some s' → 0 < length (ps_hops s'))%nat →
  (S (offset k + j) < length all_hops)%nat → ∃ k' j' s', next_hop k' j' s' ∧ (j' < length (ps_hops s'))%nat.
Proof using Hs Hj.
  intros Hne Hlt. destruct (decide (S j < length (ps_hops s))%nat) as [Hl|Hl].
  { exists k, (S j), s. split; [by left|done]. }
  destruct (segs !! S k) as [s'|] eqn:Es.
  - exists (S k), 0%nat, s'. split; [|by apply Hne]. right. split_and!; [lia|done..].
  - exfalso. rewrite <- offset_end in Hlt. apply lookup_ge_None in Es. pose proof (lookup_lt_Some _ _ _ Hs).
    replace (length segs) with (S k) in Hlt by lia. rewrite (offset_S _ _ Hs) in Hlt. lia.
Qed.

Lemma next_hop_lt k' j' s' :
  next_hop k' j' s' → (j' < length (ps_hops s'))%nat → (S (offset k + j) < length all_hops)%nat.
Proof using Hs Hj.
  intros Hn Hj'. destruct (next_hop_lookup _ _ _ Hn) as [Hs' E]. pose proof (offset_le _ _ Hs'). lia.
Qed.

Lemma at_hop_IsXover :
  (∀ s', segs !! S k = Some s' → 0 < length (ps_hops s'))%nat →
  Base.IsXover b = true ↔ S j = length (ps_hops s) ∧ is_Some (segs !! S k).
Proof using Hat Hs Hj.
  intros Hne. unfold Base.IsXover. rewrite ah_NumHops. unfold b. rewrite (ah_hf _ _ _ _ Hat), (ah_inf _ _ _ _ Hat). fold b.
  pose proof (Base.NumHops_range _ ah_base) as Hr. rewrite ah_NumHops in Hr. unfold MaxHops in Hr.
  pose proof (offset_le _ _ Hs). rewrite !uint_of_small by (unfold is_uint, len in *; lia).
  rewrite andb_true_iff, negb_true_iff, Z.ltb_lt, Z.eqb_neq. unfold len. split.
  - intros [Hlt Hk]. destruct (hop_after Hne) as (k' & j' & s' & Hn & Hj'); [lia|].
    destruct Hn as [(? & -> & -> & ->)|(? & -> & -> & ->)]; [|eauto].
    exfalso. apply Hk. replace (Z.of_nat (offset k + j) + 1) with (Z.of_nat (offset k + S j)) by lia.
    by rewrite (infIndexForHF_offset k s (S j)).
  - intros [E [s' Es]]. assert (next_hop (S k) 0 s') as Hn by (by right).
    specialize (Hne _ Es). pose proof (next_hop_lt _ _ _ Hn Hne). split; [lia|].
    replace (Z.of_nat (offset k + j) + 1) with (Z.of_nat (offset (S k) + 0)) by (rewrite (offset_S _ _ Hs); lia).
    rewrite (infIndexForHF_offset (S k) s' 0) by done. lia.
Qed.

Lemma at_hop_IncPath D' :
  (∀ s', segs !! S k = Some s' → 0 < length (ps_hops s'))%nat →
  Decoded.IncPath D = (D', Ok tt) →
  ∃ k' j' s', next_hop k' j' s' ∧ (j' < length (ps_hops s'))%nat ∧
    at_hop k' j' (if (k' =? k)%nat then info else ps_infos s' 0%nat) D'.
Proof using Hat Hs Hj.
  intros Hne. unfold Decoded.IncPath, zoom. fold b.
  pose proof (Base.NumHops_range _ ah_base) as Hr. rewrite ah_NumHops in Hr. unfold MaxHops in Hr.
  pose proof (offset_le _ _ Hs). pose proof (ah_hf _ _ _ _ Hat) as Ehf. fold b in Ehf.
  destruct (decide (S (offset k + j) < length all_hops)%nat) as [Hl|Hl].
  2:{ destruct (Base.IncPath_at_end b ah_base) as (b' & -> & _); [| |done].
      - pose proof (Base.NumINF_zero _ ah_base). pose proof (Base.NumINF_range _ ah_base).
        rewrite ah_NumHops in *. unfold len in *. lia.
      - rewrite ah_NumHops, Ehf. unfold len. lia. }
  rewrite (Base.IncPath_Ok b ah_base) by (rewrite ah_NumHops, Ehf; unfold len; lia). intros [= <-].
  destruct (hop_after Hne Hl) as (k' & j' & s' & Hn & Hj'). exists k', j', s'. split_and!; [done..|].
  destruct (next_hop_lookup _ _ _ Hn) as [Hs' Ho].
  rewrite Ehf. replace (Z.of_nat (offset k + j) + 1) with (Z.of_nat (offset k' + j')) by lia.
  rewrite (infIndexForHF_offset k' s' j') by done.
  pose proof (lookup_lt_Some _ _ _ Hs'). pose proof ah_segs. pose proof (offset_le _ _ Hs').
  destruct Hat as [Hw HL HH HC _ _ Hi Hla]. destruct Hw as [? ? ? ? ?]. fold b in HL. split; cbn; [|done|done|done|done|done| |].
  - split; cbn; [apply Base.wf_set_PathMeta; [done|unfold len in *; lia|lia]|done..].
  - destruct Hn as [(? & -> & -> & ->)|(? & -> & -> & Hn)]; [by rewrite Nat.eqb_refl|].
    replace (S k =? k)%nat with false by lia. apply Hla; [done|lia].
  - intros k2 s2 Hk2 Hlt. apply Hla; [done|]. destruct Hn as [(? & -> & ?)|(? & -> & ?)]; lia.
Qed.
End at_hop.

(** ** What the routers do *)

Hypothesis Hau : authorised_path.

Lemma hops_nonempty k s : segs !! k = Some s → (0 < length (ps_hops s))%nat.
Proof using Hau. intros H. apply (ap_hops Hau) in H as [H _]. lia. Qed.

(** A packet arrives at the first hop of a segment only when it sets out, or over
    a peering link. *)
Record arrives_at (k j : nat) (s : pseg) (D : Decoded.t) : Prop := {
  aa_seg : segs !! k = Some s;
  aa_hop : (j < length (ps_hops s))%nat;
  aa_first : j = 0%nat → k = 0%nat ∨ ps_peer s = true;
  aa_at : at_hop k j (carried s j) D
}.

Lemma carried_fields s j k :
  segs !! k = Some s → InfoField.ConsDir (carried s j) = ps_cons s ∧ InfoField.Peer (carried s j) = ps_peer s.
Proof using Hau.
  intros H. pose proof (sa_dir _ _ (ap_segs Hau _ _ H)) as Hd. destruct (Hd j), (Hd (pred j)). unfold carried.
  split; destruct (ps_cons s) eqn:E; congruence.
Qed.

Lemma offset_zero k j s : segs !! k = Some s → (offset k + j = 0)%nat → k = 0%nat ∧ j = 0%nat.
Proof using Hau.
  intros Hs H. split; [|lia]. destruct k as [|k]; [done|].
  assert (is_Some (segs !! k)) as [s' Hs'] by (apply lookup_lt_is_Some; apply lookup_lt_Some in Hs; lia).
  rewrite (offset_S _ _ Hs') in H. pose proof (hops_nonempty _ _ Hs'). lia.
Qed.

(** At the peering link the SegID is left alone; elsewhere the hop field is
    verified with the SegID it was created with. *)
Lemma arrives_ingress k j s D hop :
  arrives_at k j s D → ps_hops s !! j = Some hop →
  at_ingress (negb (offset k + j =? 0)%nat) (is_peer k s j) (carried s j) hop = ps_infos s j.
Proof using Hau.
  intros [Hs Hj Hf _] Hh. pose proof (ap_segs Hau _ _ Hs) as [_ _ Hd Hc]. unfold at_ingress.
  destruct (carried_fields s j k Hs) as [-> _]. unfold carried.
  destruct (ps_cons s) eqn:Ec; [done|]. cbn [negb andb].
  destruct j as [|j].
  - destruct (Hf eq_refl) as [->|Hp]; [done|]. destruct (ap_peers Hau _ _ Hs Hp) as [Hl _].
    pose proof (lookup_lt_Some _ _ _ Hs). unfold is_peer. rewrite Hp. destruct k as [|[|k]]; [done|by rewrite andb_false_r|lia].
  - replace (offset k + S j =? 0)%nat with false by lia. cbn [negb andb].
    destruct (lookup_lt_is_Some_2 (ps_hops s) j ltac:(lia)) as [h Hh']. specialize (Hc j h hop Hh' Hh). cbn in Hc. cbn [pred].
    destruct (is_peer k s (S j)); cbn [negb]; [done|]. rewrite Hc. apply chained_twice.
Qed.

Lemma arrives_peer k j s D :
  arrives_at k j s D → peer_of (Base.PathMeta (Decoded.base D)) (carried s j) = Ok (is_peer k s j).
Proof using Hau.
  intros [Hs Hj _ Hat]. unfold peer_of, is_peer. destruct (carried_fields s j k Hs) as [_ ->].
  destruct (ps_peer s) eqn:Hp; [|done]. destruct (ap_peers Hau _ _ Hs Hp) as [Hl _]. cbn [negb].
  set (m := Base.PathMeta (Decoded.base D)).
  assert (MetaHdr.SegLen m 0 = seg_len 0 ∧ MetaHdr.SegLen m 1 = seg_len 1 ∧ MetaHdr.SegLen m 2 = seg_len 2) as (-> & -> & ->).
  { split_and!; [apply (ah_lens _ _ _ _ Hat 0)|apply (ah_lens _ _ _ _ Hat 1)|apply (ah_lens _ _ _ _ Hat 2)]; lia. }
  unfold seg_len, m.
  destruct (lookup_lt_is_Some_2 segs 0%nat ltac:(lia)) as [s0 H0], (lookup_lt_is_Some_2 segs 1%nat ltac:(lia)) as [s1 H1].
  rewrite H0, H1, (lookup_ge_None_2 segs 2) by lia.
  pose proof (hops_nonempty _ _ H0). pose proof (hops_nonempty _ _ H1).
  replace (len (ps_hops s0) =? 0) with false by (unfold len; lia).
  replace (len (ps_hops s1) =? 0) with false by (unfold len; lia).
  rewrite Z.eqb_refl. cbn [negb]. go_cbn. f_equal.
  rewrite (ah_hf _ _ _ _ Hat). pose proof (ah_base _ _ _ _ Hat) as Hb. pose proof (Base.NumHops_range _ Hb) as Hr.
  rewrite (ah_NumHops _ _ _ _ Hat) in Hr. unfold MaxHops in Hr. pose proof (offset_le _ _ H0).
  rewrite uint_of_small by (unfold is_uint, len in *; lia). unfold len.
  pose proof (lookup_lt_Some _ _ _ Hs). destruct k as [|[|k]]; [| |lia].
  - rewrite Hs in H0. injection H0 as <-. change (offset 0) with 0%nat. rewrite Nat.eqb_refl. cbn [andb].
    destruct (Nat.eqb_spec (S j) (length (ps_hops s))); lia.
  - rewrite (offset_S 0 s0) by done. change (offset 0) with 0%nat. change (1 =? 0)%nat with false. cbn [andb].
    destruct (Nat.eqb_spec j 0); lia.
Qed.

Lemma at_hop_same k j info info' D : at_hop k j info D → info = info' → at_hop k j info' D.
Proof. by intros ? <-. Qed.

Lemma at_hop_store_if (c : bool) k j info info' D :
  InfoField.wf info' → at_hop k j info D →
  at_hop k j (if c then info' else info) (if c then store_cur_info info' D else D).
Proof. intros Hw Hat. destruct c; [by apply (at_hop_store _ _ _ _ Hat)|done]. Qed.

(** The SegID update on the way out. *)
Lemma at_hop_leaving k j s D hop :
  segs !! k = Some s → at_hop k j (ps_infos s j) D → ps_hops s !! j = Some hop →
  at_hop k j (if ps_cons s && negb (is_peer k s j) then chained (ps_infos s j) hop else ps_infos s j)
    (if InfoField.ConsDir (ps_infos s j) && negb (is_peer k s j) then store_cur_info (chained (ps_infos s j) hop) D else D).
Proof using Hau.
  intros Hs Hat Hh. pose proof (lookup_lt_Some _ _ _ Hh) as Hj. pose proof (ap_segs Hau _ _ Hs) as [_ Hw Hd _].
  destruct (Hd j) as [-> _]. apply at_hop_store_if; [|done]. apply chained_wf; [done|].
  eapply cur_hop_wf; [apply (ah_wf _ _ _ _ Hat)|]. by destruct (at_hop_cur _ _ _ _ Hat s Hs Hj) as [-> _].
Qed.

(** The path after the ingress update has the info field of the hop. *)
Lemma arrives_arrived k j s D p hop :
  arrives_at k j s D → ps_hops s !! j = Some hop → (ingressID p = 0 ↔ (offset k + j = 0)%nat) →
  at_hop k j (ps_infos s j) (arrived p D (carried s j) hop (is_peer k s j)).
Proof using Hau.
  intros Ha Hh Hin. pose proof (arrives_ingress _ _ _ _ _ Ha Hh) as E. destruct Ha as [Hs Hj _ Hat].
  unfold arrived. unfold at_ingress in E.
  replace (negb (ingressID p =? 0)) with (negb (offset k + j =? 0)%nat) by (destruct (Nat.eqb_spec (offset k + j) 0); lia).
  destruct (_ && _).
  - rewrite E. apply (at_hop_store _ _ _ _ Hat). apply (sa_wf _ _ (ap_segs Hau _ _ Hs)).
  - by eapply at_hop_same.
Qed.

Lemma no_peer_after k s s' :
  segs !! k = Some s → segs !! S k = Some s' → ∀ j, S j = length (ps_hops s) → is_peer k s j = false → ps_peer s' = false.
Proof using Hau.
  intros Hs Hs' j Hj Hp. destruct (ps_peer s') eqn:Ep; [|done].
  destruct (ap_peers Hau _ _ Hs' Ep) as [Hl Hf]. pose proof (lookup_lt_Some _ _ _ Hs').
  rewrite Forall_forall in Hf. assert (ps_peer s = true) as Eps by (by apply Hf, (list_elem_of_lookup_2 _ k)).
  assert (k = 0%nat) as -> by lia. unfold is_peer in Hp. rewrite Eps, Nat.eqb_refl in Hp. cbn [andb] in Hp.
  by apply Nat.eqb_neq in Hp.
Qed.

(** A packet that leaves hop [j] of a segment with its info field arrives at the
    next hop. *)
Lemma leaves_within k j s D hop peer D' :
  segs !! k = Some s → at_hop k j (ps_infos s j) D → ps_hops s !! j = Some hop → peer = is_peer k s j →
  leaves D (ps_infos s j) hop peer D' → (S j < length (ps_hops s))%nat ∨ peer = true →
  ∃ k' j' s', arrives_at k' j' s' D'.
Proof using Hau.
  intros Hs Hat Hh -> Hl Hcase. pose proof (lookup_lt_Some _ _ _ Hh) as Hj.
  pose proof (ap_segs Hau _ _ Hs) as [_ _ _ Hc]. unfold leaves in Hl.
  pose proof (at_hop_leaving _ _ _ _ _ Hs Hat Hh) as Hat'.
  destruct (at_hop_IncPath _ _ _ _ Hat' s Hs Hj D') as (k' & j' & s' & Hn & Hj' & Ha); [by intros; eapply hops_nonempty|done|].
  destruct (next_hop_lookup _ _ s Hs Hj _ _ _ Hn) as [Hs' _]. exists k', j', s'.
  destruct Hn as [(Hlt & -> & -> & ->)|(He & -> & -> & _)].
  - rewrite Nat.eqb_refl in Ha. split; [done|done|done|]. eapply at_hop_same; [exact Ha|].
    destruct (lookup_lt_is_Some_2 _ _ Hlt) as [h' Hh']. specialize (Hc _ _ _ Hh Hh'). unfold carried.
    destruct (ps_cons s); [|done]. rewrite Hc. by destruct (is_peer k s j).
  - destruct Hcase as [?|Hp]; [lia|]. replace (S k =? k)%nat with false in Ha by lia.
    assert (ps_peer s = true) as Eps by (unfold is_peer in Hp; by destruct (ps_peer s)).
    destruct (ap_peers Hau _ _ Hs Eps) as [_ Hf]. rewrite Forall_forall in Hf.
    split; [done|done| |].
    + intros _. right. by apply Hf, (list_elem_of_lookup_2 _ (S k)).
    + eapply at_hop_same; [exact Ha|]. unfold carried. by destruct (ps_cons s').
Qed.

Section travel.
Context (aes_Encrypt : bytes → bytes → bytes).
Context (netip_ParseAddr : gostring → outcome IP.t) (netip_String : IP.t → gostring).
Context (NewPacket : bytes → L4.LayerType → list Layer) (intn : Z → Z).

Lemma position_at k j info D : at_hop k j info D → position D = (offset k + j)%nat.
Proof. intros H. unfold position. by rewrite (ah_hf _ _ _ _ H), Nat2Z.id. Qed.

Lemma arrives_start s : segs !! 0%nat = Some s → Decoded.wf first_path → arrives_at 0 0 s first_path.
Proof using Hau.
  intros Hs Hw. split; [done|by eapply hops_nonempty|by left|]. split; [done| |done|cbn; apply length_fmap|done|done| |].
  - intros [|[|[|i]]] Hi; [done..|lia].
  - cbn. rewrite list_lookup_fmap, Hs. cbn. unfold carried. by destruct (ps_cons s).
  - intros k s' Hs' _. cbn. by rewrite list_lookup_fmap, Hs'.
Qed.

(** One router, from arrival to arrival. *)
Lemma arrives_step now IsUp k j s p D p' res D' :
  arrives_at k j s D → ready p D → (ingressID p = 0 ↔ position D = 0%nat) →
  Processor.process aes_Encrypt (macs (position D)) netip_ParseAddr netip_String NewPacket intn now IsUp p =
    (p', Continue res) →
  EgressID res ≠ 0 → repr (path p') D' → ∃ k' j' s', arrives_at k' j' s' D'.
Proof using Hau.
  intros Ha Hrd Hin Hp He Hr. pose proof (aa_at _ _ _ _ Ha) as Hat. rewrite (position_at _ _ _ _ Hat) in *.
  destruct (process_sim _ _ _ _ _ _ _ _ (ap_macs Hau _) _ _ _ _ Hrd Hp) as (a & D2 & Hroute & -> & Hem).
  rewrite (repr_inj _ _ _ Hr (holds_repr _ _ (em_holds _ _ _ _ Hem))). clear D' Hr Hem.
  pose proof (aa_seg _ _ _ _ Ha) as Hs. pose proof (aa_hop _ _ _ _ Ha) as Hj.
  destruct (at_hop_cur _ _ _ _ Hat s Hs Hj) as [Eh Ei].
  destruct Hroute as [|info hop peer xover D1 info2 hop2 e D3 Had _ Hx Hi2 Ho2 _ _ Hl|]; [done| |done].
  destruct Had as [Hi Ho Hpeer _ _ _ _ _ _]. rewrite Ei in Hi. injection Hi as <-. rewrite Eh in Ho.
  rewrite (arrives_peer _ _ _ _ Ha) in Hpeer. injection Hpeer as <-.
  pose proof (arrives_arrived _ _ _ _ p hop Ha Ho Hin) as Hat1. set (D0 := arrived _ _ _ _ _) in *. clearbody D0.
  destruct (at_hop_cur _ _ _ _ Hat1 s Hs Hj) as [Eh1 Ei1].
  pose proof (at_hop_IsXover _ _ _ _ Hat1 s Hs Hj (λ s' H, hops_nonempty _ s' H)) as Hix.
  destruct Hx as [Hx|D1 info1 hop1 Hx Hinc _ _ _].
  - rewrite Ei1 in Hi2. injection Hi2 as <-. rewrite Eh1, Ho in Ho2. injection Ho2 as <-.
    eapply leaves_within; [exact Hs|exact Hat1|exact Ho|reflexivity|exact Hl|].
    apply andb_false_iff in Hx as [Hx|Hx%negb_false_iff]; [|by right]. left.
    destruct (decide (S j < length (ps_hops s))%nat) as [|Hge]; [done|]. exfalso.
    unfold leaves in Hl. pose proof (at_hop_leaving _ _ _ _ _ Hs Hat1 Ho) as Hat2.
    destruct (at_hop_IncPath _ _ _ _ Hat2 s Hs Hj D3) as (k' & j' & s' & Hn & _ & _); [by intros; eapply hops_nonempty|done|].
    destruct Hn as [(? & _)|(E & _ & _ & Hs')]; [lia|]. rewrite (proj2 Hix) in Hx; [done|]. by split; [|eexists].
  - apply andb_true_iff in Hx as [Hx Hnp]. apply negb_true_iff in Hnp. apply Hix in Hx as [E [s' Hs']].
    destruct (at_hop_IncPath _ _ _ _ Hat1 s Hs Hj D1) as (k' & j' & s'' & Hn & _ & Hat2); [by intros; eapply hops_nonempty|done|].
    destruct Hn as [(? & _)|(_ & -> & -> & Hs'')]; [lia|]. rewrite Hs' in Hs''. injection Hs'' as <-.
    replace (S k =? k)%nat with false in Hat2 by lia.
    pose proof (no_peer_after _ _ _ Hs Hs' _ E Hnp) as Hnp'. destruct (ap_hops Hau _ _ Hs') as [_ H2]. specialize (H2 Hnp').
    destruct (at_hop_cur _ _ _ _ Hat2 s' Hs' ltac:(lia)) as [Eh2 Ei2]. rewrite Ei2 in Hi2. injection Hi2 as <-.
    rewrite Eh2 in Ho2. rewrite Hnp in Hl.
    apply (leaves_within _ _ _ _ _ false _ Hs' Hat2 Ho2); [by unfold is_peer; rewrite Hnp'|exact Hl|left; lia].
Qed.

Lemma arrives_accepted k j s D :
  arrives_at k j s D → accepted (macs (position D)) (negb (position D =? 0)%nat) D.
Proof using Hau.
  intros Ha. pose proof (aa_at _ _ _ _ Ha) as Hat. rewrite (position_at _ _ _ _ Hat).
  pose proof (aa_seg _ _ _ _ Ha) as Hs. pose proof (aa_hop _ _ _ _ Ha) as Hj.
  destruct (at_hop_cur _ _ _ _ Hat s Hs Hj) as [Eh Ei]. destruct (lookup_lt_is_Some_2 _ _ Hj) as [hop Hh]. rewrite Hh in Eh.
  split. exists (carried s j), hop, (is_peer k s j). split_and!; [done|done|by apply arrives_peer| |].
  - rewrite (arrives_ingress _ _ _ _ _ Ha Hh). by apply (sa_mac _ _ (ap_segs Hau _ _ Hs)).
  - intros [Hx Hnp%negb_true_iff]%andb_true_iff. apply (at_hop_IsXover _ _ _ _ Hat s Hs Hj) in Hx as [E [s' Hs']];
      [|by intros; eapply hops_nonempty].
    pose proof (no_peer_after _ _ _ Hs Hs' _ E Hnp) as Hnp'.
    assert (ps_peer s = false) as Eps.
    { destruct (ps_peer s) eqn:Ep; [|done]. destruct (ap_peers Hau _ _ Hs Ep) as [_ Hf]. rewrite Forall_forall in Hf.
      rewrite (Hf s') in Hnp'; [done|]. by apply (list_elem_of_lookup_2 _ (S k)). }
    destruct (Decoded.IncPath D) as [D2 r] eqn:Einc.
    assert (r = Ok tt) as ->.
    { unfold Decoded.IncPath, zoom in Einc. rewrite (Base.IncPath_Ok _ (ah_base _ _ _ _ Hat)) in Einc; [by injection Einc|].
      rewrite (ah_NumHops _ _ _ _ Hat), (ah_hf _ _ _ _ Hat). pose proof (offset_le _ _ Hs'). pose proof (hops_nonempty _ _ Hs').
      rewrite (offset_S _ _ Hs) in *. unfold len. lia. }
    destruct (at_hop_IncPath _ _ _ _ Hat s Hs Hj D2) as (k' & j' & s'' & Hn & _ & Hat2); [by intros; eapply hops_nonempty|done|].
    destruct Hn as [(? & _)|(_ & -> & -> & Hs'')]; [lia|]. rewrite Hs' in Hs''. injection Hs'' as <-.
    replace (S k =? k)%nat with false in Hat2 by lia. pose proof (hops_nonempty _ _ Hs') as Hl'.
    destruct (at_hop_cur _ _ _ _ Hat2 s' Hs' Hl') as [Eh2 Ei2].
    destruct (lookup_lt_is_Some_2 _ _ Hl') as [hop2 Hh2]. rewrite Hh2 in Eh2.
    exists D2, (ps_infos s' 0%nat), hop2. split_and!; [done..|].
    replace (offset k + j)%nat with (offset k + pred (length (ps_hops s)))%nat by lia.
    rewrite <- (ap_xover Hau _ _ Hs ltac:(by eexists) Eps). rewrite <- (Nat.add_0_r (offset (S k))).
    by apply (sa_mac _ _ (ap_segs Hau _ _ Hs')).
Qed.

Lemma travelled_accepted D :
  segs ≠ [] → Decoded.wf first_path →
  travelled aes_Encrypt netip_ParseAddr netip_String NewPacket intn macs first_path D → accepted (macs (position D)) (negb (position D =? 0)%nat) D.
Proof using Hau.
  intros Hne Hw Ht. assert (∃ k j s, arrives_at k j s D) as (k & j & s & Ha); [|by eapply arrives_accepted].
  induction Ht as [|now IsUp p D p' res D' _ (k & j & s & Ha) Hrd Hin Hp He Hr].
  - destruct segs as [|s l] eqn:E; [done|]. rewrite <- E in *. exists 0%nat, 0%nat, s. apply arrives_start; [by rewrite E|done].
  - by eapply arrives_step.
Qed.
End travel.
End path.

End Journey.
