(* ===== verification/Bfd.v ===== *)
(** The BFD sessions that watch the links of a router, [router/bfd]: the state
    machine ([fsm.go], Module [FSM]), the jitter of the send interval
    ([jitter.go]) and the session with the loop of [Run] ([session.go], Module
    [Session]), one function per branch of its [select].  Module
    [SessionProperties]: the loop does not panic; two sessions over a lossy
    network come up only after packets went both ways, and then keep each other
    up; and what a packet in state AdminDown does. *)
From S2P Require Export Prelude.

(** * fsm.go *)
Module FSM.

(** [layers.BFDState], the values of RFC 5880. *)
Definition BFDStateAdminDown : Z := 0.
Definition BFDStateDown : Z := 1.
Definition BFDStateInit : Z := 2.
Definition BFDStateUp : Z := 3.

Definition stateInit : Z := BFDStateInit.
Definition stateDown : Z := BFDStateDown.
Definition stateUp : Z := BFDStateUp.
Definition stateAdminDown : Z := BFDStateAdminDown.

(** A state that was received is an event. *)
Definition eventAdminDown : Z := BFDStateAdminDown.
Definition eventDown : Z := BFDStateDown.
Definition eventInit : Z := BFDStateInit.
Definition eventUp : Z := BFDStateUp.
Definition eventTimer : Z := 4.
Definition eventAdminUp : Z := 5.

Definition one_of (e : Z) (l : list Z) : bool := existsb (Z.eqb e) l.

Definition transition (currState e : Z) : outcome Z :=
  if currState =? stateAdminDown then
    if e =? eventAdminUp then Ok stateDown
    else if one_of e [eventInit; eventUp; eventDown; eventTimer; eventAdminDown] then Ok stateAdminDown
    else Panic
  else if currState =? stateDown then
    if e =? eventInit then Ok stateUp
    else if e =? eventDown then Ok stateInit
    else if one_of e [eventUp; eventTimer; eventAdminUp] then Ok stateDown
    else if e =? eventAdminDown then Ok stateAdminDown
    else Panic
  else if currState =? stateInit then
    if one_of e [eventInit; eventUp] then Ok stateUp
    else if e =? eventTimer then Ok stateDown
    else if one_of e [eventDown; eventAdminUp] then Ok stateInit
    else if e =? eventAdminDown then Ok stateAdminDown
    else Panic
  else if currState =? stateUp then
    if one_of e [eventInit; eventUp; eventAdminUp] then Ok stateUp
    else if one_of e [eventTimer; eventDown] then Ok stateDown
    else if e =? eventAdminDown then Ok stateAdminDown
    else Panic
  else Panic.

End FSM.

(** * session.go *)
Module Session.

Import FSM.

(** Durations and points in time are nanoseconds. *)
Definition Microsecond : Z := 1000.
Definition Second : Z := 1000000000.
Definition Minute : Z := 60 * Second.
Definition defaultTransmissionInterval : Z := Second.
Definition defaultDetectionTimeout : Z := Minute.
Definition MaxUint32 : Z := 2 ^ 32 - 1.
Definition AlreadyRunning : error := New "is running".

(** [layers.BFD], a decoded packet.  [AuthHeader] is the type of the
    authentication header, if there is one. *)
Record BFD := mkBFD {
  Version : Z;
  State : Z;
  Poll : bool;
  Final : bool;
  AuthPresent : bool;
  Demand : bool;
  Multipoint : bool;
  DetectMultiplier : Z;
  MyDiscriminator : Z;
  YourDiscriminator : Z;
  pDesiredMinTxInterval : Z;
  pRequiredMinRxInterval : Z;
  RequiredMinEchoRxInterval : Z;
  AuthHeader : option Z
}.
Definition BFDAuthTypeNone : Z := 0.

(** What is kept of a packet: [bfdMessage]. *)
Record bfdMessage := mkMessage {
  mState : Z;
  mDetectMultiplier : Z;
  mMyDiscriminator : Z;
  mYourDiscriminator : Z;
  mDesiredMinTxInterval : Z;
  mRequiredMinRxInterval : Z
}.

(** The exported fields of a [Session], which do not change. *)
Record Config := mkConfig {
  Sender : option (BFD → outcome unit);
  LocalDiscriminator : Z;
  RemoteDiscriminator : Z;
  DesiredMinTxInterval : Z;
  RequiredMinRxInterval : Z;
  DetectMult : Z
}.

(** The other fields; the channel [messages] is a queue.  The two timers of [Run]
    are the points in time at which they expire. *)
Record t := mk {
  config : Config;
  remoteDiscriminator : Z;
  messages : list bfdMessage;
  localState : Z;
  runMarker : bool;
  desiredMinTXInterval : Z;
  remoteState : Z;
  remoteMinRxInterval : Z;
  detectionTimer : Z;
  sendTimer : Z
}.

(** A session before it runs. *)
Definition new (c : Config) : t := mk c 0 [] 0 false 0 0 0 0 0.

Definition max (x y : Z) : Z := if y <? x then x else y.

Definition durationToBFDInterval (d : Z) : outcome Z :=
  _ ← fail_if (d <? 0) (New "duration cannot be negative");
  let i := Z.quot d Microsecond in
  _ ← fail_if (MaxUint32 <? i) (New "number of microseconds overflows uint32");
  Ok (u32 i).
Definition bfdIntervalToDuration (x : Z) : Z := x * Microsecond.

Definition validateParameters (c : Config) : outcome unit :=
  _ ← fail_if (DetectMult c =? 0) (New "detection multiplier must be > 0");
  desiredMinTxInterval ← wrap_err "bad desired minimum transmission interval"
                           (durationToBFDInterval (DesiredMinTxInterval c));
  _ ← fail_if (desiredMinTxInterval =? 0) (New "desired minimum transmission interval must be > 0");
  requiredMinRxInterval ← wrap_err "bad required minimum receive interval"
                            (durationToBFDInterval (RequiredMinRxInterval c));
  _ ← fail_if (requiredMinRxInterval =? 0) (New "required minimum receive interval must be > 0");
  _ ← fail_if (LocalDiscriminator c =? 0) (New "local discriminator must be > 0");
  match Sender c with None => Err (New "sender must not be nil") | Some _ => Ok tt end.

(** ** jitter.go *)

Definition minJitter : Z := 0.
Definition minJitterDetectMult1 : Z := 10.
Definition maxJitter : Z := 25.

Section jitter.
(** [rand.Intn]: a number below its argument. *)
Context (Intn : Z → Z).

Definition Generate (x y : Z) : outcome Z := if (x <? 0) || (y <=? x) then Panic else Ok (Intn (y - x) + x).
Definition computeInterval (transmitInterval detectMult : Z) : outcome Z :=
  if transmitInterval <=? 0 then Panic else
  if detectMult =? 0 then Panic else
  let jitter := if detectMult =? 1 then minJitterDetectMult1 else minJitter in
  jitterPercent ← Generate jitter maxJitter;
  Ok (Z.quot (int_of 64 (transmitInterval * (100 - jitterPercent))) 100).

Definition computeNextSendInterval (s : t) : outcome Z :=
  computeInterval (max (desiredMinTXInterval s) (remoteMinRxInterval s)) (DetectMult (config s)).
End jitter.

(** ** Receiving packets *)

Section length.
(** [layers.BFD.Length]: the length of a packet with its authentication header. *)
Context (Length : BFD → Z).

Definition shouldDiscard (pkt : BFD) : bool :=
  if negb (Version pkt =? 1) then true
  else if negb (AuthPresent pkt) && (Length pkt <? 24) then true
  else if AuthPresent pkt && (Length pkt <? 26) then true
  else if DetectMultiplier pkt =? 0 then true
  else if Multipoint pkt then true
  else if MyDiscriminator pkt =? 0 then true
  else if (YourDiscriminator pkt =? 0) &&
          negb ((State pkt =? BFDStateAdminDown) || (State pkt =? BFDStateDown)) then true
  else if negb (AuthPresent pkt) &&
          match AuthHeader pkt with Some ty => negb (ty =? BFDAuthTypeNone) | None => false end then true
  else if AuthPresent pkt then true
  else if Poll pkt then true
  else if Final pkt then true
  else if negb (RequiredMinEchoRxInterval pkt =? 0) then true
  else Demand pkt.

Definition message_of (msg : BFD) : bfdMessage :=
  mkMessage (State msg) (DetectMultiplier msg) (MyDiscriminator msg) (YourDiscriminator msg)
    (pDesiredMinTxInterval msg) (pRequiredMinRxInterval msg).

(** The message is enqueued: a call that finds the queue full waits. *)
Definition ReceiveMessage (msg : BFD) (s : t) : t :=
  if shouldDiscard msg then s
  else mk (config s) (remoteDiscriminator s) (messages s ++ [message_of msg]) (localState s) (runMarker s)
         (desiredMinTXInterval s) (remoteState s) (remoteMinRxInterval s) (detectionTimer s) (sendTimer s).
End length.

Definition IsUp (s : t) : bool := localState s =? stateUp.

(** ** The loop *)

(** [Run] up to its loop. *)
Definition start (now : Z) : SE t unit := λ s,
  if runMarker s then (s, Err AlreadyRunning) else
  let c := config s in
  match validateParameters c with
  | Ok _ =>
      let remote := if RemoteDiscriminator c =? 0 then remoteDiscriminator s else RemoteDiscriminator c in
      (mk c remote (messages s) stateDown true defaultTransmissionInterval (remoteState s) (remoteMinRxInterval s)
          (now + defaultDetectionTimeout) (now + defaultTransmissionInterval), Ok tt)
  | r =>
      (mk c (remoteDiscriminator s) (messages s) (localState s) true (desiredMinTXInterval s) (remoteState s)
          (remoteMinRxInterval s) (detectionTimer s) (sendTimer s), r)
  end.

(** The time without messages after which the session is down: 64-bit. *)
Definition detection_time (c : Config) (msg : bfdMessage) : Z :=
  int_of 64 (mDetectMultiplier msg * max (RequiredMinRxInterval c) (bfdIntervalToDuration (mDesiredMinTxInterval msg))).

(** The first branch: the message at the head of the queue. *)
Definition on_message (Intn : Z → Z) (now : Z) (msg : bfdMessage) (rest : list bfdMessage) (s : t) : outcome t :=
  let c := config s in
  let detection := now + detection_time c msg in
  let remoteMinRx := bfdIntervalToDuration (mRequiredMinRxInterval msg) in
  let remote := if remoteDiscriminator s =? 0 then mMyDiscriminator msg else remoteDiscriminator s in
  let oldState := localState s in
  newState ← transition oldState (mState msg);
  if (oldState =? stateDown) && negb (newState =? stateDown) then
    let s' := mk c remote rest newState (runMarker s) (DesiredMinTxInterval c) (mState msg) remoteMinRx detection
                (sendTimer s) in
    next ← computeNextSendInterval Intn s';
    Ok (mk c remote rest newState (runMarker s) (DesiredMinTxInterval c) (mState msg) remoteMinRx detection
          (now + next))
  else
    Ok (mk c remote rest newState (runMarker s) (desiredMinTXInterval s) (mState msg) remoteMinRx detection
          (sendTimer s)).

(** The value of a conversion whose error is dropped. *)
Definition or_zero (o : outcome Z) : Z := match o with Ok x => x | _ => 0 end.

(** The packet that is sent. *)
Definition packet (s : t) : BFD :=
  let c := config s in
  mkBFD 1 (localState s) false false false false false (DetectMult c) (LocalDiscriminator c) (remoteDiscriminator s)
    (or_zero (durationToBFDInterval (desiredMinTXInterval s)))
    (or_zero (durationToBFDInterval (RequiredMinRxInterval c))) 0 None.

(** The second branch: a packet is sent.  Whether [Send] fails makes no
    difference to the session. *)
Definition on_send (Intn : Z → Z) (now : Z) (s : t) : outcome (t * BFD) :=
  next ← computeNextSendInterval Intn s;
  let s' := mk (config s) (remoteDiscriminator s) (messages s) (localState s) (runMarker s) (desiredMinTXInterval s)
              (remoteState s) (remoteMinRxInterval s) (detectionTimer s) (now + next) in
  Ok (s', packet s').

(** The third branch: the remote was silent for too long. *)
Definition on_detection (now : Z) (s : t) : outcome t :=
  newState ← transition (localState s) eventTimer;
  let desired := if newState =? stateDown then defaultTransmissionInterval else desiredMinTXInterval s in
  Ok (mk (config s) 0 (messages s) newState (runMarker s) desired (remoteState s) (remoteMinRxInterval s)
        (now + defaultDetectionTimeout) (sendTimer s)).

(** What happens to a running session: packets arrive, and the loop takes one of
    the branches that are ready. *)
Inductive event :=
| Arrives (pkt : BFD)
| Processes (now : Z) (msg : bfdMessage)
| Sends (now : Z) (pkt : BFD)
| Expires (now : Z).

Inductive step (Length : BFD → Z) (Intn : Z → Z) : t → event → t → Prop :=
| step_arrives s pkt : step Length Intn s (Arrives pkt) (ReceiveMessage Length pkt s)
| step_processes s now msg rest s' :
    messages s = msg :: rest → on_message Intn now msg rest s = Ok s' → step Length Intn s (Processes now msg) s'
| step_sends s now s' pkt :
    sendTimer s ≤ now → on_send Intn now s = Ok (s', pkt) → step Length Intn s (Sends now pkt) s'
| step_expires s now s' :
    detectionTimer s ≤ now → on_detection now s = Ok s' → step Length Intn s (Expires now) s'.

(** The events of a session, first to last. *)
Inductive steps (Length : BFD → Z) (Intn : Z → Z) : t → list event → t → Prop :=
| steps_nil s : steps Length Intn s [] s
| steps_cons s e s' es s'' :
    step Length Intn s e s' → steps Length Intn s' es s'' → steps Length Intn s (e :: es) s''.

End Session.

(** * Properties *)
Module SessionProperties.

Import FSM Session.

Lemma int_of_64_small x : - 2 ^ 63 ≤ x < 2 ^ 63 → int_of 64 x = x.
Proof. intros H. unfold int_of. change (64 - 1) with 63. rewrite Z.mod_small; lia. Qed.

(** ** The state machine *)

(** A state of a session; the states of RFC 5880. *)
Definition is_state (x : Z) : Prop := 0 ≤ x ≤ 3.

Lemma state_cases x : is_state x →
  x = stateAdminDown ∨ x = stateDown ∨ x = stateInit ∨ x = stateUp.
Proof.
  unfold is_state, stateAdminDown, stateDown, stateInit, stateUp, BFDStateAdminDown, BFDStateDown, BFDStateInit, BFDStateUp.
  lia.
Qed.

(** The transitions without a change of the administrator, as a table. *)
Definition next_state (x e : Z) : Z :=
  if (x =? stateAdminDown) || (e =? eventAdminDown) then stateAdminDown
  else if e =? eventTimer then stateDown
  else if x =? stateDown then (if e =? eventDown then stateInit else if e =? eventInit then stateUp else stateDown)
  else if e =? eventDown then (if x =? stateInit then stateInit else stateDown)
  else stateUp.

Lemma transition_eq x e : is_state x → is_state e ∨ e = eventTimer → transition x e = Ok (next_state x e).
Proof.
  intros [-> | [-> | [-> | ->]]]%state_cases [[-> | [-> | [-> | ->]]]%state_cases | ->]; reflexivity.
Qed.

Lemma next_state_is_state x e : is_state x → is_state (next_state x e).
Proof.
  intros H. unfold next_state. repeat case_match; unfold is_state, stateAdminDown, stateDown, stateInit, stateUp,
    BFDStateAdminDown, BFDStateDown, BFDStateInit, BFDStateUp; lia.
Qed.

(** ** Packets and parameters *)

Definition interval_ok (d : Z) : Prop := Microsecond ≤ d < 2 ^ 32 * Microsecond.

(** What decoding guarantees of a packet: two bits of state, and the widths. *)
Definition wf_message (m : bfdMessage) : Prop :=
  is_state (mState m) ∧ is_u8 (mDetectMultiplier m) ∧ is_u32 (mDesiredMinTxInterval m) ∧
  is_u32 (mRequiredMinRxInterval m).

Lemma durationToBFDInterval_Ok d i :
  durationToBFDInterval d = Ok i → 0 ≤ d ∧ i = d / Microsecond ∧ i ≤ MaxUint32.
Proof.
  unfold durationToBFDInterval. intros H. apply bind_Ok in H as ([] & H1%fail_if_Ok & H).
  apply bind_Ok in H as ([] & H2%fail_if_Ok & [= <-]). rewrite Z.quot_div_nonneg in * by (unfold Microsecond; lia).
  assert (0 ≤ d / Microsecond) by (apply Z.div_pos; unfold Microsecond; lia).
  rewrite uint_of_small by (unfold is_uint, MaxUint32 in *; lia). unfold MaxUint32 in *. lia.
Qed.

Lemma durationToBFDInterval_of d : interval_ok d → durationToBFDInterval d = Ok (d / Microsecond).
Proof.
  intros [H1 H2]. unfold durationToBFDInterval, Microsecond in *. rewrite Z.quot_div_nonneg by lia.
  assert (0 ≤ d / 1000 < 2 ^ 32) by (split; [apply Z.div_pos|apply Z.div_lt_upper_bound]; lia).
  go_guard. cbv zeta. replace (MaxUint32 <? d / 1000) with false by (unfold MaxUint32; lia). go_cbn.
  by rewrite uint_of_small by (unfold is_uint; lia).
Qed.

Record config_ok (c : Config) : Prop := {
  ok_mult : 0 < DetectMult c < 256;
  ok_tx : interval_ok (DesiredMinTxInterval c);
  ok_rx : interval_ok (RequiredMinRxInterval c);
  ok_disc : LocalDiscriminator c ≠ 0;
  ok_sender : Sender c ≠ None
}.

Lemma interval_ok_of d i : durationToBFDInterval d = Ok i → (i =? 0) = false → interval_ok d.
Proof.
  intros (H1 & -> & H2)%durationToBFDInterval_Ok H3. unfold interval_ok, MaxUint32, Microsecond in *.
  pose proof (Z.div_mod d 1000). pose proof (Z.mod_pos_bound d 1000). lia.
Qed.

Lemma validateParameters_Ok c : is_u8 (DetectMult c) → validateParameters c = Ok tt → config_ok c.
Proof.
  intros Hm H. unfold validateParameters in H. apply bind_Ok in H as ([] & H0%fail_if_Ok & H).
  apply bind_Ok in H as (tx & H1%wrap_err_Ok & H). apply bind_Ok in H as ([] & H2%fail_if_Ok & H).
  apply bind_Ok in H as (rx & H3%wrap_err_Ok & H). apply bind_Ok in H as ([] & H4%fail_if_Ok & H).
  apply bind_Ok in H as ([] & H5%fail_if_Ok & H). unfold is_uint in Hm.
  split; [lia|by eapply interval_ok_of|by eapply interval_ok_of|lia|]. by destruct (Sender c).
Qed.

(** ** The invariant of a running session *)

Record running (s : t) : Prop := {
  run_config : config_ok (config s);
  run_state : is_state (localState s);
  run_tx : interval_ok (desiredMinTXInterval s);
  run_rx : 0 ≤ remoteMinRxInterval s < 2 ^ 32 * Microsecond;
  run_messages : Forall wf_message (messages s)
}.

Lemma start_running c now s :
  is_u8 (DetectMult c) → start now (new c) = (s, Ok tt) → running s ∧ localState s = stateDown ∧ messages s = [].
Proof.
  intros Hm. unfold start, new. cbn [runMarker config]. destruct (validateParameters c) as [[]| |] eqn:E; [|done..].
  intros [= <-]. split; [|done]. split; cbn; [by apply validateParameters_Ok|by unfold is_state, stateDown, BFDStateDown| | |done];
    unfold interval_ok, defaultTransmissionInterval, Second, Microsecond; lia.
Qed.

Section loop.
Context (Length : BFD → Z) (Intn : Z → Z).
Hypothesis Intn_range : ∀ n, 0 < n → 0 ≤ Intn n < n.

(** The jitter takes away at most a quarter, and a tenth at least when a single
    lost packet brings the session down. *)
Lemma computeInterval_spec x m :
  0 < x < 2 ^ 32 * Microsecond → 0 < m < 256 →
  ∃ y, computeInterval Intn x m = Ok y ∧ 3 * x < 4 * (y + 1) ∧ y ≤ x ∧ (m = 1 → 10 * y ≤ 9 * x).
Proof.
  intros Hx Hm. unfold computeInterval, Microsecond in *. replace (x <=? 0) with false by lia.
  replace (m =? 0) with false by lia. cbv zeta.
  set (j := if m =? 1 then minJitterDetectMult1 else minJitter).
  assert (0 ≤ j ≤ 10 ∧ (m = 1 → j = 10)) as [Hj Hj1].
  { unfold j, minJitterDetectMult1, minJitter. destruct (m =? 1) eqn:E; lia. }
  unfold Generate, maxJitter. replace ((j <? 0) || (25 <=? j)) with false by lia. go_cbn.
  pose proof (Intn_range (25 - j) ltac:(lia)) as Hr. set (p := Intn (25 - j) + j) in *.
  rewrite int_of_64_small by nia. rewrite Z.quot_div_nonneg by nia.
  eexists. split; [reflexivity|]. pose proof (Z.div_mod (x * (100 - p)) 100 ltac:(lia)).
  pose proof (Z.mod_pos_bound (x * (100 - p)) 100 ltac:(lia)).
  split; [nia|]. split; [nia|]. intros ->. assert (10 ≤ p) by lia. nia.
Qed.

Lemma max_eq x y : Session.max x y = Z.max x y.
Proof. unfold Session.max. destruct (y <? x) eqn:E; lia. Qed.

Lemma next_interval s :
  config_ok (config s) → interval_ok (desiredMinTXInterval s) → 0 ≤ remoteMinRxInterval s < 2 ^ 32 * Microsecond →
  ∃ y, computeNextSendInterval Intn s = Ok y ∧ y ≤ Z.max (desiredMinTXInterval s) (remoteMinRxInterval s) ∧
    (DetectMult (config s) = 1 → 10 * y ≤ 9 * Z.max (desiredMinTXInterval s) (remoteMinRxInterval s)).
Proof.
  intros Hc Ht Hr. unfold computeNextSendInterval. rewrite max_eq. unfold interval_ok, Microsecond in *.
  destruct (computeInterval_spec (Z.max (desiredMinTXInterval s) (remoteMinRxInterval s)) (DetectMult (config s)))
    as (y & E & _ & H); [unfold Microsecond; lia|apply (ok_mult _ Hc)|]. by exists y.
Qed.

Lemma on_message_running now msg rest s :
  running s → wf_message msg → Forall wf_message rest →
  ∃ s', on_message Intn now msg rest s = Ok s' ∧ running s' ∧ config s' = config s ∧ messages s' = rest ∧
    localState s' = next_state (localState s) (mState msg) ∧
    remoteMinRxInterval s' = bfdIntervalToDuration (mRequiredMinRxInterval msg) ∧
    detectionTimer s' = now + detection_time (config s) msg ∧
    (mMyDiscriminator msg ≠ 0 → remoteDiscriminator s' ≠ 0).
Proof.
  intros Hs (Hst & Hm & Htx & Hrx) Hrest. unfold on_message. cbv zeta.
  rewrite transition_eq by (try apply Hs; by left). go_cbn.
  assert (0 ≤ bfdIntervalToDuration (mRequiredMinRxInterval msg) < 2 ^ 32 * Microsecond) as Hr.
  { unfold is_uint in Hrx. unfold bfdIntervalToDuration, Microsecond. lia. }
  pose proof (next_state_is_state _ (mState msg) (run_state _ Hs)) as Hn.
  assert (mMyDiscriminator msg ≠ 0 →
          (if remoteDiscriminator s =? 0 then mMyDiscriminator msg else remoteDiscriminator s) ≠ 0) as Hd
    by (destruct (_ =? _) eqn:?; lia).
  destruct (_ && _).
  - destruct (next_interval (mk (config s) (if remoteDiscriminator s =? 0 then mMyDiscriminator msg else remoteDiscriminator s)
      rest (next_state (localState s) (mState msg)) (runMarker s) (DesiredMinTxInterval (config s)) (mState msg)
      (bfdIntervalToDuration (mRequiredMinRxInterval msg)) (now + detection_time (config s) msg) (sendTimer s)))
      as (y & E & _); [apply Hs|apply (ok_tx _ (run_config _ Hs))|exact Hr|].
    rewrite E. go_cbn. eexists. split; [reflexivity|]. split; [|done].
    split; cbn; [apply Hs|done|apply (ok_tx _ (run_config _ Hs))|done|done].
  - eexists. split; [reflexivity|]. split; [|done]. split; cbn; [apply Hs|done|apply Hs|done|done].
Qed.

Lemma on_send_running now s :
  running s →
  ∃ s' y, on_send Intn now s = Ok (s', packet s') ∧ running s' ∧ sendTimer s' = now + y ∧ config s' = config s ∧
    localState s' = localState s ∧ messages s' = messages s ∧ desiredMinTXInterval s' = desiredMinTXInterval s ∧
    remoteDiscriminator s' = remoteDiscriminator s ∧
    y ≤ Z.max (desiredMinTXInterval s) (remoteMinRxInterval s) ∧
    (DetectMult (config s) = 1 → 10 * y ≤ 9 * Z.max (desiredMinTXInterval s) (remoteMinRxInterval s)).
Proof.
  intros Hs. unfold on_send. destruct (next_interval s) as (y & -> & Hy); [apply Hs..|]. go_cbn.
  eexists _, y. split; [reflexivity|]. split; [split; cbn; apply Hs|]. by repeat split; try apply Hy.
Qed.

Lemma on_detection_running now s :
  running s →
  ∃ s', on_detection now s = Ok s' ∧ running s' ∧ config s' = config s ∧ messages s' = messages s ∧
    localState s' = next_state (localState s) eventTimer.
Proof.
  intros Hs. unfold on_detection. rewrite transition_eq by (try apply Hs; by right). go_cbn.
  eexists. split; [reflexivity|]. split; [|done].
  split; cbn; [apply Hs|by apply next_state_is_state, Hs| |apply Hs|apply Hs].
  destruct (_ =? _); [|apply Hs]. unfold interval_ok, defaultTransmissionInterval, Second, Microsecond. lia.
Qed.

Definition wf_packet (pkt : BFD) : Prop := wf_message (message_of pkt).

Lemma ReceiveMessage_running pkt s : running s → wf_packet pkt → running (ReceiveMessage Length pkt s).
Proof.
  intros Hs Hp. unfold ReceiveMessage. destruct (shouldDiscard Length pkt); [done|].
  split; cbn; [apply Hs..|]. apply Forall_app. split; [apply Hs|]. by constructor.
Qed.

(** An event with a packet that was decoded. *)
Definition wf_event (e : event) : Prop := match e with Arrives pkt => wf_packet pkt | _ => True end.

Lemma step_running s e s' : running s → wf_event e → step Length Intn s e s' → running s'.
Proof.
  intros Hs He Hst. destruct Hst as [s pkt|s now msg rest s' Hm Ho|s now s' pkt _ Ho|s now s' _ Ho].
  - by apply ReceiveMessage_running.
  - pose proof (run_messages _ Hs) as Hf. rewrite Hm in Hf. apply Forall_cons in Hf as [Hw Hf].
    destruct (on_message_running now msg rest s) as (x & E & Hx & _); [done..|]. rewrite E in Ho. by injection Ho as <-.
  - destruct (on_send_running now s) as (x & y & E & Hx & _); [done|]. rewrite E in Ho. by injection Ho as <- <-.
  - destruct (on_detection_running now s) as (x & E & Hx & _); [done|]. rewrite E in Ho. by injection Ho as <-.
Qed.

Lemma steps_running s es s' : running s → Forall wf_event es → steps Length Intn s es s' → running s'.
Proof.
  intros Hs He Hst. induction Hst as [s|s e s' es s'' H1 _ IH]; [done|]. apply Forall_cons in He as [He Hes].
  apply IH; [|done]. by eapply step_running.
Qed.
(** Processing one packet that a session sent. *)
Lemma packet_message s : running s → wf_packet (packet s).
Proof.
  intros Hs. pose proof (run_config _ Hs) as Hc. unfold wf_packet, wf_message, packet, message_of. cbn.
  rewrite !durationToBFDInterval_of by (by apply Hs || apply (ok_rx _ Hc)). cbn.
  split; [apply Hs|]. pose proof (ok_mult _ Hc). split; [unfold is_uint; lia|].
  pose proof (run_tx _ Hs) as Ht. pose proof (ok_rx _ Hc) as Hr. unfold interval_ok, Microsecond, is_uint in *.
  split; (split; [apply Z.div_pos; lia|apply Z.div_lt_upper_bound; lia]).
Qed.

(** ** AdminDown *)

Lemma admin_down_step s e s' :
  localState s = stateAdminDown → step Length Intn s e s' → running s → wf_event e →
  localState s' = stateAdminDown ∧ (∀ now pkt, e = Sends now pkt → State pkt = BFDStateAdminDown).
Proof.
  intros Hl Hst Hs He. destruct Hst as [s pkt|s now msg rest s' Hm Ho|s now s' pkt _ Ho|s now s' _ Ho].
  - split; [|done]. unfold ReceiveMessage. by destruct (shouldDiscard Length pkt).
  - pose proof (run_messages _ Hs) as Hf. rewrite Hm in Hf. apply Forall_cons in Hf as [Hw Hf].
    destruct (on_message_running now msg rest s) as (x & E & _ & _ & _ & Hx & _); [done..|].
    rewrite E in Ho. injection Ho as <-. split; [|done]. by rewrite Hx, Hl.
  - destruct (on_send_running now s Hs) as (x & y & E & _ & _ & _ & Hx & _). rewrite E in Ho. injection Ho as <- <-.
    split; [by rewrite Hx|]. intros ? ? [= _ <-]. cbn. by rewrite Hx, Hl.
  - destruct (on_detection_running now s Hs) as (x & E & _ & _ & _ & Hx). rewrite E in Ho. injection Ho as <-.
    split; [|done]. by rewrite Hx, Hl.
Qed.

Lemma admin_down_steps s es s' :
  localState s = stateAdminDown → running s → Forall wf_event es → steps Length Intn s es s' →
  localState s' = stateAdminDown ∧ ∀ now pkt, Sends now pkt ∈ es → State pkt = BFDStateAdminDown.
Proof.
  intros Hl Hs He Hst. induction Hst as [s|s e s' es s'' H1 _ IH].
  { split; [done|]. intros ? ? H. by apply not_elem_of_nil in H. }
  apply Forall_cons in He as [He Hes]. destruct (admin_down_step s e s') as [Hl' Hp]; [done..|].
  destruct IH as [Hl'' Hp']; [done|by eapply step_running|done|]. split; [done|].
  intros now pkt [Heq|Hin]%elem_of_cons; [by apply (Hp now)|by apply (Hp' now)].
Qed.

(** ** Two sessions *)

(** What one session made of a packet that the other sent at [now]. *)
Definition exchange (now : Z) (a b : t) : outcome (t * t) :=
  '(a, pkt) ← on_send Intn now a;
  let b := ReceiveMessage Length pkt b in
  match messages b with
  | [] => Ok (a, b)
  | msg :: rest => b ← on_message Intn now msg rest b; Ok (a, b)
  end.

(** gopacket: a packet without authentication has 24 bytes. *)
Hypothesis Length_plain : ∀ pkt, AuthHeader pkt = None → Length pkt = 24.

Lemma packet_kept s :
  running s → localState s = stateDown ∨ remoteDiscriminator s ≠ 0 → shouldDiscard Length (packet s) = false.
Proof.
  intros Hs Hd. pose proof (run_config _ Hs) as Hc. unfold shouldDiscard. rewrite Length_plain by done. cbn.
  replace (DetectMult (config s) =? 0) with false by (pose proof (ok_mult _ Hc); lia).
  replace (LocalDiscriminator (config s) =? 0) with false by (pose proof (ok_disc _ Hc); lia).
  destruct (remoteDiscriminator s =? 0) eqn:E; [|done]. destruct Hd as [->|]; [done|lia].
Qed.

Lemma exchange_spec now a b :
  running a → running b → messages b = [] → localState a = stateDown ∨ remoteDiscriminator a ≠ 0 →
  ∃ a' b', exchange now a b = Ok (a', b') ∧ running a' ∧ running b' ∧
    localState a' = localState a ∧ messages a' = messages a ∧ remoteDiscriminator a' = remoteDiscriminator a ∧
    localState b' = next_state (localState b) (localState a) ∧ messages b' = [] ∧ remoteDiscriminator b' ≠ 0.
Proof.
  intros Ha Hb Hm Hd. unfold exchange.
  destruct (on_send_running now a Ha) as (a' & y & -> & Ha' & _ & Hc & Hl & Hms & _ & Hr & _). go_cbn.
  unfold ReceiveMessage. rewrite packet_kept by (by rewrite ?Hl, ?Hr). cbn [messages]. rewrite Hm. cbn [app].
  set (b1 := mk _ _ _ _ _ _ _ _ _ _).
  assert (running b1) as Hb1.
  { split; cbn; [apply Hb..|]. constructor; [|done]. by apply (packet_message a'). }
  destruct (on_message_running now (message_of (packet a')) [] b1) as (b' & E & Hb' & _ & Hbm & Hbl & _ & _ & Hbd);
    [done|by apply packet_message|done|]. rewrite E. go_cbn.
  eexists a', b'. split_and!; try done; [by rewrite Hbl; cbn; rewrite Hl|].
  apply Hbd. cbn. apply (ok_disc _ (run_config _ Ha')).
Qed.

Lemma handshake a b t1 t2 t3 :
  running a → running b → localState a = stateDown → localState b = stateDown → messages a = [] → messages b = [] →
  ∃ a1 b1 a2 b2 a3 b3,
    exchange t1 a b = Ok (a1, b1) ∧ exchange t2 b1 a1 = Ok (b2, a2) ∧ exchange t3 a2 b2 = Ok (a3, b3) ∧
    IsUp a3 = true ∧ IsUp b3 = true.
Proof.
  intros Ha Hb Hla Hlb Hma Hmb.
  destruct (exchange_spec t1 a b) as (a1 & b1 & E1 & Ha1 & Hb1 & La1 & Ma1 & _ & Lb1 & Mb1 & Db1); [auto..|].
  destruct (exchange_spec t2 b1 a1) as (b2 & a2 & E2 & Hb2 & Ha2 & Lb2 & Mb2 & _ & La2 & Ma2 & Da2);
    [done..|by rewrite Ma1|by right|].
  destruct (exchange_spec t3 a2 b2) as (a3 & b3 & E3 & _ & _ & La3 & _ & _ & Lb3 & _);
    [done..|by rewrite Mb2|by right|].
  exists a1, b1, a2, b2, a3, b3. split_and!; [done..| |]; unfold IsUp.
  - by rewrite La3, La2, Lb1, La1, Hla, Hlb.
  - by rewrite Lb3, Lb2, La2, Lb1, La1, Hla, Hlb.
Qed.

(** The detection time of the receiver and the next send interval of the sender. *)
Lemma keeps_up_lemma now later rest a b :
  running a → running b → Forall wf_message rest →
  (Microsecond | desiredMinTXInterval a) → remoteMinRxInterval a ≤ RequiredMinRxInterval (config b) →
  ∃ a' b', on_send Intn now a = Ok (a', packet a') ∧
    on_message Intn later (message_of (packet a')) rest b = Ok b' ∧
    10 * (sendTimer a' - now) + RequiredMinRxInterval (config b) ≤ 10 * (detectionTimer b' - later).
Proof.
  intros Ha Hb Hrest [d Hd] Hrx. pose proof (run_tx _ Ha) as Ht.
  destruct (on_send_running now a Ha) as (a' & y & E & Ha' & Hy & Hc & _ & _ & Htx & _ & Hmax & H1).
  destruct (on_message_running later (message_of (packet a')) rest b) as (b' & Eb & _ & _ & _ & _ & _ & Hdt & _);
    [done|by apply packet_message|done|].
  exists a', b'. split; [done|]. split; [done|]. rewrite Hy, Hdt. unfold detection_time, packet, message_of. cbn.
  rewrite Htx, durationToBFDInterval_of by done. cbn [or_zero]. rewrite max_eq, Hc.
  unfold bfdIntervalToDuration. rewrite Hd, Z.div_mul, <- Hd by done.
  pose proof (ok_mult _ (run_config _ Ha)) as Hmult. pose proof (ok_rx _ (run_config _ Hb)) as Hr.
  unfold interval_ok, Microsecond in *.
  set (M := Z.max (RequiredMinRxInterval (config b)) (desiredMinTXInterval a)). set (m := DetectMult (config a)) in *.
  assert (y ≤ M ∧ (m = 1 → 10 * y ≤ 9 * M) ∧ RequiredMinRxInterval (config b) ≤ M < 2 ^ 32 * 1000) as (HyM & H1M & HM)
    by lia.
  clearbody M m. clear - HyM H1M HM Hmult Hr. assert (m * M < 256 * (2 ^ 32 * 1000)) by nia. rewrite int_of_64_small by nia.
  destruct (decide (m = 1)) as [->|]; [lia|]. assert (2 * M ≤ m * M) by nia. lia.
Qed.

(** Two sessions and the packets that they sent, which the network loses, delays
    and repeats at will, but does not forge.  [heard]: the session has processed a
    packet. *)
Record net := mkNet {
  here : t;
  there : t;
  sent_here : list BFD;
  sent_there : list BFD;
  heard_here : bool;
  heard_there : bool
}.
Definition swap (n : net) : net :=
  mkNet (there n) (here n) (sent_there n) (sent_here n) (heard_there n) (heard_here n).

(** What one of the two does. *)
Definition on_wire (e : event) (l : list BFD) : list BFD := match e with Sends _ pkt => pkt :: l | _ => l end.
Definition hears (e : event) (h : bool) : bool := match e with Processes _ _ => true | _ => h end.
Definition deliverable (e : event) (l : list BFD) : Prop := match e with Arrives pkt => pkt ∈ l | _ => True end.
Inductive moves : net → net → Prop :=
| moves_here n e s' :
    deliverable e (sent_there n) → step Length Intn (here n) e s' →
    moves n (mkNet s' (there n) (on_wire e (sent_here n)) (sent_there n) (hears e (heard_here n)) (heard_there n)).
Definition net_step (n n' : net) : Prop := moves n n' ∨ moves (swap n) (swap n').

(** Two sessions that were just started. *)
Definition fresh (n : net) : Prop :=
  running (here n) ∧ running (there n) ∧ localState (here n) = stateDown ∧ localState (there n) = stateDown ∧
  messages (here n) = [] ∧ messages (there n) = [] ∧ sent_here n = [] ∧ sent_there n = [] ∧
  heard_here n = false ∧ heard_there n = false.

(** One half of the invariant. *)
Definition past_down (x : Z) : Prop := x = stateInit ∨ x = stateUp.
Record half_inv (n : net) : Prop := {
  half_running : running (here n);
  half_admin : localState (here n) ≠ stateAdminDown;
  half_heard : past_down (localState (here n)) → heard_here n = true;
  half_up : localState (here n) = stateUp → heard_there n = true;
  half_sent : Forall (λ pkt, wf_packet pkt ∧ State pkt ≠ stateAdminDown ∧ (past_down (State pkt) → heard_here n = true))
                (sent_here n);
  half_queue : Forall (λ m, mState m ≠ stateAdminDown ∧ (past_down (mState m) → heard_there n = true))
                 (messages (here n))
}.

Lemma fresh_inv n : fresh n → half_inv n ∧ half_inv (swap n).
Proof.
  intros (? & ? & H1 & H2 & H3 & H4 & H5 & H6 & H7 & H8).
  split; split; cbn; try done; rewrite ?H1, ?H2, ?H3, ?H4, ?H5, ?H6; try done; by intros [?|?].
Qed.

(** Where the table leads. *)
Lemma next_up x e : is_state x → is_state e → next_state x e = stateUp → x = stateUp ∨ past_down e.
Proof.
  unfold past_down. intros [-> | [-> | [-> | ->]]]%state_cases [-> | [-> | [-> | ->]]]%state_cases H;
    first [discriminate H|by left|right; by left|right; by right].
Qed.
Lemma next_admin x e : is_state x → x ≠ stateAdminDown → e ≠ eventAdminDown → next_state x e ≠ stateAdminDown.
Proof.
  intros Hs Hx He. unfold next_state. replace (x =? stateAdminDown) with false by lia.
  replace (e =? eventAdminDown) with false by lia. cbn [orb]. repeat case_match; done.
Qed.
Lemma next_timer x : x ≠ stateAdminDown → next_state x eventTimer = stateDown.
Proof. intros Hx. unfold next_state. by replace (x =? stateAdminDown) with false by lia. Qed.

Lemma moves_inv n n' : moves n n' → half_inv n → half_inv (swap n) → half_inv n' ∧ half_inv (swap n').
Proof.
  intros [[h th sh st hh ht] e s' Hd Hst] H1 H2. unfold swap in *.
  cbn [here there sent_here sent_there heard_here heard_there] in *. assert (running h) as Hr by exact (half_running _ H1).
  assert (wf_event e) as He.
  { destruct e as [pkt| | |]; try done. pose proof (half_sent _ H2) as Hf. rewrite Forall_forall in Hf. by apply Hf. }
  assert (running s') as Hr' by by eapply step_running.
  destruct Hst as [s pkt|s now msg rest s' Hm Ho|s now s' pkt _ Ho|s now s' _ Ho]; cbn [on_wire hears deliverable] in *.
  - split; [|by destruct H2]. destruct H1 as [_ A B C D E]. unfold ReceiveMessage in *.
    destruct (shouldDiscard Length pkt); [by split|]. split; cbn; try done. apply Forall_app. split; [done|].
    apply Forall_singleton. pose proof (half_sent _ H2) as Hf. rewrite Forall_forall in Hf. destruct (Hf _ Hd) as (_ & Hx & Hy). by split.
  - pose proof (run_messages _ Hr) as Hf. rewrite Hm in Hf. apply Forall_cons in Hf as [Hw Hf].
    destruct (on_message_running now msg rest s) as (x & E & _ & _ & Hq & Hl & _); [done..|].
    rewrite E in Ho. injection Ho as <-.
    pose proof (half_queue _ H1) as Hqs. cbn [here heard_there] in Hqs. rewrite Hm in Hqs. apply Forall_cons in Hqs as [[Hna Hpd] Hqs].
    split.
    + split; cbn; try done; rewrite ?Hl, ?Hq; [| | |exact Hqs].
      * apply next_admin; [apply Hr|apply H1|done].
      * intros [Hup|Hup]%next_up; [by apply (half_up _ H1)|by apply Hpd|apply Hr|apply Hw].
      * pose proof (half_sent _ H1) as Hs. eapply Forall_impl; [exact Hs|]. by intros ? (? & ? & _).
    + split; cbn; try apply H2; [done|]. pose proof (half_queue _ H2) as Hs. eapply Forall_impl; [exact Hs|].
      by intros ? [? _].
  - destruct (on_send_running now _ Hr) as (x & y & E & _ & _ & _ & Hl & Hms & _). rewrite E in Ho. injection Ho as <- <-.
    split; [|by destruct H2]. split; cbn; rewrite ?Hl, ?Hms; try done; try apply H1.
    constructor; [|apply H1]. split; [by apply packet_message|]. cbn. rewrite Hl. split; [apply H1|apply H1].
  - destruct (on_detection_running now _ Hr) as (x & E & _ & _ & Hms & Hl). rewrite E in Ho. injection Ho as <-.
    rewrite next_timer in Hl by apply H1. split; [|by destruct H2].
    split; cbn; rewrite ?Hl, ?Hms; try done; try apply H1. by intros [?|?].
Qed.

Lemma reachable_inv n n' : fresh n → rtc net_step n n' → half_inv n' ∧ half_inv (swap n').
Proof.
  intros [H1 H2]%fresh_inv Hr. induction Hr as [n|n n' n'' [Hm|Hm] _ IH]; [done| |].
  - destruct (moves_inv _ _ Hm H1 H2) as [? ?]. by apply IH.
  - assert (half_inv (swap (swap n))) as H1' by by destruct n.
    destruct (moves_inv _ _ Hm H2 H1') as [? Hs]. apply IH; [by destruct n'|done].
Qed.

(** An exchange is three steps of the network. *)
Lemma exchange_moves now n a b :
  exchange now (here n) (there n) = Ok (a, b) → sendTimer (here n) ≤ now → messages (there n) = [] →
  ∃ n', rtc net_step n n' ∧ here n' = a ∧ there n' = b.
Proof.
  destruct n as [h th sh st hh ht]. cbn [here there]. intros H Ht Hm. unfold exchange in H.
  apply bind_Ok in H as ([a' pkt] & Hs & H).
  set (b1 := ReceiveMessage Length pkt th) in *.
  assert (rtc net_step (mkNet h th sh st hh ht) (mkNet a' b1 (pkt :: sh) st hh ht)) as Hr.
  { eapply rtc_l; [left; by apply (moves_here _ (Sends now pkt) a'), step_sends|]. eapply rtc_l; [|apply rtc_refl].
    right. apply (moves_here (mkNet th a' st (pkt :: sh) ht hh) (Arrives pkt)); [by left|constructor]. }
  assert (messages b1 = [] ∨ messages b1 = [message_of pkt]) as [E|E].
  { unfold b1, ReceiveMessage. destruct (shouldDiscard Length pkt); [by left|]. right. cbn. by rewrite Hm. }
  - rewrite E in H. injection H as <- <-. eexists. split; [exact Hr|done].
  - rewrite E in H. apply bind_Ok in H as (b2 & Hb & H). injection H as <- <-.
    exists (mkNet a' b2 (pkt :: sh) st hh true). split; [|done]. eapply rtc_r; [exact Hr|]. right.
    apply (moves_here (mkNet b1 a' st (pkt :: sh) ht hh) (Processes now (message_of pkt))); [done|].
    by eapply step_processes.
Qed.

Lemma net_step_swap n n' : rtc net_step (swap n) (swap n') → rtc net_step n n'.
Proof.
  assert (∀ m, swap (swap m) = m) as Hs by by intros [].
  intros H. remember (swap n) as m eqn:E. remember (swap n') as m' eqn:E'. revert n n' E E'.
  induction H as [m|m m1 m2 Hm _ IH]; intros n n' E E'.
  - rewrite <- (Hs n), <- (Hs n'), <- E, <- E'. apply rtc_refl.
  - eapply rtc_l; [|apply (IH (swap m1) n'); [by rewrite Hs|done]].
    subst m. destruct Hm as [Hm|Hm]; [right; by rewrite Hs|left]. by rewrite Hs in Hm.
Qed.

(** C13: A session is up only if the link works in both directions.  Between two
    sessions that start down, over a network that may lose, delay and repeat
    packets but does not forge them, a session is up only after both have
    processed a packet of the other; and neither session ever gets into the state
    AdminDown, or sends a packet with it. *)
Theorem up_means_both_ways n n' :
  fresh n → rtc net_step n n' →
  (IsUp (here n') = true → heard_here n' = true ∧ heard_there n' = true) ∧
  localState (here n') ≠ stateAdminDown ∧ Forall (λ pkt, State pkt ≠ BFDStateAdminDown) (sent_here n').
Proof.
  intros Hf Hr. destruct (reachable_inv n n' Hf Hr) as [H _]. split_and!.
  - unfold IsUp. intros Hu%Z.eqb_eq. split; [apply (half_heard _ H); by right|by apply (half_up _ H)].
  - apply H.
  - eapply Forall_impl; [apply (half_sent _ H)|]. by intros ? (_ & ? & _).
Qed.

(** Two sessions come up.  When two sessions were started, three packets that
    arrive, one after the other in turn, bring both of them up. *)
Theorem sessions_come_up cA cB tA tB a b t1 t2 t3 :
  is_u8 (DetectMult cA) → is_u8 (DetectMult cB) →
  start tA (new cA) = (a, Ok tt) → start tB (new cB) = (b, Ok tt) →
  ∃ a1 b1 a2 b2 a3 b3,
    exchange t1 a b = Ok (a1, b1) ∧ exchange t2 b1 a1 = Ok (b2, a2) ∧ exchange t3 a2 b2 = Ok (a3, b3) ∧
    IsUp a3 = true ∧ IsUp b3 = true.
Proof.
  intros Ha Hb (Ra & La & Ma)%start_running (Rb & Lb & Mb)%start_running; [|done..]. by apply handshake.
Qed.

(** C14: Sessions keep each other up.  When a session knows the receive interval of
    its remote, and its own interval is a whole number of microseconds, the
    detection time that the remote gives it when it processes a packet is longer
    than the time to its next packet, in whatever way the interval is jittered,
    by a tenth of the receive interval at least: packets that are delayed by less
    than that do not bring the link down. *)
Theorem keeps_up now later rest a b :
  running a → running b → Forall wf_message rest →
  (Microsecond | desiredMinTXInterval a) → remoteMinRxInterval a ≤ RequiredMinRxInterval (config b) →
  ∃ a' b', on_send Intn now a = Ok (a', packet a') ∧
    on_message Intn later (message_of (packet a')) rest b = Ok b' ∧
    10 * (sendTimer a' - now) + RequiredMinRxInterval (config b) ≤ 10 * (detectionTimer b' - later).
Proof. apply keeps_up_lemma. Qed.

(** C15: AdminDown is for good.  A session that processes one packet in the state
    AdminDown - which need not know the discriminator of the session to be
    accepted - is not up at any later time, whatever it receives; and all that it
    sends from then on has the state AdminDown, which does the same to a remote that
    processes it. *)
Theorem admin_down_for_good now msg rest s s' es s'' :
  running s → messages s = msg :: rest → mState msg = BFDStateAdminDown →
  on_message Intn now msg rest s = Ok s' → Forall wf_event es → steps Length Intn s' es s'' →
  IsUp s'' = false ∧ ∀ now pkt, Sends now pkt ∈ es → State pkt = BFDStateAdminDown.
Proof.
  intros Hs Hm Ha Ho He Hst. pose proof (run_messages _ Hs) as Hf. rewrite Hm in Hf.
  apply Forall_cons in Hf as [Hw Hf]. destruct (on_message_running now msg rest s) as (x & E & Hx & _ & _ & Hl & _); [done..|].
  rewrite E in Ho. injection Ho as <-.
  destruct (admin_down_steps x es s'') as [Hl' Hp]; [|done..|].
  { rewrite Hl, Ha. unfold next_state. by rewrite orb_true_r. }
  split; [|done]. unfold IsUp. by rewrite Hl'.
Qed.
End loop.


(** Two sessions with 200 ms intervals, packets of 24 bytes and the least jitter. *)
Definition toy_config (disc : Z) : Config :=
  mkConfig (Some (λ _, Ok tt)) disc 0 (200000 * Microsecond) (200000 * Microsecond) 3.
Definition toy_length (pkt : BFD) : Z := 24.
Definition toy_intn (n : Z) : Z := 0.
Lemma toy_intn_range n : 0 < n → 0 ≤ toy_intn n < n.
Proof. unfold toy_intn. lia. Qed.
Definition toy (disc : Z) : t := (start 0 (new (toy_config disc))).1.
Lemma toy_running disc : disc ≠ 0 → running (toy disc).
Proof.
  intros Hd. apply (start_running (toy_config disc) 0); [done|]. unfold toy, start, validateParameters. cbn.
  by replace (disc =? 0) with false by lia.
Qed.
Definition toy_exchange (now : Z) (p : t * t) : t * t :=
  match exchange toy_length toy_intn now p.1 p.2 with Ok q => q | _ => p end.
Definition toy_net (p : t * t) : net := mkNet p.1 p.2 [] [] false false.
(** After one packet each way. *)
Definition toy_pair1 : t * t := toy_exchange (10 * Second) (toy 7, toy 9).
Definition toy_pair2 : t * t := toy_exchange (20 * Second) (toy_pair1.2, toy_pair1.1).

Lemma up_means_both_ways_witness :
  ∃ n, rtc (net_step toy_length toy_intn) (toy_net (toy 7, toy 9)) n ∧ IsUp (here n) = true ∧
    heard_here n = true ∧ heard_there n = true.
Proof.
  destruct (exchange_moves toy_length toy_intn (10 * Second) (toy_net (toy 7, toy 9)) toy_pair1.1 toy_pair1.2)
    as (n1 & R1 & H1 & T1); [by vm_compute|by vm_compute|done|].
  destruct (exchange_moves toy_length toy_intn (20 * Second) (swap n1) toy_pair2.1 toy_pair2.2)
    as (n2 & R2 & H2 & T2).
  { unfold swap. cbn [here there]. rewrite H1, T1. by vm_compute. }
  { unfold swap. cbn [here]. rewrite T1. by vm_compute. }
  { unfold swap. cbn [there]. rewrite H1. by vm_compute. }
  assert (rtc (net_step toy_length toy_intn) (toy_net (toy 7, toy 9)) (swap n2)) as R.
  { etransitivity; [exact R1|]. apply net_step_swap. destruct n2; exact R2. }
  assert (IsUp (here (swap n2)) = true) as Hu by (unfold swap; cbn [here]; rewrite T2; by vm_compute).
  exists (swap n2). split; [done|]. split; [done|].
  apply (up_means_both_ways toy_length toy_intn toy_intn_range (toy_net (toy 7, toy 9)) (swap n2)); [|done|done].
  split; [by apply (toy_running 7)|]. split; [by apply (toy_running 9)|]. vm_compute. repeat split.
Defined.

Lemma sessions_come_up_witness :
  ∃ a b, start 0 (new (toy_config 7)) = (a, Ok tt) ∧ start 0 (new (toy_config 9)) = (b, Ok tt) ∧
  ∃ a1 b1 a2 b2 a3 b3,
    exchange toy_length toy_intn (10 * Second) a b = Ok (a1, b1) ∧ exchange toy_length toy_intn (20 * Second) b1 a1 = Ok (b2, a2) ∧
    exchange toy_length toy_intn (30 * Second) a2 b2 = Ok (a3, b3) ∧ IsUp a3 = true ∧ IsUp b3 = true.
Proof.
  exists (toy 7), (toy 9). split; [by vm_compute|]. split; [by vm_compute|].
  by apply (sessions_come_up toy_length toy_intn toy_intn_range (λ _ _, eq_refl) (toy_config 7) (toy_config 9) 0 0).
Defined.

Lemma keeps_up_witness :
  ∃ a' b', on_send toy_intn 0 (toy 7) = Ok (a', packet a') ∧
    on_message toy_intn 5 (message_of (packet a')) [] (toy 9) = Ok b' ∧
    10 * (sendTimer a' - 0) + 200000 * Microsecond ≤ 10 * (detectionTimer b' - 5).
Proof.
  apply (keeps_up toy_intn toy_intn_range 0 5 [] (toy 7) (toy 9));
    [by apply toy_running|by apply toy_running|done|by exists 1000000|by vm_compute].
Defined.

(** A packet in the state AdminDown that was not asked for is accepted. *)
Definition forged : BFD := mkBFD 1 BFDStateAdminDown false false false false false 1 66 0 1 1 0 None.

Lemma admin_down_for_good_witness :
  ∃ s', on_message toy_intn 5 (message_of forged) [] (ReceiveMessage toy_length forged (toy 7)) = Ok s' ∧
    IsUp s' = false.
Proof.
  eexists. split; [by vm_compute|].
  eapply (admin_down_for_good toy_length toy_intn toy_intn_range 5 (message_of forged) []
            (ReceiveMessage toy_length forged (toy 7)) _ []);
    [|by vm_compute|done|by vm_compute|done|constructor].
  apply ReceiveMessage_running; [by apply toy_running|]. unfold wf_packet, wf_message, is_uint, is_state. vm_compute. intuition discriminate.
Defined.

End SessionProperties.
