(* ===== verification/Ringbuf.v ===== *)
(** The ring buffer between two goroutines, [private/ringbuf] (Module [Ring]),
    and the ring of packets on top of it, [gateway/dataplane/pktring.go] (Module
    [PktRing]).  Module [RingProperties]: both are queues. *)
From S2P Require Export Bytes.

(** * ringbuf.go *)
Module Ring.

Section ring.
Context {Entry : Type}.

(** [Ring]: an element of the slice is nil when there is nothing at its index.
    The mutex makes each call one step. *)
Record t := mk {
  entries : list (option Entry);
  writeIndex : Z;
  readIndex : Z;
  writable : Z;
  readable : Z;
  closed : bool
}.

(** [newf i] is what the call number [i] of the allocation function returns: a
    ring that allocates its entries starts off as full. *)
Definition New (count : Z) (newf : option (nat → Entry)) : t :=
  match newf with
  | Some f => mk ((λ i, Some (f i)) <$> seq 0 (Z.to_nat count)) 0 0 0 count false
  | None => mk (replicate (Z.to_nat count) None) 0 0 count 0 false
  end.

Definition min (x y : Z) : Z := if x <? y then x else y.

(** The slices and the number of entries that [copy] copies. *)
Definition write (l : list Entry) (r : t) : outcome t :=
  let new := Some <$> l in
  let n := min (len (entries r) - writeIndex r) (len l) in
  es ← on_sub_from (entries r) (writeIndex r) (λ m, Ok (copy m new));
  if n <? len l then
    rest ← sub_from new n;
    Ok (mk (copy es rest) (min (len es) (len rest)) (readIndex r) (writable r) (readable r) (closed r))
  else Ok (mk es (writeIndex r + n) (readIndex r) (writable r) (readable r) (closed r)).

(** [count] entries are read, and their places set to nil. *)
Definition read (count : Z) (r : t) : outcome (t * list (option Entry)) :=
  let n := min (len (entries r) - readIndex r) count in
  first ← sub (entries r) (readIndex r) (readIndex r + n);
  es ← on_sub (entries r) (readIndex r) (readIndex r + n) (λ m, Ok (replicate (length m) None));
  if n <? count then
    let n' := min (len es) (count - n) in
    second ← sub es 0 n';
    es ← on_sub es 0 n' (λ m, Ok (replicate (length m) None));
    Ok (mk es (writeIndex r) n' (writable r) (readable r) (closed r), first ++ second)
  else Ok (mk es (writeIndex r) (readIndex r + n) (writable r) (readable r) (closed r), first).

(** What a call does: it returns, or waits until something changes. *)
Inductive call (A : Type) :=
| Waits
| Returns (a : A).
Arguments Waits {A}.
Arguments Returns {A} a.

(** The number of entries written. *)
Definition Write (l : list Entry) (block : bool) (r : t) : outcome (call (t * Z)) :=
  if (0 <? len l) && (writable r =? 0) && negb (closed r) && negb block then Ok (Returns (r, 0)) else
  if (0 <? len l) && (writable r =? 0) && negb (closed r) then Ok Waits else
  if closed r then Ok (Returns (r, -1)) else
  let n := min (writable r) (len l) in
  new ← sub l 0 n;
  r ← write new r;
  Ok (Returns (mk (entries r) (writeIndex r) (readIndex r) (writable r - n) (readable r + n) (closed r), n)).

(** [count] is the length of the slice that is read into; what was read. *)
Definition Read (count : Z) (block : bool) (r : t) : outcome (call (t * list (option Entry) * Z)) :=
  if (0 <? count) && (readable r =? 0) && negb (closed r) && negb block then Ok (Returns (r, [], 0)) else
  if (0 <? count) && (readable r =? 0) && negb (closed r) then Ok Waits else
  if closed r && (readable r =? 0) then Ok (Returns (r, [], -1)) else
  let n := min (readable r) count in
  '(r, l) ← read n r;
  Ok (Returns (mk (entries r) (writeIndex r) (readIndex r) (writable r + n) (readable r - n) (closed r), l, n)).

Definition Close (r : t) : t := mk (entries r) (writeIndex r) (readIndex r) (writable r) (readable r) true.
End ring.
Arguments t Entry : clear implicits.
Arguments Waits {A}.
Arguments Returns {A} a.

End Ring.

(** * gateway/dataplane/pktring.go *)
Module PktRing.

Import Ring.

Definition batchSize : Z := 32.
Definition ringSize : Z := 64.

(** [pktRing]: [entries] are the packets of the last batch that were not handed
    out yet, at the end of the storage. *)
Record t := mk {
  ring : Ring.t bytes;
  entries : list (option bytes)
}.

Definition newPktRing : t := mk (New ringSize None) [].

Definition Write (pkt : bytes) (block : bool) (pr : t) : outcome (call (t * Z)) :=
  c ← Ring.Write [pkt] block (ring pr);
  Ok (match c with Waits => Waits | Returns (r, n) => Returns (mk r (entries pr), n) end).

(** The first of the buffered packets; a nil entry is not a packet. *)
Definition hand_out (pr : t) : outcome (call (t * bytes * Z)) :=
  match entries pr with
  | Some pkt :: rest => Ok (Returns (mk (ring pr) rest, pkt, 1))
  | _ => Panic
  end.

Definition Read (block : bool) (pr : t) : outcome (call (t * bytes * Z)) :=
  if len (entries pr) =? 0 then
    c ← Ring.Read batchSize block (ring pr);
    match c with
    | Waits => Ok Waits
    | Returns (r, l, n) =>
        if n =? -1 then Ok (Returns (mk r [], [], -1))
        else if n =? 0 then Ok (Returns (mk r [], [], 0))
        else hand_out (mk r l)
    end
  else hand_out pr.

Definition Close (pr : t) : t := mk (Ring.Close (ring pr)) (entries pr).

End PktRing.

(** * Properties *)
Module RingProperties.

Import Ring.

Lemma len_fmap {A B} (f : A → B) l : len (f <$> l) = len l.
Proof. unfold len. by rewrite length_fmap. Qed.

Lemma split_list {A} (n : Z) (x : list A) : 0 ≤ n ≤ len x → ∃ a b, x = a ++ b ∧ len a = n.
Proof.
  intros Hn. exists (take (Z.to_nat n) x), (drop (Z.to_nat n) x). split; [by rewrite take_drop|].
  rewrite len_take. lia.
Qed.

Lemma copy_front {A} (dst src : list A) : len src ≤ len dst → copy dst src = src ++ drop (length src) dst.
Proof. intros H. unfold copy. rewrite take_ge by (unfold len in *; lia). done. Qed.

Section ring.
Context {Entry : Type}.
Implicit Types (r : t Entry) (q l : list Entry).

(** A ring and the queue that it represents: the used part of the slice is in the
    middle, or around its end. *)
Inductive layout : list (option Entry) → Z → Z → list Entry → Prop :=
| layout_middle (f1 f2 : list (option Entry)) q :
    layout (f1 ++ (Some <$> q) ++ f2) (len f1) (len f1 + len q) q
| layout_around (f : list (option Entry)) q1 q2 :
    layout ((Some <$> q2) ++ f ++ (Some <$> q1)) (len q2 + len f) (len q2) (q1 ++ q2).
Record represents r q : Prop := {
  rep_layout : layout (entries r) (readIndex r) (writeIndex r) q;
  rep_readable : readable r = len q;
  rep_writable : writable r = len (entries r) - len q
}.

Lemma min_eq x y : Ring.min x y = Z.min x y.
Proof. unfold Ring.min. destruct (x <? y) eqn:E; lia. Qed.

(** Writing into the free part. *)
Lemma write_layout r q l :
  layout (entries r) (readIndex r) (writeIndex r) q → len l ≤ len (entries r) - len q →
  ∃ r', write l r = Ok r' ∧ layout (entries r') (readIndex r') (writeIndex r') (q ++ l) ∧
    len (entries r') = len (entries r) ∧ closed r' = closed r ∧ readable r' = readable r ∧ writable r' = writable r.
Proof.
  destruct r as [es wi ri wr rd cl]. cbn [entries readIndex writeIndex]. intros Hlay Hl. unfold write.
  cbn [entries writeIndex readIndex closed readable writable]. rewrite min_eq.
  inversion Hlay as [f1 f2 q' Hes Hri Hwi|f q1 q2 Hes Hri Hwi]; subst.
  - rewrite !len_app, len_fmap in *. unfold on_sub_from.
    rewrite (app_assoc f1), on_sub_suffix by (by rewrite ?len_app, ?len_fmap; rewrite ?len_app; len_lia || lia).
    go_cbn. destruct (decide (len l ≤ len f2)) as [Hs|Hs].
    + replace (_ <? len l) with false by lia. eexists. split; [reflexivity|]. cbn.
      destruct (split_list (len l) f2) as (g & g' & -> & Hg); [pose proof (len_nonneg l); lia|].
      rewrite copy_front by (rewrite len_fmap, len_app; pose proof (len_nonneg g'); lia).
      rewrite length_fmap, drop_app_length' by (unfold len in *; lia).
      split; [|rewrite !len_app, !len_fmap; split_and!; try done; lia].
      replace ((f1 ++ (Some <$> q)) ++ (Some <$> l) ++ g') with (f1 ++ (Some <$> (q ++ l)) ++ g')
        by (by rewrite fmap_app, <- !app_assoc).
      replace (len f1 + len q + _) with (len f1 + len (q ++ l)) by (rewrite len_app; lia). constructor.
    + replace (_ <? len l) with true by lia.
      destruct (split_list (len f2) l) as (l1 & l2 & -> & Hl1); [pose proof (len_nonneg f2); lia|].
      rewrite fmap_app. rewrite !len_app in *. pose proof (len_nonneg l2). unfold sub_from.
      rewrite (sub_suffix (Some <$> l1) (Some <$> l2)) by (rewrite ?len_app, ?len_fmap; lia). go_cbn.
      eexists. split; [reflexivity|]. cbn.
      assert (copy f2 ((Some <$> l1) ++ (Some <$> l2)) = Some <$> l1) as ->.
      { unfold copy. rewrite take_app_length' by (rewrite length_fmap; unfold len in *; lia).
        rewrite drop_ge, app_nil_r; [done|]. rewrite length_app, !length_fmap. unfold len in *. lia. }
      destruct (split_list (len l2) f1) as (g & g' & -> & Hg); [pose proof (len_nonneg l2); rewrite ?len_app in *; lia|].
      rewrite copy_front by (rewrite !len_app, !len_fmap in *; pose proof (len_nonneg g'); pose proof (len_nonneg q);
        pose proof (len_nonneg l1); lia).
      rewrite <- !app_assoc, length_fmap, drop_app_length' by (unfold len in *; lia).
      rewrite !len_app, !len_fmap, min_eq in *. pose proof (len_nonneg g'). pose proof (len_nonneg q). pose proof (len_nonneg l1).
      split; [|split_and!; try done; lia].
      replace (Z.min _ (len l2)) with (len l2) by lia. rewrite (app_assoc q), Hg.
      replace ((Some <$> l2) ++ g' ++ (Some <$> q) ++ (Some <$> l1)) with ((Some <$> l2) ++ g' ++ (Some <$> (q ++ l1)))
        by (by rewrite fmap_app). constructor.
  - rewrite !len_app, !len_fmap in *. unfold on_sub_from.
    rewrite on_sub_suffix by (by rewrite ?len_app, ?len_fmap; try lia). go_cbn.
    pose proof (len_nonneg q1). replace (_ <? len l) with false by lia.
    eexists. split; [reflexivity|]. cbn.
    destruct (split_list (len l) f) as (g & g' & -> & Hg); [pose proof (len_nonneg l); lia|]. rewrite len_app in *.
    rewrite copy_front by (rewrite !len_app, !len_fmap; pose proof (len_nonneg g'); lia).
    rewrite <- !app_assoc, length_fmap, drop_app_length' by (unfold len in *; lia).
    split; [|rewrite !len_app, !len_fmap; split_and!; try done; lia].
    rewrite Hg. replace (len q2 + Z.min _ (len l)) with (len (q2 ++ l)) by (rewrite len_app; pose proof (len_nonneg g'); lia).
    replace ((Some <$> q2) ++ (Some <$> l) ++ g' ++ (Some <$> q1)) with ((Some <$> (q2 ++ l)) ++ g' ++ (Some <$> q1))
      by (by rewrite fmap_app, <- app_assoc).
    replace (len q2 + (len l + len g')) with (len (q2 ++ l) + len g') by (rewrite len_app; lia). constructor.
Qed.

Lemma len_replicate {A} n (x : A) : len (replicate n x) = Z.of_nat n.
Proof. unfold len. by rewrite length_replicate. Qed.

(** Reading the first entries. *)
Lemma read_layout r q1 q2 :
  layout (entries r) (readIndex r) (writeIndex r) (q1 ++ q2) →
  ∃ r', read (len q1) r = Ok (r', Some <$> q1) ∧ layout (entries r') (readIndex r') (writeIndex r') q2 ∧
    len (entries r') = len (entries r) ∧ closed r' = closed r ∧ readable r' = readable r ∧ writable r' = writable r.
Proof.
  destruct r as [es wi ri wr rd cl]. cbn [entries readIndex writeIndex]. intros Hlay. unfold read.
  cbn [entries writeIndex readIndex closed readable writable]. rewrite min_eq.
  pose proof (len_nonneg q1) as N1. pose proof (len_nonneg q2) as N2.
  inversion Hlay as [f1 f2 q' Hes Hri Hwi|f a b Hes Hri Hwi]; subst.
  - pose proof (len_nonneg f2). rewrite fmap_app, <- app_assoc. rewrite !len_app, !len_fmap.
    replace (Z.min _ (len q1)) with (len q1) by lia.
    rewrite (sub_mid f1) by (rewrite ?len_fmap; lia). go_cbn.
    rewrite (on_sub_mid f1) by (rewrite ?len_fmap; lia). go_cbn. rewrite Z.ltb_irrefl.
    eexists. split; [reflexivity|]. cbn. rewrite length_fmap. split.
    + rewrite (app_assoc f1). replace (len f1 + len q1) with (len (f1 ++ replicate (length q1) None)) by
        (rewrite len_app, len_replicate; unfold len; lia).
      replace (len f1 + (len q1 + len q2)) with (len (f1 ++ replicate (length q1) (@None Entry)) + len q2) by
        (rewrite len_app, len_replicate; unfold len; lia). constructor.
    + rewrite !len_app, !len_fmap, len_replicate. split_and!; try done; unfold len; lia.
  - pose proof (len_nonneg f). pose proof (len_nonneg a). rewrite !len_app, !len_fmap.
    replace (len b + (len f + len a) - (len b + len f)) with (len a) by lia.
    destruct (decide (len q1 ≤ len a)) as [Hs|Hs].
    + rewrite Z.min_r by lia. destruct (split_list (len q1) a) as (a1 & a2 & -> & Ha); [lia|].
      rewrite <- app_assoc in *. assert (a1 = q1 ∧ a2 ++ b = q2) as [-> <-].
      { apply app_inj_1; [unfold len in *; lia|congruence]. }
      rewrite fmap_app, (app_assoc (Some <$> b) f).
      rewrite (sub_mid ((Some <$> b) ++ f)) by (rewrite ?len_app, ?len_fmap; lia). go_cbn.
      rewrite (on_sub_mid ((Some <$> b) ++ f)) by (rewrite ?len_app, ?len_fmap; lia). go_cbn. rewrite Z.ltb_irrefl.
      eexists. split; [reflexivity|]. cbn. rewrite length_fmap. split.
      * replace (((Some <$> b) ++ f) ++ replicate (length q1) None ++ (Some <$> a2))
          with ((Some <$> b) ++ (f ++ replicate (length q1) None) ++ (Some <$> a2)) by (by rewrite <- !app_assoc).
        replace (len b + len f + len q1) with (len b + len (f ++ replicate (length q1) None)) by
          (rewrite len_app, len_replicate; unfold len; lia). constructor.
      * rewrite !len_app, !len_fmap, len_replicate. split_and!; try done; unfold len; lia.
    + rewrite Z.min_l by lia. destruct (split_list (len a) q1) as (c1 & c2 & -> & Hc); [lia|].
      rewrite <- app_assoc in *. assert (a = c1 ∧ b = c2 ++ q2) as [-> ->].
      { apply app_inj_1; [unfold len in *; lia|congruence]. }
      rewrite !len_app in *. pose proof (len_nonneg c2).
      rewrite (app_assoc (Some <$> (c2 ++ q2)) f).
      rewrite (sub_suffix ((Some <$> (c2 ++ q2)) ++ f)) by (rewrite ?len_app, ?len_fmap, ?len_app; lia). go_cbn.
      rewrite (on_sub_suffix ((Some <$> (c2 ++ q2)) ++ f)) by (rewrite ?len_app, ?len_fmap, ?len_app; lia). go_cbn.
      replace (len c1 <? _) with true by lia. cbv zeta. rewrite min_eq.
      rewrite !len_app, !len_fmap, !len_app, len_replicate, length_fmap. fold (len c1).
      replace (Z.min _ (len c1 + len c2 - len c1)) with (len c2) by (unfold len; lia).
      rewrite fmap_app, <- !app_assoc.
      rewrite (sub_prefix (Some <$> c2)) by (by rewrite len_fmap). go_cbn.
      rewrite (on_sub_prefix (Some <$> c2)) by (by rewrite len_fmap). go_cbn.
      eexists. split; [by rewrite fmap_app|]. cbn. rewrite !length_fmap. split.
      * replace (len c2) with (len (replicate (length c2) (@None Entry))) at 1 2 by (rewrite len_replicate; unfold len; lia).
        constructor.
      * rewrite !len_app, !len_fmap, !len_replicate. split_and!; try done; unfold len; lia.
Qed.

(** The queue of bounded capacity that a ring implements. *)
Definition queue_write (cap : Z) (closed block : bool) (l q : list Entry) : call (list Entry * Z) :=
  if closed then Returns (q, -1)
  else if (0 <? len l) && (len q =? cap) then (if block then Waits else Returns (q, 0))
  else let n := Z.min (cap - len q) (len l) in Returns (q ++ take (Z.to_nat n) l, n).
Definition queue_read (count : Z) (closed block : bool) (q : list Entry) : call (list Entry * list Entry * Z) :=
  if len q =? 0 then
    if closed then Returns (q, [], -1) else if (0 <? count) && block then Waits else Returns (q, [], 0)
  else let n := Z.min (len q) count in Returns (drop (Z.to_nat n) q, take (Z.to_nat n) q, n).

(** A ring that represents the queue that the specification gives. *)
Definition tracks (cap : Z) (r : t Entry) (q : list Entry) : Prop := represents r q ∧ len (entries r) = cap.

Lemma tracks_New cap : 0 ≤ cap → tracks cap (New cap None) [].
Proof.
  intros Hc. split; [|cbn; unfold len; rewrite length_replicate; lia].
  split; cbn; [|done|unfold len; rewrite length_replicate; simpl; lia].
  change (layout ([] ++ (Some <$> []) ++ replicate (Z.to_nat cap) None) (len (@nil (option Entry)))
            (len (@nil (option Entry)) + len (@nil Entry)) []). constructor.
Qed.
Lemma tracks_full cap f : 0 ≤ cap → tracks cap (New cap (Some f)) (f <$> seq 0 (Z.to_nat cap)).
Proof.
  intros Hc. split; [|cbn; unfold len; rewrite length_fmap, length_seq; lia].
  split; cbn; [|rewrite len_fmap; unfold len; rewrite length_seq; lia|unfold len; rewrite !length_fmap; lia].
  pose proof (layout_around [] (f <$> seq 0 (Z.to_nat cap)) []) as H.
  rewrite app_nil_r, <- list_fmap_compose in H. exact H.
Qed.
Lemma tracks_Close cap r q : tracks cap r q → tracks cap (Close r) q.
Proof. intros [[] ?]. split; [|done]. by split. Qed.

Lemma layout_bound es ri wi q : layout es ri wi q → len q ≤ len es.
Proof.
  intros []; rewrite !len_app, !len_fmap; [|pose proof (len_nonneg f); lia].
  pose proof (len_nonneg f1). pose proof (len_nonneg f2). lia.
Qed.

Lemma Write_spec cap r q l block :
  tracks cap r q →
  match queue_write cap (closed r) block l q with
  | Waits => Write l block r = Ok Waits
  | Returns (q', n) =>
      ∃ r', Write l block r = Ok (Returns (r', n)) ∧ tracks cap r' q' ∧ closed r' = closed r
  end.
Proof.
  intros [[Hlay Hr Hw] Hc]. pose proof (layout_bound _ _ _ _ Hlay). unfold queue_write, Write. rewrite Hw, Hc, min_eq.
  replace (cap - len q =? 0) with (len q =? cap) by lia. pose proof (len_nonneg l).
  destruct (closed r) eqn:Hcl.
  { rewrite !andb_false_r. cbn. exists r. split; [done|]. split; [by split|done]. }
  rewrite !andb_true_r. destruct ((0 <? len l) && (len q =? cap)) eqn:E.
  { destruct block; [done|]. exists r. split; [done|]. split; [by split|done]. }
  cbn [andb]. set (n := Z.min (cap - len q) (len l)).
  rewrite sub_Ok by lia. go_cbn. rewrite drop_0, Z.sub_0_r.
  destruct (write_layout r q (take (Z.to_nat n) l)) as (r' & -> & Hlay' & He & Hcl' & Hr' & Hw');
    [done|rewrite len_take; lia|]. go_cbn.
  eexists. split; [reflexivity|]. split; [|by rewrite <- Hcl].
  split; [|cbn; lia]. split; cbn; [done| |]; rewrite len_app, len_take; lia.
Qed.

Lemma Read_spec cap r q count block :
  tracks cap r q → 0 ≤ count →
  match queue_read count (closed r) block q with
  | Waits => Read count block r = Ok Waits
  | Returns (q', l, n) =>
      ∃ r', Read count block r = Ok (Returns (r', Some <$> l, n)) ∧ tracks cap r' q' ∧ closed r' = closed r
  end.
Proof.
  intros [[Hlay Hr Hw] Hc] Hcount. pose proof (layout_bound _ _ _ _ Hlay). unfold queue_read, Read. rewrite Hr, min_eq.
  pose proof (len_nonneg q). destruct (len q =? 0) eqn:E.
  - destruct (closed r) eqn:Hcl; cbn [negb andb]; rewrite ?andb_false_r, ?andb_true_r.
    { exists r. split; [done|]. split; [by split|done]. }
    destruct (0 <? count) eqn:E0; cbn [andb]; [destruct block; cbn [negb]; [done|]|].
    + exists r. split; [done|]. split; [by split|done].
    + replace (Z.min (len q) count) with (len (@nil Entry)) by (rewrite len_nil; lia).
      destruct (read_layout r [] q) as (r' & -> & Hlay' & He & Hcl' & Hr' & Hw'); [done|]. go_cbn.
      exists (mk (entries r') (writeIndex r') (readIndex r') (writable r' + 0) (readable r' - 0) (closed r')).
      split; [done|]. split; [|cbn; congruence]. split; [|cbn; congruence]. split; cbn; [done|lia|lia].
  - rewrite !andb_false_r. cbn [andb]. set (n := Z.min (len q) count).
    assert (n = len (take (Z.to_nat n) q)) as Hn by (rewrite len_take; lia).
    destruct (read_layout r (take (Z.to_nat n) q) (drop (Z.to_nat n) q)) as (r' & Er & Hlay' & He & Hcl' & Hr' & Hw');
      [by rewrite take_drop|]. rewrite <- Hn in Er. rewrite Er. go_cbn.
    eexists. split; [reflexivity|]. split; [|done]. split; [|cbn; lia]. split; cbn; [done| |]; rewrite len_drop; lia.
Qed.

(** C16: The ring buffer is a queue of bounded capacity.  Starting from a new ring,
    reads and writes of any number of entries, that block or not, before and after
    the ring was closed, return what the queue returns and wait when it waits:
    the entries that were written come out in order, once each, whatever the
    positions at which they wrapped around in the slice; and no index is out of
    range. *)
Theorem ring_refines_queue cap r q :
  tracks cap r q →
  (∀ l block, match queue_write cap (closed r) block l q with
     | Waits => Write l block r = Ok Waits
     | Returns (q', n) => ∃ r', Write l block r = Ok (Returns (r', n)) ∧ tracks cap r' q' ∧ closed r' = closed r
     end) ∧
  (∀ count block, 0 ≤ count → match queue_read count (closed r) block q with
     | Waits => Read count block r = Ok Waits
     | Returns (q', l, n) =>
         ∃ r', Read count block r = Ok (Returns (r', Some <$> l, n)) ∧ tracks cap r' q' ∧ closed r' = closed r
     end) ∧
  tracks cap (Close r) q.
Proof.
  intros H. split_and!; [intros; by apply Write_spec|intros; by apply Read_spec|by apply tracks_Close].
Qed.
End ring.

Lemma ring_refines_queue_witness :
  ∃ r, Write [5; 6; 7; 8] false (New 3 None) = Ok (Returns (r, 3)) ∧ tracks 3 r [5; 6; 7].
Proof.
  destruct (ring_refines_queue 3 (New 3 (@None (nat → Z))) []) as [Hw _]; [by apply tracks_New|].
  destruct (Hw [5; 6; 7; 8] false) as (r & Hr & Ht & _). by exists r.
Defined.

(** ** The ring of packets *)

Import PktRing.

(** The packets in the ring, in order. *)
Definition holds (pr : PktRing.t) (q : list bytes) : Prop :=
  ∃ b q', PktRing.entries pr = Some <$> b ∧ q = b ++ q' ∧ tracks ringSize (ring pr) q'.

Lemma holds_new : holds newPktRing [].
Proof. exists [], []. split; [done|]. split; [done|]. by apply tracks_New. Qed.

Lemma holds_Close pr q : holds pr q → holds (PktRing.Close pr) q.
Proof. intros (b & q' & Hb & -> & Hr). exists b, q'. split; [done|]. split; [done|]. by apply tracks_Close. Qed.

(** A write that does not block drops the packet when there is no room. *)
Lemma PktRing_Write_spec pr q pkt :
  holds pr q → closed (ring pr) = false →
  ∃ pr' n, PktRing.Write pkt false pr = Ok (Returns (pr', n)) ∧ closed (ring pr') = false ∧
    (n = 1 ∧ holds pr' (q ++ [pkt]) ∨ n = 0 ∧ holds pr' q) ∧ (len q < ringSize → n = 1).
Proof.
  intros (b & q' & Hb & -> & Hr) Hc. unfold PktRing.Write. pose proof (Write_spec _ _ _ [pkt] false Hr) as H.
  unfold queue_write in H. rewrite Hc in H. cbn [len length andb] in H. change (0 <? len [pkt]) with true in H.
  cbn [andb] in H. rewrite len_app. pose proof (len_nonneg b). pose proof (layout_bound _ _ _ _ (rep_layout _ _ (proj1 Hr))) as Hl.
  rewrite (proj2 Hr) in Hl. destruct (len q' =? ringSize) eqn:E.
  - destruct H as (r' & -> & Hr' & Hc'). go_cbn. eexists _, 0. split; [done|]. split; [done|].
    split; [right; split; [done|]; by exists b, q'|lia].
  - replace (Z.min _ _) with 1 in H by (change (len [pkt]) with 1; lia). destruct H as (r' & -> & Hr' & Hc'). go_cbn.
    eexists _, 1. split; [done|]. split; [done|]. split; [|done].
    left. split; [done|]. exists b, (q' ++ [pkt]). split; [done|]. split; [by rewrite app_assoc|done].
Qed.

Lemma PktRing_Write_closed pr q pkt block :
  holds pr q → closed (ring pr) = true → ∃ pr', PktRing.Write pkt block pr = Ok (Returns (pr', -1)) ∧ holds pr' q ∧ closed (ring pr') = true.
Proof.
  intros (b & q' & Hb & -> & Hr) Hc. unfold PktRing.Write. pose proof (Write_spec _ _ _ [pkt] block Hr) as H.
  unfold queue_write in H. rewrite Hc in H. destruct H as (r' & -> & Hr' & Hc'). go_cbn.
  eexists. split; [done|]. split; [|done]. by exists b, q'.
Qed.

Lemma PktRing_Read_spec pr q block :
  holds pr q →
  match q with
  | [] => if closed (ring pr) then ∃ pr', PktRing.Read block pr = Ok (Returns (pr', [], -1)) ∧ holds pr' [] ∧ closed (ring pr') = true
          else if block then PktRing.Read block pr = Ok Waits
          else ∃ pr', PktRing.Read block pr = Ok (Returns (pr', [], 0)) ∧ holds pr' [] ∧ closed (ring pr') = false
  | pkt :: q => ∃ pr', PktRing.Read block pr = Ok (Returns (pr', pkt, 1)) ∧ holds pr' q ∧ closed (ring pr') = closed (ring pr)
  end.
Proof.
  intros (b & q' & Hb & -> & Hr). unfold PktRing.Read. rewrite Hb, len_fmap. destruct b as [|x b]; cycle 1.
  { rewrite len_cons. pose proof (len_nonneg b). replace (_ =? 0) with false by lia. cbn [app].
    unfold hand_out. rewrite Hb. cbn. eexists. split; [done|]. split; [|done]. by exists b, q'. }
  cbn [app]. change (len [] =? 0) with true. cbv iota. pose proof (Read_spec _ _ _ batchSize block Hr) as H.
  unfold queue_read in H. specialize (H ltac:(done)). destruct q' as [|x q'].
  - cbn [len length] in H. change (len [] =? 0) with true in H. cbv iota in H. destruct (closed (ring pr)) eqn:Hc.
    + destruct H as (r' & -> & Hr' & Hc'). go_cbn. eexists. split; [done|]. split; [|done]. by exists [], [].
    + change (0 <? batchSize) with true in H. cbn [andb] in H. destruct block; [by rewrite H|].
      destruct H as (r' & -> & Hr' & Hc'). go_cbn. eexists. split; [done|]. split; [|done]. by exists [], [].
  - rewrite len_cons in H. pose proof (len_nonneg q'). replace (1 + len q' =? 0) with false in H by lia.
    destruct H as (r' & -> & Hr' & Hc'). go_cbn. set (n := Z.min (1 + len q') batchSize).
    assert (1 ≤ n) by (unfold n, batchSize; lia). replace (n =? -1) with false by lia. replace (n =? 0) with false by lia.
    destruct (Z.to_nat n) as [|m] eqn:En; [lia|]. cbn. eexists. split; [done|]. split; [|done].
    exists (take m q'), (drop m q'). split; [done|]. split; [by rewrite take_drop|].
    fold n in Hr'. rewrite En in Hr'. exact Hr'.
Qed.

End RingProperties.
