(* ===== verification/Tunnel.v ===== *)
(** The tunnel of the gateway, [gateway/dataplane]: IP packets are packed into
    frames ([encoder.go], Module [Encoder]), and taken out of them on the other
    side ([framebuf.go], [rlist.go], [worker.go], [ingressserver.go]: Modules
    [FrameBuf], [RList], [Worker], [IngressServer]). *)
From S2P Require Export Ringbuf.

(** * encoder.go *)
Module Encoder.

Import Ring.

Definition hdrLen : Z := 16.
Definition versionPos : Z := 0.
Definition sessPos : Z := 1.
Definition indexPos : Z := 2.
Definition streamPos : Z := 4.
Definition seqPos : Z := 8.

(** [encoder]: [frame] is the frame being built, [mtu] the capacity of its slice. *)
Record t := mk {
  sessionID : Z;
  streamID : Z;
  ring : PktRing.t;
  seq : Z;
  pkt : bytes;
  frame : bytes;
  mtu : Z
}.

Definition newEncoder (sessionID streamID mtu : Z) : t :=
  mk sessionID streamID PktRing.newPktRing 0 [] [] mtu.

Definition set_ring (r : PktRing.t) (e : t) : t := mk (sessionID e) (streamID e) r (seq e) (pkt e) (frame e) (mtu e).
Definition set_pkt (p : bytes) (e : t) : t := mk (sessionID e) (streamID e) (ring e) (seq e) p (frame e) (mtu e).
Definition set_frame (f : bytes) (e : t) : t := mk (sessionID e) (streamID e) (ring e) (seq e) (pkt e) f (mtu e).
Definition set_seq (s : Z) (e : t) : t := mk (sessionID e) (streamID e) (ring e) s (pkt e) (frame e) (mtu e).

Definition Close (e : t) : t := set_ring (PktRing.Close (ring e)) e.

(** A packet that does not fit into the ring is dropped. *)
Definition Write (pkt : bytes) (e : t) : outcome (call t) :=
  c ← PktRing.Write pkt false (ring e);
  Ok (match c with Waits => Waits | Returns (r, _) => Returns (set_ring r e) end).

Definition copyToFrame (e : t) : outcome (t * Z) :=
  let toCopy := mtu e - len (frame e) in
  let toCopy := if len (pkt e) <? toCopy then len (pkt e) else toCopy in
  part ← sub (pkt e) 0 toCopy;
  rest ← sub_from (pkt e) toCopy;
  Ok (set_pkt rest (set_frame (frame e ++ part) e), toCopy).

(** Where [Read] is: before the next iteration of its loop, waiting for a packet
    there, or returning, the frame or nil. *)
Inductive progress :=
| More (indexSet : bool) (e : t)
| Blocks (indexSet : bool) (e : t)
| Return (frame : option bytes) (e : t).

(** Every byte of the header is written. *)
Definition header (sessionID streamID seq index : Z) : bytes :=
  [0; sessionID] ++ be_bytes 2 index ++ be_bytes 4 (Z.land streamID 0xfffff) ++ be_bytes 8 seq.

(** [Read] up to its loop. *)
Definition start (e : t) : outcome progress :=
  if mtu e <? hdrLen then Panic else
  let e := set_seq (u64 (seq e + 1)) (set_frame (header (sessionID e) (streamID e) (seq e) 0xffff) e) in
  if 0 <? len (pkt e) then
    '(e, _) ← copyToFrame e;
    Ok (if 0 <? len (pkt e) then Return (Some (frame e)) e else More false e)
  else Ok (More false e).

(** The checks of a packet that was read from the ring. *)
Definition valid_packet (p : bytes) : outcome bool :=
  if len p =? 0 then Ok false else
  b ← get p 0;
  let ipVersion := Z.shiftr b 4 in
  if ipVersion =? 4 then
    if len p <? 20 then Ok false
    else length ← (sub p 2 4 ≫= Uint16); Ok (length =? len p)
  else if ipVersion =? 6 then
    if len p <? 40 then Ok false
    else length ← (sub p 4 6 ≫= Uint16); Ok (40 + length =? len p)
  else Ok false.

(** One iteration of the loop. *)
Definition iterate (indexSet : bool) (e : t) : outcome progress :=
  let pos := len (frame e) in
  if mtu e - pos <? 40 then Ok (Return (Some (frame e)) e) else
  let block := pos =? hdrLen in
  c ← PktRing.Read block (ring e);
  match c with
  | Waits => Ok (Blocks indexSet e)
  | Returns (r, p, n) =>
      let e := set_pkt p (set_ring r e) in
      if n =? 0 then Ok (Return (Some (frame e)) e)
      else if n =? -1 then Ok (Return (if block then None else Some (frame e)) e)
      else
        ok ← valid_packet p;
        if negb ok then Ok (More indexSet e) else
        e ← (if indexSet then Ok e
             else f ← on_sub (frame e) indexPos (indexPos + 2) (λ b, PutUint16 b (u16 (pos - hdrLen)));
                  Ok (set_frame f e));
        '(e, _) ← copyToFrame e;
        Ok (if 0 <? len (pkt e) then Return (Some (frame e)) e else More true e)
  end.

(** [Read], as long as no other goroutine writes to the ring: [fuel] iterations. *)
Fixpoint loop (fuel : nat) (indexSet : bool) (e : t) : outcome progress :=
  match fuel with
  | O => Ok (More indexSet e)
  | S fuel =>
      p ← iterate indexSet e;
      match p with More indexSet e => loop fuel indexSet e | p => Ok p end
  end.
Definition Read (fuel : nat) (e : t) : outcome progress :=
  p ← start e;
  match p with More indexSet e => loop fuel indexSet e | p => Ok p end.

End Encoder.

(** * sender.go: the room for frames on a path *)
Module Sender.

Definition minMTU : Z := Encoder.hdrLen + 41.
Definition udpHdrLen : Z := 8.

(** [newSender]: the capacity of the frames, from the MTU of the path and the
    lengths of the addresses and of the path. *)
Definition mtu (pathMTU localIP gatewayIP pathLen : Z) : outcome Z :=
  let addrLen := 8 * 2 + localIP + gatewayIP in
  let mtu := pathMTU - 12 - addrLen - pathLen - udpHdrLen in
  if mtu <? minMTU then Err (New "insufficient MTU") else Ok (u16 mtu).

End Sender.

(** * framebuf.go *)
Module FrameBuf.

Definition sigHdrSize : Z := 16.
Definition frameBufCap : Z := 65535.
Definition freeFramesCap : Z := 1024.

(** [frameBuf].  The sender of the frame, [snd], is the worker that processes it:
    the packets that it sends are returned. *)
Record t := mk {
  sessId : Z;
  seqNr : Z;
  index : Z;
  frameLen : Z;
  frag0Start : Z;
  frag0Processed : bool;
  fragNProcessed : bool;
  completePktsProcessed : bool;
  pktLen : Z;
  raw : bytes
}.

Definition Reset (fb : t) : t := mk 0 0xffffffffffffffff (-1) 0 0 false false false 0 (raw fb).
Definition newFrameBuf : t := Reset (mk 0 0 0 0 0 false false false 0 (make_bytes frameBufCap)).
Definition initFreeFrames : Ring.t t := Ring.New freeFramesCap (Some (λ _, newFrameBuf)).

(** [Release]: the buffer as it is handed back; the caller writes it to the ring. *)
Definition Release (fb : t) : t := Reset fb.

Definition set_complete (fb : t) : t :=
  mk (sessId fb) (seqNr fb) (index fb) (frameLen fb) (frag0Start fb) (frag0Processed fb) (fragNProcessed fb) true
    (pktLen fb) (raw fb).
Definition set_fragN (fb : t) : t :=
  mk (sessId fb) (seqNr fb) (index fb) (frameLen fb) (frag0Start fb) (frag0Processed fb) true (completePktsProcessed fb)
    (pktLen fb) (raw fb).
Definition SetProcessed (fb : t) : t :=
  mk (sessId fb) (seqNr fb) (index fb) (frameLen fb) (frag0Start fb) true true true (pktLen fb) (raw fb).
Definition Processed (fb : t) : bool :=
  completePktsProcessed fb && fragNProcessed fb && ((frag0Start fb =? 0) || frag0Processed fb).

(** The length of the packet at an offset, if its header is one. *)
Definition packet_len (fb : t) (offset : Z) : outcome (option Z) :=
  b ← get (raw fb) offset;
  let ipVersion := Z.shiftr b 4 in
  if ipVersion =? 4 then
    if frameLen fb - offset <? 20 then Ok None
    else n ← (sub (raw fb) (offset + 2) (offset + 4) ≫= Uint16); Ok (if n <? 20 then None else Some n)
  else if ipVersion =? 6 then
    if frameLen fb - offset <? 40 then Ok None
    else n ← (sub (raw fb) (offset + 4) (offset + 6) ≫= Uint16); Ok (Some (n + 40))
  else Ok None.

(** The loop of [ProcessCompletePkts]: where it ends, with the length of the last
    packet, unless it returns; and the packets.  Packets have at least 20 bytes,
    so that the length of the frame is enough [fuel]. *)
Fixpoint scan (fuel : nat) (fb : t) (offset pktLen : Z) : outcome (option (Z * Z) * list bytes) :=
  match fuel with
  | O => Panic
  | S fuel =>
      if offset <? frameLen fb then
        o ← packet_len fb offset;
        match o with
        | None => Ok (None, [])
        | Some pktLen =>
            rawPkt ← sub (raw fb) offset (frameLen fb);
            if len rawPkt <? pktLen then Ok (Some (offset, pktLen), [])
            else
              p ← sub rawPkt 0 pktLen;
              '(r, ps) ← scan fuel fb (offset + pktLen) pktLen;
              Ok (r, p :: ps)
        end
      else Ok (Some (offset, pktLen), [])
  end.

(** The frame, and the packets that are sent. *)
Definition ProcessCompletePkts (fb : t) : outcome (t * list bytes) :=
  if completePktsProcessed fb || (index fb =? 0xffff) then Ok (set_complete fb, []) else
  '(r, ps) ← scan (S (Z.to_nat (frameLen fb))) fb (index fb + sigHdrSize) 0;
  match r with
  | None => Ok (set_complete fb, ps)
  | Some (offset, n) =>
      let '(start, n) := if offset <? frameLen fb then (offset, n) else (frag0Start fb, pktLen fb) in
      Ok (mk (sessId fb) (seqNr fb) (index fb) (frameLen fb) start (start =? 0) (fragNProcessed fb) true n (raw fb), ps)
  end.

End FrameBuf.

(** * rlist.go *)
Module RList.

Import FrameBuf.

(** [reassemblyList]: the buffer [buf] is reset before it is used. *)
Record t := mk {
  epoch : Z;
  capacity : Z;
  markedForDeletion : bool;
  entries : list FrameBuf.t
}.

Definition newReassemblyList (epoch capacity : Z) : t := mk epoch capacity false [].

Definition set_entries (es : list FrameBuf.t) (l : t) : t := mk (epoch l) (capacity l) (markedForDeletion l) es.

(** What an operation does to the outside: the packets that it sends, and the
    frames that it releases. *)
Definition result : Type := t * list bytes * list FrameBuf.t.

Definition removeAll (l : t) : t * list FrameBuf.t := (set_entries [] l, Release <$> entries l).

(** [removeBefore(l.entries.Back())] *)
Definition removeBeforeBack (l : t) : t * list FrameBuf.t :=
  let n := (length (entries l) - 1)%nat in
  (set_entries (drop n (entries l)) l, Release <$> take n (entries l)).

Fixpoint removeProcessed_ (es : list FrameBuf.t) : list FrameBuf.t * list FrameBuf.t :=
  match es with
  | [] => ([], [])
  | e :: es =>
      let '(kept, freed) := removeProcessed_ es in
      if Processed e then (kept, Release e :: freed) else (e :: kept, freed)
  end.
Definition removeProcessed (l : t) : t * list FrameBuf.t :=
  let '(kept, freed) := removeProcessed_ (entries l) in (set_entries kept l, freed).

Definition insertFirst (frame : FrameBuf.t) (l : t) : outcome result :=
  '(frame, sent) ← ProcessCompletePkts frame;
  Ok (if negb (frag0Start frame =? 0) then (set_entries (entries l ++ [frame]) l, sent, [])
      else (l, sent, [Release frame])).

Definition intMin (x y : Z) : Z := if x <=? y then x else y.

(** The loop of [collectAndWrite]: the buffer, the frames whose bytes were taken,
    and the others. *)
Fixpoint collect (pktLen : Z) (buf : bytes) (es : list FrameBuf.t)
    : outcome (bytes * list FrameBuf.t * list FrameBuf.t) :=
  match es with
  | e :: es' =>
      if len buf <? pktLen then
        let missingBytes := pktLen - len buf in
        part ← sub (raw e) sigHdrSize (intMin (missingBytes + sigHdrSize) (frameLen e));
        '(buf, visited, rest) ← collect pktLen (buf ++ part) es';
        Ok (buf, set_fragN e :: visited, rest)
      else Ok (buf, [], es)
  | [] => Ok (buf, [], [])
  end.

(** The last of the frames in use; there is none when the first frame has all
    the bytes. *)
Fixpoint process_last (es : list FrameBuf.t) : outcome (list FrameBuf.t * list bytes) :=
  match es with
  | [] => Panic
  | [e] => '(e, sent) ← ProcessCompletePkts e; Ok ([e], sent)
  | e :: es => '(es, sent) ← process_last es; Ok (e :: es, sent)
  end.

Definition collectAndWrite (l : t) : outcome result :=
  match entries l with
  | [] => Panic
  | start :: es =>
      let n := pktLen start in
      first ← sub (raw start) (frag0Start start) (frameLen start);
      '(buf, visited, rest) ← collect n first es;
      let sent := if negb (len buf =? n) then [] else [buf] in
      '(visited, sent') ← process_last visited;
      let '(l, freed) := removeProcessed (set_entries (SetProcessed start :: visited ++ rest) l) in
      Ok (l, sent ++ sent', freed)
  end.

(** Whether a packet of [pktLen] bytes is there, from the bytes of its start. *)
Inductive reassembly := CanReassemble | FramingError | Incomplete.
Fixpoint find (pktLen bytes : Z) (es : list FrameBuf.t) : reassembly :=
  match es with
  | [] => Incomplete
  | e :: es =>
      let bytes := bytes + (frameLen e - sigHdrSize) in
      if pktLen <=? bytes then CanReassemble
      else if negb (index e =? 0xffff) then FramingError
      else find pktLen bytes es
  end.

Definition tryReassemble (l : t) : outcome result :=
  match entries l with
  | start :: (_ :: _) as es =>
      if frag0Start start =? 0 then let '(l, freed) := removeAll l in Ok (l, [], freed) else
      match find (pktLen start) (frameLen start - frag0Start start) es with
      | CanReassemble => collectAndWrite l
      | FramingError => let '(l, freed) := removeBeforeBack l in Ok (l, [], freed)
      | Incomplete => Ok (l, [], [])
      end
  | _ => Ok (l, [], [])
  end.

(** Starts again with the frame. *)
Definition restart (frame : FrameBuf.t) (l : t) : outcome result :=
  let '(l, freed) := removeAll l in
  '(l, sent, freed') ← insertFirst frame l;
  Ok (l, sent, freed ++ freed').

Definition Insert (frame : FrameBuf.t) (l : t) : outcome result :=
  match entries l, last (entries l) with
  | firstFrame :: _, Some lastFrame =>
      if seqNr frame <? seqNr firstFrame then Ok (l, [], [Release frame])
      else if (seqNr firstFrame <=? seqNr frame) && (seqNr frame <=? seqNr lastFrame) then Ok (l, [], [Release frame])
      else if u64 (seqNr lastFrame + 1) <? seqNr frame then restart frame l
      else if len (entries l) =? capacity l then restart frame l
      else tryReassemble (set_entries (entries l ++ [frame]) l)
  | _, _ => insertFirst frame l
  end.

End RList.

(** * worker.go *)
Module Worker.

Import Ring FrameBuf.

Definition reassemblyListCap : Z := 100.

(** [worker], without its device and its metrics. *)
Record t := mk {
  SessID : Z;
  Ring : Ring.t FrameBuf.t;
  rlists : gmap Z RList.t;
  markedForCleanup : bool
}.

Definition result : Type := t * list bytes * list FrameBuf.t.

Definition newWorker (sessID : Z) : t := mk sessID (Ring.New 64 None) ∅ false.

Definition set_rlists (m : gmap Z RList.t) (w : t) : t := mk (SessID w) (Ring w) m (markedForCleanup w).
Definition set_Ring (r : Ring.t FrameBuf.t) (w : t) : t := mk (SessID w) r (rlists w) (markedForCleanup w).
Definition mark (b : bool) (w : t) : t := mk (SessID w) (Ring w) (rlists w) b.
Definition Stop (w : t) : t := set_Ring (Ring.Close (Ring w)) w.

(** The list for an epoch: a new one if there is none. *)
Definition getRlist (epoch : Z) (w : t) : RList.t :=
  let l := default (RList.newReassemblyList epoch reassemblyListCap) (rlists w !! epoch) in
  RList.mk (RList.epoch l) (RList.capacity l) false (RList.entries l).

Definition processFrame (frame : FrameBuf.t) (w : t) : outcome result :=
  index ← (sub (raw frame) 2 4 ≫= Uint16);
  stream ← (sub (raw frame) 4 8 ≫= Uint32);
  let epoch := Z.land stream 0xfffff in
  seqNr ← (sub (raw frame) 8 16 ≫= Uint64);
  let frame := FrameBuf.mk (sessId frame) seqNr index (frameLen frame) (frag0Start frame) (frag0Processed frame)
                 (index =? 0) (index =? 0xffff) (pktLen frame) (raw frame) in
  '(l, sent, freed) ← RList.Insert frame (getRlist epoch w);
  Ok (set_rlists (<[epoch := l]> (rlists w)) w, sent, freed).

(** A list that was not used since the last cleanup is deleted, and its frames
    are released; the others are marked. *)
Definition cleanup_list (l : RList.t) : option RList.t :=
  if RList.markedForDeletion l then None
  else Some (RList.mk (RList.epoch l) (RList.capacity l) true (RList.entries l)).
Definition cleanup (w : t) : t * list FrameBuf.t :=
  (set_rlists (omap cleanup_list (rlists w)) w,
   '(_, l) ← map_to_list (rlists w); if RList.markedForDeletion l then Release <$> RList.entries l else []).

(** One round of [Run]: the frames that are in the ring, at most 64. *)
Fixpoint process_all (frames : list (option FrameBuf.t)) (w : t) : outcome result :=
  match frames with
  | [] => Ok (w, [], [])
  | None :: _ => Panic
  | Some frame :: frames =>
      '(w, sent, freed) ← processFrame frame w;
      '(w, sent', freed') ← process_all frames w;
      Ok (w, sent ++ sent', freed ++ freed')
  end.
Definition process_batch (cleanup_due : bool) (frames : list (option FrameBuf.t)) (w : t) : outcome result :=
  '(w, sent, freed) ← process_all frames w;
  if cleanup_due then let '(w, freed') := cleanup w in Ok (w, sent, freed ++ freed') else Ok (w, sent, freed).
Definition round (cleanup_due : bool) (w : t) : outcome (call (option result)) :=
  c ← Ring.Read 64 true (Ring w);
  match c with
  | Waits => Ok Waits
  | Returns (r, frames, n) =>
      if n <? 0 then Ok (Returns None) else
      res ← process_batch cleanup_due frames (set_Ring r w);
      Ok (Returns (Some res))
  end.

End Worker.

(** * ingressserver.go *)
Module IngressServer.

Import Ring FrameBuf.

(** The workers, by the text of the source (ISD-AS and host) and the session. *)
Record t := mk { workers : gmap (string * Z) Worker.t }.

(** [dispatch]; [device] is whether the device manager has a device for the
    source.  A worker whose ring is full is waited for. *)
Definition dispatch (device : bool) (src : string) (frame : FrameBuf.t) (d : t) : outcome (call t) :=
  let key := (src, sessId frame) in
  match (match workers d !! key with
         | Some w => Some w
         | None => if device then Some (Worker.newWorker (sessId frame)) else None
         end) with
  | None => Ok (Returns d)
  | Some w =>
      c ← Ring.Write [frame] true (Worker.Ring w);
      Ok (match c with
          | Waits => Waits
          | Returns (r, _) => Returns (mk (<[key := Worker.set_Ring r (Worker.mark false w)]> (workers d)))
          end)
  end.

(** One frame of the loop of [read], into which [datagram] was read; [None] when
    reading failed.  The frames that are released. *)
Definition receive (device : bool) (src : string) (datagram : option bytes) (frame : FrameBuf.t) (d : t)
    : outcome (call (t * list FrameBuf.t)) :=
  match datagram with
  | None => Ok (Returns (d, [Release frame]))
  | Some b =>
      let raw := copy (raw frame) b in
      let frame := FrameBuf.mk (sessId frame) (seqNr frame) (index frame) (frameLen frame) (frag0Start frame)
                     (frag0Processed frame) (fragNProcessed frame) (completePktsProcessed frame) (pktLen frame) raw in
      let read := Z.min (len b) (len raw) in
      if read <? sigHdrSize then Ok (Returns (d, [Release frame])) else
      version ← get raw 0;
      if negb (version =? 0) then Ok (Returns (d, [Release frame])) else
      sessId ← get raw 1;
      let frame := FrameBuf.mk sessId (seqNr frame) (index frame) read (frag0Start frame)
                     (frag0Processed frame) (fragNProcessed frame) (completePktsProcessed frame) (pktLen frame) raw in
      c ← dispatch device src frame d;
      Ok (match c with Waits => Waits | Returns d => Returns (d, []) end)
  end.

Definition cleanup (d : t) : t * list Worker.t :=
  (mk (omap (λ w, if Worker.markedForCleanup w then None else Some (Worker.mark true w)) (workers d)),
   '(_, w) ← map_to_list (workers d); if Worker.markedForCleanup w then [Worker.Stop w] else []).

End IngressServer.
