(* ===== verification/TunnelSender.v ===== *)
(** What the encoder of the tunnel makes: Module [TunnelSender] states what a
    sequence of frames is, packet by packet, and shows that every run of the
    encoder, with writers between its steps, makes such a sequence. *)
From S2P Require Export Tunnel.

Module TunnelSender.

Import Ring Encoder RingProperties.

(** * The steps of the encoder *)

(** Between two calls of [Read], in its loop, and after it returned nil. *)
Inductive phase := Idle | Filling (indexSet : bool) | Stopped.

Definition state_of (p : progress) : Encoder.t := match p with More _ e | Blocks _ e | Return _ e => e end.
Definition phase_of (p : progress) : phase :=
  match p with More i _ | Blocks i _ => Filling i | Return (Some _) _ => Idle | Return None _ => Stopped end.
Definition frames_of (p : progress) : list bytes := match p with Return (Some f) _ => [f] | _ => [] end.

(** The packet, if the ring takes it. *)
Definition accepted (p : bytes) (e : Encoder.t) : list bytes :=
  match PktRing.Write p false (ring e) with
  | Ok (Returns (_, n)) => if n =? 1 then [p] else []
  | _ => []
  end.

(** A run: the state, the packets that the ring took, and the frames, in order.
    Writers and [Close] come between any two iterations of the reader's loop. *)
Inductive run (sess stream mtu : Z) : Encoder.t → phase → list bytes → list bytes → Prop :=
| run_new : run sess stream mtu (newEncoder sess stream mtu) Idle [] []
| run_write e ph acc fs p e' :
    run sess stream mtu e ph acc fs → Write p e = Ok (Returns e') →
    run sess stream mtu e' ph (acc ++ accepted p e) fs
| run_close e ph acc fs :
    run sess stream mtu e ph acc fs → run sess stream mtu (Close e) ph acc fs
| run_start e acc fs p :
    run sess stream mtu e Idle acc fs → start e = Ok p →
    run sess stream mtu (state_of p) (phase_of p) acc (fs ++ frames_of p)
| run_iterate e i acc fs p :
    run sess stream mtu e (Filling i) acc fs → iterate i e = Ok p →
    run sess stream mtu (state_of p) (phase_of p) acc (fs ++ frames_of p).

(** Runs by program: a write, a close, a step of the reader. *)
Inductive action := Writes (p : bytes) | Closes | Reads.
Definition perform (a : action) (s : Encoder.t * phase * list bytes * list bytes)
    : option (Encoder.t * phase * list bytes * list bytes) :=
  let '(e, ph, acc, fs) := s in
  match a with
  | Writes p => match Write p e with Ok (Returns e') => Some (e', ph, acc ++ accepted p e, fs) | _ => None end
  | Closes => Some (Close e, ph, acc, fs)
  | Reads =>
      match (match ph with Idle => start e | Filling i => iterate i e | Stopped => Panic end) with
      | Ok p => Some (state_of p, phase_of p, acc, fs ++ frames_of p)
      | _ => None
      end
  end.
Fixpoint perform_all (l : list action) (s : Encoder.t * phase * list bytes * list bytes) :=
  match l with [] => Some s | a :: l => match perform a s with Some s => perform_all l s | None => None end end.

Lemma perform_all_run sess stream mtu l e ph acc fs e' ph' acc' fs' :
  run sess stream mtu e ph acc fs → perform_all l (e, ph, acc, fs) = Some (e', ph', acc', fs') →
  run sess stream mtu e' ph' acc' fs'.
Proof.
  revert e ph acc fs. induction l as [|a l IH]; intros e ph acc fs Hr; cbn [perform_all]; [by intros [= <- <- <- <-]|].
  destruct (perform a (e, ph, acc, fs)) as [[[[e1 ph1] acc1] fs1]|] eqn:E; [|done]. apply IH. revert E.
  destruct a as [p| |]; cbn [perform].
  - destruct (Write p e) as [[|e2]| |] eqn:Ew; try done. intros [= <- <- <- <-]. by apply run_write.
  - intros [= <- <- <- <-]. by apply run_close.
  - destruct ph as [|i|]; [| |done].
    + destruct (start e) eqn:Es; try done. intros [= <- <- <- <-]. by apply (run_start _ _ _ e).
    + destruct (iterate i e) eqn:Es; try done. intros [= <- <- <- <-]. by apply (run_iterate _ _ _ e i).
Qed.

(** * Sequences of frames *)

Definition is_valid (p : bytes) : bool := match valid_packet p with Ok b => b | _ => false end.

(** A packet between two frames: the bytes in the frames before, and the others.
    There is none when no bytes are left. *)
Definition cut : Type := bytes * bytes.
Definition pending (c : cut) : list bytes := if bool_decide (c.2 = []) then [] else [c.1 ++ c.2].
Definition cut_ok (c : cut) : Prop :=
  c = ([], []) ∨ c.2 ≠ [] ∧ 40 ≤ len c.1 ∧ is_valid (c.1 ++ c.2) = true.

(** A frame: its payload, the index of the first packet that starts in it, the
    packets that start and end in it, and those that end in it. *)
Record desc := mkDesc {
  before : cut;
  payload : bytes;
  index : Z;
  inner : list bytes;
  ended : list bytes;
  after : cut
}.

Definition start_index (rest frag : bytes) (ps : list bytes) : Z :=
  if bool_decide (ps = [] ∧ frag = []) then 0xffff else len rest.

(** A frame is full of a packet that goes on, or it has the end of the packet
    before, packets, and the start of the next one. *)
Inductive framing (mtu : Z) : desc → Prop :=
| framing_inside old part rest :
    rest ≠ [] → len part = mtu - hdrLen → len part ≤ mtu - hdrLen →
    framing mtu (mkDesc (old, part ++ rest) part 0xffff [] [] (old ++ part, rest))
| framing_across c ps frag rest :
    forallb is_valid ps = true → cut_ok (frag, rest) → len (c.2 ++ concat ps ++ frag) ≤ mtu - hdrLen →
    framing mtu (mkDesc c (c.2 ++ concat ps ++ frag) (start_index c.2 frag ps) ps (pending c ++ ps) (frag, rest)).

Inductive linked (mtu : Z) : list desc → cut → Prop :=
| linked_nil : linked mtu [] ([], [])
| linked_snoc ds d : linked mtu ds (before d) → framing mtu d → linked mtu (ds ++ [d]) (after d).

(** The bytes of the frame number [k]. *)
Definition frame_bytes (sess stream : Z) (k : nat) (d : desc) : bytes :=
  header sess stream (u64 (Z.of_nat k)) (index d) ++ payload d.

(** * The invariant of the encoder *)

Definition filling (sess stream mtu : Z) (i : bool) (e : Encoder.t) (ds : list desc) (c : cut) (ps : list bytes) : Prop :=
  seq e = u64 (len ds + 1) ∧ forallb is_valid ps = true ∧
  frame e = header sess stream (u64 (len ds)) (start_index c.2 [] ps) ++ c.2 ++ concat ps ∧
  i = negb (bool_decide (ps = [])) ∧ len (frame e) ≤ mtu ∧ (pkt e = [] ∨ 40 ≤ mtu - len (frame e)).

Definition phase_inv (sess stream mtu : Z) (ph : phase) (e : Encoder.t) (ds : list desc) (c : cut) (ps : list bytes) : Prop :=
  match ph with
  | Idle => seq e = u64 (len ds) ∧ pkt e = c.2 ∧ ps = []
  | Filling i => filling sess stream mtu i e ds c ps
  | Stopped => ps = [] ∧ c = ([], [])
  end.

Record inv (sess stream mtu : Z) (e : Encoder.t) (ph : phase) (acc fs : list bytes)
    (ds : list desc) (c : cut) (ps got q : list bytes) : Prop := {
  inv_sess : sessionID e = sess;
  inv_stream : streamID e = stream;
  inv_mtu : Encoder.mtu e = mtu;
  inv_acc : acc = got ++ q;
  inv_ring : holds (ring e) q;
  inv_linked : linked mtu ds c;
  inv_frames : fs = imap (frame_bytes sess stream) ds;
  inv_got : filter (λ p, is_valid p = true) got = concat (ended <$> ds) ++ pending c ++ ps;
  inv_phase : phase_inv sess stream mtu ph e ds c ps;
  inv_stopped : ph = Stopped → q = [] ∧ closed (PktRing.ring (ring e)) = true
}.

Lemma len_zero {A} (l : list A) : len l ≤ 0 → l = [].
Proof. destruct l; [done|]. rewrite len_cons. pose proof (len_nonneg l). lia. Qed.

Lemma len_pos {A} (l : list A) : l ≠ [] → 0 < len l.
Proof. destruct l; [done|]. rewrite len_cons. pose proof (len_nonneg l). lia. Qed.

Lemma len_header sess stream k i : len (header sess stream k i) = hdrLen.
Proof. reflexivity. Qed.

Lemma linked_cut_ok mtu ds c : linked mtu ds c → cut_ok c.
Proof.
  induction 1 as [|ds d H IH Hf]; [by left|]. destruct Hf as [old part rest Hr Hl|c ps frag rest Hps Hc]; cbn in *; [|done].
  right. cbn. destruct IH as [[= -> [? ->]%app_nil]|(_ & Hd & Hv)]; [done|]. cbn in *.
  split; [done|]. rewrite <- app_assoc. split; [|done]. rewrite len_app. pose proof (len_nonneg part). lia.
Qed.

Lemma valid_packet_total p : valid_packet p = Ok (is_valid p).
Proof.
  unfold is_valid. destruct (valid_packet p) as [b|err|] eqn:E; [done|exfalso..]; revert E; unfold valid_packet.
  all: destruct p as [|b p]; [done|]; rewrite len_cons; pose proof (len_nonneg p);
    replace (1 + len p =? 0) with false by lia; cbn [get]; go_cbn.
  all: change (get (b :: p) 0) with (Ok b); go_cbn;
    repeat match goal with
    | |- context [if ?c then _ else _] => destruct c eqn:?
    | |- context [sub ?l ?a ?b] => rewrite (sub_Ok l a b) by (rewrite ?len_cons; lia); go_cbn
    | |- context [Uint16 ?l] => unfold Uint16; rewrite get_be_Ok by (rewrite len_take, len_drop, len_cons; lia); go_cbn
    end; try done.
Qed.

Lemma valid_nonempty p : is_valid p = true → p ≠ [].
Proof. intros H ->. discriminate H. Qed.

(** Copying: all of the packet, or what fits. *)
Lemma copy_all e : len (frame e) + len (pkt e) ≤ Encoder.mtu e →
  copyToFrame e = Ok (set_pkt [] (set_frame (frame e ++ pkt e) e), len (pkt e)).
Proof.
  intros H. unfold copyToFrame. replace (if _ : bool then _ else _) with (len (pkt e)) by (destruct (_ <? _) eqn:?; lia).
  rewrite sub_whole by done. unfold sub_from. pose proof (len_nonneg (pkt e)).
  go_cbn. rewrite sub_Ok by lia. go_cbn. rewrite Z.sub_diag. done.
Qed.
Lemma copy_part e a b : pkt e = a ++ b → len a = Encoder.mtu e - len (frame e) →
  copyToFrame e = Ok (set_pkt b (set_frame (frame e ++ a) e), len a).
Proof.
  intros Hp Ha. unfold copyToFrame. rewrite Hp, len_app. pose proof (len_nonneg a). pose proof (len_nonneg b).
  replace (if _ : bool then _ else _) with (len a) by (destruct (_ <? _) eqn:?; lia).
  rewrite sub_prefix by done. unfold sub_from. go_cbn. rewrite sub_suffix by (rewrite ?len_app; lia). done.
Qed.

Section sender.
Context (sess stream mtu : Z).

Lemma inv_new : inv sess stream mtu (newEncoder sess stream mtu) Idle [] [] [] ([], []) [] [] [].
Proof. split; try done; [apply holds_new|constructor]. Qed.

Lemma Write_inv e ph acc fs ds c ps got q p :
  inv sess stream mtu e ph acc fs ds c ps got q →
  ∃ e' q', Write p e = Ok (Returns e') ∧ inv sess stream mtu e' ph (acc ++ accepted p e) fs ds c ps got q'.
Proof.
  intros [H1 H2 H3 Hacc Hring Hl Hf Hg Hph Hs]. unfold Write, accepted.
  destruct (closed (PktRing.ring (ring e))) eqn:Hc.
  - destruct (PktRing_Write_closed _ _ p false Hring Hc) as (r & -> & Hr & Hc'). go_cbn.
    exists (set_ring r e), q. split; [done|]. rewrite app_nil_r. split; try done.
    intros ->. by destruct (Hs eq_refl).
  - destruct (PktRing_Write_spec _ _ p Hring Hc) as (r & n & -> & Hc' & Hn & _). go_cbn.
    assert (ph ≠ Stopped) as Hns by (intros ->; destruct (Hs eq_refl); congruence).
    destruct Hn as [[-> Hr]|[-> Hr]].
    + exists (set_ring r e), (q ++ [p]). split; [done|]. split; try done.
      cbn. by rewrite Hacc, app_assoc.
    + exists (set_ring r e), q. split; [done|]. cbn. rewrite app_nil_r. by split.
Qed.

Lemma Close_inv e ph acc fs ds c ps got q :
  inv sess stream mtu e ph acc fs ds c ps got q → inv sess stream mtu (Close e) ph acc fs ds c ps got q.
Proof.
  intros [H1 H2 H3 Hacc Hring Hl Hf Hg Hph Hs]. split; try done; [by apply holds_Close|].
  intros ->. by destruct (Hs eq_refl).
Qed.

Lemma frames_snoc ds d :
  imap (frame_bytes sess stream) (ds ++ [d]) =
  imap (frame_bytes sess stream) ds ++ [header sess stream (u64 (len ds)) (index d) ++ payload d].
Proof. rewrite imap_app. cbn. by rewrite Nat.add_0_r. Qed.

Lemma start_inv e acc fs ds c ps got q :
  hdrLen ≤ mtu → inv sess stream mtu e Idle acc fs ds c ps got q →
  ∃ p ds' c', start e = Ok p ∧ inv sess stream mtu (state_of p) (phase_of p) acc (fs ++ frames_of p) ds' c' [] got q.
Proof.
  intros Hmtu [H1 H2 H3 Hacc Hring Hl Hf Hg (Hseq & Hpkt & ->) Hs]. unfold start. rewrite H1, H2, H3, Hseq.
  replace (mtu <? hdrLen) with false by lia. cbn [set_seq set_frame pkt]. destruct c as [old rest]. cbn [snd] in *.
  set (e' := set_seq _ _).
  assert (frame e' = header sess stream (u64 (len ds)) 0xffff) as Hf' by done.
  assert (seq e' = u64 (len ds + 1)) as Hs' by (cbn; unfold uint_of; by rewrite Zplus_mod_idemp_l).
  assert (pkt e' = rest ∧ Encoder.mtu e' = mtu) as [Hp' Hm'] by done.
  assert (len (frame e') = hdrLen) as Hlen by (by rewrite Hf').
  rewrite Hpkt. destruct (decide (rest = [])) as [->|Hr].
  { cbn [len]. change (0 <? len []) with false. cbv iota. exists (More false e'), ds, (old, []). split; [done|].
    cbn [state_of phase_of frames_of]. rewrite app_nil_r. split; try done.
    cbn [phase_inv]. unfold filling. split_and!; try done; by left. }
  assert (0 < len rest) as Hpos by (by apply len_pos).
  replace (0 <? len rest) with true by lia. destruct (decide (len rest ≤ mtu - hdrLen)) as [Hfit|Hfit].
  - rewrite copy_all by (rewrite Hlen, Hp', Hm'; lia). go_cbn. cbn [set_pkt set_frame pkt]. change (0 <? len []) with false.
    cbv iota. eexists (More false _), ds, (old, rest). split; [done|].
    cbn [state_of phase_of frames_of]. rewrite app_nil_r. split; try done.
    cbn [phase_inv]. unfold filling. split_and!; try done; cbn [frame set_pkt set_frame pkt];
      [by rewrite Hp', Hf', app_nil_r|rewrite len_app, Hlen, Hp'; lia|by left].
  - destruct (split_len (mtu - hdrLen) rest) as (a & b & -> & Ha & Hb); [lia|].
    rewrite (copy_part e' a b) by (rewrite ?Hlen, ?Hm'; done). go_cbn. cbn [set_pkt set_frame pkt].
    rewrite len_app in *. replace (0 <? len b) with true by lia.
    set (d := mkDesc (old, a ++ b) a 0xffff [] [] (old ++ a, b)).
    assert (b ≠ []) as Hb0 by (intros ->; rewrite len_nil in *; lia).
    eexists (Return (Some _) _), (ds ++ [d]), (old ++ a, b). split; [done|]. cbn [state_of phase_of frames_of].
    split; try done.
    + apply (linked_snoc mtu ds d); [done|]. apply framing_inside; [done|lia..].
    + by rewrite frames_snoc, Hf.
    + rewrite Hg, fmap_app, concat_app. cbn. rewrite !app_nil_r. f_equal. unfold pending. cbn.
      rewrite !bool_decide_eq_false_2 by (try done; by intros [-> _]%app_nil). by rewrite app_assoc.
    + split_and!; try done. rewrite len_app. cbn [seq set_frame set_pkt]. rewrite Hs'. done.
Qed.

(** A frame is complete. *)
Lemma emit e acc fs ds c ps got q frag rest :
  sessionID e = sess → streamID e = stream → Encoder.mtu e = mtu →
  seq e = u64 (len ds + 1) → pkt e = rest → acc = got ++ q → holds (ring e) q →
  linked mtu ds c → fs = imap (frame_bytes sess stream) ds →
  forallb is_valid ps = true → cut_ok (frag, rest) → len (c.2 ++ concat ps ++ frag) ≤ mtu - hdrLen →
  filter (λ p, is_valid p = true) got = concat (ended <$> ds) ++ pending c ++ ps ++ pending (frag, rest) →
  ∃ ds', inv sess stream mtu e Idle acc
    (fs ++ [header sess stream (u64 (len ds)) (start_index c.2 frag ps) ++ c.2 ++ concat ps ++ frag]) ds' (frag, rest) [] got q.
Proof.
  intros. subst fs. exists (ds ++ [mkDesc c (c.2 ++ concat ps ++ frag) (start_index c.2 frag ps) ps (pending c ++ ps) (frag, rest)]).
  split; try done.
  - by apply (linked_snoc mtu ds), framing_across.
  - by rewrite frames_snoc.
  - rewrite fmap_app, concat_app. cbn. rewrite !app_nil_r, <- !app_assoc. done.
  - split_and!; try done. by rewrite len_app.
Qed.

Lemma concat_valid_nil ps : forallb is_valid ps = true → concat ps = [] → ps = [].
Proof.
  destruct ps as [|p ps]; [done|]. cbn. intros [Hp _]%andb_prop [E _]%app_nil. by apply valid_nonempty in Hp.
Qed.

(** A packet was read, and the frame is still open. *)
Definition reading (e : Encoder.t) (i : bool) (ds : list desc) (c : cut) (ps : list bytes) : Prop :=
  sessionID e = sess ∧ streamID e = stream ∧ Encoder.mtu e = mtu ∧ seq e = u64 (len ds + 1) ∧
  forallb is_valid ps = true ∧
  frame e = header sess stream (u64 (len ds)) (start_index c.2 [] ps) ++ c.2 ++ concat ps ∧
  i = negb (bool_decide (ps = [])) ∧ len (frame e) ≤ mtu - 40.

Lemma put_index k i v x :
  on_sub (header sess stream k i ++ x) indexPos (indexPos + 2) (λ b, PutUint16 b v) = Ok (header sess stream k v ++ x).
Proof.
  unfold header. rewrite <- !app_assoc.
  rewrite (on_sub_mid [0; sess] (be_bytes 2 i)) by (rewrite ?len_be_bytes; done).
  unfold PutUint16. rewrite put_be_Ok by (rewrite len_be_bytes; done). rewrite drop_ge by (by rewrite length_be_bytes).
  go_cbn. by rewrite app_nil_r.
Qed.

Lemma start_index_some rest frag ps : ps ≠ [] ∨ frag ≠ [] → start_index rest frag ps = len rest.
Proof. intros H. unfold start_index. rewrite bool_decide_eq_false_2; [done|]. naive_solver. Qed.

(** The index is set when the first packet is put into the frame. *)
Lemma set_index e i ds c ps :
  mtu < 65536 → reading e i ds c ps →
  (if i then Ok e
   else f ← on_sub (frame e) indexPos (indexPos + 2) (λ b, PutUint16 b (u16 (len (frame e) - hdrLen)));
        Ok (set_frame f e)) =
  Ok (set_frame (header sess stream (u64 (len ds)) (len c.2) ++ c.2 ++ concat ps) e).
Proof.
  intros Hm (_ & _ & _ & _ & Hps & Hf & -> & Hl). destruct ps as [|p ps].
  - rewrite bool_decide_eq_true_2 by done. cbn [negb concat]. rewrite Hf. cbn [concat]. rewrite put_index. go_cbn.
    rewrite Hf in Hl. rewrite !len_app, len_header in *. cbn [concat] in *. rewrite len_nil in *. pose proof (len_nonneg c.2).
    replace (hdrLen + (len c.2 + 0) - hdrLen) with (len c.2) by lia. rewrite (uint_of_small 16) by (split; [lia|change (2 ^ 16) with 65536; unfold hdrLen in *; lia]). done.
  - rewrite bool_decide_eq_false_2 by done. cbn [negb].
    rewrite start_index_some in Hf by (by left). rewrite <- Hf. by destruct e.
Qed.

(** A valid packet goes into the frame, all of it or its start. *)
Lemma take_packet e i acc fs ds c ps got q p :
  mtu < 65536 → reading e i ds c ps → pkt e = p → is_valid p = true →
  acc = got ++ q → holds (ring e) q → linked mtu ds c → fs = imap (frame_bytes sess stream) ds →
  filter (λ p, is_valid p = true) got = concat (ended <$> ds) ++ pending c ++ ps ++ [p] →
  ∃ e' n pr ds' c' ps',
    copyToFrame (set_frame (header sess stream (u64 (len ds)) (len c.2) ++ c.2 ++ concat ps) e) = Ok (e', n) ∧
    pr = (if 0 <? len (pkt e') then Return (Some (frame e')) e' else More true e') ∧
    inv sess stream mtu (state_of pr) (phase_of pr) acc (fs ++ frames_of pr) ds' c' ps' got q.
Proof.
  intros Hm (H1 & H2 & H3 & Hseq & Hps & Hf & Hi & Hl) Hp Hv Hacc Hring Hlk Hfs Hg.
  assert (len (frame e) = hdrLen + len (c.2 ++ concat ps)) as Hlen by (by rewrite Hf, len_app, len_header).
  destruct (decide (len p ≤ mtu - len (frame e))) as [Hfit|Hfit].
  - rewrite copy_all by (cbn [frame pkt set_frame Encoder.mtu]; rewrite Hp, H3, len_app, len_header; lia).
    eexists _, _, _, ds, c, (ps ++ [p]). split; [done|]. split; [done|]. cbn [pkt set_pkt]. change (0 <? len []) with false.
    cbv iota. cbn [state_of phase_of frames_of]. rewrite app_nil_r. split; try done.
    cbn [phase_inv]. unfold filling. cbn [frame set_frame set_pkt pkt Encoder.mtu]. split_and!; try done.
    + rewrite forallb_app, Hps. cbn. by rewrite Hv.
    + rewrite start_index_some by (left; by destruct ps). rewrite concat_app, <- !app_assoc, Hp. cbn. by rewrite app_nil_r.
    + rewrite bool_decide_eq_false_2; [done|]. by destruct ps.
    + rewrite len_app, len_app, len_header, Hp. lia.
    + by left.
  - destruct (split_len (mtu - len (frame e)) p) as (a & b & -> & Ha & Hb); [pose proof (len_nonneg p); lia|].
    rewrite (copy_part _ a b) by (cbn [pkt frame set_frame Encoder.mtu]; first [done|rewrite H3, len_app, len_header; lia]).
    rewrite len_app in *.
    assert (a ≠ [] ∧ b ≠ []) as [Ha0 Hb0] by (split; intros ->; rewrite len_nil in *; lia).
    edestruct (emit (set_pkt b (set_frame ((header sess stream (u64 (len ds)) (len c.2) ++ c.2 ++ concat ps) ++ a) e))
                acc fs ds c ps got q a b) as (ds' & Hinv); try done.
    + right. cbn. split; [done|]. split; [lia|done].
    + rewrite app_assoc, !len_app in *. lia.
    + rewrite Hg. do 3 f_equal. unfold pending. cbn. by rewrite bool_decide_eq_false_2.
    + eexists _, _, _, ds', (a, b), []. split; [done|]. split; [done|]. cbn [pkt set_pkt set_frame].
      replace (0 <? len b) with true by lia. cbv iota. cbn [state_of phase_of frames_of].
      rewrite start_index_some in Hinv by (by right). cbn [frame set_pkt set_frame]. by rewrite <- !app_assoc in *.
Qed.

Lemma iterate_inv e i acc fs ds c ps got q :
  mtu < 65536 → inv sess stream mtu e (Filling i) acc fs ds c ps got q →
  ∃ p ds' c' ps' got' q', iterate i e = Ok p ∧
    inv sess stream mtu (state_of p) (phase_of p) acc (fs ++ frames_of p) ds' c' ps' got' q'.
Proof.
  intros Hm [H1 H2 H3 Hacc Hring Hl Hf Hg (Hseq & Hps & Hfr & Hi & Hlen & Hpk) _]. unfold iterate. rewrite H3.
  assert (∀ e', sessionID e' = sess → streamID e' = stream → Encoder.mtu e' = mtu → seq e' = u64 (len ds + 1) →
     pkt e' = [] → frame e' = frame e → holds (ring e') q →
     ∃ ds', inv sess stream mtu e' Idle acc (fs ++ [frame e']) ds' ([], []) [] got q) as Hemit.
  { intros e' E1 E2 E3 E4 E5 E6 Hh. rewrite E6, Hfr. destruct (emit e' acc fs ds c ps got q [] []) as (ds' & Hinv); try done.
    - by left.
    - by rewrite Hfr, !len_app, len_header in Hlen; rewrite app_nil_r, len_app; lia.
    - unfold pending at 2. cbn. rewrite app_nil_r. done.
    - exists ds'. by rewrite app_nil_r in Hinv. }
  destruct (mtu - len (frame e) <? 40) eqn:Hfull.
  { destruct Hpk as [Hpk|]; [|lia]. destruct (Hemit e) as (ds' & Hinv); try done.
    exists (Return (Some (frame e)) e), ds', ([], []), [], got, q. by split. }
  pose proof (PktRing_Read_spec _ _ (len (frame e) =? hdrLen) Hring) as Hread. destruct q as [|p q].
  - destruct (closed (PktRing.ring (ring e))) eqn:Hc; [|destruct (len (frame e) =? hdrLen) eqn:Hb].
    + destruct Hread as (r & -> & Hr & Hc'). go_cbn. cbn [Z.eqb]. change (-1 =? -1) with true. cbv iota.
      destruct (len (frame e) =? hdrLen) eqn:Hb.
      * assert (c.2 = [] ∧ ps = []) as [Hc2 ->].
        { rewrite Hfr, !len_app, len_header in Hb. pose proof (len_nonneg c.2). pose proof (len_nonneg (concat ps)).
          split; [apply len_zero; lia|apply concat_valid_nil; [done|apply len_zero; lia]]. }
        pose proof (linked_cut_ok _ _ _ Hl) as [->|[? _]]; [|done].
        eexists (Return None _), ds, ([], []), [], got, []. split; [done|]. cbn [state_of phase_of frames_of].
        rewrite app_nil_r. by split.
      * destruct (Hemit (set_pkt [] (set_ring r e))) as (ds' & Hinv); try done.
        eexists (Return (Some _) _), ds', ([], []), [], got, []. by split.
    + rewrite Hread. go_cbn. exists (Blocks i e), ds, c, ps, got, []. split; [done|]. cbn [state_of phase_of frames_of].
      rewrite app_nil_r. by split.
    + destruct Hread as (r & -> & Hr & Hc'). go_cbn. cbn [Z.eqb].
      destruct (Hemit (set_pkt [] (set_ring r e))) as (ds' & Hinv); try done.
      eexists (Return (Some _) _), ds', ([], []), [], got, []. by split.
  - destruct Hread as (r & -> & Hr & Hc'). go_cbn. change (1 =? 0) with false. change (1 =? -1) with false. cbv iota.
    rewrite valid_packet_total. go_cbn. destruct (is_valid p) eqn:Hv; cbn [negb].
    + assert (reading (set_pkt p (set_ring r e)) i ds c ps) as Hrd by (split_and!; try done; cbn; lia).
      change (frame e) with (frame (set_pkt p (set_ring r e))). rewrite (set_index _ _ ds c ps) by done. go_cbn.
      destruct (take_packet (set_pkt p (set_ring r e)) i acc fs ds c ps (got ++ [p]) q p)
        as (e' & n & pr & ds' & c' & ps' & -> & Hpr & Hinv); try done.
      * by rewrite Hacc, <- app_assoc.
      * rewrite filter_app, Hg, <- !app_assoc. do 3 f_equal. rewrite filter_cons. by rewrite decide_True.
      * exists pr, ds', c', ps', (got ++ [p]), q. split; [by rewrite Hpr|done].
    + exists (More i (set_pkt p (set_ring r e))), ds, c, ps, (got ++ [p]), q. split; [done|].
      cbn [state_of phase_of frames_of]. rewrite app_nil_r. split; try done.
      * by rewrite Hacc, <- app_assoc.
      * rewrite filter_app, Hg, filter_cons, decide_False by congruence. by rewrite filter_nil, app_nil_r.
      * cbn [phase_inv]. unfold filling. split_and!; try done. right. cbn. lia.
Qed.

(** Every run keeps the invariant, and each of its steps is possible. *)
Lemma run_inv e ph acc fs :
  hdrLen ≤ mtu < 65536 → run sess stream mtu e ph acc fs →
  ∃ ds c ps got q, inv sess stream mtu e ph acc fs ds c ps got q.
Proof.
  intros Hm. induction 1 as [|e ph acc fs p e' _ (ds & c & ps & got & q & H) He|e ph acc fs _ (ds & c & ps & got & q & H)
    |e acc fs p _ (ds & c & ps & got & q & H) Hp|e i acc fs p _ (ds & c & ps & got & q & H) Hp].
  - eexists _, _, _, _, _. apply inv_new.
  - apply (Write_inv _ _ _ _ _ _ _ _ _ p) in H as (e1 & q' & E & H). rewrite He in E. simplify_eq. eauto 10.
  - eexists _, _, _, _, _. by apply Close_inv.
  - apply start_inv in H as (p' & ds' & c' & E & H); [|lia]. rewrite Hp in E. simplify_eq. eauto 10.
  - apply iterate_inv in H as (p' & ds' & c' & ps' & got' & q' & E & H); [|lia]. rewrite Hp in E. simplify_eq. eauto 10.
Qed.
End sender.

End TunnelSender.
