(* ===== verification/TunnelProperties.v ===== *)
(** The two ends of the tunnel together: Module [TunnelReceiver] follows the frames
    of an encoder through the reassembly list of a worker, in any order; Module
    [TunnelProperties] states what comes out of the tunnel. *)
From S2P Require Export TunnelSender.

Module TunnelReceiver.

Import Ring Encoder RingProperties FrameBuf TunnelSender.

(** * Parsing frames *)

Lemma sub_shift {A} (pre a b c : list A) lo hi :
  0 ≤ lo ≤ hi → hi ≤ len a → sub (pre ++ a ++ c) (len pre + lo) (len pre + hi) = sub (a ++ b) lo hi.
Proof.
  intros. pose proof (len_nonneg b). pose proof (len_nonneg c). rewrite !sub_Ok by (rewrite ?len_app; pose proof (len_nonneg pre); lia).
  f_equal. replace (len pre + hi - (len pre + lo)) with (hi - lo) by lia.
  rewrite drop_app_ge by (unfold len in *; lia). replace (Z.to_nat (len pre + lo) - length pre)%nat with (Z.to_nat lo) by (unfold len; lia).
  rewrite !drop_app_le by (unfold len in *; lia).
  rewrite !take_app_le by (rewrite length_drop; unfold len in *; lia). done.
Qed.

(** The start of a valid packet gives its length. *)
Lemma packet_len_spec fb pre a b c :
  is_valid (a ++ b) = true → (b = [] ∨ 40 ≤ len a) →
  raw fb = pre ++ a ++ c → len pre + len a ≤ frameLen fb →
  packet_len fb (len pre) = Ok (Some (len (a ++ b))).
Proof.
  intros Hv Hb Hraw Hl. pose proof (valid_packet_total (a ++ b)) as Hp. rewrite Hv in Hp. revert Hp.
  unfold valid_packet, packet_len. rewrite Hraw.
  destruct a as [|x a]; [destruct Hb as [->|]; [done|rewrite len_nil in *; lia]|].
  destruct (len ((x :: a) ++ b) =? 0) eqn:E0; [done|].
  change (get ((x :: a) ++ b) 0) with (Ok x). go_cbn.
  rewrite (get_app pre x (a ++ c)) by done. go_cbn.
  pose proof (len_nonneg b). rewrite len_app.
  assert (len b = 0 ∨ 40 ≤ len (x :: a)) as Hb' by (destruct Hb as [->|]; [by left|by right]).
  destruct (Z.shiftr x 4 =? 4); [|destruct (Z.shiftr x 4 =? 6); [|done]].
  - destruct (_ <? 20) eqn:E1; [done|]. replace (frameLen fb - len pre <? 20) with false by lia.
    rewrite (sub_shift pre (x :: a) b) by lia. intros Hn%bind_Ok. destruct Hn as (n & -> & [= Hn]). go_cbn.
    replace (n <? 20) with false by lia. do 2 f_equal. lia.
  - destruct (_ <? 40) eqn:E1; [done|]. replace (frameLen fb - len pre <? 40) with false by lia.
    rewrite (sub_shift pre (x :: a) b) by lia. intros Hn%bind_Ok. destruct Hn as (n & -> & [= Hn]). go_cbn.
    do 2 f_equal. lia.
Qed.

Lemma scan_spec fuel fb pre ps frag rest stale n0 :
  forallb is_valid ps = true → cut_ok (frag, rest) →
  raw fb = pre ++ concat ps ++ frag ++ stale → frameLen fb = len pre + len (concat ps) + len frag →
  (length ps < fuel)%nat →
  ∃ n, scan fuel fb (len pre) n0 = Ok (Some (len pre + len (concat ps), n), ps) ∧ (frag ≠ [] → n = len frag + len rest).
Proof.
  revert pre ps n0. induction fuel as [|fuel IH]; intros pre ps n0 Hps Hc Hraw Hlen Hfuel; [lia|]. cbn [scan].
  pose proof (len_nonneg frag). destruct ps as [|p ps].
  - cbn [concat] in *. rewrite len_nil, Z.add_0_r in *.
    destruct Hc as [[= -> ->]|(Hr & H40 & Hv)]; cbn [fst snd] in *.
    + rewrite len_nil in *. replace (_ <? _) with false by lia. by eexists.
    + replace (_ <? _) with true by lia. rewrite (packet_len_spec _ pre frag rest stale) by (done || lia || by right). go_cbn.
      pose proof (len_nonneg stale). cbn [app] in Hraw.
      rewrite Hraw, (sub_mid pre) by lia. go_cbn.
      assert (0 < len rest) by (by apply len_pos).
      rewrite len_app. replace (_ <? _) with true by lia. eexists. split; [done|done].
  - cbn [forallb] in Hps. apply andb_prop in Hps as [Hp Hps]. cbn [concat] in *. rewrite len_app in *.
    pose proof (len_nonneg (concat ps)). rewrite <- !app_assoc in Hraw.
    assert (0 < len p) by (by apply len_pos, valid_nonempty).
    replace (_ <? _) with true by lia.
    rewrite (packet_len_spec _ pre p [] (concat ps ++ frag ++ stale)) by (rewrite ?app_nil_r; first [done|lia|by left]). go_cbn.
    rewrite app_nil_r. rewrite Hraw.
    rewrite (app_assoc p), (app_assoc (p ++ _)), (sub_mid pre) by (rewrite ?len_app; lia). go_cbn.
    rewrite <- !app_assoc, !len_app. replace (_ <? len p) with false by lia. rewrite sub_prefix by done. go_cbn.
    destruct (IH (pre ++ p) ps (len p)) as (n & E & Hn); try done.
    + by rewrite Hraw, <- app_assoc.
    + rewrite len_app. lia.
    + cbn in Hfuel. lia.
    + rewrite len_app in E. rewrite E. go_cbn. exists n. split; [|done]. do 4 f_equal. lia.
Qed.

(** A buffer with a frame in it, after [processFrame] parsed the header. *)
Record arriving (sess stream : Z) (fb : FrameBuf.t) (k : nat) (d : desc) (stale : bytes) : Prop := {
  arr_raw : raw fb = frame_bytes sess stream k d ++ stale;
  arr_len : frameLen fb = len (frame_bytes sess stream k d);
  arr_seq : seqNr fb = Z.of_nat k;
  arr_index : FrameBuf.index fb = index d;
  arr_start : frag0Start fb = 0;
  arr_processed : frag0Processed fb = false;
  arr_complete : completePktsProcessed fb = (index d =? 0xffff)
}.

(** A frame whose packets were taken out, and at whose end a packet starts. *)
Record opens (fb : FrameBuf.t) (c : cut) : Prop := {
  op_start : frag0Start fb ≠ 0;
  op_frag : sub (raw fb) (frag0Start fb) (frameLen fb) = Ok c.1;
  op_size : frameLen fb - frag0Start fb = len c.1;
  op_pktLen : pktLen fb = len (c.1 ++ c.2);
  op_processed : frag0Processed fb = false;
  op_complete : completePktsProcessed fb = true
}.

(** A frame in the middle of a packet, with its bytes. *)
Record middle (fb : FrameBuf.t) (part : bytes) : Prop := {
  mid_raw : ∃ hdr stale, len hdr = 16 ∧ raw fb = hdr ++ part ++ stale;
  mid_len : frameLen fb = 16 + len part;
  mid_index : FrameBuf.index fb = 0xffff;
  mid_start : frag0Start fb = 0;
  mid_complete : completePktsProcessed fb = true
}.

Lemma length_concat_valid ps : forallb is_valid ps = true → (length ps ≤ length (concat ps))%nat.
Proof.
  induction ps as [|p ps IH]; [done|]. cbn. intros [Hp Hps]%andb_prop. specialize (IH Hps). rewrite length_app.
  apply valid_nonempty in Hp. destruct p; [done|]. cbn. lia.
Qed.

Lemma framing_fits mtu d : framing mtu d → len (payload d) ≤ mtu - hdrLen.
Proof. by intros []. Qed.

Section frames.
Context (sess stream mtu : Z) (Hmtu : hdrLen ≤ mtu < 65536).

Lemma len_frame k d : len (frame_bytes sess stream k d) = 16 + len (payload d).
Proof. unfold frame_bytes. by rewrite len_app, len_header. Qed.

Lemma arriving_middle fb k old part rest stale :
  arriving sess stream fb k (mkDesc (old, part ++ rest) part 0xffff [] [] (old ++ part, rest)) stale → middle fb part.
Proof.
  intros []. cbn [index] in *. split; try done.
  - eexists (header sess stream (u64 (Z.of_nat k)) 0xffff), stale. split; [apply len_header|].
    rewrite arr_raw0. unfold frame_bytes. cbn [index payload]. by rewrite <- app_assoc.
  - rewrite arr_len0. by rewrite len_frame.
Qed.

(** A frame with packets in it. *)
Lemma process_across fb k c ps frag rest stale :
  let d := mkDesc c (c.2 ++ concat ps ++ frag) (start_index c.2 frag ps) ps (pending c ++ ps) (frag, rest) in
  framing mtu d → forallb is_valid ps = true → cut_ok (frag, rest) → arriving sess stream fb k d stale →
  ∃ fb', ProcessCompletePkts fb = Ok (fb', ps) ∧ seqNr fb' = seqNr fb ∧ fragNProcessed fb' = fragNProcessed fb ∧
    completePktsProcessed fb' = true ∧ (frag = [] ∧ rest = [] ∧ frag0Start fb' = 0 ∨ rest ≠ [] ∧ opens fb' (frag, rest)).
Proof.
  intros d Hd Hps Hc [Hraw Hlen Hseq Hidx H0 Hp0 Hcp]. unfold ProcessCompletePkts. rewrite Hcp, Hidx. rewrite orb_diag.
  assert (len (c.2 ++ concat ps ++ frag) ≤ mtu - hdrLen) as Hfit by (exact (framing_fits mtu d Hd)).
  cbn [index d]. unfold start_index. destruct (bool_decide_reflect (ps = [] ∧ frag = [])) as [[-> ->]|Hne].
  { change (0xffff =? 0xffff) with true. cbv iota. eexists. split; [done|]. cbn. split_and!; try done. left.
    by destruct Hc as [[= ->]|(_ & H & _)]. }
  rewrite !len_app in Hfit. pose proof (len_nonneg c.2). pose proof (len_nonneg (concat ps)). pose proof (len_nonneg frag).
  replace (len c.2 =? 0xffff) with false by (unfold hdrLen in *; lia). cbv iota.
  set (h := header sess stream (u64 (Z.of_nat k)) (index d)).
  assert (raw fb = (h ++ c.2) ++ concat ps ++ frag ++ stale) as Hraw' by
    (rewrite Hraw; unfold frame_bytes; cbn [payload d]; by rewrite <- !app_assoc).
  assert (len (h ++ c.2) = len c.2 + sigHdrSize) as Hh by (rewrite len_app; unfold h; rewrite len_header; unfold hdrLen, sigHdrSize; lia).
  assert (frameLen fb = len (h ++ c.2) + len (concat ps) + len frag) as Hlen' by
    (rewrite Hlen, len_frame; cbn [payload d]; rewrite Hh, !len_app; unfold sigHdrSize; lia).
  pose proof (length_concat_valid ps Hps).
  destruct (scan_spec (S (Z.to_nat (frameLen fb))) fb (h ++ c.2) ps frag rest stale 0) as (n & Hscan & Hn); try done.
  { rewrite Hlen'. unfold len in *. lia. }
  rewrite <- Hh, Hscan. go_cbn. rewrite Hlen'. destruct (decide (frag = [])) as [->|Hfrag].
  - rewrite len_nil. replace (_ <? _) with false by lia. eexists. split; [done|]. cbn. split_and!; try done. left.
    destruct Hc as [[= ->]|(_ & Hbad & _)]; [done|]. cbn in Hbad. rewrite len_nil in Hbad. lia.
  - assert (0 < len frag) by (by apply len_pos).
    replace (_ <? _) with true by lia. eexists. split; [done|]. cbn [seqNr fragNProcessed completePktsProcessed].
    split_and!; try done. right. split; [by destruct Hc as [[= -> _]|[? _]]|].
    split; cbn [frag0Start frameLen raw pktLen frag0Processed completePktsProcessed fst snd]; try done.
    + unfold sigHdrSize in *. lia.
    + rewrite Hraw', app_assoc, <- len_app. apply sub_mid; rewrite ?len_app in *; lia.
    + lia.
    + rewrite Hn by done. by rewrite len_app.
    + unfold sigHdrSize in *. lia.
Qed.
End frames.

(** * Reassembly lists *)

Import RList.

Lemma find_mids n b mids parts tl :
  Forall2 middle mids parts → b + len (concat parts) < n → find n b (mids ++ tl) = find n (b + len (concat parts)) tl.
Proof.
  intros H. revert b. induction H as [|f part mids parts Hf H IH]; intros b Hb; cbn [concat] in *.
  - by rewrite len_nil, Z.add_0_r.
  - rewrite len_app in *. cbn [find app]. rewrite (mid_len _ _ Hf), (mid_index _ _ Hf). unfold sigHdrSize.
    pose proof (len_nonneg (concat parts)). replace (n <=? _) with false by lia. change (negb (0xffff =? 0xffff)) with false.
    cbv iota. rewrite IH by lia. f_equal. lia.
Qed.

Lemma intMin_eq x y : intMin x y = Z.min x y.
Proof. unfold intMin. destruct (x <=? y) eqn:E; lia. Qed.

Lemma collect_mids n buf mids parts tl :
  Forall2 middle mids parts → len buf + len (concat parts) < n →
  collect n buf (mids ++ tl) =
    ('(b, v, r) ← collect n (buf ++ concat parts) tl; Ok (b, (set_fragN <$> mids) ++ v, r)).
Proof.
  intros H. revert buf. induction H as [|f part mids parts Hf H IH]; intros buf Hb; cbn [concat app] in *.
  - rewrite app_nil_r. by destruct (collect n buf tl) as [[[??]?]| |].
  - rewrite len_app in *. cbn [collect]. pose proof (len_nonneg (concat parts)). pose proof (len_nonneg part).
    replace (len buf <? n) with true by lia. rewrite intMin_eq, (mid_len _ _ Hf).
    destruct (mid_raw _ _ Hf) as (hdr & stale & Hh & Hraw). rewrite Hraw. unfold sigHdrSize.
    rewrite (sub_mid hdr) by lia. go_cbn. rewrite IH by (rewrite len_app; lia). rewrite <- app_assoc.
    destruct (collect n _ tl) as [[[??]?]| |]; done.
Qed.

Lemma process_last_snoc es e e' sent :
  ProcessCompletePkts e = Ok (e', sent) → process_last (es ++ [e]) = Ok (es ++ [e'], sent).
Proof.
  intros He. induction es as [|x es IH]; cbn [process_last app]; [by rewrite He|].
  rewrite IH. destruct es; done.
Qed.

Lemma removeProcessed_app a b :
  Forall (λ e, Processed e = true) a →
  removeProcessed_ (a ++ b) = let '(kept, freed) := removeProcessed_ b in (kept, (Release <$> a) ++ freed).
Proof.
  induction 1 as [|e a He _ IH]; cbn; [by destruct (removeProcessed_ b)|].
  rewrite IH. destruct (removeProcessed_ b). by rewrite He.
Qed.

Lemma middle_processed mids parts : Forall2 middle mids parts → Forall (λ e, Processed e = true) (set_fragN <$> mids).
Proof.
  induction 1 as [|f part mids parts Hf _ IH]; constructor; [|done].
  unfold Processed. cbn. by rewrite (mid_complete _ _ Hf), (mid_start _ _ Hf).
Qed.

(** The frames from the start of a packet up to the frame number [k], after which
    the packet is cut. *)
Inductive chain (es : list FrameBuf.t) (k : nat) (c : cut) : Prop :=
| chain_intro f0 mids c0 parts flast :
    es = f0 :: mids → opens f0 c0 → Forall2 middle mids parts →
    c.1 = c0.1 ++ concat parts → c0.2 = concat parts ++ c.2 → c.2 ≠ [] →
    seqNr f0 ≤ Z.of_nat k → last es = Some flast → seqNr flast = Z.of_nat k → chain es k c.

Lemma chain_one fb k c : opens fb c → c.2 ≠ [] → seqNr fb = Z.of_nat k → chain [fb] k c.
Proof.
  intros Ho Hc Hk. by eapply (chain_intro _ _ _ fb [] c [] fb); rewrite ?app_nil_r; try done; lia.
Qed.

Lemma chain_more es k fb old part rest :
  chain es k (old, part ++ rest) → middle fb part → rest ≠ [] → seqNr fb = Z.of_nat (S k) →
  chain (es ++ [fb]) (S k) (old ++ part, rest).
Proof.
  intros [f0 mids c0 parts fl -> Ho Hm H1 H2 H3 Hk Hl Hs] Hf Hr Hn. cbn in *.
  eapply (chain_intro _ _ _ f0 (mids ++ [fb]) c0 (parts ++ [part]) fb); try done.
  - apply Forall2_app; [done|]. by constructor.
  - cbn. by rewrite concat_app, H1, <- !app_assoc; cbn; rewrite app_nil_r.
  - cbn. by rewrite concat_app, H2, <- !app_assoc; cbn; rewrite app_nil_r.
  - lia.
  - by rewrite app_comm_cons, last_snoc.
Qed.

Lemma chain_find es k c fb :
  chain es k c →
  ∃ f0 mids, es = f0 :: mids ∧ frag0Start f0 ≠ 0 ∧ pktLen f0 = len (c.1 ++ c.2) ∧
    find (pktLen f0) (frameLen f0 - frag0Start f0) (mids ++ [fb]) = find (len (c.1 ++ c.2)) (len c.1) [fb].
Proof.
  intros [f0 mids c0 parts fl -> Ho Hm H1 H2 H3 _ _ _]. exists f0, mids.
  assert (pktLen f0 = len (c.1 ++ c.2)) as Hp by (rewrite (op_pktLen _ _ Ho), H1, H2, <- app_assoc; done).
  split_and!; [done|apply Ho|done|]. rewrite Hp, (op_size _ _ Ho). pose proof (len_pos _ H3).
  erewrite find_mids; [|done|]; rewrite ?H1, !len_app; [done|lia].
Qed.

(** After a frame, in order: nothing is waited for, or the rest of a packet. *)
Definition settled (es : list FrameBuf.t) (k : nat) (c : cut) : Prop := es = [] ∧ c = ([], []) ∨ chain es k c.

Lemma removeProcessed_length es kept freed : removeProcessed_ es = (kept, freed) → (length kept + length freed = length es)%nat.
Proof.
  revert kept freed. induction es as [|e es IH]; intros kept freed; cbn; [by intros [= <- <-]|].
  destruct (removeProcessed_ es) as [k f]. specialize (IH _ _ eq_refl). destruct (Processed e); intros [= <- <-]; cbn; lia.
Qed.

(** The packet that is cut at the start of frame [k]. *)
Definition cut_before (ds : list desc) (k : nat) : cut :=
  match k with O => ([], []) | S k => default ([], []) (after <$> ds !! k) end.

Section lists.
Context (sess stream mtu : Z) (Hmtu : hdrLen ≤ mtu < 65536).

Lemma arriving_fragN fb k d stale : arriving sess stream fb k d stale → arriving sess stream (set_fragN fb) k d stale.
Proof. by intros []. Qed.

(** The frame that completes the packet. *)
Lemma collect_spec es k k' c ps frag rest fb stale l :
  let d := mkDesc c (c.2 ++ concat ps ++ frag) (start_index c.2 frag ps) ps (pending c ++ ps) (frag, rest) in
  framing mtu d → forallb is_valid ps = true → cut_ok (frag, rest) →
  arriving sess stream fb k' d stale → chain es k c →
  ∃ es' freed, collectAndWrite (set_entries (es ++ [fb]) l) = Ok (set_entries es' l, pending c ++ ps, freed) ∧
    settled es' k' (frag, rest) ∧ (length es' + length freed = length (es ++ [fb]))%nat ∧ len es' ≤ 1.
Proof using Hmtu.
  intros d Hd Hps Hc Harr [f0 mids c0 parts fl -> Ho Hm H1 H2 H3 _ _ _]. unfold collectAndWrite.
  cbn [entries set_entries app]. rewrite (op_frag _ _ Ho). go_cbn.
  assert (pktLen f0 = len (c.1 ++ c.2)) as Hp by (rewrite (op_pktLen _ _ Ho), H1, H2, <- app_assoc; done).
  pose proof (len_pos _ H3) as Hpos. rewrite Hp.
  rewrite (collect_mids _ _ mids parts) by (rewrite ?H1, ?len_app; done || lia). rewrite <- H1. cbn [collect].
  rewrite len_app. replace (len c.1 <? len c.1 + len c.2) with true by lia. cbv zeta. rewrite intMin_eq.
  rewrite (arr_len _ _ _ _ _ _ Harr), len_frame, (arr_raw _ _ _ _ _ _ Harr). unfold frame_bytes. cbn [payload index d].
  rewrite !len_app. pose proof (len_nonneg (concat ps)). pose proof (len_nonneg frag).
  rewrite Z.min_l by (unfold sigHdrSize; lia). rewrite <- !app_assoc.
  rewrite (sub_mid (header _ _ _ _) c.2) by (rewrite ?len_header; unfold hdrLen, sigHdrSize; lia). go_cbn.
  rewrite len_app, Z.eqb_refl. cbn [negb].
  destruct (process_across sess stream mtu Hmtu (set_fragN fb) k' c ps frag rest stale)
    as (fb' & Hproc & Hseq & HfragN & Hcp & Hopen); try done; [by apply arriving_fragN|].
  rewrite (process_last_snoc _ _ _ _ Hproc). go_cbn. unfold removeProcessed. cbn [entries set_entries].
  rewrite app_nil_r. pose proof (middle_processed _ _ Hm) as Hmid.
  destruct (removeProcessed_ (SetProcessed f0 :: (set_fragN <$> mids) ++ [fb'])) as [kept freed] eqn:Hrem.
  pose proof (removeProcessed_length _ _ _ Hrem) as Hlen. cbn [length] in Hlen. rewrite length_app, length_fmap in Hlen.
  rewrite app_comm_cons, removeProcessed_app in Hrem
    by (constructor; [unfold Processed; cbn; by rewrite orb_true_r|done]).
  exists kept, freed. split; [|split; [|split]].
  - unfold pending. rewrite bool_decide_eq_false_2 by done. done.
  - clear Hlen. cbn [removeProcessed_] in Hrem. cbn in HfragN. destruct Hopen as [(-> & -> & Hz)|(Hr & Hop)].
    + unfold Processed in Hrem. rewrite Hcp, HfragN, Hz in Hrem. simplify_eq/=. by left.
    + unfold Processed in Hrem. rewrite Hcp, HfragN, (op_processed _ _ Hop) in Hrem.
      replace (frag0Start fb' =? 0) with false in Hrem by (pose proof (op_start _ _ Hop); lia). simplify_eq/=.
      right. apply chain_one; [done|done|]. rewrite Hseq. cbn. apply Harr.
  - cbn [length]. rewrite length_app. cbn [length] in *. lia.
  - cbn [removeProcessed_] in Hrem. by destruct (Processed fb'); simplify_eq/=.
Qed.

Lemma linked_framing ds c k d : linked mtu ds c → ds !! k = Some d → framing mtu d.
Proof.
  intros H. revert k d. induction H as [|ds d0 H IH Hf]; intros k d Hk; [done|].
  apply lookup_app_Some in Hk as [Hk|[_ Hk]]; [by eapply IH|].
  apply list_lookup_singleton_Some in Hk as [_ <-]. done.
Qed.
Lemma linked_last ds c : linked mtu ds c → c = default ([], []) (after <$> last ds).
Proof. intros []; [done|]. by rewrite last_snoc. Qed.
Lemma linked_next ds c k d : linked mtu ds c → ds !! k = Some d → before d = cut_before ds k.
Proof.
  unfold cut_before.
  intros H. revert k d. induction H as [|ds d0 H IH Hf]; intros k d Hk; [done|].
  apply lookup_app_Some in Hk as [Hk|[Hge Hk]].
  - rewrite (IH _ _ Hk). destruct k as [|k]; [done|]. apply lookup_lt_Some in Hk. by rewrite lookup_app_l by lia.
  - apply list_lookup_singleton_Some in Hk as [Hk <-]. rewrite (linked_last _ _ H), last_lookup.
    destruct k as [|k]; [destruct ds; [done|cbn in *; lia]|]. replace (pred (length ds)) with k by lia. by rewrite lookup_app_l by lia.
Qed.

(** What a list may hold when any frames arrive in any order. *)
Definition good (ds : list desc) (es : list FrameBuf.t) : Prop :=
  es = [] ∨ ∃ k d, ds !! k = Some d ∧ chain es k (after d).

Lemma set_entries_nil l : entries l = [] → set_entries [] l = l.
Proof. intros H. destruct l. cbn in *. by subst. Qed.

Lemma insertFirst_spec ds cur j d fb stale l :
  linked mtu ds cur → ds !! j = Some d → arriving sess stream fb j d stale → entries l = [] →
  ∃ es' freed, insertFirst fb l = Ok (set_entries es' l, inner d, freed) ∧ good ds es' ∧
    (length es' + length freed = 1)%nat ∧ ((before d).2 = [] → ended d = inner d ∧ settled es' j (after d)).
Proof using Hmtu.
  intros Hl Hj Harr He. pose proof (linked_framing _ _ _ _ Hl Hj) as Hd. unfold insertFirst.
  destruct Hd as [old part rest Hr Hlen Hle|c ps frag rest Hps Hc Hle].
  - unfold ProcessCompletePkts. rewrite (arr_index _ _ _ _ _ _ Harr). cbn [index inner].
    rewrite orb_true_r. go_cbn. cbn [frag0Start set_complete]. rewrite (arr_start _ _ _ _ _ _ Harr).
    exists [], [Release (set_complete fb)]. rewrite set_entries_nil by done. split_and!; [done|by left|done|].
    cbn. intros [_ ->]%app_nil. done.
  - destruct (process_across sess stream mtu Hmtu fb j c ps frag rest stale) as (fb' & -> & Hseq & _ & _ & Hopen); try done.
    { by constructor. } go_cbn. cbn [inner].
    assert (c.2 = [] → pending c ++ ps = ps) as Hpend by (intros Hc2; unfold pending; by rewrite bool_decide_eq_true_2).
    destruct Hopen as [(-> & -> & ->)|(Hr & Hop)].
    + change (negb (0 =? 0)) with false. cbv iota. exists [], [Release fb']. rewrite set_entries_nil by done.
      split_and!; [done|by left|done|]. intros Hc2. split; [by apply Hpend|by left].
    + pose proof (op_start _ _ Hop). replace (negb _) with true by lia. rewrite He. exists [fb'], [].
      assert (chain [fb'] j (frag, rest)) by (apply chain_one; [done|done|by rewrite Hseq; apply Harr]).
      split_and!; [done|right; by eexists _, _|done|]. intros Hc2. split; [by apply Hpend|by right].
Qed.

(** A list gets longer by frames that are full of one packet. *)
Definition grows (es es' : list FrameBuf.t) (d : desc) : Prop :=
  len es' ≤ 1 ∨ len es' = len es + 1 ∧ len (after d).1 = len (before d).1 + (mtu - hdrLen).

(** The next frame while a packet is waited for. *)
Lemma tryReassemble_spec ds cur j d d' fb stale l es :
  linked mtu ds cur → ds !! j = Some d → ds !! S j = Some d' → chain es j (after d) →
  arriving sess stream fb (S j) d' stale →
  ∃ es' freed, tryReassemble (set_entries (es ++ [fb]) l) = Ok (set_entries es' l, ended d', freed) ∧
    settled es' (S j) (after d') ∧ (length es' + length freed = S (length es))%nat ∧ grows es es' d'.
Proof using Hmtu.
  intros Hl Hj Hj' Hch Harr. pose proof (linked_framing _ _ _ _ Hl Hj') as Hd'.
  pose proof (linked_next _ _ _ _ Hl Hj') as Hb. cbn in Hb. rewrite Hj in Hb. cbn in Hb. rewrite <- Hb in Hch.
  destruct (chain_find _ _ _ fb Hch) as (f0 & mids & -> & H0 & _ & Hfind).
  assert ((before d').2 ≠ []) as Hrest by (by destruct Hch).
  assert (tryReassemble (set_entries ((f0 :: mids) ++ [fb]) l) =
    match find (len ((before d').1 ++ (before d').2)) (len (before d').1) [fb] with
    | CanReassemble => collectAndWrite (set_entries ((f0 :: mids) ++ [fb]) l)
    | FramingError => let '(l, freed) := removeBeforeBack (set_entries ((f0 :: mids) ++ [fb]) l) in Ok (l, [], freed)
    | Incomplete => Ok (set_entries ((f0 :: mids) ++ [fb]) l, [], [])
    end) as ->.
  { unfold tryReassemble. cbn [entries set_entries app]. replace (frag0Start f0 =? 0) with false by lia.
    rewrite Hfind. by destruct mids. }
  cbn [find]. rewrite (arr_len _ _ _ _ _ _ Harr), len_frame, (arr_index _ _ _ _ _ _ Harr). unfold sigHdrSize.
  rewrite len_app.
  destruct Hd' as [old part rest Hr Hlen Hle|c ps frag rest Hps Hc Hle]; cbn [before after payload index ended fst snd] in *.
  - rewrite len_app. pose proof (len_pos _ Hr). replace (_ <=? _) with false by lia.
    change (negb (0xffff =? 0xffff)) with false. cbv iota. eexists _, []. split; [done|]. split; [|split].
    + right. apply (chain_more _ j); [done|by eapply arriving_middle|done|]. apply Harr.
    + rewrite length_app. cbn. lia.
    + right. cbn [after before fst]. rewrite !len_app. change (len [fb]) with 1. lia.
  - rewrite !len_app. pose proof (len_nonneg (concat ps)). pose proof (len_nonneg frag). replace (_ <=? _) with true by lia.
    destruct (collect_spec (f0 :: mids) j (S j) c ps frag rest fb stale l) as (es' & freed & -> & Hs & Hn & Hle'); try done.
    { by constructor. }
    exists es', freed. split; [done|]. split; [done|]. split; [|by left]. rewrite Hn, length_app. cbn. lia.
Qed.

Lemma settled_good ds j d es : ds !! j = Some d → settled es j (after d) → good ds es.
Proof. intros Hj [[-> _]|H]; [by left|]. right. by exists j, d. Qed.

Lemma set_entries_twice es es' l : set_entries es (set_entries es' l) = set_entries es l.
Proof. done. Qed.

(** Starting again: the frames in the list are released. *)
Lemma restart_spec ds cur j d fb stale l :
  linked mtu ds cur → ds !! j = Some d → arriving sess stream fb j d stale →
  ∃ es' freed, restart fb l = Ok (set_entries es' l, inner d, freed) ∧ good ds es' ∧
    (length es' + length freed = S (length (entries l)))%nat.
Proof using Hmtu.
  intros Hl Hj Harr. unfold restart, removeAll.
  destruct (insertFirst_spec ds cur j d fb stale (set_entries [] l)) as (es' & freed & -> & Hg & Hn & _); try done.
  go_cbn. eexists es', _. split; [done|]. split; [done|]. rewrite length_app, length_fmap. lia.
Qed.

(** Any frame of the encoder: what is sent are packets that end in it. *)
Lemma Insert_spec ds cur j d fb stale l :
  linked mtu ds cur → len ds ≤ 2 ^ 64 → ds !! j = Some d → arriving sess stream fb j d stale → good ds (entries l) →
  ∃ es' sent freed, Insert fb l = Ok (set_entries es' l, sent, freed) ∧ good ds es' ∧
    (sent = [] ∨ sent = inner d ∨ sent = ended d) ∧ (length es' + length freed = S (length (entries l)))%nat.
Proof using Hmtu.
  intros Hl H64 Hj Harr Hgood. unfold Insert. destruct Hgood as [He|(k & dk & Hk & Hch)].
  { rewrite He. destruct (insertFirst_spec ds cur j d fb stale l) as (es' & freed & -> & Hg & Hn & _); try done.
    exists es', (inner d), freed. split_and!; [done|done|auto|cbn; lia]. }
  destruct Hch as [f0 mids c0 parts fl He Ho Hm H1 H2 H3 Hseq0 Hlast Hseq].
  rewrite He. rewrite He in Hlast. rewrite Hlast, (arr_seq _ _ _ _ _ _ Harr), Hseq.
  assert (∀ freed' : list FrameBuf.t, (length freed' = 1)%nat →
    ∃ es' sent freed, Ok (l, [], freed') = Ok (set_entries es' l, sent, freed) ∧ good ds es' ∧
      (sent = [] ∨ sent = inner d ∨ sent = ended d) ∧ (length es' + length freed = S (length (f0 :: mids)))%nat) as Hdrop.
  { intros freed' Hf. exists (entries l), [], freed'. split; [by destruct l|]. split; [|split; [by left|rewrite He, Hf; cbn; lia]].
    right. exists k, dk. split; [done|]. rewrite He. by eapply chain_intro. }
  assert (∃ es' sent freed, restart fb l = Ok (set_entries es' l, sent, freed) ∧ good ds es' ∧
      (sent = [] ∨ sent = inner d ∨ sent = ended d) ∧ (length es' + length freed = S (length (f0 :: mids)))%nat) as Hrestart.
  { destruct (restart_spec ds cur j d fb stale l) as (es' & freed & -> & Hg & Hn); try done.
    exists es', (inner d), freed. rewrite <- He. split_and!; [done|done|auto|done]. }
  destruct (_ <? _) eqn:E1; [by apply Hdrop|]. destruct (_ && _) eqn:E2; [by apply Hdrop|].
  pose proof (lookup_lt_Some _ _ _ Hj) as Hjlt.
  assert (Z.of_nat k < Z.of_nat j) as Hkj by lia.
  rewrite uint_of_small by (split; [lia|unfold len in *; lia]).
  destruct (Z.of_nat k + 1 <? Z.of_nat j) eqn:E3; [exact Hrestart|]. destruct (len (f0 :: mids) =? capacity l); [exact Hrestart|].
  assert (j = S k) as -> by lia.
  destruct (tryReassemble_spec ds cur k dk d fb stale l (f0 :: mids)) as (es' & freed & -> & Hs & Hn & _); try done.
  { by eapply chain_intro. }
  exists es', (ended d), freed. split_and!; [done|by apply (settled_good ds (S k) d)|auto|done].
Qed.

(** The next frame: all packets that end in it. *)
Definition before_frame (es : list FrameBuf.t) (j : nat) (c : cut) : Prop :=
  match j with O => es = [] ∧ c = ([], []) | S k => settled es k c end.

Lemma Insert_next ds cur j d fb stale l :
  linked mtu ds cur → len ds ≤ 2 ^ 64 → ds !! j = Some d → arriving sess stream fb j d stale →
  before_frame (entries l) j (before d) → len (entries l) < capacity l →
  ∃ es' freed, Insert fb l = Ok (set_entries es' l, ended d, freed) ∧ settled es' j (after d) ∧ grows (entries l) es' d.
Proof using Hmtu.
  intros Hl H64 Hj Harr Hb Hcap.
  assert (entries l = [] ∧ before d = ([], []) ∨ ∃ k, j = S k ∧ chain (entries l) k (before d)) as [[He Hc]|(k & -> & Hch)].
  { destruct j as [|k]; [by left|]. destruct Hb as [?|?]; [by left|right; by exists k]. }
  - unfold Insert. rewrite He.
    destruct (insertFirst_spec ds cur j d fb stale l) as (es' & freed & -> & _ & Hn & Hs); try done.
    rewrite Hc in Hs. destruct (Hs eq_refl) as [-> Hs']. exists es', freed. split_and!; [done|done|]. left. unfold len. lia.
  - pose proof (linked_next _ _ _ _ Hl Hj) as Hbd. cbn in Hbd.
    destruct (ds !! k) as [dk|] eqn:Hk; [|apply lookup_ge_None in Hk; apply lookup_lt_Some in Hj; lia]. cbn in Hbd.
    pose proof Hch as Hch'. destruct Hch' as [f0 mids c0 parts fl He Ho Hm H1 H2 H3 Hseq0 Hlast Hseq].
    unfold Insert. rewrite He in Hlast, Hcap, Hch. rewrite He, Hlast, (arr_seq _ _ _ _ _ _ Harr), Hseq.
    pose proof (lookup_lt_Some _ _ _ Hj) as Hjlt.
    replace (_ <? _) with false by lia. replace (_ && _) with false by lia.
    rewrite uint_of_small by (split; [lia|unfold len in *; lia]).
    replace (_ <? _) with false by lia. replace (_ =? _) with false by lia.
    rewrite Hbd in Hch.
    destruct (tryReassemble_spec ds cur k dk d fb stale l (f0 :: mids)) as (es' & freed & -> & Hs & Hn & Hgr); try done.
    by exists es', freed.
Qed.
End lists.

(** * The worker *)

Import Worker.

(** A buffer of the pool with a frame in it, as the ingress server hands it to a
    worker; the rest of the buffer has old bytes in it. *)
Definition received (sess : Z) (f stale : bytes) : FrameBuf.t :=
  FrameBuf.mk sess 0xffffffffffffffff (-1) (len f) 0 false false false 0 (f ++ stale).

Definition epoch_of (stream : Z) : Z := Z.land stream 0xfffff.

Lemma epoch_bits stream : Z.land (epoch_of stream) 0xfffff = epoch_of stream.
Proof. unfold epoch_of. by rewrite <- Z.land_assoc, Z.land_diag. Qed.
Lemma epoch_range stream : is_u32 (epoch_of stream).
Proof.
  unfold epoch_of. change 0xfffff with (Z.ones 20). rewrite Z.land_ones by lia.
  pose proof (Z.mod_pos_bound stream (2 ^ 20) ltac:(lia)) as H. change (2 ^ 20) with 1048576 in *. split; [lia|].
  change (2 ^ 32) with 4294967296. lia.
Qed.

Section worker.
Context (sess stream mtu : Z) (Hmtu : hdrLen ≤ mtu < 65536).

Lemma framing_index d : framing mtu d → is_u16 (index d).
Proof using Hmtu.
  intros [old part rest Hr Hl Hle|c ps frag rest Hps Hc Hle]; cbn [index]; [done|]. unfold start_index.
  destruct (bool_decide _); [done|]. rewrite len_app in Hle. pose proof (len_nonneg c.2). pose proof (len_nonneg (concat ps ++ frag)).
  split; [lia|]. change (2 ^ 16) with 65536. unfold hdrLen in *. lia.
Qed.

(** The header is parsed back. *)
Lemma processFrame_eq ds cur j d stale w :
  linked mtu ds cur → len ds ≤ 2 ^ 64 → ds !! j = Some d →
  ∃ fb, arriving sess stream fb j d stale ∧
    processFrame (received sess (frame_bytes sess stream j d) stale) w =
      ('(l, sent, freed) ← Insert fb (getRlist (epoch_of stream) w);
       Ok (set_rlists (<[epoch_of stream := l]> (rlists w)) w, sent, freed)).
Proof using Hmtu.
  intros Hl H64 Hj. pose proof (framing_index d (linked_framing mtu _ _ _ _ Hl Hj)) as Hidx.
  pose proof (lookup_lt_Some _ _ _ Hj) as Hlt.
  assert (is_u64 (Z.of_nat j)) as Hseq by (split; unfold len in *; lia).
  unfold processFrame. cbn [raw received].
  assert (frame_bytes sess stream j d ++ stale =
    [0; sess] ++ be_bytes 2 (index d) ++ be_bytes 4 (epoch_of stream) ++ be_bytes 8 (Z.of_nat j) ++ payload d ++ stale) as Hraw.
  { unfold frame_bytes, header. rewrite (uint_of_small 64) by done. by rewrite <- !app_assoc. }
  set (r := frame_bytes sess stream j d ++ stale) in *.
  assert (sub r 2 4 = Ok (be_bytes 2 (index d))) as H1 by (rewrite Hraw; by apply (sub_mid [0; sess])).
  assert (sub r 4 8 = Ok (be_bytes 4 (epoch_of stream))) as H2.
  { rewrite Hraw, (app_assoc [0; sess]). by apply (sub_mid ([0; sess] ++ _)). }
  assert (sub r 8 16 = Ok (be_bytes 8 (Z.of_nat j))) as H3.
  { rewrite Hraw, (app_assoc [0; sess]), (app_assoc ([0; sess] ++ _)). by apply (sub_mid (([0; sess] ++ _) ++ _)). }
  rewrite H1, H2, H3. go_cbn. unfold Uint16, Uint32, Uint64.
  rewrite !get_be_Ok, !take_ge by (rewrite ?length_be_bytes, ?len_be_bytes; done). go_cbn.
  rewrite be_val_be_bytes_16, be_val_be_bytes_32, be_val_be_bytes_64 by first [done|apply epoch_range].
  rewrite epoch_bits.
  eexists. split; [|reflexivity]. split; cbn; done.
Qed.
End worker.

(** ** The buffers that a worker holds *)

Definition size (l : RList.t) : nat := length (entries l).
Definition held (m : gmap Z RList.t) : nat := sum_list_with (λ p, size p.2) (map_to_list m).

Lemma held_fresh m k l : m !! k = None → held (<[k := l]> m) = (size l + held m)%nat.
Proof. intros H. unfold held. by rewrite map_to_list_insert. Qed.
Lemma held_delete m k l : m !! k = Some l → held m = (size l + held (delete k m))%nat.
Proof. intros H. unfold held. by rewrite <- (map_to_list_delete m k l). Qed.
Lemma held_insert m k l : (held (<[k := l]> m) + default 0%nat (size <$> m !! k) = size l + held m)%nat.
Proof.
  destruct (m !! k) as [l0|] eqn:E; cbn.
  - rewrite (held_delete m k l0 E), <- insert_delete_eq, held_fresh by apply lookup_delete_eq. lia.
  - rewrite held_fresh by done. lia.
Qed.

Definition marked_frames (p : Z * RList.t) : list FrameBuf.t :=
  if markedForDeletion p.2 then Release <$> entries p.2 else [].

Lemma length_bind {A B} (f : A → list B) l : length (l ≫= f) = sum_list_with (λ x, length (f x)) l.
Proof. induction l as [|x l IH]; [done|]. cbn. by rewrite length_app, <- IH. Qed.

(** The cleanup releases what it deletes. *)
Lemma cleanup_held w : let '(w', freed) := cleanup w in (held (rlists w') + length freed = held (rlists w))%nat.
Proof.
  unfold cleanup. cbn [rlists set_rlists]. rewrite length_bind.
  assert (∀ l, sum_list_with (λ x : Z * RList.t, length (let '(_, l) := x in if markedForDeletion l then Release <$> entries l else [])) l =
    sum_list_with (λ x, length (marked_frames x)) l) as ->.
  { intros l. induction l as [|[k x] l IH]; [done|]. cbn. by rewrite IH. }
  unfold held. induction (rlists w) as [|k l m Hk IH] using map_ind; [done|].
  rewrite (map_to_list_insert m) by done. cbn [sum_list_with snd fst]. unfold marked_frames at 1. cbn [snd].
  rewrite omap_insert. unfold cleanup_list at 1. destruct (markedForDeletion l).
  - rewrite delete_id by (by rewrite lookup_omap, Hk). rewrite length_fmap. change (length (entries l)) with (size l). lia.
  - rewrite map_to_list_insert by (by rewrite lookup_omap, Hk). cbn [sum_list_with snd]. set (l' := RList.mk _ _ _ _). change (size l') with (size l). cbn [length]. lia.
Qed.

(** ** Frames of several encoders *)

(** An encoder after some of its steps. *)
Record sender := mkSender {
  s_sess : Z;
  s_stream : Z;
  s_mtu : Z;
  s_enc : Encoder.t;
  s_phase : phase;
  s_acc : list bytes;
  s_frames : list bytes
}.
Definition sender_ok (s : sender) : Prop :=
  hdrLen ≤ s_mtu s < 65536 ∧ len (s_frames s) ≤ 2 ^ 64 ∧
  run (s_sess s) (s_stream s) (s_mtu s) (s_enc s) (s_phase s) (s_acc s) (s_frames s).

Record describes (s : sender) (ds : list desc) : Prop := {
  de_mtu : hdrLen ≤ s_mtu s < 65536;
  de_len : len ds ≤ 2 ^ 64;
  de_linked : ∃ cur, linked (s_mtu s) ds cur;
  de_frames : s_frames s = imap (frame_bytes (s_sess s) (s_stream s)) ds;
  de_packets : ∀ d p, d ∈ ds → p ∈ ended d → p ∈ s_acc s ∧ is_valid p = true
}.

Lemma sender_describes s : sender_ok s → ∃ ds, describes s ds.
Proof.
  intros (Hm & Hlen & Hr). destruct (run_inv _ _ _ _ _ _ _ Hm Hr) as (ds & c & ps & got & q & []).
  exists ds. split; try done; [|by exists c|].
  - rewrite inv_frames0 in Hlen. unfold len in *. by rewrite length_imap in Hlen.
  - intros d p Hd Hp. assert (p ∈ filter (λ p, is_valid p = true) got) as [Hv Hg]%list_elem_of_filter.
    { rewrite inv_got0. apply elem_of_app. left. apply list_elem_of_In, in_concat. exists (ended d). rewrite <- !list_elem_of_In. split; [|done].
      by apply list_elem_of_fmap_2. }
    split; [|done]. rewrite inv_acc0. apply elem_of_app. by left.
Qed.

Lemma inner_ended mtu d p : framing mtu d → p ∈ inner d → p ∈ ended d.
Proof. intros [|]; cbn; [done|]. intros. apply elem_of_app. by right. Qed.

(** A buffer with a frame of one of the encoders. *)
Definition sent_by (senders : list sender) (fb : FrameBuf.t) : Prop :=
  ∃ s f stale, s ∈ senders ∧ f ∈ s_frames s ∧ fb = received (s_sess s) f stale.

(** Batches of frames, each with or without a cleanup after it. *)
Fixpoint rounds (batches : list (list FrameBuf.t * bool)) (w : Worker.t) : outcome Worker.result :=
  match batches with
  | [] => Ok (w, [], [])
  | (frames, cleanup_due) :: batches =>
      '(w, sent, freed) ← process_batch cleanup_due (Some <$> frames) w;
      '(w, sent', freed') ← rounds batches w;
      Ok (w, sent ++ sent', freed ++ freed')
  end.

Section senders.
Context (senders : list sender) (dss : list (list desc)).
Context (Hnd : NoDup ((λ s, epoch_of (s_stream s)) <$> senders)) (Hds : Forall2 describes senders dss).

Definition worker_good (w : Worker.t) : Prop :=
  ∀ ep l, rlists w !! ep = Some l →
  ∃ i s ds, senders !! i = Some s ∧ dss !! i = Some ds ∧ ep = epoch_of (s_stream s) ∧ good ds (entries l).

Definition genuine (p : bytes) : Prop := ∃ s, s ∈ senders ∧ p ∈ s_acc s ∧ is_valid p = true.

(** A call that keeps the invariant, with the number [n] of buffers that it gets. *)
Definition safe_call (n : nat) (w : Worker.t) (o : outcome Worker.result) : Prop :=
  ∃ w' sent freed, o = Ok (w', sent, freed) ∧ worker_good w' ∧ Forall genuine sent ∧
    (held (rlists w') + length freed = n + held (rlists w))%nat.

Lemma processFrame_safe fb w : worker_good w → sent_by senders fb → safe_call 1 w (processFrame fb w).
Proof using Hnd Hds.
  intros Hw (s & f & stale & Hs & Hf & ->). apply list_elem_of_lookup in Hs as (i & Hi).
  destruct (Forall2_lookup_l _ _ _ _ _ Hds Hi) as (ds & Hdi & [Hm Hlen (cur & Hl) Hfr Hpk]).
  rewrite Hfr in Hf. apply list_elem_of_lookup in Hf as (j & Hj). rewrite list_lookup_imap in Hj.
  destruct (ds !! j) as [d|] eqn:Hd; [|done]. injection Hj as <-.
  destruct (processFrame_eq (s_sess s) (s_stream s) (s_mtu s) Hm ds cur j d stale w) as (fb & Harr & ->); try done.
  set (ep := epoch_of (s_stream s)).
  assert (good ds (entries (getRlist ep w))) as Hgood.
  { unfold getRlist. cbn [entries]. destruct (rlists w !! ep) as [l|] eqn:E; [|by left]. cbn.
    destruct (Hw _ _ E) as (i' & s' & ds' & Hi' & Hdi' & Hep & Hg).
    assert (i = i') as <-.
    { eapply (NoDup_lookup _ i i' ep Hnd); rewrite list_lookup_fmap; [by rewrite Hi|by rewrite Hi', Hep]. }
    by simplify_eq. }
  destruct (Insert_spec (s_sess s) (s_stream s) (s_mtu s) Hm ds cur j d fb stale (getRlist ep w))
    as (es' & sent & freed & -> & Hg & Hsent & Hn); try done. go_cbn.
  eexists _, _, _. split; [done|]. split; [|split].
  - intros ep' l. cbn [rlists set_rlists]. destruct (decide (ep' = ep)) as [->|Hne].
    + rewrite lookup_insert_eq. intros [= <-]. by exists i, s, ds.
    + rewrite lookup_insert_ne by done. apply Hw.
  - apply Forall_forall. intros p Hp. exists s. split; [by eapply list_elem_of_lookup_2|].
    apply list_elem_of_lookup_2 in Hd as Hin. pose proof (linked_framing _ _ _ _ _ Hl Hd) as Hfd.
    destruct Hsent as [->|[->| ->]]; [by apply elem_of_nil in Hp|..]; apply (Hpk d); try done. by eapply inner_ended.
  - cbn [rlists set_rlists]. pose proof (held_insert (rlists w) ep (set_entries es' (getRlist ep w))) as Hh.
    unfold size at 2 in Hh. cbn [entries set_entries] in Hh.
    assert (length (entries (getRlist ep w)) = default 0%nat (size <$> rlists w !! ep)) as He.
    { unfold getRlist. cbn [entries]. by destruct (rlists w !! ep). }
    lia.
Qed.

Lemma process_all_safe fbs w :
  worker_good w → Forall (sent_by senders) fbs → safe_call (length fbs) w (process_all (Some <$> fbs) w).
Proof using Hnd Hds.
  intros Hw H. revert w Hw. induction H as [|fb fbs Hfb _ IH]; intros w Hw; cbn [fmap list_fmap process_all].
  { by exists w, [], []; split_and!; try done; cbn; lia. }
  destruct (processFrame_safe fb w Hw Hfb) as (w1 & sent1 & freed1 & -> & Hw1 & Hs1 & Hn1). go_cbn.
  destruct (IH w1 Hw1) as (w2 & sent2 & freed2 & -> & Hw2 & Hs2 & Hn2). go_cbn.
  eexists _, _, _. split; [done|]. split; [done|]. split; [by apply Forall_app|]. rewrite length_app. cbn [length]. lia.
Qed.

Lemma process_batch_safe due fbs w :
  worker_good w → Forall (sent_by senders) fbs → safe_call (length fbs) w (process_batch due (Some <$> fbs) w).
Proof using Hnd Hds.
  intros Hw H. unfold process_batch. destruct (process_all_safe fbs w Hw H) as (w1 & sent & freed & -> & Hw1 & Hs & Hn).
  go_cbn. destruct due; [|by exists w1, sent, freed].
  pose proof (cleanup_held w1) as Hc. destruct (cleanup w1) as [w2 freed2] eqn:E.
  eexists _, _, _. split; [done|]. split; [|split; [done|rewrite length_app; lia]].
  unfold cleanup in E. injection E as <- _. intros ep l. cbn [rlists set_rlists]. rewrite lookup_omap.
  destruct (rlists w1 !! ep) as [l1|] eqn:El; [|done]. cbn. unfold cleanup_list.
  destruct (markedForDeletion l1); [done|]. intros [= <-]. cbn [entries]. by apply Hw1 in El.
Qed.

Lemma rounds_safe batches w :
  worker_good w → Forall (λ b, Forall (sent_by senders) b.1) batches →
  safe_call (length (concat batches.*1)) w (rounds batches w).
Proof using Hnd Hds.
  intros Hw H. revert w Hw. induction H as [|[fbs due] batches Hb _ IH]; intros w Hw; cbn [rounds].
  { by exists w, [], []; split_and!; try done; cbn; lia. }
  destruct (process_batch_safe due fbs w Hw Hb) as (w1 & sent1 & freed1 & -> & Hw1 & Hs1 & Hn1). go_cbn.
  destruct (IH w1 Hw1) as (w2 & sent2 & freed2 & -> & Hw2 & Hs2 & Hn2). go_cbn.
  eexists _, _, _. split; [done|]. split; [done|]. split; [by apply Forall_app|].
  cbn [fmap list_fmap concat fst]. rewrite !length_app. unfold fmap in *. lia.
Qed.
End senders.

End TunnelReceiver.

Module TunnelProperties.

Import Ring Encoder RingProperties FrameBuf TunnelSender RList Worker TunnelReceiver.

(** ** All frames, in order *)

Lemma is_valid_len p : wf_bytes p → is_valid p = true → len p ≤ 65575.
Proof.
  intros Hw Hv. pose proof (valid_packet_total p) as H. rewrite Hv in H. revert H. unfold valid_packet.
  destruct (len p =? 0) eqn:E0; [done|]. intros (b & _ & H)%bind_Ok.
  assert (∀ lo n, (sub p lo (lo + 2) ≫= Uint16) = Ok n → n < 65536) as Hb.
  { intros lo n (x & Hx & Hn)%bind_Ok. pose proof (wf_bytes_sub _ _ _ _ Hw Hx) as Hwx. pose proof (len_sub _ _ _ _ Hx) as Hl.
    unfold Uint16 in Hn. rewrite get_be_Ok in Hn by lia. injection Hn as <-.
    rewrite take_ge by (unfold len in Hl; lia). apply be_val_u16; [done|unfold len in Hl; lia]. }
  destruct (Z.shiftr b 4 =? 4); [|destruct (Z.shiftr b 4 =? 6); [|done]].
  - destruct (_ <? 20); [done|]. apply bind_Ok in H as (n & Hn & [= H]). apply (Hb 2) in Hn. lia.
  - destruct (_ <? 40); [done|]. apply bind_Ok in H as (n & Hn & [= H]). apply (Hb 4) in Hn. lia.
Qed.

(** Every packet that is cut ends later, or is cut at the end. *)
Lemma pending_ends mtu ds cur k d p :
  linked mtu ds cur → ds !! k = Some d → p ∈ pending (after d) → p ∈ concat (ended <$> ds) ++ pending cur.
Proof.
  intros H. revert k d. induction H as [|ds d0 H IH Hf]; intros k d Hk Hp; [done|].
  rewrite fmap_app, concat_app. cbn [fmap list_fmap concat]. rewrite app_nil_r, <- app_assoc.
  apply lookup_app_Some in Hk as [Hk|[_ Hk]].
  - specialize (IH _ _ Hk Hp). apply elem_of_app in IH as [IH|IH]; [apply elem_of_app; by left|].
    apply elem_of_app. right. apply elem_of_app. destruct Hf as [old part rest Hr _ _|c ps frag rest Hps Hc _].
    + right. unfold pending in *. cbn in *. rewrite !bool_decide_eq_false_2 in * by (try done; by intros [_ ?]%app_nil).
      by rewrite app_assoc in IH.
    + left. apply elem_of_app. by left.
  - apply list_lookup_singleton_Some in Hk as [_ <-]. apply elem_of_app. right. apply elem_of_app. by right.
Qed.

Section in_order.
Context (sess stream mtu : Z) (Hmtu : 679 ≤ mtu < 65536).
Context (ds : list desc) (cur : cut) (Hl : linked mtu ds cur) (H64 : len ds ≤ 2 ^ 64).
Context (Hshort : ∀ d p, d ∈ ds → p ∈ pending (after d) → len p ≤ 65575).

Lemma mtu_ok : hdrLen ≤ mtu < 65536.
Proof using Hmtu. unfold hdrLen. lia. Qed.

(** The list of the worker before frame [j]. *)
Record in_step (w : Worker.t) (j : nat) : Prop := {
  is_before : before_frame (entries (getRlist (epoch_of stream) w)) j (cut_before ds j);
  is_fills : (mtu - hdrLen) * (len (entries (getRlist (epoch_of stream) w)) - 1) ≤ len (cut_before ds j).1;
  is_capacity : capacity (getRlist (epoch_of stream) w) = reassemblyListCap
}.

Lemma step_new s : in_step (newWorker s) 0.
Proof using Hmtu. split; [done| |done]. unfold getRlist, newWorker. cbn [rlists]. rewrite lookup_empty. cbn [default entries RList.newReassemblyList fst cut_before]. unfold len, hdrLen. cbn [length]. lia. Qed.

Lemma step_short w j d : in_step w j → ds !! j = Some d → len (entries (getRlist (epoch_of stream) w)) < reassemblyListCap.
Proof using All.
  intros [Hb Hf _] Hj. unfold reassemblyListCap. generalize dependent (entries (getRlist (epoch_of stream) w)). intros es Hb Hf. unfold cut_before in *.
  destruct j as [|k]; [destruct Hb as [-> _]; unfold len; cbn; lia|].
  destruct Hb as [[-> _]|Hch]; [unfold len; cbn; lia|].
  destruct (ds !! k) as [dk|] eqn:Hk; [|apply lookup_ge_None in Hk; apply lookup_lt_Some in Hj; lia]. cbn in Hch, Hf.
  assert ((after dk).2 ≠ []) as Hr by (by destruct Hch).
  assert (len ((after dk).1 ++ (after dk).2) ≤ 65575) as Hp.
  { apply (Hshort dk); [by eapply list_elem_of_lookup_2|]. unfold pending. rewrite bool_decide_eq_false_2 by done.
    by apply list_elem_of_singleton. }
  rewrite len_app in Hp. pose proof (len_pos _ Hr). unfold hdrLen in *.
  destruct (Z.lt_ge_cases (len es) 100); [done|].
  pose proof (Z.mul_le_mono_nonneg 663 (mtu - 16) 99 (len es - 1) ltac:(lia) ltac:(lia) ltac:(lia) ltac:(lia)). lia.
Qed.

Lemma step_next w j d stale :
  in_step w j → ds !! j = Some d →
  ∃ w' freed, processFrame (received sess (frame_bytes sess stream j d) stale) w = Ok (w', ended d, freed) ∧ in_step w' (S j).
Proof using All.
  intros Hs Hj. pose proof (step_short _ _ _ Hs Hj) as Hcap. destruct Hs as [Hb Hf Hc].
  destruct (processFrame_eq sess stream mtu mtu_ok ds cur j d stale w) as (fb & Harr & ->); try done.
  rewrite <- (linked_next _ _ _ _ _ Hl Hj) in Hb, Hf. rewrite <- Hc in Hcap.
  destruct (Insert_next sess stream mtu mtu_ok ds cur j d fb stale _ Hl H64 Hj Harr Hb Hcap) as (es' & freed & -> & Hset & Hgr).
  go_cbn. eexists _, _. split; [done|].
  assert (∀ l, getRlist (epoch_of stream) (set_rlists (<[epoch_of stream:=l]> (rlists w)) w) =
    RList.mk (epoch l) (capacity l) false (entries l)) as Hget.
  { intros l. unfold getRlist. cbn [rlists set_rlists]. by rewrite lookup_insert_eq. }
  split; rewrite Hget; unfold cut_before; cbn [entries set_entries capacity]; rewrite ?Hj; cbn [fmap option_fmap option_map from_option id]; [done| |done].
  pose proof (len_nonneg (after d).1). unfold hdrLen in *. pose proof (len_nonneg es'). destruct Hgr as [Hgr|[E1 E2]].
  - assert (len es' - 1 = 0 ∨ len es' - 1 = -1) as [-> | ->] by lia; lia.
  - rewrite E1, E2. unfold hdrLen in *. revert Hf. generalize (len (entries (getRlist (epoch_of stream) w))). intros n Hf. nia.
Qed.

Lemma process_in_order done todo stales w :
  ds = done ++ todo → length stales = length todo → in_step w (length done) →
  ∃ w' freed, process_all (Some <$> zip_with (received sess)
      (imap (λ i, frame_bytes sess stream (length done + i)) todo) stales) w = Ok (w', concat (ended <$> todo), freed).
Proof using All.
  revert done stales w. induction todo as [|d todo IH]; intros sofar stales w Hds Hn Hw.
  { destruct stales; [|done]. by exists w, []. }
  destruct stales as [|stale stales]; [done|]. rewrite imap_cons. cbn [zip_with fmap list_fmap process_all].
  rewrite Nat.add_0_r.
  destruct (step_next w (length sofar) d stale) as (w1 & freed1 & -> & Hw1); [done| |].
  { rewrite Hds, lookup_app_r, Nat.sub_diag by lia. done. }
  go_cbn. destruct (IH (sofar ++ [d]) stales w1) as (w2 & freed2 & E); [by rewrite <- app_assoc|by injection Hn| |].
  { rewrite length_app. cbn [length]. by rewrite Nat.add_1_r. }
  rewrite length_app in E. cbn [length] in E.
  rewrite (imap_ext _ (λ i, frame_bytes sess stream (length sofar + 1 + i))) by (intros i x _; cbn; by replace (length sofar + S i)%nat with (length sofar + 1 + i)%nat by lia).
  rewrite E. go_cbn. eexists _, _. cbn [fmap list_fmap concat]. done.
Qed.
End in_order.

(** * What comes out of the tunnel *)

(** C11: Whatever the network does to the frames, only packets that were sent come
    out of the tunnel.  Take any encoders with different stream numbers, each after
    any interleaving of its writers with its reader, and let a worker receive any
    of their frames, in any order, any number of times, in buffers with any old
    bytes behind the frame, in batches with a cleanup of the reassembly lists after
    any of them.  The worker does not panic; each packet that it writes is an IP
    packet that the ring of one of the encoders took, with all its bytes; and every
    buffer is either in a reassembly list or was released, once. *)
Theorem tunnel_delivers_only_sent senders batches sess :
  Forall sender_ok senders → NoDup ((λ s, epoch_of (s_stream s)) <$> senders) →
  Forall (λ b, Forall (sent_by senders) b.1) batches →
  ∃ w sent freed, rounds batches (newWorker sess) = Ok (w, sent, freed) ∧
    (∀ p, p ∈ sent → ∃ s, s ∈ senders ∧ p ∈ s_acc s ∧ is_valid p = true) ∧
    (held (rlists w) + length freed = length (concat batches.*1))%nat.
Proof.
  intros Hok Hnd Hb.
  assert (∃ dss, Forall2 describes senders dss) as [dss Hds].
  { apply Forall_exists_Forall2_l. eapply Forall_impl; [exact Hok|]. apply sender_describes. }
  destruct (rounds_safe senders dss Hnd Hds batches (newWorker sess)) as (w & sent & freed & E & _ & Hs & Hn);
    [intros ep l; cbn [rlists newWorker]; by rewrite lookup_empty|done|].
  exists w, sent, freed. split; [done|]. split; [by apply Forall_forall|]. rewrite Hn. cbn [rlists newWorker].
  unfold held. rewrite map_to_list_empty. cbn. lia.
Qed.

(** A packet of 50 bytes, in two frames of at most 60 bytes. *)
Definition example_packet : bytes := [0x45; 0; 0; 50] ++ replicate 46 7.
Definition example_run : option (Encoder.t * phase * list bytes * list bytes) :=
  perform_all [Writes example_packet; Reads; Reads; Reads; Reads; Reads; Closes; Reads] (newEncoder 1 5 60, Idle, [], []).
Definition example_sender : sender :=
  match example_run with
  | Some (e, ph, acc, fs) => mkSender 1 5 60 e ph acc fs
  | None => mkSender 1 5 60 (newEncoder 1 5 60) Idle [] []
  end.
Definition example_buffer (k : nat) : FrameBuf.t := received 1 (nth k (s_frames example_sender) []) [9; 9].

Lemma tunnel_delivers_only_sent_witness :
  ∃ w sent freed,
    rounds [([example_buffer 1; example_buffer 0; example_buffer 0; example_buffer 1], true); ([example_buffer 0], false)]
      (newWorker 1) = Ok (w, sent, freed) ∧
    (∀ p, p ∈ sent → ∃ s, s ∈ [example_sender] ∧ p ∈ s_acc s ∧ is_valid p = true) ∧
    (held (rlists w) + length freed = 5)%nat.
Proof.
  assert (∀ k, (k < 2)%nat → sent_by [example_sender] (example_buffer k)) as Hb.
  { intros k Hk. exists example_sender, (nth k (s_frames example_sender) []), [9; 9].
    split; [by left|]. split; [|done]. destruct k as [|[|k]]; [| |lia]; apply list_elem_of_In, nth_In; vm_compute; lia. }
  apply (tunnel_delivers_only_sent [example_sender]
    [([example_buffer 1; example_buffer 0; example_buffer 0; example_buffer 1], true); ([example_buffer 0], false)] 1).
  - apply Forall_singleton. split; [vm_compute; split; [discriminate|reflexivity]|]. split; [vm_compute; discriminate|].
    apply (perform_all_run 1 5 60 [Writes example_packet; Reads; Reads; Reads; Reads; Reads; Closes; Reads]
      (newEncoder 1 5 60) Idle [] []); [constructor|vm_compute; reflexivity].
  - apply NoDup_singleton.
  - repeat constructor; apply Hb; lia.
Defined.

(** C12: Without loss, the tunnel is transparent.  When all frames of an encoder
    arrive in order, the worker writes the valid IP packets that the encoder took,
    in order, once each, all but those that are still in the ring or in the frame
    under way; and after the encoder was closed and returned nil, all of them.
    This needs frames of at least 679 bytes: a reassembly list has at most 100
    frames, and an IP packet up to 65575 bytes. *)
Theorem tunnel_roundtrip sess stream mtu e ph acc fs stales s :
  679 ≤ mtu < 65536 → run sess stream mtu e ph acc fs → len fs ≤ 2 ^ 64 → Forall wf_bytes acc → length stales = length fs →
  ∃ w sent freed waiting,
    process_all (Some <$> zip_with (received sess) fs stales) (newWorker s) = Ok (w, sent, freed) ∧
    filter (λ p, is_valid p = true) acc = sent ++ waiting ∧ (ph = Stopped → waiting = []).
Proof.
  intros Hm Hr H64 Hwf Hst. destruct (run_inv sess stream mtu e ph acc fs) as (ds & c & ps & got & q & H); [unfold hdrLen; lia|done|].
  destruct H as [_ _ _ Hacc _ Hl -> Hgot Hph Hstop]. unfold len in H64. rewrite length_imap in H64, Hst.
  assert (∀ d p, d ∈ ds → p ∈ pending (after d) → len p ≤ 65575) as Hshort.
  { intros d p Hd Hp. apply list_elem_of_lookup in Hd as (k & Hk).
    pose proof (pending_ends _ _ _ _ _ _ Hl Hk Hp) as Hin.
    assert (p ∈ filter (λ p, is_valid p = true) got) as [Hv Hg]%list_elem_of_filter.
    { rewrite Hgot, app_assoc. apply elem_of_app. by left. }
    apply is_valid_len; [|done]. rewrite Forall_forall in Hwf. apply Hwf. rewrite Hacc. apply elem_of_app. by left. }
  destruct (process_in_order sess stream mtu Hm ds c Hl H64 Hshort [] ds stales (newWorker s)) as (w & freed & E); try done.
  { by apply step_new. }
  exists w, (concat (ended <$> ds)), freed, (pending c ++ ps ++ filter (λ p, is_valid p = true) q).
  split; [exact E|]. split; [by rewrite Hacc, filter_app, Hgot, <- !app_assoc|].
  intros ->. destruct (Hstop eq_refl) as [-> _]. destruct Hph as [-> ->]. done.
Qed.

(** Two packets and something that is not one, in one frame. *)
Definition example_small (x : Z) : bytes := [0x45; 0; 0; 21] ++ replicate 17 x.
Lemma tunnel_roundtrip_witness :
  ∃ w freed, process_all (Some <$> zip_with (received 1)
      (match perform_all [Writes (example_small 3); Writes [1; 2]; Writes (example_small 4); Reads; Reads; Reads; Reads; Closes; Reads; Reads; Reads]
          (newEncoder 1 5 1200, Idle, [], []) with Some (_, _, _, fs) => fs | None => [] end) [[]]) (newWorker 2) =
    Ok (w, [example_small 3; example_small 4], freed).
Proof.
  destruct (perform_all [Writes (example_small 3); Writes [1; 2]; Writes (example_small 4); Reads; Reads; Reads; Reads; Closes; Reads; Reads; Reads]
          (newEncoder 1 5 1200, Idle, [], [])) as [[[[e ph] acc] fs]|] eqn:E; [|vm_compute in E; discriminate E].
  assert (ph = Stopped ∧ acc = [example_small 3; [1; 2]; example_small 4] ∧ length fs = 1%nat) as (-> & -> & Hfs)
    by (vm_compute in E; injection E as <- <- <- <-; done).
  destruct (tunnel_roundtrip 1 5 1200 e Stopped [example_small 3; [1; 2]; example_small 4] fs [[]] 2)
    as (w & sent & freed & waiting & Hp & Hf & Hw).
  - lia.
  - by apply (perform_all_run 1 5 1200 _ _ _ _ _ _ _ _ _ (run_new 1 5 1200) E).
  - unfold len. rewrite Hfs. vm_compute. discriminate.
  - repeat (constructor; [repeat (constructor; [vm_compute; split; [discriminate|reflexivity]|]); constructor|]); constructor.
  - by rewrite Hfs.
  - rewrite Hw, app_nil_r in Hf by done. exists w, freed. rewrite Hp. do 2 f_equal. f_equal. rewrite <- Hf. vm_compute. reflexivity.
Defined.

(** * The ingress server *)

(** A buffer of the pool: reset. *)
Definition pooled (fb : FrameBuf.t) : Prop := Reset fb = fb ∧ len (raw fb) = frameBufCap.

Lemma Release_pooled fb : len (raw fb) = frameBufCap → pooled (Release fb).
Proof. by split. Qed.

Lemma receive_dispatch device src sess body fb d :
  pooled fb → 14 ≤ len body → len body + 2 ≤ frameBufCap →
  IngressServer.receive device src (Some (0 :: sess :: body)) fb d =
    (c ← IngressServer.dispatch device src (received sess (0 :: sess :: body) (drop (2 + length body) (raw fb))) d;
     Ok (match c with Waits => Waits | Returns d => Returns (d, []) end)).
Proof.
  intros [Hr Hraw] Hmin Hmax. destruct fb as [? ? ? ? ? ? ? ? ? r]. unfold Reset in Hr. cbn in Hr, Hraw. injection Hr as <- <- <- <- <- <- <- <- <-.
  assert (copy r (0 :: sess :: body) = 0 :: sess :: body ++ drop (2 + length body) r) as Hcopy.
  { unfold copy. rewrite take_ge by (cbn [length]; unfold len, frameBufCap in *; lia). done. }
  unfold IngressServer.receive. cbn [raw]. rewrite len_copy, Hcopy, Hraw, !len_cons.
  replace (Z.min (1 + (1 + len body)) frameBufCap) with (1 + (1 + len body)) by lia.
  unfold sigHdrSize. replace (_ <? 16) with false by lia. set (tail := drop _ r).
  change (get (0 :: sess :: body ++ tail) 0) with (Ok 0). go_cbn. change (negb (0 =? 0)) with false. cbv iota.
  change (get (0 :: sess :: body ++ tail) 1) with (Ok sess). go_cbn. cbn [sessId]. unfold received. by rewrite !len_cons.
Qed.

(** A datagram with a frame in it reaches the ring of the worker of its source and
    session, as the [received] buffer of the theorems above. *)
Lemma receive_frame device src sess body fb d w :
  pooled fb → 14 ≤ len body → len body + 2 ≤ frameBufCap →
  match IngressServer.workers d !! (src, sess) with
  | Some w' => w = w'
  | None => device = true ∧ w = newWorker sess
  end →
  IngressServer.receive device src (Some (0 :: sess :: body)) fb d =
    (c ← Ring.Write [received sess (0 :: sess :: body) (drop (2 + length body) (raw fb))] true (Worker.Ring w);
     Ok (match c with
         | Waits => Waits
         | Returns (r, _) =>
             Returns (IngressServer.mk (<[(src, sess) := set_Ring r (mark false w)]> (IngressServer.workers d)), [])
         end)).
Proof.
  intros Hp Hmin Hmax Hw. rewrite receive_dispatch by done. unfold IngressServer.dispatch. cbn [sessId received].
  destruct (IngressServer.workers d !! (src, sess)) as [w'|]; [subst w'|destruct Hw as [-> ->]].
  - destruct (Ring.Write _ _ _) as [[|[??]]| |]; done.
  - destruct (Ring.Write _ _ _) as [[|[??]]| |]; done.
Qed.

(** A frame of a source for which there is no device is not released: it is lost
    to the pool. *)
Lemma unresolved_source_leaks src sess body fb d :
  pooled fb → 14 ≤ len body → len body + 2 ≤ frameBufCap → IngressServer.workers d !! (src, sess) = None →
  IngressServer.receive false src (Some (0 :: sess :: body)) fb d = Ok (Returns (d, [])).
Proof. intros Hp Hmin Hmax Hd. rewrite receive_dispatch by done. unfold IngressServer.dispatch. cbn [sessId received]. by rewrite Hd. Qed.

(** After a framing error the last frame stays in the list with its packets, and is
    dropped with the next frame: the packets of both are lost, although both frames
    are in order and complete. *)
Definition example_frame (k index : Z) (payload : bytes) : FrameBuf.t := received 1 (header 1 5 k index ++ payload) [].
Lemma framing_error_drops :
  ∃ w freed,
    process_all (Some <$> [
        example_frame 0 0 ([0x45; 0; 3; 232] ++ replicate 36 7);
        example_frame 1 2 ([7; 7] ++ example_small 3);
        example_frame 2 0 (example_small 4)]) (newWorker 1) = Ok (w, [], freed) ∧
    held (rlists w) = 0%nat ∧
    ∃ w' freed', process_all (Some <$> [example_frame 2 0 (example_small 4)]) (newWorker 1) = Ok (w', [example_small 4], freed').
Proof. eexists _, _. split; [vm_compute; reflexivity|]. split; [reflexivity|]. eexists _, _. vm_compute. reflexivity. Qed.

End TunnelProperties.
