(* ===== verification/StaticInfo.v ===== *)
(** The static info extension of beacons, [pkg/segment/extensions/staticinfo]
    (Module [StaticInfo]): its representation, the conversion to and from the
    protobuf messages (Module [StaticInfoPB], generated code, data only), and the
    round trip of the two conversions (Module [StaticInfoProperties]). *)
From S2P Require Export GoStrings.

(** * The messages of [seg_extensions.proto] *)
Module StaticInfoPB.

(** The messages of [latency], [bandwidth] and the like all have a map for the
    links inside the AS and one for the links to other ASes. *)
Record IntraInter := mkIntraInter {
  Intra : gmap Z Z;
  Inter : gmap Z Z
}.

(** Coordinates are 32-bit floating point numbers, kept as their bits. *)
Record GeoCoordinates := mkGeo {
  Latitude : Z;
  Longitude : Z;
  Address : gostring
}.

(** The enumeration [LinkType]. *)
Definition LINK_TYPE_UNSPECIFIED : Z := 0.
Definition LINK_TYPE_DIRECT : Z := 1.
Definition LINK_TYPE_MULTI_HOP : Z := 2.
Definition LINK_TYPE_OPEN_NET : Z := 3.

Record StaticInfoExtension := mk {
  Latency : option IntraInter;
  Bandwidth : option IntraInter;
  CarbonIntensity : option IntraInter;
  Sbom : option IntraInter;
  Vuln : option IntraInter;
  Fixed : option IntraInter;
  Affected : option IntraInter;
  Geo : gmap Z GeoCoordinates;
  LinkType : gmap Z Z;
  InternalHops : gmap Z Z;
  Note : gostring
}.

End StaticInfoPB.

(** * staticinfo.go *)
Module StaticInfo.

(** Interface identifiers are 64-bit unsigned integers, as in the messages: the
    conversion of a key is the identity.  A nil map and an empty one cannot be
    told apart by the code. *)
Record LatencyInfo := mkLatency { Intra : gmap Z Z; Inter : gmap Z Z }.

(** The types of [BandwidthInfo], [CarbonIntensityInfo], [SbomInfo], [VulnInfo],
    [FixedInfo] and [AffectedInfo]: maps of 64-bit unsigned integers. *)
Record Uint64Info := mkUint64 { IntraU : gmap Z Z; InterU : gmap Z Z }.

Definition GeoCoordinates := StaticInfoPB.GeoCoordinates.

Definition LinkTypeDirect : Z := 0.
Definition LinkTypeMultihop : Z := 1.
Definition LinkTypeOpennet : Z := 2.

Record Extension := mk {
  Latency : LatencyInfo;
  Bandwidth : Uint64Info;
  CarbonIntensity : Uint64Info;
  Sbom : Uint64Info;
  Vuln : Uint64Info;
  Fixed : Uint64Info;
  Affected : Uint64Info;
  Geo : gmap Z GeoCoordinates;
  LinkType : gmap Z Z;
  InternalHops : gmap Z Z;
  Note : gostring
}.

(** Durations are nanoseconds. *)
Definition Microsecond : Z := 1000.

(** [len(m) == 0] *)
Definition no_entries {V} (m : gmap Z V) : bool := bool_decide (m = ∅).

(** ** From the messages *)

(** A message is taken as the zero value when it is nil or has no entries. *)
Definition missing (pb : option StaticInfoPB.IntraInter) : option StaticInfoPB.IntraInter :=
  match pb with
  | Some m => if no_entries (StaticInfoPB.Intra m) && no_entries (StaticInfoPB.Inter m) then None else Some m
  | None => None
  end.

Definition latencyInfoFromPB (pb : option StaticInfoPB.IntraInter) : LatencyInfo :=
  match missing pb with
  | None => mkLatency ∅ ∅
  | Some m => mkLatency ((λ v, i64 (v * Microsecond)) <$> StaticInfoPB.Intra m)
                        ((λ v, i64 (v * Microsecond)) <$> StaticInfoPB.Inter m)
  end.

Definition bandwidthInfoFromPB (pb : option StaticInfoPB.IntraInter) : Uint64Info :=
  match missing pb with
  | None => mkUint64 ∅ ∅
  | Some m => mkUint64 (StaticInfoPB.Intra m) (StaticInfoPB.Inter m)
  end.

(** The source repeats the body for each type. *)
Definition carbonIntensityInfoFromPB : option StaticInfoPB.IntraInter → Uint64Info := bandwidthInfoFromPB.
Definition SbomInfoFromPB : option StaticInfoPB.IntraInter → Uint64Info := bandwidthInfoFromPB.
Definition VulnInfoFromPB : option StaticInfoPB.IntraInter → Uint64Info := bandwidthInfoFromPB.
Definition FixedInfoFromPB : option StaticInfoPB.IntraInter → Uint64Info := bandwidthInfoFromPB.
Definition AffectedInfoFromPB : option StaticInfoPB.IntraInter → Uint64Info := bandwidthInfoFromPB.

Definition geoInfoFromPB (pb : gmap Z StaticInfoPB.GeoCoordinates) : gmap Z GeoCoordinates := pb.

(** Unspecified and unknown link types are left out. *)
Definition linkTypeInfoFromPB (pb : gmap Z Z) : gmap Z Z :=
  omap (λ vpb, if vpb =? StaticInfoPB.LINK_TYPE_UNSPECIFIED then None
               else if vpb =? StaticInfoPB.LINK_TYPE_DIRECT then Some LinkTypeDirect
               else if vpb =? StaticInfoPB.LINK_TYPE_MULTI_HOP then Some LinkTypeMultihop
               else if vpb =? StaticInfoPB.LINK_TYPE_OPEN_NET then Some LinkTypeOpennet
               else None) pb.

Definition internalHopsInfoFromPB (pb : gmap Z Z) : gmap Z Z := pb.

Definition FromPB (pb : option StaticInfoPB.StaticInfoExtension) : option Extension :=
  pb ← pb;
  Some (mk (latencyInfoFromPB (StaticInfoPB.Latency pb)) (bandwidthInfoFromPB (StaticInfoPB.Bandwidth pb))
    (carbonIntensityInfoFromPB (StaticInfoPB.CarbonIntensity pb)) (SbomInfoFromPB (StaticInfoPB.Sbom pb))
    (VulnInfoFromPB (StaticInfoPB.Vuln pb)) (FixedInfoFromPB (StaticInfoPB.Fixed pb))
    (AffectedInfoFromPB (StaticInfoPB.Affected pb)) (geoInfoFromPB (StaticInfoPB.Geo pb))
    (linkTypeInfoFromPB (StaticInfoPB.LinkType pb)) (internalHopsInfoFromPB (StaticInfoPB.InternalHops pb))
    (StaticInfoPB.Note pb)).

(** ** To the messages *)

(** [uint32(v.Microseconds())] *)
Definition microseconds (v : Z) : Z := u32 (Z.quot v 1000).

Definition latencyInfoToPB (li : LatencyInfo) : option StaticInfoPB.IntraInter :=
  if no_entries (Intra li) && no_entries (Inter li) then None
  else Some (StaticInfoPB.mkIntraInter (microseconds <$> Intra li) (microseconds <$> Inter li)).

Definition bandwidthInfoToPB (bwi : Uint64Info) : option StaticInfoPB.IntraInter :=
  if no_entries (IntraU bwi) && no_entries (InterU bwi) then None
  else Some (StaticInfoPB.mkIntraInter (IntraU bwi) (InterU bwi)).

Definition carbonIntensityInfoToPB : Uint64Info → option StaticInfoPB.IntraInter := bandwidthInfoToPB.
Definition SbomInfoToPB : Uint64Info → option StaticInfoPB.IntraInter := bandwidthInfoToPB.
Definition VulnInfoToPB : Uint64Info → option StaticInfoPB.IntraInter := bandwidthInfoToPB.
Definition FixedInfoToPB : Uint64Info → option StaticInfoPB.IntraInter := bandwidthInfoToPB.
Definition AffectedInfoToPB : Uint64Info → option StaticInfoPB.IntraInter := bandwidthInfoToPB.

Definition geoInfoToPB (gi : gmap Z GeoCoordinates) : gmap Z StaticInfoPB.GeoCoordinates := gi.

Definition linkTypeInfoToPB (lti : gmap Z Z) : gmap Z Z :=
  omap (λ v, if v =? LinkTypeDirect then Some StaticInfoPB.LINK_TYPE_DIRECT
             else if v =? LinkTypeMultihop then Some StaticInfoPB.LINK_TYPE_MULTI_HOP
             else if v =? LinkTypeOpennet then Some StaticInfoPB.LINK_TYPE_OPEN_NET
             else None) lti.

Definition internalHopsInfoToPB (ihi : gmap Z Z) : gmap Z Z := ihi.

Definition ToPB (si : option Extension) : option StaticInfoPB.StaticInfoExtension :=
  si ← si;
  Some (StaticInfoPB.mk (latencyInfoToPB (Latency si)) (bandwidthInfoToPB (Bandwidth si))
    (carbonIntensityInfoToPB (CarbonIntensity si)) (SbomInfoToPB (Sbom si)) (VulnInfoToPB (Vuln si))
    (FixedInfoToPB (Fixed si)) (AffectedInfoToPB (Affected si)) (geoInfoToPB (Geo si))
    (linkTypeInfoToPB (LinkType si)) (internalHopsInfoToPB (InternalHops si)) (Note si)).

End StaticInfo.

(** * Properties *)
Module StaticInfoProperties.

Import StaticInfo.

(** What the messages can hold: latencies of at most 2^32 - 1 microseconds. *)
Definition latency_ok (v : Z) : Prop := 0 ≤ v < 2 ^ 32 * Microsecond.
Definition link_type_ok (v : Z) : Prop := v = LinkTypeDirect ∨ v = LinkTypeMultihop ∨ v = LinkTypeOpennet.

Record representable (si : Extension) : Prop := {
  rep_intra : map_Forall (λ _, latency_ok) (Intra (Latency si));
  rep_inter : map_Forall (λ _, latency_ok) (Inter (Latency si));
  rep_links : map_Forall (λ _, link_type_ok) (LinkType si)
}.

(** The part of a latency below a microsecond is lost. *)
Definition whole (v : Z) : Z := v - v mod Microsecond.
Definition coarse (si : Extension) : Extension :=
  mk (mkLatency (whole <$> Intra (Latency si)) (whole <$> Inter (Latency si))) (Bandwidth si) (CarbonIntensity si)
    (Sbom si) (Vuln si) (Fixed si) (Affected si) (Geo si) (LinkType si) (InternalHops si) (Note si).

Lemma no_entries_fmap {V W} (f : V → W) (m : gmap Z V) : no_entries (f <$> m) = no_entries m.
Proof. unfold no_entries. apply bool_decide_ext. apply fmap_empty_iff. Qed.

Lemma microseconds_roundtrip v : latency_ok v → i64 (microseconds v * Microsecond) = whole v.
Proof.
  unfold latency_ok, microseconds, whole, Microsecond, int_of, uint_of. intros Hv.
  rewrite Z.quot_div_nonneg by lia. change (2 ^ 32 * 1000) with 4294967296000 in Hv.
  rewrite (Z.mod_small (v / 1000)) by (change (2 ^ 32) with 4294967296; split; [apply Z.div_pos; lia|apply Z.div_lt_upper_bound; lia]).
  change (2 ^ (64 - 1)) with 9223372036854775808. change (2 ^ 64) with 18446744073709551616.
  rewrite Z.mod_small by dlia. dlia.
Qed.

Lemma latency_roundtrip li :
  map_Forall (λ _, latency_ok) (Intra li) → map_Forall (λ _, latency_ok) (Inter li) →
  latencyInfoFromPB (latencyInfoToPB li) = mkLatency (whole <$> Intra li) (whole <$> Inter li).
Proof.
  intros Ha Hb. unfold latencyInfoFromPB, latencyInfoToPB. destruct (_ && _) eqn:E.
  - apply andb_true_iff in E as [Ea%bool_decide_eq_true Eb%bool_decide_eq_true].
    cbn. rewrite Ea, Eb. by rewrite !fmap_empty.
  - cbn. rewrite !no_entries_fmap, E. cbn. rewrite <- !map_fmap_compose.
    f_equal; apply map_fmap_ext; intros i x Hx; cbn; apply microseconds_roundtrip; [by apply (Ha i)|by apply (Hb i)].
Qed.

Lemma bandwidth_roundtrip bwi : bandwidthInfoFromPB (bandwidthInfoToPB bwi) = bwi.
Proof.
  unfold bandwidthInfoFromPB, bandwidthInfoToPB. destruct bwi as [a b]. cbn.
  destruct (no_entries a && no_entries b) eqn:E; cbn; [|by rewrite E].
  by apply andb_true_iff in E as [->%bool_decide_eq_true ->%bool_decide_eq_true].
Qed.

Lemma link_type_roundtrip lti :
  map_Forall (λ _, link_type_ok) lti → linkTypeInfoFromPB (linkTypeInfoToPB lti) = lti.
Proof.
  intros H. apply map_eq. intros i. unfold linkTypeInfoFromPB, linkTypeInfoToPB.
  rewrite !lookup_omap. destruct (lti !! i) as [v|] eqn:E; [|done].
  destruct (H i v E) as [->|[->| ->]]; done.
Qed.

(** The static info extension survives the conversion to its message and
    back: every map comes back with the entries it had, apart from the part of
    the latencies below a microsecond, provided the latencies are not negative
    and fit 32 bits of microseconds, and the link types are those that the code
    knows. *)
Theorem staticinfo_roundtrip si :
  (∀ x, si = Some x → representable x) → FromPB (ToPB si) = coarse <$> si.
Proof.
  intros H. destruct si as [si|]; [|done]. destruct (H si eq_refl) as [Ha Hb Hl].
  cbn. unfold coarse. rewrite latency_roundtrip by done. rewrite link_type_roundtrip by done.
  unfold carbonIntensityInfoFromPB, SbomInfoFromPB, VulnInfoFromPB, FixedInfoFromPB, AffectedInfoFromPB,
    carbonIntensityInfoToPB, SbomInfoToPB, VulnInfoToPB, FixedInfoToPB, AffectedInfoToPB.
  by rewrite !bandwidth_roundtrip.
Qed.

Definition example : Extension :=
  let u := mkUint64 {[1 := 5]} ∅ in
  mk (mkLatency {[1 := 1500]} ∅) u u u u u u ∅ {[1 := LinkTypeMultihop; 2 := LinkTypeDirect]} ∅ [].

Lemma example_representable : representable example.
Proof.
  split; cbn.
  - by apply map_Forall_singleton.
  - apply map_Forall_empty.
  - apply map_Forall_insert_2; [right; by left|]. apply map_Forall_singleton. by left.
Qed.

Lemma staticinfo_roundtrip_witness :
  FromPB (ToPB (Some example)) = Some (coarse example) ∧ Intra (Latency (coarse example)) !! 1 = Some 1000.
Proof.
  split; [|reflexivity]. apply (staticinfo_roundtrip (Some example)).
  intros x [= <-]. exact example_representable.
Defined.

End StaticInfoProperties.
