(* ===== verification/SegExt.v ===== *)
(** The extensions of path segments, [pkg/segment]: the digests
    ([extensions/digest], Module [Digest]), the detachable EPIC authenticators
    ([extensions/epic], Module [EpicDetached]), the detachable FABRID maps
    ([extensions/fabrid], Module [FabridDetached]) and their combination
    ([extensions.go], [unsigned.go], Module [Extensions]).  Module [ExtensionPB]
    has the protobuf messages (generated code, data only).  Module
    [ExtensionProperties]: what the digests do and do not protect. *)
From S2P Require Export StaticInfo.
From stdpp Require Import sorting.
#[local] Open Scope Z_scope.

#[export] Instance ascii_countable_inst : Countable ascii :=
  inj_countable' (λ c, N_of_ascii c) ascii_of_N ascii_N_embedding.

(** Sorting with [sort.Slice] and a [less] that is a strict total order on the
    distinct elements of the slice: the result does not depend on the algorithm. *)
Definition sort_Slice {A} (less : A → A → bool) (l : list A) : list A :=
  @merge_sort A (λ x y, less y x = false) (λ x y, bool_eq_dec (less y x) false) l.

(** [s < t] on Go strings: bytewise. *)
Fixpoint string_less (s t : gostring) : bool :=
  match s, t with
  | _, [] => false
  | [], _ :: _ => true
  | c :: s, d :: t => (byte_of c <? byte_of d) || ((byte_of c =? byte_of d) && string_less s t)
  end.

(** * The messages *)
Module ExtensionPB.

(** [DigestExtension]: the two digests, each a message of its own. *)
Record DigestExtension := mkDigests {
  DigestEpic : option bytes;
  DigestFabrid : option bytes
}.

Record EPICDetachedExtension := mkEPIC {
  AuthHopEntry : bytes;
  AuthPeerEntries : list bytes
}.

(** [FABRIDConnectionType] *)
Definition TYPE_UNSPECIFIED : Z := 0.
Definition TYPE_IPV4_RANGE : Z := 1.
Definition TYPE_IPV6_RANGE : Z := 2.
Definition TYPE_INTERFACE : Z := 3.
Definition TYPE_WILDCARD : Z := 4.

Record FABRIDConnectionPoint := mkPoint {
  Type_ : Z;
  IpAddress : bytes;
  IpPrefix : Z;
  Interface : Z
}.
Record FABRIDIngressEgressPair := mkPair {
  Ingress : option FABRIDConnectionPoint;
  Egress : option FABRIDConnectionPoint
}.
Record FABRIDIndexMapEntry := mkEntry {
  IePair : option FABRIDIngressEgressPair;
  SupportedPolicyIndices : list Z
}.
Record FABRIDPolicyIdentifier := mkPolicy {
  PolicyIsLocal : bool;
  PolicyIdentifier : Z
}.
Record FABRIDDetachableMaps := mkMaps {
  SupportedIndicesMap : list FABRIDIndexMapEntry;
  IndexIdentifierMap : gmap Z FABRIDPolicyIdentifier
}.
(** [FABRIDDetachedExtension] has the maps as its only field. *)
Record FABRIDDetachedExtension := mkFABRID { Maps : option FABRIDDetachableMaps }.

Record PathSegmentUnsignedExtensions := mkUnsigned {
  Epic : option EPICDetachedExtension;
  Fabrid : option FABRIDDetachedExtension
}.

(** [HiddenPathExtension] has [is_hidden] as its only field. *)
Record PathSegmentExtensions := mkExtensions {
  StaticInfo : option StaticInfoPB.StaticInfoExtension;
  HiddenPath : option bool;
  Digests : option DigestExtension
}.

End ExtensionPB.

(** * extensions/digest/digest.go *)
Module Digest.

(** [Digest]: a nil slice and an empty one cannot be told apart by the code. *)
Definition t := bytes.
Definition DigestLength : Z := 16.

Record Extension := mk {
  Epic : t;
  Fabrid : t
}.

(** [copy] of a digest into a new slice of 16 bytes. *)
Definition fixed (d : bytes) : bytes := copy (make_bytes DigestLength) d.

Definition ExtensionFromPB (d : option ExtensionPB.DigestExtension) : option Extension :=
  d ← d;
  Some (mk (match ExtensionPB.DigestEpic d with None => [] | Some x => fixed x end)
           (match ExtensionPB.DigestFabrid d with None => [] | Some x => fixed x end)).

Definition ExtensionToPB (d : option Extension) : option ExtensionPB.DigestExtension :=
  d ← d;
  Some (ExtensionPB.mkDigests (Some (fixed (Epic d))) (Some (fixed (Fabrid d)))).

Section sha.
(** SHA-256 of the Standard Library: the 32-byte sum of what was written. *)
Context (sha256 : bytes → bytes).

Definition calculateDigest (input : bytes) : bytes := take (Z.to_nat DigestLength) (sha256 input).

(** The new digest. *)
Definition Set_ (input : bytes) : t := calculateDigest input.

Definition Validate (d : t) (input : bytes) : outcome unit :=
  fail_if (negb (bool_decide (calculateDigest input = d))) (New "digest validation failed").
End sha.

End Digest.

(** * extensions/epic/epic.go *)
Module EpicDetached.

Definition AuthLen : Z := 10.

Record Detached := mk {
  AuthHopEntry : bytes;
  AuthPeerEntries : list bytes
}.

(** [copy] of an authenticator into a new slice of 10 bytes. *)
Definition fixed (b : bytes) : bytes := copy (make_bytes AuthLen) b.

Definition DetachedFromPB (ext : option ExtensionPB.EPICDetachedExtension) : option Detached :=
  ext ← ext;
  Some (mk (fixed (ExtensionPB.AuthHopEntry ext)) (fixed <$> ExtensionPB.AuthPeerEntries ext)).

(** Authenticators of another length cannot be sent: the extension is left out. *)
Definition DetachedToPB (ed : option Detached) : option ExtensionPB.EPICDetachedExtension :=
  ed ← ed;
  if negb (len (AuthHopEntry ed) =? AuthLen) then None
  else if existsb (λ p, negb (len p =? AuthLen)) (AuthPeerEntries ed) then None
  else Some (ExtensionPB.mkEPIC (fixed (AuthHopEntry ed)) (fixed <$> AuthPeerEntries ed)).

(** The loop over the peer entries. *)
Fixpoint copy_peers (peers : list bytes) (offset : Z) (b : bytes) : outcome bytes :=
  match peers with
  | [] => Ok b
  | peer :: peers =>
      _ ← fail_if (negb (len peer =? AuthLen)) (New "peer entry authenticator of wrong length");
      b ← on_sub b offset (offset + AuthLen) (λ m, Ok (copy m peer));
      copy_peers peers (offset + AuthLen) b
  end.

Definition DigestInput (ed : option Detached) : outcome bytes :=
  match ed with
  | None => Err (New "struct Detached pointer must not be nil")
  | Some ed =>
      let bufSize := 2 + (1 + len (AuthPeerEntries ed)) * AuthLen in
      let b := make_bytes bufSize in
      let totalLen := u16 (1 + len (AuthPeerEntries ed)) in
      b ← PutUint16 b totalLen;
      _ ← fail_if (negb (len (AuthHopEntry ed) =? AuthLen)) (New "hop entry authenticator of wrong length");
      b ← on_sub b 2 12 (λ m, Ok (copy m (AuthHopEntry ed)));
      copy_peers (AuthPeerEntries ed) 12 b
  end.

End EpicDetached.

(** * extensions/fabrid/fabrid.go *)
Module FabridDetached.

(** A connection point type is a string; the code uses the following ones. *)
Definition IPv4Range : gostring := str "ipv4".
Definition IPv6Range : gostring := str "ipv6".
Definition Interface : gostring := str "interface".
Definition Wildcard : gostring := str "wildcard".

Record ConnectionPoint := mkPoint {
  Type_ : gostring;
  IP : gostring;
  Prefix : Z;
  InterfaceId : Z
}.
Record ConnectionPair := mkPair {
  Ingress : ConnectionPoint;
  Egress : ConnectionPoint
}.
Record PolicyIdentifier := mkPolicy {
  IsLocal : bool;
  Identifier : Z
}.

#[global] Instance ConnectionPoint_eq_dec : EqDecision ConnectionPoint.
Proof. solve_decision. Defined.
#[global] Instance ConnectionPair_eq_dec : EqDecision ConnectionPair.
Proof. solve_decision. Defined.
#[global] Instance ConnectionPoint_countable : Countable ConnectionPoint.
Proof.
  refine (inj_countable' (λ c, (Type_ c, IP c, Prefix c, InterfaceId c))
    (λ '(t, i, p, n), mkPoint t i p n) _). by intros [].
Defined.
#[global] Instance ConnectionPair_countable : Countable ConnectionPair.
Proof.
  refine (inj_countable' (λ c, (Ingress c, Egress c)) (λ '(i, e), mkPair i e) _). by intros [].
Defined.

Record Detached := mk {
  SupportedIndicesMap : gmap ConnectionPair (list Z);
  IndexIdentiferMap : gmap Z PolicyIdentifier
}.

Definition Less (c d : ConnectionPoint) : bool :=
  if negb (bool_decide (Type_ c = Type_ d)) then string_less (Type_ c) (Type_ d)
  else if negb (bool_decide (IP c = IP d)) then string_less (IP c) (IP d)
  else if negb (Prefix c =? Prefix d) then Prefix c <? Prefix d
  else InterfaceId c <? InterfaceId d.

Definition MatchesIF (c : ConnectionPoint) (intf : Z) : bool :=
  bool_decide (Type_ c = Interface) && (InterfaceId c =? intf) || bool_decide (Type_ c = Wildcard).

Definition is_range (c : ConnectionPoint) : bool :=
  bool_decide (Type_ c = IPv4Range) || bool_decide (Type_ c = IPv6Range).

Definition Matches (c : ConnectionPair) (ingress egress : Z) (allowIpPolicies : bool) : bool :=
  let m := MatchesIF (Ingress c) ingress && MatchesIF (Egress c) egress in
  if allowIpPolicies then m || (MatchesIF (Ingress c) ingress && (egress =? 0) && is_range (Egress c)) else m.

Definition pair_less (a b : ConnectionPair) : bool :=
  if negb (bool_decide (Ingress a = Ingress b)) then Less (Ingress a) (Ingress b) else Less (Egress a) (Egress b).

(** The keys of a map in the order that sorting them gives. *)
Definition SortedPairs (ind : gmap ConnectionPair (list Z)) : list ConnectionPair :=
  sort_Slice pair_less (map_to_list ind).*1.
Definition SortedIndices (id : gmap Z PolicyIdentifier) : list Z :=
  sort_Slice Z.ltb (map_to_list id).*1.

Section net.
(** Package [net] of the Standard Library: parsing and printing IP addresses, and
    masking one to its first [ones] bits out of [bits].  A nil address is empty. *)
Context (net_ParseIP : gostring → bytes) (net_Mask : bytes → Z → Z → bytes) (net_IP_String : bytes → gostring).
(** The order in which a map is iterated. *)
Context (order_pairs : gmap ConnectionPair (list Z) → list (ConnectionPair * list Z)).
Context (order_policies : gmap Z ExtensionPB.FABRIDPolicyIdentifier → list (Z * ExtensionPB.FABRIDPolicyIdentifier)).

(** The address of [IPNetwork]. *)
Definition IPNetwork_IP (c : ConnectionPoint) : bytes :=
  if bool_decide (Type_ c = IPv4Range) then net_Mask (net_ParseIP (IP c)) (Prefix c) 32
  else if bool_decide (Type_ c = IPv6Range) then net_Mask (net_ParseIP (IP c)) (Prefix c) 128
  else [].

Definition IPConnectionPointFromString (ip : gostring) (prefix : Z) (ty : gostring) : ConnectionPoint :=
  let bits := if bool_decide (ty = IPv4Range) then 32 else if bool_decide (ty = IPv6Range) then 128 else 0 in
  mkPoint ty (net_IP_String (net_Mask (net_ParseIP ip) prefix bits)) prefix 0.

Definition ConnectionPointToPB (point : ConnectionPoint) : ExtensionPB.FABRIDConnectionPoint :=
  if bool_decide (Type_ point = IPv4Range) then
    ExtensionPB.mkPoint ExtensionPB.TYPE_IPV4_RANGE (IPNetwork_IP point) (Prefix point) 0
  else if bool_decide (Type_ point = IPv6Range) then
    ExtensionPB.mkPoint ExtensionPB.TYPE_IPV6_RANGE (IPNetwork_IP point) (Prefix point) 0
  else if bool_decide (Type_ point = Interface) then
    ExtensionPB.mkPoint ExtensionPB.TYPE_INTERFACE [] 0 (InterfaceId point)
  else if bool_decide (Type_ point = Wildcard) then
    ExtensionPB.mkPoint ExtensionPB.TYPE_WILDCARD [] 0 0
  else ExtensionPB.mkPoint ExtensionPB.TYPE_UNSPECIFIED [] 0 0.

(** The type of a nil message cannot be read. *)
Definition ConnectionPointFromPB (point : option ExtensionPB.FABRIDConnectionPoint) : outcome ConnectionPoint :=
  match point with
  | None => Panic
  | Some point =>
      let ty := ExtensionPB.Type_ point in
      Ok (if ty =? ExtensionPB.TYPE_IPV4_RANGE then
            mkPoint IPv4Range (net_IP_String (ExtensionPB.IpAddress point)) (ExtensionPB.IpPrefix point) 0
          else if ty =? ExtensionPB.TYPE_IPV6_RANGE then
            mkPoint IPv6Range (net_IP_String (ExtensionPB.IpAddress point)) (ExtensionPB.IpPrefix point) 0
          else if ty =? ExtensionPB.TYPE_INTERFACE then
            mkPoint Interface [] 0 (u16 (ExtensionPB.Interface point))
          else if ty =? ExtensionPB.TYPE_WILDCARD then mkPoint Wildcard [] 0 0
          else mkPoint [] [] 0 0)
  end.

Definition PolicyIdentifierToPB (i : PolicyIdentifier) : ExtensionPB.FABRIDPolicyIdentifier :=
  ExtensionPB.mkPolicy (IsLocal i) (Identifier i).
Definition PolicyIdentifierFromPB (i : ExtensionPB.FABRIDPolicyIdentifier) : PolicyIdentifier :=
  mkPolicy (ExtensionPB.PolicyIsLocal i) (ExtensionPB.PolicyIdentifier i).

Definition SupportedIndicesMapToPB (m : gmap ConnectionPair (list Z)) : list ExtensionPB.FABRIDIndexMapEntry :=
  (λ '(ie, indices),
    ExtensionPB.mkEntry
      (Some (ExtensionPB.mkPair (Some (ConnectionPointToPB (Ingress ie))) (Some (ConnectionPointToPB (Egress ie)))))
      indices) <$> order_pairs m.

(** An entry without its pair of connection points, or with only one of them,
    makes the code dereference a nil message. *)
Definition index_map_entry (entry : ExtensionPB.FABRIDIndexMapEntry) (m : gmap ConnectionPair (list Z)) :
    outcome (gmap ConnectionPair (list Z)) :=
  match ExtensionPB.IePair entry with
  | None => Panic
  | Some ie =>
      ingress ← ConnectionPointFromPB (ExtensionPB.Ingress ie);
      egress ← ConnectionPointFromPB (ExtensionPB.Egress ie);
      Ok (<[mkPair ingress egress := u8 <$> ExtensionPB.SupportedPolicyIndices entry]> m)
  end.
Fixpoint index_map_entries (entries : list ExtensionPB.FABRIDIndexMapEntry) (m : gmap ConnectionPair (list Z)) :
    outcome (gmap ConnectionPair (list Z)) :=
  match entries with
  | [] => Ok m
  | entry :: entries => m ← index_map_entry entry m; index_map_entries entries m
  end.
Definition SupportedIndicesMapFromPB (entries : list ExtensionPB.FABRIDIndexMapEntry) :
    outcome (gmap ConnectionPair (list Z)) := index_map_entries entries ∅.

Definition IndexIdentifierMapToPB (m : gmap Z PolicyIdentifier) : gmap Z ExtensionPB.FABRIDPolicyIdentifier :=
  PolicyIdentifierToPB <$> m.
(** Two keys may become the same: the one iterated last stays. *)
Definition IndexIdentifierMapFromPB (m : gmap Z ExtensionPB.FABRIDPolicyIdentifier) : gmap Z PolicyIdentifier :=
  foldl (λ acc '(index, i), <[u8 index := PolicyIdentifierFromPB i]> acc) ∅ (order_policies m).

Definition DetachedToPB (detached : option Detached) : ExtensionPB.FABRIDDetachedExtension :=
  ExtensionPB.mkFABRID (d ← detached;
    Some (ExtensionPB.mkMaps (SupportedIndicesMapToPB (SupportedIndicesMap d))
                             (IndexIdentifierMapToPB (IndexIdentiferMap d)))).

Definition DetachedFromPB (detached : option ExtensionPB.FABRIDDetachedExtension) : outcome (option Detached) :=
  match detached ≫= ExtensionPB.Maps with
  | None => Ok None
  | Some maps =>
      indices ← SupportedIndicesMapFromPB (ExtensionPB.SupportedIndicesMap maps);
      Ok (Some (mk indices (IndexIdentifierMapFromPB (ExtensionPB.IndexIdentifierMap maps))))
  end.
End net.

Section sha.
Context (sha256 : bytes → bytes).

(** [binary.Write] of a value of a string type: strings have no fixed size, so the
    call returns an error, which the code ignores, and writes nothing. *)
Definition write_string (s : gostring) : bytes := [].

Definition write_point (c : ConnectionPoint) : bytes :=
  write_string (Type_ c) ++
  (if bool_decide (Type_ c = Interface) then be_bytes 2 (InterfaceId c)
   else if is_range c then be_bytes 4 (Prefix c) ++ write_string (IP c) else []).

Definition write_policy (m : gmap Z PolicyIdentifier) (k : Z) : bytes :=
  match m !! k with
  | Some i => [k; if IsLocal i then 1 else 0] ++ be_bytes 4 (Identifier i)
  | None => [k]
  end.

(** The indices of a pair are sorted in place. *)
Definition sort_indices (l : list Z) : list Z := sort_Slice Z.ltb l.
Definition sorted_indices (d : Detached) : Detached :=
  mk (sort_indices <$> SupportedIndicesMap d) (IndexIdentiferMap d).

Definition write_pair (m : gmap ConnectionPair (list Z)) (k : ConnectionPair) : bytes :=
  write_point (Ingress k) ++ write_point (Egress k) ++ default [] (m !! k).

(** The bytes that are hashed. *)
Definition hash_input (d : Detached) : bytes :=
  flat_map (write_policy (IndexIdentiferMap d)) (SortedIndices (IndexIdentiferMap d)) ++
  flat_map (write_pair (SupportedIndicesMap (sorted_indices d))) (SortedPairs (SupportedIndicesMap d)).

Definition Hash : SE Detached bytes := λ d,
  (sorted_indices d, Ok (take (Z.to_nat Digest.DigestLength) (sha256 (hash_input d)))).
End sha.

End FabridDetached.

(** * extensions.go and unsigned.go *)
Module Extensions.

(** [HiddenPathExtension] is its flag [IsHidden]. *)
Record t := mk {
  HiddenPath : bool;
  StaticInfo : option StaticInfo.Extension;
  Digests : option Digest.Extension
}.
Definition zero : t := mk false None None.

Record Unsigned := mkUnsigned {
  Epic : option EpicDetached.Detached;
  Fabrid : option FabridDetached.Detached
}.
Definition no_unsigned : Unsigned := mkUnsigned None None.

Definition extensionsFromPB (pb : option ExtensionPB.PathSegmentExtensions) : t :=
  match pb with
  | None => zero
  | Some pb => mk (default false (ExtensionPB.HiddenPath pb)) (StaticInfo.FromPB (ExtensionPB.StaticInfo pb))
                  (Digest.ExtensionFromPB (ExtensionPB.Digests pb))
  end.

Definition extensionsToPB (ext : t) : option ExtensionPB.PathSegmentExtensions :=
  let hiddenPath := if HiddenPath ext then Some true else None in
  let staticInfo := StaticInfo.ToPB (StaticInfo ext) in
  let digest := Digest.ExtensionToPB (Digests ext) in
  match hiddenPath, staticInfo, digest with
  | None, None, None => None
  | _, _, _ => Some (ExtensionPB.mkExtensions staticInfo hiddenPath digest)
  end.

Section net.
Context (net_ParseIP : gostring → bytes) (net_Mask : bytes → Z → Z → bytes) (net_IP_String : bytes → gostring).
Context (order_pairs : gmap FabridDetached.ConnectionPair (list Z) → list (FabridDetached.ConnectionPair * list Z)).
Context (order_policies : gmap Z ExtensionPB.FABRIDPolicyIdentifier → list (Z * ExtensionPB.FABRIDPolicyIdentifier)).

Definition UnsignedExtensionsFromPB (ue : option ExtensionPB.PathSegmentUnsignedExtensions) : outcome Unsigned :=
  match ue with
  | None => Ok no_unsigned
  | Some ue =>
      fabrid ← FabridDetached.DetachedFromPB net_IP_String order_policies (ExtensionPB.Fabrid ue);
      Ok (mkUnsigned (EpicDetached.DetachedFromPB (ExtensionPB.Epic ue)) fabrid)
  end.

Definition UnsignedExtensionsToPB (ue : Unsigned) : option ExtensionPB.PathSegmentUnsignedExtensions :=
  Some (ExtensionPB.mkUnsigned (EpicDetached.DetachedToPB (Epic ue))
    (match Fabrid ue with
     | None => None
     | Some f => Some (FabridDetached.DetachedToPB net_ParseIP net_Mask order_pairs (Some f))
     end)).
End net.

Section sha.
Context (sha256 : bytes → bytes).

(** Present digests are not empty. *)
Definition epic_digest (e : t) : option Digest.t :=
  d ← Digests e; if bool_decide (Digest.Epic d = []) then None else Some (Digest.Epic d).
Definition fabrid_digest (e : t) : option Digest.t :=
  d ← Digests e; if bool_decide (Digest.Fabrid d = []) then None else Some (Digest.Fabrid d).

Definition check_epic (ue : Unsigned) (e : t) : outcome unit :=
  match Epic ue with
  | None => Ok tt
  | Some ed =>
      match epic_digest e with
      | None => Err (New "epic authenticators present, but hash is not")
      | Some d => input ← EpicDetached.DigestInput (Some ed); Digest.Validate sha256 d input
      end
  end.

(** [checkUnsignedExtensions] of non-nil arguments: hashing the FABRID maps sorts
    their index lists. *)
Definition checkUnsignedExtensions (e : t) : SE Unsigned unit := λ ue,
  match check_epic ue e with
  | Err m => (ue, Err m)
  | Panic => (ue, Panic)
  | Ok _ =>
      match Fabrid ue with
      | None => (ue, Ok tt)
      | Some f =>
          if negb (bool_decide (FabridDetached.SupportedIndicesMap f = ∅)) &&
             bool_decide (FabridDetached.IndexIdentiferMap f = ∅)
          then (ue, Err (New "fabrid maps are malformed"))
          else match fabrid_digest e with
               | None => (ue, Err (New "fabrid maps present, but hash is not"))
               | Some d =>
                   let '(f', r) := FabridDetached.Hash sha256 f in
                   (mkUnsigned (Epic ue) (Some f'),
                    digest ← r;
                    fail_if (negb (bool_decide (d = digest))) (New "fabrid digest validation failed"))
               end
      end
  end.
End sha.

End Extensions.

(** * Properties *)
Module ExtensionProperties.

Import Extensions.

(** ** The EPIC authenticators *)

Lemma copy_peers_Ok peers a rest b :
  EpicDetached.copy_peers peers (len a) (a ++ rest) = Ok b → len rest = len peers * EpicDetached.AuthLen →
  b = a ++ concat peers ∧ Forall (λ p, length p = 10%nat) peers.
Proof.
  unfold EpicDetached.AuthLen. revert a rest. induction peers as [|p peers IH]; intros a rest H Hl.
  - injection H as <-. change (len (@nil bytes)) with 0 in Hl. destruct rest; [done|rewrite len_cons in Hl; pose proof (len_nonneg rest); lia].
  - cbn [EpicDetached.copy_peers] in H. unfold EpicDetached.AuthLen in H. go_inv.
    assert (len p = 10) as Hp by (destruct (Z.eqb_spec (len p) 10); [done|discriminate]).
    rewrite len_cons in Hl. destruct (split_len 10 rest) as (m & c & -> & Hm & Hc); [pose proof (len_nonneg peers); lia|].
    rewrite on_sub_mid in * by lia. go_inv.
    rewrite copy_same in H by (unfold len in *; lia).
    rewrite app_assoc in H. destruct (IH (a ++ p) c) as [-> Hf].
    + rewrite <- H. f_equal. rewrite len_app. lia.
    + lia.
    + split; [by rewrite <- app_assoc|]. constructor; [unfold len in Hp; lia|done].
Qed.

(** The input is the number of authenticators and the authenticators, one after
    the other. *)
Lemma DigestInput_Ok d b :
  EpicDetached.DigestInput (Some d) = Ok b →
  b = be_bytes 2 (u16 (1 + len (EpicDetached.AuthPeerEntries d))) ++ EpicDetached.AuthHopEntry d ++
      concat (EpicDetached.AuthPeerEntries d) ∧
  length (EpicDetached.AuthHopEntry d) = 10%nat ∧ Forall (λ p, length p = 10%nat) (EpicDetached.AuthPeerEntries d).
Proof.
  unfold EpicDetached.DigestInput. cbv zeta. intros H.
  generalize dependent (EpicDetached.AuthPeerEntries d). generalize dependent (EpicDetached.AuthHopEntry d).
  intros ho ps H. unfold EpicDetached.AuthLen in H. pose proof (len_nonneg ps) as Hps.
  remember (2 + (1 + len ps) * 10) as n eqn:En.
  assert (len (make_bytes n) = n) as Hn by (apply len_make_bytes; lia).
  destruct (split_len 2 (make_bytes n)) as (x & c & E & Hx & Hc); [lia|].
  rewrite E in H. rewrite Hn in Hc.
  unfold PutUint16 in H. rewrite put_be_app in H by done. cbn [mbind outcome_bind] in H.
  assert (len (be_bytes 2 (u16 (1 + len ps))) = 2) as Hhd by apply len_be_bytes.
  generalize dependent (be_bytes 2 (u16 (1 + len ps))). intros hd H Hhd. go_inv.
  assert (len ho = 10) as Hho by (destruct (Z.eqb_spec (len ho) 10); [done|discriminate]).
  destruct (split_len 10 c) as (y & c' & -> & Hy & Hc'); [lia|].
  rewrite on_sub_mid in * by lia. go_inv.
  rewrite copy_same in H by (unfold len in *; lia).
  rewrite app_assoc in H.
  replace 12 with (len (hd ++ ho)) in H by (rewrite len_app; lia).
  apply copy_peers_Ok in H as [-> Hf]; [|unfold EpicDetached.AuthLen; lia].
  rewrite <- app_assoc. split_and!; [done|unfold len in Hho; lia|done].
Qed.

Lemma concat_inj_10 (l l' : list bytes) :
  Forall (λ p, length p = 10%nat) l → Forall (λ p, length p = 10%nat) l' → concat l = concat l' → l = l'.
Proof.
  intros Hl. revert l'. induction Hl as [|p l Hp _ IH]; intros l' Hl' E.
  - destruct Hl' as [|q l' Hq _]; [done|]. apply (f_equal length) in E. cbn in E. rewrite length_app in E. lia.
  - destruct Hl' as [|q l' Hq Hl'].
    + apply (f_equal length) in E. cbn in E. rewrite length_app in E. lia.
    + cbn in E. apply app_inj_1 in E as [-> E]; [|congruence]. f_equal. by apply IH.
Qed.

Lemma DigestInput_inj d d' b :
  EpicDetached.DigestInput (Some d) = Ok b → EpicDetached.DigestInput (Some d') = Ok b → d = d'.
Proof.
  intros (E & Hh & Hp)%DigestInput_Ok (E' & Hh' & Hp')%DigestInput_Ok. rewrite E in E'. clear E.
  apply app_inj_1 in E' as [_ E']; [|by rewrite !length_be_bytes].
  apply app_inj_1 in E' as [Eh Ep]; [|congruence]. apply concat_inj_10 in Ep; [|done..].
  destruct d, d'. cbn in *. congruence.
Qed.

Section sha.
Context (sha256 : bytes → bytes).

Lemma check_epic_Ok ue e ed :
  check_epic sha256 ue e = Ok tt → Epic ue = Some ed →
  ∃ input, EpicDetached.DigestInput (Some ed) = Ok input ∧ epic_digest e = Some (Digest.calculateDigest sha256 input).
Proof.
  unfold check_epic. intros H E. rewrite E in H. destruct (epic_digest e) as [d|]; [|done].
  go_inv. eexists. split; [done|]. unfold Digest.Validate in H. go_inv.
  f_equal. symmetry. destruct (bool_decide_reflect (Digest.calculateDigest sha256 x = d)); [done|discriminate].
Qed.

Lemma checkUnsigned_epic e ue ue' :
  checkUnsignedExtensions sha256 e ue = (ue', Ok tt) → check_epic sha256 ue e = Ok tt ∧ Epic ue' = Epic ue.
Proof.
  unfold checkUnsignedExtensions. destruct (check_epic sha256 ue e) as [[]| |]; [|done..].
  destruct (Fabrid ue) as [f|]; [|by intros [= <-]]. destruct (_ && _); [done|].
  destruct (fabrid_digest e) as [d|]; [|done]. cbn. by intros [= <- _].
Qed.

(** The EPIC authenticators are bound to the signed digest.  When the signed
    extensions of an AS entry accept two sets of detached EPIC authenticators,
    the inputs of the digests of the two sets have the same truncated hash, and
    the inputs are equal only if the sets are: who exchanges authenticators has
    to find a second input with the digest that was signed. *)
Theorem epic_authenticators_bound e ue1 ue1' ue2 ue2' ed1 ed2 :
  checkUnsignedExtensions sha256 e ue1 = (ue1', Ok tt) → checkUnsignedExtensions sha256 e ue2 = (ue2', Ok tt) →
  Epic ue1 = Some ed1 → Epic ue2 = Some ed2 →
  ∃ x y, EpicDetached.DigestInput (Some ed1) = Ok x ∧ EpicDetached.DigestInput (Some ed2) = Ok y ∧
    Digest.calculateDigest sha256 x = Digest.calculateDigest sha256 y ∧ (x = y ↔ ed1 = ed2).
Proof.
  intros [H1 _]%checkUnsigned_epic [H2 _]%checkUnsigned_epic E1 E2.
  destruct (check_epic_Ok _ _ _ H1 E1) as (x & Ex & Dx). destruct (check_epic_Ok _ _ _ H2 E2) as (y & Ey & Dy).
  exists x, y. split_and!; [done..| |]; [congruence|]. split; intros <-; [by apply (DigestInput_inj _ _ x)|].
  apply Ok_inj. by rewrite <- Ex, <- Ey.
Qed.
End sha.

(** The authenticators of an AS entry with one peer entry, and their digest. *)
Definition authenticators : EpicDetached.Detached := EpicDetached.mk (replicate 10 3) [replicate 10 5].
Definition epic_digests (sha256 : bytes → bytes) : Extensions.t :=
  Extensions.mk false None
    (Some (Digest.mk (take 16 (sha256 (default [] (match EpicDetached.DigestInput (Some authenticators) with
       Ok b => Some b | _ => None end)))) [])).

Lemma epic_authenticators_bound_witness :
  ∃ x y, EpicDetached.DigestInput (Some authenticators) = Ok x ∧ EpicDetached.DigestInput (Some authenticators) = Ok y ∧
    Digest.calculateDigest (λ b, b) x = Digest.calculateDigest (λ b, b) y ∧ (x = y ↔ authenticators = authenticators).
Proof.
  pose (ue := mkUnsigned (Some authenticators) None).
  apply (epic_authenticators_bound (λ b, b) (epic_digests (λ b, b)) ue ue ue ue); [by vm_compute|by vm_compute|done|done].
Defined.

(** ** The FABRID maps *)

Import FabridDetached.

(** Two hosts of different addresses, behind interface 1. *)
Definition from_if (n : Z) : ConnectionPoint := mkPoint Interface [] 0 n.
Definition to_host (ip : string) : ConnectionPoint := mkPoint IPv4Range (str ip) 32 0.
Definition maps (ip : string) : Detached :=
  mk {[mkPair (from_if 1) (to_host ip) := [2; 1]]} {[1 := mkPolicy true 7; 2 := mkPolicy false 9]}.
Definition digests (sha256 : bytes → bytes) : Extensions.t :=
  Extensions.mk false None (Some (Digest.mk [] (take 16 (sha256 (hash_input (maps "10.0.0.1")))))).

(** The FABRID maps are not protected by their digest.  The hash leaves out
    the types and the addresses of the connection points, because they are
    strings and [binary.Write] refuses those: the extensions that were signed for
    policies towards the host 10.0.0.1 accept the same policies towards
    10.0.0.2, whatever the hash function is. *)
Theorem fabrid_digest_ignores_addresses (sha256 : bytes → bytes) :
  sha256 (hash_input (maps "10.0.0.1")) ≠ [] →
  maps "10.0.0.1" ≠ maps "10.0.0.2" ∧
  ∀ ip, ip = "10.0.0.1"%string ∨ ip = "10.0.0.2"%string →
    ∃ ue', checkUnsignedExtensions sha256 (digests sha256) (mkUnsigned None (Some (maps ip))) = (ue', Ok tt).
Proof.
  intros Hne. split.
  { intros E. apply (f_equal (λ d, (map_to_list (SupportedIndicesMap d)).*1)) in E. vm_compute in E. discriminate. }
  intros ip Hip.
  assert (hash_input (maps ip) = hash_input (maps "10.0.0.1")) as E
    by (destruct Hip as [-> | ->]; vm_compute; reflexivity).
  exists (mkUnsigned None (Some (sorted_indices (maps ip)))). unfold checkUnsignedExtensions. cbn [Fabrid Epic].
  replace (check_epic _ _ _) with (Ok tt) by done. cbn [Fabrid].
  replace (negb _ && _) with false by (destruct Hip as [-> | ->]; vm_compute; reflexivity).
  unfold fabrid_digest, digests. cbn [Digests Digest.Fabrid mbind option_bind].
  rewrite bool_decide_false by (destruct (sha256 _); [done|by destruct (take 16 _) eqn:?]).
  unfold Hash. cbn. rewrite E. by rewrite bool_decide_true.
Qed.

Lemma fabrid_digest_ignores_addresses_witness :
  ∃ ue', checkUnsignedExtensions (λ b, b) (digests (λ b, b)) (mkUnsigned None (Some (maps "10.0.0.2"))) = (ue', Ok tt).
Proof.
  apply (fabrid_digest_ignores_addresses (λ b, b)); [by vm_compute|by right].
Defined.

(** A message that has an entry without its connection points. *)
Definition malformed : ExtensionPB.FABRIDDetachedExtension :=
  ExtensionPB.mkFABRID (Some (ExtensionPB.mkMaps [ExtensionPB.mkEntry None []] ∅)).

(** The conversion of the maps that a neighbour sent panics. *)
Lemma malformed_panics net order : DetachedFromPB net order (Some malformed) = Panic.
Proof. reflexivity. Qed.

End ExtensionProperties.
