(* ===== verification/Signed.v ===== *)
(** Signed control-plane messages: [pkg/scrypto/signed] (Module [Signed]), the
    validity periods of [pkg/scrypto/cppki] (Module [Validity]) and the signer of
    [private/trust] (Module [TrustSigner]).  Module [CryptoPB] has the messages
    (generated code, data only); protobuf, the hash functions, ECDSA and ML-DSA
    are an interface ([Crypto]) with the laws the code relies on ([CryptoLaws]).
    Module [SignedProperties]: a message that was signed is verified. *)
From S2P Require Export GoStrings.

(** * The messages of [crypto.proto] *)
Module CryptoPB.

Record SignedMessage := mkSigned {
  HeaderAndBody : bytes;
  Signature : bytes
}.

(** A [timestamp.Timestamp] of the protobuf library: seconds and nanoseconds. *)
Record Timestamp := mkTimestamp { Seconds : Z; Nanos : Z }.

(** [SignatureAlgorithm] *)
Definition ALGORITHM_UNSPECIFIED : Z := 0.
Definition ALGORITHM_ECDSA_WITH_SHA256 : Z := 1.
Definition ALGORITHM_ECDSA_WITH_SHA384 : Z := 2.
Definition ALGORITHM_ECDSA_WITH_SHA512 : Z := 3.
Definition ALGORITHM_MLDSA44 : Z := 4.

Record Header := mkHeader {
  SignatureAlgorithm : Z;
  VerificationKeyId : bytes;
  HdrTimestamp : option Timestamp;
  Metadata : bytes;
  AssociatedDataLength : Z
}.
Record HeaderAndBodyInternal := mkHeaderAndBody {
  Header_ : bytes;
  Body : bytes
}.
(** [VerificationKeyID] of [cppki.proto]. *)
Record VerificationKeyID := mkKeyID {
  IsdAs : Z;
  SubjectKeyId : bytes;
  TrcBase : Z;
  TrcSerial : Z
}.

#[global] Instance SignedMessage_eq_dec : EqDecision SignedMessage.
Proof. solve_decision. Defined.

End CryptoPB.

(** The libraries that the signatures are made with. *)
Class Crypto := {
  EcdsaKey : Type;
  PqKey : Type;
  (** [proto.Marshal] and [proto.Unmarshal] of the messages. *)
  marshal_header : CryptoPB.Header → outcome bytes;
  unmarshal_header : bytes → outcome CryptoPB.Header;
  marshal_header_and_body : CryptoPB.HeaderAndBodyInternal → outcome bytes;
  unmarshal_header_and_body : bytes → outcome CryptoPB.HeaderAndBodyInternal;
  marshal_key_id : CryptoPB.VerificationKeyID → outcome bytes;
  unmarshal_key_id : bytes → outcome CryptoPB.VerificationKeyID;
  marshal_signed : CryptoPB.SignedMessage → outcome bytes;
  (** [ptypes.TimestampProto] and [ptypes.Timestamp]. *)
  TimestampProto : Z → outcome CryptoPB.Timestamp;
  ptypes_Timestamp : CryptoPB.Timestamp → outcome Z;
  (** The sum of a hash function, given by its size in bits. *)
  hash_sum : Z → bytes → bytes;
  (** [asn1.Unmarshal] of an ECDSA signature: the numbers, and what is left. *)
  asn1_Unmarshal : bytes → outcome ((Z * Z) * bytes);
  ecdsa_Verify : EcdsaKey → bytes → Z → Z → bool;
  pq_Verify : PqKey → bytes → bytes → bool;
  (** The SHA-1 sum of a post-quantum public key. *)
  pq_key_id : PqKey → bytes
}.

(** * pkg/scrypto/signed *)
Module Signed.

Import CryptoPB.

(** [SignatureAlgorithm] *)
Definition UnknownSignatureAlgorithm : Z := 0.
Definition ECDSAWithSHA256 : Z := 1.
Definition ECDSAWithSHA384 : Z := 2.
Definition ECDSAWithSHA512 : Z := 3.
Definition MLDSA44 : Z := 4.

Definition unknownPublicKeyAlgorithm : Z := 0.
Definition pkECDSA : Z := 1.
Definition pkMLDSA44 : Z := 2.

(** The public key algorithm and the hash function of an algorithm; no hash for
    ML-DSA. *)
Definition signatureAlgorithmDetails (algo : Z) : option (Z * option Z) :=
  if algo =? ECDSAWithSHA256 then Some (pkECDSA, Some 256)
  else if algo =? ECDSAWithSHA384 then Some (pkECDSA, Some 384)
  else if algo =? ECDSAWithSHA512 then Some (pkECDSA, Some 512)
  else if algo =? MLDSA44 then Some (pkMLDSA44, None)
  else None.

Definition signatureAlgorithmFromPB (a : Z) : Z :=
  if a =? ALGORITHM_ECDSA_WITH_SHA256 then ECDSAWithSHA256
  else if a =? ALGORITHM_ECDSA_WITH_SHA384 then ECDSAWithSHA384
  else if a =? ALGORITHM_ECDSA_WITH_SHA512 then ECDSAWithSHA512
  else if a =? ALGORITHM_MLDSA44 then MLDSA44
  else UnknownSignatureAlgorithm.

Definition toPB (a : Z) : Z :=
  if a =? ECDSAWithSHA256 then ALGORITHM_ECDSA_WITH_SHA256
  else if a =? ECDSAWithSHA384 then ALGORITHM_ECDSA_WITH_SHA384
  else if a =? ECDSAWithSHA512 then ALGORITHM_ECDSA_WITH_SHA512
  else if a =? MLDSA44 then ALGORITHM_MLDSA44
  else ALGORITHM_UNSPECIFIED.

(** The zero [time.Time]. *)
Definition zero_time : Z := -62135596800 * 1000000000.

Record Header := mkHdr {
  SignatureAlgorithm : Z;
  VerificationKeyID : bytes;
  Timestamp : Z;
  Metadata : bytes;
  AssociatedDataLength : Z
}.
Record Message := mkMsg {
  Header_ : Header;
  Body : bytes
}.

Section crypto.
Context `{Crypto}.

(** The dynamic types of a [crypto.PublicKey] that the code tells apart. *)
Inductive PublicKey :=
| EcdsaPublicKey (k : EcdsaKey)
| PqPublicKey (k : PqKey)
| OtherPublicKey.

(** A [crypto.Signer]: its public key, and the signature of the input with the
    hash function of the algorithm. *)
Record Signer := mkSigner {
  Public : PublicKey;
  Sign_ : bytes → option Z → outcome bytes
}.

Definition associatedDataLen (associatedData : list bytes) : Z :=
  foldl (λ n d, n + len d) 0 associatedData.

Definition checkPubKeyAlgo (signAlgo : Z) (pubKey : PublicKey) : outcome unit :=
  match signatureAlgorithmDetails signAlgo with
  | None => Err (New "unsupported signature algorithm")
  | Some (pubKeyAlgo, _) =>
      match pubKey with
      | EcdsaPublicKey _ =>
          fail_if (negb (pubKeyAlgo =? pkECDSA)) (New "signature algorithm is incompatible with key")
      | PqPublicKey _ => fail_if (negb (pubKeyAlgo =? pkMLDSA44)) (New "mpi: key algo vs signature algo")
      | OtherPublicKey => Err (New "unsupported public key algorithm")
      end
  end.

Definition computeSignatureInput (algo : Z) (hdrAndBody : bytes) (associatedData : list bytes) : bytes * option Z :=
  match signatureAlgorithmDetails algo with
  | Some (_, Some hash) => (hash_sum hash (hdrAndBody ++ concat associatedData), Some hash)
  | _ => (hdrAndBody ++ concat associatedData, None)
  end.

Definition Sign (hdr : Header) (body : bytes) (signer : option Signer) (associatedData : list bytes) :
    outcome SignedMessage :=
  match signer with
  | None => Err (New "singer must not be nil")
  | Some signer =>
      _ ← fail_if (negb (associatedDataLen associatedData =? AssociatedDataLength hdr))
            (New "header specifies a different associated data length");
      _ ← checkPubKeyAlgo (SignatureAlgorithm hdr) (Public signer);
      ts ← (if Timestamp hdr =? zero_time then Ok None
            else Some <$> wrap_err "converting timestamp" (TimestampProto (Timestamp hdr)));
      let inputHdr := mkHeader (toPB (SignatureAlgorithm hdr)) (VerificationKeyID hdr) ts (Metadata hdr)
                        (int_of 32 (AssociatedDataLength hdr)) in
      rawHdr ← wrap_err "packing header" (marshal_header inputHdr);
      rawHdrAndBody ← wrap_err "packing signature input" (marshal_header_and_body (mkHeaderAndBody rawHdr body));
      let '(input, algo) := computeSignatureInput (SignatureAlgorithm hdr) rawHdrAndBody associatedData in
      signature ← Sign_ signer input algo;
      Ok (mkSigned rawHdrAndBody signature)
  end.

Definition extractHeaderAndBody (signed : option SignedMessage) : outcome (Header * bytes) :=
  match signed with
  | None => Err (New "nil message")
  | Some signed =>
      hdrAndBody ← unmarshal_header_and_body (HeaderAndBody signed);
      hdr ← unmarshal_header (CryptoPB.Header_ hdrAndBody);
      ts ← (match HdrTimestamp hdr with None => Ok zero_time | Some ts => ptypes_Timestamp ts end);
      Ok (mkHdr (signatureAlgorithmFromPB (CryptoPB.SignatureAlgorithm hdr)) (VerificationKeyId hdr) ts
            (CryptoPB.Metadata hdr) (CryptoPB.AssociatedDataLength hdr), CryptoPB.Body hdrAndBody)
  end.

Definition ExtractUnverifiedHeader (signed : option SignedMessage) : outcome Header :=
  fst <$> extractHeaderAndBody signed.
Definition ExtractUnverifiedBody (signed : option SignedMessage) : outcome bytes :=
  snd <$> extractHeaderAndBody signed.

(** The check of the signature itself. *)
Definition check_signature (key : PublicKey) (input signature : bytes) : outcome unit :=
  match key with
  | EcdsaPublicKey pub =>
      '(r, s, rest) ← asn1_Unmarshal signature;
      _ ← fail_if (negb (len rest =? 0)) (New "trailing data after ECDSA signature");
      _ ← fail_if ((r <=? 0) || (s <=? 0)) (New "ECDSA signature contained zero or negative values");
      fail_if (negb (ecdsa_Verify pub input r s)) (New "ECDSA verification failure")
  | PqPublicKey pub => fail_if (negb (pq_Verify pub input signature)) (New "mpi: msg: verification failure")
  | OtherPublicKey => Err (New "public key algorithm not implemented")
  end.

Definition Verify (signed : option SignedMessage) (key : option PublicKey) (associatedData : list bytes) :
    outcome Message :=
  match key with
  | None => Err (New "public key must not be nil")
  | Some key =>
      '(hdr, body) ← wrap_err "extracting header" (extractHeaderAndBody signed);
      _ ← fail_if (negb (associatedDataLen associatedData =? AssociatedDataLength hdr))
            (New "header specifies a different associated data length");
      _ ← checkPubKeyAlgo (SignatureAlgorithm hdr) key;
      match signed with
      | None => Panic
      | Some signed =>
          let '(input, _) := computeSignatureInput (SignatureAlgorithm hdr) (HeaderAndBody signed) associatedData in
          _ ← check_signature key input (Signature signed);
          Ok (mkMsg hdr body)
      end
  end.
End crypto.

End Signed.

(** * pkg/scrypto/cppki/validity.go *)
Module Validity.

(** Points in time are nanoseconds since the Unix epoch. *)
Record t := mk {
  NotBefore : Z;
  NotAfter : Z
}.

Definition Contains (v : t) (x : Z) : bool := negb (x <? NotBefore v) && negb (NotAfter v <? x).
Definition Covers (v other : t) : bool :=
  negb (NotBefore other <? NotBefore v) && negb (NotAfter v <? NotAfter other).

End Validity.

(** * private/trust/signer.go *)
Module TrustSigner.

Import CryptoPB.

Section crypto.
Context `{Crypto}.

Record Signer := mk {
  PrivateKey : option Signed.Signer;
  PrivateKeyPQ : option Signed.Signer;
  Algorithm : Z;
  IA : Z;
  SubjectKeyID : bytes;
  Expiration : Z;
  TRCBase : Z;
  TRCSerial : Z;
  ChainValidity : Validity.t
}.

(** Durations are 64-bit: [Sub] saturates. *)
Definition Sub (t u : Z) : Z := Z.max (- 2 ^ 63) (Z.min (2 ^ 63 - 1) (t - u)).

Definition validate (s : Signer) (now : Z) : outcome unit :=
  fail_if (Sub (Expiration s) now <? 0) (New "signer is expired").

(** The body that [Sign] and [SignPQ] have in common. *)
Definition sign_with (s : Signer) (now : Z) (skid : bytes) (algo : Z) (key : option Signed.Signer)
    (msg : bytes) (associatedData : list bytes) : outcome SignedMessage :=
  _ ← validate s now;
  rawID ← wrap_err "packing verification_key_id" (marshal_key_id (mkKeyID (IA s) skid (TRCBase s) (TRCSerial s)));
  Signed.Sign (Signed.mkHdr algo rawID now [] (Signed.associatedDataLen associatedData)) msg key associatedData.

Definition Sign (now : Z) (s : Signer) (msg : bytes) (associatedData : list bytes) : outcome SignedMessage :=
  sign_with s now (SubjectKeyID s) (Algorithm s) (PrivateKey s) msg associatedData.

(** No message when there is no key; the key identifier is the SHA-1 sum of the
    public key. *)
Definition SignPQ (now : Z) (s : Signer) (msg : bytes) (associatedData : list bytes) :
    outcome (option SignedMessage) :=
  match PrivateKeyPQ s with
  | None => Ok None
  | Some key =>
      let skid := match Signed.Public key with Signed.PqPublicKey k => pq_key_id k | _ => [] end in
      Some <$> sign_with s now skid Signed.MLDSA44 (Some key) msg associatedData
  end.

Definition Validity_ (s : Signer) : Validity.t :=
  Validity.mk (Validity.NotBefore (ChainValidity s)) (Expiration s).
End crypto.

(** [LastExpiring], for any type with a validity. *)
Section last.
Context {T : Type} (validity_of : T → Validity.t).

Fixpoint latest_of (latest : T) (candidates : list T) : T :=
  match candidates with
  | [] => latest
  | s :: candidates =>
      latest_of (if Validity.NotAfter (validity_of latest) <? Validity.NotAfter (validity_of s) then s else latest)
        candidates
  end.

Definition LastExpiring (signers : list T) (validity : Validity.t) : outcome T :=
  match filter (λ s, Validity.Covers (validity_of s) validity = true) signers with
  | [] => Err (New "no signer covers the given validity")
  | s :: candidates => Ok (latest_of s candidates)
  end.
End last.

End TrustSigner.

(** * Properties *)
Module SignedProperties.

Import CryptoPB Signed.

(** What the code relies on: what protobuf packs it unpacks, and what a key signs
    its public key verifies. *)
Class CryptoLaws `{Crypto} := {
  header_roundtrip_law h b : marshal_header h = Ok b → unmarshal_header b = Ok h;
  header_and_body_roundtrip_law h b : marshal_header_and_body h = Ok b → unmarshal_header_and_body b = Ok h;
  timestamp_roundtrip_law t ts : TimestampProto t = Ok ts → ptypes_Timestamp ts = Ok t
}.

(** The signatures of [signer] are valid for its public key. *)
Definition sound_signer `{Crypto} (signer : Signer) : Prop :=
  ∀ input algo sig, Sign_ signer input algo = Ok sig → check_signature (Public signer) input sig = Ok tt.

Lemma algorithm_roundtrip a : is_Some (signatureAlgorithmDetails a) → signatureAlgorithmFromPB (toPB a) = a.
Proof.
  unfold signatureAlgorithmDetails. intros [x Hx].
  destruct (Z.eqb_spec a ECDSAWithSHA256) as [->|]; [done|].
  destruct (Z.eqb_spec a ECDSAWithSHA384) as [->|]; [done|].
  destruct (Z.eqb_spec a ECDSAWithSHA512) as [->|]; [done|].
  destruct (Z.eqb_spec a MLDSA44) as [->|]; done.
Qed.

Lemma checkPubKeyAlgo_known `{Crypto} a k u : checkPubKeyAlgo a k = Ok u → is_Some (signatureAlgorithmDetails a).
Proof. unfold checkPubKeyAlgo. by destruct (signatureAlgorithmDetails a). Qed.

Section sign.
Context `{Crypto} {Laws : CryptoLaws}.

Lemma Sign_Ok hdr body signer ad m :
  Sign hdr body (Some signer) ad = Ok m → AssociatedDataLength hdr < 2 ^ 31 →
  extractHeaderAndBody (Some m) = Ok (hdr, body) ∧
  associatedDataLen ad = AssociatedDataLength hdr ∧
  checkPubKeyAlgo (SignatureAlgorithm hdr) (Public signer) = Ok tt ∧
  Sign_ signer (computeSignatureInput (SignatureAlgorithm hdr) (HeaderAndBody m) ad).1
    (computeSignatureInput (SignatureAlgorithm hdr) (HeaderAndBody m) ad).2 = Ok (Signature m).
Proof.
  intros H0 Hlen. unfold Sign in H0. cbv zeta in H0.
  apply bind_Ok in H0 as (? & E1%fail_if_Ok & H0). apply bind_Ok in H0 as ([] & E2 & H0).
  apply bind_Ok in H0 as (ts & E3 & H0). apply bind_Ok in H0 as (rh & E4%wrap_err_Ok & H0).
  apply bind_Ok in H0 as (rb & E5%wrap_err_Ok & H0).
  destruct (computeSignatureInput _ _ _) as [input algo] eqn:Ei.
  apply bind_Ok in H0 as (sig & E6 & H0). injection H0 as <-.
  assert (associatedDataLen ad = AssociatedDataLength hdr) as El
    by (destruct (Z.eqb_spec (associatedDataLen ad) (AssociatedDataLength hdr)); [done|discriminate]).
  split_and!; [|exact El|done|cbn; by rewrite Ei].
  unfold extractHeaderAndBody. cbn [HeaderAndBody]. rewrite (header_and_body_roundtrip_law _ _ E5).
  go_cbn. cbn [CryptoPB.Header_]. rewrite (header_roundtrip_law _ _ E4). go_cbn.
  cbn [HdrTimestamp CryptoPB.SignatureAlgorithm VerificationKeyId CryptoPB.Metadata CryptoPB.AssociatedDataLength].
  assert (match ts with None => Ok zero_time | Some ts => ptypes_Timestamp ts end = Ok (Timestamp hdr)) as ->.
  { destruct (Z.eqb_spec (Timestamp hdr) zero_time) as [->|]; [by injection E3 as <-|].
    apply fmap_Ok in E3 as (t & E3%wrap_err_Ok & ->). by apply timestamp_roundtrip_law. }
  go_cbn. rewrite algorithm_roundtrip by (by eapply checkPubKeyAlgo_known).
  assert (0 ≤ AssociatedDataLength hdr) as Hp.
  { rewrite <- El. unfold associatedDataLen. clear. assert (∀ n, 0 ≤ n → 0 ≤ foldl (λ n d, n + len d) n ad) as G; [|by apply G].
    induction ad as [|d ad IH]; intros n Hn; [done|]. cbn. apply IH. pose proof (len_nonneg d). lia. }
  unfold int_of. change (2 ^ (32 - 1)) with 2147483648. change (2 ^ 32) with 4294967296.
  change (2 ^ 31) with 2147483648 in Hlen.
  rewrite Z.mod_small by lia. replace (_ + _ - _) with (AssociatedDataLength hdr) by lia. by destruct hdr.
Qed.

Lemma Sign_verifies hdr body signer ad m :
  sound_signer signer → Sign hdr body (Some signer) ad = Ok m → AssociatedDataLength hdr < 2 ^ 31 →
  Verify (Some m) (Some (Public signer)) ad = Ok (mkMsg hdr body).
Proof.
  intros Hs Hm Hl. destruct (Sign_Ok _ _ _ _ _ Hm Hl) as (Ex & El & Ea & Ei).
  unfold Verify. rewrite Ex. cbn [wrap_err]. go_cbn. rewrite El, Z.eqb_refl. cbn [negb]. go_cbn. rewrite Ea. go_cbn.
  destruct (computeSignatureInput _ _ _) as [input algo]. cbn [fst snd] in Ei. by rewrite (Hs _ _ _ Ei).
Qed.
End sign.

(** [LastExpiring] returns a signer that covers the period, and none of those
    that do expires later. *)
Section last.
Context {T : Type} (validity_of : T → Validity.t).

Lemma latest_of_spec latest candidates :
  let s := TrustSigner.latest_of validity_of latest candidates in
  s ∈ latest :: candidates ∧
  ∀ x, x ∈ latest :: candidates → Validity.NotAfter (validity_of x) ≤ Validity.NotAfter (validity_of s).
Proof.
  revert latest. induction candidates as [|c candidates IH]; intros latest; cbn.
  - split; [apply list_elem_of_here|]. by intros x ->%list_elem_of_singleton.
  - destruct (IH (if Validity.NotAfter (validity_of latest) <? Validity.NotAfter (validity_of c) then c else latest))
      as [Hin Hmax]. split.
    + apply elem_of_cons in Hin as [->|Hin]; [|set_solver]. destruct (_ <? _); set_solver.
    + intros x Hx. destruct (Z.ltb_spec (Validity.NotAfter (validity_of latest)) (Validity.NotAfter (validity_of c))).
      * apply elem_of_cons in Hx as [->|Hx]; [|by apply Hmax]. etransitivity; [|apply Hmax, list_elem_of_here]. lia.
      * apply elem_of_cons in Hx as [->|Hx]; [apply Hmax, list_elem_of_here|].
        apply elem_of_cons in Hx as [->|Hx]; [|apply Hmax; by right].
        etransitivity; [|apply Hmax, list_elem_of_here]. lia.
Qed.

Lemma LastExpiring_spec signers validity s :
  TrustSigner.LastExpiring validity_of signers validity = Ok s →
  s ∈ signers ∧ Validity.Covers (validity_of s) validity = true ∧
  ∀ x, x ∈ signers → Validity.Covers (validity_of x) validity = true →
    Validity.NotAfter (validity_of x) ≤ Validity.NotAfter (validity_of s).
Proof.
  unfold TrustSigner.LastExpiring. destruct (filter _ signers) as [|c cs] eqn:E; [done|]. intros [= <-].
  destruct (latest_of_spec c cs) as [Hin Hmax]. rewrite <- E in Hin, Hmax.
  apply list_elem_of_filter in Hin as [Hc Hin]. split_and!; [done|done|].
  intros x Hx Hcx. apply Hmax. apply list_elem_of_filter. by split.
Qed.
End last.

End SignedProperties.
