(* ===== verification/Segment.v ===== *)
(** Path segments, [pkg/segment]: the messages (Module [SegmentPB], generated
    code, data only), the data and operations of a segment ([as.go], [hop.go],
    [info.go], [seg.go], [segs.go], Module [Segment]), and what validation and
    verification promise (Module [SegmentProperties]).

    A segment is the list of the AS entries in construction direction.  An AS
    entry carries the body that its AS signed, together with everything the ASes
    before it signed. *)
From S2P Require Export SegExt Signed PathFields Addr.

(** * The messages of [seg.proto] *)
Module SegmentPB.

Record HopField := mkHopField {
  Ingress : Z;
  Egress : Z;
  ExpTime : Z;
  Mac : bytes
}.
Record HopEntry := mkHopEntry {
  HopField_ : option HopField;
  IngressMtu : Z
}.
Record PeerEntry := mkPeerEntry {
  PeerIsdAs : Z;
  PeerInterface : Z;
  PeerMtu : Z;
  PeerHopField : option HopField
}.
Record ASEntrySignedBody := mkBody {
  IsdAs : Z;
  NextIsdAs : Z;
  HopEntry_ : option HopEntry;
  PeerEntries : list (option PeerEntry);
  Mtu : Z;
  Extensions_ : option ExtensionPB.PathSegmentExtensions
}.
Record ASEntry := mkASEntry {
  Signed_ : option CryptoPB.SignedMessage;
  Unsigned_ : option ExtensionPB.PathSegmentUnsignedExtensions;
  Pqsigned : option CryptoPB.SignedMessage
}.
Record SegmentInformation := mkInfo {
  Timestamp : Z;
  SegmentId : Z
}.
Record PathSegment := mkSegment {
  SegmentInfo : bytes;
  AsEntries : list (option ASEntry)
}.

End SegmentPB.

(** [proto.Marshal] and [proto.Unmarshal] of the messages of a segment. *)
Class SegmentCodec := {
  marshal_body : SegmentPB.ASEntrySignedBody → outcome bytes;
  unmarshal_body : bytes → outcome SegmentPB.ASEntrySignedBody;
  marshal_info : SegmentPB.SegmentInformation → outcome bytes;
  unmarshal_info : bytes → outcome SegmentPB.SegmentInformation
}.

Module Segment.

Import CryptoPB.

Definition MaxUint8 : Z := 255.
Definition MaxUint16 : Z := 65535.
Definition MaxInt32 : Z := 2147483647.

(** ** hop.go *)

Record HopField := mkHopField {
  ExpTime : Z;
  ConsIngress : Z;
  ConsEgress : Z;
  MAC : bytes
}.
Record HopEntry := mkHopEntry {
  HopField_ : HopField;
  IngressMTU : Z
}.
Record PeerEntry := mkPeerEntry {
  PeerHopField : HopField;
  Peer : Z;
  PeerInterface : Z;
  PeerMTU : Z
}.

Definition hopFieldFromPB (pb : SegmentPB.HopField) : outcome HopField :=
  _ ← fail_if (MaxUint16 <? SegmentPB.Ingress pb) (New "ingress exceeds 65535");
  _ ← fail_if (MaxUint16 <? SegmentPB.Egress pb) (New "egress exceeds 65535");
  _ ← fail_if (MaxUint8 <? SegmentPB.ExpTime pb) (New "exp_time exceeds 255");
  _ ← fail_if (negb (len (SegmentPB.Mac pb) =? 6)) (New "MAC must be 6 bytes");
  Ok (mkHopField (u8 (SegmentPB.ExpTime pb)) (u16 (SegmentPB.Ingress pb)) (u16 (SegmentPB.Egress pb))
        (copy (make_bytes HopField.MacLen) (SegmentPB.Mac pb))).

Definition hopEntryFromPB (pb : option SegmentPB.HopEntry) : outcome HopEntry :=
  match pb with
  | None => Err (New "nil hop entry")
  | Some pb =>
      match SegmentPB.HopField_ pb with
      | None => Err (New "hop field is nil")
      | Some hf =>
          _ ← fail_if (MaxInt32 <? SegmentPB.IngressMtu pb) (New "MTU too big");
          hop ← wrap_err "parsing hop field" (hopFieldFromPB hf);
          Ok (mkHopEntry hop (SegmentPB.IngressMtu pb))
      end
  end.

Definition peerEntryFromPB (pb : option SegmentPB.PeerEntry) : outcome PeerEntry :=
  match pb with
  | None => Err (New "nil peer entry")
  | Some pb =>
      match SegmentPB.PeerHopField pb with
      | None => Err (New "hop field is nil")
      | Some hf =>
          _ ← fail_if (ISDAS.IsWildcard (SegmentPB.PeerIsdAs pb)) (New "wildcard peer");
          _ ← fail_if (MaxUint16 <? SegmentPB.PeerInterface pb) (New "peer interface exceeds 65535");
          _ ← fail_if (MaxInt32 <? SegmentPB.PeerMtu pb) (New "MTU too big");
          hop ← wrap_err "parsing hop field" (hopFieldFromPB hf);
          Ok (mkPeerEntry hop (SegmentPB.PeerIsdAs pb) (u16 (SegmentPB.PeerInterface pb)) (SegmentPB.PeerMtu pb))
      end
  end.

(** ** as.go *)

Record ASEntry := mkASEntry {
  Signed_ : option SignedMessage;
  Pqsigned : option SignedMessage;
  Local : Z;
  Next : Z;
  HopEntry_ : HopEntry;
  PeerEntries : list PeerEntry;
  MTU : Z;
  Extensions_ : Extensions.t;
  UnsignedExtensions : Extensions.Unsigned
}.
Definition set_signed (s p : option SignedMessage) (e : ASEntry) : ASEntry :=
  mkASEntry s p (Local e) (Next e) (HopEntry_ e) (PeerEntries e) (MTU e) (Extensions_ e) (UnsignedExtensions e).
Definition set_unsigned (u : Extensions.Unsigned) (e : ASEntry) : ASEntry :=
  mkASEntry (Signed_ e) (Pqsigned e) (Local e) (Next e) (HopEntry_ e) (PeerEntries e) (MTU e) (Extensions_ e) u.

(** ** info.go *)

(** Points in time are nanoseconds since the Unix epoch. *)
Definition Second : Z := 1000000000.

Record Info := mkInfo {
  Raw : bytes;
  Timestamp : Z;
  SegmentID : Z
}.

(** ** seg.go *)

Record PathSegment := mkSegment {
  Info_ : Info;
  ASEntries : list ASEntry
}.
Definition set_entries (l : list ASEntry) (ps : PathSegment) : PathSegment := mkSegment (Info_ ps) l.

(** A [Signer]: a signature, and a post-quantum one or nil. *)
Record Signer := mkSigner {
  Sign : bytes → list bytes → outcome SignedMessage;
  SignPQ : bytes → list bytes → outcome (option SignedMessage)
}.

(** [ValidationMethod] *)
Definition ValidateSegment : bool := false.
Definition ValidateBeacon : bool := true.

Definition MaxIdx (ps : PathSegment) : Z := len (ASEntries ps) - 1.

Definition validateIdx (ps : PathSegment) (idx : Z) : outcome unit :=
  fail_if ((idx <? 0) || (MaxIdx ps <? idx)) (New "index is out of range").

Definition FirstIA (ps : PathSegment) : outcome Z := e ← get (ASEntries ps) 0; Ok (Local e).
Definition LastIA (ps : PathSegment) : outcome Z := e ← get (ASEntries ps) (len (ASEntries ps) - 1); Ok (Local e).

(** The loop of [expiry]: [compare] says which of two durations is kept. *)
Definition keep (compare : Z → Z → bool) (ttl expTime : Z) : Z :=
  let hfTTL := HopField.ExpTimeToDuration expTime in
  if compare hfTTL ttl then hfTTL else ttl.
Definition entry_ttl (compare : Z → Z → bool) (ttl : Z) (e : ASEntry) : Z :=
  foldl (λ ttl p, keep compare ttl (ExpTime (PeerHopField p)))
    (keep compare ttl (ExpTime (HopField_ (HopEntry_ e)))) (PeerEntries e).
Definition expiry (initTTL : Z) (compare : Z → Z → bool) (ps : PathSegment) : Z :=
  Timestamp (Info_ ps) + foldl (entry_ttl compare) initTTL (ASEntries ps).
Definition MaxExpiry (ps : PathSegment) : Z := expiry 0 (λ hfTtl ttl, ttl <? hfTtl) ps.
Definition MinExpiry (ps : PathSegment) : Z := expiry HopField.MaxTTL (λ hfTtl ttl, hfTtl <? ttl) ps.

(** What the ASes before [idx] signed. *)
Definition signed_data (e : ASEntry) : outcome (list bytes) :=
  match Signed_ e with None => Panic | Some m => Ok [HeaderAndBody m; Signature m] end.
Fixpoint signed_data_of (n : nat) (l : list ASEntry) : outcome (list bytes) :=
  match n with
  | O => Ok []
  | S n => match l with
           | [] => Panic
           | e :: l => d ← signed_data e; r ← signed_data_of n l; Ok (d ++ r)
           end
  end.
Definition associatedData (ps : PathSegment) (idx : Z) : outcome (list bytes) :=
  d ← signed_data_of (Z.to_nat idx) (ASEntries ps); Ok (Raw (Info_ ps) :: d).

Definition ShallowCopy (ps : option PathSegment) : option PathSegment :=
  ps ← ps; Some (mkSegment (Info_ ps) (ASEntries ps)).

Section codec.
Context `{SegmentCodec} (sha256 : bytes → bytes).

Definition infoFromRaw (raw : bytes) : outcome Info :=
  pb ← unmarshal_info raw;
  _ ← fail_if (MaxUint16 <? SegmentPB.SegmentId pb) (New "segment ID overflows uint16");
  Ok (mkInfo raw (SegmentPB.Timestamp pb * Second) (u16 (SegmentPB.SegmentId pb))).

Definition NewInfo (timestamp segmentID : Z) : outcome Info :=
  let info := SegmentPB.mkInfo (timestamp / Second) segmentID in
  raw ← marshal_info info;
  Ok (mkInfo raw (SegmentPB.Timestamp info * Second) segmentID).

Definition CreateSegment (timestamp segID : Z) : outcome PathSegment :=
  info ← NewInfo timestamp segID; Ok (mkSegment info []).

(** The hash input of an AS entry. *)
Definition peer_hash_input (p : PeerEntry) : bytes :=
  be_bytes 8 (Peer p) ++ be_bytes 2 (ConsIngress (PeerHopField p)) ++ be_bytes 2 (ConsEgress (PeerHopField p)).
Definition entry_hash_input (hopOnly : bool) (e : ASEntry) : bytes :=
  be_bytes 8 (Local e) ++ be_bytes 2 (ConsIngress (HopField_ (HopEntry_ e))) ++
  be_bytes 2 (ConsEgress (HopField_ (HopEntry_ e))) ++
  (if hopOnly then [] else flat_map peer_hash_input (PeerEntries e)).
Definition calculateHash (hopOnly : bool) (ps : PathSegment) : bytes :=
  sha256 (flat_map (entry_hash_input hopOnly) (ASEntries ps)).
Definition ID : PathSegment → bytes := calculateHash true.
Definition FullID : PathSegment → bytes := calculateHash false.

(** *** Validation *)

(** The checks of the next AS and of the egress of an entry; [next] is the entry
    after it. *)
Definition validate_next (validationMethod : bool) (e : ASEntry) (next : option ASEntry) : outcome unit :=
  match next with
  | Some e' => fail_if (negb (ISDAS.Equal (Next e) (Local e'))) (New "next AS entry has inconsistent ISD-AS")
  | None =>
      if validationMethod then
        _ ← fail_if (ISDAS.IsWildcard (Next e)) (New "next ISD-AS of the last AS entry in a beacon must not be empty");
        fail_if (ConsEgress (HopField_ (HopEntry_ e)) =? 0) (New "last hop in beacon with zero egress interface")
      else
        _ ← fail_if (negb (ISDAS.IsZero (Next e))) (New "next ISD-AS of last AS entry in a segment must be empty");
        fail_if (negb (ConsEgress (HopField_ (HopEntry_ e)) =? 0))
          (New "last hop in segment with non-zero egress interface")
  end.

Fixpoint validate_peers (egHop : Z) (peers : list PeerEntry) : outcome unit :=
  match peers with
  | [] => Ok tt
  | p :: peers =>
      _ ← fail_if (negb (ConsEgress (PeerHopField p) =? egHop))
            (New "egress interface of peer entry does not match hop entry");
      validate_peers egHop peers
  end.

(** Hashing the FABRID maps of an entry sorts their index lists. *)
Fixpoint validate_entries (validationMethod : bool) (l : list ASEntry) : list ASEntry * outcome unit :=
  match l with
  | [] => ([], Ok tt)
  | e :: l =>
      match (_ ← validate_next validationMethod e (head l);
             validate_peers (ConsEgress (HopField_ (HopEntry_ e))) (PeerEntries e)) with
      | Err m => (e :: l, Err m)
      | Panic => (e :: l, Panic)
      | Ok _ =>
          let '(u, r) := Extensions.checkUnsignedExtensions sha256 (Extensions_ e) (UnsignedExtensions e) in
          match r with
          | Ok _ => let '(l', r') := validate_entries validationMethod l in (set_unsigned u e :: l', r')
          | _ => (set_unsigned u e :: l, r)
          end
      end
  end.

Definition Validate (validationMethod : bool) : SE PathSegment unit := λ ps,
  match ASEntries ps with
  | [] => (ps, Err (New "no AS entries"))
  | e :: _ =>
      if negb (ConsIngress (HopField_ (HopEntry_ e)) =? 0)
      then (ps, Err (New "first hop with non-zero ingress interface"))
      else let '(l, r) := validate_entries validationMethod (ASEntries ps) in (set_entries l ps, r)
  end.

(** *** Extension and verification *)

Definition hop_to_pb (h : HopField) : SegmentPB.HopField :=
  SegmentPB.mkHopField (ConsIngress h) (ConsEgress h) (ExpTime h) (MAC h).
Definition peer_to_pb (p : PeerEntry) : SegmentPB.PeerEntry :=
  SegmentPB.mkPeerEntry (Peer p) (PeerInterface p) (u32 (PeerMTU p)) (Some (hop_to_pb (PeerHopField p))).
Definition body_to_pb (e : ASEntry) : SegmentPB.ASEntrySignedBody :=
  SegmentPB.mkBody (Local e) (Next e)
    (Some (SegmentPB.mkHopEntry (Some (hop_to_pb (HopField_ (HopEntry_ e)))) (u32 (IngressMTU (HopEntry_ e)))))
    ((λ p, Some (peer_to_pb p)) <$> PeerEntries e)
    (u32 (MTU e)) (Extensions.extensionsToPB (Extensions_ e)).

(** The error of the post-quantum signature is not looked at. *)
Definition ignore_error {A} (o : outcome (option A)) : outcome (option A) :=
  match o with Err _ => Ok None | o => o end.

(** The entry with the two signatures. *)
Definition sign_entry `{Crypto} (ps : PathSegment) (asEntry : ASEntry) (signer : Signer) : outcome ASEntry :=
  rawASEntry ← wrap_err "packing AS entry" (marshal_body (body_to_pb asEntry));
  ad ← associatedData ps (len (ASEntries ps));
  signedMsg ← wrap_err "signing AS entry" (Sign signer rawASEntry ad);
  signedMsg_raw ← wrap_err "packing signed message" (marshal_signed signedMsg);
  pq_sig ← ignore_error (SignPQ signer [] [signedMsg_raw]);
  Ok (set_signed (Some signedMsg) pq_sig asEntry).

Definition AddASEntry `{Crypto} (asEntry : ASEntry) (signer : Signer) : SE PathSegment unit := λ ps,
  match sign_entry ps asEntry signer with
  | Ok e => (set_entries (ASEntries ps ++ [e]) ps, Ok tt)
  | Err m => (ps, Err m)
  | Panic => (ps, Panic)
  end.

(** A [Verifier]: what it makes of a message and its associated data. *)
Definition Verifier `{Crypto} := option SignedMessage → list bytes → outcome Signed.Message.

Definition VerifyASEntry `{Crypto} (verifier : Verifier) (ps : PathSegment) (idx : Z) : outcome unit :=
  _ ← validateIdx ps idx;
  e ← get (ASEntries ps) idx;
  ad ← associatedData ps idx;
  _ ← verifier (Signed_ e) ad;
  match Pqsigned e with
  | None => Ok tt
  | Some _ =>
      match Signed_ e with
      | None => Panic
      | Some signedMsg =>
          signedMsg_raw ← wrap_err "packing signed message" (marshal_signed signedMsg);
          _ ← verifier (Pqsigned e) [signedMsg_raw];
          Ok tt
      end
  end.

Fixpoint verify_from `{Crypto} (verifier : Verifier) (ps : PathSegment) (n : nat) (idx : Z) : outcome unit :=
  match n with
  | O => Ok tt
  | S n => _ ← wrap_err "verifying AS entry" (VerifyASEntry verifier ps idx);
           verify_from verifier ps n (idx + 1)
  end.
Definition Verify `{Crypto} (verifier : Verifier) (ps : PathSegment) : outcome unit :=
  verify_from verifier ps (length (ASEntries ps)) 0.

(** *** Messages *)

Section net.
Context `{Crypto}.
Context (net_ParseIP : gostring → bytes) (net_Mask : bytes → Z → Z → bytes) (net_IP_String : bytes → gostring).
Context (order_pairs : gmap FabridDetached.ConnectionPair (list Z) → list (FabridDetached.ConnectionPair * list Z)).
Context (order_policies : gmap Z ExtensionPB.FABRIDPolicyIdentifier → list (Z * ExtensionPB.FABRIDPolicyIdentifier)).

(** Peer entries that are nil are skipped. *)
Fixpoint peerEntriesFromPB (peers : list (option SegmentPB.PeerEntry)) : outcome (list PeerEntry) :=
  match peers with
  | [] => Ok []
  | None :: peers => peerEntriesFromPB peers
  | Some p :: peers =>
      e ← wrap_err "parsing peer entry" (peerEntryFromPB (Some p));
      es ← peerEntriesFromPB peers;
      Ok (e :: es)
  end.

Definition ASEntryFromPB (pb : option SegmentPB.ASEntry) : outcome ASEntry :=
  match pb with
  | None => Err (New "nil entry")
  | Some pb =>
      unverifiedBody ← Signed.ExtractUnverifiedBody (SegmentPB.Signed_ pb);
      entry ← unmarshal_body unverifiedBody;
      _ ← fail_if (ISDAS.IsWildcard (SegmentPB.IsdAs entry)) (New "wildcard local ISD-AS");
      _ ← fail_if (MaxInt32 <? SegmentPB.Mtu entry) (New "MTU too big");
      hopEntry ← wrap_err "parsing hop entry" (hopEntryFromPB (SegmentPB.HopEntry_ entry));
      peerEntries ← peerEntriesFromPB (SegmentPB.PeerEntries entry);
      unsigned ← Extensions.UnsignedExtensionsFromPB net_IP_String order_policies (SegmentPB.Unsigned_ pb);
      Ok (mkASEntry (SegmentPB.Signed_ pb) (SegmentPB.Pqsigned pb) (SegmentPB.IsdAs entry) (SegmentPB.NextIsdAs entry)
            hopEntry peerEntries (SegmentPB.Mtu entry) (Extensions.extensionsFromPB (SegmentPB.Extensions_ entry))
            unsigned)
  end.

Fixpoint asEntriesFromPB (l : list (option SegmentPB.ASEntry)) : outcome (list ASEntry) :=
  match l with
  | [] => Ok []
  | entry :: l => e ← wrap_err "parsing AS entry" (ASEntryFromPB entry); es ← asEntriesFromPB l; Ok (e :: es)
  end.

Definition segmentFromPB (pb : SegmentPB.PathSegment) : outcome PathSegment :=
  info ← wrap_err "parsing segment info" (infoFromRaw (SegmentPB.SegmentInfo pb));
  asEntries ← asEntriesFromPB (SegmentPB.AsEntries pb);
  Ok (mkSegment info asEntries).

(** The segment as validation leaves it. *)
Definition validated (validationMethod : bool) (seg : PathSegment) : outcome PathSegment :=
  let '(seg', r) := Validate validationMethod seg in _ ← r; Ok seg'.
Definition SegmentFromPB (pb : SegmentPB.PathSegment) : outcome PathSegment :=
  segmentFromPB pb ≫= validated ValidateSegment.
Definition BeaconFromPB (pb : SegmentPB.PathSegment) : outcome PathSegment :=
  segmentFromPB pb ≫= validated ValidateBeacon.

Definition PathSegmentToPB (ps : option PathSegment) : outcome SegmentPB.PathSegment :=
  match ps with
  | None => Panic
  | Some ps =>
      Ok (SegmentPB.mkSegment (Raw (Info_ ps))
        ((λ e, Some (SegmentPB.mkASEntry (Signed_ e)
                       (Extensions.UnsignedExtensionsToPB net_ParseIP net_Mask order_pairs (UnsignedExtensions e))
                       (Pqsigned e))) <$> ASEntries ps))
  end.
End net.
End codec.

(** ** segs.go *)

(** The loop: [all] is the slice, whose first elements the segments kept so far
    have replaced.  The error of [keep] ends it. *)
Fixpoint filter_segs (keep : PathSegment → outcome bool) (segs filtered all : list PathSegment) :
    list PathSegment * outcome Z :=
  match segs with
  | [] => (filtered, Ok (len all - len filtered))
  | s :: segs =>
      match keep s with
      | Ok k => filter_segs keep segs (if k then filtered ++ [s] else filtered) all
      | Err m => (copy all filtered, Err m)
      | Panic => (copy all filtered, Panic)
      end
  end.
(** The number of segments filtered out. *)
Definition FilterSegs (keep : PathSegment → outcome bool) : SE (list PathSegment) Z := λ segs,
  filter_segs keep segs [] segs.

Fixpoint extract_from (addrs : list Z) (segs : list PathSegment) (extract : PathSegment → outcome Z) :
    outcome (list Z) :=
  match segs with
  | [] => Ok []
  | s :: segs =>
      ia ← extract s;
      if bool_decide (ia ∈ addrs) then extract_from addrs segs extract
      else r ← extract_from (ia :: addrs) segs extract; Ok (ia :: r)
  end.
Definition extractIAs : list PathSegment → (PathSegment → outcome Z) → outcome (list Z) := extract_from [].
Definition FirstIAs (segs : list PathSegment) : outcome (list Z) := extractIAs segs FirstIA.
Definition LastIAs (segs : list PathSegment) : outcome (list Z) := extractIAs segs LastIA.

End Segment.

(** * Properties *)
Module SegmentProperties.

Import Segment.

(** ** Validation changes nothing but the order of FABRID indices *)

Definition same_entry (e e' : ASEntry) : Prop := ∃ u, e' = set_unsigned u e.
Record same_hops (ps ps' : PathSegment) : Prop := {
  sh_info : Info_ ps' = Info_ ps;
  sh_entries : Forall2 same_entry (ASEntries ps) (ASEntries ps')
}.

Lemma same_entry_refl e : same_entry e e.
Proof. exists (UnsignedExtensions e). by destruct e. Qed.
Lemma same_entries_refl l : Forall2 same_entry l l.
Proof. induction l; constructor; [apply same_entry_refl|done]. Qed.
Lemma same_hops_refl ps : same_hops ps ps.
Proof. split; [done|apply same_entries_refl]. Qed.
#[export] Instance same_hops_preorder : PreOrder same_hops.
Proof.
  split; [intros ps; apply same_hops_refl|]. intros a b c [E1 H1] [E2 H2]. split; [congruence|].
  revert H1 H2. generalize (ASEntries a) (ASEntries b) (ASEntries c). intros la lb lc H1. revert lc.
  induction H1 as [|x y la lb [u ->] _ IH]; intros lc H2.
  - apply Forall2_nil_inv_l in H2 as ->. constructor.
  - apply Forall2_cons_inv_l in H2 as (z & lc' & [u' ->] & H2 & ->). constructor; [by exists u'|by apply IH].
Qed.

Section validate.
Context (sha256 : bytes → bytes).

Lemma validate_entries_same m l l' r : validate_entries sha256 m l = (l', r) → Forall2 same_entry l l'.
Proof.
  revert l' r. induction l as [|e l IH]; intros l' r H; [injection H as <- <-; constructor|].
  cbn [validate_entries] in H. destruct (_ ← _; _) as [[]| |]; [|injection H as <- <-; apply same_entries_refl..].
  destruct (Extensions.checkUnsignedExtensions _ _ _) as [u [[]| |]].
  - destruct (validate_entries sha256 m l) as [l2 r2]. injection H as <- <-. constructor; [by exists u|by eapply IH].
  - injection H as <- <-. constructor; [by exists u|apply same_entries_refl].
  - injection H as <- <-. constructor; [by exists u|apply same_entries_refl].
Qed.

Lemma Validate_same m ps ps' r : Validate sha256 m ps = (ps', r) → same_hops ps ps'.
Proof.
  unfold Validate. destruct ps as [info l]. cbn [ASEntries].
  destruct l as [|e l]; [intros [= <- <-]; apply same_hops_refl|].
  destruct (negb _); [intros [= <- <-]; apply same_hops_refl|].
  destruct (validate_entries sha256 m (e :: l)) as [l' r'] eqn:E. intros [= <- <-].
  split; [done|]. by eapply validate_entries_same.
Qed.
End validate.

(** ** Verification *)

Section verify.
Context `{Crypto} (verifier : Verifier).

Lemma Verify_from_Ok ps n idx :
  verify_from verifier ps n idx = Ok tt ↔
  ∀ i, (i < n)%nat → VerifyASEntry verifier ps (idx + Z.of_nat i) = Ok tt.
Proof.
  revert idx. induction n as [|n IH]; intros idx; [split; [lia|done]|]. cbn [verify_from]. rewrite bind_Ok. split.
  - intros ([] & H1%wrap_err_Ok & H2) i Hi. destruct i as [|i]; [by rewrite Z.add_0_r|].
    replace (idx + Z.of_nat (S i)) with (idx + 1 + Z.of_nat i) by lia. apply (proj1 (IH _) H2). lia.
  - intros Hi. exists tt. split; [apply wrap_err_Ok; rewrite <- (Z.add_0_r idx); apply (Hi 0%nat); lia|].
    apply IH. intros i Hlt. replace (idx + 1 + Z.of_nat i) with (idx + Z.of_nat (S i)) by lia. apply Hi. lia.
Qed.

Lemma Verify_Ok ps :
  Verify verifier ps = Ok tt ↔
  ∀ i, (i < length (ASEntries ps))%nat → VerifyASEntry verifier ps (Z.of_nat i) = Ok tt.
Proof. unfold Verify. rewrite Verify_from_Ok. done. Qed.

Lemma signed_data_of_take n l l' :
  take n l = take n l' → (n ≤ length l)%nat → (n ≤ length l')%nat → signed_data_of n l = signed_data_of n l'.
Proof.
  revert l l'. induction n as [|n IH]; intros [|e l] [|e' l'] E Hl Hl'; cbn in *; try done; try lia.
  injection E as <- E. destruct (signed_data e); [|done..]. cbn. rewrite (IH l l'); [done|done|lia..].
Qed.

(** The entries behind it do not matter to the verification of an entry. *)
Lemma VerifyASEntry_prefix ps ps' i :
  Info_ ps = Info_ ps' → (i < length (ASEntries ps))%nat → (i < length (ASEntries ps'))%nat →
  take (S i) (ASEntries ps) = take (S i) (ASEntries ps') →
  VerifyASEntry verifier ps (Z.of_nat i) = VerifyASEntry verifier ps' (Z.of_nat i).
Proof.
  intros Ei Hl Hl' Et. unfold VerifyASEntry, validateIdx, MaxIdx, associatedData. rewrite <- Ei, Nat2Z.id.
  replace ((Z.of_nat i <? 0) || _) with false by (unfold len; lia).
  replace ((Z.of_nat i <? 0) || _) with false by (unfold len; lia). go_cbn.
  destruct (lookup_lt_is_Some_2 _ _ Hl) as [e He].
  assert (ASEntries ps' !! i = Some e) as He'.
  { rewrite <- (lookup_take_lt _ (S i) i) by lia. rewrite <- Et. by rewrite lookup_take_lt by lia. }
  rewrite (get_Ok _ _ e), (get_Ok _ _ e) by (rewrite ?Nat2Z.id; first [done|lia]). go_cbn.
  rewrite (signed_data_of_take i (ASEntries ps) (ASEntries ps')); [done| |lia..].
  apply (f_equal (take i)) in Et. rewrite !take_take in Et. by replace (i `min` S i)%nat with i in Et by lia.
Qed.

(** A segment with one more entry is verified when it was before and the new entry
    is. *)
Lemma Verify_snoc ps e :
  Verify verifier (set_entries (ASEntries ps ++ [e]) ps) = Ok tt ↔
  Verify verifier ps = Ok tt ∧
  VerifyASEntry verifier (set_entries (ASEntries ps ++ [e]) ps) (len (ASEntries ps)) = Ok tt.
Proof.
  set (ps' := set_entries _ ps). rewrite !Verify_Ok.
  assert (length (ASEntries ps') = S (length (ASEntries ps))) as El by (cbn; rewrite length_app; cbn; lia).
  assert (∀ i, (i < length (ASEntries ps))%nat →
    VerifyASEntry verifier ps' (Z.of_nat i) = VerifyASEntry verifier ps (Z.of_nat i)) as Eq.
  { intros i Hi. apply VerifyASEntry_prefix; [done|lia|lia|]. cbn. by rewrite take_app_le by lia. }
  rewrite El. split.
  - intros Hv. split; [|apply (Hv (length (ASEntries ps))); lia]. intros i Hi. rewrite <- Eq by done. apply Hv. lia.
  - intros [Hv Hlast] i Hi. destruct (decide (i = length (ASEntries ps))) as [->|]; [done|].
    rewrite Eq by lia. apply Hv. lia.
Qed.

Lemma same_entries_signed n l l' : Forall2 same_entry l l' → signed_data_of n l = signed_data_of n l'.
Proof.
  intros Hf. revert n. induction Hf as [|e e' l l' [u ->] _ IH]; intros [|n]; [done..|]. cbn. by rewrite IH.
Qed.

Lemma Verify_same ps ps' : same_hops ps ps' → Verify verifier ps = Ok tt → Verify verifier ps' = Ok tt.
Proof.
  intros [Ei Hf] Hv. rewrite Verify_Ok in *. rewrite <- (Forall2_length _ _ _ Hf). intros i Hi. specialize (Hv i Hi).
  unfold VerifyASEntry, validateIdx, MaxIdx, associatedData in *. rewrite Ei.
  rewrite <- (same_entries_signed _ _ _ Hf).
  assert (len (ASEntries ps') = len (ASEntries ps)) as -> by (unfold len; by rewrite (Forall2_length _ _ _ Hf)).
  destruct (lookup_lt_is_Some_2 _ _ Hi) as [e He].
  destruct (Forall2_lookup_l _ _ _ _ _ Hf He) as (e' & He' & [u ->]).
  rewrite (get_Ok _ _ _ (Zle_0_nat i)) in Hv by by rewrite Nat2Z.id.
  rewrite (get_Ok _ _ _ (Zle_0_nat i)) by by rewrite Nat2Z.id. exact Hv.
Qed.

(** What [signer] signs, [verifier] accepts. *)
Record trusts (signer : Signer) : Prop := {
  trusts_sign msg ad m : Sign signer msg ad = Ok m → ∃ x, verifier (Some m) ad = Ok x;
  trusts_pq msg ad m : SignPQ signer msg ad = Ok (Some m) → ∃ x, verifier (Some m) ad = Ok x
}.

Lemma sign_entry_verifies `{SegmentCodec} ps e signer e' :
  trusts signer → sign_entry ps e signer = Ok e' →
  VerifyASEntry verifier (set_entries (ASEntries ps ++ [e']) ps) (len (ASEntries ps)) = Ok tt.
Proof.
  intros [Hs Hp] E. unfold sign_entry in E.
  apply bind_Ok in E as (raw & _ & E). apply bind_Ok in E as (ad & Ead & E).
  apply bind_Ok in E as (m & Em%wrap_err_Ok & E). apply bind_Ok in E as (mraw & Emr%wrap_err_Ok & E).
  apply bind_Ok in E as (pq & Epq & E). injection E as <-.
  unfold VerifyASEntry, validateIdx, MaxIdx. cbn [set_entries ASEntries].
  replace (_ || _) with false by len_lia. go_cbn.
  rewrite get_app by done. go_cbn. set (e' := set_signed _ _ _).
  assert (associatedData (set_entries (ASEntries ps ++ [e']) ps) (len (ASEntries ps)) = Ok ad) as Ead'.
  { rewrite <- Ead. unfold associatedData. cbn [set_entries ASEntries Info_]. f_equal. unfold len. rewrite Nat2Z.id.
    rewrite (signed_data_of_take _ (ASEntries ps ++ [e']) (ASEntries ps)); [done| |rewrite length_app; lia|lia].
    by rewrite take_app_length, take_ge. }
  rewrite Ead'. go_cbn. destruct (Hs _ _ _ Em) as [x Hx]. cbn [Signed_ Pqsigned set_signed e']. rewrite Hx. go_cbn.
  destruct pq as [pq|]; [|done]. rewrite Emr. cbn [wrap_err]. go_cbn.
  unfold ignore_error in Epq. destruct (SignPQ signer [] [mraw]) as [p|er|] eqn:Es; [|done..]. injection Epq as ->.
  destruct (Hp _ _ _ Es) as [y Hy]. by rewrite Hy.
Qed.
End verify.

(** ** Expiration *)

(** The lifetimes of the hop fields of a segment. *)
Definition lifetimes_of (e : ASEntry) : list Z :=
  HopField.ExpTimeToDuration (ExpTime (HopField_ (HopEntry_ e))) ::
  ((λ p, HopField.ExpTimeToDuration (ExpTime (PeerHopField p))) <$> PeerEntries e).
Definition lifetimes (ps : PathSegment) : list Z := flat_map lifetimes_of (ASEntries ps).

Lemma entry_ttl_eq compare ttl e :
  entry_ttl compare ttl e = foldl (λ ttl d, if compare d ttl then d else ttl) ttl (lifetimes_of e).
Proof.
  assert (∀ l t, foldl (λ ttl p, keep compare ttl (ExpTime (PeerHopField p))) t l =
    foldl (λ ttl d, if compare d ttl then d else ttl) t
      ((λ p, HopField.ExpTimeToDuration (ExpTime (PeerHopField p))) <$> l)) as G; [|exact (G _ _)].
  induction l as [|p l IH]; intros t; [done|]. cbn. apply IH.
Qed.

Lemma expiry_eq init compare ps :
  expiry init compare ps =
  Timestamp (Info_ ps) + foldl (λ ttl d, if compare d ttl then d else ttl) init (lifetimes ps).
Proof.
  unfold expiry, lifetimes. f_equal. generalize init. induction (ASEntries ps) as [|e l IH]; intros t; [done|].
  cbn [foldl flat_map]. by rewrite foldl_app, <- entry_ttl_eq, IH.
Qed.

Lemma foldl_max_spec l init :
  let m := foldl (λ ttl d, if ttl <? d then d else ttl) init l in
  init ≤ m ∧ (∀ d, d ∈ l → d ≤ m) ∧ m ∈ init :: l.
Proof.
  revert init. induction l as [|x l IH]; intros init; cbn.
  - split_and!; [lia|by intros d ?%not_elem_of_nil|apply list_elem_of_here].
  - destruct (IH (if init <? x then x else init)) as (H1 & H2 & H3). split_and!.
    + destruct (Z.ltb_spec init x); lia.
    + intros d [->|Hd]%elem_of_cons; [destruct (Z.ltb_spec init x); lia|by apply H2].
    + apply elem_of_cons in H3 as [->|H3]; [destruct (init <? x); set_solver|set_solver].
Qed.

Lemma foldl_min_spec l init :
  let m := foldl (λ ttl d, if d <? ttl then d else ttl) init l in
  m ≤ init ∧ (∀ d, d ∈ l → m ≤ d) ∧ m ∈ init :: l.
Proof.
  revert init. induction l as [|x l IH]; intros init; cbn.
  - split_and!; [lia|by intros d ?%not_elem_of_nil|apply list_elem_of_here].
  - destruct (IH (if x <? init then x else init)) as (H1 & H2 & H3). split_and!.
    + destruct (Z.ltb_spec x init); lia.
    + intros d [->|Hd]%elem_of_cons; [destruct (Z.ltb_spec x init); lia|by apply H2].
    + apply elem_of_cons in H3 as [->|H3]; [destruct (x <? init); set_solver|set_solver].
Qed.

(** The expiration times of the hop fields are bytes. *)
Definition entry_times_ok (e : ASEntry) : Prop :=
  is_u8 (ExpTime (HopField_ (HopEntry_ e))) ∧ Forall (λ p, is_u8 (ExpTime (PeerHopField p))) (PeerEntries e).

Lemma lifetimes_range ps d :
  Forall entry_times_ok (ASEntries ps) → d ∈ lifetimes ps → 0 < d ≤ HopField.MaxTTL.
Proof.
  intros Hf Hd. assert (∀ t, is_u8 t → 0 < HopField.ExpTimeToDuration t ≤ HopField.MaxTTL) as Hr.
  { intros t Ht. rewrite PathFieldsProperties.ExpTimeToDuration_eq by done. unfold HopField.MaxTTL, HopField.Hour. ulia. }
  unfold lifetimes in Hd. apply list_elem_of_In, in_flat_map in Hd as (e & He & Hd).
  rewrite Forall_forall in Hf. destruct (Hf e) as [Hh Hp]; [by apply list_elem_of_In|]. apply list_elem_of_In in Hd.
  apply elem_of_cons in Hd as [->|Hd]; [by apply Hr|].
  apply list_elem_of_fmap in Hd as (p & -> & Hin). rewrite Forall_forall in Hp. by apply Hr, Hp.
Qed.

Lemma expiry_bounds_lemma ps :
  Forall entry_times_ok (ASEntries ps) → ASEntries ps ≠ [] →
  (∀ d, d ∈ lifetimes ps → MinExpiry ps ≤ Timestamp (Info_ ps) + d ≤ MaxExpiry ps) ∧
  (∃ d, d ∈ lifetimes ps ∧ MinExpiry ps = Timestamp (Info_ ps) + d) ∧
  (∃ d, d ∈ lifetimes ps ∧ MaxExpiry ps = Timestamp (Info_ ps) + d).
Proof.
  intros Hf Hn. unfold MinExpiry, MaxExpiry. rewrite !expiry_eq.
  destruct (foldl_max_spec (lifetimes ps) 0) as (A1 & A2 & A3).
  destruct (foldl_min_spec (lifetimes ps) HopField.MaxTTL) as (B1 & B2 & B3).
  assert (∃ d, d ∈ lifetimes ps) as [d0 Hd0].
  { unfold lifetimes. destruct (ASEntries ps) as [|e l]; [done|]. eexists. cbn. apply list_elem_of_here. }
  pose proof (lifetimes_range ps) as Hr. split_and!.
  - intros d Hd. specialize (A2 d Hd). specialize (B2 d Hd). lia.
  - apply elem_of_cons in B3 as [E|E]; [|eauto].
    exists d0. split; [done|]. specialize (B2 d0 Hd0). specialize (Hr d0 Hf Hd0). lia.
  - apply elem_of_cons in A3 as [E|E]; [|eauto].
    exfalso. specialize (A2 d0 Hd0). specialize (Hr d0 Hf Hd0). lia.
Qed.

(** The expiration of a segment.  The segment has a first and a last
    expiration time; every one of its hop fields, those of the peering links
    included, expires between the two, and some hop field expires at each. *)
Theorem expiry_bounds ps :
  Forall entry_times_ok (ASEntries ps) → ASEntries ps ≠ [] →
  (∀ d, d ∈ lifetimes ps → MinExpiry ps ≤ Timestamp (Info_ ps) + d ≤ MaxExpiry ps) ∧
  (∃ d, d ∈ lifetimes ps ∧ MinExpiry ps = Timestamp (Info_ ps) + d) ∧
  (∃ d, d ∈ lifetimes ps ∧ MaxExpiry ps = Timestamp (Info_ ps) + d).
Proof. apply expiry_bounds_lemma. Qed.

(** A segment of two ASes, the second with a peering link. *)
Definition example_hop (exp ingress egress : Z) : HopField := mkHopField exp ingress egress (make_bytes 6).
Definition example_entry (ia next : Z) (h : HopField) (peers : list PeerEntry) : ASEntry :=
  mkASEntry None None ia next (mkHopEntry h 0) peers 1400 Extensions.zero Extensions.no_unsigned.
Definition example : PathSegment :=
  mkSegment (mkInfo [] (1700000000 * Second) 7)
    [example_entry 1 2 (example_hop 63 0 1) [];
     example_entry 2 0 (example_hop 10 2 0) [mkPeerEntry (example_hop 5 9 0) 3 4 1400]].

Lemma expiry_bounds_witness :
  MinExpiry example = Timestamp (Info_ example) + HopField.ExpTimeToDuration 5 ∧
  ∃ d, d ∈ lifetimes example ∧ MaxExpiry example = Timestamp (Info_ example) + d.
Proof.
  split; [reflexivity|]. apply expiry_bounds; [|done].
  repeat constructor; done.
Defined.

End SegmentProperties.
