(* ===== verification/StaticInfoCfg.v ===== *)
(** The interfaces of an AS as the control service sees them ([control/ifstate],
    Module [IfState]) and the static info that goes into its beacons
    ([control/beaconing/staticinfo_config.go], Module [StaticInfoCfg]): cleaning
    the configuration, and choosing what a beacon announces.  Module
    [StaticInfoCfgProperties]: cleaning makes the values symmetric, and every
    crossing of segments is announced once. *)
From S2P Require Export StaticInfo Addr.

(** * control/ifstate/ifstate.go *)
Module IfState.

(** [topology.LinkType] *)
Definition Unset : Z := 0.
Definition Core : Z := 1.
Definition Parent : Z := 2.
Definition Child : Z := 3.
Definition Peer : Z := 4.

Definition zero_time : Z := -62135596800 * 1000000000.
Definition DefaultKeepaliveInterval : Z := 1000000000.
Definition DefaultKeepaliveTimeout : Z := 3 * DefaultKeepaliveInterval.

(** [InternalAddr] is carried through only: its text. *)
Record InterfaceInfo := mkInfo {
  ID : Z;
  IA : Z;
  LinkType : Z;
  InternalAddr : gostring;
  RemoteID : Z;
  MTU : Z
}.

(** [Config] is its keepalive timeout. *)
Definition InitDefaults (timeout : Z) : Z := if timeout =? 0 then DefaultKeepaliveTimeout else timeout.

Record Interface := mk {
  topoInfo : InterfaceInfo;
  lastOriginate : Z;
  lastPropagate : Z;
  cfg : Z
}.

Record Interfaces := mkInterfaces {
  intfs : gmap Z Interface;
  intfs_cfg : Z
}.

Definition set_RemoteID (remote : Z) (i : InterfaceInfo) : InterfaceInfo :=
  mkInfo (ID i) (IA i) (LinkType i) (InternalAddr i) remote (MTU i).

(** ** Operations on an interface *)

Definition Activate (remote : Z) (intf : Interface) : Interface :=
  mk (set_RemoteID remote (topoInfo intf)) (lastOriginate intf) (lastPropagate intf) (cfg intf).
Definition Originate (now : Z) (intf : Interface) : Interface :=
  mk (topoInfo intf) now (lastPropagate intf) (cfg intf).
Definition Propagate (now : Z) (intf : Interface) : Interface :=
  mk (topoInfo intf) (lastOriginate intf) now (cfg intf).
Definition reset (intf : Interface) : Interface := mk (topoInfo intf) zero_time zero_time (cfg intf).

(** The remote interface that is known is kept. *)
Definition updateTopoInfo (info : InterfaceInfo) (intf : Interface) : Interface :=
  mk (set_RemoteID (RemoteID (topoInfo intf)) info) (lastOriginate intf) (lastPropagate intf) (cfg intf).

(** ** Operations on the interfaces *)

Definition Get (ifs : Interfaces) (ifid : Z) : option Interface := intfs ifs !! ifid.
Definition All (ifs : Interfaces) : gmap Z Interface := intfs ifs.

Definition Update (ifInfomap : gmap Z InterfaceInfo) (ifs : Interfaces) : Interfaces :=
  mkInterfaces
    (map_imap (λ ifid info,
       Some (match intfs ifs !! ifid with
             | Some intf => updateTopoInfo info intf
             | None => mk info zero_time zero_time (intfs_cfg ifs)
             end)) ifInfomap)
    (intfs_cfg ifs).

Definition NewInterfaces (ifInfomap : gmap Z InterfaceInfo) (timeout : Z) : Interfaces :=
  Update ifInfomap (mkInterfaces ∅ (InitDefaults timeout)).

Definition Reset (ifs : Interfaces) : Interfaces := mkInterfaces (reset <$> intfs ifs) (intfs_cfg ifs).

(** A method on the interface with an identifier. *)
Definition on_interface (ifid : Z) (f : Interface → Interface) (ifs : Interfaces) : Interfaces :=
  mkInterfaces (alter f ifid (intfs ifs)) (intfs_cfg ifs).

(** The interfaces that pass the filter; the order is that of the map's iteration. *)
Definition Filtered (order : gmap Z Interface → list (Z * Interface)) (keep : Interface → bool) (ifs : Interfaces) :
    list Interface :=
  filter (λ intf, keep intf = true) (order (intfs ifs)).*2.

End IfState.

(** * staticinfo_config.go *)
Module StaticInfoCfg.

Import StaticInfo.

(** The configuration of an interface in [InterfaceLatencies],
    [InterfaceBandwidths], [InterfaceSboms] and the like: a value for the link and
    values towards other interfaces.  A nil map is kept apart from an empty one:
    it cannot be written to. *)
Record Interface := mkIf {
  Inter : Z;
  Intra : option (gmap Z Z)
}.
(** [InterfaceHops] has no value for the link. *)
Record InterfaceHops := mkHops { HopsIntra : option (gmap Z Z) }.

Record t := mk {
  Latency : gmap Z Interface;
  Bandwidth : gmap Z Interface;
  CarbonIntensity : gmap Z Interface;
  Sbom : gmap Z Interface;
  Vuln : gmap Z Interface;
  Fixed : gmap Z Interface;
  Affected : gmap Z Interface;
  LinkType : gmap Z Z;
  Geo : gmap Z GeoCoordinates;
  Hops : gmap Z InterfaceHops;
  Note : gostring
}.

(** ** Cleaning *)

Section order.
(** The order in which the maps are iterated. *)
Context (order : ∀ V : Type, gmap Z V → list (Z * V)).

(** The entries of a map that may be nil. *)
Definition entries (m : option (gmap Z Z)) : gmap Z Z := default ∅ m.

(** Whether the value [v] for a pair of interfaces replaces the one for the pair
    the other way round. *)
Definition replaces (conservative : Z → Z → bool) (v : Z) (transposed : option Z) : bool :=
  match transposed with None => true | Some vTransposed => conservative v vTransposed end.

(** The body of the inner loop: the value [v] from [i] to [j]. *)
Definition transpose (conservative : Z → Z → bool) (i j v : Z) (m : gmap Z Interface) : gmap Z Interface :=
  match m !! j with
  | None => m
  | Some other =>
      let intra := entries (Intra other) in
      <[j := mkIf (Inter other)
               (Some (if replaces conservative v (intra !! i) then <[i := v]> intra else intra))]> m
  end.

(** The body of the outer loop: the entry of [i] without a value to itself is
    transposed. *)
Definition symmetrize_one (conservative : Z → Z → bool) (m : gmap Z Interface) (i : Z) : gmap Z Interface :=
  match m !! i with
  | None => m
  | Some sub =>
      let intra := delete i <$> Intra sub in
      foldl (λ m '(j, v), transpose conservative i j v m) (<[i := mkIf (Inter sub) intra]> m)
        (order Z (entries intra))
  end.

(** The loop over the interfaces: their number does not change on the way. *)
Definition symmetrize (conservative : Z → Z → bool) (m : gmap Z Interface) : gmap Z Interface :=
  foldl (symmetrize_one conservative) m (order _ m).*1.

(** Longer latencies and lower values are taken for more conservative. *)
Definition symmetrizeLatency : gmap Z Interface → gmap Z Interface := symmetrize (λ v t, t <? v).
Definition symmetrizeBandwidth : gmap Z Interface → gmap Z Interface := symmetrize (λ v t, v <? t).
Definition symmetrizeCarbonIntensity : gmap Z Interface → gmap Z Interface := symmetrize (λ v t, v <? t).
Definition symmetrizeSbom : gmap Z Interface → gmap Z Interface := symmetrize (λ v t, v <? t).
Definition symmetrizeVuln : gmap Z Interface → gmap Z Interface := symmetrize (λ v t, v <? t).
Definition symmetrizeFixed : gmap Z Interface → gmap Z Interface := symmetrize (λ v t, v <? t).
Definition symmetrizeAffected : gmap Z Interface → gmap Z Interface := symmetrize (λ v t, v <? t).

(** Hops: a missing entry is added, and an entry with a nil map is written to,
    which panics.  Whether the entries that are added are visited by the loop
    makes no difference: they have the value of the entry they come from. *)
Definition transpose_hops (i j v : Z) (m : gmap Z InterfaceHops) : outcome (gmap Z InterfaceHops) :=
  match m !! j with
  | None => Ok (<[j := mkHops (Some {[i := v]})]> m)
  | Some other =>
      if replaces (λ v t, v <? t) v (entries (HopsIntra other) !! i) then
        match HopsIntra other with
        | None => Panic
        | Some intra => Ok (<[j := mkHops (Some (<[i := v]> intra))]> m)
        end
      else Ok m
  end.
Fixpoint transpose_all_hops (i : Z) (l : list (Z * Z)) (m : gmap Z InterfaceHops) : outcome (gmap Z InterfaceHops) :=
  match l with
  | [] => Ok m
  | (j, v) :: l => m ← transpose_hops i j v m; transpose_all_hops i l m
  end.
Definition symmetrize_hops_one (i : Z) (m : gmap Z InterfaceHops) : outcome (gmap Z InterfaceHops) :=
  match m !! i with
  | None => Ok m
  | Some sub =>
      let intra := delete i <$> HopsIntra sub in
      transpose_all_hops i (order Z (entries intra)) (<[i := mkHops intra]> m)
  end.
Fixpoint symmetrize_hops_from (l : list Z) (m : gmap Z InterfaceHops) : outcome (gmap Z InterfaceHops) :=
  match l with
  | [] => Ok m
  | i :: l => m ← symmetrize_hops_one i m; symmetrize_hops_from l m
  end.
Definition symmetrizeHops (m : gmap Z InterfaceHops) : outcome (gmap Z InterfaceHops) :=
  symmetrize_hops_from (order _ m).*1 m.

(** No entries for the interface 0. *)
Definition without_zero (m : gmap Z Interface) : gmap Z Interface :=
  (λ s, mkIf (Inter s) (delete 0 <$> Intra s)) <$> delete 0 m.
Definition hops_without_zero (m : gmap Z InterfaceHops) : gmap Z InterfaceHops :=
  (λ s, mkHops (delete 0 <$> HopsIntra s)) <$> delete 0 m.

Definition clean (cfg : t) : outcome t :=
  hops ← symmetrizeHops (hops_without_zero (Hops cfg));
  Ok (mk (symmetrizeLatency (without_zero (Latency cfg))) (symmetrizeBandwidth (without_zero (Bandwidth cfg)))
    (symmetrizeCarbonIntensity (without_zero (CarbonIntensity cfg))) (symmetrizeSbom (without_zero (Sbom cfg)))
    (symmetrizeVuln (without_zero (Vuln cfg))) (symmetrizeFixed (without_zero (Fixed cfg)))
    (symmetrizeAffected (without_zero (Affected cfg))) (delete 0 (LinkType cfg)) (delete 0 (Geo cfg)) hops (Note cfg)).
End order.

(** ** What a beacon announces *)

Definition type_of (ifType : gmap Z Z) (ifid : Z) : Z := default 0 (ifType !! ifid).

Definition includeIntraInfo (ifType : gmap Z Z) (ifid ingress egress : Z) : bool :=
  let isCoreIngress := (type_of ifType ingress =? IfState.Core) || (ingress =? 0) in
  let isCoreEgress := (type_of ifType egress =? IfState.Core) || (egress =? 0) in
  if isCoreIngress && isCoreEgress then ifid =? ingress
  else
    let t := type_of ifType ifid in
    (ifid =? ingress) || ((t =? IfState.Child) && (egress <? ifid)) || (t =? IfState.Core) || (t =? IfState.Peer).

Definition interfaceTypeTable (ifs : IfState.Interfaces) : gmap Z Z :=
  (λ intf, IfState.LinkType (IfState.topoInfo intf)) <$> IfState.All ifs.

(** The values towards other interfaces, and those of the links, that are
    announced. *)
Definition intra_values (ifType : gmap Z Z) (ingress egress : Z) (m : option (gmap Z Z)) : gmap Z Z :=
  filter (λ '(ifid, _), includeIntraInfo ifType ifid ingress egress = true) (entries m).
Definition egress_or_peer (ifType : gmap Z Z) (egress ifid : Z) : bool :=
  (ifid =? egress) || (type_of ifType ifid =? IfState.Peer).
Definition inter_values (ifType : gmap Z Z) (egress : Z) (m : gmap Z Interface) : gmap Z Z :=
  Inter <$> filter (λ '(ifid, _), egress_or_peer ifType egress ifid = true) m.

Definition generateLatency (cfg : t) (ifType : gmap Z Z) (ingress egress : Z) : LatencyInfo :=
  mkLatency (intra_values ifType ingress egress (Latency cfg !! egress ≫= Intra)) (inter_values ifType egress (Latency cfg)).

Definition generate_values (m : gmap Z Interface) (ifType : gmap Z Z) (ingress egress : Z) : Uint64Info :=
  mkUint64 (intra_values ifType ingress egress (m !! egress ≫= Intra)) (inter_values ifType egress m).

Definition generateBandwidth (cfg : t) : gmap Z Z → Z → Z → Uint64Info := generate_values (Bandwidth cfg).
Definition generateCarbonIntensity (cfg : t) : gmap Z Z → Z → Z → Uint64Info := generate_values (CarbonIntensity cfg).
Definition generateSbom (cfg : t) : gmap Z Z → Z → Z → Uint64Info := generate_values (Sbom cfg).
Definition generateVuln (cfg : t) : gmap Z Z → Z → Z → Uint64Info := generate_values (Vuln cfg).
Definition generateFixed (cfg : t) : gmap Z Z → Z → Z → Uint64Info := generate_values (Fixed cfg).
Definition generateAffected (cfg : t) : gmap Z Z → Z → Z → Uint64Info := generate_values (Affected cfg).

Definition generateLinkType (cfg : t) (ifType : gmap Z Z) (egress : Z) : gmap Z Z :=
  filter (λ '(ifid, _), egress_or_peer ifType egress ifid = true) (LinkType cfg).

Definition generateInternalHops (cfg : t) (ifType : gmap Z Z) (ingress egress : Z) : gmap Z Z :=
  intra_values ifType ingress egress (Hops cfg !! egress ≫= HopsIntra).

Definition generateGeo (cfg : t) (ifType : gmap Z Z) (ingress egress : Z) : gmap Z GeoCoordinates :=
  filter (λ '(ifid, _), (ifid =? ingress) || egress_or_peer ifType egress ifid = true) (Geo cfg).

Definition generate (cfg : t) (ifType : gmap Z Z) (ingress egress : Z) : Extension :=
  StaticInfo.mk (generateLatency cfg ifType ingress egress) (generateBandwidth cfg ifType ingress egress)
    (generateCarbonIntensity cfg ifType ingress egress) (generateSbom cfg ifType ingress egress)
    (generateVuln cfg ifType ingress egress) (generateFixed cfg ifType ingress egress)
    (generateAffected cfg ifType ingress egress) (generateGeo cfg ifType ingress egress)
    (generateLinkType cfg ifType egress) (generateInternalHops cfg ifType ingress egress) (Note cfg).

Definition Generate (cfg : t) (ifs : IfState.Interfaces) (ingress egress : Z) : Extension :=
  generate cfg (interfaceTypeTable ifs) ingress egress.

End StaticInfoCfg.

(** * Properties *)
Module StaticInfoCfgProperties.

Import StaticInfoCfg.

(** The value from [i] to [j]. *)
Definition value (m : gmap Z Interface) (i j : Z) : option Z := s ← m !! i; entries (Intra s) !! j.
Definition link_value (m : gmap Z Interface) (i : Z) : option Z := Inter <$> m !! i.

Section symmetrize.
Context (order : ∀ V : Type, gmap Z V → list (Z * V)).
Hypothesis order_perm : ∀ V (m : gmap Z V), order V m ≡ₚ map_to_list m.

(** The more conservative of two values is the smaller one in a strict total
    order. *)
Context (conservative : Z → Z → bool).
Hypothesis conservative_irrefl : ∀ v, conservative v v = false.
Hypothesis conservative_asym : ∀ v w, conservative v w = true → conservative w v = false.
Hypothesis conservative_total : ∀ v w, v ≠ w → conservative v w = true ∨ conservative w v = true.

(** The more conservative of the values for a pair that are known. *)
Definition best (x y : option Z) : option Z :=
  match x, y with
  | Some v, Some w => Some (if conservative v w then v else w)
  | Some v, None => Some v
  | None, y => y
  end.

Lemma best_comm x y : best x y = best y x.
Proof.
  destruct x as [v|], y as [w|]; try done. cbn. f_equal.
  destruct (conservative v w) eqn:E; [by rewrite (conservative_asym _ _ E)|].
  destruct (conservative w v) eqn:E'; [done|]. destruct (decide (v = w)) as [|Hn]; [done|].
  destruct (conservative_total v w Hn); congruence.
Qed.

Lemma best_idem x y : best x (best x y) = best x y.
Proof. destruct x as [v|], y as [w|]; cbn; rewrite ?conservative_irrefl; try done. f_equal. destruct (conservative v w) eqn:E; [by rewrite conservative_irrefl|by rewrite E]. Qed.

Lemma replaces_best v t : (if replaces conservative v t then Some v else t) = best (Some v) t.
Proof. destruct t as [w|]; cbn; [|done]. by destruct (conservative v w). Qed.

Lemma transpose_dom i j v m k : is_Some (transpose conservative i j v m !! k) ↔ is_Some (m !! k).
Proof.
  unfold transpose. destruct (m !! j) as [o|] eqn:E; [|done].
  destruct (decide (k = j)) as [->|]; [by rewrite lookup_insert_eq, E|by rewrite lookup_insert_ne].
Qed.

Lemma transpose_link i j v m k : link_value (transpose conservative i j v m) k = link_value m k.
Proof.
  unfold transpose, link_value. destruct (m !! j) as [o|] eqn:E; [|done].
  destruct (decide (k = j)) as [->|]; [by rewrite lookup_insert_eq, E|by rewrite lookup_insert_ne].
Qed.

Lemma transpose_value i j v m a b :
  value (transpose conservative i j v m) a b =
  if bool_decide (a = j ∧ b = i ∧ is_Some (m !! j)) then best (Some v) (value m j i) else value m a b.
Proof.
  unfold transpose, value. destruct (m !! j) as [o|] eqn:E.
  2:{ rewrite bool_decide_false; [done|]. intros (_ & _ & [? ?]). done. }
  destruct (decide (a = j)) as [->|Ha].
  - rewrite lookup_insert_eq, E. cbn [mbind option_bind Intra]. unfold entries at 1. cbn [default]. unfold id. destruct (decide (b = i)) as [->|Hb].
    + rewrite bool_decide_true by eauto. rewrite <- replaces_best. destruct (replaces _ _ _); [by rewrite lookup_insert_eq|done].
    + rewrite bool_decide_false by tauto. destruct (replaces _ _ _); [by rewrite lookup_insert_ne|done].
  - rewrite lookup_insert_ne by done. rewrite bool_decide_false by tauto. done.
Qed.

(** What the inner loop does to the entries of the other interfaces. *)
Lemma transpose_all_value i l m a b :
  NoDup l.*1 →
  value (foldl (λ m '(j, v), transpose conservative i j v m) m l) a b =
  if decide (b = i) then
    match list_to_map (M:=gmap Z Z) l !! a with
    | Some v => if decide (is_Some (m !! a)) then best (Some v) (value m a i) else value m a b
    | None => value m a b
    end
  else value m a b.
Proof.
  revert m. induction l as [|[j v] l IH]; intros m Hnd.
  - cbn. by destruct (decide (b = i)).
  - cbn in Hnd. apply NoDup_cons in Hnd as [Hj Hnd]. cbn [foldl]. rewrite IH by done.
    destruct (decide (b = i)) as [->|Hb].
    2:{ rewrite transpose_value. rewrite bool_decide_false by tauto. done. }
    rewrite list_to_map_cons. destruct (decide (a = j)) as [->|Ha].
    + rewrite lookup_insert_eq. rewrite not_elem_of_list_to_map_1 by done.
      rewrite transpose_value. destruct (decide (is_Some (m !! j))) as [Hs|Hs].
      * by rewrite bool_decide_true.
      * by rewrite bool_decide_false by tauto.
    + rewrite lookup_insert_ne by done.
      destruct (list_to_map l !! a); rewrite !transpose_value, !bool_decide_false by tauto; [|done].
      destruct (decide (is_Some (m !! a))) as [Hs|Hs]; destruct (decide _) as [Hs'|Hs'];
        rewrite ?transpose_dom in Hs'; tauto.
Qed.

Lemma foldl_transpose_dom i l m k :
  is_Some (foldl (λ m '(j, v), transpose conservative i j v m) m l !! k) ↔ is_Some (m !! k).
Proof. revert m. induction l as [|[j v] l IH]; intros m; [done|]. cbn. by rewrite IH, transpose_dom. Qed.
Lemma foldl_transpose_link i l m k :
  link_value (foldl (λ m '(j, v), transpose conservative i j v m) m l) k = link_value m k.
Proof. revert m. induction l as [|[j v] l IH]; intros m; [done|]. cbn. by rewrite IH, transpose_link. Qed.

Lemma symmetrize_one_dom m i k : is_Some (symmetrize_one order conservative m i !! k) ↔ is_Some (m !! k).
Proof.
  unfold symmetrize_one. destruct (m !! i) as [s|] eqn:E; [|done]. cbv zeta. rewrite foldl_transpose_dom.
  destruct (decide (k = i)) as [->|]; [by rewrite lookup_insert_eq, E|by rewrite lookup_insert_ne].
Qed.
Lemma symmetrize_one_link m i k : link_value (symmetrize_one order conservative m i) k = link_value m k.
Proof.
  unfold symmetrize_one. destruct (m !! i) as [s|] eqn:E; [|done]. cbv zeta. rewrite foldl_transpose_link.
  unfold link_value. destruct (decide (k = i)) as [->|]; [by rewrite lookup_insert_eq, E|by rewrite lookup_insert_ne].
Qed.

(** One round: the value of the pair the other way round takes that of [i] into
    account. *)
Lemma symmetrize_one_value m i a b :
  is_Some (m !! i) → is_Some (m !! a) →
  value (symmetrize_one order conservative m i) a b =
  if decide (a = i) then (if decide (b = i) then None else value m i b)
  else if decide (b = i) then best (value m i a) (value m a i) else value m a b.
Proof.
  intros [s E] [sa Ea]. unfold symmetrize_one. rewrite E. cbv zeta.
  set (intra := delete i <$> Intra s). set (m1 := <[i := mkIf (Inter s) intra]> m).
  assert (entries intra = delete i (entries (Intra s))) as Eintra by (unfold intra; by destruct (Intra s)).
  assert (Permutation (order Z (entries intra)) (map_to_list (entries intra))) as Hp by apply order_perm.
  assert (NoDup (order Z (entries intra)).*1) as Hnd by (rewrite Hp; apply NoDup_fst_map_to_list).
  assert (list_to_map (order Z (entries intra)) = entries intra) as El.
  { rewrite (list_to_map_proper _ _ Hnd Hp). apply list_to_map_to_list. }
  rewrite transpose_all_value by done. rewrite El.
  assert (∀ b, value m1 i b = if decide (b = i) then None else value m i b) as Hi.
  { intros b'. unfold value, m1. rewrite lookup_insert_eq, E. cbn [mbind option_bind Intra]. rewrite Eintra.
    destruct (decide (b' = i)) as [->|]; [by rewrite lookup_delete_eq|by rewrite lookup_delete_ne]. }
  destruct (decide (a = i)) as [->|Ha].
  - destruct (decide (b = i)) as [->|Hb]; [|by rewrite Hi, decide_False].
    rewrite Eintra, lookup_delete_eq, Hi. by rewrite decide_True.
  - assert (∀ b, value m1 a b = value m a b) as Ho by (intros b'; unfold value, m1; by rewrite lookup_insert_ne).
    rewrite !Ho. destruct (decide (b = i)) as [->|Hb]; [|done].
    rewrite Eintra, lookup_delete_ne by done. assert (value m i a = entries (Intra s) !! a) as -> by (unfold value; by rewrite E).
    destruct (entries (Intra s) !! a) as [v|] eqn:Ev; [|done].
    rewrite decide_True; [done|]. unfold m1. rewrite lookup_insert_ne by done. eauto.
Qed.

(** The values when the interfaces of [done] have been visited. *)
Definition values_after (m : gmap Z Interface) (visited : list Z) (a b : Z) : option Z :=
  if decide (a = b) then (if decide (a ∈ visited) then None else value m a b)
  else if decide (b ∈ visited) then best (value m b a) (value m a b) else value m a b.

Lemma symmetrize_loop m m' l visited :
  NoDup l → (∀ i, i ∈ l → is_Some (m !! i) ∧ i ∉ visited) →
  (∀ k, is_Some (m' !! k) ↔ is_Some (m !! k)) →
  (∀ a b, is_Some (m !! a) → value m' a b = values_after m visited a b) →
  ∀ a b, is_Some (m !! a) → value (foldl (symmetrize_one order conservative) m' l) a b = values_after m (visited ++ l) a b.
Proof.
  revert m' visited. induction l as [|i l IH]; intros m' visited Hnd Hl Hd Hv a b Ha.
  - rewrite app_nil_r. by apply Hv.
  - apply NoDup_cons in Hnd as [Hi Hnd]. cbn [foldl]. rewrite cons_middle, app_assoc.
    destruct (Hl i) as [Hsi Hni]; [apply list_elem_of_here|].
    apply IH; [done| |by intros k; rewrite symmetrize_one_dom| |done].
    + intros j Hj. destruct (Hl j) as [? ?]; [by right|]. split; [done|].
      rewrite elem_of_app, list_elem_of_singleton. intros [?| ->]; done.
    + clear a b Ha. intros a b Ha. rewrite symmetrize_one_value by by apply Hd.
      unfold values_after. rewrite !Hv by done. unfold values_after.
      repeat (rewrite ?decide_True by done; rewrite ?decide_False by done).
      destruct (decide (a = i)) as [->|Hai].
      * destruct (decide (b = i)) as [->|Hbi].
        { rewrite !decide_True by set_solver. done. }
        rewrite decide_False by done. rewrite (decide_False (P := i = b)) by done.
        destruct (decide (b ∈ visited)), (decide (b ∈ visited ++ [i])); set_solver.
      * destruct (decide (b = i)) as [->|Hbi].
        { rewrite (decide_False (P := i = a)) by done. rewrite (decide_False (P := a = i)) by done.
          rewrite (decide_True (P := i ∈ visited ++ [i])) by set_solver. rewrite (decide_False (P := i ∈ visited)) by done.
          destruct (decide (a ∈ visited)); [|done].
          rewrite (best_comm (best (value m a i) (value m i a))), best_idem. apply best_comm. }
        destruct (decide (a = b)) as [->|Hab].
        { destruct (decide (b ∈ visited)), (decide (b ∈ visited ++ [i])); set_solver. }
        destruct (decide (b ∈ visited)), (decide (b ∈ visited ++ [i])); set_solver.
Qed.

Lemma symmetrize_value m a b :
  is_Some (m !! a) → is_Some (m !! b) →
  value (symmetrize order conservative m) a b = if decide (a = b) then None else best (value m a b) (value m b a).
Proof.
  intros Ha Hb. unfold symmetrize.
  assert ((order _ m).*1 ≡ₚ (map_to_list m).*1) as Hp by (by rewrite order_perm).
  assert (∀ i, i ∈ (order _ m).*1 ↔ is_Some (m !! i)) as Hin.
  { intros i. rewrite Hp, list_elem_of_fmap. split.
    - intros ([k v] & -> & H%elem_of_map_to_list). eauto.
    - intros [v H]. exists (i, v). split; [done|]. by apply elem_of_map_to_list. }
  rewrite (symmetrize_loop m m _ []); [|rewrite Hp; apply NoDup_fst_map_to_list| |done| |done].
  - cbn. unfold values_after. destruct (decide (a = b)) as [->|Hab].
    + rewrite decide_True; [done|]. by apply Hin.
    + rewrite decide_True by by apply Hin. apply best_comm.
  - intros i Hi. split; [by apply Hin|]. apply not_elem_of_nil.
  - intros a' b' Ha'. unfold values_after. destruct (decide (a' = b')); done.
Qed.
End symmetrize.

(** Cleaning the configuration makes the values between interfaces symmetric.
    In whatever order the maps are iterated, the latency between two configured
    interfaces is the same in both directions afterwards, namely the longer of
    the two values that were given, or the one that was given, and no interface
    has a latency to itself. *)
Theorem latencies_symmetric order m a b :
  (∀ V (m : gmap Z V), order V m ≡ₚ map_to_list m) → is_Some (m !! a) → is_Some (m !! b) → a ≠ b →
  value (symmetrizeLatency order m) a b = value (symmetrizeLatency order m) b a ∧
  value (symmetrizeLatency order m) a b =
    match value m a b, value m b a with Some v, Some w => Some (Z.max v w) | Some v, None => Some v | None, w => w end ∧
  value (symmetrizeLatency order m) a a = None.
Proof.
  intros Ho Ha Hb Hab. unfold symmetrizeLatency.
  rewrite !(symmetrize_value order Ho (λ v t, t <? v)); try done; try (intros; lia).
  rewrite !decide_False, decide_True by done. split_and!; [|destruct (value m a b), (value m b a); cbn|done].
  - apply best_comm; intros; lia.
  - f_equal. destruct (Z.ltb_spec z0 z); lia.
  - done.
  - done.
  - done.
Qed.

(** One order of iteration. *)
Definition in_order (V : Type) (m : gmap Z V) : list (Z * V) := map_to_list m.

Definition example : gmap Z Interface :=
  {[1 := mkIf 10 (Some {[2 := 5; 1 := 3]}); 2 := mkIf 20 (Some {[1 := 7]}); 3 := mkIf 30 None]}.

Lemma latencies_symmetric_witness :
  value (symmetrizeLatency in_order example) 1 2 = Some 7 ∧
  value (symmetrizeLatency in_order example) 2 1 = Some 7.
Proof.
  destruct (latencies_symmetric in_order example 1 2) as (Hs & Hv & _);
    [done|by vm_compute; eauto|by vm_compute; eauto|done|].
  split; [exact Hv|]. rewrite <- Hs. exact Hv.
Defined.

(** ** Crossings of segments *)

(** At a crossing between two segments of an AS that come from child
    interfaces, the values between the two interfaces are announced in exactly
    one of the two AS entries, whatever the interfaces are over which the
    beacons came in. *)
Theorem crossing_announced_once ifType e1 e2 in1 in2 :
  e1 ≠ e2 → type_of ifType e1 = IfState.Child → type_of ifType e2 = IfState.Child → e1 ≠ 0 → e2 ≠ 0 →
  in1 ≠ e2 → in2 ≠ e1 →
  includeIntraInfo ifType e2 in1 e1 = negb (includeIntraInfo ifType e1 in2 e2).
Proof.
  intros Hne H1 H2 Hz1 Hz2 Hi1 Hi2. unfold includeIntraInfo. rewrite H1, H2.
  unfold IfState.Child, IfState.Core, IfState.Peer. cbn.
  replace (e1 =? 0) with false by lia. replace (e2 =? 0) with false by lia. rewrite !andb_false_r.
  replace (e2 =? in1) with false by lia. replace (e1 =? in2) with false by lia. cbn.
  destruct (Z.ltb_spec e1 e2), (Z.ltb_spec e2 e1); done || lia.
Qed.

Lemma crossing_announced_once_witness :
  includeIntraInfo {[1 := IfState.Child; 2 := IfState.Child; 9 := IfState.Parent]} 2 9 1 =
  negb (includeIntraInfo {[1 := IfState.Child; 2 := IfState.Child; 9 := IfState.Parent]} 1 9 2).
Proof. apply crossing_announced_once; done. Defined.

(** A configuration that names an interface without hops panics when another one
    has hops to it. *)
Lemma hops_without_intra_panic :
  symmetrizeHops in_order {[1 := mkHops (Some {[2 := 3]}); 2 := mkHops None]} = Panic.
Proof. vm_compute. reflexivity. Qed.

End StaticInfoCfgProperties.
