(* ===== verification/Beaconing.v ===== *)
(** Extending beacons, [control/beaconing/extender.go] (Module [Beaconing]), and
    the promises of an AS that does (Module [BeaconingProperties]).

    A beacon goes from AS to AS.  Each of them appends an AS entry with a hop
    field for the way on, and one for each of its peering links, whose MACs chain
    to the hop fields of the ASes before. *)
From S2P Require Export Segment StaticInfoCfg RouterLemmas.

Module Beaconing.

Import Segment.

(** A [Signer] of the package: one for segments, with its validity. *)
Record BSigner := mkSigner {
  seg_signer : Segment.Signer;
  Validity_ : Validity.t
}.

(** The maps of a [fabrid.FabridManager] that go into the beacons are kept as the
    detached extension that is made of them.  The logger and the metrics are left
    out; [MaxExpTime], [StaticInfo] and [SignerGen] are functions without
    arguments, kept as what they return. *)
Record DefaultExtender := mk {
  IA : Z;
  SignerGen : outcome (list BSigner);
  MAC : bytes → bytes;
  Intfs : IfState.Interfaces;
  MTU : Z;
  MaxExpTime : Z;
  StaticInfo : option StaticInfoCfg.t;
  EPIC : bool;
  Fabrid : option FabridDetached.Detached
}.
Definition set_Fabrid (f : option FabridDetached.Detached) (s : DefaultExtender) : DefaultExtender :=
  mk (IA s) (SignerGen s) (MAC s) (Intfs s) (MTU s) (MaxExpTime s) (StaticInfo s) (EPIC s) f.

(** The first two bytes of a MAC, which is an array of six. *)
Definition sigma (m : bytes) : Z := be_val (take 2 m).

Definition extractBeta (pseg : PathSegment) : Z :=
  foldl (λ beta e, Z.lxor beta (sigma (Segment.MAC (HopField_ (HopEntry_ e))))) (SegmentID (Info_ pseg))
    (ASEntries pseg).

(** [util.TimeToSecs] *)
Definition TimeToSecs (t : Z) : Z := u32 (t / Second).

Section extender.
Context (s : DefaultExtender).

Definition remoteIA (ifID : Z) : outcome Z :=
  if ifID =? 0 then Ok 0 else
  match IfState.Get (Intfs s) ifID with
  | None => Err (New "interface not found")
  | Some intf =>
      let topoInfo := IfState.topoInfo intf in
      _ ← fail_if (ISDAS.IsWildcard (IfState.IA topoInfo)) (New "remote is wildcard");
      Ok (IfState.IA topoInfo)
  end.

Definition remoteMTU (ifID : Z) : outcome Z :=
  if ifID =? 0 then Ok 0 else
  match IfState.Get (Intfs s) ifID with
  | None => Err (New "interface not found")
  | Some intf => Ok (IfState.MTU (IfState.topoInfo intf))
  end.

Definition remoteInfo (ifid : Z) : outcome (Z * Z * Z) :=
  if ifid =? 0 then Ok (0, 0, 0) else
  match IfState.Get (Intfs s) ifid with
  | None => Err (New "interface not found")
  | Some intf =>
      let topoInfo := IfState.topoInfo intf in
      _ ← fail_if (IfState.RemoteID topoInfo =? 0) (New "remote interface ID is not set");
      _ ← fail_if (ISDAS.IsWildcard (IfState.IA topoInfo)) (New "remote ISD-AS is wildcard");
      Ok (IfState.IA topoInfo, IfState.RemoteID topoInfo, IfState.MTU topoInfo)
  end.

(** The hop field, and the rest of its full MAC. *)
Definition createHopF (ingress egress expTime ts beta : Z) : outcome (Segment.HopField * bytes) :=
  input ← Mac.MACInput beta (TimeToSecs ts) expTime ingress egress (make_bytes Mac.MACBufferSize);
  let fullMAC := MAC s input in
  m ← sub fullMAC 0 HopField.MacLen;
  tail ← sub_from fullMAC HopField.MacLen;
  Ok (mkHopField expTime ingress egress (copy (make_bytes HopField.MacLen) m), tail).

Definition createHopEntry (ingress egress expTime ts beta : Z) : outcome (HopEntry * bytes) :=
  remoteInMTU ← wrap_err "checking remote ingress interface (mtu)" (remoteMTU ingress);
  '(hopF, epicMac) ← createHopF ingress egress expTime ts beta;
  Ok (mkHopEntry hopF remoteInMTU, epicMac).

Definition createPeerEntry (ingress egress expTime ts beta : Z) : outcome (PeerEntry * bytes) :=
  '(remoteInIA, remoteInIfID, remoteInMTU) ← wrap_err "checking remote ingress interface" (remoteInfo ingress);
  '(hopF, epicMac) ← createHopF ingress egress expTime ts beta;
  Ok (mkPeerEntry hopF remoteInIA remoteInIfID remoteInMTU, epicMac).

(** A peering link with an error is left out. *)
Fixpoint createPeerEntries (egress : Z) (peers : list Z) (expTime ts beta : Z) :
    outcome (list PeerEntry * list bytes) :=
  match peers with
  | [] => Ok ([], [])
  | peer :: peers =>
      match createPeerEntry peer egress expTime ts beta with
      | Ok (e, m) => '(es, ms) ← createPeerEntries egress peers expTime ts beta; Ok (e :: es, m :: ms)
      | Err _ => createPeerEntries egress peers expTime ts beta
      | Panic => Panic
      end
  end.

(** The signer that is used at [now]: the one that lives longest. *)
Definition select_signer (now ts : Z) : outcome BSigner :=
  signers ← wrap_err "getting signer" (SignerGen s);
  wrap_err "selecting signer" (TrustSigner.LastExpiring Validity_ signers (Validity.mk ts now)).

(** The expiration time of the hop fields: not after the signer expires. *)
Definition hop_exp_time (ts signerExp : Z) : outcome Z :=
  let expTime := MaxExpTime s in
  if signerExp <? ts + HopField.ExpTimeToDuration expTime
  then wrap_err "calculating expiry time from signer expiration time"
         (HopField.ExpTimeFromDuration (TrustSigner.Sub signerExp ts))
  else Ok expTime.

Section sha.
Context (sha256 : bytes → bytes).

(** The digests that protect the detached extensions. *)
Definition epic_extension (epicHopMac : bytes) (epicPeerMacs : list bytes) :
    outcome (option EpicDetached.Detached * option Digest.Extension) :=
  if EPIC s then
    let e := EpicDetached.mk epicHopMac epicPeerMacs in
    input ← EpicDetached.DigestInput (Some e);
    Ok (Some e, Some (Digest.mk (Digest.Set_ sha256 input) []))
  else Ok (None, None).

(** Hashing the FABRID maps sorts the index lists of the extender's own maps. *)
Definition fabrid_extension (digests : option Digest.Extension) :
    option FabridDetached.Detached * option Digest.Extension * option FabridDetached.Detached :=
  match Fabrid s with
  | None => (None, digests, None)
  | Some f =>
      let f' := FabridDetached.sorted_indices f in
      let d := default [] (match result (FabridDetached.Hash sha256) f with Ok h => Some h | _ => None end) in
      (Some f', Some (Digest.mk (default [] (Digest.Epic <$> digests)) d), Some f')
  end.

(** The new AS entry, still unsigned, with its signer; and the FABRID maps of the
    extender afterwards. *)
Definition new_entry (now : Z) (pseg : PathSegment) (ingress egress : Z) (peers : list Z) :
    outcome (ASEntry * BSigner * option FabridDetached.Detached) :=
  _ ← fail_if (MTU s =? 0) (New "MTU not set");
  let firstHop := MaxIdx pseg <? 0 in
  _ ← fail_if ((ingress =? 0) && negb firstHop) (New "ingress must only be zero in first hop");
  _ ← fail_if (negb (ingress =? 0) && firstHop) (New "ingress must be zero in first hop");
  _ ← fail_if ((ingress =? 0) && (egress =? 0)) (New "ingress and egress must not be both 0");
  let ts := Timestamp (Info_ pseg) in
  signer ← select_signer now ts;
  expTime ← hop_exp_time ts (Validity.NotAfter (Validity_ signer));
  let hopBeta := extractBeta pseg in
  '(hopEntry, epicHopMac) ← wrap_err "creating hop entry" (createHopEntry ingress egress expTime ts hopBeta);
  let peerBeta := Z.lxor hopBeta (sigma (Segment.MAC (HopField_ hopEntry))) in
  '(peerEntries, epicPeerMacs) ← createPeerEntries egress peers expTime ts peerBeta;
  next ← remoteIA egress;
  let static := (λ cfg, StaticInfoCfg.Generate cfg (Intfs s) ingress egress) <$> StaticInfo s in
  '(epic, digests) ← epic_extension epicHopMac epicPeerMacs;
  let '(fabrid, digests, fabrid') := fabrid_extension digests in
  Ok (mkASEntry None None (IA s) next hopEntry peerEntries (MTU s)
        (Extensions.mk false static digests) (Extensions.mkUnsigned epic fabrid), signer, fabrid').
End sha.
End extender.

(** [Extend]: the segment and the extender are changed in place.  A segment that
    fails the final validation stays extended. *)
Definition Extend `{Crypto, SegmentCodec} (sha256 : bytes → bytes) (now ingress egress : Z) (peers : list Z) :
    SE (DefaultExtender * PathSegment) unit := λ '(s, pseg),
  match new_entry s sha256 now pseg ingress egress peers with
  | Err m => ((s, pseg), Err m)
  | Panic => ((s, pseg), Panic)
  | Ok (asEntry, signer, fabrid') =>
      let s' := set_Fabrid fabrid' s in
      let '(pseg', r) :=
        (_ ← AddASEntry asEntry (seg_signer signer);
         Validate sha256 (if egress =? 0 then ValidateSegment else ValidateBeacon)) pseg in
      ((s', pseg'), r)
  end.

End Beaconing.

(** * Properties *)
Module BeaconingProperties.

Import PathLemmas ProcessLemmas Segment SegmentProperties Beaconing.

(** ** Hop fields that chain *)

(** A hop entry as the hop field that data packets carry, and the info field it
    is authenticated with. *)
Definition hop_of (h : Segment.HopField) : HopField.t :=
  HopField.mk false false (ExpTime h) (ConsIngress h) (ConsEgress h) (Segment.MAC h).
Definition info_of (ps : PathSegment) (beta : Z) : InfoField.t :=
  InfoField.mk false true beta (TimeToSecs (Timestamp (Info_ ps))).

(** The SegID that the hop field of entry [i] is authenticated with. *)
Definition betas (id : Z) (l : list ASEntry) : Z :=
  foldl (λ beta e, Z.lxor beta (sigma (Segment.MAC (HopField_ (HopEntry_ e))))) id l.
Definition beta_at (ps : PathSegment) (i : nat) : Z := betas (SegmentID (Info_ ps)) (take i (ASEntries ps)).

(** [key ia] is the MAC function of the AS [ia].  The hop field of the entry is
    authenticated with its own SegID, those of the peering links with the one of
    the next entry, and they leave the AS over the same interface. *)
Record entry_authentic (key : Z → bytes → bytes) (ps : PathSegment) (i : nat) (e : ASEntry) : Prop := {
  ea_hop : authentic (key (Local e)) (info_of ps (beta_at ps i)) (hop_of (HopField_ (HopEntry_ e)));
  ea_peers : Forall (λ p, authentic (key (Local e)) (info_of ps (beta_at ps (S i))) (hop_of (PeerHopField p)) ∧
                          ConsEgress (PeerHopField p) = ConsEgress (HopField_ (HopEntry_ e))) (PeerEntries e)
}.
Definition chained_segment (key : Z → bytes → bytes) (ps : PathSegment) : Prop :=
  ∀ i e, ASEntries ps !! i = Some e → entry_authentic key ps i e.

Lemma extractBeta_eq ps : extractBeta ps = beta_at ps (length (ASEntries ps)).
Proof. unfold beta_at. by rewrite take_ge. Qed.

Lemma beta_at_S ps i e :
  ASEntries ps !! i = Some e →
  beta_at ps (S i) = Z.lxor (beta_at ps i) (sigma (Segment.MAC (HopField_ (HopEntry_ e)))).
Proof. intros H. unfold beta_at. rewrite (take_S_r _ _ _ H). unfold betas. by rewrite foldl_app. Qed.

Lemma beta_at_snoc ps e i :
  (i ≤ length (ASEntries ps))%nat → beta_at (set_entries (ASEntries ps ++ [e]) ps) i = beta_at ps i.
Proof. intros H. unfold beta_at. cbn. by rewrite take_app_le. Qed.

Lemma same_betas l l' id : Forall2 same_entry l l' → betas id l = betas id l'.
Proof. intros Hf. revert id. induction Hf as [|e e' l l' [u ->] _ IH]; intros id; [done|]. cbn. apply IH. Qed.

Lemma same_beta_at ps ps' i : same_hops ps ps' → beta_at ps i = beta_at ps' i.
Proof. intros [Ei Hf]. unfold beta_at. rewrite Ei. by apply same_betas, Forall2_take. Qed.

Lemma chained_same key ps ps' : same_hops ps ps' → chained_segment key ps → chained_segment key ps'.
Proof.
  intros Hs Hc i e' He'. destruct Hs as [Ei Hf]. destruct (Forall2_lookup_r _ _ _ _ _ Hf He') as (e & He & [u ->]).
  destruct (Hc i e He) as [H1 H2]. unfold info_of in *. rewrite <- Ei in H1, H2.
  rewrite (same_beta_at ps ps' i), (same_beta_at ps ps' (S i)) in * by done. by split.
Qed.

Lemma chained_snoc key ps e :
  chained_segment key ps → entry_authentic key (set_entries (ASEntries ps ++ [e]) ps) (length (ASEntries ps)) e →
  chained_segment key (set_entries (ASEntries ps ++ [e]) ps).
Proof.
  intros Hc He i e' Hi. cbn [ASEntries set_entries] in Hi. apply lookup_app_Some in Hi as [Hi|[Hle Hi]].
  - pose proof (lookup_lt_Some _ _ _ Hi). destruct (Hc i e' Hi) as [H1 H2].
    unfold info_of in *. split; rewrite !beta_at_snoc by lia; done.
  - apply list_lookup_singleton_Some in Hi as [Hz <-]. by replace i with (length (ASEntries ps)) by lia.
Qed.

(** ** The new entry *)

Section entry.
Context (s : DefaultExtender) (sha256 : bytes → bytes).
Hypothesis mac_len : ∀ b, 16 ≤ len (MAC s b).

Lemma createHopF_Ok ingress egress expTime ts beta :
  createHopF s ingress egress expTime ts beta =
  let full := MAC s (Mac.mac_block (InfoField.mk false true beta (TimeToSecs ts)) (hop_of (mkHopField expTime ingress egress []))) in
  Ok (mkHopField expTime ingress egress (take 6 full), drop 6 full).
Proof.
  unfold createHopF.
  rewrite (Mac.MACInput_Ok (InfoField.mk false true beta (TimeToSecs ts)) (hop_of (mkHopField expTime ingress egress [])))
    by done. go_cbn. cbv zeta.
  rewrite (drop_ge (make_bytes _)), app_nil_r by done. set (full := MAC s _).
  assert (16 ≤ len full) as Hl by apply mac_len. unfold HopField.MacLen, sub_from.
  rewrite !sub_Ok by lia. go_cbn. change (Z.to_nat (6 - 0)) with 6%nat. change (Z.to_nat 0) with 0%nat.
  change (Z.to_nat 6) with 6%nat. rewrite drop_0, copy_same.
  - rewrite (take_ge (drop 6 full)); [done|]. rewrite length_drop. unfold len. lia.
  - unfold len, make_bytes in *. rewrite length_take, length_replicate. lia.
Qed.

Lemma createHopF_authentic ingress egress expTime ts beta h tail :
  createHopF s ingress egress expTime ts beta = Ok (h, tail) →
  authentic (MAC s) (InfoField.mk false true beta (TimeToSecs ts)) (hop_of h) ∧
  ConsIngress h = ingress ∧ ConsEgress h = egress ∧ ExpTime h = expTime ∧
  Segment.MAC h ++ tail = MAC s (Mac.mac_block (InfoField.mk false true beta (TimeToSecs ts)) (hop_of h)).
Proof.
  rewrite createHopF_Ok. cbv zeta. intros [= <- <-]. split_and!; try done. cbn [Segment.MAC]. by rewrite take_drop.
Qed.

Lemma createPeerEntries_authentic egress peers expTime ts beta es ms :
  createPeerEntries s egress peers expTime ts beta = Ok (es, ms) →
  Forall (λ p, authentic (MAC s) (InfoField.mk false true beta (TimeToSecs ts)) (hop_of (PeerHopField p)) ∧
               ConsEgress (PeerHopField p) = egress ∧ ExpTime (PeerHopField p) = expTime) es.
Proof.
  revert es ms. induction peers as [|peer peers IH]; intros es ms H; [injection H as <- <-; constructor|].
  cbn [createPeerEntries] in H. destruct (createPeerEntry _ _ _ _ _ _) as [[e m]| |] eqn:E; [|by eapply IH|done].
  apply bind_Ok in H as ([es' ms'] & H & Hr). injection Hr as <- <-. constructor; [|by eapply IH].
  unfold createPeerEntry in E. apply bind_Ok in E as ([[ia id] mtu] & _ & E).
  apply bind_Ok in E as ([h tail] & (Ha & _ & He & Ht & _)%createHopF_authentic & E). by injection E as <- <-.
Qed.

(** What the extender puts into the entry. *)
Record new_entry_spec (now : Z) (ps : PathSegment) (ingress egress : Z) (e : ASEntry) (signer : BSigner) : Prop := {
  ne_local : Local e = IA s;
  ne_next : remoteIA s egress = Ok (Next e);
  ne_ingress : ConsIngress (HopField_ (HopEntry_ e)) = ingress;
  ne_egress : ConsEgress (HopField_ (HopEntry_ e)) = egress;
  ne_first : (ingress = 0 ↔ ASEntries ps = []);
  ne_hop : authentic (MAC s) (info_of ps (extractBeta ps)) (hop_of (HopField_ (HopEntry_ e)));
  ne_peers : Forall (λ p, authentic (MAC s)
                 (info_of ps (Z.lxor (extractBeta ps) (sigma (Segment.MAC (HopField_ (HopEntry_ e))))))
                 (hop_of (PeerHopField p)) ∧ ConsEgress (PeerHopField p) = egress ∧
                 ExpTime (PeerHopField p) = ExpTime (HopField_ (HopEntry_ e))) (PeerEntries e);
  ne_signer : select_signer s now (Timestamp (Info_ ps)) = Ok signer;
  ne_exp : hop_exp_time s (Timestamp (Info_ ps)) (Validity.NotAfter (Validity_ signer)) =
             Ok (ExpTime (HopField_ (HopEntry_ e)))
}.

Lemma new_entry_Ok now ps ingress egress peers e signer f :
  new_entry s sha256 now ps ingress egress peers = Ok (e, signer, f) → new_entry_spec now ps ingress egress e signer.
Proof.
  unfold new_entry. cbv zeta. intros H.
  apply bind_Ok in H as (? & _ & H). apply bind_Ok in H as (? & G1%fail_if_Ok & H).
  apply bind_Ok in H as (? & G2%fail_if_Ok & H). apply bind_Ok in H as (? & _ & H).
  apply bind_Ok in H as (sg & Esg & H). apply bind_Ok in H as (et & Eet & H).
  apply bind_Ok in H as ([he tail] & Ehe%wrap_err_Ok & H). apply bind_Ok in H as ([pes ptails] & Epe & H).
  apply bind_Ok in H as (next & Enext & H). apply bind_Ok in H as ([epic dig] & _ & H).
  destruct (fabrid_extension _ _ _) as [[fab dig'] fab']. injection H as <- <- <-.
  unfold createHopEntry in Ehe. apply bind_Ok in Ehe as (mtu & _ & Ehe).
  apply bind_Ok in Ehe as ([h t] & (Ha & Hi & He & Ht & _)%createHopF_authentic & Ehe). injection Ehe as <- <-.
  cbn [HopField_] in Epe. split; cbn; try done.
  - unfold MaxIdx, len in *. destruct (ASEntries ps); cbn in *; split; try lia; try done.
  - apply createPeerEntries_authentic in Epe. by rewrite Ht.
  - by rewrite Ht.
Qed.

Lemma new_entry_authentic key now ps ingress egress e signer :
  (∀ b, MAC s b = key (IA s) b) → new_entry_spec now ps ingress egress e signer →
  entry_authentic key (set_entries (ASEntries ps ++ [e]) ps) (length (ASEntries ps)) e.
Proof.
  intros Hk [El _ _ Ee _ Hh Hp _ _]. rewrite extractBeta_eq in *.
  set (ps' := set_entries _ ps).
  assert (beta_at ps' (length (ASEntries ps)) = beta_at ps (length (ASEntries ps))) as Eb by (by apply beta_at_snoc).
  assert (beta_at ps' (S (length (ASEntries ps))) =
    Z.lxor (beta_at ps (length (ASEntries ps))) (sigma (Segment.MAC (HopField_ (HopEntry_ e))))) as Eb'.
  { rewrite (beta_at_S ps' _ e); [by rewrite Eb|]. by apply list_lookup_middle. }
  assert (∀ info hop, authentic (MAC s) info hop → authentic (key (IA s)) info hop) as Hau
    by (intros info hop; unfold authentic; by rewrite Hk).
  split.
  - rewrite El, Eb. by apply Hau.
  - rewrite El, Eb'. eapply Forall_impl; [exact Hp|]. intros p (Ha & Hc & _). rewrite Ee. split; [by apply Hau|done].
Qed.

(** The hop fields expire with the signer at the latest, and as late as they may. *)
Lemma hop_exp_time_bound ts signerExp expTime :
  is_u8 (MaxExpTime s) → hop_exp_time s ts signerExp = Ok expTime →
  is_u8 expTime ∧ ts + HopField.ExpTimeToDuration expTime ≤ signerExp ∧
  HopField.ExpTimeToDuration expTime ≤ HopField.ExpTimeToDuration (MaxExpTime s) ∧
  (expTime = MaxExpTime s ∨ signerExp < ts + HopField.ExpTimeToDuration expTime + HopField.expTimeUnit).
Proof.
  intros Hm. unfold hop_exp_time. cbv zeta. destruct (Z.ltb_spec signerExp (ts + HopField.ExpTimeToDuration (MaxExpTime s))).
  2:{ intros [= <-]. split_and!; [done|lia|lia|by left]. }
  intros H0%wrap_err_Ok. set (d := TrustSigner.Sub signerExp ts) in *.
  assert (HopField.expTimeUnit ≤ d ≤ HopField.MaxTTL) as Hd.
  { unfold HopField.ExpTimeFromDuration in H0.
    destruct (Z.ltb_spec d HopField.expTimeUnit); [discriminate|].
    destruct (Z.ltb_spec HopField.MaxTTL d); [discriminate|]. lia. }
  rewrite PathFieldsProperties.ExpTimeFromDuration_eq in H0 by done. injection H0 as <-.
  assert (d = signerExp - ts) as Ed.
  { unfold d, TrustSigner.Sub in *. unfold HopField.MaxTTL, HopField.Hour in Hd.
    rewrite PathFieldsProperties.expTimeUnit_value in Hd. change (2 ^ 63) with 9223372036854775808 in *. lia. }
  rewrite PathFieldsProperties.expTimeUnit_value in Hd.
  unfold HopField.MaxTTL, HopField.Hour in Hd. rewrite PathFieldsProperties.expTimeUnit_value.
  assert (is_u8 (d / 337500000000 - 1)) as He by dlia.
  rewrite (PathFieldsProperties.ExpTimeToDuration_eq (MaxExpTime s)) in * by done.
  rewrite !(PathFieldsProperties.ExpTimeToDuration_eq (_ - 1)) by done. clearbody d.
  split_and!; [done|dlia|dlia|right; dlia].
Qed.
End entry.

(** ** Extend *)

Section extend.
Context `{Crypto, SegmentCodec} (sha256 : bytes → bytes).

(** The steps of a successful extension: the entry, and the signed entry that was
    appended. *)
Lemma Extend_inv now ingress egress peers s ps s' ps' r :
  Extend sha256 now ingress egress peers (s, ps) = ((s', ps'), r) →
  (ps' = ps ∧ r ≠ Ok tt) ∨
  ∃ e signer f e', new_entry s sha256 now ps ingress egress peers = Ok (e, signer, f) ∧
    sign_entry ps e (seg_signer signer) = Ok e' ∧ s' = set_Fabrid f s ∧
    Validate sha256 (if egress =? 0 then ValidateSegment else ValidateBeacon)
      (set_entries (ASEntries ps ++ [e']) ps) = (ps', r).
Proof.
  unfold Extend. destruct (new_entry _ _ _ _ _ _ _) as [[[e signer] f]| |].
  2,3: intros [= <- <- <-]; by left.
  unfold mbind, SE_bind, AddASEntry. destruct (sign_entry ps e (seg_signer signer)) as [e'| |] eqn:Es.
  2,3: intros [= <- <- <-]; by left.
  destruct (Validate _ _ _) as [ps2 r2] eqn:Ev. intros [= <- <- <-]. right. by eexists _, _, _, _.
Qed.

Lemma sign_entry_same ps e signer e' :
  sign_entry ps e signer = Ok e' → ∃ m p, e' = set_signed (Some m) p e.
Proof.
  unfold sign_entry. intros E. apply bind_Ok in E as (? & _ & E). apply bind_Ok in E as (? & _ & E).
  apply bind_Ok in E as (m & _ & E). apply bind_Ok in E as (? & _ & E). apply bind_Ok in E as (pq & _ & E).
  injection E as <-. eauto.
Qed.

Lemma new_entry_spec_signed s now ps ingress egress e signer m p :
  new_entry_spec s now ps ingress egress e signer →
  new_entry_spec s now ps ingress egress (set_signed m p e) signer.
Proof. by intros []. Qed.

(** C9: Beacons chain.  Take a segment whose hop fields carry the MACs of their
    ASes, each for the SegID that the segment's identifier and the MACs before
    it give, and the hop fields of the peering links for the SegID of the entry
    after.  Whatever comes of extending it - also when the extension fails half
    way - its hop fields still chain like that; and when the extension succeeds,
    the segment has the entries it had and one of this AS, for the interfaces
    that were asked for, with the AS at the other end of the egress as the next
    one, and with hop fields that expire no later than the certificate of the
    signer. *)
Theorem extend_chains key now ingress egress peers s ps s' ps' r :
  (∀ b, 16 ≤ len (MAC s b)) → (∀ b, MAC s b = key (IA s) b) → is_u8 (MaxExpTime s) →
  chained_segment key ps →
  Extend sha256 now ingress egress peers (s, ps) = ((s', ps'), r) →
  chained_segment key ps' ∧
  (r = Ok tt → ∃ e signer,
    same_hops (set_entries (ASEntries ps ++ [e]) ps) ps' ∧
    Local e = IA s ∧ remoteIA s egress = Ok (Next e) ∧
    ConsIngress (HopField_ (HopEntry_ e)) = ingress ∧ ConsEgress (HopField_ (HopEntry_ e)) = egress ∧
    (ingress = 0 ↔ ASEntries ps = []) ∧
    select_signer s now (Timestamp (Info_ ps)) = Ok signer ∧
    ∀ d, d ∈ lifetimes_of e → Timestamp (Info_ ps) + d ≤ Validity.NotAfter (Validity_ signer)).
Proof.
  intros Hmac Hkey Hexp Hc Hx. apply Extend_inv in Hx as [[-> Hr]|(e & signer & f & e' & Hn & Hs & _ & Hv)]; [done|].
  destruct (sign_entry_same _ _ _ _ Hs) as (m & p & ->).
  pose proof (new_entry_spec_signed _ _ _ _ _ _ _ (Some m) p (new_entry_Ok _ _ Hmac _ _ _ _ _ _ _ _ Hn)) as Hsp.
  set (e1 := set_signed _ _ e) in *. pose proof (Validate_same _ _ _ _ _ Hv) as Hsame. split.
  - eapply chained_same; [exact Hsame|]. apply chained_snoc; [done|]. by eapply new_entry_authentic.
  - intros _. exists e1, signer. destruct Hsp as [? ? ? ? ? _ Hp ? Het]. split_and!; try done.
    destruct (hop_exp_time_bound _ _ _ _ Hexp Het) as (_ & Hle & _).
    intros d Hd. apply elem_of_cons in Hd as [->|Hd]; [done|].
    apply list_elem_of_fmap in Hd as (pe & -> & Hin). rewrite Forall_forall in Hp.
    destruct (Hp pe) as (_ & _ & ->); [by apply Hin|done].
Qed.

(** C10: Beacons verify.  When a verifier accepts the signatures of a beacon, and
    whatever the signers of the extending AS sign, it accepts the signatures of
    the extended beacon: the new entry is signed together with what all the
    ASes before it signed, and nothing of that changes. *)
Theorem extend_verifies verifier now ingress egress peers s ps s' ps' :
  (∀ signers x, SignerGen s = Ok signers → x ∈ signers → trusts verifier (seg_signer x)) →
  Verify verifier ps = Ok tt →
  Extend sha256 now ingress egress peers (s, ps) = ((s', ps'), Ok tt) →
  Verify verifier ps' = Ok tt.
Proof.
  intros Ht Hv Hx. apply Extend_inv in Hx as [[_ Hr]|(e & signer & f & e' & Hn & Hs & _ & Hval)]; [done|].
  eapply Verify_same; [by eapply Validate_same|]. apply Verify_snoc. split; [done|].
  eapply sign_entry_verifies; [|exact Hs].
  unfold new_entry in Hn. cbv zeta in Hn.
  do 4 (apply bind_Ok in Hn as (? & _ & Hn)). apply bind_Ok in Hn as (sg & Esg & Hn).
  assert (sg = signer) as ->.
  { apply bind_Ok in Hn as (? & _ & Hn). apply bind_Ok in Hn as ([? ?] & _ & Hn).
    apply bind_Ok in Hn as ([? ?] & _ & Hn). apply bind_Ok in Hn as (? & _ & Hn).
    apply bind_Ok in Hn as ([? ?] & _ & Hn). destruct (fabrid_extension _ _ _) as [[? ?] ?]. by injection Hn. }
  unfold select_signer in Esg. apply bind_Ok in Esg as (signers & Eg%wrap_err_Ok & El%wrap_err_Ok).
  apply SignedProperties.LastExpiring_spec in El as (Hin & _ & _). by eapply Ht.
Qed.
End extend.

(** ** Witnesses: a beacon of two ASes *)

(** Messages that are packed into nothing, and a verifier that looks for the
    signature [1]. *)
Definition toy_crypto : Crypto := {|
  EcdsaKey := unit; PqKey := unit;
  marshal_header := λ _, Ok []; unmarshal_header := λ _, Err [];
  marshal_header_and_body := λ _, Ok []; unmarshal_header_and_body := λ _, Err [];
  marshal_key_id := λ _, Ok []; unmarshal_key_id := λ _, Err [];
  marshal_signed := λ m, Ok (CryptoPB.HeaderAndBody m ++ CryptoPB.Signature m);
  TimestampProto := λ _, Err []; ptypes_Timestamp := λ _, Err [];
  hash_sum := λ _ b, b; asn1_Unmarshal := λ _, Err []; ecdsa_Verify := λ _ _ _ _, false;
  pq_Verify := λ _ _ _, false; pq_key_id := λ _, [] |}.
Definition toy_codec : SegmentCodec := {|
  marshal_body := λ b, Ok [SegmentPB.IsdAs b; SegmentPB.NextIsdAs b]; unmarshal_body := λ _, Err [];
  marshal_info := λ i, Ok [SegmentPB.Timestamp i]; unmarshal_info := λ _, Err [] |}.
Definition toy_signer : Segment.Signer :=
  Segment.mkSigner (λ msg ad, Ok (CryptoPB.mkSigned msg (1 :: concat ad)))
    (λ msg ad, Ok (Some (CryptoPB.mkSigned msg (1 :: concat ad)))).
Definition toy_verifier : @Verifier toy_crypto := λ m ad,
  match m with
  | Some m => _ ← fail_if (negb (bool_decide (CryptoPB.Signature m = 1 :: concat ad))) (New "bad signature");
              Ok (Signed.mkMsg (Signed.mkHdr 0 [] 0 [] 0) [])
  | None => Err (New "nil message")
  end.

Definition toy_key (ia : Z) (b : bytes) : bytes := take 16 (((λ x, (x + ia + 1) mod 256) <$> b) ++ make_bytes 16).
Lemma toy_key_len ia b : 16 ≤ len (toy_key ia b).
Proof.
  unfold toy_key. rewrite len_take, len_app, len_make_bytes by done.
  pose proof (len_nonneg ((λ x, (x + ia + 1) mod 256) <$> b)). lia.
Qed.

Definition ia1 : Z := 2 ^ 48 + 1.
Definition ia2 : Z := 2 ^ 48 + 2.
Definition ia3 : Z := 2 ^ 48 + 3.
Definition toy_interface (id ia ty remote : Z) : IfState.Interface :=
  IfState.mk (IfState.mkInfo id ia ty [] remote 1400) 0 0 0.
Definition toy_extender (ia : Z) (intfs : gmap Z IfState.Interface) : DefaultExtender :=
  mk ia (Ok [mkSigner toy_signer (Validity.mk 0 (1700100000 * Second))]) (toy_key ia)
    (IfState.mkInterfaces intfs 0) 1400 63 None true None.
Definition extender1 : DefaultExtender := toy_extender ia1 {[1 := toy_interface 1 ia2 IfState.Child 5]}.
Definition extender2 : DefaultExtender :=
  toy_extender ia2 {[5 := toy_interface 5 ia1 IfState.Parent 1; 9 := toy_interface 9 ia3 IfState.Peer 4]}.
Definition toy_sha (b : bytes) : bytes := b ++ make_bytes 32.
Definition beacon0 : PathSegment := mkSegment (mkInfo [7] (1700000000 * Second) 513) [].
Definition extend1 : (DefaultExtender * PathSegment) * outcome unit :=
  @Extend toy_crypto toy_codec toy_sha (1700000100 * Second) 0 1 [] (extender1, beacon0).
Definition beacon1 : PathSegment := extend1.1.2.
Definition extend2 : (DefaultExtender * PathSegment) * outcome unit :=
  @Extend toy_crypto toy_codec toy_sha (1700000200 * Second) 5 0 [9] (extender2, beacon1).
Definition beacon2 : PathSegment := extend2.1.2.

Lemma toy_exp : is_u8 63.
Proof. ulia. Qed.
Lemma extend1_Ok : extend1.2 = Ok tt.
Proof. vm_compute. reflexivity. Qed.
Lemma extend2_Ok : extend2.2 = Ok tt ∧ length (ASEntries beacon2) = 2%nat.
Proof. vm_compute. done. Qed.

Lemma beacon1_chained : chained_segment toy_key beacon1.
Proof. intros [|i] e He; vm_compute in He; [injection He as <-|discriminate]. split; [vm_compute; reflexivity|constructor]. Qed.

Lemma extend_chains_witness :
  chained_segment toy_key beacon2 ∧ (∃ e, same_hops (set_entries (ASEntries beacon1 ++ [e]) beacon1) beacon2).
Proof.
  assert (extend2 = ((extend2.1.1, beacon2), Ok tt)) as E.
  { rewrite (surjective_pairing extend2), (surjective_pairing extend2.1) at 1. by rewrite (proj1 extend2_Ok). }
  destruct (@extend_chains toy_crypto toy_codec toy_sha toy_key (1700000200 * Second) 5 0 [9] extender2 beacon1
    extend2.1.1 beacon2 (Ok tt) (toy_key_len ia2) (λ b, eq_refl) toy_exp
    beacon1_chained E) as [Hc Hr].
  split; [exact Hc|]. destruct (Hr eq_refl) as (e & signer & Hs & _). by exists e.
Defined.

Lemma toy_trusts : @trusts toy_crypto toy_verifier toy_signer.
Proof. split; intros msg ad m [= <-]; eexists; unfold toy_verifier; cbn; by rewrite bool_decide_true. Qed.

Lemma extend_verifies_witness : @Verify toy_crypto toy_verifier beacon2 = Ok tt.
Proof.
  apply (@extend_verifies toy_crypto toy_codec toy_sha toy_verifier (1700000200 * Second) 5 0 [9] extender2 beacon1
    extend2.1.1 beacon2).
  - intros signers x [= <-] ->%list_elem_of_singleton. exact toy_trusts.
  - vm_compute. reflexivity.
  - change (extend2 = (extend2.1.1, beacon2, Ok tt)).
    rewrite (surjective_pairing extend2), (surjective_pairing extend2.1) at 1. by rewrite (proj1 extend2_Ok).
Defined.

End BeaconingProperties.
