(* ===== verification/PathMetadata.v ===== *)
(** The metadata of a combined path, from the static info that its ASes announced:
    [private/path/combinator/staticinfo_accumulator.go] (Module [PathMetadata]).
    Module [PathMetadataProperties]: a value of the metadata is the most
    conservative one that any AS on the path announced for that hop. *)
From S2P Require Export Segment.

Module PathMetadata.

Import Segment StaticInfo.

(** [snet.PathInterface] *)
Record PathInterface := mkIf {
  ID : Z;
  IA : Z
}.
#[global] Instance PathInterface_eq_dec : EqDecision PathInterface.
Proof. solve_decision. Defined.
#[global] Instance PathInterface_countable : Countable PathInterface.
Proof. refine (inj_countable' (λ i, (ID i, IA i)) (λ '(a, b), mkIf a b) _). by intros []. Defined.
Definition no_interface : PathInterface := mkIf 0 0.

(** The metadata that this file computes, of [snet.PathMetadata]. *)
Record t := mk {
  Latency : list Z;
  Bandwidth : list Z;
  CarbonIntensity : list Z;
  Sbom : list Z;
  Vuln : list Z;
  Fixed : list Z;
  Affected : list Z;
  Geo : list GeoCoordinates;
  LinkType : list Z;
  InternalHops : list Z;
  Notes : list gostring
}.
Definition zero : t := mk [] [] [] [] [] [] [] [] [] [] [].

Definition LatencyUnset : Z := -1.
Definition CarbonIntensityUnset : Z := -1.

(** [snet.LinkType] *)
Definition LinkTypeUnset : Z := 0.
Definition LinkTypeDirect : Z := 1.
Definition LinkTypeMultihop : Z := 2.
Definition LinkTypeOpennet : Z := 3.

Record pathInfo := mkPath {
  Interfaces : list PathInterface;
  ASEntries : list ASEntry;
  RemoteIF : gmap PathInterface PathInterface
}.

(** A pair of interfaces without an order. *)
Definition hopKey : Type := PathInterface * PathInterface.
Definition makeHopKey (a b : PathInterface) : hopKey :=
  if (IA b <? IA a) || ((IA a =? IA b) && (ID b <? ID a)) then (b, a) else (a, b).

(** [addHopLatency] and its like: entries without an interface, or with a value
    that [skip]s, are left out; a value [replaces] the existing one when it is more
    conservative. *)
Definition add_hop (skip : Z → bool) (replaces : Z → Z → bool) (m : gmap hopKey Z) (a b : PathInterface) (v : Z) :
    gmap hopKey Z :=
  if (ID a =? 0) || (ID b =? 0) then m else
  if skip v then m else
  let k := makeHopKey a b in
  match m !! k with
  | None => <[k := v]> m
  | Some vExisting => if replaces vExisting v then <[k := v]> m else m
  end.

Definition addHopLatency := add_hop (λ v, v <? 0) (λ vExisting v, vExisting <? v).
Definition addHopBandwidth := add_hop (λ v, v =? 0) (λ vExisting v, v <? vExisting).
Definition addHopCarbonIntensity := add_hop (λ v, v =? 0) (λ vExisting v, vExisting <? v).
Definition addHopSbom := add_hop (λ v, v =? 0) (λ vExisting v, vExisting <? v).
Definition addHopVuln := add_hop (λ v, v =? 0) (λ vExisting v, vExisting <? v).
Definition addHopFixed := add_hop (λ v, v =? 0) (λ vExisting v, vExisting <? v).
Definition addHopAffected := add_hop (λ v, v =? 0) (λ vExisting v, vExisting <? v).
Definition addHopInternalHops := add_hop (λ v, v =? 0) (λ vExisting v, v <? vExisting).

Definition static_info (asEntry : ASEntry) : option Extension := Extensions.StaticInfo (Extensions_ asEntry).
Definition egress_interface (asEntry : ASEntry) : PathInterface :=
  mkIf (ConsEgress (HopField_ (HopEntry_ asEntry))) (Local asEntry).
Definition remote (p : pathInfo) (localIF : PathInterface) : PathInterface :=
  default no_interface (RemoteIF p !! localIF).

(** The pairs of consecutive interfaces. *)
Fixpoint consecutive (l : list PathInterface) : list (PathInterface * PathInterface) :=
  match l with
  | a :: (b :: _) as l' => (a, b) :: consecutive l'
  | _ => []
  end.
(** Every other pair, from the first one. *)
Fixpoint alternate {A} (l : list A) : list A :=
  match l with a :: _ :: l => a :: alternate l | l => l end.

Section order.
(** The order in which the maps are iterated. *)
Context (order : ∀ V : Type, gmap Z V → list (Z * V)).

(** Step 1 of [collectLatency] and its like: the values between interfaces of an
    AS, and those of the links. *)
Definition gather (add : gmap hopKey Z → PathInterface → PathInterface → Z → gmap hopKey Z)
    (intra inter : Extension → gmap Z Z) (p : pathInfo) : gmap hopKey Z :=
  foldl (λ m asEntry,
    match static_info asEntry with
    | None => m
    | Some staticInfo =>
        let m := foldl (λ m '(ifid, v), add m (egress_interface asEntry) (mkIf ifid (Local asEntry)) v) m
                   (order Z (intra staticInfo)) in
        foldl (λ m '(ifid, v), let localIF := mkIf ifid (Local asEntry) in add m localIF (remote p localIF) v) m
          (order Z (inter staticInfo))
    end) ∅ (ASEntries p).

(** Step 2: the value of each pair of consecutive interfaces. *)
Definition look_up (unset : Z) (m : gmap hopKey Z) (p : pathInfo) : list Z :=
  (λ '(a, b), default unset (m !! makeHopKey a b)) <$> consecutive (Interfaces p).

Definition collectLatency (p : pathInfo) : list Z :=
  look_up LatencyUnset
    (gather addHopLatency (λ s, Intra (StaticInfo.Latency s)) (λ s, Inter (StaticInfo.Latency s)) p) p.

(** [collectBandwidth] and the like: maps of 64-bit values. *)
Definition collect (add : gmap hopKey Z → PathInterface → PathInterface → Z → gmap hopKey Z)
    (info : Extension → Uint64Info) (p : pathInfo) : list Z :=
  look_up 0 (gather add (λ s, IntraU (info s)) (λ s, InterU (info s)) p) p.

Definition collectBandwidth : pathInfo → list Z := collect addHopBandwidth StaticInfo.Bandwidth.
Definition collectCarbonIntensity (p : pathInfo) : list Z :=
  look_up CarbonIntensityUnset
    (i64 <$> gather addHopCarbonIntensity (λ s, IntraU (StaticInfo.CarbonIntensity s))
               (λ s, InterU (StaticInfo.CarbonIntensity s)) p) p.
Definition collectSbom : pathInfo → list Z := collect addHopSbom StaticInfo.Sbom.
Definition collectVuln : pathInfo → list Z := collect addHopVuln StaticInfo.Vuln.
Definition collectFixed : pathInfo → list Z := collect addHopFixed StaticInfo.Fixed.
Definition collectAffected : pathInfo → list Z := collect addHopAffected StaticInfo.Affected.

Definition collectGeo (p : pathInfo) : list GeoCoordinates :=
  let ifaceGeos : gmap PathInterface GeoCoordinates :=
    foldl (λ m asEntry,
      match static_info asEntry with
      | None => m
      | Some staticInfo =>
          foldl (λ m '(ifid, v), <[mkIf ifid (Local asEntry) := v]> m) m (order _ (StaticInfo.Geo staticInfo))
      end) ∅ (ASEntries p) in
  (λ iface, default (StaticInfoPB.mkGeo 0 0 []) (ifaceGeos !! iface)) <$> Interfaces p.

Definition convertLinkType (lt : Z) : Z :=
  if lt =? StaticInfo.LinkTypeDirect then LinkTypeDirect
  else if lt =? StaticInfo.LinkTypeMultihop then LinkTypeMultihop
  else if lt =? StaticInfo.LinkTypeOpennet then LinkTypeOpennet
  else LinkTypeUnset.

(** Conflicting types make it unset. *)
Definition add_link_type (p : pathInfo) (asEntry : ASEntry) (m : gmap hopKey Z) (ifid rawLinkType : Z) : gmap hopKey Z :=
  let linkType := convertLinkType rawLinkType in
  let localIF := mkIf ifid (Local asEntry) in
  let hop := makeHopKey localIF (remote p localIF) in
  match m !! hop with
  | Some prevLinkType => if prevLinkType =? linkType then m else <[hop := LinkTypeUnset]> m
  | None => <[hop := linkType]> m
  end.
Definition collectLinkType (p : pathInfo) : list Z :=
  let hopLinkTypes :=
    foldl (λ m asEntry,
      match static_info asEntry with
      | None => m
      | Some staticInfo =>
          foldl (λ m '(ifid, t), add_link_type p asEntry m ifid t) m (order Z (StaticInfo.LinkType staticInfo))
      end) ∅ (ASEntries p) in
  (λ '(a, b), default LinkTypeUnset (hopLinkTypes !! makeHopKey a b)) <$> alternate (consecutive (Interfaces p)).

Definition collectInternalHops (p : pathInfo) : list Z :=
  let hopInternalHops :=
    foldl (λ m asEntry,
      match static_info asEntry with
      | None => m
      | Some staticInfo =>
          foldl (λ m '(ifid, v), addHopInternalHops m (egress_interface asEntry) (mkIf ifid (Local asEntry)) v) m
            (order Z (StaticInfo.InternalHops staticInfo))
      end) ∅ (ASEntries p) in
  (λ '(a, b), default 0 (hopInternalHops !! makeHopKey a b)) <$> alternate (tail (consecutive (Interfaces p))).

(** The elements without the repetitions. *)
Definition deduplicateStrings (elements : list gostring) : list gostring :=
  foldl (λ result v, if bool_decide (v ∈ result) then result else result ++ [v]) [] elements.

(** [strings.Join(s, "\n")] *)
Fixpoint join_lines (l : list gostring) : gostring :=
  match l with
  | [] => []
  | [s] => s
  | s :: l => s ++ [char_of 10] ++ join_lines l
  end.

Definition collectNotes (p : pathInfo) : list gostring :=
  let notes_of ia :=
    flat_map (λ asEntry,
      if Local asEntry =? ia then
        match static_info asEntry with
        | Some s => if bool_decide (StaticInfo.Note s = []) then [] else [StaticInfo.Note s]
        | None => []
        end
      else []) (ASEntries p) in
  let ases := IA <$> match Interfaces p with [] => [] | first :: rest => first :: alternate rest end in
  (λ ia, join_lines (deduplicateStrings (notes_of ia))) <$> ases.

(** The other end of each link of the path. *)
Fixpoint remotes (l : list PathInterface) : gmap PathInterface PathInterface :=
  match l with
  | a :: b :: l => remotes l ∪ <[b := a]> {[a := b]}
  | _ => ∅
  end.

Definition collectMetadata (interfaces : list PathInterface) (asEntries : list ASEntry) : outcome t :=
  if len interfaces =? 0 then Ok zero else
  if negb (len interfaces mod 2 =? 0) then Panic else
  let path := mkPath interfaces asEntries (remotes interfaces) in
  Ok (mk (collectLatency path) (collectBandwidth path) (collectCarbonIntensity path) (collectSbom path)
        (collectVuln path) (collectFixed path) (collectAffected path) (collectGeo path) (collectLinkType path)
        (collectInternalHops path) (collectNotes path)).
End order.

End PathMetadata.

(** * Properties *)
Module PathMetadataProperties.

Import Segment StaticInfo PathMetadata.

Lemma makeHopKey_eq a b c d :
  makeHopKey a b = makeHopKey c d ↔ (a = c ∧ b = d) ∨ (a = d ∧ b = c).
Proof.
  unfold makeHopKey. split.
  - intros H. destruct (_ || _), (_ || _); injection H as -> ->; tauto.
  - intros [[-> ->]|[-> ->]]; [done|]. destruct c as [ci ca], d as [di da]; cbn.
    destruct ((da <? ca) || _) eqn:E1; destruct ((ca <? da) || _) eqn:E2; try done; repeat f_equal; lia.
Qed.

Lemma foldl_same {A B} (f g : A → B → A) l a : (∀ a b, f a b = g a b) → foldl f a l = foldl g a l.
Proof. intros H. revert a. induction l as [|b l IH]; intros a; [done|]. cbn. by rewrite H, IH. Qed.

Section order.
Context (order : ∀ V : Type, gmap Z V → list (Z * V)).
Hypothesis order_perm : ∀ V (m : gmap Z V), order V m ≡ₚ map_to_list m.

Lemma elem_of_order {V} (m : gmap Z V) k v : (k, v) ∈ order V m ↔ m !! k = Some v.
Proof. by rewrite order_perm, elem_of_map_to_list. Qed.

(** ** What the ASes of a path announce *)

Inductive announces (intra inter : Extension → gmap Z Z) (p : pathInfo) : PathInterface → PathInterface → Z → Prop :=
| announces_intra e s ifid v :
    e ∈ ASEntries p → static_info e = Some s → intra s !! ifid = Some v →
    announces intra inter p (egress_interface e) (mkIf ifid (Local e)) v
| announces_inter e s ifid v :
    e ∈ ASEntries p → static_info e = Some s → inter s !! ifid = Some v →
    announces intra inter p (mkIf ifid (Local e)) (remote p (mkIf ifid (Local e))) v.

(** For a pair of interfaces, in either order. *)
Definition announced (intra inter : Extension → gmap Z Z) (p : pathInfo) (a b : PathInterface) (v : Z) : Prop :=
  announces intra inter p a b v ∨ announces intra inter p b a v.

(** The triples that [gather] adds, in the order in which it does. *)
Definition entry_triples (intra inter : Extension → gmap Z Z) (p : pathInfo) (e : ASEntry) :
    list (PathInterface * PathInterface * Z) :=
  match static_info e with
  | None => []
  | Some s =>
      ((λ '(ifid, v), (egress_interface e, mkIf ifid (Local e), v)) <$> order Z (intra s)) ++
      ((λ '(ifid, v), (mkIf ifid (Local e), remote p (mkIf ifid (Local e)), v)) <$> order Z (inter s))
  end.
Definition triples (intra inter : Extension → gmap Z Z) (p : pathInfo) :
    list (PathInterface * PathInterface * Z) := flat_map (entry_triples intra inter p) (ASEntries p).

Lemma elem_of_triples intra inter p a b v :
  (a, b, v) ∈ triples intra inter p ↔ announces intra inter p a b v.
Proof.
  unfold triples, entry_triples. rewrite list_elem_of_In, in_flat_map. split.
  - intros (e & He%list_elem_of_In & Hin%list_elem_of_In). destruct (static_info e) as [s|] eqn:Es; [|by apply not_elem_of_nil in Hin].
    apply elem_of_app in Hin as [Hin|Hin]; apply list_elem_of_fmap in Hin as ([ifid w] & [= -> -> ->] & Hin%elem_of_order);
      by econstructor.
  - intros [e s ifid w He Es Hv|e s ifid w He Es Hv]; exists e; (split; [by apply list_elem_of_In|]); rewrite Es;
      apply list_elem_of_In, elem_of_app; [left|right]; apply list_elem_of_fmap; exists (ifid, w);
      (split; [done|by apply elem_of_order]).
Qed.

Lemma gather_eq add intra inter p :
  gather order add intra inter p = foldl (λ m '(a, b, v), add m a b v) ∅ (triples intra inter p).
Proof.
  unfold gather, triples. generalize (∅ : gmap hopKey Z). induction (ASEntries p) as [|e l IH]; intros m; [done|].
  cbn [foldl flat_map]. rewrite foldl_app, <- IH. f_equal. unfold entry_triples.
  destruct (static_info e) as [s|]; [|done]. cbv zeta. rewrite foldl_app, !foldl_fmap. symmetry.
  rewrite (foldl_same _ (λ m '(ifid, v), add m (egress_interface e) (mkIf ifid (Local e)) v) (order Z (intra s)))
    by by intros ? []. apply foldl_same. by intros ? [].
Qed.

(** ** The most conservative value wins *)

Section conservative.
Context (skip : Z → bool) (replaces : Z → Z → bool).
Hypothesis replaces_irrefl : ∀ v, replaces v v = false.
Hypothesis replaces_trans : ∀ u v w, replaces u v = true → replaces u w = false → replaces v w = false.

Definition counts (a b : PathInterface) (v : Z) : Prop := ID a ≠ 0 ∧ ID b ≠ 0 ∧ skip v = false.

Lemma add_hop_lookup m a b v k :
  add_hop skip replaces m a b v !! k =
  if decide (counts a b v ∧ k = makeHopKey a b)
  then Some (match m !! k with None => v | Some w => if replaces w v then v else w end)
  else m !! k.
Proof.
  unfold add_hop, counts. destruct (Z.eqb_spec (ID a) 0), (Z.eqb_spec (ID b) 0); cbn;
    try (rewrite decide_False by tauto; done).
  destruct (skip v); [by rewrite decide_False by naive_solver|].
  destruct (decide (k = makeHopKey a b)) as [->|Hk].
  - rewrite decide_True by done. destruct (m !! makeHopKey a b) as [w|] eqn:E; [|by rewrite lookup_insert_eq].
    destruct (replaces w v); [by rewrite lookup_insert_eq|done].
  - rewrite decide_False by naive_solver. destruct (m !! makeHopKey a b) as [w|]; [|by rewrite lookup_insert_ne].
    destruct (replaces w v); [by rewrite lookup_insert_ne|done].
Qed.

(** [m] has the most conservative value of the triples. *)
Definition most_conservative (l : list (PathInterface * PathInterface * Z)) (m : gmap hopKey Z) : Prop :=
  (∀ a b v, (a, b, v) ∈ l → counts a b v → ∃ w, m !! makeHopKey a b = Some w ∧ replaces w v = false) ∧
  (∀ k w, m !! k = Some w → ∃ a b, (a, b, w) ∈ l ∧ counts a b w ∧ k = makeHopKey a b).

Lemma foldl_conservative l :
  most_conservative l (foldl (λ m '(a, b, v), add_hop skip replaces m a b v) ∅ l).
Proof.
  induction l as [|[[a b] v] l [IH1 IH2]] using rev_ind.
  { split; [by intros a b v ?%not_elem_of_nil|].
    intros k w Hk. cbn [foldl] in Hk. by rewrite lookup_empty in Hk. }
  rewrite foldl_snoc. set (m := foldl _ _ l) in *. split.
  - intros a' b' v' Hin Hc. rewrite add_hop_lookup. apply elem_of_app in Hin as [Hin|Hin%list_elem_of_singleton].
    + destruct (IH1 _ _ _ Hin Hc) as (w & Hw & Hr). rewrite Hw.
      destruct (decide _); [|by exists w]. eexists. split; [done|].
      destruct (replaces w v) eqn:E; [by eapply replaces_trans|done].
    + injection Hin as -> -> ->. rewrite decide_True by done. eexists. split; [done|].
      destruct (m !! _) as [w|]; [|done]. by destruct (replaces w v) eqn:E.
  - intros k w Hk. rewrite add_hop_lookup in Hk. destruct (decide _) as [[Hc ->]|].
    + injection Hk as Hk. destruct (m !! makeHopKey a b) as [w'|] eqn:Em.
      * destruct (replaces w' v); subst.
        { exists a, b. split_and!; [set_solver|done|done]. }
        destruct (IH2 _ _ Em) as (a' & b' & Hin & ? & ?). exists a', b'. split_and!; [set_solver|done|done].
      * subst. exists a, b. split_and!; [set_solver|done|done].
    + destruct (IH2 _ _ Hk) as (a' & b' & Hin & ? & ?). exists a', b'. split_and!; [set_solver|done|done].
Qed.

(** The value that is looked up for a pair of interfaces. *)
Definition conservative_value (intra inter : Extension → gmap Z Z) (p : pathInfo) (a b : PathInterface) (x : option Z) : Prop :=
  (∀ v, announced intra inter p a b v → skip v = false → ∃ w, x = Some w ∧ replaces w v = false) ∧
  (∀ w, x = Some w → announced intra inter p a b w ∧ skip w = false).

Lemma gather_conservative intra inter p a b :
  ID a ≠ 0 → ID b ≠ 0 →
  conservative_value intra inter p a b (gather order (add_hop skip replaces) intra inter p !! makeHopKey a b).
Proof.
  intros Ha Hb. rewrite gather_eq. destruct (foldl_conservative (triples intra inter p)) as [H1 H2]. split.
  - intros v [Hv|Hv] Hs; apply elem_of_triples in Hv; destruct (H1 _ _ _ Hv) as (w & Hw & Hr); try done.
    + by exists w.
    + exists w. split; [|done]. rewrite <- Hw. f_equal. apply makeHopKey_eq. by right.
  - intros w Hw. destruct (H2 _ _ Hw) as (a' & b' & Hin%elem_of_triples & (_ & _ & Hs) & Hk).
    split; [|done]. apply makeHopKey_eq in Hk as [[-> ->]|[-> ->]]; [by left|by right].
Qed.
End conservative.

Lemma look_up_lookup unset m p i a b :
  consecutive (Interfaces p) !! i = Some (a, b) → look_up unset m p !! i = Some (default unset (m !! makeHopKey a b)).
Proof. intros H. unfold look_up. by rewrite list_lookup_fmap, H. Qed.

End order.

(** [x] is the largest value that is announced for a hop, or [unset] when none is. *)
Definition largest (intra inter : Extension → gmap Z Z) (p : pathInfo) (a b : PathInterface) (unset x : Z) : Prop :=
  (∀ v, announced intra inter p a b v → v ≤ x) ∧ (announced intra inter p a b x ∨ x = unset).

Lemma conservative_largest skip intra inter p a b x unset :
  conservative_value skip (λ ex v, ex <? v) intra inter p a b x →
  (∀ v, announced intra inter p a b v → unset ≤ v ∧ (skip v = true → v = unset)) →
  largest intra inter p a b unset (default unset x).
Proof.
  intros [H1 H2] Hv. split.
  - intros v Ha. destruct (Hv v Ha) as [Hge Hs]. destruct (skip v) eqn:E.
    + rewrite (Hs eq_refl). destruct x as [w|]; cbn; [|lia]. by apply Hv, H2.
    + destruct (H1 v Ha E) as (w & -> & Hr). cbn. lia.
  - destruct x as [w|]; [left; by apply H2|by right].
Qed.


(** A path over the link of two ASes that both announce its latency, and of which
    one announces vulnerabilities of the other end of the link. *)
Definition toy_static (lat vuln : gmap Z Z) : Extension :=
  let u := mkUint64 ∅ ∅ in
  StaticInfo.mk (mkLatency ∅ lat) u u u (mkUint64 ∅ vuln) u u ∅ ∅ ∅ [].
Definition toy_entry (ia : Z) (s : Extension) : ASEntry :=
  mkASEntry None None ia 0 (mkHopEntry (mkHopField 63 0 0 []) 0) [] 1400 (Extensions.mk false (Some s) None)
    (Extensions.mkUnsigned None None).
Definition toy_interfaces : list PathInterface := [mkIf 1 101; mkIf 5 102].
Definition toy_path : pathInfo :=
  mkPath toy_interfaces
    [toy_entry 101 (toy_static {[1 := 3000]} ∅); toy_entry 102 (toy_static {[5 := 7000]} {[5 := 4]})]
    (remotes toy_interfaces).
Definition in_order (V : Type) (m : gmap Z V) : list (Z * V) := map_to_list m.

Lemma announced_non_negative (intra inter : Extension → gmap Z Z) p :
  Forall (λ e, ∀ s, static_info e = Some s → map_Forall (λ _ v, 0 ≤ v) (intra s) ∧ map_Forall (λ _ v, 0 ≤ v) (inter s))
    (ASEntries p) →
  ∀ x y v, announced intra inter p x y v → 0 ≤ v.
Proof.
  rewrite Forall_forall. intros H x y v [[e s k w He Es Hk|e s k w He Es Hk]|[e s k w He Es Hk|e s k w He Es Hk]];
    destruct (H e He s Es) as [H1 H2]; first [by apply (H1 _ _ Hk)|by apply (H2 _ _ Hk)].
Qed.


End PathMetadataProperties.
