(* ===== verification/Combinator.v ===== *)
(** The path combinator, [private/path/combinator]: the multigraph of the path
    segments and the search for paths in it ([graph.go], Module [Graph]), and
    the forwarding path with its metadata that a solution gives ([graph.go],
    [combinator.go], Module [Combinator]).  Modules [GraphProperties] and
    [CombinatorProperties]: the search finds the joins of segments, all of them;
    one path per sequence of interfaces is kept. *)
From S2P Require Export Beaconing PathMetadata ScionPath.
From stdpp Require Import sorting.
#[local] Open Scope Z_scope.

(** * The graph *)
Module Graph.

Import Segment.

(** An AS, or a peering link. *)
Record vertex := mkVertex {
  IA : Z;
  UpIA : Z;
  UpIFID : Z;
  DownIA : Z;
  DownIFID : Z
}.
#[global] Instance vertex_eq_dec : EqDecision vertex.
Proof. solve_decision. Defined.
#[global] Instance vertex_countable : Countable vertex.
Proof.
  refine (inj_countable' (λ v, (IA v, UpIA v, UpIFID v, DownIA v, DownIFID v)) (λ '(a, b, c, d, e), mkVertex a b c d e) _).
  by intros [].
Defined.

Definition vertexFromIA (ia : Z) : vertex := mkVertex ia 0 0 0 0.
Definition vertexFromPeering (upIA upIFID downIA downIFID : Z) : vertex := mkVertex 0 upIA upIFID downIA downIFID.
Definition Reverse (v : vertex) : vertex := mkVertex (IA v) (DownIA v) (DownIFID v) (UpIA v) (UpIFID v).

(** [proto.PathSegType], the three types that segments of the graph have. *)
Inductive PathSegType := PathSegType_up | PathSegType_core | PathSegType_down.
#[global] Instance PathSegType_eq_dec : EqDecision PathSegType.
Proof. solve_decision. Defined.

(** An input segment is known by its address. *)
Record inputSegment := mkInput {
  address : nat;
  Segment_ : PathSegment;
  Type_ : PathSegType
}.
Definition IsDownSeg (s : inputSegment) : bool := bool_decide (Type_ s = PathSegType_down).

Record edge := mkEdge {
  Weight : Z;
  Shortcut : Z;
  Peer : Z
}.

(** The edges from one vertex to another, by the address of their segments. *)
Abbreviation edgeMap := (gmap nat (inputSegment * edge)).
Abbreviation vertexInfo := (gmap vertex edgeMap).
Abbreviation dmg := (gmap vertex vertexInfo).

Definition ensure (v : vertex) (g : dmg) : dmg :=
  match g !! v with Some _ => g | None => <[v := ∅]> g end.
Definition AddEdge (src dst : vertex) (segment : inputSegment) (e : edge) (g : dmg) : dmg :=
  let g := ensure dst (ensure src g) in
  let neighborMap := default ∅ (g !! src) in
  <[src := <[dst := <[address segment := (segment, e)]> (default ∅ (neighborMap !! dst))]> neighborMap]> g.

Record Tuple := mkTuple {
  Src : vertex;
  Dst : vertex;
  TPeer : Z
}.

(** The links of the AS entry at [asEntryIndex] of [n]. *)
Definition peer_tuple (pinnedIA currentIA : Z) (peerEntryIdx : nat) (peer : PeerEntry) : Tuple :=
  mkTuple (vertexFromIA pinnedIA)
    (vertexFromPeering currentIA (ConsIngress (PeerHopField peer)) (Segment.Peer peer) (PeerInterface peer))
    (Z.of_nat peerEntryIdx + 1).
Definition tuples (pinnedIA n asEntryIndex : Z) (e : ASEntry) : list Tuple :=
  let currentIA := Local e in
  (if asEntryIndex =? n - 1 then [] else [mkTuple (vertexFromIA pinnedIA) (vertexFromIA currentIA) 0]) ++
  imap (peer_tuple pinnedIA currentIA) (PeerEntries e).

(** The edge of a tuple, in the direction of the segment. *)
Definition tuple_edge (ty : PathSegType) (n asEntryIndex : Z) (t : Tuple) : vertex * vertex * edge :=
  let weight := n - 1 - asEntryIndex in
  match ty with
  | PathSegType_down =>
      (Reverse (Dst t), Src t,
       mkEdge (if TPeer t =? 0 then weight else weight + 1) asEntryIndex (TPeer t))
  | _ => (Src t, Dst t, mkEdge weight asEntryIndex (TPeer t))
  end.

(** The edges of a segment, in the order in which they are added. *)
Definition segment_edges (segment : inputSegment) : outcome (list (vertex * vertex * edge)) :=
  let asEntries := ASEntries (Segment_ segment) in
  let n := len asEntries in
  last ← get asEntries (n - 1);
  match Type_ segment with
  | PathSegType_core =>
      first ← get asEntries 0;
      Ok [(vertexFromIA (Local last), vertexFromIA (Local first), mkEdge (n - 1) 0 0)]
  | ty =>
      Ok (flat_map (λ '(i, e), tuple_edge ty n (Z.of_nat i) <$> tuples (Local last) n (Z.of_nat i) e)
            (reverse (imap pair asEntries)))
  end.
Definition add_edges (segment : inputSegment) (g : dmg) (es : list (vertex * vertex * edge)) : dmg :=
  foldl (λ g '(src, dst, e), AddEdge src dst segment e g) g es.
Definition traverseSegment (g : dmg) (segment : inputSegment) : outcome dmg :=
  es ← segment_edges segment; Ok (add_edges segment g es).

Fixpoint traverse_all (g : dmg) (segments : list inputSegment) : outcome dmg :=
  match segments with
  | [] => Ok g
  | s :: segments => g ← traverseSegment g s; traverse_all g segments
  end.
(** Each input segment is a new value, with an address of its own. *)
Definition inputs (ups cores downs : list PathSegment) : list inputSegment :=
  imap (λ a '(s, ty), mkInput a s ty)
    (((λ s, (s, PathSegType_up)) <$> ups) ++ ((λ s, (s, PathSegType_core)) <$> cores) ++
     ((λ s, (s, PathSegType_down)) <$> downs)).
Definition newDMG (ups cores downs : list PathSegment) : outcome dmg := traverse_all ∅ (inputs ups cores downs).

Record solutionEdge := mkSolEdge {
  edge_ : edge;
  src : vertex;
  dst : vertex;
  segment_ : inputSegment
}.
Record pathSolution := mkSolution {
  edges : list solutionEdge;
  currentVertex : vertex;
  currentSeg : option inputSegment;
  cost : Z
}.

Definition validNextSeg (currSeg : option inputSegment) (nextSeg : inputSegment) : bool :=
  match currSeg with
  | None => true
  | Some currSeg =>
      match Type_ currSeg with
      | PathSegType_up => bool_decide (Type_ nextSeg = PathSegType_core) || bool_decide (Type_ nextSeg = PathSegType_down)
      | PathSegType_core => bool_decide (Type_ nextSeg = PathSegType_down)
      | PathSegType_down => false
      end
  end.

(** The solution with one more edge. *)
Definition extend (sol : pathSolution) (nextVertex : vertex) (segment : inputSegment) (e : edge) : pathSolution :=
  mkSolution (edges sol ++ [mkSolEdge e (currentVertex sol) nextVertex segment]) nextVertex (Some segment)
    (cost sol + Weight e).

Section order.
(** The orders in which the maps are iterated, the [n]-th time. *)
Context (order_vertices : nat → vertexInfo → list (vertex * edgeMap)).
Context (order_edges : nat → vertex → edgeMap → list (nat * (inputSegment * edge))).

Definition expand (n : nat) (g : dmg) (sol : pathSolution) : list pathSolution :=
  flat_map (λ '(nextVertex, edgeList),
      flat_map (λ '(_, (segment, e)),
          if validNextSeg (currentSeg sol) segment then [extend sol nextVertex segment e] else [])
        (order_edges n nextVertex edgeList))
    (order_vertices n (default ∅ (g !! currentVertex sol))).

Definition at_vertex (v : vertex) (sol : pathSolution) : bool := bool_decide (currentVertex sol = v).

(** The loop over the queue; [fuel] counts its iterations. *)
Fixpoint search (fuel : nat) (g : dmg) (dst : vertex) (queue solutions : list pathSolution) :
    option (list pathSolution) :=
  match queue with
  | [] => Some solutions
  | sol :: queue =>
      match fuel with
      | O => None
      | S fuel =>
          let new := expand fuel g sol in
          search fuel g dst (queue ++ filter (λ s, at_vertex dst s = false) new)
            (solutions ++ filter (λ s, at_vertex dst s = true) new)
      end
  end.

(** The number of edges. *)
Definition edge_count (g : dmg) : nat :=
  sum_list_with (λ '(_, neighbors), sum_list_with (λ '(_, es), size es) (map_to_list neighbors)) (map_to_list g).
(** A path has three segments at most. *)
Definition enough (g : dmg) : nat := let b := edge_count g in (1 + b * (1 + b * (1 + b)))%nat.

Section sort.
Context (sha256 : bytes → bytes).

(** [bytes.Compare] *)
Fixpoint Compare (a b : bytes) : Z :=
  match a, b with
  | [], [] => 0
  | [], _ => -1
  | _, [] => 1
  | x :: a, y :: b => if x <? y then -1 else if y <? x then 1 else Compare a b
  end.

(** The loop of [Less]. *)
Fixpoint less_edges (trailI trailJ : list solutionEdge) : bool :=
  match trailI, trailJ with
  | i :: trailI, j :: trailJ =>
      let idcmp := Compare (ID sha256 (Segment_ (segment_ i))) (ID sha256 (Segment_ (segment_ j))) in
      if negb (idcmp =? 0) then idcmp =? -1
      else if negb (Shortcut (edge_ i) =? Shortcut (edge_ j)) then Shortcut (edge_ i) <? Shortcut (edge_ j)
      else if negb (Peer (edge_ i) =? Peer (edge_ j)) then Peer (edge_ i) <? Peer (edge_ j)
      else less_edges trailI trailJ
  | _, _ => false
  end.
Definition Less (a b : pathSolution) : bool :=
  if negb (cost a =? cost b) then cost a <? cost b
  else if negb (len (edges a) =? len (edges b)) then len (edges a) <? len (edges b)
  else less_edges (edges a) (edges b).

(** [sort.Sort] with the given [Less]. *)
Context (sort_Sort : (pathSolution → pathSolution → bool) → list pathSolution → list pathSolution).

Definition GetPaths (g : dmg) (src dst : vertex) : option (list pathSolution) :=
  sort_Sort Less <$> search (enough g) g dst [mkSolution [] src None 0] [].
End sort.
End order.

End Graph.

(** * Paths *)
Module Combinator.

Import Segment Graph.

Definition maxTimestamp : Z := 2 ^ 32 - 1.
Definition maxExpirationTime : Z := maxTimestamp * Second + HopField.ExpTimeToDuration 255.

(** The part of [snet.PathMetadata] that does not come from [collectMetadata], and
    what does.  The FABRID policies are left out. *)
Record Metadata := mkMetadata {
  Interfaces : list PathMetadata.PathInterface;
  MTU : Z;
  Expiry : Z;
  StaticInfo : PathMetadata.t;
  PQsecure : bool;
  EpicAuths : option (bytes * bytes)
}.
Record Path := mkPath {
  Dst : Z;
  SCIONPath : bytes;
  Metadata_ : Metadata;
  Weight : Z
}.

(** A segment of the path, in forwarding order. *)
Record segment := mkSegment {
  InfoField_ : InfoField.t;
  HopFields : list HopField.t;
  SegInterfaces : list PathMetadata.PathInterface;
  SegASEntries : list ASEntry
}.

Definition minUint16 (x y : Z) : Z := if x <? y then x else y.

(** A new slice of 16 bytes: the MAC of the hop entry and the authenticator. *)
Definition auth_of (mac authenticator : bytes) : bytes := copy (make_bytes 6) mac ++ copy (make_bytes 10) authenticator.
Definition getAuth (a : ASEntry) : option bytes :=
  (λ d, auth_of (Segment.MAC (HopField_ (HopEntry_ a))) (EpicDetached.AuthHopEntry d)) <$>
  Extensions.Epic (UnsignedExtensions a).
Definition getAuthPeer (a : ASEntry) (i : Z) : outcome (option bytes) :=
  match Extensions.Epic (UnsignedExtensions a) with
  | None => Ok None
  | Some d =>
      authenticator ← get (EpicDetached.AuthPeerEntries d) i;
      Ok (Some (auth_of (Segment.MAC (HopField_ (HopEntry_ a))) authenticator))
  end.

Definition isEpicAvailable (epicPathAuths : list (option bytes)) : option (bytes * bytes) :=
  match reverse epicPathAuths with
  | Some authLHVF :: Some authPHVF :: _ => Some (authPHVF, authLHVF)
  | _ => None
  end.

Definition calculateBeta (se : solutionEdge) : Z :=
  let asEntries := ASEntries (Segment_ (segment_ se)) in
  let shortcut := Shortcut (edge_ se) in
  let index :=
    if IsDownSeg (segment_ se) then (if Peer (edge_ se) =? 0 then shortcut else shortcut + 1)
    else let index := len asEntries - 1 in
         if (index =? shortcut) && negb (Peer (edge_ se) =? 0) then index + 1 else index in
  foldl (λ beta e, Z.lxor beta (Beaconing.sigma (Segment.MAC (HopField_ (HopEntry_ e)))))
    (SegmentID (Info_ (Segment_ (segment_ se)))) (take (Z.to_nat index) asEntries).

(** The hop field of a hop or peer entry. *)
Definition hop_field (h : Segment.HopField) : HopField.t :=
  HopField.mk false false (ExpTime h) (ConsIngress h) (ConsEgress h) (Segment.MAC h).

(** What the loop of [Path] takes from an AS entry. *)
Record entry_part := mkPart {
  part_hop : HopField.t;
  part_intfs : list PathMetadata.PathInterface;
  part_entry : ASEntry;
  part_auth : option bytes;
  part_mtus : list Z
}.
Definition entry_step (e : edge) (asEntryIdx : Z) (asEntry : ASEntry) : outcome entry_part :=
  let isShortcut := (asEntryIdx =? Shortcut e) && negb (Shortcut e =? 0) in
  let isPeer := (asEntryIdx =? Shortcut e) && negb (Peer e =? 0) in
  '(hop, forwardingLinkMtu, epicAuth) ←
    (if negb isPeer then
       let entry := HopEntry_ asEntry in
       Ok (hop_field (HopField_ entry), IngressMTU entry, getAuth asEntry)
     else
       peer ← get (PeerEntries asEntry) (Peer e - 1);
       epicAuth ← getAuthPeer asEntry (Peer e - 1);
       Ok (hop_field (PeerHopField peer), PeerMTU peer, epicAuth));
  let intf id := PathMetadata.mkIf id (Local asEntry) in
  let intfs :=
    (if HopField.ConsEgress hop =? 0 then [] else [intf (HopField.ConsEgress hop)]) ++
    (if negb (HopField.ConsIngress hop =? 0) && (negb isShortcut || isPeer)
     then [intf (HopField.ConsIngress hop)] else []) in
  let mtus := u16 (Segment.MTU asEntry) ::
    (if forwardingLinkMtu =? 0 then [] else [u16 forwardingLinkMtu]) in
  Ok (mkPart hop intfs asEntry epicAuth mtus).

(** The AS entries of a solution edge with their indices, from the last one. *)
Definition path_entries (se : solutionEdge) : list (nat * ASEntry) :=
  reverse (drop (Z.to_nat (Shortcut (edge_ se))) (imap pair (ASEntries (Segment_ (segment_ se))))).
Fixpoint entry_parts (e : edge) (l : list (nat * ASEntry)) : outcome (list entry_part) :=
  match l with
  | [] => Ok []
  | (i, a) :: l => p ← entry_step e (Z.of_nat i) a; ps ← entry_parts e l; Ok (p :: ps)
  end.

(** The segment of a solution edge, with the EPIC authenticators of its hops and
    the MTUs. *)
Definition edge_segment (se : solutionEdge) : outcome (segment * list (option bytes) * list Z) :=
  parts ← entry_parts (edge_ se) (path_entries se);
  let order {A} (l : list A) : list A := if IsDownSeg (segment_ se) then reverse l else l in
  let info := InfoField.mk (negb (Peer (edge_ se) =? 0)) (IsDownSeg (segment_ se)) (calculateBeta se)
                (Beaconing.TimeToSecs (Timestamp (Info_ (Segment_ (segment_ se))))) in
  Ok (mkSegment info (order (part_hop <$> parts)) (order (mjoin (part_intfs <$> parts))) (order (part_entry <$> parts)),
      order (part_auth <$> parts), mjoin (part_mtus <$> parts)).
Fixpoint edge_segments (l : list solutionEdge) : outcome (list (segment * list (option bytes) * list Z)) :=
  match l with
  | [] => Ok []
  | se :: l => s ← edge_segment se; ss ← edge_segments l; Ok (s :: ss)
  end.

Definition computeHopFieldsTTL (s : segment) : Z :=
  foldl (λ minTTL hf, let offset := HopField.ExpTimeToDuration (HopField.ExpTime hf) in
                      if offset <? minTTL then offset else minTTL) HopField.MaxTTL (HopFields s).
Definition ComputeExpTime (s : segment) : Z :=
  InfoField.Timestamp (InfoField_ s) * Second + computeHopFieldsTTL s.
Definition ComputeExpTime_list (l : list segment) : Z :=
  foldl (λ minTimestamp s, let expTime := ComputeExpTime s in
                           if expTime <? minTimestamp then expTime else minTimestamp) maxExpirationTime l.

(** [meta.SegLen[i] = v] on an array of three. *)
Definition set_SegLen (m : MetaHdr.t) (i v : Z) : outcome MetaHdr.t :=
  if i =? 0 then Ok (MetaHdr.mk (MetaHdr.CurrINF m) (MetaHdr.CurrHF m) v (MetaHdr.SegLen1 m) (MetaHdr.SegLen2 m))
  else if i =? 1 then Ok (MetaHdr.mk (MetaHdr.CurrINF m) (MetaHdr.CurrHF m) (MetaHdr.SegLen0 m) v (MetaHdr.SegLen2 m))
  else if i =? 2 then Ok (MetaHdr.mk (MetaHdr.CurrINF m) (MetaHdr.CurrHF m) (MetaHdr.SegLen0 m) (MetaHdr.SegLen1 m) v)
  else Panic.
Fixpoint set_SegLens (m : MetaHdr.t) (i : Z) (l : list segment) : outcome MetaHdr.t :=
  match l with
  | [] => Ok m
  | s :: l => m ← set_SegLen m i (u8 (len (HopFields s))); set_SegLens m (i + 1) l
  end.

(** An error of the serialization is a panic. *)
Definition must {A} (o : outcome A) : outcome A := match o with Err _ => Panic | o => o end.

Definition decoded_path (l : list segment) : outcome Decoded.t :=
  meta ← set_SegLens (MetaHdr.mk 0 0 0 0 0) 0 l;
  let hops := mjoin (HopFields <$> l) in
  Ok (Decoded.mk (Base.mk meta (len l) (len hops)) (InfoField_ <$> l) hops).
Definition ScionPath (l : list segment) : outcome bytes :=
  sp ← decoded_path l; must (Decoded.SerializeTo sp (make_bytes (Decoded.Len sp))).

(** Whether the entry has a signature of the post-quantum algorithm. *)
Definition has_pq_signature `{Crypto} (e : ASEntry) : bool :=
  match Pqsigned e with
  | None => false
  | Some m =>
      match unmarshal_header_and_body (CryptoPB.HeaderAndBody m) with
      | Ok hdrandbody =>
          match unmarshal_header (CryptoPB.Header_ hdrandbody) with
          | Ok header => CryptoPB.SignatureAlgorithm header =? CryptoPB.ALGORITHM_MLDSA44
          | _ => false
          end
      | _ => false
      end
  end.

Section path.
Context `{Crypto} (order : ∀ V : Type, gmap Z V → list (Z * V)).

Definition solution_Path (solution : pathSolution) : outcome Path :=
  l ← edge_segments (edges solution);
  let segments := (λ x, x.1.1) <$> l in
  let epicPathAuths := mjoin ((λ x, x.1.2) <$> l) in
  let mtu := foldl minUint16 65535 (mjoin ((λ x, x.2) <$> l)) in
  let interfaces := mjoin (SegInterfaces <$> segments) in
  let asEntries := mjoin (SegASEntries <$> segments) in
  staticInfo ← PathMetadata.collectMetadata order interfaces asEntries;
  let isPQsecure := forallb has_pq_signature asEntries in
  scionPath ← ScionPath segments;
  Ok (mkPath 0 scionPath
        (mkMetadata interfaces mtu (ComputeExpTime_list segments) staticInfo isPQsecure (isEpicAvailable epicPathAuths))
        (cost solution)).

Fixpoint all_paths (solutions : list pathSolution) : outcome (list Path) :=
  match solutions with
  | [] => Ok []
  | s :: solutions => p ← solution_Path s; ps ← all_paths solutions; Ok (p :: ps)
  end.

(** ** combinator.go *)

(** Whether some AS occurs more than twice: the loop with its counters. *)
Fixpoint long_from (iaCounts : gmap Z Z) (l : list PathMetadata.PathInterface) : bool :=
  match l with
  | [] => false
  | iface :: l =>
      let n := default 0 (iaCounts !! PathMetadata.IA iface) + 1 in
      if 2 <? n then true else long_from (<[PathMetadata.IA iface := n]> iaCounts) l
  end.
Definition filterLongPaths (paths : list Path) : list Path :=
  filter (λ p, long_from ∅ (Interfaces (Metadata_ p)) = false) paths.

Section sha.
Context (sha256 : bytes → bytes).
Context (order_keys : gmap bytes nat → list (bytes * nat)).

Definition fingerprint (interfaces : list PathMetadata.PathInterface) : bytes :=
  sha256 (flat_map (λ i, be_bytes 8 (PathMetadata.IA i) ++ be_bytes 8 (PathMetadata.ID i)) interfaces).

Definition After (t u : Z) : bool := u <? t.

(** The loop that finds the path with the latest expiry for each fingerprint. *)
Definition unique_step (paths : list Path) (uniquePaths : gmap bytes nat) (ip : nat * Path) : gmap bytes nat :=
  let '(i, p) := ip in
  let key := fingerprint (Interfaces (Metadata_ p)) in
  match uniquePaths !! key with
  | None => <[key := i]> uniquePaths
  | Some prev =>
      match paths !! prev with
      | Some q => if After (Expiry (Metadata_ p)) (Expiry (Metadata_ q)) then <[key := i]> uniquePaths else uniquePaths
      | None => uniquePaths
      end
  end.
Definition unique_paths (paths : list Path) : gmap bytes nat := foldl (unique_step paths) ∅ (imap pair paths).
Definition filterDuplicates (paths : list Path) : list Path :=
  let toKeep := merge_sort (≤)%nat (order_keys (unique_paths paths)).*2 in
  omap (λ i, paths !! i) toKeep.

Context (order_vertices : nat → vertexInfo → list (vertex * edgeMap)).
Context (order_edges : nat → vertex → edgeMap → list (nat * (inputSegment * edge))).
Context (sort_Sort : (pathSolution → pathSolution → bool) → list pathSolution → list pathSolution).

Definition Combine (src dst : Z) (ups cores downs : list PathSegment) (findAllIdentical : bool) : outcome (list Path) :=
  g ← newDMG ups cores downs;
  match GetPaths order_vertices order_edges sha256 sort_Sort g (vertexFromIA src) (vertexFromIA dst) with
  | None => Panic
  | Some solutions =>
      paths ← all_paths solutions;
      let paths := filterLongPaths paths in
      Ok (if findAllIdentical then paths else filterDuplicates paths)
  end.
End sha.
End path.

End Combinator.

(** * Properties *)
Module GraphProperties.

Import Segment Graph.

Lemma get_last {A} (l : list A) : l ≠ [] → ∃ x, get l (len l - 1) = Ok x ∧ last l = Some x.
Proof.
  intros Hl. destruct (last l) as [x|] eqn:E; [|by apply last_None in E]. exists x. split; [|done].
  rewrite last_lookup in E. assert (length l ≠ 0%nat) by (by destruct l). apply get_Ok; [unfold len; lia|].
  by replace (Z.to_nat (len l - 1)) with (pred (length l)) by (unfold len; lia).
Qed.
Lemma get_first {A} (l : list A) : l ≠ [] → ∃ x, get l 0 = Ok x ∧ head l = Some x.
Proof. destruct l as [|x l]; [done|]. intros _. by exists x. Qed.

(** ** The edges of the graph *)

Definition lookup_edge (g : dmg) (v w : vertex) (a : nat) : option (inputSegment * edge) :=
  neighbors ← g !! v; es ← neighbors !! w; es !! a.
Definition edge_in (g : dmg) (v w : vertex) (s : inputSegment) (e : edge) : Prop :=
  ∃ a, lookup_edge g v w a = Some (s, e).

(** Of the edges from [v] to [w] that a segment has, the one that was added last
    is left. *)
Definition between (v w : vertex) (es : list (vertex * vertex * edge)) : list edge :=
  omap (λ '(v', w', e), if decide (v' = v ∧ w' = w) then Some e else None) es.
Definition link (s : inputSegment) (v w : vertex) (e : edge) : Prop :=
  ∃ es, segment_edges s = Ok es ∧ last (between v w es) = Some e.

Lemma lookup_ensure u g v w a : lookup_edge (ensure u g) v w a = lookup_edge g v w a.
Proof.
  unfold ensure, lookup_edge. destruct (g !! u) eqn:E; [done|].
  destruct (decide (u = v)) as [->|]; [by rewrite lookup_insert_eq, E|by rewrite lookup_insert_ne].
Qed.

Lemma lookup_AddEdge src dst s e g v w a :
  lookup_edge (AddEdge src dst s e g) v w a =
  if decide (v = src ∧ w = dst ∧ a = address s) then Some (s, e) else lookup_edge g v w a.
Proof.
  unfold AddEdge. rewrite <- (lookup_ensure src g), <- (lookup_ensure dst (ensure src g)).
  generalize (ensure dst (ensure src g)). clear g. intros g. unfold lookup_edge.
  destruct (decide (v = src)) as [->|Hv].
  2:{ rewrite lookup_insert_ne by done. by rewrite decide_False by naive_solver. }
  rewrite lookup_insert_eq. cbn. destruct (decide (w = dst)) as [->|Hw].
  2:{ rewrite lookup_insert_ne by done. rewrite decide_False by naive_solver.
      destruct (g !! src); [done|]. cbn. by rewrite lookup_empty. }
  rewrite lookup_insert_eq. cbn. destruct (decide (a = address s)) as [->|Ha].
  - by rewrite lookup_insert_eq, decide_True.
  - rewrite lookup_insert_ne by done. rewrite decide_False by naive_solver.
    destruct (g !! src) as [nb|]; cbn; [|by rewrite !lookup_empty].
    destruct (nb !! dst); cbn; [done|by rewrite lookup_empty].
Qed.

Lemma between_snoc v w es v' w' e :
  between v w (es ++ [(v', w', e)]) = between v w es ++ (if decide (v' = v ∧ w' = w) then [e] else []).
Proof. unfold between. rewrite omap_app. f_equal. cbn. by destruct (decide _). Qed.

Lemma lookup_add_edges s g es v w a :
  lookup_edge (add_edges s g es) v w a =
  match last (between v w es) with
  | Some e => if decide (a = address s) then Some (s, e) else lookup_edge g v w a
  | None => lookup_edge g v w a
  end.
Proof.
  unfold add_edges. induction es as [|[[v' w'] e] es IH] using rev_ind; [done|].
  rewrite foldl_snoc, lookup_AddEdge, IH, between_snoc. destruct (decide (v' = v ∧ w' = w)) as [[-> ->]|Hn].
  - rewrite last_snoc. destruct (decide (a = address s)) as [->|Ha]; [by rewrite decide_True|].
    rewrite decide_False by naive_solver. by destruct (last _).
  - rewrite app_nil_r. by rewrite decide_False by naive_solver.
Qed.

(** What the traversal adds to the graph: the links of the segments. *)
Lemma traverse_all_spec segments g :
  Forall (λ s, ASEntries (Segment_ s) ≠ []) segments → NoDup (address <$> segments) →
  (∀ v w a x, lookup_edge g v w a = Some x → a ∉ address <$> segments) →
  ∃ g', traverse_all g segments = Ok g' ∧
    ∀ v w a s e, lookup_edge g' v w a = Some (s, e) ↔
      lookup_edge g v w a = Some (s, e) ∨ (s ∈ segments ∧ a = address s ∧ link s v w e).
Proof.
  revert g. induction segments as [|s l IH]; intros g Hne Hnd Hg.
  { exists g. split; [done|]. intros v w a s e. split; [by left|]. intros [H|(H%not_elem_of_nil & _)]; done. }
  apply Forall_cons in Hne as [Hs Hne]. cbn [fmap list_fmap] in Hnd. apply NoDup_cons in Hnd as [Hni Hnd].
  assert (∃ es, segment_edges s = Ok es) as [es Hes].
  { unfold segment_edges. destruct (get_last _ Hs) as (x & -> & _), (get_first _ Hs) as (y & Hy & _). go_cbn.
    destruct (Type_ s); rewrite ?Hy; eauto. }
  destruct (IH (add_edges s g es)) as (g' & Hg' & Hl); [done|done| |].
  { intros v w a x. rewrite lookup_add_edges. destruct (last (between v w es)).
    - destruct (decide (a = address s)) as [->|]; [done|]. intros H. apply Hg in H. set_solver.
    - intros H. apply Hg in H. set_solver. }
  exists g'. split; [unfold traverse_all, traverseSegment; fold traverse_all; by rewrite Hes|].
  intros v w a s' e. rewrite Hl, lookup_add_edges, elem_of_cons.
  assert (link s v w e ↔ last (between v w es) = Some e) as Hlink.
  { unfold link. rewrite Hes. split; [intros (? & [= <-] & ?); done|eauto]. }
  assert (∀ x, lookup_edge g v w (address s) ≠ Some x) as Hns by (intros x Hx; apply Hg in Hx; set_solver).
  destruct (last (between v w es)) as [e'|] eqn:Elast.
  - destruct (decide (a = address s)) as [->|Ha]; naive_solver.
  - naive_solver.
Qed.

Lemma inputs_addresses ups cores downs :
  address <$> inputs ups cores downs = seq 0 (length (inputs ups cores downs)).
Proof.
  unfold inputs. rewrite length_imap. generalize (((λ s, (s, PathSegType_up)) <$> ups) ++
    ((λ s, (s, PathSegType_core)) <$> cores) ++ ((λ s, (s, PathSegType_down)) <$> downs)). intros l.
  rewrite fmap_imap. transitivity (imap (λ i _, i) l).
  - apply imap_ext. by intros i [] _.
  - change 0%nat with (0 + 0)%nat at 1.
    enough (∀ k, imap (λ i _, (k + i)%nat) l = seq k (length l)) as H by (specialize (H 0%nat); cbn in H; exact H).
    induction l as [|x l IH]; intros k; [done|]. cbn. f_equal; [lia|]. rewrite <- IH.
    apply imap_ext. intros i ? _. cbn. lia.
Qed.

Lemma newDMG_spec ups cores downs :
  Forall (λ s, ASEntries s ≠ []) (ups ++ cores ++ downs) →
  ∃ g, newDMG ups cores downs = Ok g ∧
    (∀ v w s e, edge_in g v w s e ↔ s ∈ inputs ups cores downs ∧ link s v w e) ∧
    ∀ v w a s e, lookup_edge g v w a = Some (s, e) → a = address s.
Proof.
  intros Hne. destruct (traverse_all_spec (inputs ups cores downs) ∅) as (g & Hg & Hl).
  - apply Forall_forall. intros s Hs. unfold inputs in Hs. apply elem_of_lookup_imap in Hs as (i & [x ty] & -> & Hi).
    cbn. apply list_elem_of_lookup_2 in Hi. rewrite Forall_forall in Hne. apply Hne. set_solver.
  - rewrite inputs_addresses. apply NoDup_seq.
  - intros v w a x. unfold lookup_edge. by rewrite lookup_empty.
  - exists g. split; [done|]. split.
    2:{ intros v w a s e [H|(_ & -> & _)]%Hl; [|done]. unfold lookup_edge in H. by rewrite lookup_empty in H. }
    intros v w s e. unfold edge_in. split.
    + intros [a [H|(? & _ & ?)]%Hl]; [|done]. unfold lookup_edge in H. by rewrite lookup_empty in H.
    + intros [? ?]. exists (address s). apply Hl. naive_solver.
Qed.

(** ** The search *)

Section search.
Context (order_vertices : nat → vertexInfo → list (vertex * edgeMap)).
Context (order_edges : nat → vertex → edgeMap → list (nat * (inputSegment * edge))).
Hypothesis vertices_perm : ∀ n m, order_vertices n m ≡ₚ map_to_list m.
Hypothesis edges_perm : ∀ n v m, order_edges n v m ≡ₚ map_to_list m.
Context (g : dmg) (dst : vertex).

Let expand := expand order_vertices order_edges.
Let search := search order_vertices order_edges.

Lemma elem_of_expand n sol x :
  x ∈ expand n g sol ↔
  ∃ w s e, edge_in g (currentVertex sol) w s e ∧ validNextSeg (currentSeg sol) s = true ∧ x = extend sol w s e.
Proof using vertices_perm edges_perm.
  unfold expand, Graph.expand. rewrite list_elem_of_In, in_flat_map. split.
  - intros ([w es] & Hin%list_elem_of_In & Hx). apply in_flat_map in Hx as ([a [s e]] & He%list_elem_of_In & Hx).
    rewrite vertices_perm in Hin. rewrite edges_perm in He. apply elem_of_map_to_list in Hin, He.
    destruct (validNextSeg (currentSeg sol) s) eqn:Ev; [|done]. destruct Hx as [<-|[]].
    exists w, s, e. split; [|done]. exists a. unfold lookup_edge.
    destruct (g !! currentVertex sol); cbn in *; [|by rewrite lookup_empty in Hin]. by rewrite Hin.
  - intros (w & s & e & [a H] & Hv & ->). unfold lookup_edge in H.
    apply bind_Some in H as (nb & Hnb & H). apply bind_Some in H as (es & Hes & H).
    exists (w, es). rewrite Hnb. cbn. split.
    + apply list_elem_of_In. rewrite vertices_perm. by apply elem_of_map_to_list.
    + apply in_flat_map. exists (a, (s, e)). split.
      * apply list_elem_of_In. rewrite edges_perm. by apply elem_of_map_to_list.
      * rewrite Hv. by left.
Qed.

Lemma length_flat_map_le {A B} (f : A → list B) (h : A → nat) l :
  (∀ x, (length (f x) ≤ h x)%nat) → (length (flat_map f l) ≤ sum_list_with h l)%nat.
Proof. intros H. induction l as [|x l IH]; [done|]. cbn. rewrite length_app. specialize (H x). lia. Qed.

Lemma length_expand n sol : (length (expand n g sol) ≤ edge_count g)%nat.
Proof using vertices_perm edges_perm.
  transitivity (sum_list_with (λ '(_, es), size es) (map_to_list (default ∅ (g !! currentVertex sol)))).
  - rewrite <- (vertices_perm n). unfold expand, Graph.expand. apply length_flat_map_le. intros [w es].
    transitivity (sum_list_with (λ _, 1%nat) (order_edges n w es)).
    + apply (length_flat_map_le _ (λ _, 1%nat)). intros [a [s e]]. destruct (validNextSeg _ _); cbn; lia.
    + rewrite (edges_perm n w es), <- length_map_to_list. generalize (map_to_list es).
      intros l. induction l; cbn; lia.
  - unfold edge_count. destruct (g !! currentVertex sol) as [nb|] eqn:E;
      [|change (default ∅ None) with (∅ : vertexInfo); rewrite map_to_list_empty; cbn; lia].
    apply elem_of_map_to_list in E.
    apply (sum_list_with_in _ (λ '(_, neighbors), sum_list_with (λ '(_, es), size es) (map_to_list neighbors))) in E.
    exact E.
Qed.

(** How many segments may still follow, and how many iterations a solution in the
    queue stands for at most. *)
Definition rank (cur : option inputSegment) : nat :=
  match cur with
  | None => 3
  | Some s => match Type_ s with PathSegType_up => 2 | PathSegType_core => 1 | PathSegType_down => 0 end
  end.
Fixpoint iterations (r : nat) : nat := match r with O => 1 | S r => 1 + edge_count g * iterations r end.

Lemma validNextSeg_rank cur s : validNextSeg cur s = true → (rank (Some s) < rank cur)%nat.
Proof. unfold validNextSeg, rank. destruct cur as [c|]; [destruct (Type_ c)|]; destruct (Type_ s); cbn; try done; lia. Qed.

Lemma iterations_mono r r' : (r ≤ r')%nat → (iterations r ≤ iterations r')%nat.
Proof.
  intros H. induction H as [|r' _ IH]; [done|]. etransitivity; [exact IH|]. clear. induction r' as [|r' IH]; cbn; [lia|].
  cbn in IH. nia.
Qed.

Definition pending (queue : list pathSolution) : nat := sum_list_with (λ s, iterations (rank (currentSeg s))) queue.

Lemma pending_app q q' : pending (q ++ q') = (pending q + pending q')%nat.
Proof. apply sum_list_with_app. Qed.

Lemma pending_bound l k : Forall (λ s, (iterations (rank (currentSeg s)) ≤ k)%nat) l → (pending l ≤ length l * k)%nat.
Proof. unfold pending. induction 1; cbn [sum_list_with length Nat.mul]; lia. Qed.

Lemma pending_expand n sol (f : pathSolution → Prop) `{∀ x, Decision (f x)} :
  (pending (filter f (expand n g sol)) < iterations (rank (currentSeg sol)))%nat.
Proof using vertices_perm edges_perm.
  assert (Forall (λ x, (rank (currentSeg x) < rank (currentSeg sol))%nat) (expand n g sol)) as Hf.
  { apply Forall_forall. intros x (w & s & e & _ & Hv & ->)%elem_of_expand. by apply validNextSeg_rank. }
  destruct (rank (currentSeg sol)) as [|r].
  { destruct (expand n g sol) as [|x l]; [cbn; lia|]. apply Forall_cons in Hf as [Hf _]. lia. }
  cbn [iterations].
  assert (pending (filter f (expand n g sol)) ≤ length (filter f (expand n g sol)) * iterations r)%nat as Hp.
  { apply pending_bound, Forall_forall. intros x [_ Hx]%list_elem_of_filter. rewrite Forall_forall in Hf.
    apply iterations_mono. specialize (Hf x Hx). lia. }
  pose proof (length_filter f (expand n g sol)). pose proof (length_expand n sol). nia.
Qed.

(** [finishes q x]: the search comes from [q] to the solution [x]. *)
Inductive finishes (q : pathSolution) : pathSolution → Prop :=
| finishes_here s e :
    edge_in g (currentVertex q) dst s e → validNextSeg (currentSeg q) s = true → finishes q (extend q dst s e)
| finishes_later w s e x :
    edge_in g (currentVertex q) w s e → validNextSeg (currentSeg q) s = true → w ≠ dst →
    finishes (extend q w s e) x → finishes q x.

Lemma search_spec fuel queue solutions :
  (pending queue ≤ fuel)%nat →
  ∃ res, search fuel g dst queue solutions = Some res ∧
    ∀ x, x ∈ res ↔ x ∈ solutions ∨ ∃ q, q ∈ queue ∧ finishes q x.
Proof using vertices_perm edges_perm.
  revert queue solutions. induction fuel as [|fuel IH]; intros queue solutions Hp.
  - destruct queue as [|q queue].
    + exists solutions. split; [done|]. set_solver.
    + exfalso. cbn in Hp. destruct (rank (currentSeg q)); cbn in Hp; lia.
  - destruct queue as [|q queue]; [exists solutions; split; [done|]; set_solver|].
    unfold search. cbn [Graph.search]. fold search. fold (expand fuel g q).
    edestruct IH as (res & Hres & Hx); [|exists res; split; [exact Hres|]].
    { rewrite pending_app. pose proof (pending_expand fuel q (λ s, at_vertex dst s = false)).
      change (pending (q :: queue)) with (iterations (rank (currentSeg q)) + pending queue)%nat in Hp. lia. }
    intros x. rewrite Hx. setoid_rewrite elem_of_app. setoid_rewrite list_elem_of_filter.
    setoid_rewrite elem_of_expand. setoid_rewrite elem_of_cons. unfold at_vertex.
    split.
    + intros [[Hs|(Hd & w & s & e & He & Hv & ->)]|(q' & [Hq|(Hd & w & s & e & He & Hv & ->)] & Hf)].
      * by left.
      * right. exists q. split; [by left|]. apply bool_decide_eq_true in Hd. cbn in Hd. subst w. by apply finishes_here.
      * right. exists q'. split; [by right|done].
      * right. exists q. split; [by left|]. apply bool_decide_eq_false in Hd. cbn in Hd. by eapply finishes_later.
    + intros [Hs|(q' & [->|Hq] & Hf)].
      * by left; left.
      * destruct Hf as [s e He Hv|w s e x He Hv Hw Hf].
        { left. right. split; [by apply bool_decide_eq_true|]. by eexists _, _, _. }
        { right. eexists. split; [|exact Hf]. right. split; [by apply bool_decide_eq_false|]. by eexists _, _, _. }
      * right. exists q'. split; [by left|done].
Qed.

(** *** Every solution is found once *)

Lemma extend_prefix sol w s e w' s' e' :
  edges (extend sol w s e) `prefix_of` edges (extend sol w' s' e') → extend sol w s e = extend sol w' s' e'.
Proof.
  cbn. intros H%prefix_app_inv. destruct H as [k H]. by injection H as -> -> -> _.
Qed.

Lemma extend_inj sol w s e w' s' e' : extend sol w s e = extend sol w' s' e' → w = w' ∧ s = s' ∧ e = e'.
Proof. intros [= H%app_inj_tail -> -> _]. destruct H as [_ H]. by injection H as ->. Qed.

Lemma NoDup_expand n sol :
  (∀ v w a s e, lookup_edge g v w a = Some (s, e) → a = address s) → NoDup (expand n g sol).
Proof using vertices_perm edges_perm.
  intros Ha. assert (∀ {A B} (f : A → list B) l, flat_map f l = l ≫= f) as Hb
    by (intros A B f l; induction l as [|x l IH]; [done|]; cbn; by rewrite IH).
  unfold expand, Graph.expand. rewrite Hb. apply NoDup_bind.
  - intros [w es] [w' es'] x. rewrite vertices_perm. intros Hw%elem_of_map_to_list Hw'%elem_of_map_to_list.
    rewrite !list_elem_of_In, !in_flat_map. intros ([a [s e]] & _ & Hx) ([a' [s' e']] & _ & Hx').
    destruct (validNextSeg _ s); [|done]. destruct (validNextSeg _ s'); [|done].
    destruct Hx as [<-|[]]. destruct Hx' as [Hx'|[]].
    apply extend_inj in Hx' as (-> & _ & _). congruence.
  - intros [w es]. rewrite vertices_perm. intros Hw%elem_of_map_to_list. rewrite Hb. apply NoDup_bind.
    + intros [a [s e]] [a' [s' e']] x. rewrite edges_perm.
      intros He%elem_of_map_to_list He'%elem_of_map_to_list Hx Hx'.
      assert (∀ a s e, es !! a = Some (s, e) → a = address s) as Hs.
      { intros b t f Hf. apply (Ha (currentVertex sol) w b t f). unfold lookup_edge.
        destruct (g !! currentVertex sol); cbn in *; [by rewrite Hw|by rewrite lookup_empty in Hw]. }
      destruct (validNextSeg _ s); [|by apply not_elem_of_nil in Hx].
      destruct (validNextSeg _ s'); [|by apply not_elem_of_nil in Hx'].
      apply list_elem_of_singleton in Hx, Hx'. subst x.
      apply extend_inj in Hx' as (_ & <- & <-). by rewrite (Hs _ _ _ He), (Hs _ _ _ He').
    + intros [a [s e]] _. destruct (validNextSeg _ _); [apply NoDup_singleton|apply NoDup_nil_2].
    + rewrite edges_perm. apply NoDup_map_to_list.
  - rewrite vertices_perm. apply NoDup_map_to_list.
Qed.

(** No solution in the queue is the beginning of another one, or of a result. *)
Record apart (queue solutions : list pathSolution) : Prop := {
  ap_nodup : NoDup (queue ++ solutions);
  ap_prefix q x : q ∈ queue → x ∈ queue ++ solutions → edges q `prefix_of` edges x → x = q
}.

Lemma apart_step n q queue solutions :
  (∀ v w a s e, lookup_edge g v w a = Some (s, e) → a = address s) →
  apart (q :: queue) solutions → 
  apart (queue ++ filter (λ s, at_vertex dst s = false) (expand n g q))
        (solutions ++ filter (λ s, at_vertex dst s = true) (expand n g q)).
Proof using vertices_perm edges_perm.
  intros Haddr [Hnd Hpre]. cbn [app] in Hnd. apply NoDup_cons in Hnd as [Hq Hnd].
  set (new := expand n g q).
  assert (∀ x, x ∈ new → ∃ w s e, x = extend q w s e) as Hnew.
  { intros x (w & s & e & _ & _ & ->)%elem_of_expand. by eexists _, _, _. }
  assert (∀ x, x ∈ new → x ∉ queue ++ solutions) as Hfresh.
  { intros x (w & s & e & ->)%Hnew Hin. assert (extend q w s e = q) as E.
    - apply Hpre; [apply list_elem_of_here|by right|]. cbn. by apply prefix_app_r.
    - rewrite E in Hin. done. }
  assert (queue ++ filter (λ s, at_vertex dst s = false) new ++ solutions ++ filter (λ s, at_vertex dst s = true) new ≡ₚ
          (queue ++ solutions) ++ new) as Hperm.
  { rewrite <- app_assoc. f_equiv. rewrite (Permutation_app_comm _ (solutions ++ _)), <- app_assoc. f_equiv.
    clear. induction new as [|x l IH]; [done|].
    rewrite !(filter_cons (λ s, at_vertex dst s = _)). destruct (at_vertex dst x).
    - rewrite decide_True, decide_False by done. cbn [app]. by rewrite IH.
    - rewrite decide_False, decide_True by done. by rewrite <- Permutation_middle, IH. }
  rewrite app_assoc in Hperm. split.
  - rewrite Hperm. apply NoDup_app. split_and!; [done| |by apply NoDup_expand].
    intros x Hx Hn. by apply (Hfresh x).
  - intros q' x Hq' Hx Hp. rewrite Hperm in Hx.
    assert (q' ∈ queue ∨ q' ∈ new) as Hq2 by (apply elem_of_app in Hq' as [?|[_ ?]%list_elem_of_filter]; tauto).
    apply elem_of_app in Hx as [Hx|Hx]; destruct Hq2 as [Hq2|Hq2].
    + apply Hpre; [by right|by right|done].
    + exfalso. destruct (Hnew _ Hq2) as (w & s & e & ->). cbn in Hp. apply prefix_app_l in Hp.
      apply Hpre in Hp; [|apply list_elem_of_here|by right]. subst x. done.
    + exfalso. destruct (Hnew _ Hx) as (w & s & e & Ex). subst x. cbn in Hp. destruct Hp as [k Hk].
      destruct k as [|y k _] using rev_ind.
      * rewrite app_nil_r in Hk. apply Hq. apply elem_of_app. left.
        rewrite <- (Hpre q q'); [done|apply list_elem_of_here|right; set_solver|]. rewrite <- Hk. by apply prefix_app_r.
      * rewrite app_assoc in Hk. apply app_inj_tail in Hk as [Hk _].
        apply Hq. apply elem_of_app. left. rewrite (Hpre q' q); [done|by right|apply list_elem_of_here|by exists k].
    + destruct (Hnew _ Hq2) as (w & s & e & ->), (Hnew _ Hx) as (w' & s' & e' & ->). symmetry. by apply extend_prefix.
Qed.

Lemma search_NoDup fuel queue solutions res :
  (∀ v w a s e, lookup_edge g v w a = Some (s, e) → a = address s) →
  apart queue solutions → search fuel g dst queue solutions = Some res → NoDup res.
Proof using vertices_perm edges_perm.
  intros Ha. revert queue solutions. induction fuel as [|fuel IH]; intros [|q queue] solutions Hap; cbn.
  - intros [= <-]. apply Hap.
  - done.
  - intros [= <-]. apply Hap.
  - apply IH. by apply apart_step.
Qed.

(** ** Trails: the solutions as chains of edges *)

Inductive trail : vertex → option inputSegment → list solutionEdge → Prop :=
| trail_last v cur s e :
    edge_in g v dst s e → validNextSeg cur s = true → trail v cur [mkSolEdge e v dst s]
| trail_cons v cur w s e l :
    edge_in g v w s e → validNextSeg cur s = true → w ≠ dst → trail w (Some s) l →
    trail v cur (mkSolEdge e v w s :: l).

Definition total_weight (l : list solutionEdge) : Z := foldr (λ x n, Weight (edge_ x) + n) 0 l.
Definition solution_of (l : list solutionEdge) : pathSolution :=
  mkSolution l dst (segment_ <$> last l) (total_weight l).

Lemma finishes_trail q x :
  finishes q x ↔ ∃ l, trail (currentVertex q) (currentSeg q) l ∧
    x = mkSolution (edges q ++ l) dst (segment_ <$> last l) (cost q + total_weight l).
Proof.
  split.
  - induction 1 as [q s e He Hv|q w s e x He Hv Hw Hf (l & Ht & ->)].
    + eexists. split; [by apply trail_last|]. unfold extend. cbn. f_equal. lia.
    + cbn in Ht. eexists. split; [by eapply trail_cons|]. cbn. f_equal.
      * by rewrite <- app_assoc.
      * inversion Ht; by subst.
      * unfold total_weight. cbn [foldr edge_]. lia.
  - intros (l & Ht & ->). remember (currentVertex q) as v eqn:Ev. remember (currentSeg q) as cur eqn:Ec.
    revert q Ev Ec. induction Ht as [v cur s e He Hv|v cur w s e l He Hv Hw Ht IH]; intros q -> ->.
    + replace (mkSolution _ _ _ _) with (extend q dst s e) by (unfold extend; cbn; f_equal; lia).
      by apply finishes_here.
    + eapply finishes_later; [done..|]. specialize (IH (extend q w s e) eq_refl eq_refl).
      cbn [extend edges cost] in IH. rewrite <- app_assoc in IH. cbn [app] in IH.
      replace (segment_ <$> last (mkSolEdge e (currentVertex q) w s :: l)) with (segment_ <$> last l)
        by (by inversion Ht).
      cbn [total_weight foldr edge_]. fold (total_weight l). by rewrite Z.add_assoc.
Qed.

Lemma search_enough src :
  ∃ res, search (enough g) g dst [mkSolution [] src None 0] [] = Some res ∧
    ∀ x, x ∈ res ↔ trail src None (edges x) ∧ x = solution_of (edges x).
Proof using vertices_perm edges_perm.
  destruct (search_spec (enough g) [mkSolution [] src None 0] []) as (res & Hres & Hx).
  { cbn. unfold enough. nia. }
  exists res. split; [done|]. intros x. rewrite Hx. split.
  - intros [?%not_elem_of_nil|(q & ->%list_elem_of_singleton & (l & Ht & ->)%finishes_trail)]; done.
  - intros [Ht Ex]. right. eexists. split; [apply list_elem_of_here|]. apply finishes_trail.
    exists (edges x). cbn. by rewrite Z.add_0_l.
Qed.
End search.

(** ** What a link is *)

Lemma between_elem v w es e : last (between v w es) = Some e → (v, w, e) ∈ es.
Proof.
  intros (l & H)%last_Some. assert (e ∈ between v w es) as He by (rewrite H; set_solver).
  unfold between in He. apply list_elem_of_omap in He as ([[v' w'] e'] & Hin & He).
  destruct (decide _) as [[-> ->]|]; [|done]. by injection He as ->.
Qed.

(** The far end of an edge of an up or down segment: the AS at which it is cut, or
    a peering link of that AS. *)
Inductive far_end (n : nat) (i : nat) (a : ASEntry) : Z → vertex → Prop :=
| far_as : S i ≠ n → far_end n i a 0 (vertexFromIA (Local a))
| far_peering m p : PeerEntries a !! m = Some p →
    far_end n i a (Z.of_nat m + 1)
      (vertexFromPeering (Local a) (ConsIngress (PeerHopField p)) (Segment.Peer p) (PeerInterface p)).

Lemma elem_of_tuples pinned n i a t :
  t ∈ tuples pinned (Z.of_nat n) (Z.of_nat i) a → Src t = vertexFromIA pinned ∧ far_end n i a (TPeer t) (Dst t).
Proof.
  unfold tuples. intros [Ht|Ht]%elem_of_app.
  - destruct (Z.eqb_spec (Z.of_nat i) (Z.of_nat n - 1)) as [|Hi]; [by apply not_elem_of_nil in Ht|].
    apply list_elem_of_singleton in Ht as ->. split; [done|]. apply far_as. lia.
  - apply elem_of_lookup_imap in Ht as (m & p & -> & Hp). split; [done|]. by apply (far_peering _ _ _ m).
Qed.

(** The ends of an edge that a segment has. *)
Record edge_ends (s : inputSegment) (v w : vertex) (e : edge) (i : nat) (a lst : ASEntry) : Prop := {
  ee_last : last (ASEntries (Segment_ s)) = Some lst;
  ee_entry : ASEntries (Segment_ s) !! i = Some a;
  ee_shortcut : Shortcut e = Z.of_nat i;
  ee_ends : match Type_ s with
    | PathSegType_core => i = 0%nat ∧ Peer e = 0 ∧ v = vertexFromIA (Local lst) ∧ w = vertexFromIA (Local a)
    | PathSegType_up => v = vertexFromIA (Local lst) ∧ far_end (length (ASEntries (Segment_ s))) i a (Peer e) w
    | PathSegType_down => w = vertexFromIA (Local lst) ∧
        ∃ far, far_end (length (ASEntries (Segment_ s))) i a (Peer e) far ∧ v = Reverse far
    end
}.

Lemma link_ends s v w e : link s v w e → ∃ i a lst, edge_ends s v w e i a lst.
Proof.
  intros (es & Hes & He%between_elem). unfold segment_edges in Hes.
  apply bind_Ok in Hes as (lst & Hl & Hes).
  assert (ASEntries (Segment_ s) ≠ []) as Hne by (intros E; rewrite E in Hl; done).
  destruct (get_last _ Hne) as (lst' & Hl' & Hlast). rewrite Hl in Hl'. injection Hl' as <-.
  destruct (Type_ s) eqn:Et.
  2:{ apply bind_Ok in Hes as (fst & Hf & [= <-]). destruct (get_first _ Hne) as (x & Hx & Hh). rewrite Hf in Hx.
      injection Hx as <-. apply list_elem_of_singleton in He as [= -> -> ->]. exists 0%nat, fst, lst.
      split; [done|by rewrite <- head_lookup|done|by rewrite Et]. }
  all: injection Hes as <-; apply list_elem_of_In, in_flat_map in He as ([i a] & Hi%list_elem_of_In & He%list_elem_of_In);
    rewrite elem_of_reverse in Hi; apply elem_of_lookup_imap in Hi as (i' & a' & [= <- <-] & Hi);
    apply list_elem_of_fmap in He as (t & He & Ht); unfold len in Ht, He; apply elem_of_tuples in Ht as [Hs Hd];
    cbn [tuple_edge] in He; injection He as -> -> ->; exists i, a, lst; (split; [done|done|done|]); rewrite Et; cbn [Peer].
  - by rewrite Hs.
  - rewrite Hs. split; [done|]. by exists (Dst t).
Qed.

(** The edges of a trail. *)
Lemma trail_edges g dst v cur l :
  trail g dst v cur l →
  (∀ k se, l !! k = Some se → edge_in g (src se) (Graph.dst se) (segment_ se) (edge_ se)) ∧
  (∀ k se se', l !! k = Some se → l !! S k = Some se' →
     Graph.dst se = src se' ∧ validNextSeg (Some (segment_ se)) (segment_ se') = true) ∧
  (∃ se, l !! 0%nat = Some se ∧ src se = v ∧ validNextSeg cur (segment_ se) = true) ∧
  (∃ se, last l = Some se ∧ Graph.dst se = dst).
Proof.
  induction 1 as [v cur s e He Hv|v cur w s e l He Hv _ _ (IH1 & IH2 & (s0 & H0 & Hs0 & Hv0) & (sl & Hl & Hd))].
  - split_and!; [|by intros [|k] ? ? ?|by eexists|by eexists]. intros [|k] se; [by intros [= <-]|done].
  - split_and!.
    + intros [|k] se; [by intros [= <-]|apply IH1].
    + intros [|k] se se'; [intros [= <-] H1|apply IH2]. change (l !! 0%nat = Some se') in H1.
      rewrite H0 in H1. by injection H1 as <-.
    + by eexists.
    + exists sl. split; [|done]. by destruct l.
Qed.

(** ** The order of the solutions *)

Lemma Compare_opp a b : Compare b a = - Compare a b.
Proof.
  revert b. induction a as [|x a IH]; intros [|y b]; [done..|]. cbn.
  destruct (Z.ltb_spec x y), (Z.ltb_spec y x); try lia. apply IH.
Qed.
Lemma Compare_range a b : Compare a b = -1 ∨ Compare a b = 0 ∨ Compare a b = 1.
Proof.
  revert b. induction a as [|x a IH]; intros [|y b]; cbn; [tauto..|]. destruct (x <? y), (y <? x); auto.
Qed.
Lemma Compare_eq a b : Compare a b = 0 → a = b.
Proof.
  revert b. induction a as [|x a IH]; intros [|y b]; cbn; try done.
  destruct (Z.ltb_spec x y), (Z.ltb_spec y x); try done. intros H1%IH. f_equal; [lia|done].
Qed.
Lemma Compare_refl a : Compare a a = 0.
Proof. pose proof (Compare_opp a a). lia. Qed.
Lemma Compare_trans a b c : Compare a b = -1 → Compare b c = -1 → Compare a c = -1.
Proof.
  revert b c. induction a as [|x a IH]; intros [|y b] [|z c]; cbn; try done.
  destruct (Z.ltb_spec x y), (Z.ltb_spec y x), (Z.ltb_spec y z), (Z.ltb_spec z y), (Z.ltb_spec x z), (Z.ltb_spec z x);
    try done; try lia. apply IH.
Qed.

Section less.
Context (sha256 : bytes → bytes).

(** Two edges by the key that the loop of [Less] compares. *)
Definition edge_key (i : solutionEdge) : bytes * Z * Z :=
  (ID sha256 (Segment_ (segment_ i)), Shortcut (edge_ i), Peer (edge_ i)).
Definition key_less (k k' : bytes * Z * Z) : bool :=
  (Compare k.1.1 k'.1.1 =? -1) ||
  ((Compare k.1.1 k'.1.1 =? 0) && ((k.1.2 <? k'.1.2) || ((k.1.2 =? k'.1.2) && (k.2 <? k'.2)))).

Lemma less_edges_cons i j l l' :
  less_edges sha256 (i :: l) (j :: l') =
  key_less (edge_key i) (edge_key j) || (bool_decide (edge_key i = edge_key j) && less_edges sha256 l l').
Proof.
  cbn [less_edges]. unfold key_less, edge_key. cbn [fst snd].
  pose proof (Compare_range (ID sha256 (Segment_ (segment_ i))) (ID sha256 (Segment_ (segment_ j)))) as Hr.
  destruct (Z.eqb_spec (Compare (ID sha256 (Segment_ (segment_ i))) (ID sha256 (Segment_ (segment_ j)))) 0) as [E|E]; cbn [negb].
  - rewrite E. apply Compare_eq in E. rewrite E. cbn [orb andb Z.eqb].
    destruct (Z.eqb_spec (Shortcut (edge_ i)) (Shortcut (edge_ j))) as [->|Hs]; cbn [negb].
    + rewrite Z.ltb_irrefl. cbn [orb andb].
      destruct (Z.eqb_spec (Peer (edge_ i)) (Peer (edge_ j))) as [->|Hp]; cbn [negb].
      * rewrite Z.ltb_irrefl. by rewrite bool_decide_true.
      * rewrite bool_decide_false by congruence. by rewrite orb_false_r.
    + rewrite bool_decide_false by congruence. cbn [andb]. by rewrite !orb_false_r.
  - rewrite bool_decide_false by (intros [= H _ _]; rewrite H, Compare_refl in *; lia).
    by rewrite !orb_false_r.
Qed.

Lemma key_less_irrefl k : key_less k k = false.
Proof. unfold key_less. pose proof (Compare_opp k.1.1 k.1.1). lia. Qed.
Lemma key_less_trans k1 k2 k3 : key_less k1 k2 = true → key_less k2 k3 = true → key_less k1 k3 = true.
Proof.
  unfold key_less. intros H1 H2.
  assert (Compare k1.1.1 k2.1.1 = 0 → k1.1.1 = k2.1.1) as E1 by apply Compare_eq.
  assert (Compare k2.1.1 k3.1.1 = 0 → k2.1.1 = k3.1.1) as E2 by apply Compare_eq.
  destruct (decide (Compare k1.1.1 k2.1.1 = 0)) as [C1|C1].
  - rewrite (E1 C1), Compare_refl in *. lia.
  - destruct (decide (Compare k2.1.1 k3.1.1 = 0)) as [C2|C2]; [rewrite (E2 C2), Compare_refl in *; lia|].
    rewrite (Compare_trans k1.1.1 k2.1.1 k3.1.1) by lia. done.
Qed.
Lemma key_less_total k1 k2 : key_less k1 k2 = true ∨ key_less k2 k1 = true ∨ k1 = k2.
Proof.
  unfold key_less. rewrite (Compare_opp k1.1.1 k2.1.1). destruct k1 as [[a s] p], k2 as [[b t] q]. cbn.
  destruct (Compare_range a b) as [E|[E|E]]; rewrite E; cbn; [tauto| |tauto].
  apply Compare_eq in E as ->. destruct (Z.ltb_spec s t), (Z.ltb_spec t s), (Z.eqb_spec s t), (Z.eqb_spec t s),
    (Z.ltb_spec p q), (Z.ltb_spec q p); cbn; try tauto; try lia. right. right. f_equal; [f_equal|]; lia.
Qed.

Lemma less_edges_trans l1 l2 l3 :
  length l1 = length l2 → length l2 = length l3 →
  less_edges sha256 l2 l1 = false → less_edges sha256 l3 l2 = false → less_edges sha256 l3 l1 = false.
Proof.
  revert l2 l3. induction l1 as [|i l1 IH]; intros [|j l2] [|k l3]; cbn [length]; try done.
  intros E1 E2. rewrite !less_edges_cons. intros H1%orb_false_iff H2%orb_false_iff. apply orb_false_iff.
  destruct H1 as [K1 L1], H2 as [K2 L2]. set (a := edge_key i) in *. set (b := edge_key j) in *. set (c := edge_key k) in *.
  assert (key_less c a = false) as K.
  { destruct (key_less c a) eqn:K; [|done].
    destruct (key_less_total b a) as [H|[H|H]]; [congruence| |rewrite H in *; congruence].
    rewrite (key_less_trans c a b) in K2; done. }
  split; [done|]. destruct (bool_decide_reflect (c = a)) as [E|E]; [|done]. rewrite <- E in *.
  assert (b = c) as Eb by (destruct (key_less_total b c) as [H|[H|H]]; congruence).
  rewrite Eb in *. rewrite bool_decide_true in L1, L2 by done. apply (IH l2); [lia|lia|done|done].
Qed.

Lemma less_edges_asym l1 l2 : less_edges sha256 l1 l2 = true → less_edges sha256 l2 l1 = false.
Proof.
  revert l2. induction l1 as [|i l1 IH]; intros [|j l2]; [done..|]. rewrite !less_edges_cons.
  intros [H|[H1 H2]%andb_true_iff]%orb_true_iff; apply orb_false_iff.
  - assert (key_less (edge_key j) (edge_key i) = false) as ->.
    { destruct (key_less (edge_key j) (edge_key i)) eqn:E; [|done].
      pose proof (key_less_trans _ _ _ H E) as C. by rewrite key_less_irrefl in C. }
    split; [done|]. destruct (bool_decide_reflect (edge_key j = edge_key i)) as [E|E]; [|done]. rewrite E, key_less_irrefl in H. done.
  - apply bool_decide_eq_true in H1. rewrite H1, key_less_irrefl. split; [done|].
    rewrite (IH _ H2). by rewrite andb_false_r.
Qed.

(** A strict weak order, which [sort.Sort] asks for. *)
Record weak_order {A} (less : A → A → bool) : Prop := {
  wo_asym a b : less a b = true → less b a = false;
  wo_trans a b c : less b a = false → less c b = false → less c a = false
}.

Lemma Less_weak_order : weak_order (Less sha256).
Proof.
  split.
  - intros a b. unfold Less. destruct (Z.eqb_spec (cost a) (cost b)) as [->|]; cbn [negb].
    + rewrite Z.eqb_refl. cbn [negb].
      destruct (Z.eqb_spec (len (edges a)) (len (edges b))) as [E|]; cbn [negb].
      * rewrite <- E, Z.eqb_refl. apply less_edges_asym.
      * replace (len (edges b) =? len (edges a)) with false by lia. cbn [negb]. lia.
    + replace (cost b =? cost a) with false by lia. cbn [negb]. lia.
  - intros a b c. unfold Less.
    destruct (Z.eqb_spec (cost b) (cost a)) as [E1|], (Z.eqb_spec (cost c) (cost b)) as [E2|],
      (Z.eqb_spec (cost c) (cost a)) as [E3|]; cbn [negb]; try lia.
    destruct (Z.eqb_spec (len (edges b)) (len (edges a))) as [F1|], (Z.eqb_spec (len (edges c)) (len (edges b))) as [F2|],
      (Z.eqb_spec (len (edges c)) (len (edges a))) as [F3|]; cbn [negb]; try lia.
    intros H1 H2. apply (less_edges_trans _ (edges b)); try done; unfold len in *; lia.
Qed.
End less.

(** [sort.Sort]: the elements in an order that [less] does not contradict. *)
Definition sorts (sort : (pathSolution → pathSolution → bool) → list pathSolution → list pathSolution) : Prop :=
  ∀ less l, sort less l ≡ₚ l ∧ (weak_order less → StronglySorted (λ a b, less b a = false) (sort less l)).

Lemma GetPaths_lemma order_vertices order_edges sha256 sort ups cores downs src dst :
  (∀ n m, order_vertices n m ≡ₚ map_to_list m) → (∀ n v m, order_edges n v m ≡ₚ map_to_list m) → sorts sort →
  Forall (λ s, ASEntries s ≠ []) (ups ++ cores ++ downs) →
  ∃ g sols, newDMG ups cores downs = Ok g ∧
    (∀ v w s e, edge_in g v w s e ↔ s ∈ inputs ups cores downs ∧ link s v w e) ∧
    GetPaths order_vertices order_edges sha256 sort g src dst = Some sols ∧
    (∀ x, x ∈ sols ↔ trail g dst src None (edges x) ∧ x = solution_of dst (edges x)) ∧
    NoDup sols ∧ StronglySorted (λ a b, Less sha256 b a = false) sols.
Proof.
  intros Hv He Hs Hne. destruct (newDMG_spec ups cores downs Hne) as (g & Hg & Hl & Haddr).
  destruct (search_enough order_vertices order_edges Hv He g dst src) as (res & Hres & Hx).
  exists g, (sort (Less sha256) res). destruct (Hs (Less sha256) res) as [Hp Hso].
  split_and!; [done|done|unfold GetPaths; by rewrite Hres| | |by apply Hso, Less_weak_order].
  - intros x. rewrite Hp. apply Hx.
  - rewrite Hp. eapply search_NoDup; [exact Hv|exact He|exact Haddr| |exact Hres].
    split; [apply NoDup_singleton|]. by intros q x ->%list_elem_of_singleton ->%list_elem_of_singleton _.
Qed.

Lemma Less_cost sha256 l : StronglySorted (λ a b, Less sha256 b a = false) l → StronglySorted (λ a b, cost a ≤ cost b) l.
Proof.
  induction 1 as [|a l _ IH Hf]; constructor; [exact IH|]. apply (Forall_impl _ _ _ Hf). intros b. unfold Less.
  destruct (Z.eqb_spec (cost b) (cost a)); cbn [negb]; lia.
Qed.


(** ** Witness: two ASes below a third, with a peering link between them *)

Import Beaconing BeaconingProperties.

(** The beacon that reaches the third AS, which has the other end of the peering
    link. *)
Definition extender1' : DefaultExtender := toy_extender ia1 {[2 := toy_interface 2 ia3 IfState.Child 6]}.
Definition extender3 : DefaultExtender :=
  toy_extender ia3 {[6 := toy_interface 6 ia1 IfState.Parent 2; 4 := toy_interface 4 ia2 IfState.Peer 9]}.
Definition extended (s : DefaultExtender) (ps : PathSegment) (ingress egress : Z) (peers : list Z) : PathSegment :=
  (@Extend toy_crypto toy_codec toy_sha (1700000100 * Second) ingress egress peers (s, ps)).1.2.
Definition beacon3 : PathSegment := extended extender3 (extended extender1' beacon0 0 2 []) 6 0 [4].

Definition in_order (V : Type) (m : gmap Z V) : list (Z * V) := map_to_list m.
Definition order_v (n : nat) (m : vertexInfo) : list (vertex * edgeMap) := map_to_list m.
Definition order_e (n : nat) (v : vertex) (m : edgeMap) : list (nat * (inputSegment * edge)) := map_to_list m.
Definition sort_by (less : pathSolution → pathSolution → bool) (l : list pathSolution) : list pathSolution :=
  @merge_sort _ (λ a b, less b a = false) (λ a b, bool_eq_dec (less b a) false) l.

Definition graph : dmg := match newDMG [beacon2] [] [beacon3] with Ok g => g | _ => ∅ end.
Definition solutions : list pathSolution :=
  default [] (GetPaths order_v order_e toy_sha sort_by graph (vertexFromIA ia2) (vertexFromIA ia3)).
Lemma sort_by_sorts : sorts sort_by.
Proof.
  intros less l. split; [apply merge_sort_Permutation|]. intros [Ha Ht]. apply StronglySorted_merge_sort.
  - intros a b c. apply Ht.
  - intros a b. destruct (less b a) eqn:E; [right; by apply Ha|by left].
Qed.


End GraphProperties.

Module CombinatorProperties.

Import Segment Graph Combinator.

(** ** One path per sequence of interfaces *)

Section duplicates.
Context (sha256 : bytes → bytes) (order_keys : gmap bytes nat → list (bytes * nat)).
Hypothesis keys_perm : ∀ m, order_keys m ≡ₚ map_to_list m.

Definition print (p : Path) : bytes := fingerprint sha256 (Interfaces (Metadata_ p)).
Definition expiry (p : Path) : Z := Expiry (Metadata_ p).

(** What the loop keeps for the first [n] paths: of each fingerprint a path that
    expires last. *)
Record latest (paths : list Path) (n : nat) (m : gmap bytes nat) : Prop := {
  la_in key i : m !! key = Some i → (i < n)%nat ∧ ∃ p, paths !! i = Some p ∧ print p = key;
  la_best j p : (j < n)%nat → paths !! j = Some p →
    ∃ i q, m !! print p = Some i ∧ paths !! i = Some q ∧ expiry p ≤ expiry q
}.

Lemma unique_step_latest paths n p m :
  paths !! n = Some p → latest paths n m → latest paths (S n) (unique_step sha256 paths m (n, p)).
Proof.
  intros Hp [Hin Hbest]. unfold unique_step. fold (print p).
  assert (∀ m', (∀ key, key ≠ print p → m' !! key = m !! key) →
    (∃ i q, m' !! print p = Some i ∧ (i < S n)%nat ∧ paths !! i = Some q ∧ print q = print p ∧ expiry p ≤ expiry q ∧
      ∀ i' q', m !! print p = Some i' → paths !! i' = Some q' → expiry q' ≤ expiry q) → latest paths (S n) m') as Hgoal.
  { intros m' Hother (i & q & Hi & Hlt & Hq & Eq & Hle & Hold). split.
    - intros key i' Hk. destruct (decide (key = print p)) as [->|Hne].
      + rewrite Hi in Hk. injection Hk as <-. eauto.
      + rewrite (Hother _ Hne) in Hk. destruct (Hin _ _ Hk) as [? ?]. split; [lia|done].
    - intros j p' Hj Hp'. destruct (decide (print p' = print p)) as [E|Hne].
      + rewrite E. exists i, q. split_and!; [done..|]. destruct (decide (j = n)) as [->|Hjn]; [congruence|].
        destruct (Hbest j p' ltac:(lia) Hp') as (i' & q' & Hi' & Hq' & Hle'). rewrite E in Hi'. specialize (Hold _ _ Hi' Hq'). lia.
      + rewrite (Hother _ Hne). apply (Hbest j); [|done]. destruct (decide (j = n)) as [->|]; [congruence|lia]. }
  destruct (m !! print p) as [prev|] eqn:Em.
  - destruct (Hin _ _ Em) as (Hlt & q & Hq & Eq). rewrite Hq. unfold After. fold (expiry p) (expiry q).
    destruct (Z.ltb_spec (expiry q) (expiry p)); apply Hgoal.
    + intros key Hne. by rewrite lookup_insert_ne.
    + exists n, p. rewrite lookup_insert_eq. split_and!; [done|lia|done|done|lia|]. intros i' q' Hi' Hq'. simplify_eq. lia.
    + done.
    + exists prev, q. split_and!; [done|lia|done|done|lia|]. intros i' q' Hi' Hq'. simplify_eq. lia.
  - apply Hgoal.
    + intros key Hne. by rewrite lookup_insert_ne.
    + exists n, p. rewrite lookup_insert_eq. split_and!; [done|lia|done|done|lia|done].
Qed.

Lemma unique_paths_latest paths : latest paths (length paths) (unique_paths sha256 paths).
Proof.
  unfold unique_paths. rewrite <- (take_ge (imap pair paths) (length paths)) by (by rewrite length_imap).
  assert (∀ n, (n ≤ length paths)%nat → latest paths n (foldl (unique_step sha256 paths) ∅ (take n (imap pair paths)))) as H;
    [|by apply H].
  induction n as [|n IH]; intros Hn.
  - rewrite take_0. cbn [foldl]. split; [intros key i H; by rewrite lookup_empty in H|lia].
  - destruct (lookup_lt_is_Some_2 paths n Hn) as [p Hp].
    rewrite (take_S_r _ _ (n, p)) by (apply list_lookup_imap_Some; eauto).
    rewrite foldl_snoc. apply unique_step_latest; [done|]. apply IH. lia.
Qed.

(** Increasing indices pick a subsequence. *)
Lemma sublist_of_indices {A} (l : list A) k idx :
  StronglySorted (≤)%nat idx → NoDup idx → Forall (λ i, k ≤ i)%nat idx →
  omap (λ i, l !! (i - k)%nat) idx `sublist_of` l.
Proof.
  revert k idx. induction l as [|x l IH]; intros k idx Hs Hn Hk.
  - replace (omap _ idx) with (@nil A); [done|]. clear. by induction idx.
  - assert (∀ idx, Forall (λ i, S k ≤ i)%nat idx → omap (λ i, (x :: l) !! (i - k)%nat) idx = omap (λ i, l !! (i - S k)%nat) idx) as E.
    { clear. intros idx H. induction H as [|i idx Hi _ IH]; [done|]. cbn [omap list_omap]. rewrite <- IH.
      replace (i - k)%nat with (S (i - S k)) by lia. done. }
    destruct idx as [|i idx]; [apply sublist_nil_l|]. inversion Hs as [|? ? Hs' Hle]; subst.
    apply NoDup_cons in Hn as [Hni Hn]. apply Forall_cons in Hk as [Hki Hk].
    assert (Forall (λ j, S i ≤ j)%nat idx) as Hgt.
    { rewrite Forall_forall in Hle |- *. intros j Hj. specialize (Hle j Hj). assert (i ≠ j) by (by intros ->). lia. }
    destruct (decide (i = k)) as [->|Hne].
    + cbn [omap list_omap]. rewrite Nat.sub_diag. cbn. rewrite E by done. apply sublist_skip. by apply IH.
    + rewrite E by (constructor; [lia|]; eapply Forall_impl; [exact Hgt|]; cbn; lia).
      apply sublist_cons, IH; [by constructor|by constructor|]. constructor; [lia|]. eapply Forall_impl; [exact Hgt|]. cbn. lia.
Qed.

Lemma sublist_of_lookups {A} (l : list A) idx :
  StronglySorted (≤)%nat idx → NoDup idx → omap (λ i, l !! i) idx `sublist_of` l.
Proof.
  intros Hs Hn. assert (omap (λ i, l !! i) idx = omap (λ i, l !! (i - 0)%nat) idx) as ->.
  { clear. induction idx as [|i idx IH]; [done|]. cbn [omap list_omap]. by rewrite Nat.sub_0_r, IH. }
  apply sublist_of_indices; [done|done|]. apply Forall_true. lia.
Qed.

Lemma toKeep_spec paths :
  let toKeep := merge_sort (≤)%nat (order_keys (unique_paths sha256 paths)).*2 in
  StronglySorted (≤)%nat toKeep ∧ NoDup toKeep ∧ ∀ i, i ∈ toKeep ↔ ∃ key, unique_paths sha256 paths !! key = Some i.
Proof using keys_perm.
  cbv zeta. pose proof (unique_paths_latest paths) as [Hin _].
  assert (merge_sort (≤)%nat (order_keys (unique_paths sha256 paths)).*2 ≡ₚ (map_to_list (unique_paths sha256 paths)).*2) as Hp
    by (by rewrite merge_sort_Permutation, keys_perm).
  split_and!; [apply StronglySorted_merge_sort; intros ?; lia| |].
  - rewrite Hp. apply NoDup_fmap_2_strong; [|apply NoDup_map_to_list].
    intros [k i] [k' i'] Hk%elem_of_map_to_list Hk'%elem_of_map_to_list E. cbn in E. subst i'.
    destruct (Hin _ _ Hk) as (_ & p & Hi & <-), (Hin _ _ Hk') as (_ & p' & Hi' & <-). congruence.
  - intros i. rewrite Hp, list_elem_of_fmap. split.
    + intros ([k j] & -> & Hk%elem_of_map_to_list). by exists k.
    + intros [k Hk]. exists (k, i). split; [done|]. by apply elem_of_map_to_list.
Qed.

End duplicates.


(** ** EPIC authenticators *)

Lemma toy_16 b : len (BeaconingProperties.toy_key BeaconingProperties.ia2 b) = 16.
Proof.
  unfold BeaconingProperties.toy_key. rewrite len_take, len_app, len_make_bytes by done.
  pose proof (len_nonneg ((λ x, (x + BeaconingProperties.ia2 + 1) mod 256) <$> b)). lia.
Qed.

Section epic.
Import Beaconing BeaconingProperties.
Context (s : DefaultExtender) (sha256 : bytes → bytes).
Hypothesis mac_16 : ∀ b, len (MAC s b) = 16.

(** The full MAC of a hop field. *)
Definition full_mac (ps : PathSegment) (beta : Z) (h : Segment.HopField) : bytes :=
  MAC s (Mac.mac_block (info_of ps beta) (hop_of h)).

Lemma createHopF_full ingress egress expTime ps beta h tail :
  createHopF s ingress egress expTime (Timestamp (Info_ ps)) beta = Ok (h, tail) →
  Segment.MAC h = take 6 (full_mac ps beta h) ∧ tail = drop 6 (full_mac ps beta h).
Proof using mac_16.
  intros H. apply createHopF_authentic in H as (Ha & _ & _ & _ & E); [|intros b; by rewrite mac_16].
  unfold full_mac, info_of. split; [exact Ha|]. rewrite <- E. rewrite drop_app_length'; [done|].
  assert (length (Segment.MAC h) = 6%nat) as ->; [|done]. rewrite Ha, length_take.
  pose proof (mac_16 (Mac.mac_block (InfoField.mk false true beta (TimeToSecs (Timestamp (Info_ ps)))) (hop_of h))).
  unfold len in *. lia.
Qed.

Lemma createPeerEntries_tails egress peers expTime ps beta es ms :
  createPeerEntries s egress peers expTime (Timestamp (Info_ ps)) beta = Ok (es, ms) →
  Forall2 (λ p m, m = drop 6 (full_mac ps beta (PeerHopField p))) es ms.
Proof using mac_16.
  revert es ms. induction peers as [|peer peers IH]; intros es ms H; [injection H as <- <-; constructor|].
  cbn [createPeerEntries] in H. destruct (createPeerEntry _ _ _ _ _ _) as [[e m]| |] eqn:E; [|by eapply IH|done].
  apply bind_Ok in H as ([es' ms'] & H & Hr). injection Hr as <- <-. constructor; [|by eapply IH].
  unfold createPeerEntry in E. apply bind_Ok in E as ([[ia id] mtu] & _ & E).
  apply bind_Ok in E as ([h tail] & H1 & E). injection E as <- <-. by apply createHopF_full in H1 as [_ ->].
Qed.

Lemma full_mac_length ps beta h : length (full_mac ps beta h) = 16%nat.
Proof using mac_16. unfold full_mac. pose proof (mac_16 (Mac.mac_block (info_of ps beta) (hop_of h))). unfold len in *. lia. Qed.

Lemma auth_of_parts (x y : bytes) :
  length x = 16%nat → length y = 16%nat → auth_of (take 6 x) (drop 6 y) = take 6 x ++ drop 6 y.
Proof.
  intros Hx Hy. unfold auth_of. rewrite !copy_same; [done| |].
  - unfold make_bytes. rewrite length_replicate, length_drop. lia.
  - unfold make_bytes. rewrite length_replicate, length_take. lia.
Qed.

Lemma mixed_is_whole (x y : bytes) : length x = 16%nat → length y = 16%nat →
  take 6 x ++ drop 6 y = y ↔ take 6 x = take 6 y.
Proof.
  intros Hx Hy. split; intros H; [|by rewrite H, take_drop].
  transitivity (take 6 (take 6 x ++ drop 6 y)); [|by rewrite H].
  rewrite take_app_length'; [done|]. rewrite length_take. lia.
Qed.

Lemma new_entry_epic now ps ingress egress peers e signer f :
  EPIC s = true → new_entry s sha256 now ps ingress egress peers = Ok (e, signer, f) →
  let hop := HopField_ (HopEntry_ e) in
  ∃ d, Extensions.Epic (UnsignedExtensions e) = Some d ∧
    EpicDetached.AuthHopEntry d = drop 6 (full_mac ps (extractBeta ps) hop) ∧
    Forall2 (λ p m, m = drop 6 (full_mac ps (Z.lxor (extractBeta ps) (sigma (Segment.MAC hop))) (PeerHopField p)))
      (PeerEntries e) (EpicDetached.AuthPeerEntries d).
Proof using mac_16.
  intros Hep H. unfold new_entry in H. cbv zeta in H. do 4 (apply bind_Ok in H as (? & _ & H)).
  apply bind_Ok in H as (sg & _ & H). apply bind_Ok in H as (et & _ & H).
  apply bind_Ok in H as ([he tail] & Ehe%wrap_err_Ok & H). apply bind_Ok in H as ([pes ptails] & Epe & H).
  apply bind_Ok in H as (next & _ & H). apply bind_Ok in H as ([epic dig] & Eepic & H).
  destruct (fabrid_extension _ _ _) as [[fab dig'] fab']. injection H as <- _ _. cbv zeta.
  unfold epic_extension in Eepic. rewrite Hep in Eepic. apply bind_Ok in Eepic as (input & _ & [= <- _]).
  eexists. split; [done|]. cbn [EpicDetached.AuthHopEntry EpicDetached.AuthPeerEntries HopEntry_ PeerEntries].
  unfold createHopEntry in Ehe. apply bind_Ok in Ehe as (mtu & _ & Ehe). apply bind_Ok in Ehe as ([h t] & Hh & Ehe).
  injection Ehe as <- <-. cbn [HopField_] in *. split; [by apply createHopF_full in Hh as [_ ->]|].
  by apply createPeerEntries_tails in Epe.
Qed.

(** C37: EPIC authenticators.  An AS that extends a beacon with EPIC enabled
    announces what is missing of the MACs, so that the authenticator that the
    combinator puts together for the hop field of the AS entry is the full MAC
    which the router of the AS computes.  For the hop field of a peering link it
    takes the first six bytes from the MAC of the AS entry instead of the peer
    entry: the authenticator is the full MAC of the peer hop only when the two
    MACs begin with the same six bytes. *)
Theorem epic_authenticators now ps ingress egress peers e signer f :
  EPIC s = true → new_entry s sha256 now ps ingress egress peers = Ok (e, signer, f) →
  let hop := HopField_ (HopEntry_ e) in
  let beta := Z.lxor (extractBeta ps) (sigma (Segment.MAC hop)) in
  getAuth e = Some (full_mac ps (extractBeta ps) hop) ∧
  ∀ i p, PeerEntries e !! i = Some p →
    getAuthPeer e (Z.of_nat i) =
      Ok (Some (take 6 (full_mac ps (extractBeta ps) hop) ++ drop 6 (full_mac ps beta (PeerHopField p)))) ∧
    (getAuthPeer e (Z.of_nat i) = Ok (Some (full_mac ps beta (PeerHopField p))) ↔
     Segment.MAC hop = Segment.MAC (PeerHopField p)).
Proof using mac_16.
  intros Hep Hn hop beta. pose proof (new_entry_epic _ _ _ _ _ _ _ _ Hep Hn) as (d & Ed & Ehop & Epeers).
  pose proof (new_entry_Ok s sha256 ltac:(intros b; by rewrite mac_16) _ _ _ _ _ _ _ _ Hn) as Hsp.
  assert (Segment.MAC hop = take 6 (full_mac ps (extractBeta ps) hop)) as Eh by apply (ne_hop _ _ _ _ _ _ _ Hsp).
  fold hop in Epeers. fold beta in Epeers. unfold getAuth, getAuthPeer. rewrite Ed. split.
  { cbn [fmap option_fmap option_map]. fold hop. rewrite Ehop, Eh, auth_of_parts by apply full_mac_length. by rewrite take_drop. }
  intros i p Hp. destruct (Forall2_lookup_l _ _ _ _ _ Epeers Hp) as (m & Hm & ->).
  rewrite (get_Ok _ _ _ (Zle_0_nat i)) by (by rewrite Nat2Z.id). go_cbn. fold hop. rewrite Eh.
  pose proof (ne_peers _ _ _ _ _ _ _ Hsp) as Hf. rewrite Forall_lookup in Hf. destruct (Hf _ _ Hp) as (Epm & _).
  change (Segment.MAC (PeerHopField p) = take 6 (full_mac ps beta (PeerHopField p))) in Epm. rewrite Epm.
  rewrite auth_of_parts by apply full_mac_length.
  split; [done|]. rewrite <- (mixed_is_whole (full_mac ps (extractBeta ps) hop)) by apply full_mac_length.
  split; [intros H; by apply Ok_inj in H; injection H|by intros ->].
Qed.
End epic.

Section witness.
Import Beaconing BeaconingProperties.
(** What the second AS of the example writes, with one peer. *)
Definition epic_entry : ASEntry :=
  match new_entry extender2 toy_sha (1700000200 * Second) beacon1 5 0 [9] with
  | Ok (e, _, _) => e
  | _ => mkASEntry None None 0 0 (mkHopEntry (mkHopField 0 0 0 []) 0) [] 0 (Extensions.mk false None None) (Extensions.mkUnsigned None None)
  end.

(** The authenticator of the peer hop of the example is not the full MAC. *)
Lemma epic_authenticators_witness :
  match PeerEntries epic_entry with
  | p :: _ => getAuthPeer epic_entry 0 ≠ Ok (Some (full_mac extender2 beacon1
      (Z.lxor (extractBeta beacon1) (sigma (Segment.MAC (HopField_ (HopEntry_ epic_entry))))) (PeerHopField p)))
  | [] => False
  end ∧
  getAuth epic_entry = Some (full_mac extender2 beacon1 (extractBeta beacon1) (HopField_ (HopEntry_ epic_entry))).
Proof.
  split; [vm_compute; discriminate|].
  destruct (new_entry extender2 toy_sha (1700000200 * Second) beacon1 5 0 [9]) as [[[e sg] f]| |] eqn:E;
    [|exfalso; revert E; by vm_compute..].
  assert (epic_entry = e) as -> by (unfold epic_entry; by rewrite E).
  by apply (epic_authenticators extender2 toy_sha toy_16 (1700000200 * Second) beacon1 5 0 [9] e sg f).
Defined.
End witness.

End CombinatorProperties.
