(* ===== verification/CombinedPath.v ===== *)
(** The paths that end hosts put together are forwarded: the hop fields of a
    combined path are authorised by the ASes along it (Module [CombinedPath]),
    with the beacons of [Beaconing], the segments of [Combinator] and the routers
    of [RouterJourney]. *)
From S2P Require Export Combinator RouterJourney.

Module CombinedPath.

Import Segment SegmentProperties BeaconingProperties Graph GraphProperties Combinator Journey.
Import PathLemmas ProcessLemmas AbstractRouter.

(** ** Segments with fields in their ranges *)

Record hop_ok (h : Segment.HopField) : Prop := {
  hk_exp : is_u8 (ExpTime h);
  hk_ingress : is_u16 (ConsIngress h);
  hk_egress : is_u16 (ConsEgress h);
  hk_mac : wf_bytes (Segment.MAC h) ∧ length (Segment.MAC h) = 6%nat
}.
Record segment_ok (ps : PathSegment) : Prop := {
  so_id : is_u16 (SegmentID (Info_ ps));
  so_entries : Forall (λ e, Local e ≠ 0 ∧ hop_ok (HopField_ (HopEntry_ e)) ∧
                            Forall (λ p, hop_ok (PeerHopField p)) (PeerEntries e)) (ASEntries ps)
}.

Lemma hop_field_wf h : hop_ok h → HopField.wf (hop_field h).
Proof. intros [? ? ? [? ?]]. by split. Qed.

Lemma sigma_u16 m : wf_bytes m → length m = 6%nat → is_u16 (Beaconing.sigma m).
Proof.
  intros Hw Hl. apply be_val_u16; [by apply Forall_take|]. rewrite length_take. lia.
Qed.

Lemma betas_u16 l id :
  is_u16 id → Forall (λ e, hop_ok (HopField_ (HopEntry_ e))) l → is_u16 (betas id l).
Proof.
  intros Hid Hl. revert id Hid. induction Hl as [|e l [_ _ _ [Hw Hm]] _ IH]; intros id Hid; [done|].
  cbn. apply IH. apply lxor_uint; [done|done|by apply sigma_u16].
Qed.

Lemma beta_at_u16 ps i : segment_ok ps → is_u16 (beta_at ps i).
Proof.
  intros [Hid He]. apply betas_u16; [done|]. apply Forall_take. by apply (Forall_impl _ _ _ He); intros e (_ & ? & _).
Qed.

(** ** The hops of a solution edge *)

Section edge.
Context (se : solutionEdge).
Let ps := Segment_ (segment_ se).
Let n := length (ASEntries ps).
Let down := IsDownSeg (segment_ se).
Let shortcut := Z.to_nat (Shortcut (edge_ se)).

(** The AS entry of the hop at position [j] of the segment. *)
Definition entry_index (j : nat) : nat := if down then (shortcut + j)%nat else (n - 1 - j)%nat.
Definition peer_entry (i : nat) : bool := (i =? shortcut)%nat && negb (Peer (edge_ se) =? 0).

(** The info field that the hop was created with. *)
Definition hop_info (j : nat) : InfoField.t :=
  let i := entry_index j in
  InfoField.mk (negb (Peer (edge_ se) =? 0)) down (beta_at ps (if peer_entry i then S i else i))
    (Beaconing.TimeToSecs (Timestamp (Info_ ps))).

(** The ASes of the hops. *)
Definition edge_ases : list Z :=
  let l := Local <$> drop shortcut (ASEntries ps) in if down then l else reverse l.

(** The hop field at an AS entry is that of the entry or of one of its peer entries. *)
Definition hop_at (i : nat) (a : ASEntry) (h : Segment.HopField) : Prop :=
  if peer_entry i
  then ∃ p, PeerEntries a !! Z.to_nat (Peer (edge_ se) - 1) = Some p ∧ h = PeerHopField p
  else h = HopField_ (HopEntry_ a).

Definition hop_part (i : nat) (a : ASEntry) (p : entry_part) : Prop :=
  part_entry p = a ∧ ∃ h, hop_at i a h ∧ part_hop p = hop_field h.

Hypothesis Hsc : Shortcut (edge_ se) = Z.of_nat shortcut.

Lemma entry_step_part i a p : entry_step (edge_ se) (Z.of_nat i) a = Ok p → hop_part i a p.
Proof using Hsc.
  unfold entry_step, hop_part, hop_at, peer_entry. rewrite Hsc.
  replace (Z.of_nat i =? Z.of_nat shortcut) with (i =? shortcut)%nat
    by (destruct (Nat.eqb_spec i shortcut), (Z.eqb_spec (Z.of_nat i) (Z.of_nat shortcut)); lia).
  intros H. apply bind_Ok in H as ([[hop mtu] auth] & H & [= <-]). cbn [part_entry part_hop]. split; [done|].
  destruct (_ && negb (Peer _ =? 0)) eqn:E; cbn [negb] in H.
  - apply bind_Ok in H as (pe & Hp & H). apply bind_Ok in H as (au & _ & [= <- _ _]).
    exists (PeerHopField pe). split; [|done]. exists pe. split; [|done]. unfold get in Hp.
    destruct (_ <? 0); [done|]. destruct (PeerEntries a !! _); [by injection Hp as ->|done].
  - injection H as <- _ _. eauto.
Qed.

Lemma entry_parts_Forall2 l ps' :
  entry_parts (edge_ se) l = Ok ps' → Forall2 (λ '(i, a) p, hop_part i a p) l ps'.
Proof using Hsc.
  revert ps'. induction l as [|[i a] l IH]; intros ps' H; [injection H as <-; constructor|].
  cbn [entry_parts] in H. apply bind_Ok in H as (p & Hp & H). apply bind_Ok in H as (ps2 & H2 & [= <-]).
  constructor; [by apply entry_step_part|by apply IH].
Qed.

(** The AS entries in the order of the hops, with their indices. *)
Definition ordered_entries : list (nat * ASEntry) :=
  let l := drop shortcut (imap pair (ASEntries ps)) in if down then l else reverse l.

Lemma ordered_entries_lookup j i a :
  ordered_entries !! j = Some (i, a) → i = entry_index j ∧ ASEntries ps !! i = Some a.
Proof.
  unfold ordered_entries, entry_index. intros H. pose proof (lookup_lt_Some _ _ _ H) as Hl.
  assert (∀ m, drop shortcut (imap pair (ASEntries ps)) !! m = Some (i, a) →
    i = (shortcut + m)%nat ∧ ASEntries ps !! i = Some a) as Hd.
  { intros m Hm. rewrite lookup_drop in Hm. apply list_lookup_imap_Some in Hm as (x & Hx & [= -> ->]). done. }
  destruct down; [by apply Hd|].
  rewrite length_reverse, length_drop, length_imap in Hl. rewrite reverse_lookup in H by (by rewrite length_drop, length_imap).
  apply Hd in H as [-> H]. rewrite length_drop, length_imap in *. split; [|done]. unfold n. lia.
Qed.

Lemma edge_ases_eq : edge_ases = Local <$> ordered_entries.*2.
Proof.
  unfold edge_ases, ordered_entries. assert (drop shortcut (ASEntries ps) = (drop shortcut (imap pair (ASEntries ps))).*2) as ->.
  { rewrite fmap_drop, fmap_imap. f_equal. symmetry. rewrite <- (list_fmap_id (ASEntries ps)) at 2.
    rewrite <- imap_const. by apply imap_ext. }
  destruct down; [done|]. by rewrite !fmap_reverse.
Qed.

(** What [edge_segment] gives, hop by hop. *)
Lemma edge_segment_spec s auths mtus :
  edge_segment se = Ok (s, auths, mtus) →
  InfoField_ s = InfoField.mk (negb (Peer (edge_ se) =? 0)) down (calculateBeta se)
                   (Beaconing.TimeToSecs (Timestamp (Info_ ps))) ∧
  length (HopFields s) = length edge_ases ∧ length edge_ases = (n - shortcut)%nat ∧
  ∀ j hop, HopFields s !! j = Some hop →
    ∃ a h, ASEntries ps !! entry_index j = Some a ∧ hop_at (entry_index j) a h ∧ hop = hop_field h ∧
      edge_ases !! j = Some (Local a).
Proof using Hsc.
  unfold edge_segment. intros H. apply bind_Ok in H as (parts & Hp%entry_parts_Forall2 & [= <- _ _]).
  cbn [InfoField_ HopFields]. fold down.
  assert (Forall2 (λ '(i, a) p, hop_part i a p) ordered_entries (if down then reverse parts else parts)) as Hf.
  { unfold ordered_entries, path_entries in *. fold ps shortcut in Hp.
    destruct down; [|done]. rewrite <- (reverse_involutive (drop _ _)). by apply Forall2_reverse. }
  assert ((if down then reverse (part_hop <$> parts) else part_hop <$> parts) =
    part_hop <$> (if down then reverse parts else parts)) as -> by (destruct down; by rewrite ?fmap_reverse).
  split_and!; [done| | |].
  - rewrite edge_ases_eq, !length_fmap. symmetry. by eapply Forall2_length.
  - unfold edge_ases. destruct down; by rewrite ?length_reverse, length_fmap, length_drop.
  - intros j hop Hj. apply list_lookup_fmap_Some in Hj as (p & -> & Hj).
    destruct (Forall2_lookup_r _ _ _ _ _ Hf Hj) as ([i a] & Hi & Ha & h & Hh & ->).
    destruct (ordered_entries_lookup _ _ _ Hi) as [-> He]. exists a, h. split_and!; [done..|].
    rewrite edge_ases_eq, !list_lookup_fmap, Hi. done.
Qed.

Lemma authentic_fields mac info info' hop :
  InfoField.SegID info = InfoField.SegID info' → InfoField.Timestamp info = InfoField.Timestamp info' →
  authentic mac info hop → authentic mac info' hop.
Proof. unfold authentic, Mac.mac_block. by intros -> ->. Qed.

Context (key : Z → bytes → bytes).
Hypothesis Hchain : chained_segment key ps.
Hypothesis Hok : segment_ok ps.

Lemma entry_ok i a : ASEntries ps !! i = Some a →
  Local a ≠ 0 ∧ hop_ok (HopField_ (HopEntry_ a)) ∧ Forall (λ p, hop_ok (PeerHopField p)) (PeerEntries a).
Proof using Hok. intros H. destruct Hok as [_ He]. rewrite Forall_lookup in He. by apply (He i). Qed.

Lemma hop_at_ok i a h : ASEntries ps !! i = Some a → hop_at i a h → hop_ok h.
Proof using Hok.
  intros (_ & H1 & H2)%entry_ok Hh. unfold hop_at in Hh. destruct (peer_entry i).
  - destruct Hh as (p & Hp & ->). rewrite Forall_lookup in H2. by apply (H2 _ _ Hp).
  - by subst.
Qed.

Lemma hop_info_authentic j a h :
  ASEntries ps !! entry_index j = Some a → hop_at (entry_index j) a h →
  authentic (key (Local a)) (hop_info j) (hop_field h).
Proof using Hchain.
  intros Ha Hh. destruct (Hchain _ _ Ha) as [H1 H2]. unfold hop_at, hop_info in *. cbv zeta.
  destruct (peer_entry (entry_index j)).
  - destruct Hh as (p & Hp & ->). rewrite Forall_lookup in H2. destruct (H2 _ _ Hp) as [H _].
    by eapply authentic_fields; [..|exact H].
  - subst h. by eapply authentic_fields; [..|exact H1].
Qed.

Lemma TimeToSecs_u32 t : is_u32 (Beaconing.TimeToSecs t).
Proof. by apply uint_of_range. Qed.

Lemma hop_info_wf j : InfoField.wf (hop_info j).
Proof using Hok. split; cbn; [by apply beta_at_u16|apply TimeToSecs_u32]. Qed.

(** How the SegIDs of consecutive hops chain. *)
Lemma chained_eq j j' a h :
  ASEntries ps !! entry_index j = Some a → hop_at (entry_index j) a h → peer_entry (entry_index j) = false →
  peer_entry (entry_index j') = false → entry_index j' = S (entry_index j) →
  chained (hop_info j) (hop_field h) = hop_info j'.
Proof.
  intros Ha Hh Hp Hp' E. unfold hop_at, hop_info in *. cbv zeta. rewrite Hp in Hh. rewrite Hp, Hp', E. subst h.
  unfold chained, InfoField.set_SegID. cbn. by rewrite (beta_at_S _ _ _ Ha).
Qed.

Lemma peer_entry_ne i : i ≠ shortcut → peer_entry i = false.
Proof. intros H. unfold peer_entry. by rewrite (proj2 (Nat.eqb_neq _ _) H). Qed.

Lemma chain_down j a h :
  down = true → ASEntries ps !! entry_index j = Some a → hop_at (entry_index j) a h →
  hop_info (S j) = if peer_entry (entry_index j) then hop_info j else chained (hop_info j) (hop_field h).
Proof.
  intros Hd Ha Hh. assert (entry_index (S j) = S (entry_index j)) as E by (unfold entry_index; rewrite Hd; lia).
  assert (peer_entry (entry_index (S j)) = false) as E' by (apply peer_entry_ne; unfold entry_index; rewrite Hd; lia).
  destruct (peer_entry (entry_index j)) eqn:Ep; [|symmetry; by eapply chained_eq].
  unfold hop_info. cbv zeta. by rewrite Ep, E', E.
Qed.
Lemma chain_up j a h :
  down = false → (S j < n - shortcut)%nat → ASEntries ps !! entry_index (S j) = Some a → hop_at (entry_index (S j)) a h →
  hop_info j = if peer_entry (entry_index (S j)) then hop_info (S j) else chained (hop_info (S j)) (hop_field h).
Proof.
  intros Hd Hj Ha Hh. assert (entry_index j = S (entry_index (S j))) as E by (unfold entry_index; rewrite Hd; lia).
  assert (peer_entry (entry_index j) = false) as E' by (apply peer_entry_ne; unfold entry_index; rewrite Hd; lia).
  destruct (peer_entry (entry_index (S j))) eqn:Ep; [|symmetry; by eapply chained_eq].
  unfold hop_info. cbv zeta. by rewrite Ep, E', E.
Qed.

Lemma calculateBeta_eq :
  (shortcut < n)%nat → calculateBeta se = InfoField.SegID (hop_info 0).
Proof using Hsc.
  intros Hlt. unfold calculateBeta, hop_info, peer_entry, entry_index. fold ps down. cbn [InfoField.SegID]. cbv zeta.
  unfold beta_at, betas. f_equal. f_equal. rewrite Hsc. unfold len. fold n. destruct down.
  - rewrite Nat.add_0_r, Nat.eqb_refl. cbn [andb]. destruct (Peer (edge_ se) =? 0); cbn [negb]; lia.
  - rewrite Nat.sub_0_r.
    replace (Z.of_nat n - 1 =? Z.of_nat shortcut) with (n - 1 =? shortcut)%nat
      by (destruct (Nat.eqb_spec (n - 1) shortcut), (Z.eqb_spec (Z.of_nat n - 1) (Z.of_nat shortcut)); lia).
    destruct (_ && _); lia.
Qed.
End edge.
(** ** The whole path *)

Section path.
Context (key : Z → bytes → bytes) (l : list solutionEdge) (ss : list (segment * list (option bytes) * list Z)).

(** The ASes of the path, hop by hop, and the MAC function of each. *)
Definition path_ases : list Z := mjoin (edge_ases <$> l).
Definition mac_at (g : nat) : bytes → bytes := key (default 0 (path_ases !! g)).

Definition pseg_of (se : solutionEdge) (x : segment * list (option bytes) * list Z) : pseg :=
  mkSeg (IsDownSeg (segment_ se)) (negb (Peer (edge_ se) =? 0)) (HopFields x.1.1) (hop_info se).
Definition psegs : list pseg := zip_with pseg_of l ss.

(** What the search says about the edges. *)
Record good_edges : Prop := {
  ge_edge k se : l !! k = Some se →
    chained_segment key (Segment_ (segment_ se)) ∧ segment_ok (Segment_ (segment_ se)) ∧
    ∃ i a lst, edge_ends (segment_ se) (src se) (dst se) (edge_ se) i a lst;
  ge_core k se : l !! k = Some se → Type_ (segment_ se) = PathSegType_core →
    (2 ≤ length (ASEntries (Segment_ (segment_ se))))%nat;
  ge_next k se se' : l !! k = Some se → l !! S k = Some se' →
    dst se = src se' ∧ validNextSeg (Some (segment_ se)) (segment_ se') = true;
  ge_first : ∃ se ia, l !! 0%nat = Some se ∧ src se = vertexFromIA ia;
  ge_last : ∃ se ia, last l = Some se ∧ dst se = vertexFromIA ia
}.
Hypothesis Hkey : ∀ ia b, 16 ≤ len (key ia b).
Hypothesis Hl : good_edges.
Hypothesis Hss : Forall2 (λ se x, edge_segment se = Ok x) l ss.

Lemma psegs_lookup k s : psegs !! k = Some s ↔
  ∃ se x, l !! k = Some se ∧ ss !! k = Some x ∧ edge_segment se = Ok x ∧ s = pseg_of se x.
Proof using Hss.
  unfold psegs. rewrite lookup_zip_with_Some. split.
  - intros (se & x & -> & H1 & H2). exists se, x. split_and!; [done..| |done].
    destruct (Forall2_lookup_l _ _ _ _ _ Hss H1) as (x' & Hx & ?). congruence.
  - intros (se & x & ? & ? & _ & ->). by eexists _, _.
Qed.

(** What is known of a segment of the path. *)
Record edge_info (k : nat) (se : solutionEdge) (s : pseg) (i : nat) (a lst : ASEntry) : Prop := {
  ei_edge : l !! k = Some se;
  ei_cons : ps_cons s = IsDownSeg (segment_ se);
  ei_peer : ps_peer s = negb (Peer (edge_ se) =? 0);
  ei_infos : ps_infos s = hop_info se;
  ei_chained : chained_segment key (Segment_ (segment_ se));
  ei_ok : segment_ok (Segment_ (segment_ se));
  ei_ends : edge_ends (segment_ se) (src se) (dst se) (edge_ se) i a lst;
  ei_sc : Shortcut (edge_ se) = Z.of_nat (Z.to_nat (Shortcut (edge_ se))) ∧ Z.to_nat (Shortcut (edge_ se)) = i;
  ei_lt : (i < length (ASEntries (Segment_ (segment_ se))))%nat;
  ei_len : length (ps_hops s) = (length (ASEntries (Segment_ (segment_ se))) - i)%nat ∧
           length (ps_hops s) = length (edge_ases se);
  ei_hops j hop : ps_hops s !! j = Some hop →
    ∃ a h, ASEntries (Segment_ (segment_ se)) !! entry_index se j = Some a ∧ hop_at se (entry_index se j) a h ∧
      hop = hop_field h ∧ edge_ases se !! j = Some (Local a)
}.

Lemma psegs_info k s : psegs !! k = Some s → ∃ se i a lst, edge_info k se s i a lst.
Proof using Hl Hss.
  intros (se & [[x au] mt] & Hk & _ & Hx & ->)%psegs_lookup. destruct (ge_edge Hl _ _ Hk) as (Hc & Ho & i & a & lst & He).
  assert (Z.to_nat (Shortcut (edge_ se)) = i) as Hi by (rewrite (ee_shortcut _ _ _ _ _ _ _ He); lia).
  assert (Shortcut (edge_ se) = Z.of_nat (Z.to_nat (Shortcut (edge_ se)))) as Hsc
    by (rewrite (ee_shortcut _ _ _ _ _ _ _ He); lia).
  destruct (edge_segment_spec se Hsc _ _ _ Hx) as (_ & L1 & L2 & Hh). rewrite Hi in L2.
  exists se, i, a, lst. split; try done; cbn [pseg_of ps_hops]; [by eapply lookup_lt_Some, ee_entry|].
  cbn [fst]. split; [by rewrite L1, L2|done].
Qed.

Lemma far_end_as n i a m far ia :
  Local a ≠ 0 → far_end n i a m far → far = vertexFromIA ia ∨ Reverse far = vertexFromIA ia → m = 0.
Proof. intros Ha [Hi|m' p Hp] [E|E]; [done..| |]; by injection E. Qed.
Lemma far_end_zero n i a far : far_end n i a 0 far → S i ≠ n ∧ far = vertexFromIA (Local a).
Proof. inversion 1; [done|lia]. Qed.

Lemma ends_ok k se : l !! k = Some se → ∃ i a lst, edge_ends (segment_ se) (src se) (dst se) (edge_ se) i a lst ∧ Local a ≠ 0.
Proof using Hl.
  intros Hk. destruct (ge_edge Hl _ _ Hk) as (_ & Ho & i & a & lst & He). exists i, a, lst. split; [done|].
  by apply (entry_ok se Ho i), (ee_entry _ _ _ _ _ _ _ He).
Qed.

(** An edge between ASes is not at a peering link, and the other way round. *)
Lemma src_as k se ia : l !! k = Some se → src se = vertexFromIA ia → Type_ (segment_ se) = PathSegType_down → Peer (edge_ se) = 0.
Proof using Hl.
  intros Hk Hv Ht. destruct (ends_ok _ _ Hk) as (i & a & lst & [_ _ _ He] & Ha). rewrite Ht in He.
  destruct He as (_ & far & Hf & E). eapply far_end_as; [exact Ha|exact Hf|]. right. by rewrite <- E.
Qed.
Lemma dst_as k se ia : l !! k = Some se → dst se = vertexFromIA ia → Type_ (segment_ se) = PathSegType_up → Peer (edge_ se) = 0.
Proof using Hl.
  intros Hk Hv Ht. destruct (ends_ok _ _ Hk) as (i & a & lst & [_ _ _ He] & Ha). rewrite Ht in He.
  destruct He as (_ & Hf). eapply far_end_as; [exact Ha|exact Hf|]. by left.
Qed.
Lemma core_as k se : l !! k = Some se → Type_ (segment_ se) = PathSegType_core →
  (∃ ia, src se = vertexFromIA ia) ∧ (∃ ia, dst se = vertexFromIA ia) ∧ Peer (edge_ se) = 0.
Proof using Hl.
  intros Hk Ht. destruct (ends_ok _ _ Hk) as (i & a & lst & [_ _ _ He] & Ha). rewrite Ht in He.
  destruct He as (_ & -> & -> & ->). eauto.
Qed.
Lemma no_peer_as k se : l !! k = Some se → Peer (edge_ se) = 0 → (∃ ia, src se = vertexFromIA ia) ∧ (∃ ia, dst se = vertexFromIA ia).
Proof using Hl.
  intros Hk Hp. destruct (ends_ok _ _ Hk) as (i & a & lst & [_ _ _ He] & Ha). destruct (Type_ (segment_ se)).
  - destruct He as [-> Hf]. rewrite Hp in Hf. apply far_end_zero in Hf as [_ ->]. eauto.
  - destruct He as (_ & _ & -> & ->). eauto.
  - destruct He as [-> (far & Hf & ->)]. rewrite Hp in Hf. apply far_end_zero in Hf as [_ ->]. split; by eexists.
Qed.

Lemma next_types k se se' : l !! k = Some se → l !! S k = Some se' →
  (Type_ (segment_ se) = PathSegType_up ∧ Type_ (segment_ se') ≠ PathSegType_up) ∨
  (Type_ (segment_ se) = PathSegType_core ∧ Type_ (segment_ se') = PathSegType_down).
Proof using Hl.
  intros H1 H2. destruct (ge_next Hl _ _ _ H1 H2) as [_ Hv]. unfold validNextSeg in Hv.
  destruct (Type_ (segment_ se)), (Type_ (segment_ se')); try done; first [left; done|right; done].
Qed.

Lemma up_first k se : l !! k = Some se → Type_ (segment_ se) = PathSegType_up → k = 0%nat.
Proof using Hl.
  intros Hk Ht. destruct k as [|k]; [done|]. destruct (lookup_lt_is_Some_2 l k) as [se' Hk'].
  { apply lookup_lt_Some in Hk. lia. }
  destruct (next_types _ _ _ Hk' Hk) as [[_ ?]|[_ ?]]; congruence.
Qed.
Lemma down_last k se : l !! k = Some se → Type_ (segment_ se) = PathSegType_down → l !! S k = None.
Proof using Hl.
  intros Hk Ht. destruct (l !! S k) as [se'|] eqn:E; [|done]. destruct (next_types _ _ _ Hk E) as [[? _]|[? _]]; congruence.
Qed.

(** Peering links are between an up segment, which comes first, and a down segment. *)
Lemma peer_up k se :
  l !! k = Some se → Peer (edge_ se) ≠ 0 → Type_ (segment_ se) = PathSegType_up →
  k = 0%nat ∧ ∃ se', l !! 1%nat = Some se' ∧ Type_ (segment_ se') = PathSegType_down ∧ Peer (edge_ se') ≠ 0.
Proof using Hl.
  intros Hk Hp Ht. pose proof (up_first _ _ Hk Ht) as ->. split; [done|].
  destruct (l !! 1%nat) as [se'|] eqn:E.
  - destruct (ge_next Hl _ _ _ Hk E) as [Ed _]. exists se'. split; [done|].
    assert (Peer (edge_ se') ≠ 0) as Hp'.
    { intros H0. destruct (no_peer_as _ _ E H0) as [[ia Hia] _]. apply Hp. eapply (dst_as 0 se ia); [done|congruence|done]. }
    split; [|done]. destruct (next_types _ _ _ Hk E) as [[_ Hn]|[? _]]; [|congruence].
    destruct (Type_ (segment_ se')) eqn:E'; [done| |done]. by destruct (core_as _ _ E E') as (_ & _ & ?).
  - destruct (ge_last Hl) as (sl & ia & Hlast & Hd). apply lookup_ge_None in E. pose proof (lookup_lt_Some _ _ _ Hk).
    rewrite last_lookup in Hlast. replace (pred (length l)) with 0%nat in Hlast by lia. rewrite Hk in Hlast.
    injection Hlast as <-. exfalso. apply Hp. by eapply dst_as.
Qed.
Lemma peer_down k se :
  l !! k = Some se → Peer (edge_ se) ≠ 0 → Type_ (segment_ se) = PathSegType_down →
  k = 1%nat ∧ ∃ se', l !! 0%nat = Some se' ∧ Type_ (segment_ se') = PathSegType_up ∧ Peer (edge_ se') ≠ 0.
Proof using Hl.
  intros Hk Hp Ht. destruct k as [|k].
  { exfalso. destruct (ge_first Hl) as (s0 & ia & H0 & Hs). rewrite Hk in H0. injection H0 as <-. apply Hp. by eapply src_as. }
  destruct (lookup_lt_is_Some_2 l k) as [se' Hk']; [apply lookup_lt_Some in Hk; lia|].
  destruct (ge_next Hl _ _ _ Hk' Hk) as [Ed _].
  assert (Peer (edge_ se') ≠ 0) as Hp'.
  { intros H0. destruct (no_peer_as _ _ Hk' H0) as [_ [ia Hia]]. apply Hp. eapply (src_as _ se ia); [done|congruence|done]. }
  destruct (next_types _ _ _ Hk' Hk) as [[Ht' _]|[Ht' _]].
  - pose proof (up_first _ _ Hk' Ht') as ->. eauto.
  - by destruct (core_as _ _ Hk' Ht') as (_ & _ & ?).
Qed.

Lemma peers_all k se : l !! k = Some se → Peer (edge_ se) ≠ 0 → length l = 2%nat ∧ Forall (λ se, Peer (edge_ se) ≠ 0) l.
Proof using Hl.
  intros Hk Hp. assert (∃ s0 s1, l !! 0%nat = Some s0 ∧ l !! 1%nat = Some s1 ∧ Peer (edge_ s0) ≠ 0 ∧ Peer (edge_ s1) ≠ 0 ∧
    Type_ (segment_ s1) = PathSegType_down) as (s0 & s1 & H0 & H1 & P0 & P1 & T1).
  { destruct (Type_ (segment_ se)) eqn:Ht.
    - destruct (peer_up _ _ Hk Hp Ht) as (-> & s1 & ? & ? & ?). by eexists _, _.
    - by destruct (core_as _ _ Hk Ht) as (_ & _ & ?).
    - destruct (peer_down _ _ Hk Hp Ht) as (-> & s0 & ? & ? & ?). by eexists _, _. }
  pose proof (down_last _ _ H1 T1) as H2.
  apply lookup_ge_None in H2. pose proof (lookup_lt_Some _ _ _ H1). split; [lia|]. apply Forall_lookup.
  intros [|[|i]] x Hx; [congruence..|]. apply lookup_lt_Some in Hx. lia.
Qed.

(** ** The combined path is authorised *)

Lemma psegs_length : length psegs = length l.
Proof using Hss. unfold psegs. rewrite length_zip_with, (Forall2_length _ _ _ Hss). lia. Qed.

Lemma mac_at_lookup k se s i a lst j x :
  psegs !! k = Some s → edge_info k se s i a lst → edge_ases se !! j = Some x →
  mac_at (offset psegs k + j) = key x.
Proof using Hl Hss.
  intros Hk Hi Hj. unfold mac_at. enough (path_ases !! (offset psegs k + j)%nat = Some x) as -> by done.
  unfold path_ases. assert (offset psegs k = length (mjoin (edge_ases <$> take k l))) as ->.
  { unfold offset. clear Hi Hj. apply lookup_lt_Some, Nat.lt_le_incl in Hk. revert Hk. induction k as [|k IH]; [done|]. intros Hlt.
    destruct (lookup_lt_is_Some_2 psegs k Hlt) as [s' Hs']. destruct (psegs_info _ _ Hs') as (se' & i' & a' & lst' & Hi').
    rewrite (take_S_r _ _ _ Hs'), (take_S_r _ _ _ (ei_edge _ _ _ _ _ _ Hi')), fmap_app, join_app, length_app, sum_list_with_app.
    rewrite IH by lia. cbn. rewrite app_nil_r. destruct (ei_len _ _ _ _ _ _ Hi'). lia. }
  pose proof (ei_edge _ _ _ _ _ _ Hi) as Hse.
  assert (mjoin (edge_ases <$> l) = mjoin (edge_ases <$> take k l) ++ edge_ases se ++ mjoin (edge_ases <$> drop (S k) l)) as ->.
  { rewrite <- (take_drop_middle _ _ _ Hse) at 1. by rewrite fmap_app, fmap_cons, join_app. }
  rewrite lookup_app_r by lia.
  replace (_ + j - _)%nat with j by lia. by apply lookup_app_l_Some.
Qed.

Lemma peer_entry_is k se s i a lst j :
  edge_info k se s i a lst → (j < length (ps_hops s))%nat → peer_entry se (entry_index se j) = is_peer k s j.
Proof using Hl.
  intros Hi Hj. unfold is_peer, peer_entry, entry_index. rewrite (ei_peer _ _ _ _ _ _ Hi).
  destruct (ei_sc _ _ _ _ _ _ Hi) as [_ ->]. destruct (ei_len _ _ _ _ _ _ Hi) as [El _].
  rewrite andb_comm. destruct (Z.eqb_spec (Peer (edge_ se)) 0) as [|Hp]; [done|]. cbn [negb andb].
  pose proof (ei_edge _ _ _ _ _ _ Hi) as Hse. unfold IsDownSeg. destruct (Type_ (segment_ se)) eqn:Ht.
  - destruct (peer_up _ _ Hse Hp Ht) as [-> _]. rewrite bool_decide_false by done. rewrite Nat.eqb_refl.
    destruct (Nat.eqb_spec (length (ASEntries (Segment_ (segment_ se))) - 1 - j) i),
      (Nat.eqb_spec (S j) (length (ps_hops s))); lia.
  - by destruct (core_as _ _ Hse Ht) as (_ & _ & ?).
  - destruct (peer_down _ _ Hse Hp Ht) as [-> _]. rewrite bool_decide_true by done. change (1 =? 0)%nat with false. cbn iota.
    destruct (Nat.eqb_spec (i + j) i), (Nat.eqb_spec j 0); lia.
Qed.

Lemma pseg_authorised k s : psegs !! k = Some s → seg_authorised psegs mac_at k s.
Proof using Hl Hss.
  intros Hk. destruct (psegs_info _ _ Hk) as (se & i & a & lst & Hi).
  pose proof (ei_chained _ _ _ _ _ _ Hi) as Hc. pose proof (ei_ok _ _ _ _ _ _ Hi) as Ho.
  split; rewrite ?(ei_infos _ _ _ _ _ _ Hi).
  - intros j hop Hj. destruct (ei_hops _ _ _ _ _ _ Hi _ _ Hj) as (b & h & Hb & Hh & -> & Hia).
    rewrite (mac_at_lookup _ _ _ _ _ _ _ _ Hk Hi Hia). by apply hop_info_authentic.
  - intros j. by apply hop_info_wf.
  - intros j. by rewrite (ei_cons _ _ _ _ _ _ Hi), (ei_peer _ _ _ _ _ _ Hi).
  - intros j hop hop' Hj Hj'. pose proof (lookup_lt_Some _ _ _ Hj). pose proof (lookup_lt_Some _ _ _ Hj').
    destruct (ei_hops _ _ _ _ _ _ Hi _ _ Hj) as (b & h & Hb & Hh & -> & _).
    destruct (ei_hops _ _ _ _ _ _ Hi _ _ Hj') as (b' & h' & Hb' & Hh' & -> & _).
    rewrite (ei_cons _ _ _ _ _ _ Hi). rewrite <- (peer_entry_is _ _ _ _ _ _ j Hi), <- (peer_entry_is _ _ _ _ _ _ (S j) Hi) by done.
    destruct (ei_len _ _ _ _ _ _ Hi) as [El _]. destruct (ei_sc _ _ _ _ _ _ Hi) as [_ Esc].
    destruct (IsDownSeg (segment_ se)) eqn:Ed; [by eapply chain_down|]. eapply chain_up; [done|lia|done..].
Qed.

(** The ASes at the ends of an edge between ASes. *)
Lemma edge_ends_ases k se :
  l !! k = Some se →
  ∃ i a lst, edge_ends (segment_ se) (src se) (dst se) (edge_ se) i a lst ∧ Local a ≠ 0 ∧
    head (Local <$> drop i (ASEntries (Segment_ (segment_ se)))) = Some (Local a) ∧
    last (Local <$> drop i (ASEntries (Segment_ (segment_ se)))) = Some (Local lst) ∧
    edge_ases se = (if IsDownSeg (segment_ se) then id else reverse) (Local <$> drop i (ASEntries (Segment_ (segment_ se)))).
Proof using Hl.
  intros Hk. destruct (ends_ok _ _ Hk) as (i & a & lst & He & Ha). exists i, a, lst. split_and!; [done|done| | |].
  - rewrite head_lookup, list_lookup_fmap, lookup_drop, Nat.add_0_r. by rewrite (ee_entry _ _ _ _ _ _ _ He).
  - pose proof (lookup_lt_Some _ _ _ (ee_entry _ _ _ _ _ _ _ He)) as Hlt. rewrite fmap_last, last_lookup, length_drop, lookup_drop.
    replace (i + _)%nat with (pred (length (ASEntries (Segment_ (segment_ se))))) by lia.
    rewrite <- last_lookup. by rewrite (ee_last _ _ _ _ _ _ _ He).
  - unfold edge_ases. rewrite (ee_shortcut _ _ _ _ _ _ _ He), Nat2Z.id. by destruct (IsDownSeg _).
Qed.

Lemma edge_head k se ia : l !! k = Some se → src se = vertexFromIA ia → head (edge_ases se) = Some ia.
Proof using Hl.
  intros Hk Hv. destruct (edge_ends_ases _ _ Hk) as (i & a & lst & [_ _ _ He] & Ha & Hh & Ht & ->). rewrite Hv in He.
  unfold IsDownSeg. destruct (Type_ (segment_ se)).
  - destruct He as [[= ->] _]. by rewrite bool_decide_false, head_reverse.
  - destruct He as (_ & _ & [= ->] & _). by rewrite bool_decide_false, head_reverse.
  - destruct He as (_ & far & Hf & E). assert (Peer (edge_ se) = 0) as Hp by (eapply far_end_as; [exact Ha|exact Hf|by right]).
    rewrite Hp in Hf. apply far_end_zero in Hf as [_ ->]. injection E as ->. by rewrite bool_decide_true.
Qed.
Lemma edge_tail k se ia : l !! k = Some se → dst se = vertexFromIA ia → last (edge_ases se) = Some ia.
Proof using Hl.
  intros Hk Hv. destruct (edge_ends_ases _ _ Hk) as (i & a & lst & [_ _ _ He] & Ha & Hh & Ht & ->). rewrite Hv in He.
  unfold IsDownSeg. destruct (Type_ (segment_ se)).
  - destruct He as (_ & Hf). assert (Peer (edge_ se) = 0) as Hp by (eapply far_end_as; [exact Ha|exact Hf|by left]).
    rewrite Hp in Hf. apply far_end_zero in Hf as [_ E]. injection E as ->. by rewrite bool_decide_false, last_reverse.
  - destruct He as (_ & _ & _ & [= ->]). by rewrite bool_decide_false, last_reverse.
  - destruct He as [[= ->] _]. by rewrite bool_decide_true.
Qed.

Lemma edge_two_hops k s se i a lst :
  edge_info k se s i a lst → ps_peer s = false → (2 ≤ length (ps_hops s))%nat.
Proof using Hl.
  intros Hi Hp. rewrite (ei_peer _ _ _ _ _ _ Hi) in Hp. apply negb_false_iff, Z.eqb_eq in Hp.
  destruct (ei_len _ _ _ _ _ _ Hi) as [-> _]. pose proof (ei_lt _ _ _ _ _ _ Hi) as Hlt.
  destruct (ei_ends _ _ _ _ _ _ Hi) as [_ _ _ He]. destruct (Type_ (segment_ se)) eqn:Ht.
  - destruct He as [_ Hf]. rewrite Hp in Hf. apply far_end_zero in Hf as [? _]. lia.
  - destruct He as [-> _]. pose proof (ge_core Hl _ _ (ei_edge _ _ _ _ _ _ Hi) Ht). lia.
  - destruct He as [_ (far & Hf & _)]. rewrite Hp in Hf. apply far_end_zero in Hf as [? _]. lia.
Qed.

Lemma path_authorised : authorised_path psegs mac_at.
Proof using Hkey Hl Hss.
  split.
  - intros g b. apply Hkey.
  - apply pseg_authorised.
  - intros k s Hk. destruct (psegs_info _ _ Hk) as (se & i & a & lst & Hi).
    destruct (ei_len _ _ _ _ _ _ Hi) as [El _]. pose proof (ei_lt _ _ _ _ _ _ Hi). split; [lia|].
    by eapply edge_two_hops.
  - intros k s Hk Hp. destruct (psegs_info _ _ Hk) as (se & i & a & lst & Hi).
    rewrite (ei_peer _ _ _ _ _ _ Hi) in Hp. apply negb_true_iff, Z.eqb_neq in Hp.
    destruct (peers_all _ _ (ei_edge _ _ _ _ _ _ Hi) Hp) as [Hlen Hf]. rewrite psegs_length. split; [done|].
    apply Forall_lookup. intros k' s' Hk'. destruct (psegs_info _ _ Hk') as (se' & i' & a' & lst' & Hi').
    rewrite (ei_peer _ _ _ _ _ _ Hi'). rewrite Forall_lookup in Hf. by rewrite (proj2 (Z.eqb_neq _ _) (Hf _ _ (ei_edge _ _ _ _ _ _ Hi'))).
  - intros k s Hk [s' Hk'] Hp. destruct (psegs_info _ _ Hk) as (se & i & a & lst & Hi).
    destruct (psegs_info _ _ Hk') as (se' & i' & a' & lst' & Hi').
    pose proof (ei_edge _ _ _ _ _ _ Hi) as He. pose proof (ei_edge _ _ _ _ _ _ Hi') as He'.
    rewrite (ei_peer _ _ _ _ _ _ Hi), negb_false_iff, Z.eqb_eq in Hp.
    destruct (no_peer_as _ _ He Hp) as [_ [y Hy]]. destruct (ge_next Hl _ _ _ He He') as [E _].
    pose proof (edge_tail _ _ _ He Hy) as Hlast. rewrite Hy in E. pose proof (edge_head _ _ _ He' (eq_sym E)) as Hhead.
    destruct (ei_len _ _ _ _ _ _ Hi) as [_ El]. rewrite last_lookup, <- El in Hlast. rewrite head_lookup in Hhead.
    rewrite (mac_at_lookup _ _ _ _ _ _ _ _ Hk Hi Hlast), <- (Nat.add_0_r (offset psegs (S k))).
    by rewrite (mac_at_lookup _ _ _ _ _ _ _ _ Hk' Hi' Hhead).
Qed.

Lemma path_ends s d :
  (∃ se, l !! 0%nat = Some se ∧ src se = vertexFromIA s) → (∃ se, last l = Some se ∧ dst se = vertexFromIA d) →
  head path_ases = Some s ∧ last path_ases = Some d.
Proof using Hl.
  intros (se & H0 & Hs) (se' & H1 & Hd). pose proof (edge_head _ _ _ H0 Hs) as Hh.
  pose proof H1 as H2. rewrite last_lookup in H2. pose proof (edge_tail _ _ _ H2 Hd) as Ht. split.
  - unfold path_ases. rewrite <- head_lookup in H0. apply head_Some in H0 as [l' El]. rewrite El. cbn.
    apply head_Some in Hh as [h' ->]. done.
  - unfold path_ases. apply last_Some in H1 as [l' El]. rewrite El, fmap_app, join_app. cbn. rewrite app_nil_r.
    apply last_Some in Ht as [h' ->]. by rewrite app_assoc, last_snoc.
Qed.

(** ** The path in the packet *)

Lemma at_most_three : (length l ≤ 3)%nat.
Proof using Hl.
  destruct (decide (length l ≤ 3)%nat) as [|Hn]; [done|]. exfalso.
  destruct (lookup_lt_is_Some_2 l 0%nat ltac:(lia)) as [s0 H0], (lookup_lt_is_Some_2 l 1%nat ltac:(lia)) as [s1 H1],
    (lookup_lt_is_Some_2 l 2%nat ltac:(lia)) as [s2 H2], (lookup_lt_is_Some_2 l 3%nat ltac:(lia)) as [s3 H3].
  destruct (next_types _ _ _ H0 H1) as [[? ?]|[? ?]], (next_types _ _ _ H1 H2) as [[? ?]|[? ?]],
    (next_types _ _ _ H2 H3) as [[? ?]|[? ?]]; congruence.
Qed.

Lemma all_hops_length : length (all_hops psegs) = length path_ases.
Proof using Hl Hss.
  unfold all_hops, path_ases. rewrite length_join_hops.
  assert (∀ k, (k ≤ length psegs)%nat →
    sum_list_with (λ s, length (ps_hops s)) (take k psegs) = length (mjoin (edge_ases <$> take k l))) as H.
  { induction k as [|k IH]; [done|]. intros Hlt. destruct (lookup_lt_is_Some_2 psegs k Hlt) as [s' Hs'].
    destruct (psegs_info _ _ Hs') as (se' & i' & a' & lst' & Hi').
    rewrite (take_S_r _ _ _ Hs'), (take_S_r _ _ _ (ei_edge _ _ _ _ _ _ Hi')), fmap_app, join_app, length_app, sum_list_with_app.
    rewrite IH by lia. cbn. rewrite app_nil_r. destruct (ei_len _ _ _ _ _ _ Hi'). lia. }
  specialize (H (length psegs) ltac:(lia)). rewrite psegs_length in H at 2. by rewrite !take_ge in H by done.
Qed.

Lemma psegs_hops : ps_hops <$> psegs = HopFields <$> ((λ x, x.1.1) <$> ss).
Proof using Hss.
  apply list_eq. intros k. rewrite !list_lookup_fmap. destruct (psegs !! k) as [s|] eqn:E.
  - apply psegs_lookup in E as (se & x & _ & -> & _ & ->). done.
  - destruct (ss !! k) as [x|] eqn:Ex; [|done]. apply lookup_ge_None in E. rewrite psegs_length in E.
    apply lookup_lt_Some in Ex. rewrite <- (Forall2_length _ _ _ Hss) in Ex. lia.
Qed.

Lemma psegs_infos : (λ s, ps_infos s 0%nat) <$> psegs = InfoField_ <$> ((λ x, x.1.1) <$> ss).
Proof using Hl Hss.
  apply list_eq. intros k. rewrite !list_lookup_fmap. destruct (psegs !! k) as [s|] eqn:E.
  - destruct (psegs_info _ _ E) as (se & i & a & lst & Hi).
    apply psegs_lookup in E as (se' & [[x au] mt] & Hk & -> & Hx & ->). rewrite (ei_edge _ _ _ _ _ _ Hi) in Hk. injection Hk as <-.
    destruct (ei_sc _ _ _ _ _ _ Hi) as [Esc Ei].
    destruct (edge_segment_spec se Esc _ _ _ Hx) as (Einfo & _).
    change (Some (hop_info se 0) = Some (InfoField_ x)). rewrite Einfo. f_equal. rewrite (calculateBeta_eq se Esc); [done|].
    rewrite Ei. apply (ei_lt _ _ _ _ _ _ Hi).
  - destruct (ss !! k) as [x|] eqn:Ex; [|done]. apply lookup_ge_None in E. rewrite psegs_length in E.
    apply lookup_lt_Some in Ex. rewrite <- (Forall2_length _ _ _ Hss) in Ex. lia.
Qed.

(** The path fits its header. *)
Hypothesis Hfit : Forall (λ se, (length (edge_ases se) < 64)%nat) l ∧ (length path_ases ≤ 64)%nat.

Lemma ps_hops_fit k s : psegs !! k = Some s → (0 < length (ps_hops s) < 64)%nat.
Proof using Hl Hss Hfit.
  intros Hk. destruct (psegs_info _ _ Hk) as (se & i & a & lst & Hi). destruct (ei_len _ _ _ _ _ _ Hi) as [E1 E2].
  pose proof (ei_lt _ _ _ _ _ _ Hi). destruct Hfit as [Hf _]. rewrite Forall_lookup in Hf.
  specialize (Hf _ _ (ei_edge _ _ _ _ _ _ Hi)). lia.
Qed.

Lemma decoded_path_eq : decoded_path ((λ x, x.1.1) <$> ss) = Ok (first_path psegs).
Proof using Hl Hss Hfit.
  unfold decoded_path, first_path. rewrite <- psegs_hops, psegs_infos.
  assert (set_SegLens (MetaHdr.mk 0 0 0 0 0) 0 ((λ x, x.1.1) <$> ss) =
    Ok (MetaHdr.mk 0 0 (seg_len psegs 0) (seg_len psegs 1) (seg_len psegs 2))) as ->.
  { assert (∀ k, u8 (seg_len psegs k) = seg_len psegs k) as Hu.
    { intros k. unfold seg_len. destruct (psegs !! k) as [s|] eqn:E; [|done]. apply ps_hops_fit in E.
      apply uint_of_small. unfold is_uint, len. lia. }
    assert (∀ k, seg_len psegs k = match ((λ x, x.1.1) <$> ss) !! k with Some s => len (HopFields s) | None => 0 end) as Hs.
    { intros k. unfold seg_len. pose proof (f_equal (.!! k) psegs_hops) as E. cbn in E. rewrite !list_lookup_fmap in E.
      rewrite list_lookup_fmap. destruct (psegs !! k), (ss !! k); cbn in *; congruence. }
    assert (length ((λ x, x.1.1) <$> ss) ≤ 3)%nat as H3.
    { rewrite length_fmap, <- (Forall2_length _ _ _ Hss). apply at_most_three. }
    pose proof (Hu 0%nat) as U0. pose proof (Hu 1%nat) as U1. pose proof (Hu 2%nat) as U2. clear Hu.
    rewrite !Hs in *. clear Hs. destruct ((λ x, x.1.1) <$> ss) as [|x [|y [|z [|? ?]]]]; cbn in *; rewrite ?U0, ?U1, ?U2; try done. lia. }
  go_cbn. do 2 f_equal. f_equal. unfold len. rewrite length_fmap, psegs_length, (Forall2_length _ _ _ Hss). done.
Qed.

Lemma first_path_wf : Decoded.wf (first_path psegs).
Proof using Hl Hss Hfit.
  assert (∀ k, 0 ≤ seg_len psegs k < 64 ∧ (0 < seg_len psegs k ↔ (k < length psegs)%nat)) as Hs.
  { intros k. unfold seg_len. destruct (psegs !! k) as [s|] eqn:E.
    - pose proof (lookup_lt_Some _ _ _ E). apply ps_hops_fit in E. unfold len. lia.
    - apply lookup_ge_None in E. lia. }
  assert (length psegs ≤ 3)%nat as H3 by (rewrite psegs_length; apply at_most_three).
  pose proof all_hops_length as Hall. destruct Hfit as [_ Htot].
  assert (Z.of_nat (length (all_hops psegs)) = seg_len psegs 0 + seg_len psegs 1 + seg_len psegs 2) as Hsum.
  { unfold all_hops. rewrite length_join_hops. unfold seg_len. clear -H3. destruct psegs as [|x [|y [|z [|? ?]]]]; cbn in *; unfold len; lia. }
  destruct (Hs 0%nat), (Hs 1%nat), (Hs 2%nat). split; cbn.
  - split; [by split|]. split; cbn; [lia|lia| |unfold len; lia|unfold len, MaxHops in *; lia].
    unfold len. repeat case_match; lia.
  - unfold len. by rewrite length_fmap.
  - done.
  - apply Forall_fmap, Forall_lookup. intros k s Hk. cbn. apply (sa_wf _ _ _ _ (pseg_authorised _ _ Hk)).
  - unfold all_hops. apply Forall_lookup. intros g hop Hg. apply list_elem_of_lookup_2 in Hg.
    apply list_elem_of_join in Hg as (hs & Hg & Hin). apply list_elem_of_fmap in Hin as (s & -> & Hs').
    apply list_elem_of_lookup in Hs' as [k Hk]. apply list_elem_of_lookup in Hg as [j Hj].
    destruct (psegs_info _ _ Hk) as (se & i & a & lst & Hi).
    destruct (ei_hops _ _ _ _ _ _ Hi _ _ Hj) as (b & h & Hb & Hh & -> & _). apply hop_field_wf.
    eapply hop_at_ok; [apply (ei_ok _ _ _ _ _ _ Hi)|exact Hb|exact Hh].
Qed.
End path.

(** ** The paths of Combine *)

Lemma edge_segments_Forall2 l ss : edge_segments l = Ok ss → Forall2 (λ se x, edge_segment se = Ok x) l ss.
Proof.
  revert ss. induction l as [|se l IH]; intros ss H; [injection H as <-; constructor|].
  cbn [edge_segments] in H. apply bind_Ok in H as (x & Hx & H). apply bind_Ok in H as (xs & Hxs & [= <-]).
  constructor; [done|by apply IH].
Qed.

Lemma inputs_segment ups cores downs s :
  s ∈ inputs ups cores downs →
  Segment_ s ∈ ups ++ cores ++ downs ∧ (Type_ s = PathSegType_core → Segment_ s ∈ cores).
Proof.
  unfold inputs. intros (i & [x ty] & -> & Hi)%elem_of_lookup_imap. cbn. apply list_elem_of_lookup_2 in Hi.
  set_solver.
Qed.

(** A path fits the fields of its header. *)
Definition fits (l : list solutionEdge) : Prop :=
  Forall (λ se, (length (edge_ases se) < 64)%nat) l ∧ (length (path_ases l) ≤ 64)%nat.

(** The segments are chained, for the MAC functions [key] of the ASes, and of two
    ASes at least when they are core segments. *)
Record segments_ok (key : Z → bytes → bytes) (ups cores downs : list PathSegment) : Prop := {
  sg_segments ps : ps ∈ ups ++ cores ++ downs → ASEntries ps ≠ [] ∧ chained_segment key ps ∧ segment_ok ps;
  sg_cores ps : ps ∈ cores → (2 ≤ length (ASEntries ps))%nat
}.

Section combine.
Context (order_vertices : nat → vertexInfo → list (vertex * edgeMap)).
Context (order_edges : nat → vertex → edgeMap → list (nat * (inputSegment * edge))).
Context (sha256 : bytes → bytes).
Context (sort_Sort : (pathSolution → pathSolution → bool) → list pathSolution → list pathSolution).
Hypothesis vertices_perm : ∀ n m, order_vertices n m ≡ₚ map_to_list m.
Hypothesis edges_perm : ∀ n v m, order_edges n v m ≡ₚ map_to_list m.
Hypothesis sorted : sorts sort_Sort.

Lemma solution_good key ups cores downs s d g sols x :
  segments_ok key ups cores downs →
  newDMG ups cores downs = Ok g →
  GetPaths order_vertices order_edges sha256 sort_Sort g (vertexFromIA s) (vertexFromIA d) = Some sols → x ∈ sols →
  good_edges key (edges x) ∧
  (∃ se, edges x !! 0%nat = Some se ∧ src se = vertexFromIA s) ∧ (∃ se, last (edges x) = Some se ∧ dst se = vertexFromIA d).
Proof using vertices_perm edges_perm sorted.
  intros [Hok Hcore] Hg Hsols Hx.
  destruct (GetPaths_lemma order_vertices order_edges sha256 sort_Sort ups cores downs (vertexFromIA s) (vertexFromIA d)
    vertices_perm edges_perm sorted) as (g' & sols' & Hg' & Hlink & Hsols' & Hspec & _ & _).
  { apply Forall_forall. intros ps Hps. by apply Hok. }
  rewrite Hg in Hg'. injection Hg' as <-. rewrite Hsols in Hsols'. injection Hsols' as <-.
  apply Hspec in Hx as [(He & Hn & Hf & Hd)%trail_edges _].
  assert (∀ k se, edges x !! k = Some se → segment_ se ∈ inputs ups cores downs ∧
    link (segment_ se) (src se) (dst se) (edge_ se)) as Hin by (intros k se Hk; apply Hlink; by apply (He k)).
  split_and!; [split| |done].
  - intros k se Hk. destruct (Hin _ _ Hk) as [Hi Hlk]. destruct (inputs_segment _ _ _ _ Hi) as [Hps _].
    destruct (Hok _ Hps) as (_ & ? & ?). split_and!; [done..|]. by apply link_ends.
  - intros k se Hk Ht. destruct (Hin _ _ Hk) as [Hi _]. apply Hcore. by apply (inputs_segment _ _ _ _ Hi).
  - exact Hn.
  - destruct Hf as (se & Hse & Hs & _). eauto.
  - destruct Hd as (se & Hse & Hs). eauto.
  - destruct Hf as (se & Hse & Hs & _). eauto.
Qed.

(** The decoded path of a solution. *)
Lemma solution_decoded `{Crypto} order key l x path :
  good_edges key l → fits l → edges x = l → solution_Path order x = Ok path →
  ∃ ss, Forall2 (λ se x, edge_segment se = Ok x) l ss ∧ Decoded.wf (first_path (psegs l ss)) ∧
    Decoded.DecodeFromBytes (SCIONPath path) = Ok (first_path (psegs l ss)).
Proof.
  intros Hl Hfit <- Hp. unfold solution_Path in Hp. apply bind_Ok in Hp as (ss & Hss%edge_segments_Forall2 & Hp).
  cbv zeta in Hp. apply bind_Ok in Hp as (si & _ & Hp). apply bind_Ok in Hp as (raw & Hraw & [= <-]). cbn [SCIONPath].
  exists ss. pose proof (first_path_wf key _ _ Hl Hss Hfit) as Hw. split_and!; [done..|].
  unfold ScionPath in Hraw. rewrite (decoded_path_eq key _ _ Hl Hss Hfit) in Hraw. cbn [mbind outcome_bind] in Hraw.
  rewrite Decoded.dec_SerializeTo_Ok in Hraw; [|done|].
  - cbn [must] in Hraw. apply Ok_inj in Hraw as <-. by apply Decoded.dec_DecodeFromBytes_encode.
  - pose proof (Base.Len_range _ (Decoded.wf_base _ Hw)). unfold MetaLen in *. rewrite len_make_bytes; [done|].
    unfold Decoded.Len. lia.
Qed.

Section travel.
Context (aes_Encrypt : bytes → bytes → bytes).
Context (netip_ParseAddr : gostring → outcome IP.t) (netip_String : IP.t → gostring).
Context (NewPacket : bytes → L4.LayerType → list LocalDelivery.Layer) (intn : Z → Z).

End travel.
End combine.

(** ** Witness: the path over the peering link *)

Definition path1 : outcome Path :=
  match solutions !! 0%nat with Some x => @solution_Path toy_crypto in_order x | None => Panic end.

Ltac check_hop := split; cbn; [ulia..|split; [repeat constructor; ulia|done]].
Ltac check_entry := split; [done|]; split; [check_hop|repeat (apply Forall_cons; split; [check_hop|]); apply Forall_nil_2].

Lemma beacon2_ok : chained_segment toy_key beacon2 ∧ segment_ok beacon2.
Proof.
  split.
  - intros [|[|i]] e He; vm_compute in He; [injection He as <-..|discriminate];
      (split; [vm_compute; reflexivity|repeat (apply Forall_cons; split; [split; vm_compute; reflexivity|]); apply Forall_nil_2]).
  - split; [vm_compute; done|]. apply Forall_lookup.
    intros [|[|i]] e He; vm_compute in He; [injection He as <-..|discriminate]; check_entry.
Qed.
Lemma beacon3_ok : chained_segment toy_key beacon3 ∧ segment_ok beacon3.
Proof.
  split.
  - intros [|[|i]] e He; vm_compute in He; [injection He as <-..|discriminate];
      (split; [vm_compute; reflexivity|repeat (apply Forall_cons; split; [split; vm_compute; reflexivity|]); apply Forall_nil_2]).
  - split; [vm_compute; done|]. apply Forall_lookup.
    intros [|[|i]] e He; vm_compute in He; [injection He as <-..|discriminate]; check_entry.
Qed.

Lemma example_segments_ok : segments_ok toy_key [beacon2] [] [beacon3].
Proof.
  split; [|by intros ps ?%not_elem_of_nil].
  intros ps [->|[->|?%not_elem_of_nil]%elem_of_cons]%elem_of_cons; [| |done];
    (split; [vm_compute; discriminate|]); [apply beacon2_ok|apply beacon3_ok].
Qed.

Definition no_layers (b : bytes) (t : L4.LayerType) : list LocalDelivery.Layer := [].
Definition no_addr (s : gostring) : outcome IP.t := Err [].

Lemma default_Some {A} (o : option (list A)) i x : default [] o !! i = Some x → o = Some (default [] o).
Proof. by destruct o. Qed.


End CombinedPath.
