(* ===== verification/PathSequence.v ===== *)
(** The sequences of the path policy language, [private/path/pathpol/sequence.go]:
    Module [Regexp] has the regular expressions that are made of them, Module
    [Sequence] the translation and the evaluation, and Module [SequenceProperties]
    shows that matching the text of a path against the expression is matching its
    hops against the sequence. *)
From S2P Require Export Addr PathMetadata.

(** * Regular expressions, the part of package regexp that is used *)
Module Regexp.

(** Syntax, as it is written: literal characters, a class of characters with its
    text, [rs], [r|s], groups, [r?], [r+], [r*].  [Nothing] is not written; it is
    what remains when a match is impossible. *)
Inductive t :=
| Nothing
| Chars (s : gostring)
| Class (text : gostring) (p : ascii → bool)
| Cat (r s : t)
| Alt (r s : t)
| Group (r : t)
| Opt (r : t)
| Plus (r : t)
| Star (r : t).

Fixpoint print (r : t) : gostring :=
  match r with
  | Nothing => []
  | Chars s => s
  | Class text _ => text
  | Cat r s => print r ++ print s
  | Alt r s => print r ++ str "|" ++ print s
  | Group r => str "(" ++ print r ++ str ")"
  | Opt r => print r ++ str "?"
  | Plus r => print r ++ str "+"
  | Star r => print r ++ str "*"
  end.

(** What an expression matches, from the start to the end of a text. *)
Inductive lang : t → gostring → Prop :=
| lang_chars s : lang (Chars s) s
| lang_class text p c : p c = true → lang (Class text p) [c]
| lang_cat r s a b : lang r a → lang s b → lang (Cat r s) (a ++ b)
| lang_alt_l r s a : lang r a → lang (Alt r s) a
| lang_alt_r r s a : lang s a → lang (Alt r s) a
| lang_group r a : lang r a → lang (Group r) a
| lang_opt_none r : lang (Opt r) []
| lang_opt_some r a : lang r a → lang (Opt r) a
| lang_plus_one r a : lang r a → lang (Plus r) a
| lang_plus_more r a b : lang r a → lang (Plus r) b → lang (Plus r) (a ++ b)
| lang_star_none r : lang (Star r) []
| lang_star_more r a b : lang r a → lang (Star r) b → lang (Star r) (a ++ b).

Fixpoint nullable (r : t) : bool :=
  match r with
  | Nothing | Class _ _ => false
  | Chars s => bool_decide (s = [])
  | Cat r s => nullable r && nullable s
  | Alt r s => nullable r || nullable s
  | Group r | Plus r => nullable r
  | Opt _ | Star _ => true
  end.

Definition cat (r s : t) : t := match r with Nothing => Nothing | _ => Cat r s end.
Definition alt (r s : t) : t := match r, s with Nothing, _ => s | _, Nothing => r | _, _ => Alt r s end.

(** What remains to be matched after a character. *)
Fixpoint deriv (c : ascii) (r : t) : t :=
  match r with
  | Nothing => Nothing
  | Chars [] => Nothing
  | Chars (d :: s) => if bool_decide (c = d) then Chars s else Nothing
  | Class _ p => if p c then Chars [] else Nothing
  | Cat r s => if nullable r then alt (cat (deriv c r) s) (deriv c s) else cat (deriv c r) s
  | Alt r s => alt (deriv c r) (deriv c s)
  | Group r | Opt r => deriv c r
  | Plus r => cat (deriv c r) (Star r)
  | Star r => cat (deriv c r) (Star r)
  end.

(** [MatchString] of the expression between ^ and $. *)
Fixpoint MatchString (r : t) (s : gostring) : bool :=
  match s with [] => nullable r | c :: s => MatchString (deriv c r) s end.

(** ** The matcher is right *)

Lemma lang_cat_iff r s a : lang (Cat r s) a ↔ ∃ b c, a = b ++ c ∧ lang r b ∧ lang s c.
Proof. split; [inversion 1; eauto|]. intros (b & c & -> & Hb & Hc). by constructor. Qed.
Lemma lang_alt_iff r s a : lang (Alt r s) a ↔ lang r a ∨ lang s a.
Proof. split; [inversion 1; eauto|]. intros [H|H]; by constructor. Qed.
Lemma lang_group_iff r a : lang (Group r) a ↔ lang r a.
Proof. split; [by inversion 1|by constructor]. Qed.
Lemma lang_opt_iff r a : lang (Opt r) a ↔ a = [] ∨ lang r a.
Proof. split; [inversion 1; eauto|]. intros [->|H]; by constructor. Qed.
Lemma lang_chars_iff s a : lang (Chars s) a ↔ a = s.
Proof. split; [by inversion 1|]. intros ->. constructor. Qed.
Lemma lang_class_iff text p a : lang (Class text p) a ↔ ∃ c, a = [c] ∧ p c = true.
Proof. split; [inversion 1; eauto|]. intros (c & -> & H). by constructor. Qed.
Lemma lang_plus_iff r a : lang (Plus r) a ↔ ∃ b c, a = b ++ c ∧ lang r b ∧ lang (Star r) c.
Proof.
  split.
  - intros H. remember (Plus r) as e eqn:He. induction H; try discriminate He; injection He as ->.
    + exists a, []. rewrite app_nil_r. split_and!; [done|done|constructor].
    + destruct (IHlang2 eq_refl) as (b' & c' & -> & Hb & Hc). exists a, (b' ++ c'). split_and!; [done|done|by constructor].
  - intros (b & c & -> & Hb & Hc). revert b Hb. remember (Star r) as e eqn:He.
    induction Hc; try discriminate He; injection He as ->; intros b0 Hb.
    + rewrite app_nil_r. by constructor.
    + apply lang_plus_more; [done|]. by apply IHHc2.
Qed.

Lemma nullable_spec r : nullable r = true ↔ lang r [].
Proof.
  induction r as [|s|text p|r IHr s IHs|r IHr s IHs|r IHr|r IHr|r IHr|r IHr]; cbn.
  - split; [done|inversion 1].
  - rewrite bool_decide_eq_true, lang_chars_iff. done.
  - rewrite lang_class_iff. split; [done|]. by intros (c & ? & _).
  - rewrite andb_true_iff, IHr, IHs, lang_cat_iff. split; [intros [? ?]; by exists [], []|].
    by intros (b & c & [-> ->]%symmetry%app_nil & ? & ?).
  - by rewrite orb_true_iff, IHr, IHs, lang_alt_iff.
  - by rewrite IHr, lang_group_iff.
  - split; [constructor|done].
  - rewrite IHr, lang_plus_iff. split; [intros H; exists [], []; split_and!; [done|done|constructor]|].
    by intros (b & c & [-> ->]%symmetry%app_nil & ? & ?).
  - split; [constructor|done].
Qed.

Lemma cat_spec r s a : lang (cat r s) a ↔ lang (Cat r s) a.
Proof. destruct r; try done. split; [inversion 1|]. rewrite lang_cat_iff. intros (b & c & _ & H & _). inversion H. Qed.
Lemma alt_spec r s a : lang (alt r s) a ↔ lang r a ∨ lang s a.
Proof.
  assert (∀ b, ¬ lang Nothing b) as Hn by (intros b H; inversion H).
  destruct r, s; cbn; rewrite ?lang_alt_iff; naive_solver.
Qed.

Lemma lang_star_cons r c a : lang (Star r) (c :: a) ↔ ∃ b d, a = b ++ d ∧ lang r (c :: b) ∧ lang (Star r) d.
Proof.
  split.
  - intros H. remember (Star r) as e eqn:He. remember (c :: a) as x eqn:Hx. revert a Hx.
    induction H; intros a0 Hx; try discriminate He; try discriminate Hx; injection He as ->.
    destruct a as [|c' a]; cbn in Hx; [by apply IHlang2|]. injection Hx as -> <-. by exists a, b.
  - intros (b & d & -> & Hb & Hd). rewrite app_comm_cons. by constructor.
Qed.

Lemma deriv_spec c r a : lang (deriv c r) a ↔ lang r (c :: a).
Proof.
  revert a. induction r as [|s|text p|r IHr s IHs|r IHr s IHs|r IHr|r IHr|r IHr|r IHr]; intros a; cbn [deriv].
  - split; inversion 1.
  - destruct s as [|d s]; [split; inversion 1|]. rewrite lang_chars_iff. case_bool_decide as E.
    + rewrite lang_chars_iff, E. split; [by intros ->|by intros [= ->]].
    + split; [inversion 1|]. by intros [= -> _].
  - rewrite lang_class_iff. destruct (p c) eqn:E.
    + rewrite lang_chars_iff. split; [intros ->; by exists c|]. by intros (d & [= _ ->] & _).
    + split; [inversion 1|]. intros (d & [= -> _] & H). congruence.
  - assert (lang (cat (deriv c r) s) a ↔ ∃ b d, a = b ++ d ∧ lang r (c :: b) ∧ lang s d) as Hcat.
    { rewrite cat_spec, lang_cat_iff. by setoid_rewrite IHr. }
    assert (lang (Cat r s) (c :: a) ↔ (lang r [] ∧ lang s (c :: a)) ∨ ∃ b d, a = b ++ d ∧ lang r (c :: b) ∧ lang s d) as ->.
    { rewrite lang_cat_iff. split.
      - intros ([|c' b] & d & E & Hb & Hd); cbn in E; [subst d; by left|]. injection E as <- ->. right. by exists b, d.
      - intros [[Hr Hs]|(b & d & -> & Hb & Hd)]; [by exists [], (c :: a)|by exists (c :: b), d]. }
    destruct (nullable r) eqn:E.
    + rewrite alt_spec, Hcat, IHs. apply nullable_spec in E. tauto.
    + rewrite Hcat. assert (¬ lang r []) by (rewrite <- nullable_spec; congruence). tauto.
  - by rewrite alt_spec, IHr, IHs, lang_alt_iff.
  - by rewrite IHr, lang_group_iff.
  - rewrite IHr, lang_opt_iff. split; [by right|]. by intros [?|?].
  - rewrite cat_spec, lang_cat_iff, lang_plus_iff. setoid_rewrite IHr. split.
    + intros (b & d & -> & Hb & Hd). by exists (c :: b), d.
    + intros ([|c' b] & d & E & Hb & Hd); cbn in E.
      * subst d. apply lang_star_cons in Hd as (b & d & -> & Hb' & Hd). by exists b, d.
      * injection E as <- ->. by exists b, d.
  - rewrite cat_spec, lang_cat_iff, lang_star_cons. by setoid_rewrite IHr.
Qed.

Lemma MatchString_spec r s : MatchString r s = true ↔ lang r s.
Proof. revert r. induction s as [|c s IH]; intros r; cbn; [apply nullable_spec|]. by rewrite IH, deriv_spec. Qed.

End Regexp.

(** * sequence.go *)
Module Sequence.

Import Regexp.

(** The syntax tree of a sequence, with the texts of its tokens. *)
Inductive isd := WildcardISD | ISD (text : gostring).
Inductive as_ := WildcardAS | LegacyAS (text : gostring) | AS (text : gostring).
Inductive iface := WildcardIFace | IFace (text : gostring).
Inductive onehop :=
| ISDHop (i : isd)
| ISDASHop (i : isd) (a : as_)
| ISDASIFHop (i : isd) (a : as_) (x : iface)
| ISDASIFIFHop (i : isd) (a : as_) (x y : iface).
Inductive tree :=
| QuestionMark (s : tree)
| PlusSign (s : tree)
| Asterisk (s : tree)
| Or (s u : tree)
| Concatenation (s u : tree)
| Parentheses (s : tree)
| Hop (h : onehop).

Definition between (lo hi c : ascii) : bool := (byte_of lo <=? byte_of c) && (byte_of c <=? byte_of hi).
Definition decimal (c : ascii) : bool := between "0" "9" c.
Definition hexadecimal (c : ascii) : bool := between "0" "9" c || between "a" "f" c || between "A" "F" c.

Definition decimals : Regexp.t := Plus (Class (str "[0-9]") decimal).
Definition hexadecimals : Regexp.t := Plus (Class (str "[0-9a-fA-F]") hexadecimal).
Definition isdWildcard : Regexp.t := Group decimals.
Definition asWildcard : Regexp.t :=
  Group (Alt (Group decimals)
    (Group (Cat hexadecimals (Cat (Chars (str ":")) (Cat hexadecimals (Cat (Chars (str ":")) hexadecimals)))))).
Definition ifWildcard : Regexp.t := Group decimals.

(** The stack of the listener, its top first. *)
Definition push (r : Regexp.t) (stack : list Regexp.t) : list Regexp.t := r :: stack.
Definition pop (stack : list Regexp.t) : Regexp.t * list Regexp.t :=
  match stack with [] => (Chars (str "X"), []) | r :: stack => (r, stack) end.

(** [%s-%s#...] in a group *)
Definition isd_as (isd as_ ifs : Regexp.t) : Regexp.t :=
  Group (Cat isd (Cat (Chars (str "-")) (Cat as_ (Cat (Chars (str "#")) ifs)))).
(** [%s,%s] *)
Definition if_if (x y : Regexp.t) : Regexp.t := Cat x (Cat (Chars (str ",")) y).

Definition ExitStart (st : list Regexp.t) := let '(re, st) := pop st in push re st.
Definition ExitQuestionMark (st : list Regexp.t) := let '(re, st) := pop st in push (Opt (Group re)) st.
Definition ExitPlus (st : list Regexp.t) := let '(re, st) := pop st in push (Plus (Group re)) st.
Definition ExitAsterisk (st : list Regexp.t) := let '(re, st) := pop st in push (Star (Group re)) st.
Definition ExitOr (st : list Regexp.t) :=
  let '(right_, st) := pop st in let '(left_, st) := pop st in push (Group (Alt left_ right_)) st.
Definition ExitConcatenation (st : list Regexp.t) :=
  let '(right_, st) := pop st in let '(left_, st) := pop st in push (Group (Cat left_ right_)) st.
Definition ExitParentheses (st : list Regexp.t) := let '(re, st) := pop st in push re st.
Definition ExitHop (st : list Regexp.t) := let '(re, st) := pop st in push (Group (Cat re (Plus (Chars (str " "))))) st.
Definition ExitISDHop (st : list Regexp.t) :=
  let '(isd, st) := pop st in push (isd_as isd asWildcard (if_if ifWildcard ifWildcard)) st.
Definition ExitISDASHop (st : list Regexp.t) :=
  let '(as_, st) := pop st in let '(isd, st) := pop st in push (isd_as isd as_ (if_if ifWildcard ifWildcard)) st.
Definition ExitISDASIFHop (st : list Regexp.t) :=
  let '(iface, st) := pop st in let '(as_, st) := pop st in let '(isd, st) := pop st in
  push (isd_as isd as_ (Group (Alt (Group (if_if ifWildcard iface)) (Group (if_if iface ifWildcard))))) st.
Definition ExitISDASIFIFHop (st : list Regexp.t) :=
  let '(ifout, st) := pop st in let '(ifin, st) := pop st in let '(as_, st) := pop st in let '(isd, st) := pop st in
  push (isd_as isd as_ (if_if ifin ifout)) st.
Definition ExitWildcardISD (st : list Regexp.t) := push isdWildcard st.
Definition ExitISD (text : gostring) (st : list Regexp.t) := push (Chars text) st.
Definition ExitWildcardAS (st : list Regexp.t) := push asWildcard st.
(** Without the dash, which is part of the token. *)
Definition ExitLegacyAS (text : gostring) (st : list Regexp.t) := push (Chars (drop 1 text)) st.
Definition ExitAS (text : gostring) (st : list Regexp.t) := push (Chars (drop 1 text)) st.
Definition ExitWildcardIFace (st : list Regexp.t) := push ifWildcard st.
Definition ExitIFace (text : gostring) (st : list Regexp.t) := push (Chars text) st.

(** The walk over the tree: a node is left after its children, in order. *)
Definition walk_isd (i : isd) (st : list Regexp.t) := match i with WildcardISD => ExitWildcardISD st | ISD t => ExitISD t st end.
Definition walk_as (a : as_) (st : list Regexp.t) :=
  match a with WildcardAS => ExitWildcardAS st | LegacyAS t => ExitLegacyAS t st | AS t => ExitAS t st end.
Definition walk_iface (x : iface) (st : list Regexp.t) :=
  match x with WildcardIFace => ExitWildcardIFace st | IFace t => ExitIFace t st end.
Definition walk_onehop (h : onehop) (st : list Regexp.t) :=
  match h with
  | ISDHop i => ExitISDHop (walk_isd i st)
  | ISDASHop i a => ExitISDASHop (walk_as a (walk_isd i st))
  | ISDASIFHop i a x => ExitISDASIFHop (walk_iface x (walk_as a (walk_isd i st)))
  | ISDASIFIFHop i a x y => ExitISDASIFIFHop (walk_iface y (walk_iface x (walk_as a (walk_isd i st))))
  end.
Fixpoint walk_tree (s : tree) (st : list Regexp.t) : list Regexp.t :=
  match s with
  | QuestionMark s => ExitQuestionMark (walk_tree s st)
  | PlusSign s => ExitPlus (walk_tree s st)
  | Asterisk s => ExitAsterisk (walk_tree s st)
  | Or s u => ExitOr (walk_tree u (walk_tree s st))
  | Concatenation s u => ExitConcatenation (walk_tree u (walk_tree s st))
  | Parentheses s => ExitParentheses (walk_tree s st)
  | Hop h => ExitHop (walk_onehop h st)
  end.

(** The text of the expression, as it is compiled. *)
Definition anchored (r : Regexp.t) : gostring := str "^" ++ print r ++ str "$".

(** [Sequence]: the compiled expression, its source, and its text. *)
Record t := mk {
  re : option Regexp.t;
  srcstr : gostring;
  restr : gostring
}.

Section parser.
(** The parser that is generated from the grammar: the tree, or messages. *)
Context (parse : gostring → outcome tree).

Definition NewSequence (s : gostring) : outcome t :=
  if bool_decide (s = []) then Ok (mk None [] []) else
  match parse s with
  | Ok tr => match last (ExitStart (walk_tree tr [])) with
             | Some r => Ok (mk (Some r) s (anchored r))
             | None => Panic
             end
  | Err _ => Err (New "Failed to parse a sequence")
  | Panic => Panic
  end.
End parser.

Definition hop (ia ingress egress : Z) : gostring :=
  ISDAS.IA_String ia ++ str "#" ++ FormatUint ingress 10 ++ str "," ++ FormatUint egress 10.

(** The hops after the first interface. *)
Fixpoint later_hops (ifaces : list PathMetadata.PathInterface) : list gostring :=
  match ifaces with
  | i :: j :: rest => hop (PathMetadata.IA i) (PathMetadata.ID i) (PathMetadata.ID j) :: later_hops rest
  | [i] => [hop (PathMetadata.IA i) (PathMetadata.ID i) 0]
  | [] => []
  end.

(** [strings.Join] with a separator. *)
Fixpoint Join (l : list gostring) (sep : gostring) : gostring :=
  match l with [] => [] | [s] => s | s :: l => s ++ sep ++ Join l sep end.

Definition GetSequence (ifaces : list PathMetadata.PathInterface) : outcome gostring :=
  if negb (len ifaces mod 2 =? 0) then Err (New "Invalid path with odd number of hops") else
  match ifaces with
  | [] => Ok []
  | i :: rest => Ok (Join (hop (PathMetadata.IA i) 0 (PathMetadata.ID i) :: later_hops rest) (str " "))
  end.

Definition String (s : t) : gostring := srcstr s.

(** Whether a path with these interfaces is kept. *)
Definition keeps (s : t) (ifaces : list PathMetadata.PathInterface) : outcome bool :=
  match GetSequence ifaces with
  | Ok desc =>
      let desc := if bool_decide (desc = []) then desc else desc ++ str " " in
      match re s with Some r => Ok (MatchString r desc) | None => Panic end
  | Err _ => Ok false
  | Panic => Panic
  end.

Section eval.
(** The paths of package snet, and the interfaces in their metadata. *)
Context {Path : Type} (Interfaces : Path → list PathMetadata.PathInterface).

Fixpoint eval_paths (s : t) (paths : list Path) : outcome (list Path) :=
  match paths with
  | [] => Ok []
  | path :: paths =>
      kept ← keeps s (Interfaces path);
      result ← eval_paths s paths;
      Ok (if kept : bool then path :: result else result)
  end.

(** The receiver may be nil. *)
Definition Eval (s : option t) (paths : list Path) : outcome (list Path) :=
  match s with
  | None => Ok paths
  | Some s => if bool_decide (srcstr s = []) then Ok paths else eval_paths s paths
  end.
End eval.

End Sequence.

(** * Properties *)
Module SequenceProperties.

Import Regexp Sequence.

(** ** The compiled expression *)

Definition isd_re (i : isd) : Regexp.t := match i with WildcardISD => isdWildcard | ISD t => Chars t end.
Definition as_re (a : as_) : Regexp.t := match a with WildcardAS => asWildcard | LegacyAS t | AS t => Chars (drop 1 t) end.
Definition if_re (x : iface) : Regexp.t := match x with WildcardIFace => ifWildcard | IFace t => Chars t end.
Definition ifs_re (h : onehop) : Regexp.t :=
  match h with
  | ISDHop _ | ISDASHop _ _ => if_if ifWildcard ifWildcard
  | ISDASIFHop _ _ x => Group (Alt (Group (if_if ifWildcard (if_re x))) (Group (if_if (if_re x) ifWildcard)))
  | ISDASIFIFHop _ _ x y => if_if (if_re x) (if_re y)
  end.
Definition isd_of (h : onehop) : isd := match h with ISDHop i | ISDASHop i _ | ISDASIFHop i _ _ | ISDASIFIFHop i _ _ _ => i end.
Definition as_of (h : onehop) : as_ := match h with ISDHop _ => WildcardAS | ISDASHop _ a | ISDASIFHop _ a _ | ISDASIFIFHop _ a _ _ => a end.
Definition onehop_re (h : onehop) : Regexp.t := isd_as (isd_re (isd_of h)) (as_re (as_of h)) (ifs_re h).
Fixpoint compile (s : tree) : Regexp.t :=
  match s with
  | QuestionMark s => Opt (Group (compile s))
  | PlusSign s => Plus (Group (compile s))
  | Asterisk s => Star (Group (compile s))
  | Or s u => Group (Alt (compile s) (compile u))
  | Concatenation s u => Group (Cat (compile s) (compile u))
  | Parentheses s => compile s
  | Hop h => Group (Cat (onehop_re h) (Plus (Chars (str " "))))
  end.

Lemma walk_isd_eq i st : walk_isd i st = isd_re i :: st. Proof. by destruct i. Qed.
Lemma walk_as_eq a st : walk_as a st = as_re a :: st. Proof. by destruct a. Qed.
Lemma walk_iface_eq x st : walk_iface x st = if_re x :: st. Proof. by destruct x. Qed.
Lemma walk_onehop_eq h st : walk_onehop h st = onehop_re h :: st.
Proof. destruct h; cbn; by rewrite ?walk_iface_eq, ?walk_as_eq, walk_isd_eq. Qed.
Lemma walk_tree_eq s st : walk_tree s st = compile s :: st.
Proof.
  revert st. induction s; intros st; cbn; rewrite ?IHs, ?IHs1, ?IHs2, ?walk_onehop_eq; try done.
Qed.

(** ** What a sequence means *)

(** The lists that a sequence denotes, for a meaning of its single hops. *)
Inductive denotes {W : Type} (P : onehop → W → Prop) : tree → list W → Prop :=
| den_hop h w : P h w → denotes P (Hop h) [w]
| den_quest_none s : denotes P (QuestionMark s) []
| den_quest_some s l : denotes P s l → denotes P (QuestionMark s) l
| den_plus_one s l : denotes P s l → denotes P (PlusSign s) l
| den_plus_more s l k : denotes P s l → denotes P (PlusSign s) k → denotes P (PlusSign s) (l ++ k)
| den_star_none s : denotes P (Asterisk s) []
| den_star_more s l k : denotes P s l → denotes P (Asterisk s) k → denotes P (Asterisk s) (l ++ k)
| den_or_l s u l : denotes P s l → denotes P (Or s u) l
| den_or_r s u l : denotes P u l → denotes P (Or s u) l
| den_concat s u l k : denotes P s l → denotes P u k → denotes P (Concatenation s u) (l ++ k)
| den_parens s l : denotes P s l → denotes P (Parentheses s) l.

(** A hop of a path: the AS, and its interfaces, 0 at the ends of the path. *)
Definition hop_data : Type := Z * Z * Z.
Fixpoint later_data (ifaces : list PathMetadata.PathInterface) : list hop_data :=
  match ifaces with
  | i :: j :: rest => (PathMetadata.IA i, PathMetadata.ID i, PathMetadata.ID j) :: later_data rest
  | [i] => [(PathMetadata.IA i, PathMetadata.ID i, 0)]
  | [] => []
  end.
Definition path_hops (ifaces : list PathMetadata.PathInterface) : list hop_data :=
  match ifaces with [] => [] | i :: rest => (PathMetadata.IA i, 0, PathMetadata.ID i) :: later_data rest end.
Definition hop_text (h : hop_data) : gostring := let '(ia, x, y) := h in hop ia x y.

Definition isd_matches (i : isd) (ia : Z) : Prop :=
  match i with WildcardISD => True | ISD t => t = ISDAS.ISD_String (ISDAS.ISD ia) end.
Definition as_matches (a : as_) (ia : Z) : Prop :=
  match a with WildcardAS => True | LegacyAS t | AS t => drop 1 t = ISDAS.AS_String (ISDAS.AS ia) end.
Definition if_matches (x : iface) (n : Z) : Prop :=
  match x with WildcardIFace => True | IFace t => t = FormatUint n 10 end.
Definition ifs_match (h : onehop) (x y : Z) : Prop :=
  match h with
  | ISDHop _ | ISDASHop _ _ => True
  | ISDASIFHop _ _ f => if_matches f x ∨ if_matches f y
  | ISDASIFIFHop _ _ f g => if_matches f x ∧ if_matches g y
  end.
Definition hop_matches (h : onehop) (d : hop_data) : Prop :=
  let '(ia, x, y) := d in isd_matches (isd_of h) ia ∧ as_matches (as_of h) ia ∧ ifs_match h x y.

(** The tokens of the grammar. *)
Definition as_char (c : ascii) : bool := hexadecimal c || bool_decide (c = ":"%char).
Definition isd_ok (i : isd) : bool := match i with WildcardISD => true | ISD t => forallb decimal t end.
Definition as_ok (a : as_) : bool := match a with WildcardAS => true | LegacyAS t | AS t => forallb as_char (drop 1 t) end.
Definition if_ok (x : iface) : bool := match x with WildcardIFace => true | IFace t => forallb decimal t end.
Definition onehop_ok (h : onehop) : bool :=
  isd_ok (isd_of h) && as_ok (as_of h) &&
  match h with ISDHop _ | ISDASHop _ _ => true | ISDASIFHop _ _ x => if_ok x | ISDASIFIFHop _ _ x y => if_ok x && if_ok y end.
Fixpoint tree_ok (s : tree) : bool :=
  match s with
  | QuestionMark s | PlusSign s | Asterisk s | Parentheses s => tree_ok s
  | Or s u | Concatenation s u => tree_ok s && tree_ok u
  | Hop h => onehop_ok h
  end.
Definition hop_ok (d : hop_data) : Prop := let '(ia, x, y) := d in is_u64 ia ∧ is_u64 x ∧ is_u64 y.

(** ** From texts to words *)

Definition word (w : gostring) : gostring := w ++ str " ".
Definition spaced (l : list (gostring * nat)) : gostring := concat ((λ p, p.1 ++ replicate (S p.2) " "%char) <$> l).
Abbreviation text_denotes := (denotes (λ h w, lang (onehop_re h) w)).

Lemma spaced_app l k : spaced (l ++ k) = spaced l ++ spaced k.
Proof. unfold spaced. by rewrite fmap_app, concat_app. Qed.

Lemma lang_spaces s : lang (Plus (Chars (str " "))) s → ∃ k, s = replicate (S k) " "%char.
Proof.
  intros H. remember (Plus (Chars (str " "))) as r eqn:Hr. induction H; try discriminate Hr; injection Hr as ->.
  - apply lang_chars_iff in H as ->. by exists 0%nat.
  - apply lang_chars_iff in H as ->. destruct (IHlang2 eq_refl) as [k ->]. by exists (S k).
Qed.

Lemma lang_words s a : lang (compile s) a → ∃ l, text_denotes s l.*1 ∧ a = spaced l.
Proof.
  revert a. induction s as [s IH|s IH|s IH|s IHs u IHu|s IHs u IHu|s IH|h]; intros a H; cbn [compile] in H.
  - apply lang_opt_iff in H as [->|H]; [exists []; split; [constructor|done]|].
    apply lang_group_iff, IH in H as (l & Hl & ->). exists l. split; [by constructor|done].
  - remember (Plus (Group (compile s))) as r eqn:Hr. induction H; try discriminate Hr; injection Hr as ->.
    + apply lang_group_iff, IH in H as (l & Hl & ->). exists l. split; [by constructor|done].
    + apply lang_group_iff, IH in H as (l & Hl & ->). destruct (IHlang2 eq_refl) as (k & Hk & ->). exists (l ++ k).
      rewrite fmap_app, spaced_app. split; [by constructor|done].
  - remember (Star (Group (compile s))) as r eqn:Hr. induction H; try discriminate Hr; injection Hr as ->.
    + exists []. split; [constructor|done].
    + apply lang_group_iff, IH in H as (l & Hl & ->). destruct (IHlang2 eq_refl) as (k & Hk & ->). exists (l ++ k).
      rewrite fmap_app, spaced_app. split; [by constructor|done].
  - apply lang_group_iff, lang_alt_iff in H as [H|H]; [apply IHs in H as (l & Hl & ->)|apply IHu in H as (l & Hl & ->)];
      exists l; (split; [by constructor|done]).
  - apply lang_group_iff, lang_cat_iff in H as (b & c & -> & Hb & Hc). apply IHs in Hb as (l & Hl & ->).
    apply IHu in Hc as (k & Hk & ->). exists (l ++ k). rewrite fmap_app, spaced_app. split; [by constructor|done].
  - apply IH in H as (l & Hl & ->). exists l. split; [by constructor|done].
  - apply lang_group_iff, lang_cat_iff in H as (b & c & -> & Hb & Hc). apply lang_spaces in Hc as [k ->].
    exists [(b, k)]. split; [by constructor|]. unfold spaced. cbn. by rewrite app_nil_r.
Qed.

Lemma words_lang s ws : text_denotes s ws → lang (compile s) (concat (word <$> ws)).
Proof.
  induction 1; cbn [compile]; rewrite ?fmap_app, ?concat_app.
  - cbn. rewrite app_nil_r. constructor. constructor; [done|]. constructor. constructor.
  - constructor.
  - by apply lang_opt_some, lang_group.
  - by apply lang_plus_one, lang_group.
  - apply lang_plus_more; [by apply lang_group|done].
  - constructor.
  - apply lang_star_more; [by apply lang_group|done].
  - by apply lang_group, lang_alt_l.
  - by apply lang_group, lang_alt_r.
  - by apply lang_group, lang_cat.
  - done.
Qed.

(** ** The characters of a match *)

Fixpoint over (P : ascii → bool) (r : Regexp.t) : Prop :=
  match r with
  | Nothing => True
  | Chars s => forallb P s = true
  | Class _ p => ∀ c, p c = true → P c = true
  | Cat r s | Alt r s => over P r ∧ over P s
  | Group r | Opt r | Plus r | Star r => over P r
  end.
Lemma over_lang P r s : over P r → lang r s → forallb P s = true.
Proof.
  intros Ho H. induction H; cbn in *; rewrite ?forallb_app; try naive_solver.
  - by rewrite Ho.
  - apply andb_true_iff. naive_solver.
  - apply andb_true_iff. naive_solver.
  - apply andb_true_iff. naive_solver.
Qed.

Lemma forallb_absent (P : ascii → bool) c s : forallb P s = true → P c = false → c ∉ s.
Proof.
  intros H Hc Hin. apply list_elem_of_In in Hin. rewrite forallb_forall in H. specialize (H c Hin). congruence.
Qed.

(** A separator that is in neither part splits in one way. *)
Lemma split_unique (c : ascii) a b a' b' : c ∉ a → c ∉ a' → a ++ c :: b = a' ++ c :: b' → a = a' ∧ b = b'.
Proof.
  revert a'. induction a as [|x a IH]; intros [|x' a'] Ha Ha' E; cbn in E.
  - by injection E.
  - injection E as <- _. by destruct Ha'; left.
  - injection E as -> _. by destruct Ha; left.
  - injection E as -> E. apply not_elem_of_cons in Ha as [_ Ha], Ha' as [_ Ha']. destruct (IH a' Ha Ha' E) as [-> ->]. done.
Qed.

Definition not_space (c : ascii) : bool := negb (bool_decide (c = " "%char)).

Lemma no_space_absent (w : gostring) : forallb not_space w = true → " "%char ∉ w.
Proof. intros H. by apply (forallb_absent not_space). Qed.

(** A text is split into words in one way. *)
Lemma spaced_unique l hs :
  Forall (λ w, forallb not_space w = true) l.*1 → Forall (λ w, w ≠ [] ∧ forallb not_space w = true) hs →
  spaced l = concat (word <$> hs) → l.*1 = hs.
Proof.
  revert hs. induction l as [|[w k] l IH]; intros [|h hs] Hl Hh E; cbn in *.
  - done.
  - exfalso. unfold word in E. by destruct h.
  - exfalso. by destruct w.
  - apply Forall_cons in Hl as [Hw Hl], Hh as [[Hne Hh1] Hh].
    change (spaced ((w, k) :: l)) with ((w ++ " "%char :: replicate k " "%char) ++ spaced l) in E.
    unfold word in E. cbn [str String.list_ascii_of_string] in E. rewrite <- !app_assoc in E. cbn [app] in E.
    apply split_unique in E as [-> E]; [|by apply no_space_absent..]. f_equal.
    destruct k as [|k]; [by apply IH|]. exfalso. cbn in E. destruct hs as [|h' hs]; [done|].
    apply Forall_cons in Hh as [[Hne' Hh'] _]. cbn in E. destruct h' as [|c h']; [done|].
    cbn in E. injection E as <- _. discriminate Hh'.
Qed.

(** ** A single hop *)

Lemma digit_decimal c : is_digit 10 c → decimal c = true.
Proof. intros (d & Hd & ->). unfold decimal, between, digit_char. replace (d <? 10) with true by lia. rewrite byte_of_char_of by lia. change (byte_of "0") with 48. change (byte_of "9") with 57. lia. Qed.
Lemma digit_hexadecimal c : is_digit 16 c → hexadecimal c = true.
Proof.
  intros (d & Hd & ->). unfold hexadecimal, between, digit_char.
  change (byte_of "0") with 48. change (byte_of "9") with 57. change (byte_of "a") with 97. change (byte_of "f") with 102.
  destruct (d <? 10) eqn:E; rewrite byte_of_char_of by lia; lia.
Qed.
Lemma decimal_as c : decimal c = true → as_char c = true.
Proof. unfold as_char, hexadecimal, decimal. intros ->. done. Qed.

Lemma lang_digits text (p : ascii → bool) s : s ≠ [] → forallb p s = true → lang (Plus (Class text p)) s.
Proof.
  induction s as [|c s IH]; [done|]. intros _ H. cbn in H. apply andb_true_iff in H as [Hc Hs].
  destruct s as [|c' s]; [by apply lang_plus_one, lang_class|].
  apply (lang_plus_more _ [c]); [by apply lang_class|by apply IH].
Qed.

Lemma FormatUint_forallb (p : ascii → bool) n base :
  2 ≤ base ≤ 16 → 0 ≤ n < 2 ^ 64 → (∀ c, is_digit base c → p c = true) → forallb p (FormatUint n base) = true.
Proof.
  intros Hb Hn Hp. apply forallb_forall. intros c Hc. apply Hp.
  pose proof (FormatUint_digits n base ltac:(lia) Hn) as H. rewrite Forall_forall in H. by apply H, list_elem_of_In.
Qed.

Lemma lang_decimals n : is_u64 n → lang decimals (FormatUint n 10).
Proof.
  intros Hn. apply lang_digits; [by apply FormatUint_nonempty|]. apply FormatUint_forallb; [lia|done|apply digit_decimal].
Qed.
Lemma lang_hexadecimals n : is_u16 n → lang hexadecimals (FormatUint n 16).
Proof.
  intros Hn. assert (0 ≤ n < 2 ^ 64) by (destruct Hn; split; lia).
  apply lang_digits; [by apply FormatUint_nonempty|]. apply FormatUint_forallb; [lia|done|apply digit_hexadecimal].
Qed.

Lemma lang_as_wildcard a : 0 ≤ a ≤ ISDAS.MaxAS → lang asWildcard (ISDAS.AS_String a).
Proof.
  intros Ha. change ISDAS.MaxAS with 281474976710655 in Ha. unfold asWildcard, ISDAS.AS_String, ISDAS.fmtAS, ISDAS.inRange.
  change ISDAS.MaxAS with 281474976710655. change ISDAS.MaxBGPAS with 4294967295.
  replace (a <=? 281474976710655) with true by lia. cbn [negb]. apply lang_group.
  destruct (Z.leb_spec a 4294967295).
  - apply lang_alt_l, lang_group, lang_decimals. split; lia.
  - apply lang_alt_r, lang_group. change (Z.to_nat ISDAS.asParts) with 3%nat. cbn [ISDAS.fmt_parts]. rewrite !AddrLemmas.as_part by lia.
    change (0 <? 0) with false. change (0 <? 0 + 1) with true. change (0 <? 0 + 1 + 1) with true.
    cbn [app]. rewrite app_nil_r. unfold ISDAS.asPartBase.
    apply lang_cat; [apply lang_hexadecimals; split; dlia|]. apply (lang_cat _ _ (str ":")); [constructor|].
    apply lang_cat; [apply lang_hexadecimals; split; dlia|]. apply (lang_cat _ _ (str ":")); [constructor|].
    apply lang_hexadecimals. split; dlia.
Qed.

Lemma over_weaken (P Q : ascii → bool) r : (∀ c, P c = true → Q c = true) → over P r → over Q r.
Proof.
  intros H. induction r; cbn; try naive_solver.
  intros Hf. apply forallb_forall. intros c Hc. apply H. by apply (proj1 (forallb_forall P s) Hf).
Qed.
Lemma as_char_space c : as_char c = true → not_space c = true.
Proof. intros H. unfold not_space. case_bool_decide as E; [subst c; discriminate H|done]. Qed.

Lemma isd_over i : isd_ok i = true → over decimal (isd_re i).
Proof. destruct i; cbn; [by intros _ c|done]. Qed.
Lemma as_over a : as_ok a = true → over as_char (as_re a).
Proof.
  assert (∀ c, hexadecimal c = true → as_char c = true) as Hh by (intros c Hc; unfold as_char; by rewrite Hc).
  destruct a; cbn; [|done|done]. intros _. split; [apply decimal_as|]. split_and!; by try apply Hh.
Qed.
Lemma if_over x : if_ok x = true → over decimal (if_re x).
Proof. destruct x; cbn; [by intros _ c|done]. Qed.

Lemma isd_as_iff i a f s :
  lang (isd_as i a f) s ↔ ∃ p q r, s = p ++ "-"%char :: q ++ "#"%char :: r ∧ lang i p ∧ lang a q ∧ lang f r.
Proof.
  unfold isd_as. rewrite lang_group_iff. split.
  - intros (p & b & -> & Hp & (b1 & c & -> & ->%lang_chars_iff & (q & d & -> & Hq & (d1 & r & -> & ->%lang_chars_iff & Hr)%lang_cat_iff)%lang_cat_iff)%lang_cat_iff)%lang_cat_iff.
    by exists p, q, r.
  - intros (p & q & r & -> & Hp & Hq & Hr). apply lang_cat; [done|]. apply (lang_cat _ _ (str "-")); [constructor|].
    apply lang_cat; [done|]. apply (lang_cat _ _ (str "#")); [constructor|done].
Qed.
Lemma if_if_iff x y s : lang (if_if x y) s ↔ ∃ p q, s = p ++ ","%char :: q ∧ lang x p ∧ lang y q.
Proof.
  unfold if_if. split.
  - intros (p & b & -> & Hp & (b1 & c & -> & ->%lang_chars_iff & Hq)%lang_cat_iff)%lang_cat_iff. by exists p, c.
  - intros (p & q & -> & Hp & Hq). apply lang_cat; [done|]. apply (lang_cat _ _ (str ",")); [constructor|done].
Qed.

(** The interfaces of a hop. *)
Lemma if_matches_iff x n : is_u64 n → lang (if_re x) (FormatUint n 10) ↔ if_matches x n.
Proof.
  intros Hn. destruct x as [|t]; cbn; [|rewrite lang_chars_iff; done].
  split; [done|intros _; by apply lang_group, lang_decimals].
Qed.
Lemma if_if_matches x y m n :
  if_ok x = true → is_u64 m → is_u64 n →
  lang (if_if (if_re x) (if_re y)) (FormatUint m 10 ++ ","%char :: FormatUint n 10) ↔ if_matches x m ∧ if_matches y n.
Proof.
  intros Hx Hm Hn. rewrite if_if_iff, <- !if_matches_iff by done. split; [|intros [? ?]; by eexists _, _].
  intros (p & q & E & Hp & Hq). apply split_unique in E as [-> ->]; [done|..].
  - apply (forallb_absent decimal); [apply FormatUint_forallb; [lia|done|apply digit_decimal]|done].
  - apply (forallb_absent decimal); [|done]. by eapply over_lang; [apply if_over|].
Qed.

(** A hop matches as text exactly when its numbers match. *)
Lemma onehop_spec h d : onehop_ok h = true → hop_ok d → lang (onehop_re h) (hop_text d) ↔ hop_matches h d.
Proof.
  destruct d as [[ia x] y]. intros Hok (Hia & Hx & Hy).
  apply andb_true_iff in Hok as [[Hi Ha]%andb_true_iff Hf].
  pose proof (AddrProperties.ISD_AS_range ia) as [Hisd Has].
  assert (is_u64 (ISDAS.ISD ia)) as Hisd' by (split; [lia|]; change (2 ^ 64) with 18446744073709551616; lia).
  assert (forallb decimal (ISDAS.ISD_String (ISDAS.ISD ia)) = true) as Di by (apply FormatUint_forallb; [lia|done|apply digit_decimal]).
  assert (forallb as_char (ISDAS.AS_String (ISDAS.AS ia)) = true) as Da.
  { eapply over_lang; [apply (as_over WildcardAS); done|by apply lang_as_wildcard]. }
  assert (lang (ifs_re h) (FormatUint x 10 ++ ","%char :: FormatUint y 10) ↔ ifs_match h x y) as Hifs.
  { destruct h as [i|i a|i a f|i a f g]; cbn [ifs_re ifs_match]; change ifWildcard with (if_re WildcardIFace).
    - rewrite (if_if_matches WildcardIFace WildcardIFace) by done. done.
    - rewrite (if_if_matches WildcardIFace WildcardIFace) by done. done.
    - rewrite lang_group_iff, lang_alt_iff, !lang_group_iff.
      rewrite (if_if_matches WildcardIFace f), (if_if_matches f WildcardIFace) by done. cbn [if_matches]. tauto.
    - apply andb_true_iff in Hf as [Hf Hg]. by rewrite if_if_matches. }
  unfold onehop_re, hop_text, hop, hop_matches. rewrite isd_as_iff, <- Hifs.
  unfold ISDAS.IA_String. rewrite <- !app_assoc. cbn [str String.list_ascii_of_string app].
  assert (lang (isd_re (isd_of h)) (ISDAS.ISD_String (ISDAS.ISD ia)) ↔ isd_matches (isd_of h) ia) as <-.
  { destruct (isd_of h); cbn; [|rewrite lang_chars_iff; done].
    split; [done|intros _; by apply lang_group, lang_decimals]. }
  assert (lang (as_re (as_of h)) (ISDAS.AS_String (ISDAS.AS ia)) ↔ as_matches (as_of h) ia) as <-.
  { destruct (as_of h); cbn; rewrite ?lang_chars_iff; try done. split; [done|intros _; by apply lang_as_wildcard]. }
  split; [|intros (? & ? & ?); by eexists _, _, _].
  intros (p & q & r & E & Hp & Hq & Hr). pose proof (over_lang _ _ _ (isd_over _ Hi) Hp) as Dp.
  pose proof (over_lang _ _ _ (as_over _ Ha) Hq) as Dq.
  apply split_unique in E as [-> E]; [|by apply (forallb_absent decimal)..].
  apply split_unique in E as [-> ->]; [|by apply (forallb_absent as_char)..]. done.
Qed.

(** The words of an expression have no spaces in them. *)
Lemma onehop_word h w : onehop_ok h = true → lang (onehop_re h) w → forallb not_space w = true.
Proof.
  intros [[Hi Ha]%andb_true_iff Hf]%andb_true_iff. apply over_lang.
  assert (∀ c, decimal c = true → not_space c = true) as Hd by (intros c Hc; by apply as_char_space, decimal_as).
  assert (∀ x, if_ok x = true → over not_space (if_re x)) as Hif by (intros x Hx; by eapply over_weaken, if_over).
  pose proof (over_weaken _ _ _ Hd (isd_over _ Hi)). pose proof (over_weaken _ _ _ as_char_space (as_over _ Ha)).
  pose proof (Hif WildcardIFace eq_refl) as Hw. unfold onehop_re, isd_as, if_if. cbn [over].
  split_and!; try done. destruct h as [i|i a|i a f|i a f g]; cbn [ifs_re if_if over] in *; try done.
  - pose proof (Hif f Hf). done.
  - apply andb_true_iff in Hf as [Hf Hg]. pose proof (Hif f Hf). pose proof (Hif g Hg). done.
Qed.

Lemma hop_text_word d : hop_ok d → hop_text d ≠ [] ∧ forallb not_space (hop_text d) = true.
Proof.
  intros Hd. split.
  - destruct d as [[ia x] y]. intros E%(f_equal length). unfold hop_text, hop in E. rewrite !length_app in E. cbn in E. lia.
  - apply (onehop_word (ISDHop WildcardISD)); [done|]. apply onehop_spec; [done|done|]. destruct d as [[ia x] y]. done.
Qed.

Lemma text_denotes_hops t ds :
  tree_ok t = true → Forall hop_ok ds → text_denotes t (hop_text <$> ds) ↔ denotes hop_matches t ds.
Proof.
  intros Ht Hds. split.
  - intros H. remember (hop_text <$> ds) as ws eqn:Hws. revert ds Hds Hws.
    induction H; intros ds Hds Hws; cbn in Ht;
      repeat match goal with
      | H : _ ++ _ = hop_text <$> _ |- _ => symmetry in H; apply fmap_app_inv in H as (? & ? & -> & -> & ->)
      | H : Forall hop_ok (_ ++ _) |- _ => apply Forall_app in H as [? ?]
      | H : [] = hop_text <$> _ |- _ => symmetry in H; apply fmap_nil_inv in H as ->
      | H : _ && _ = true |- _ => apply andb_true_iff in H as [? ?]
      end; try (by econstructor; eauto).
    symmetry in Hws. destruct ds as [|d [|? ?]]; try discriminate Hws. injection Hws as <-.
    apply Forall_cons in Hds as [Hd _]. constructor. by apply onehop_spec.
  - intros H. induction H; cbn in Ht; rewrite ?fmap_app;
      repeat match goal with
      | H : Forall hop_ok (_ ++ _) |- _ => apply Forall_app in H as [? ?]
      | H : _ && _ = true |- _ => apply andb_true_iff in H as [? ?]
      end; try (by econstructor; eauto).
    apply Forall_cons in Hds as [Hd _]. constructor. by apply onehop_spec.
Qed.

Lemma text_denotes_words t ws : tree_ok t = true → text_denotes t ws → Forall (λ w, forallb not_space w = true) ws.
Proof.
  intros Ht H. induction H; [constructor; [by apply (onehop_word h)|constructor]|..];
    cbn in Ht; try (by constructor); try (apply andb_true_iff in Ht as [? ?]); auto; by apply Forall_app; auto.
Qed.

(** The expression matches the text of the hops exactly when the sequence denotes
    the hops. *)
Lemma match_hops t ds :
  tree_ok t = true → Forall hop_ok ds →
  MatchString (compile t) (concat (word <$> (hop_text <$> ds))) = true ↔ denotes hop_matches t ds.
Proof.
  intros Ht Hds. rewrite MatchString_spec, <- text_denotes_hops by done. split; [|apply words_lang].
  intros H. apply lang_words in H as (l & Hl & E). symmetry in E. apply spaced_unique in E as <-; [done| |].
  - by apply (text_denotes_words t).
  - apply Forall_fmap. eapply Forall_impl; [exact Hds|]. apply hop_text_word.
Qed.

(** The text of a path. *)
Lemma later_hops_data l : later_hops l = hop_text <$> later_data l.
Proof.
  assert (∀ n l, (length l ≤ n)%nat → later_hops l = hop_text <$> later_data l) as H; [|by apply (H (length l))].
  intros n. induction n as [|n IH]; intros [|i [|j rest]] Hn; cbn in *; try done; [lia|].
  by rewrite IH by lia.
Qed.

Lemma Join_words l : l ≠ [] → Join l (str " ") ++ str " " = concat (word <$> l).
Proof.
  induction l as [|w l IH]; [done|]. intros _. destruct l as [|w' l].
  - cbn. unfold word. by rewrite app_nil_r.
  - change (Join (w :: w' :: l) (str " ")) with (w ++ str " " ++ Join (w' :: l) (str " ")).
    rewrite <- !app_assoc, IH by done. by rewrite (app_assoc w).
Qed.

Lemma GetSequence_spec ifaces :
  len ifaces mod 2 = 0 →
  ∃ desc, GetSequence ifaces = Ok desc ∧
    (if bool_decide (desc = []) then desc else desc ++ str " ") = concat (word <$> (hop_text <$> path_hops ifaces)).
Proof.
  intros He. unfold GetSequence. rewrite He. change (negb (0 =? 0)) with false. cbv iota.
  destruct ifaces as [|i rest]; [by exists []|]. eexists. split; [done|].
  set (l := hop _ 0 _ :: later_hops rest).
  assert (l = hop_text <$> path_hops (i :: rest)) as <- by (unfold l; by rewrite later_hops_data).
  rewrite bool_decide_eq_false_2; [by apply Join_words|]. intros E.
  pose proof (Join_words l ltac:(done)) as Hj. rewrite E in Hj. unfold l in Hj. cbn [fmap list_fmap concat] in Hj.
  apply (f_equal length) in Hj. unfold word, hop in Hj. rewrite !length_app in Hj. cbn in Hj. lia.
Qed.

Lemma path_hops_ok ifaces :
  Forall (λ i, is_u64 (PathMetadata.IA i) ∧ is_u64 (PathMetadata.ID i)) ifaces → Forall hop_ok (path_hops ifaces).
Proof.
  assert (∀ n l, (length l ≤ n)%nat → Forall (λ i, is_u64 (PathMetadata.IA i) ∧ is_u64 (PathMetadata.ID i)) l → Forall hop_ok (later_data l)) as Hl.
  { intros n. induction n as [|n IH]; intros [|i [|j rest]] Hn Hf; cbn in *; try (by constructor); [lia|lia| |].
    - apply Forall_singleton in Hf as [? ?]. constructor; [|by constructor]. split_and!; done.
    - apply Forall_cons in Hf as [[? ?] Hf]. apply Forall_cons in Hf as [[? ?] Hf]. constructor; [by split_and!|]. apply IH; [lia|done]. }
  destruct ifaces as [|i rest]; [by constructor|]. intros [[? ?] Hf]%Forall_cons. cbn.
  constructor; [by split_and!|]. by apply (Hl (length rest)).
Qed.

Definition ifaces_ok (ifaces : list PathMetadata.PathInterface) : Prop :=
  Forall (λ i, is_u64 (PathMetadata.IA i) ∧ is_u64 (PathMetadata.ID i)) ifaces.

Lemma keeps_spec q t ifaces :
  re q = Some (compile t) → tree_ok t = true → ifaces_ok ifaces →
  ∃ b, keeps q ifaces = Ok b ∧ (b = true ↔ len ifaces mod 2 = 0 ∧ denotes hop_matches t (path_hops ifaces)).
Proof.
  intros Hq Ht Hi. unfold keeps. rewrite Hq. destruct (decide (len ifaces mod 2 = 0)) as [He|Ho].
  - destruct (GetSequence_spec ifaces He) as (desc & -> & Hd). rewrite Hd. eexists. split; [done|].
    rewrite match_hops by (done || by apply path_hops_ok). tauto.
  - unfold GetSequence. replace (negb _) with true by lia. exists false. split; [done|]. split; [done|]. by intros [? _].
Qed.

(** A loop over the paths that decides for each path by itself is a filter. *)
Lemma eval_paths_filter {Path} (Interfaces : Path → list PathMetadata.PathInterface) q (keep : Path → bool) paths :
  Forall (λ p, keeps q (Interfaces p) = Ok (keep p)) paths →
  eval_paths Interfaces q paths = Ok (List.filter keep paths).
Proof. induction 1 as [|p paths Hp _ IH]; cbn; [done|]. rewrite Hp. cbn. rewrite IH. cbn. by destruct (keep p). Qed.


(** 1-ff00:0:133#0 0* 2 matches a path over three ASes. *)
Definition example_tree : tree :=
  Concatenation (Concatenation
    (Hop (ISDASIFHop (ISD (str "1")) (AS (str "-ff00:0:133")) WildcardIFace)) (Asterisk (Hop (ISDHop WildcardISD))))
    (Hop (ISDHop (ISD (str "2")))).
Definition example_ia (isd n : Z) : Z := isd * 2 ^ 48 + 0xff0000000000 + n.
Definition example_path : list PathMetadata.PathInterface :=
  [PathMetadata.mkIf 42 (example_ia 1 0x133); PathMetadata.mkIf 2 (example_ia 1 0x120);
   PathMetadata.mkIf 1 (example_ia 1 0x120); PathMetadata.mkIf 21 (example_ia 2 0x211)].

Example example_text : GetSequence example_path = Ok (str "1-ff00:0:133#0,42 1-ff00:0:120#2,1 2-ff00:0:211#21,0").
Proof. vm_compute. reflexivity. Qed.
Example example_restr : anchored (compile (Or (Hop (ISDASIFHop (ISD (str "1")) WildcardAS (IFace (str "5")))) (QuestionMark (Hop (ISDHop WildcardISD))))) =
  str "^(((1-(([0-9]+)|([0-9a-fA-F]+:[0-9a-fA-F]+:[0-9a-fA-F]+))#((([0-9]+),5)|(5,([0-9]+)))) +)|(((([0-9]+)-(([0-9]+)|([0-9a-fA-F]+:[0-9a-fA-F]+:[0-9a-fA-F]+))#([0-9]+),([0-9]+)) +))?)$".
Proof. vm_compute. reflexivity. Qed.


(** An AS that is written in capitals is in the grammar, and parses as the number of
    the AS; but no path matches it. *)
Lemma capital_absent a : 0 ≤ a ≤ ISDAS.MaxAS → "F"%char ∉ ISDAS.AS_String a.
Proof.
  intros Ha. change ISDAS.MaxAS with 281474976710655 in Ha.
  assert (¬ is_digit 16 "F"%char) as Hf.
  { intros (d & Hd & E). apply (f_equal byte_of) in E. unfold digit_char in E. change (byte_of "F") with 70 in E.
    destruct (d <? 10) eqn:?; rewrite byte_of_char_of in E by lia; lia. }
  unfold ISDAS.AS_String, ISDAS.fmtAS, ISDAS.inRange.
  change ISDAS.MaxAS with 281474976710655. change ISDAS.MaxBGPAS with 4294967295.
  replace (a <=? 281474976710655) with true by lia. cbn [negb]. destruct (Z.leb_spec a 4294967295).
  - apply AddrLemmas.FormatUint_absent; [lia|lia|done].
  - change (Z.to_nat ISDAS.asParts) with 3%nat. cbn [ISDAS.fmt_parts]. rewrite !AddrLemmas.as_part by lia.
    change (0 <? 0) with false. change (0 <? 0 + 1) with true. change (0 <? 0 + 1 + 1) with true. unfold ISDAS.asPartBase.
    assert ("F"%char ∉ str ":") by (intros H'; apply list_elem_of_In in H'; destruct H' as [H'|[]]; discriminate H').
    cbn [app]. rewrite !not_elem_of_app. split_and!; try done; try apply not_elem_of_nil;
      (apply AddrLemmas.FormatUint_absent; [lia|split; dlia|done]).
Qed.
Lemma capital_as_never_matches :
  ISDAS.ParseAS (str "FF00:0:133") = ISDAS.ParseAS (str "ff00:0:133") ∧
  ∀ ia, ¬ as_matches (AS (str "-FF00:0:133")) ia.
Proof.
  split; [vm_compute; reflexivity|]. intros ia H. cbn [as_matches] in H.
  apply (capital_absent (ISDAS.AS ia)); [apply AddrProperties.ISD_AS_range|]. rewrite <- H. by left.
Qed.

End SequenceProperties.
