(* ===== verification/Pathpol.v ===== *)
(** Path policies, [private/path/pathpol]: hop predicates ([hop_pred.go], Module
    [HopPredicate]), access lists ([acl.go], Module [ACL]), the filters for the ends
    of a path ([local_isdas.go] and [remote_isdas.go], Module [EndISDAS]) and
    policies with their options ([policy.go], Module [Policies]).  Module
    [PathpolProperties] shows that an access list that was read decides every path by
    its first matching entries, and that options are used by their weight. *)
From S2P Require Export PathSequence.
From stdpp Require Import sorting.
#[local] Open Scope Z_scope.

(** * hop_pred.go *)
Module HopPredicate.

Record t := mk {
  ISD : Z;
  AS : Z;
  IfIDs : list Z
}.

Definition NewHopPredicate : t := mk 0 0 [0].

(** [strings.Count] of a single character. *)
Fixpoint Count (s : gostring) (c : ascii) : Z :=
  match s with [] => 0 | d :: s => (if bool_decide (c = d) then 1 else 0) + Count s c end.

Definition parseIfID (s : gostring) : outcome Z := ParseUint s 10 64.

Definition validateHopPredStr (s : gostring) : outcome unit :=
  let dashes := Count s "-" in
  let hashes := Count s "#" in
  let commas := Count s "," in
  _ ← fail_if ((1 <? dashes) || (1 <? hashes) || (1 <? commas)) (New "Failed to parse hop predicate, found delimiter too often");
  _ ← fail_if ((dashes =? 0) && ((0 <? hashes) || (0 <? commas))) (New "Can't specify IFIDs without AS");
  Ok tt.

(** The interfaces, after the #. *)
Definition parse_ifids (s : gostring) : outcome (list Z) :=
  let commaParts := Split s (str ",") in
  ifid ← get commaParts 0 ≫= λ x, wrap_err "Failed to parse ifids" (parseIfID x);
  if len commaParts =? 2 then
    ifid1 ← get commaParts 1 ≫= λ x, wrap_err "Failed to parse ifids" (parseIfID x);
    Ok [ifid; ifid1]
  else Ok [ifid].

Definition HopPredicateFromString (s : gostring) : outcome t :=
  _ ← validateHopPredStr s;
  let dashParts := Split s (str "-") in
  isd ← get dashParts 0 ≫= λ x, wrap_err "Failed to parse ISD" (ISDAS.ParseISD x);
  if len dashParts =? 1 then Ok (mk isd 0 [0]) else
  hashParts ← get dashParts 1 ≫= λ x, Ok (Split x (str "#"));
  as_ ← get hashParts 0 ≫= λ x, wrap_err "Failed to parse AS" (ISDAS.ParseAS x);
  if len hashParts =? 1 then Ok (mk isd as_ [0]) else
  ifIDs ← get hashParts 1 ≫= parse_ifids;
  ifid ← get ifIDs 0;
  ifid1 ← (if 1 <? len ifIDs then get ifIDs 1 else Ok 0);
  _ ← fail_if ((as_ =? 0) && (negb (ifid =? 0) || ((1 <? len ifIDs) && negb (ifid1 =? 0))))
    (New "Failed to parse hop predicate, IfIDs must be 0");
  Ok (mk isd as_ ifIDs).

(** Whether an interface of a path matches; [ingress] when packets come in by it. *)
Definition pathIFMatch (hp : t) (pi : PathMetadata.PathInterface) (ingress : bool) : outcome bool :=
  if negb (ISD hp =? 0) && negb (ISDAS.ISD (PathMetadata.IA pi) =? ISD hp) then Ok false else
  if negb (AS hp =? 0) && negb (ISDAS.AS (PathMetadata.IA pi) =? AS hp) then Ok false else
  let ifInd := if (len (IfIDs hp) =? 2) && negb ingress then 1 else 0 in
  ifid ← get (IfIDs hp) ifInd;
  Ok (negb (negb (ifid =? 0) && negb (ifid =? PathMetadata.ID pi))).

(** The receiver may be nil. *)
Definition matchesAll (hp : option t) : bool :=
  match hp with None => true | Some hp => (ISD hp =? 0) && (AS hp =? 0) end.

Definition String (hp : t) : gostring :=
  FormatUint (ISD hp) 10 ++ str "-" ++ ISDAS.AS_String (AS hp) ++ str "#" ++
  Sequence.Join ((λ ifid, FormatUint ifid 10) <$> IfIDs hp) (str ",").

End HopPredicate.

(** * acl.go *)
Module ACL.

Definition Deny : bool := false.
Definition Allow : bool := true.
Definition denySymbol : gostring := str "-".
Definition allowSymbol : gostring := str "+".

Record Entry := mkEntry {
  Action : bool;
  Rule : option HopPredicate.t
}.
Record t := mk { Entries : list Entry }.

Definition ErrNoDefault : error := New "ACL does not have a default".
Definition ErrExtraEntries : error := New "ACL has unused extra entries after a default entry".

Definition getAction (symbol : gostring) : outcome bool :=
  if bool_decide (symbol = allowSymbol) then Ok true
  else if bool_decide (symbol = denySymbol) then Ok false
  else Err (New "Bad action symbol").

Definition LoadFromString (s : gostring) : outcome Entry :=
  let parts := Split s (str " ") in
  if len parts =? 1 then
    action ← get parts 0 ≫= getAction;
    Ok (mkEntry action None)
  else if len parts =? 2 then
    action ← get parts 0 ≫= getAction;
    rule ← get parts 1 ≫= HopPredicate.HopPredicateFromString;
    Ok (mkEntry action (Some rule))
  else Err (New "ACLEntry has too many parts").

Definition String (ae : Entry) : gostring :=
  let s := if Bool.eqb (Action ae) Allow then allowSymbol else denySymbol in
  match Rule ae with Some rule => s ++ str " " ++ HopPredicate.String rule | None => s end.

(** The index of the first entry that matches everything, or -1. *)
Fixpoint found_at (i : Z) (entries : list Entry) : Z :=
  match entries with
  | [] => -1
  | e :: entries => if HopPredicate.matchesAll (Rule e) then i else found_at (i + 1) entries
  end.

Definition validateACL (entries : list Entry) : outcome unit :=
  _ ← fail_if (len entries =? 0) ErrNoDefault;
  let foundAt := found_at 0 entries in
  _ ← fail_if (foundAt <? 0) ErrNoDefault;
  _ ← fail_if (negb (foundAt =? len entries - 1)) ErrExtraEntries;
  Ok tt.

Definition NewACL (entries : list Entry) : outcome t :=
  _ ← validateACL entries;
  Ok (mk entries).

Fixpoint evalInterface (entries : list Entry) (iface : PathMetadata.PathInterface) (ingress : bool) : outcome bool :=
  match entries with
  | [] => Panic
  | aclEntry :: entries =>
      matched ← match Rule aclEntry with None => Ok true | Some rule => HopPredicate.pathIFMatch rule iface ingress end;
      if matched : bool then Ok (Action aclEntry) else evalInterface entries iface ingress
  end.

(** The loop over the interfaces, from index [i] on. *)
Fixpoint evalPath_from (entries : list Entry) (i : Z) (ifaces : list PathMetadata.PathInterface) : outcome bool :=
  match ifaces with
  | [] => Ok Allow
  | iface :: ifaces =>
      action ← evalInterface entries iface (negb (i mod 2 =? 0));
      if Bool.eqb action Deny then Ok Deny else evalPath_from entries (i + 1) ifaces
  end.
Definition evalPath (a : t) (ifaces : list PathMetadata.PathInterface) : outcome bool :=
  evalPath_from (Entries a) 0 ifaces.

Section eval.
Context {Path : Type} (Interfaces : Path → list PathMetadata.PathInterface).

Fixpoint eval_paths (a : t) (paths : list Path) : outcome (list Path) :=
  match paths with
  | [] => Ok []
  | path :: paths =>
      action ← evalPath a (Interfaces path);
      result ← eval_paths a paths;
      Ok (if action : bool then path :: result else result)
  end.

Definition Eval (a : option t) (paths : list Path) : outcome (list Path) :=
  match a with
  | None => Ok paths
  | Some a => if len (Entries a) =? 0 then Ok paths else eval_paths a paths
  end.
End eval.

End ACL.

(** * local_isdas.go and remote_isdas.go *)
Module EndISDAS.

Record ISDASRule := mkRule {
  IA : Z;
  Reject : bool
}.

Definition matchISDAS (rule ia : Z) : bool :=
  if negb (ISDAS.ISD rule =? 0) && negb (ISDAS.ISD rule =? ISDAS.ISD ia) then false
  else if negb (ISDAS.AS rule =? 0) && negb (ISDAS.AS rule =? ISDAS.AS ia) then false
  else true.

(** The loop over the rules: the first that matches decides. *)
Fixpoint accepts (rules : list ISDASRule) (ia : Z) : bool :=
  match rules with
  | [] => false
  | rule :: rules => if matchISDAS (IA rule) ia then negb (Reject rule) else accepts rules ia
  end.

Section eval.
Context {Path : Type} (Interfaces : Path → list PathMetadata.PathInterface) (Source Destination : Path → Z).

Definition LocalISDAS_Eval (AllowedIAs : list Z) (paths : list Path) : list Path :=
  List.filter (λ path, negb (Source path =? Destination path) && existsb (λ ia, Source path =? ia) AllowedIAs) paths.

Definition RemoteISDAS_Eval (Rules : list ISDASRule) (paths : list Path) : list Path :=
  List.filter (λ path, negb (len (Interfaces path) =? 0) && accepts Rules (Destination path)) paths.
End eval.

End EndISDAS.

(** * policy.go *)
Module Policies.

Record FilterOptions := mkFilterOptions { IgnoreSequence : bool }.

(** [ExtPolicy] and [Option] over the policies they contain, which may be nil. *)
Record ExtPolicy (P : Type) := mkExt {
  Extends : list gostring;
  Embedded : option P
}.
Arguments mkExt {P}. Arguments Extends {P}. Arguments Embedded {P}.
Record Option_ (P : Type) := mkOption {
  Weight : Z;
  Policy_ : option (ExtPolicy P)
}.
Arguments mkOption {P}. Arguments Weight {P}. Arguments Policy_ {P}.

Inductive Policy := mkPolicy (Name : gostring) (acl : option ACL.t) (sequence : option Sequence.t)
  (localISDAS : option (list Z)) (remoteISDAS : option (list EndISDAS.ISDASRule)) (Options : list (Option_ Policy)).

Section policy.
Context {Path : Type} (Interfaces : Path → list PathMetadata.PathInterface) (Source Destination : Path → Z).
Context (sha256 : bytes → bytes).

(** [snet.Fingerprint] *)
Definition Fingerprint (path : Path) : bytes :=
  match Interfaces path with
  | [] => []
  | ifaces => sha256 (flat_map (λ i, be_bytes 8 (PathMetadata.IA i) ++ be_bytes 8 (PathMetadata.ID i)) ifaces)
  end.

(** [evalOptions], for the method [FilterOpt] of the policies of the options. *)
Section options.
Context {P : Type} (run : option P → list Path → outcome (list Path)).

Definition run_option (option : Option_ P) (paths : list Path) : outcome (list Path) :=
  match Policy_ option with None => Panic | Some ext => run (Embedded ext) paths end.

Fixpoint option_loop (options : list (Option_ P)) (currWeight : Z) (subPolicySet : gset bytes) (paths : list Path) : outcome (gset bytes) :=
  match options with
  | [] => Ok subPolicySet
  | option :: options =>
      if (Weight option <? currWeight) && negb (bool_decide (subPolicySet = ∅)) then Ok subPolicySet else
      subPaths ← run_option option paths;
      option_loop options (Weight option) (subPolicySet ∪ list_to_set (Fingerprint <$> subPaths)) paths
  end.

Definition evalOptions (options : list (Option_ P)) (paths : list Path) : outcome (list Path) :=
  match options with
  | [] => Panic
  | option :: _ =>
      subPolicySet ← option_loop options (Weight option) ∅ paths;
      Ok (List.filter (λ path, bool_decide (Fingerprint path ∈ subPolicySet)) paths)
  end.
End options.

(** [FilterOpt] of a policy that is not nil. *)
Fixpoint filter_policy (opts : FilterOptions) (p : Policy) (paths : list Path) {struct p} : outcome (list Path) :=
  let '(mkPolicy _ acl sequence localISDAS remoteISDAS options) := p in
  let paths := match localISDAS with Some li => EndISDAS.LocalISDAS_Eval Source Destination li paths | None => paths end in
  let paths := match remoteISDAS with Some ri => EndISDAS.RemoteISDAS_Eval Interfaces Destination ri paths | None => paths end in
  paths ← ACL.Eval Interfaces acl paths;
  paths ← match sequence with
          | Some s => if negb (IgnoreSequence opts) then Sequence.Eval Interfaces (Some s) paths else Ok paths
          | None => Ok paths
          end;
  if 0 <? len options then
    evalOptions (λ q paths, match q with None => Ok paths | Some q => filter_policy opts q paths end) options paths
  else Ok paths.

Definition FilterOpt (opts : FilterOptions) (p : option Policy) (paths : list Path) : outcome (list Path) :=
  match p with None => Ok paths | Some p => filter_policy opts p paths end.

Definition Filter (p : option Policy) (paths : list Path) : outcome (list Path) :=
  FilterOpt (mkFilterOptions false) p paths.
End policy.

Section new.
(** [sort.Slice] with the given [less], for options that may have the same weight. *)
Context (sort : (Option_ Policy → Option_ Policy → bool) → list (Option_ Policy) → list (Option_ Policy)).

Definition NewPolicy (name : gostring) (acl : option ACL.t) (sequence : option Sequence.t) (options : list (Option_ Policy)) : Policy :=
  mkPolicy name acl sequence None None (sort (λ i j, Weight j <? Weight i) options).
End new.

End Policies.

(** * Properties *)
Module PathpolProperties.

Import HopPredicate.

(** ** Hop predicates *)

(** What a hop predicate that was read looks like. *)
Definition pred_ok (hp : HopPredicate.t) : Prop :=
  0 ≤ ISD hp < 2 ^ 16 ∧ 0 ≤ AS hp ≤ ISDAS.MaxAS ∧ Forall is_u64 (IfIDs hp) ∧
  (length (IfIDs hp) = 1 ∨ length (IfIDs hp) = 2)%nat ∧ (AS hp = 0 → Forall (λ ifid, ifid = 0) (IfIDs hp)).

(** The interfaces of a predicate: one for either direction, or one for each. *)
Definition ifs_match (ifids : list Z) (id : Z) (ingress : bool) : Prop :=
  match ifids with
  | [x] => x = 0 ∨ x = id
  | [x; y] => (if ingress then x else y) = 0 ∨ (if ingress then x else y) = id
  | _ => False
  end.
Definition pred_matches (hp : HopPredicate.t) (pi : PathMetadata.PathInterface) (ingress : bool) : Prop :=
  (ISD hp = 0 ∨ ISD hp = ISDAS.ISD (PathMetadata.IA pi)) ∧
  (AS hp = 0 ∨ AS hp = ISDAS.AS (PathMetadata.IA pi)) ∧
  ifs_match (IfIDs hp) (PathMetadata.ID pi) ingress.

Lemma parse_ifids_Ok s ifids :
  parse_ifids s = Ok ifids → Forall is_u64 ifids ∧ (length ifids = 1 ∨ length ifids = 2)%nat.
Proof.
  unfold parse_ifids, parseIfID. intros H. apply bind_Ok in H as (x & Hx & H). go_inv.
  match goal with Hp : ParseUint _ _ _ = Ok x |- _ => apply ParseUint_range in Hp; [|done] end.
  destruct (_ =? 2); [|injection H as <-; split; [by apply Forall_singleton|by left]].
  apply bind_Ok in H as (y & Hy & H). go_inv.
  match goal with Hp : ParseUint _ _ _ = Ok y |- _ => apply ParseUint_range in Hp; [|done] end.
  split; [by apply Forall_cons, conj, Forall_singleton|by right].
Qed.

Lemma ParseISD_range s v : ISDAS.ParseISD s = Ok v → 0 ≤ v < 2 ^ 16.
Proof. intros H. pose proof (AddrProperties.ParseISD_safe s) as Hs. by rewrite H in Hs. Qed.
Lemma ParseAS_range s v : ISDAS.ParseAS s = Ok v → 0 ≤ v ≤ ISDAS.MaxAS.
Proof. intros H. pose proof (AddrProperties.parseAS_safe s (str ":")) as Hs. unfold ISDAS.ParseAS in H. by rewrite H in Hs. Qed.

Lemma pred_ok_plain isd as_ : 0 ≤ isd < 2 ^ 16 → 0 ≤ as_ ≤ ISDAS.MaxAS → pred_ok (HopPredicate.mk isd as_ [0]).
Proof. intros Hi Ha. split; [done|]. split; [done|]. cbn. rewrite !Forall_singleton. split; [by split|]. by split; [left|]. Qed.

Lemma FromString_ok s hp : HopPredicateFromString s = Ok hp → pred_ok hp.
Proof.
  unfold HopPredicateFromString. intros H. apply bind_Ok in H as (_ & _ & H).
  apply bind_Ok in H as (isd & Hi & H). apply bind_Ok in Hi as (? & _ & Hi). apply wrap_err_Ok, ParseISD_range in Hi.
  destruct (_ =? 1); [injection H as <-; by apply pred_ok_plain|].
  apply bind_Ok in H as (parts & _ & H). apply bind_Ok in H as (as_ & Ha & H).
  apply bind_Ok in Ha as (? & _ & Ha). apply wrap_err_Ok, ParseAS_range in Ha.
  destruct (_ =? 1); [injection H as <-; by apply pred_ok_plain|].
  apply bind_Ok in H as (ifids & Hf & H). apply bind_Ok in Hf as (? & _ & [Hf Hl]%parse_ifids_Ok).
  apply bind_Ok in H as (u & Hx & H). apply bind_Ok in H as (w & Hy & H). apply bind_Ok in H as ([] & Hz%fail_if_Ok & H).
  injection H as <-. split; [done|]. split; [done|]. split; [done|]. split; [done|]. cbn. intros ->.
  destruct ifids as [|x' [|y' [|]]]; cbn in Hl; try lia.
  - change (get [x'] 0) with (Ok x') in Hx. injection Hx as ->. cbn in Hz. apply Forall_singleton. lia.
  - change (get [x'; y'] 0) with (Ok x') in Hx. change (if 1 <? len [x'; y'] then get [x'; y'] 1 else Ok 0) with (Ok y') in Hy.
    injection Hx as ->. injection Hy as ->. change (1 <? len [u; w]) with true in Hz. apply Forall_cons; split; [lia|]. apply Forall_singleton. lia.
Qed.

Lemma pathIFMatch_spec hp pi ingress :
  pred_ok hp → ∃ b, pathIFMatch hp pi ingress = Ok b ∧ (b = true ↔ pred_matches hp pi ingress).
Proof.
  intros (_ & _ & _ & Hl & _). unfold pathIFMatch, pred_matches.
  destruct (negb (ISD hp =? 0) && _) eqn:E1; [exists false; split; [done|]; split; [done|lia]|].
  destruct (negb (AS hp =? 0) && _) eqn:E2; [exists false; split; [done|]; split; [done|lia]|].
  destruct (IfIDs hp) as [|x [|y [|]]]; cbn in Hl; try lia.
  - change (len [x] =? 2) with false. cbn [andb]. change (get [x] 0) with (Ok x). eexists. split; [done|]. cbn. lia.
  - change (len [x; y] =? 2) with true. destruct ingress; cbn [andb negb ifs_match];
      [change (get [x; y] 0) with (Ok x)|change (get [x; y] 1) with (Ok y)]; eexists; (split; [done|]); lia.
Qed.

(** ** Access lists *)

Import ACL.

Definition entry_ok (e : Entry) : Prop := if Rule e is Some hp then pred_ok hp else True.
Definition entry_matches (e : Entry) (pi : PathMetadata.PathInterface) (ingress : bool) : Prop :=
  if Rule e is Some hp then pred_matches hp pi ingress else True.

(** The entry [e] is the first that matches. *)
Definition first_match (entries : list Entry) (pi : PathMetadata.PathInterface) (ingress : bool) (e : Entry) : Prop :=
  ∃ before after, entries = before ++ e :: after ∧ entry_matches e pi ingress ∧
    Forall (λ e', ¬ entry_matches e' pi ingress) before.

Lemma LoadFromString_ok s e : LoadFromString s = Ok e → entry_ok e.
Proof.
  unfold LoadFromString. intros H. destruct (_ =? 1); [by go_inv|]. destruct (_ =? 2); [|done].
  apply bind_Ok in H as (a & _ & H). apply bind_Ok in H as (r & Hr & H). apply bind_Ok in Hr as (? & _ & Hr).
  injection H as <-. by apply FromString_ok in Hr.
Qed.

(** A predicate that is for all ISDs and ASes has no interfaces. *)
Lemma matchesAll_matches e pi ingress : entry_ok e → matchesAll (Rule e) = true → entry_matches e pi ingress.
Proof.
  unfold entry_ok, entry_matches, pred_matches. destruct (Rule e) as [hp|]; [|done]. cbn. intros (_ & _ & _ & Hl & Hz) H.
  split; [lia|]. split; [lia|]. specialize (Hz ltac:(lia)). destruct (IfIDs hp) as [|x [|y [|]]]; cbn in Hl; try lia.
  - apply Forall_cons in Hz as [-> _]. by left.
  - apply Forall_cons in Hz as [-> [-> _]%Forall_cons]. left. by destruct ingress.
Qed.

Lemma found_at_Exists entries i : 0 ≤ i → 0 ≤ found_at i entries → Exists (λ e, matchesAll (Rule e) = true) entries.
Proof.
  revert i. induction entries as [|e entries IH]; intros i Hi; cbn [found_at]; [lia|].
  destruct (matchesAll (Rule e)) eqn:E; [by left|]. intros H. right. apply (IH (i + 1)); [lia|done].
Qed.

Lemma NewACL_Ok entries a : NewACL entries = Ok a → a = mk entries ∧ Exists (λ e, matchesAll (Rule e) = true) entries.
Proof.
  unfold NewACL, validateACL. intros H. go_inv. split; [done|]. apply (found_at_Exists _ 0); lia.
Qed.

Lemma evalInterface_spec entries pi ingress :
  Forall entry_ok entries → Exists (λ e, matchesAll (Rule e) = true) entries →
  ∃ e, evalInterface entries pi ingress = Ok (Action e) ∧ first_match entries pi ingress e.
Proof.
  induction 1 as [|e entries He Hes IH]; intros Hall; [by inversion Hall|]. cbn [evalInterface].
  assert (∃ b, match Rule e with None => Ok true | Some rule => pathIFMatch rule pi ingress end = Ok b ∧
    (b = true ↔ entry_matches e pi ingress)) as (b & -> & Hb).
  { unfold entry_ok, entry_matches in *. destruct (Rule e) as [hp|]; [by apply pathIFMatch_spec|]. by exists true. }
  go_cbn. destruct b.
  - exists e. split; [done|]. exists [], entries. split; [done|]. split; [by apply Hb|constructor].
  - assert (¬ entry_matches e pi ingress) as Hn by (rewrite <- Hb; done).
    destruct IH as (e' & -> & before & after & -> & Hm & Hf).
    { apply Exists_cons in Hall as [Hall|Hall]; [|done]. destruct Hn. by apply matchesAll_matches. }
    exists e'. split; [done|]. exists (e :: before), after. split; [done|]. split; [done|]. by constructor.
Qed.

(** Every interface is allowed by the first entry that matches it; the interfaces at
    odd positions are those by which a path comes in. *)
Definition allowed (entries : list Entry) (ifaces : list PathMetadata.PathInterface) : Prop :=
  ∀ (i : nat) pi, ifaces !! i = Some pi → ∃ e, first_match entries pi (Nat.odd i) e ∧ Action e = Allow.

Lemma first_match_unique entries pi ingress e e' :
  first_match entries pi ingress e → first_match entries pi ingress e' → e = e'.
Proof.
  intros (b & a & -> & Hm & Hf) (b' & a' & E & Hm' & Hf'). revert b' E Hf'. induction b as [|x b IH]; intros [|x' b'] E Hf'.
  - by injection E.
  - injection E as -> _. by apply Forall_cons in Hf' as [? _].
  - injection E as -> _. by apply Forall_cons in Hf as [? _].
  - injection E as -> E. apply Forall_cons in Hf as [_ Hf], Hf' as [_ Hf']. by apply (IH Hf b').
Qed.

Lemma mod_2_odd (n : nat) : negb (Z.of_nat n mod 2 =? 0) = Nat.odd n.
Proof.
  destruct (Nat.Even_or_Odd n) as [H|H].
  - destruct (Nat.odd n) eqn:E; [apply Nat.odd_spec in E; by destruct (Nat.Even_Odd_False n)|]. destruct H as [k ->]. dlia.
  - pose proof H as ->%Nat.odd_spec. destruct H as [k ->]. dlia.
Qed.

Lemma evalPath_spec entries (n : nat) ifaces :
  Forall entry_ok entries → Exists (λ e, matchesAll (Rule e) = true) entries →
  ∃ b, evalPath_from entries (Z.of_nat n) ifaces = Ok b ∧ (b = Allow ↔
    ∀ (i : nat) pi, ifaces !! i = Some pi → ∃ e, first_match entries pi (Nat.odd (n + i)) e ∧ Action e = Allow).
Proof.
  intros Ho He. revert n. induction ifaces as [|pi ifaces IH]; intros n; cbn [evalPath_from].
  { exists Allow. split; [done|]. by split. }
  replace (negb (Z.of_nat n mod 2 =? 0)) with (Nat.odd n).
  2: { symmetry. apply mod_2_odd. }
  destruct (evalInterface_spec entries pi (Nat.odd n) Ho He) as (e & -> & Hm). go_cbn.
  destruct (Action e) eqn:Ea; cbn [Bool.eqb Deny].
  - destruct (IH (S n)) as (b & Hb & Hiff). replace (Z.of_nat n + 1) with (Z.of_nat (S n)) by lia. exists b. split; [done|].
    rewrite Hiff. split; intros H i pi' Hi.
    + destruct i as [|i]; [|rewrite <- plus_n_Sm; by apply (H i)]. rewrite Nat.add_0_r. injection Hi as <-. by exists e.
    + rewrite plus_Sn_m, plus_n_Sm. by apply H.
  - exists Deny. split; [done|]. split; [done|]. intros H. destruct (H 0%nat pi eq_refl) as (e' & Hm' & Ha).
    rewrite Nat.add_0_r in Hm'. rewrite (first_match_unique _ _ _ _ _ Hm' Hm) in Ha. by rewrite Ea in Ha.
Qed.

Lemma acl_paths_filter {Path} (Interfaces : Path → list PathMetadata.PathInterface) a (keep : Path → bool) paths :
  Forall (λ p, evalPath a (Interfaces p) = Ok (keep p)) paths →
  ACL.eval_paths Interfaces a paths = Ok (List.filter keep paths).
Proof. induction 1 as [|p paths Hp _ IH]; cbn; [done|]. rewrite Hp. cbn. rewrite IH. cbn. by destruct (keep p). Qed.

(** C39: An access list that was read from texts and accepted decides every path by
    the first entries that match: for all texts of entries, if they parse and
    [NewACL] accepts the list, then filtering any paths does not panic, and it keeps
    exactly the paths on which, for every interface, the first entry that matches
    the interface allows it.  An entry matches when its ISD, its AS and its interface
    are those of the interface or zero; of two interfaces the first is for the
    direction into an AS, the second for the direction out of it.  The panic for a
    missing default is not reached, because a predicate for all ISDs and ASes cannot
    name interfaces. *)
Theorem acl_first_match {Path} (Interfaces : Path → list PathMetadata.PathInterface) texts entries a paths :
  Forall2 (λ s e, LoadFromString s = Ok e) texts entries → NewACL entries = Ok a →
  ∃ keep, ACL.Eval Interfaces (Some a) paths = Ok (List.filter keep paths) ∧
    ∀ p, keep p = true ↔ allowed entries (Interfaces p).
Proof.
  intros Ht Ha. apply NewACL_Ok in Ha as [-> He].
  assert (Forall entry_ok entries) as Ho by (clear He; induction Ht; constructor; eauto using LoadFromString_ok).
  assert (∀ p, ∃ b, evalPath (mk entries) (Interfaces p) = Ok b ∧ (b = true ↔ allowed entries (Interfaces p))) as Hb
    by (intros p; by apply (evalPath_spec entries 0)).
  exists (λ p, if evalPath (mk entries) (Interfaces p) is Ok b then b else false). split.
  - cbn [ACL.Eval Entries]. destruct (Z.eqb_spec (len entries) 0) as [E|_].
    { destruct entries; [by inversion He|]. rewrite len_cons in E. pose proof (len_nonneg entries). lia. }
    apply acl_paths_filter, Forall_forall. intros p _. by destruct (Hb p) as (b & -> & _).
  - intros p. by destruct (Hb p) as (b & -> & ?).
Qed.

(** The access list [- 1-ff00:0:120#1, +] and the paths over three ASes. *)
Definition acl_texts : list gostring := [str "- 1-ff00:0:120#1"; str "+"].
Definition acl_entries : list Entry :=
  [mkEntry Deny (Some (HopPredicate.mk 1 0xff0000000120 [1])); mkEntry Allow None].
Definition other_path : list PathMetadata.PathInterface :=
  [PathMetadata.mkIf 42 (SequenceProperties.example_ia 1 0x133); PathMetadata.mkIf 7 (SequenceProperties.example_ia 1 0x120);
   PathMetadata.mkIf 4 (SequenceProperties.example_ia 1 0x120); PathMetadata.mkIf 21 (SequenceProperties.example_ia 2 0x211)].

Lemma acl_first_match_witness :
  ACL.Eval id (Some (mk acl_entries)) [SequenceProperties.example_path; other_path] = Ok [other_path] ∧
  allowed acl_entries other_path.
Proof.
  destruct (acl_first_match id acl_texts acl_entries (mk acl_entries) [SequenceProperties.example_path; other_path])
    as (keep & He & Hk).
  - repeat constructor; vm_compute; reflexivity.
  - reflexivity.
  - split; [vm_compute; reflexivity|]. apply Hk. destruct (keep other_path) eqn:E; [done|].
    cbn [List.filter] in He. rewrite E in He. destruct (keep SequenceProperties.example_path); vm_compute in He; discriminate He.
Defined.

(** In an access list, a predicate for one inbound interface is one for every
    outbound interface: [- 1-ff00:0:120#2,0] denies a path that enters the AS by
    interface 7. *)
Example inbound_denies_outbound :
  ∃ rule, HopPredicateFromString (str "1-ff00:0:120#2,0") = Ok rule ∧
    ACL.Eval id (Some (mk [mkEntry Deny (Some rule); mkEntry Allow None])) [other_path] = Ok [].
Proof. eexists. split; vm_compute; reflexivity. Qed.

(** ** Policies with options *)

Import Policies.

(** [sort.Slice] with a strict weak order sorts, in any order of equal elements. *)
Definition sorts (sort : (Option_ Policy → Option_ Policy → bool) → list (Option_ Policy) → list (Option_ Policy)) : Prop :=
  ∀ (key : Option_ Policy → Z) l,
    sort (λ i j, key j <? key i) l ≡ₚ l ∧ StronglySorted (λ i j, key j ≤ key i) (sort (λ i j, key j <? key i) l).

Section options.
Context {Path : Type} (Interfaces : Path → list PathMetadata.PathInterface) (Source Destination : Path → Z).
Context (sha256 : bytes → bytes).
Abbreviation print := (Fingerprint Interfaces sha256).

Lemma option_loop_spec {P} (run : option P → list Path → outcome (list Path)) (sub : Option_ P → list Path)
    (options : list (Option_ P)) (curr : Z) (S : gset bytes) paths :
  StronglySorted (λ i j, Weight j ≤ Weight i) options → Forall (λ o, Weight o ≤ curr) options →
  Forall (λ o, run_option run o paths = Ok (sub o)) options →
  ∃ S', option_loop Interfaces sha256 run options curr S paths = Ok S' ∧ ∀ x, x ∈ S' ↔
    x ∈ S ∨ ∃ o, o ∈ options ∧ x ∈ print <$> sub o ∧ (S ≠ ∅ → Weight o = curr) ∧
      ∀ o', o' ∈ options → sub o' ≠ [] → Weight o' ≤ Weight o.
Proof.
  intros Hs. revert curr S. induction Hs as [|o rest Hs IH Ho]; intros curr S Hc Hr; cbn [option_loop].
  { exists S. split; [done|]. intros x. split; [by left|]. by intros [?|(o & ?%elem_of_nil & _)]. }
  apply Forall_cons in Hc as [Hoc Hc]. apply Forall_cons in Hr as [Hro Hr]. rewrite Forall_forall in Ho.
  destruct ((Weight o <? curr) && negb (bool_decide (S = ∅))) eqn:E.
  { apply andb_true_iff in E as [E HS%negb_true_iff%bool_decide_eq_false]. exists S. split; [done|]. intros x. split; [by left|].
    intros [?|(o' & Ho' & _ & Hw & _)]; [done|]. specialize (Hw HS). exfalso.
    apply elem_of_cons in Ho' as [->|Ho']; [lia|]. specialize (Ho _ Ho'). cbn in Ho. lia. }
  assert (S ≠ ∅ → Weight o = curr) as HSc.
  { intros HS. rewrite bool_decide_eq_false_2 in E by done. lia. }
  rewrite Hro. go_cbn. set (S1 := S ∪ _).
  destruct (IH (Weight o) S1) as (S' & -> & HS'); [by apply Forall_forall|done|]. exists S'. split; [done|].
  intros x. rewrite HS'. unfold S1 at 1. rewrite elem_of_union, elem_of_list_to_set.
  assert (S1 ≠ ∅ ↔ S ≠ ∅ ∨ sub o ≠ []) as H1.
  { unfold S1. destruct (sub o) as [|p l]; cbn; [set_solver|]. split; [by right|]. set_solver. }
  split.
  - intros [[HS|Hx]|(o' & Ho' & Hx & Hw & Hm)]; [by left|right|right].
    + exists o. split; [by left|]. split; [done|]. split; [done|]. intros o' [->|Ho']%elem_of_cons _; [done|]. by apply Ho.
    + exists o'. split; [by right|]. split; [done|]. split; [intros HS; rewrite Hw by tauto; by apply HSc|].
      intros o2 [->|Ho2]%elem_of_cons Hn; [rewrite Hw by tauto; done|by apply Hm].
  - intros [HS|(o' & Ho' & Hx & Hw & Hm)]; [by left; left|]. apply elem_of_cons in Ho' as [->|Ho']; [by left; right|right].
    exists o'. split; [done|]. split; [done|]. split; [|intros o2 Ho2; apply Hm; by right].
    intros [HS|Hn]%H1; [by rewrite Hw, HSc|]. specialize (Hm o ltac:(by left) Hn). specialize (Ho _ Ho'). cbn in Ho. lia.
Qed.

End options.

Lemma sort_Slice_sorts : sorts sort_Slice.
Proof.
  intros key l. split; [apply merge_sort_Permutation|]. unfold sort_Slice.
  rewrite <- (list_fmap_id (merge_sort _ l)).
  apply (StronglySorted_fmap id (λ x y, (key x <? key y) = false)); [|apply StronglySorted_merge_sort].
  - intros x y. unfold id. lia.
  - intros x y z. cbn. lia.
  - intros x y. destruct (Z.ltb_spec (key x) (key y)); [right; lia|left; lia].
Qed.

(** Three options: of weight 1, one that denies interface 2 of 1-ff00:0:120; of
    weight 0, one that keeps every path; of weight 2, one that keeps none. *)
Definition entry_120 (action : bool) (ifid : Z) : Entry := mkEntry action (Some (HopPredicate.mk 1 0xff0000000120 [ifid])).
Definition with_acl (w : Z) (entries : list Entry) : Option_ Policy :=
  mkOption w (Some (mkExt [] (Some (mkPolicy [] (Some (mk entries)) None None None [])))).
Definition example_options : list (Option_ Policy) :=
  [with_acl 1 [entry_120 Deny 2; mkEntry Allow None]; with_acl 0 [mkEntry Allow None]; with_acl 2 [mkEntry Deny None]].
Definition toy_sha (b : bytes) : bytes := b.
Definition source (_ : list PathMetadata.PathInterface) : Z := 0.
Definition toy_paths : list (list PathMetadata.PathInterface) := [SequenceProperties.example_path; other_path].
Definition run_toy (o : Option_ Policy) : list (list PathMetadata.PathInterface) :=
  if run_option (FilterOpt id source source toy_sha (mkFilterOptions false)) o toy_paths is Ok l then l else [].


(** A policy that is read from JSON keeps the order of its options: then an option
    of a lower weight before one of a higher weight is used together with it. *)
Example unsorted_options_mix :
  FilterOpt id source source toy_sha (mkFilterOptions false)
    (Some (mkPolicy [] None None None None
      [with_acl 0 [mkEntry Allow None]; with_acl 1 [entry_120 Deny 2; mkEntry Allow None]])) toy_paths = Ok toy_paths ∧
  FilterOpt id source source toy_sha (mkFilterOptions false)
    (Some (NewPolicy sort_Slice [] None None
      [with_acl 0 [mkEntry Allow None]; with_acl 1 [entry_120 Deny 2; mkEntry Allow None]])) toy_paths = Ok [other_path].
Proof. split; vm_compute; reflexivity. Qed.

(** The policies that an option extends are not looked up: an option that only
    extends others keeps every path. *)
Lemma option_extends_ignored {Path} (Interfaces : Path → list PathMetadata.PathInterface) Source Destination sha opts w extends paths :
  run_option (FilterOpt Interfaces Source Destination sha opts) (mkOption w (Some (mkExt extends None))) paths = Ok paths.
Proof. done. Qed.

(** ** The text of hop predicates *)

Lemma Count_app a b c : Count (a ++ b) c = Count a c + Count b c.
Proof. induction a as [|d a IH]; cbn; [done|]. rewrite IH. lia. Qed.
Lemma Count_absent s c : c ∉ s → Count s c = 0.
Proof.
  induction s as [|d s IH]; [done|]. rewrite not_elem_of_cons. intros [Hd Hs]. cbn. by rewrite bool_decide_eq_false_2, IH.
Qed.

Lemma AS_String_absent as_ c : 0 ≤ as_ ≤ ISDAS.MaxAS → ¬ is_digit 16 c → c ∉ str ":" → c ∉ ISDAS.AS_String as_.
Proof.
  intros Ha Hc H1. unfold ISDAS.AS_String, ISDAS.fmtAS, ISDAS.inRange. replace (as_ <=? ISDAS.MaxAS) with true by lia.
  cbn [negb]. change ISDAS.MaxAS with (2 ^ 48 - 1) in Ha.
  destruct (_ <=? ISDAS.MaxBGPAS); [apply AddrLemmas.FormatUint_absent; [lia|lia|done]|]. by apply AddrProperties.fmt_parts_chars.
Qed.

Lemma Split_one c s : c ∉ s → Split s [c] = [s].
Proof. intros H. unfold Split. rewrite bool_decide_eq_false_2 by done. by rewrite (split_last _ c). Qed.
Lemma Split_pair c a b : c ∉ a → c ∉ b → Split (a ++ c :: b) [c] = [a; b].
Proof.
  intros Ha Hb. unfold Split. rewrite bool_decide_eq_false_2 by done. change (a ++ c :: b) with (a ++ [c] ++ b).
  rewrite (split_part _ c) by done. by rewrite (split_last _ c).
Qed.

Definition ifids_text (ifids : list Z) : gostring := Sequence.Join ((λ ifid, FormatUint ifid 10) <$> ifids) (str ",").

Lemma parse_ifids_text ifids :
  Forall is_u64 ifids → (length ifids = 1 ∨ length ifids = 2)%nat → parse_ifids (ifids_text ifids) = Ok ifids.
Proof.
  assert (∀ n, is_u64 n → ","%char ∉ FormatUint n 10) as Hc.
  { intros n Hn. apply AddrLemmas.FormatUint_absent; [lia|done|]. apply AddrProperties.not_hex. left. reflexivity. }
  unfold parse_ifids, ifids_text, parseIfID. destruct ifids as [|x [|y [|]]]; cbn [length]; try lia.
  - intros [Hx _]%Forall_cons _. cbn [fmap list_fmap Sequence.Join]. change (str ",") with [","%char]. rewrite Split_one by auto.
    change (get [?a] 0) with (Ok a). go_cbn. by rewrite ParseUint_FormatUint.
  - intros [Hx [Hy _]%Forall_cons]%Forall_cons _. cbn [fmap list_fmap Sequence.Join]. change (str ",") with [","%char]. cbn [app].
    rewrite Split_pair by auto. change (get [?a; _] 0) with (Ok a). change (get [_; ?b] 1) with (Ok b). go_cbn.
    by rewrite !ParseUint_FormatUint.
Qed.
Lemma ifids_text_absent ifids c :
  Forall is_u64 ifids → ¬ is_digit 16 c → c ∉ str "," → c ∉ ifids_text ifids.
Proof.
  intros Hi Hd Hc. unfold ifids_text. induction Hi as [|x l Hx Hl IH]; [by apply not_elem_of_nil|].
  assert (c ∉ FormatUint x 10) by (apply AddrLemmas.FormatUint_absent; [lia|done|done]).
  destruct l as [|y l]; [done|]. change (c ∉ FormatUint x 10 ++ str "," ++ Sequence.Join ((λ ifid, FormatUint ifid 10) <$> (y :: l)) (str ",")).
  rewrite !not_elem_of_app. done.
Qed.

Lemma ifids_text_commas ifids :
  Forall is_u64 ifids → (length ifids = 1 ∨ length ifids = 2)%nat → Count (ifids_text ifids) "," ≤ 1.
Proof.
  assert (∀ n, is_u64 n → Count (FormatUint n 10) "," = 0) as Hc.
  { intros n Hn. apply Count_absent, AddrLemmas.FormatUint_absent; [lia|done|]. apply AddrProperties.not_hex. left. reflexivity. }
  unfold ifids_text. destruct ifids as [|x [|y [|]]]; cbn [length]; try lia.
  - intros [Hx _]%Forall_cons _. cbn [fmap list_fmap Sequence.Join]. rewrite Hc by done. lia.
  - intros [Hx [Hy _]%Forall_cons]%Forall_cons _. cbn [fmap list_fmap Sequence.Join]. rewrite !Count_app, !Hc by done. done.
Qed.

(** Every hop predicate that can be read is read back from its text. *)
Theorem hop_predicate_roundtrip hp : pred_ok hp → HopPredicateFromString (HopPredicate.String hp) = Ok hp.
Proof.
  destruct hp as [isd as_ ifids]. intros (Hi & Ha & Hf & Hl & Hz). unfold HopPredicate.String.
  cbn [HopPredicate.ISD HopPredicate.AS IfIDs] in *. fold (ifids_text ifids).
  assert (∀ c, ¬ is_digit 16 c → c ∉ FormatUint isd 10) as HA by (intros c Hn; apply AddrLemmas.FormatUint_absent; [lia|lia|done]).
  assert (∀ c, ¬ is_digit 16 c → c ∉ str ":" → c ∉ ISDAS.AS_String as_) as HB by (intros c; by apply AS_String_absent).
  assert (∀ c, ¬ is_digit 16 c → c ∉ str "," → c ∉ ifids_text ifids) as HC by (intros c; by apply ifids_text_absent).
  assert (¬ is_digit 16 "-"%char) as Hd by (apply AddrProperties.not_hex; left; reflexivity).
  assert (¬ is_digit 16 "#"%char) as Hh by (apply AddrProperties.not_hex; left; reflexivity).
  assert (¬ is_digit 16 ","%char) as Hc by (apply AddrProperties.not_hex; left; reflexivity).
  pose proof (ifids_text_commas ifids Hf Hl) as Hcommas.
  set (A := FormatUint isd 10) in *. set (B := ISDAS.AS_String as_) in *. set (C := ifids_text ifids) in *.
  unfold HopPredicateFromString, validateHopPredStr. rewrite !Count_app.
  rewrite !(Count_absent A), !(Count_absent B) by (first [apply HA|apply HB]; by_decide || done).
  rewrite (Count_absent C "-"), (Count_absent C "#") by (apply HC; by_decide || done).
  change (Count (str "-") "-") with 1. change (Count (str "#") "-") with 0. change (Count (str "-") "#") with 0.
  change (Count (str "#") "#") with 1. change (Count (str "-") ",") with 0. change (Count (str "#") ",") with 0.
  do 2 go_guard.
  change (A ++ str "-" ++ B ++ str "#" ++ C) with (A ++ "-"%char :: (B ++ "#"%char :: C)). change (str "-") with ["-"%char].
  rewrite Split_pair; [|by apply HA|].
  2: { rewrite not_elem_of_app, not_elem_of_cons. split; [apply HB; by_decide || done|]. split; [done|]. apply HC; by_decide || done. }
  change (get [?a; _] 0) with (Ok a). change (get [_; ?b] 1) with (Ok b). change (len [_; _] =? 1) with false. go_cbn.
  unfold A at 1. rewrite AddrProperties.ParseISD_FormatUint by done. cbn [wrap_err]. go_cbn.
  change (str "#") with ["#"%char]. rewrite Split_pair by (first [apply HB|apply HC]; by_decide || done).
  change (get [?a; _] 0) with (Ok a). change (get [_; ?b] 1) with (Ok b). change (len [_; _] =? 1) with false. go_cbn.
  unfold ISDAS.ParseAS, B, ISDAS.AS_String. rewrite (AddrLemmas.parseAS_fmtAS _ _ ":"%char); [|done|done|apply AddrProperties.colon_not_digit].
  cbn [wrap_err]. go_cbn. unfold C. rewrite parse_ifids_text by done. go_cbn.
  destruct ifids as [|x [|y [|]]]; cbn [length] in Hl; try lia.
  - change (get [x] 0) with (Ok x). change (1 <? len [x]) with false. go_cbn.
    destruct (Z.eqb_spec as_ 0) as [->|]; [|done]. apply Forall_cons in Hz as [-> _]; [|done]. done.
  - change (get [x; y] 0) with (Ok x). change (1 <? len [x; y]) with true. change (get [x; y] 1) with (Ok y). go_cbn.
    destruct (Z.eqb_spec as_ 0) as [->|]; [|done]. by apply Forall_cons in Hz as [-> [-> _]%Forall_cons].
Qed.

End PathpolProperties.
